(* ===== verification/_CoqProject ===== *)
-Q . S2P
Prelude.v
GoText.v
GoJson.v
StreamContract.v
Events.v
Client.v
ClientFacts.v
ClientAccess.v
VoiceState.v
VoiceFacts.v
StreamState.v
StreamFacts.v
Hub.v
HubInv.v
HubSpecs.v
HubOps.v
HubReach.v
HubRefresh.v
HubGrow.v
MediaHub.v
Publishers.v
HubMedia.v
HubSystem.v
HubProps.v
HubFuel.v
Presence.v
Overflow.v
AntiAbuse.v
AntiAbuseFacts.v
Buckets.v
AntiAbuseProps.v
KeyLock.v
WsHandler.v
WsFacts.v
WsProps.v
WsConnection.v
WsLifecycle.v
Pagination.v
PaginationFacts.v
Recovery.v
VoiceManager.v
VoiceManagerInv.v
VoiceManagerKeep.v
VoiceManagerSync.v
VoiceManagerMedia.v
VoiceManagerRun.v
VoiceManagerWork.v
VoiceManagerProps.v
Tables.v
Posts.v
Store.v
Accounts.v
Members.v
Invites.v
StoreInv.v
StoreKeep.v
StoreSystem.v
StoreFrames.v
StoreRuns.v
StoreProps.v
Community.v
CommunityProps.v
Channels.v
Roles.v
ReadState.v
Mentions.v
Messages.v
MessageService.v
ChannelFacts.v
Journal.v
SyncFacts.v
SyncClient.v
ChannelProps.v
SyncProps.v
MessageFacts.v
Deletion.v
MessageProps.v
MessagePages.v
E2EE.v
E2EEProps.v
