(* ===== verification/Prelude.v ===== *)
(** * Voxhold backend: a verification development of its realtime core and of
    its accounts, members, invitations, channels and messages

    Voxhold is a chat server in Go with voice and screen sharing. Its state
    lives in two places: an SQLite database behind the domain services
    ([internal/account], [internal/server], [internal/channel],
    [internal/message], ...) and the realtime hub ([internal/realtime]), which
    knows the connected websocket clients, who may see which channel, who is
    online, who is in voice, who streams and who watches, and which delivers
    every event through bounded per-client queues. The services call the hub
    through small publisher interfaces; the websocket endpoint calls its
    handlers; the WebRTC managers ([internal/voice], [internal/stream]) call
    its signal sinks and are called back to close media sessions. The hub is
    where ordering, bounds, access control, re-entrancy and concurrency meet,
    and it is what this development models first, together with what stands
    before it - the websocket endpoint ([internal/realtime/http]) and the abuse
    guard ([internal/antiabuse]) - and with smaller parts whose logic is not a
    query: the per-key locks, the WebRTC recovery controller, the cursors of
    the paged listings. The second part is the database side of who may be
    there at all: accounts and sessions, the server with its members and bans,
    invitations and invite links, on one model of the tables. The third part
    is what happens in the channels: permissions and custom roles, access to
    channels and how a change of it reaches the hub, read positions, and
    messages with the journal from which clients synchronise.

    ** Files

    - [Prelude] (this file): functional record update, the state and error
      monad in which handlers are written ([Ok], [Panic], [OutOfFuel]),
      total-correctness weakest preconditions with their rules, Go maps with an
      unspecified iteration order ([MapOrder]), set-valued indexes, list
      lemmas.
    - [StreamContract]: [internal/streamcontract], the policy of stream
      renditions.
    - [Events]: event types and payloads ([event.go], [voice_events.go],
      [stream_events.go], ...), one constructor of [EventData] per Go type.
    - [Client]: the client object ([client.go], [outgoing.go], the client half
      of [channel_access.go], [stream_legacy.go]): two queue lanes, coalescing,
      compaction into catch-up markers, the channel policy, memberships and
      subscriptions. [ClientFacts], [ClientAccess]: its theorems.
    - [VoiceState], [VoiceFacts]: [voice_state.go]. [StreamState],
      [StreamFacts]: [stream_state.go] on a heap of stream objects, and the
      rendition helpers of [stream_hub.go].
    - [Hub]: the state of [hub.go] and the mutually recursive core around
      [Unregister]; [HubOps]: the exported handlers of [hub.go],
      [channel_access.go], [role_permissions.go]; [MediaHub]: [voice_hub.go],
      [stream_hub.go], [voice_signals.go], [stream_signals.go]; [Publishers]:
      the adapters [*_events.go] and [reactions.go].
    - [HubInv]: the invariant of the hub, for either schedule of registrations
      (class [Schedule]), and the frame of its recursive core;
      [HubSpecs]: specifications of every function of the core; [HubReach],
      [HubGrow], [HubMedia]: what each handler preserves and achieves.
    - [HubSystem]: every way the program calls the hub as a request; the
      transition systems of connections, registrations and requests:
      [sys_step], in which a registration is one step, and [race_step], in
      which it is the two steps [Register_begin] and [Register_end] with any
      requests in between. [HubProps]: the theorems about their reachable
      states. [HubFuel]: independence of the fuel, single delivery.
    - [Presence]: the presence counters when requests run between the two
      parts of a registration. [Overflow]: what full queues lead to.
    - [GoText]: what the components use of [strings], [strconv],
      [unicode/utf8] and [encoding/base64], with the round trips.
    - [AntiAbuse], [AntiAbuseFacts], [AntiAbuseProps]: the guard of
      [internal/antiabuse] and its configuration. [Buckets]: for each key,
      the shared table of limiters against one token bucket of its own; the
      class [BucketLaws] states what is asked of a limiter and [Bucket] is an
      instance.
    - [KeyLock]: [internal/keylock] as steps of threads, against one lock per
      key.
    - [WsHandler]: every request handler of [internal/realtime/http]. The
      services and the media managers are the classes and records [Services],
      [VoiceMedia] and [StreamMedia], JSON decoding is [Decoder]. [WsFacts]:
      the laws asked of the media managers ([VoiceMediaLaws],
      [StreamMediaLaws]) and that every handler keeps the hub's invariant;
      [WsProps]: the theorems.
    - [WsConnection]: [connect], [readLoop] and [writeLoopWithPings], with the
      guard and the hub side by side; [WsLifecycle]: what a connection leaves
      in both.
    - [Pagination], [PaginationFacts]: [internal/community/pagination.go] and
      the listing of [scheduled.go].
    - [Recovery]: [internal/webrtcrecovery], the controller and its goroutines
      as an interleaving of steps.
    - [VoiceManager]: [internal/voice] (rooms, reservations, sessions,
      negotiation) and [internal/mediahandshake]; what a goroutine does
      between two critical sections is a task, and any task may run next. The
      peer connection is the class [Peer]. [VoiceManagerInv],
      [VoiceManagerKeep]: the invariant of the indexes and that every
      transition keeps it; [VoiceManagerSync]: what negotiation does to a
      session, under the laws [PeerLaws]; [VoiceManagerMedia]: the invariant
      of the negotiations; [VoiceManagerRun]: every operation and task keeps
      both; [VoiceManagerWork]: the measure by which the tasks end;
      [VoiceManagerProps]: the theorems.
    - [Tables]: finite maps as tables. [Posts]: the tables of messages with the
      triggers of the migrations; every statement on a message also writes the
      journal.
    - [Store]: the tables as finite maps in one record [DB], the constraints
      and foreign keys of the migrations as checks of each insert, and
      transactions as an error monad whose state is thrown away on failure;
      [internal/audit].
    - [Accounts]: [internal/account] with its repositories and
      [internal/adminreset]. [Members]: [internal/server] with its repository
      and [internal/instancebootstrap]. [Invites]: [internal/invite] with its
      repository. Hashing, bcrypt and Unicode are the class [Platform]; a
      service answers with its result, the requests it sends to the hub, and
      the database.
    - [StoreInv]: the invariant [db_inv] of the database and what one
      statement does to it; [StoreKeep]: every operation keeps it;
      [StoreSystem]: the operations as calls, and runs of them; [StoreFrames]:
      which tables a call writes; [StoreRuns]: what the operations achieve;
      [StoreProps]: how link counters, roles and access may change.
      [Community]: tokens, sessions and moderation, and the effects of the
      services on the hub; [CommunityProps]: the theorems, with a small
      instance of [Platform] for their witnesses.
    - [Channels]: [internal/channel] and [internal/permissions] with the views
      [member_permissions] and [channel_accessible_members]. [Roles]: the
      custom roles of [internal/community/roles.go]. [ReadState]:
      [internal/readstate]. [GoJson]: what [encoding/json] prints. [Mentions]:
      [internal/mentions]. [Messages]: the repository
      [internal/message/sqlite] but for its search, and polls;
      [MessageService]: the service [internal/message].
    - [ChannelFacts]: one reading of the two views, [permitted] and [reads],
      and that every query agrees with it. [HubRefresh]: what a refresh of
      channel access does to the hub. [ChannelProps]: the theorems on access.
    - [Journal]: every statement on messages is logged. [SyncFacts]: so is
      every transaction, and pruning keeps the floors right. [SyncClient]: a
      client that applies pages; [SyncProps]: the theorems on synchronisation.
    - [MessageFacts]: what a statement keeps of the messages and send keys, the
      checks a successful transaction passed and the statement it came down to;
      [Deletion]: the cascade of a deleted channel;
      [MessageProps]: the theorems on changes, repeated requests and deleted
      channels; [MessagePages]: paging through a channel.
    - [E2EE]: [internal/e2ee], the devices of encrypted voice and the policy of
      channels, with the callbacks of [cmd/api/main.go]; [E2EEProps]: the
      theorems, over the registry and the hub together.

    ** How code becomes definitions

    A Go method that mutates its receiver is a function of type [M S A]; a
    failed type assertion or a nil dereference is [Panic]. Pointers that are
    shared and mutated ([*Client], [*activeStream]) are references into a heap
    ([h_mem], [sst_heap]); the slice that [enqueueLocked] ranges over while
    [compactChannel] rewrites it is read by index, as the machine does. Maps are
    finite maps, and every loop over one goes through [MapOrder], about which
    only a permutation is known; the theorems hold for every order. Counters
    that wrap do so explicitly ([u64_succ]). Functions injected into the hub
    (policy loaders, role loader, device validator) are fields holding
    arbitrary functions, an inner [None] being an error; calls to the session
    closers are recorded in [h_trace]. SHA-256 digests are opaque strings and
    the token bucket of [golang.org/x/time/rate] is a parameter.

    A handler runs to completion. This is exact for the parts of the code under
    one lock and for the handlers serialised by [channelAccessMu] and the
    per-user transition lock. [Register] releases [clientsMu] before it counts
    the presence of the connection: [hub_reachable_coherent] is proved with
    any requests in between, but for the presence counters, which are exact
    only without them ([Presence] computes both ways in which they drift).
    The other theorems of the hub take a registration as one step.

    The database is the other state. A statement or a transaction of a
    repository is one atomic step; where a service runs several of them, an
    argument [others] says what the other requests did to the database in
    between, and the theorems hold for every such function, or name the one
    they ask for. [unixepoch()] is an argument per statement. A constraint that
    fails is an error value; other errors of the driver are not modelled.

    ** Fuel

    A broadcast unregisters the clients whose queue is full, and unregistering
    broadcasts again. [unregister] takes fuel; [Unregister] supplies
    [S (hub_measure h)], the number of stream entries, voice entries and
    memberships: each nested broadcast follows the removal of one of them.
    [hub_requests_total] shows the fuel always suffices and
    [unregister_fuel_irrelevant] that more changes nothing. No other
    definition of the hub needs fuel; [base36_digits] has 13 units, enough for
    the digits of any 64-bit number in base 36, and [FormatInt] 20 for the
    decimal digits. The client of [PaginationFacts] that follows cursors
    ([crawl]) needs one page more than there are rows, and so does that of
    [MessagePages] ([history]). The scans of [Mentions] have one unit per byte
    and one more, and each step consumes at least one byte; [batches] has one
    unit per identifier.

    ** What the theorems show

    Client: bounded queues, no silent loss, order of critical events, alias
    safety of the compaction loop, no queued event of a hidden channel,
    fairness of the two lanes, unique connection identifiers. Voice and
    streams: coherence of the indexes in every reachable state, exact effects
    of join, watch and leave, order independence, playability of every
    accepted stream. Hub: coherence in every reachable state, totality of
    every request, completeness of unregistration, session, membership, server
    and channel revocation and of shutdown, confinement of the key relay to
    the one connection the voice table names and of the peer-to-peer relay,
    single delivery. Endpoint: every request sequence is
    handled to the end in a coherent hub; voice is entered and channels are
    subscribed only behind the checks of the code; a refused connection is not
    in the hub and holds no slot, a served one has exactly its client and two
    slots, both given back at the end; the periodic session check closes
    exactly the connections it should. Guard: which environments are accepted
    and what every field of the configuration is then, bounded tables,
    exact login lockout, exact connection slots, isolation of the keys of the
    limiter table from each other (for a key of one rate whose bucket refills
    within the time to live, in a table that does not evict).
    Locks: refinement of one mutex per key. Recovery: one live run,
    bounded attempts, at most one callback after a cancellation. Listings:
    cursors round trip and paging is complete. Voice media: rooms within their
    limit, indexes that agree, no leaked room or reservation, goroutines that
    end under every schedule and then leave every session with the tracks it
    should send, offered or waiting for an answer.
    Accounts, members, invitations: from the bootstrap on, whatever requests
    follow and however they interleave, the tables satisfy their constraints
    and there is one server with one active owner; link counters count exactly
    the users admitted; roles change in six ways only; a ban and a change of
    password are complete in the database and in the hub, and the change of
    password revokes nothing else; tokens of a login authenticate that account
    until they expire or are given back, and not afterwards; whoever has
    access is active, under the condition on late requests that
    [late_requests_regain_access] shows to be needed: every usable link
    readmits a banned user whose request was authenticated before the ban, and
    every login overtaken by a change of password gets a token that is good.
    Channels: every place that decides who may read a channel decides the
    same; permissions are exactly what the roles and the timeout say; a change
    of access is enforced in the database and, once the hub handled the
    refresh, in every connection. Messages: a message appears, changes and
    disappears only by a request that was allowed to; a request sent twice
    takes effect once; paging through a channel or a thread is complete; a
    client that polls has, after a last page, exactly the messages of the
    channel from its first page on, whatever ran between its polls, and it
    gets there in a bounded number of polls. Encryption: at most ten active
    devices, keys that never change, revocations that are final; and once the
    hub handled a change of devices or of a policy no connection is in voice
    against it.
    Ten theorems establish deviations of the code from what it means to do:
    [presence_race], [unpinned_not_compacted], [slow_join_ghost],
    [login_block_overflow], [ip_budget_fixed_by_first_request],
    [subscribe_acknowledged_but_refused],
    [refused_candidate_drops_negotiation], [late_requests_regain_access] (two
    of them), [reply_blocks_deletion], [poll_request_collision].

    ** Not modelled

    Timers, sockets, telemetry counters, logging, JSON decoding and the HTTP
    handlers of the domain services, which decode requests for the modelled
    services and encode their answers, are left out. So are the full-text
    search of messages, which is SQLite's own, the encoding, storing and
    deleting of media (attachments, avatars, recordings, link previews), which
    is I/O over files and image decoders, notifications, calls of private
    conversations, and the packets and transport settings of the media
    managers. Of the two media managers only the one for voice is modelled; the
    hub's side of streams is, the sessions of [internal/stream] are not. The
    journal covers channel messages; private conversations appear only as far
    as a message is forwarded from one. SQLite is modelled by the constraints,
    triggers and foreign key actions of the migrations; rows are visited in an
    order about which only a permutation is known.
*)

From stdpp Require Export base tactics gmap strings list sorting pretty fin_maps.
From Stdlib Require Export ZArith Lia.
From Stdlib Require Ascii String.

Set Default Proof Using "Type".

(** ** Functional record update

    A record type [R] declares its eta-expansion once as an instance of
    [Fields]; [r <| f := v |>] and [r <| f ::= g |>] then rebuild the record
    with only field [f] changed, which is how the assignments [r.f = v] of the
    source are translated. *)

Class Fields (R : Type) := rebuild : R → R.

Class Setter {R E : Type} (get : R → E) := update_with : (E → E) → R → R.
Arguments update_with {R E} get {Setter} upd r : assert.

Ltac derive_setter :=
  match goal with
  | |- @Setter ?R ?E ?get =>
      let inst := constr:(ltac:(typeclasses eauto) : Fields R) in
      let eta := eval hnf in inst in
      lazymatch eval pattern get in eta with
      | ?build _ =>
          let body := eval cbv beta in
            (fun upd : E → E => build (fun r : R => upd (get r))) in
          exact body
      end
  end.

#[export] Hint Extern 0 (Setter _) => derive_setter : typeclass_instances.

Declare Scope go_scope.
Delimit Scope go_scope with go.
Notation "r <| f ::= g |>" := (update_with f g r)
  (at level 1, f at level 1, left associativity) : go_scope.
Notation "r <| f := v |>" := (update_with f (fun _ => v) r)
  (at level 1, f at level 1, left associativity) : go_scope.
Open Scope go_scope.

(** ** Outcomes and the state monad

    A Go function that mutates shared structures becomes a state transformer.
    [Panic] is a run-time panic of the source (a write to a nil map, a failed
    type assertion); [OutOfFuel] is the only artefact of the model, used where
    the source recurses through callbacks, and is proved unreachable. *)

Inductive Res (A : Type) : Type :=
  | Ok (a : A)
  | Panic
  | OutOfFuel.
Arguments Ok {A} a.
Arguments Panic {A}.
Arguments OutOfFuel {A}.

Definition M (S A : Type) : Type := S → Res (A * S).

#[export] Instance M_ret {S} : MRet (M S) := fun A a s => Ok (a, s).
#[export] Instance M_bind {S} : MBind (M S) := fun A B f m s =>
  match m s with
  | Ok (a, s') => f a s'
  | Panic => Panic
  | OutOfFuel => OutOfFuel
  end.

Definition get_state {S} : M S S := fun s => Ok (s, s).
Definition gets {S A} (f : S → A) : M S A := fun s => Ok (f s, s).
Definition modify {S} (f : S → S) : M S unit := fun s => Ok (tt, f s).
Definition panic {S A} : M S A := fun _ => Panic.

(** [when b m] is the statement [if b { m }]. *)
Definition when {S} (b : bool) (m : M S unit) : M S unit :=
  if b then m else mret tt.

(** [for _, x := range l { f(x) }] over a slice that is not reallocated. *)
Fixpoint for_each {S A} (l : list A) (f : A → M S unit) : M S unit :=
  match l with
  | [] => mret tt
  | x :: l' => f x ;; for_each l' f
  end.

(** The same loop with an accumulator threaded through it. *)
Fixpoint fold_each {S A B} (l : list A) (b : B) (f : B → A → M S B) : M S B :=
  match l with
  | [] => mret b
  | x :: l' => b' ← f b x; fold_each l' b' f
  end.

(** ** Total-correctness weakest preconditions *)

Definition wp {S A} (m : M S A) (Q : A → S → Prop) (s : S) : Prop :=
  match m s with
  | Ok (a, s') => Q a s'
  | _ => False
  end.

(** ** Iteration order of Go maps

    The order in which a [range] over a map visits the keys is unspecified.
    The development is parametric in it: [visit] may be any function that
    returns a permutation of the entries. *)

Class MapOrder := {
  visit : ∀ {A : Type}, list A → list A;
  visit_perm : ∀ {A : Type} (l : list A), visit l ≡ₚ l
}.

Definition range_keys `{MapOrder, Countable K} {V} (m : gmap K V) : list K :=
  visit (map_to_list m).*1.
Definition range_values `{MapOrder, Countable K} {V} (m : gmap K V) : list V :=
  visit (map_to_list m).*2.
Definition range_entries `{MapOrder, Countable K} {V} (m : gmap K V) : list (K * V) :=
  visit (map_to_list m).
Definition range_set `{MapOrder, Countable K} (s : gset K) : list K :=
  visit (elements s).

(** The order used by the executable witnesses. *)
Definition key_order : MapOrder :=
  {| visit := fun A l => l; visit_perm := fun A l => reflexivity l |}.

(** ** Two-level indexes [map[K]map[V]struct{}]

    The source creates the inner map on first use and deletes it when it
    becomes empty. *)

Definition index_add `{Countable K, Countable V} (k : K) (v : V)
    (m : gmap K (gset V)) : gmap K (gset V) :=
  <[k := {[v]} ∪ default ∅ (m !! k)]> m.

Definition index_remove `{Countable K, Countable V} (k : K) (v : V)
    (m : gmap K (gset V)) : gmap K (gset V) :=
  let s := default ∅ (m !! k) ∖ {[v]} in
  if decide (s = ∅) then delete k m else <[k := s]> m.

Definition index_get `{Countable K, Countable V} (k : K)
    (m : gmap K (gset V)) : gset V :=
  default ∅ (m !! k).

(** No key of an index is bound to an empty inner map. *)
Definition index_tight `{Countable K, Countable V} (m : gmap K (gset V)) : Prop :=
  ∀ k, m !! k ≠ Some ∅.

(** ** Machine integers *)

(** An unsigned 64-bit counter incremented by the source's [x++]. *)
Definition u64_succ (x : Z) : Z := Z.modulo (x + 1) (2 ^ 64).

(** ** Lemmas: weakest preconditions *)

Section wp_rules.
Context {S : Type}.

Lemma wp_ret {A} (a : A) (Q : A → S → Prop) s :
  Q a s → wp (mret a) Q s.
Proof. done. Qed.

Lemma wp_bind {A B} (m : M S A) (f : A → M S B) Q s :
  wp m (fun a s' => wp (f a) Q s') s → wp (m ≫= f) Q s.
Proof. unfold wp, mbind, M_bind. by destruct (m s) as [[a s']| |]. Qed.

Lemma wp_gets {A} (f : S → A) (Q : A → S → Prop) s :
  Q (f s) s → wp (gets f) Q s.
Proof. done. Qed.

Lemma wp_get_state (Q : S → S → Prop) s : Q s s → wp get_state Q s.
Proof. done. Qed.

Lemma wp_modify (f : S → S) (Q : unit → S → Prop) s :
  Q tt (f s) → wp (modify f) Q s.
Proof. done. Qed.

Lemma wp_when (b : bool) (m : M S unit) Q s :
  (b = true → wp m Q s) → (b = false → Q tt s) → wp (when b m) Q s.
Proof. destruct b; naive_solver. Qed.

Lemma wp_mono {A} (m : M S A) (Q Q' : A → S → Prop) s :
  wp m Q s → (∀ a s', Q a s' → Q' a s') → wp m Q' s.
Proof. unfold wp. destruct (m s) as [[a s']| |]; naive_solver. Qed.

Lemma wp_and {A} (m : M S A) (Q Q' : A → S → Prop) s :
  wp m Q s → wp m Q' s → wp m (fun a s' => Q a s' ∧ Q' a s') s.
Proof. unfold wp. by destruct (m s) as [[a s']| |]. Qed.

Lemma bind_run {A B} (m : M S A) (f : A → M S B) s a s' :
  m s = Ok (a, s') → (m ≫= f) s = f a s'.
Proof. intros Hm. unfold mbind, M_bind. by rewrite Hm. Qed.

Lemma bind_gets {A B} (g : S → A) (f : A → M S B) s : (gets g ≫= f) s = f (g s) s.
Proof. done. Qed.

Lemma wp_run {A} (m : M S A) (Q : A → S → Prop) s :
  wp m Q s ↔ ∃ a s', m s = Ok (a, s') ∧ Q a s'.
Proof.
  unfold wp. destruct (m s) as [[a s']| |].
  - split; [eauto|]. by intros (?&?&[= -> ->]&?).
  - split; [done|]. by intros (?&?&?&?).
  - split; [done|]. by intros (?&?&?&?).
Qed.

Lemma wp_result {A} (m : M S A) (Q : A → S → Prop) s a s' :
  wp m Q s → m s = Ok (a, s') → Q a s'.
Proof. intros Hwp Hm. unfold wp in Hwp. by rewrite Hm in Hwp. Qed.

(** Loop rule: [I pre s] holds after the elements [pre] were processed. *)
Lemma wp_for_each {A} (l : list A) (f : A → M S unit) (I : list A → S → Prop) s :
  I [] s →
  (∀ pre x rest s', l = pre ++ x :: rest → I pre s' →
     wp (f x) (fun _ s'' => I (pre ++ [x]) s'') s') →
  wp (for_each l f) (fun _ s' => I l s') s.
Proof.
  intros H0 Hstep.
  cut (∀ rest pre s', l = pre ++ rest → I pre s' →
    wp (for_each rest f) (fun _ s'' => I l s'') s').
  { intros Hcut. by apply (Hcut l []). }
  intros rest; induction rest as [|x rest IH]; intros pre s' -> HI.
  { by rewrite app_nil_r. }
  simpl. apply wp_bind. eapply wp_mono; [by eapply Hstep|].
  intros [] s'' HI'. apply (IH (pre ++ [x])); [by rewrite <- app_assoc|done].
Qed.

Lemma wp_for_each_inv {A} (l : list A) (f : A → M S unit) (I : S → Prop) s :
  I s → (∀ x s', x ∈ l → I s' → wp (f x) (fun _ => I) s') →
  wp (for_each l f) (fun _ => I) s.
Proof.
  intros H0 Hstep. apply (wp_for_each l f (fun _ => I)); [done|].
  intros pre x rest s' -> HI. apply Hstep; [set_solver|done].
Qed.

Lemma wp_fold_each {A B} (l : list A) (b : B) (f : B → A → M S B)
    (I : list A → B → S → Prop) s :
  I [] b s →
  (∀ pre x rest b' s', l = pre ++ x :: rest → I pre b' s' →
     wp (f b' x) (fun b'' s'' => I (pre ++ [x]) b'' s'') s') →
  wp (fold_each l b f) (fun b' s' => I l b' s') s.
Proof.
  intros H0 Hstep.
  cut (∀ rest pre b' s', l = pre ++ rest → I pre b' s' →
    wp (fold_each rest b' f) (fun b'' s'' => I l b'' s'') s').
  { intros Hcut. by apply (Hcut l []). }
  intros rest; induction rest as [|x rest IH]; intros pre b' s' -> HI.
  { by rewrite app_nil_r. }
  simpl. apply wp_bind. eapply wp_mono; [by eapply Hstep|].
  intros b'' s'' HI'. apply (IH (pre ++ [x])); [by rewrite <- app_assoc|done].
Qed.

End wp_rules.

(** One step of symbolic execution of a monadic body. *)
Ltac wp_step :=
  match goal with
  | |- wp (mbind _ _) _ _ => apply wp_bind
  | |- wp (mret _) _ _ => apply wp_ret
  | |- wp (gets _) _ _ => apply wp_gets
  | |- wp get_state _ _ => apply wp_get_state
  | |- wp (modify _) _ _ => apply wp_modify
  | |- wp (when _ _) _ _ => apply wp_when; intros ?
  | |- wp (if ?b then _ else _) _ _ => destruct b eqn:?
  | |- wp (match ?x with _ => _ end) _ _ => destruct x eqn:?
  end; cbv beta.
Ltac wp_steps := repeat (wp_step; simpl).

(** ** Lemmas: lists *)

Lemma Forall_filter_sub {A} (P Q : A → Prop) `{∀ x, Decision (Q x)} (l : list A) :
  Forall P l → Forall P (filter Q l).
Proof. rewrite !Forall_forall. intros HP x [_ Hx]%list_elem_of_filter. auto. Qed.

Lemma filter_all {A} (P : A → Prop) `{∀ x, Decision (P x)} (l : list A) :
  (∀ x, x ∈ l → P x) → filter P l = l.
Proof.
  induction l as [|x l IH]; intros HP; [done|].
  rewrite filter_cons_True by (apply HP; set_solver). f_equal. apply IH. set_solver.
Qed.

Lemma filter_full_length {A} (P : A → Prop) `{∀ x, Decision (P x)} (l : list A) :
  length (filter P l) = length l → filter P l = l.
Proof.
  induction l as [|x l IH]; [done|]. rewrite filter_cons. case_decide; simpl.
  - intros [=]. f_equal. auto.
  - intros Hlen. pose proof (length_filter P l). lia.
Qed.

(** The loop that collects values without repeating one. *)
Lemma elem_of_collect_distinct `{EqDecision A} (l : list A) u :
  u ∈ foldl (fun ids u => if bool_decide (u ∈ ids) then ids else ids ++ [u]) [] l ↔ u ∈ l.
Proof.
  assert (∀ acc, u ∈ foldl (fun ids u => if bool_decide (u ∈ ids) then ids else ids ++ [u]) acc l ↔
    u ∈ acc ∨ u ∈ l) as ->; [|set_solver].
  induction l as [|v l IH]; intros acc; simpl; [set_solver|]. rewrite IH. case_bool_decide; set_solver.
Qed.

(** ** Lemmas: strings *)

Lemma string_ltb_le a b : String.ltb a b = false ↔ String.le b a.
Proof.
  unfold String.ltb, String.le, String.leb. rewrite (String.compare_antisym b a).
  by destruct (String.compare a b).
Qed.

(** ** Lemmas: map iteration and indexes *)

Section range_facts.
Context `{MapOrder, Countable K}.

Lemma elem_of_range_keys {V} (m : gmap K V) k :
  k ∈ range_keys m ↔ is_Some (m !! k).
Proof.
  unfold range_keys. rewrite visit_perm, list_elem_of_fmap. split.
  - intros [[k' v] [-> Hkv]]. apply elem_of_map_to_list in Hkv. simpl. eauto.
  - intros [v Hv]. exists (k, v). by rewrite elem_of_map_to_list.
Qed.

Lemma elem_of_range_entries {V} (m : gmap K V) k v :
  (k, v) ∈ range_entries m ↔ m !! k = Some v.
Proof. unfold range_entries. by rewrite visit_perm, elem_of_map_to_list. Qed.

Lemma elem_of_range_values {V} (m : gmap K V) v :
  v ∈ range_values m ↔ ∃ k, m !! k = Some v.
Proof.
  unfold range_values. rewrite visit_perm, list_elem_of_fmap. split.
  - intros [[k v'] [-> Hkv]]. apply elem_of_map_to_list in Hkv. simpl. eauto.
  - intros [k Hk]. exists (k, v). by rewrite elem_of_map_to_list.
Qed.

Lemma elem_of_range_set (s : gset K) k : k ∈ range_set s ↔ k ∈ s.
Proof. unfold range_set. by rewrite visit_perm, elem_of_elements. Qed.

Lemma NoDup_range_set (s : gset K) : NoDup (range_set s).
Proof. unfold range_set. rewrite visit_perm. apply NoDup_elements. Qed.

Lemma NoDup_range_keys {V} (m : gmap K V) : NoDup (range_keys m).
Proof. unfold range_keys. rewrite visit_perm. apply NoDup_fst_map_to_list. Qed.

Lemma length_range_set (s : gset K) : length (range_set s) = size s.
Proof. unfold range_set. by rewrite visit_perm. Qed.

Lemma length_range_values {V} (m : gmap K V) : length (range_values m) = size m.
Proof.
  unfold range_values. by rewrite visit_perm, length_fmap, length_map_to_list.
Qed.
End range_facts.

(** A map that lost entries, and at least the one of [c], is smaller. *)
Lemma map_shrink_lt `{Countable K} {V} (m m' : gmap K V) c :
  (∀ k, m' !! k = None ∨ m' !! k = m !! k) → is_Some (m !! c) → m' !! c = None →
  size m' < size m.
Proof.
  intros Hs [v Hc] Hn. apply Nat.le_lt_trans with (size (delete c m)).
  - apply map_subseteq_size, map_subseteq_spec. intros k w Hk. rewrite lookup_delete.
    case_decide; [congruence|]. destruct (Hs k) as [?|<-]; congruence.
  - rewrite map_size_delete_Some by eauto. assert (size m ≠ 0); [|lia].
    rewrite map_size_non_empty_iff. intros ->. by rewrite lookup_empty in Hc.
Qed.

Section index_facts.
Context `{Countable K, Countable V}.
Implicit Types (m : gmap K (gset V)) (k : K) (v : V).

Lemma elem_of_index_add k v m k' v' :
  v' ∈ index_get k' (index_add k v m) ↔ (k' = k ∧ v' = v) ∨ v' ∈ index_get k' m.
Proof.
  unfold index_get, index_add. destruct (decide (k' = k)) as [->|Hne].
  - rewrite lookup_insert_eq. simpl. set_solver.
  - rewrite lookup_insert_ne by done. naive_solver.
Qed.

Lemma elem_of_index_remove k v m k' v' :
  v' ∈ index_get k' (index_remove k v m) ↔ v' ∈ index_get k' m ∧ (k' ≠ k ∨ v' ≠ v).
Proof.
  unfold index_get, index_remove. case_decide as Hempty.
  - destruct (decide (k' = k)) as [->|Hne].
    + rewrite lookup_delete_eq. simpl. set_solver.
    + rewrite lookup_delete_ne by done. naive_solver.
  - destruct (decide (k' = k)) as [->|Hne].
    + rewrite lookup_insert_eq. simpl. set_solver.
    + rewrite lookup_insert_ne by done. naive_solver.
Qed.

Lemma index_tight_empty : index_tight (∅ : gmap K (gset V)).
Proof. intros k. by rewrite lookup_empty. Qed.

Lemma index_tight_add k v m : index_tight m → index_tight (index_add k v m).
Proof.
  intros Hm k'. unfold index_add. rewrite lookup_insert.
  case_decide; [|apply Hm]. intros [= Heq]. set_solver.
Qed.

Lemma index_tight_remove k v m : index_tight m → index_tight (index_remove k v m).
Proof.
  intros Hm k'. unfold index_remove. case_decide.
  - rewrite lookup_delete. case_decide; [done|apply Hm].
  - rewrite lookup_insert. case_decide; [congruence|apply Hm].
Qed.
End index_facts.

Create HintDb voxhold.
#[export] Hint Resolve index_tight_empty index_tight_add index_tight_remove : voxhold.
#[export] Hint Rewrite @elem_of_index_add @elem_of_index_remove
  @elem_of_range_set @elem_of_range_keys @elem_of_range_entries : voxhold.
