(* ===== verification/GoText.v ===== *)
(** * Text and numbers of the Go standard library

    What the components use of [strings], [strconv], [fmt] and
    [encoding/base64]: cutting, decimal integers of 64 bits, booleans and the
    unpadded URL alphabet, and [unicode/utf8]. A Go string is a sequence of bytes, [string] here.
    The lemmas are the round trips: a printed integer parses back, an encoded
    string decodes back. *)

From S2P Require Import Prelude.

(** ** Cutting *)

Definition CutPrefix (s prefix : string) : option string :=
  if String.prefix prefix s
  then Some (String.substring (String.length prefix) (String.length s - String.length prefix) s)
  else None.

Definition CutSuffix (s suffix : string) : option string :=
  let n := String.length s - String.length suffix in
  if (String.length suffix <=? String.length s) &&
     String.eqb (String.substring n (String.length suffix) s) suffix
  then Some (String.substring 0 n s) else None.

(** [strings.Cut] at a separator of one byte. *)
Fixpoint Cut (s : string) (sep : Ascii.ascii) : option (string * string) :=
  match s with
  | EmptyString => None
  | String c s' =>
      if Ascii.eqb c sep then Some ("", s')
      else match Cut s' sep with Some (a, b) => Some (String c a, b) | None => None end
  end.

(** ** Integers *)

(** Two's complement wrap-around of [int]. *)
Definition wrap_int (z : Z) : Z := (z + 2 ^ 63) mod 2 ^ 64 - 2 ^ 63.

Fixpoint parse_digits (acc : Z) (s : string) : option Z :=
  match s with
  | EmptyString => Some acc
  | String c s' =>
      let d := Z.of_nat (Ascii.nat_of_ascii c) - 48 in
      if (0 <=? d)%Z && (d <=? 9)%Z then parse_digits (acc * 10 + d) s' else None
  end%Z.

(** [strconv.ParseInt(s, 10, 64)]; [None] is an error. *)
Definition ParseInt (s : string) : option Z :=
  let signed neg digits :=
    match digits with
    | EmptyString => None
    | _ => match parse_digits 0 digits with
        | Some n =>
            let v := if neg : bool then (- n)%Z else n in
            if (- 2 ^ 63 <=? v)%Z && (v <? 2 ^ 63)%Z then Some v else None
        | None => None
        end
    end in
  match s with
  | EmptyString => None
  | String c s' =>
      if Ascii.eqb c (Ascii.ascii_of_nat 43) then signed false s'
      else if Ascii.eqb c (Ascii.ascii_of_nat 45) then signed true s'
      else signed false s
  end.

(** [strconv.Atoi] on a 64-bit platform. *)
Definition Atoi (s : string) : option Z := ParseInt s.

(** [strconv.ParseBool] *)
Definition ParseBool (s : string) : option bool :=
  if decide (s ∈ ["1"; "t"; "T"; "TRUE"; "true"; "True"]) then Some true
  else if decide (s ∈ ["0"; "f"; "F"; "FALSE"; "false"; "False"]) then Some false
  else None.

(** Decimal digits, most significant first; a 64-bit number has at most
    twenty. *)
Definition digit (d : Z) : Ascii.ascii := Ascii.ascii_of_nat (Z.to_nat (48 + d)).

Fixpoint digits (fuel : nat) (n : Z) (acc : string) : string :=
  match fuel with
  | 0 => acc
  | S fuel' =>
      let acc' := String (digit (n mod 10)) acc in
      if (n <? 10)%Z then acc' else digits fuel' (n / 10) acc'
  end.

(** [strconv.FormatInt(z, 10)], the verb [%d] of an [int64]. *)
Definition FormatInt (z : Z) : string :=
  if (z <? 0)%Z then String (Ascii.ascii_of_nat 45) (digits 20 (- z) "") else digits 20 z "".

(** ** base64.RawURLEncoding *)

Definition byte_of (c : Ascii.ascii) : Z := Z.of_nat (Ascii.nat_of_ascii c).
Definition of_byte (z : Z) : Ascii.ascii := Ascii.ascii_of_nat (Z.to_nat z).

Definition b64_alphabet : string :=
  "ABCDEFGHIJKLMNOPQRSTUVWXYZabcdefghijklmnopqrstuvwxyz0123456789-_".

Definition b64_char (v : Z) : Ascii.ascii :=
  default Ascii.zero (String.get (Z.to_nat v) b64_alphabet).

Fixpoint b64_index (c : Ascii.ascii) (s : string) : option Z :=
  match s with
  | EmptyString => None
  | String c' s' => if Ascii.eqb c c' then Some 0%Z
                    else match b64_index c s' with Some i => Some (i + 1)%Z | None => None end
  end.
Definition b64_value (c : Ascii.ascii) : option Z := b64_index c b64_alphabet.

Fixpoint EncodeToString (s : string) : string :=
  let out v k := b64_char (v / 64 ^ k mod 64) in
  match s with
  | EmptyString => ""
  | String a EmptyString =>
      let v := (byte_of a * 16)%Z in String (out v 1%Z) (String (out v 0%Z) "")
  | String a (String b EmptyString) =>
      let v := ((byte_of a * 256 + byte_of b) * 4)%Z in
      String (out v 2%Z) (String (out v 1%Z) (String (out v 0%Z) ""))
  | String a (String b (String c rest)) =>
      let v := ((byte_of a * 256 + byte_of b) * 256 + byte_of c)%Z in
      String (out v 3%Z) (String (out v 2%Z) (String (out v 1%Z) (String (out v 0%Z)
        (EncodeToString rest))))
  end.

(** Carriage returns and line feeds are skipped. *)
Fixpoint b64_values (s : string) : option (list Z) :=
  match s with
  | EmptyString => Some []
  | String c s' =>
      if (byte_of c =? 10)%Z || (byte_of c =? 13)%Z then b64_values s'
      else match b64_value c, b64_values s' with
        | Some v, Some vs => Some (v :: vs)
        | _, _ => None
        end
  end.

Fixpoint b64_bytes (vs : list Z) : option string :=
  match vs with
  | [] => Some ""
  | [_] => None
  | [a; b] => Some (String (of_byte ((a * 64 + b) / 16)) "")
  | [a; b; c] =>
      let v := ((a * 64 + b) * 64 + c)%Z in
      Some (String (of_byte (v / 1024)) (String (of_byte (v / 4 mod 256)) ""))
  | a :: b :: c :: d :: rest =>
      let v := (((a * 64 + b) * 64 + c) * 64 + d)%Z in
      match b64_bytes rest with
      | Some s => Some (String (of_byte (v / 65536))
                   (String (of_byte (v / 256 mod 256)) (String (of_byte (v mod 256)) s)))
      | None => None
      end
  end.

(** [DecodeString]; [None] is an error. *)
Definition DecodeString (s : string) : option string :=
  match b64_values s with Some vs => b64_bytes vs | None => None end.

(** ** UTF-8

    [utf8.DecodeRuneInString]: the first rune of a string and the number of
    bytes it takes; a byte that starts no valid sequence is the replacement
    character and takes one byte. *)
Definition RuneError : Z := 65533.

Definition decode_rune (s : string) : Z * nat :=
  let within lo hi c := ((lo <=? byte_of c) && (byte_of c <=? hi))%Z in
  let cont := within 128%Z 191%Z in
  let low c := (byte_of c - 128)%Z in
  match s with
  | EmptyString => (RuneError, 0)
  | String a r =>
      let x := byte_of a in
      if (x <? 128)%Z then (x, 1)
      else if (x <? 194)%Z then (RuneError, 1)
      else if (x <? 224)%Z then
        match r with
        | String b _ => if cont b then (((x - 192) * 64 + low b)%Z, 2) else (RuneError, 1)
        | EmptyString => (RuneError, 1)
        end
      else if (x <? 240)%Z then
        match r with
        | String b (String c _) =>
            if within (if x =? 224 then 160 else 128)%Z (if x =? 237 then 159 else 191)%Z b && cont c
            then ((((x - 224) * 64 + low b) * 64 + low c)%Z, 3) else (RuneError, 1)
        | _ => (RuneError, 1)
        end
      else if (x <? 245)%Z then
        match r with
        | String b (String c (String d _)) =>
            if within (if x =? 240 then 144 else 128)%Z (if x =? 244 then 143 else 191)%Z b &&
               cont c && cont d
            then (((((x - 240) * 64 + low b) * 64 + low c) * 64 + low d)%Z, 4) else (RuneError, 1)
        | _ => (RuneError, 1)
        end
      else (RuneError, 1)
  end.

(** The runes a [range] over the string yields; [skip] bytes belong to the
    rune that was yielded last. *)
Fixpoint runes_from (skip : nat) (s : string) : list Z :=
  match s with
  | EmptyString => []
  | String _ s' =>
      match skip with
      | S skip' => runes_from skip' s'
      | 0 => let '(r, width) := decode_rune s in r :: runes_from (width - 1) s'
      end
  end.
Definition runes (s : string) : list Z := runes_from 0 s.
Definition RuneCountInString (s : string) : nat := length (runes s).

(** [unicode.IsSpace] *)
Definition IsSpace (r : Z) : bool :=
  ((9 <=? r) && (r <=? 13) || (r =? 32) || (r =? 133) || (r =? 160) || (r =? 5760) ||
   (8192 <=? r) && (r <=? 8202) || (r =? 8232) || (r =? 8233) || (r =? 8239) || (r =? 8287) ||
   (r =? 12288))%Z.

Fixpoint trim_left (skip : nat) (s : string) : string :=
  match s with
  | EmptyString => ""
  | String _ s' =>
      match skip with
      | S skip' => trim_left skip' s'
      | 0 => let '(r, width) := decode_rune s in
             if IsSpace r then trim_left (width - 1) s' else s
      end
  end.

Fixpoint trim_right (skip : nat) (s : string) : string :=
  match s with
  | EmptyString => ""
  | String c s' =>
      match skip with
      | S skip' => String c (trim_right skip' s')
      | 0 => if forallb IsSpace (runes s) then ""
             else String c (trim_right ((decode_rune s).2 - 1) s')
      end
  end.

Definition TrimSpace (s : string) : string := trim_right 0 (trim_left 0 s).

(** ** Lemmas: integers *)

Lemma byte_of_bounds c : (0 <= byte_of c < 256)%Z.
Proof. unfold byte_of. pose proof (Ascii.nat_ascii_bounded c). lia. Qed.

Lemma of_byte_of c : of_byte (byte_of c) = c.
Proof. unfold of_byte, byte_of. rewrite Nat2Z.id. apply Ascii.ascii_nat_embedding. Qed.

Lemma of_byte_eq z c : z = byte_of c → of_byte z = c.
Proof. intros ->. apply of_byte_of. Qed.

Lemma digit_value d :
  (0 <= d <= 9)%Z → (Z.of_nat (Ascii.nat_of_ascii (digit d)) - 48 = d)%Z.
Proof. intros Hd. unfold digit. rewrite Ascii.nat_ascii_embedding; lia. Qed.

Lemma parse_digit acc d s :
  (0 <= d <= 9)%Z → parse_digits acc (String (digit d) s) = parse_digits (acc * 10 + d) s.
Proof.
  intros Hd. cbn [parse_digits]. rewrite digit_value by done.
  rewrite (proj2 (Z.leb_le 0 d)), (proj2 (Z.leb_le d 9)) by lia. done.
Qed.

Lemma parse_digits_digits fuel : ∀ n s,
  (0 <= n < 10 ^ Z.of_nat fuel)%Z → fuel ≠ 0 →
  ∃ k, ∀ acc, parse_digits acc (digits fuel n s) = parse_digits (acc * 10 ^ k + n) s ∧ (0 <= k)%Z.
Proof.
  induction fuel as [|fuel IH]; intros n s Hn Hf; [done|]. cbn [digits].
  assert (0 <= n mod 10 <= 9)%Z by (pose proof (Z.mod_pos_bound n 10); lia).
  destruct (Z.ltb_spec n 10) as [Hlt|Hge].
  - exists 1%Z. intros acc. rewrite parse_digit by done. rewrite Z.mod_small by lia. split; [done|lia].
  - rewrite Nat2Z.inj_succ, Z.pow_succ_r in Hn by lia.
    destruct (IH (n / 10)%Z (String (digit (n mod 10)) s)) as [k Hk].
    + split; [apply Z.div_pos; lia|]. apply Z.div_lt_upper_bound; lia.
    + intros ->. simpl in Hn. lia.
    + exists (k + 1)%Z. intros acc. destruct (Hk acc) as [-> Hk0]. split; [|lia].
      rewrite parse_digit by done. rewrite Z.pow_add_r by lia. f_equal.
      pose proof (Z.div_mod n 10 ltac:(lia)). lia.
Qed.

Lemma digits_head fuel : ∀ n s,
  (0 <= n)%Z → fuel ≠ 0 → ∃ d s', (0 <= d <= 9)%Z ∧ digits fuel n s = String (digit d) s'.
Proof.
  induction fuel as [|fuel IH]; intros n s Hn Hf; [done|]. cbn [digits].
  assert (0 <= n mod 10 <= 9)%Z by (pose proof (Z.mod_pos_bound n 10); lia).
  destruct (Z.ltb n 10); [eauto|]. destruct fuel as [|fuel]; [simpl; eauto|].
  apply IH; [by apply Z.div_pos|done].
Qed.

Lemma digit_not_sign d : (0 <= d <= 9)%Z →
  Ascii.eqb (digit d) (Ascii.ascii_of_nat 43) = false ∧ Ascii.eqb (digit d) (Ascii.ascii_of_nat 45) = false.
Proof.
  intros Hd. assert (d = 0 ∨ d = 1 ∨ d = 2 ∨ d = 3 ∨ d = 4 ∨ d = 5 ∨ d = 6 ∨ d = 7 ∨ d = 8 ∨ d = 9)%Z
    as Hc by lia.
  destruct_or! Hc; subst; split; reflexivity.
Qed.

(** A printed integer of 64 bits parses back. *)
Lemma ParseInt_FormatInt z : (- 2 ^ 63 <= z < 2 ^ 63)%Z → ParseInt (FormatInt z) = Some z.
Proof.
  intros Hz. assert (∀ n : Z, (0 <= n <= 2 ^ 63)%Z →
    ∃ d s, (0 <= d <= 9)%Z ∧ digits 20 n "" = String (digit d) s ∧ parse_digits 0 (digits 20 n "") = Some n) as Hd.
  { intros n Hn. destruct (digits_head 20 n "") as (d&s&Hd&Hs); [lia|done|]. exists d, s. (split; [done|]); (split; [done|]).
    destruct (parse_digits_digits 20 n "") as [k Hk]; [|done|].
    - split; [lia|]. apply Z.le_lt_trans with (2 ^ 63)%Z; [lia|reflexivity].
    - rewrite (proj1 (Hk 0%Z)). replace (0 * 10 ^ k + n)%Z with n by lia. done. }
  unfold FormatInt. destruct (Z.ltb_spec z 0) as [Hneg|Hpos].
  - destruct (Hd (- z)%Z) as (d&s&_&Hs&Hp); [lia|]. unfold ParseInt.
    change (Ascii.eqb (Ascii.ascii_of_nat 45) (Ascii.ascii_of_nat 43)) with false.
    change (Ascii.eqb (Ascii.ascii_of_nat 45) (Ascii.ascii_of_nat 45)) with true. cbv beta iota zeta.
    rewrite Hp, Z.opp_involutive, Hs.
    rewrite (proj2 (Z.leb_le _ _)), (proj2 (Z.ltb_lt _ _)) by lia. done.
  - destruct (Hd z) as (d&s&Hd0&Hs&Hp); [lia|]. rewrite Hs in *. unfold ParseInt.
    destruct (digit_not_sign d Hd0) as [-> ->]. cbv beta iota zeta. rewrite Hp.
    rewrite (proj2 (Z.leb_le _ _)), (proj2 (Z.ltb_lt _ _)) by lia. done.
Qed.

(** ** Lemmas: cutting *)

Lemma Cut_app a b sep :
  Cut a sep = None → Cut (a +:+ String sep b) sep = Some (a, b).
Proof.
  induction a as [|c a IH]; simpl.
  - intros _. by rewrite Ascii.eqb_refl.
  - destruct (Ascii.eqb c sep); [done|]. destruct (Cut a sep) as [[]|]; [done|].
    intros _. by rewrite IH.
Qed.

Lemma digits_no_colon fuel : ∀ n s,
  (0 <= n)%Z → Cut s (Ascii.ascii_of_nat 58) = None → Cut (digits fuel n s) (Ascii.ascii_of_nat 58) = None.
Proof.
  induction fuel as [|fuel IH]; intros n s Hn Hs; [done|]. cbn [digits].
  assert (0 <= n mod 10 <= 9)%Z as Hd by (pose proof (Z.mod_pos_bound n 10); lia).
  assert (Cut (String (digit (n mod 10)) s) (Ascii.ascii_of_nat 58) = None) as Hc.
  { cbn [Cut]. destruct (Ascii.eqb_spec (digit (n mod 10)) (Ascii.ascii_of_nat 58)) as [E|].
    - apply (f_equal Ascii.nat_of_ascii) in E. unfold digit in E.
      rewrite !Ascii.nat_ascii_embedding in E; lia.
    - by rewrite Hs. }
  destruct (Z.ltb n 10); [done|]. apply IH; [by apply Z.div_pos|done].
Qed.

Lemma FormatInt_no_colon z : (0 <= z)%Z → Cut (FormatInt z) (Ascii.ascii_of_nat 58) = None.
Proof.
  intros Hz. unfold FormatInt. rewrite (proj2 (Z.ltb_ge _ _)) by done. by apply digits_no_colon.
Qed.

Lemma length_digits fuel : ∀ n s, String.length (digits fuel n s) ≤ fuel + String.length s.
Proof.
  induction fuel as [|fuel IH]; intros n s; [done|]. cbn [digits].
  destruct (Z.ltb n 10); [simpl; lia|]. etransitivity; [apply IH|simpl; lia].
Qed.

Lemma length_FormatInt z : String.length (FormatInt z) ≤ 21.
Proof.
  unfold FormatInt. pose proof (length_digits 20 (- z) ""). pose proof (length_digits 20 z "").
  destruct (Z.ltb z 0); cbn [String.length] in *; lia.
Qed.

(** ** Lemmas: base64 *)

Lemma b64_char_value v :
  (0 <= v < 64)%Z → b64_value (b64_char v) = Some v ∧
    ((byte_of (b64_char v) =? 10)%Z || (byte_of (b64_char v) =? 13)%Z) = false.
Proof.
  intros Hv. cut (Forall (fun n => b64_value (b64_char (Z.of_nat n)) = Some (Z.of_nat n) ∧
    ((byte_of (b64_char (Z.of_nat n)) =? 10)%Z || (byte_of (b64_char (Z.of_nat n)) =? 13)%Z) = false) (seq 0 64)).
  - intros HF. rewrite Forall_forall in HF. specialize (HF (Z.to_nat v)).
    rewrite Z2Nat.id in HF by lia. apply HF, elem_of_seq. lia.
  - repeat constructor.
Qed.

Lemma b64_values_char v s :
  (0 <= v < 64)%Z → b64_values (String (b64_char v) s) =
    match b64_values s with Some vs => Some (v :: vs) | None => None end.
Proof. intros Hv. destruct (b64_char_value v Hv) as [H1 H2]. cbn [b64_values]. by rewrite H2, H1. Qed.

Lemma mod64_bounds z : (0 <= z mod 64 < 64)%Z.
Proof. by apply Z.mod_pos_bound. Qed.

(** Recursion on three bytes at a time. *)
Lemma string_ind3 (P : string → Prop) :
  P "" → (∀ a, P (String a "")) → (∀ a b, P (String a (String b ""))) →
  (∀ a b c s, P s → P (String a (String b (String c s)))) → ∀ s, P s.
Proof.
  intros H0 H1 H2 H3. fix IH 1. intros [|a [|b [|c s]]]; [apply H0|apply H1|apply H2|apply H3, IH].
Qed.

(** An encoded string decodes back. *)
Lemma DecodeString_EncodeToString s : DecodeString (EncodeToString s) = Some s.
Proof.
  unfold DecodeString. induction s as [|a|a b|a b c s IH] using string_ind3; [done|..];
    cbn [EncodeToString]; rewrite !b64_values_char by apply mod64_bounds;
    pose proof (byte_of_bounds a); try pose proof (byte_of_bounds b); try pose proof (byte_of_bounds c).
  - cbn [b64_values b64_bytes]. repeat f_equal. apply of_byte_eq.
    Z.to_euclidean_division_equations; lia.
  - cbn [b64_values b64_bytes]. repeat f_equal; apply of_byte_eq;
      Z.to_euclidean_division_equations; lia.
  - destruct (b64_values (EncodeToString s)) as [vs|]; [|done]. cbn [b64_bytes]. rewrite IH.
    repeat f_equal; apply of_byte_eq; Z.to_euclidean_division_equations; lia.
Qed.
