(* ===== verification/GoJson.v ===== *)
(** * encoding/json

    What [json.Marshal] writes for the values the code marshals to compute
    request hashes. *)

From S2P Require Import Prelude GoText.

Inductive json :=
  | JNull
  | JBool (b : bool)
  | JInt (z : Z)
  | JString (s : string)
  | JArray (l : list json)
  | JObject (fields : list (string * json)).

(** One hexadecimal digit, lower case. *)
Definition hex_digit (v : Z) : Ascii.ascii := of_byte (if v <? 10 then 48 + v else 87 + v)%Z.
(** [%x] of a byte string. *)
Fixpoint hex (s : string) : string :=
  match s with
  | EmptyString => ""
  | String c s => String (hex_digit (byte_of c / 16)) (String (hex_digit (byte_of c mod 16)) (hex s))
  end.

Definition quote : string := String (Ascii.ascii_of_nat 34) "".
Definition backslash (s : string) : string := String (Ascii.ascii_of_nat 92) s.
Definition unicode_escape (r : Z) : string :=
  backslash (String (Ascii.ascii_of_nat 117) (String (hex_digit (r / 4096)) (String (hex_digit (r / 256 mod 16))
    (String (hex_digit (r / 16 mod 16)) (String (hex_digit (r mod 16)) ""))))).

(** The escape of a rune of [width] bytes, [None] when it is copied. *)
Definition json_escape (r : Z) (width : nat) : option string :=
  if (r =? 34)%Z || (r =? 92)%Z then Some (backslash (String (of_byte r) ""))
  else if (r =? 8)%Z then Some (backslash "b")
  else if (r =? 12)%Z then Some (backslash "f")
  else if (r =? 10)%Z then Some (backslash "n")
  else if (r =? 13)%Z then Some (backslash "r")
  else if (r =? 9)%Z then Some (backslash "t")
  else if (r <? 32)%Z || (r =? 60)%Z || (r =? 62)%Z || (r =? 38)%Z || (r =? 8232)%Z || (r =? 8233)%Z
  then Some (unicode_escape r)
  else if (r =? RuneError)%Z && (width =? 1) then Some (unicode_escape r)
  else None.

(** [copied] bytes belong to the rune that was written last, [dropped] bytes to
    one that was escaped. *)
Fixpoint json_chars (copied dropped : nat) (s : string) : string :=
  match s with
  | EmptyString => ""
  | String c s' =>
      match copied, dropped with
      | S copied, _ => String c (json_chars copied 0 s')
      | 0, S dropped => json_chars 0 dropped s'
      | 0, 0 =>
          let '(r, width) := decode_rune s in
          match json_escape r width with
          | Some e => e +:+ json_chars 0 (width - 1) s'
          | None => String c (json_chars (width - 1) 0 s')
          end
      end
  end.
Definition json_string (s : string) : string := quote +:+ json_chars 0 0 s +:+ quote.

Fixpoint Marshal (v : json) : string :=
  match v with
  | JNull => "null"
  | JBool b => if b then "true" else "false"
  | JInt z => FormatInt z
  | JString s => json_string s
  | JArray l =>
      "[" +:+ (fix go l := match l with
        | [] => ""
        | [x] => Marshal x
        | x :: l => Marshal x +:+ "," +:+ go l
        end) l +:+ "]"
  | JObject fields =>
      "{" +:+ (fix go l := match l with
        | [] => ""
        | [(k, x)] => json_string k +:+ ":" +:+ Marshal x
        | (k, x) :: l => json_string k +:+ ":" +:+ Marshal x +:+ "," +:+ go l
        end) fields +:+ "}"
  end.

Definition JOption (z : option Z) : json := match z with Some z => JInt z | None => JNull end.
