(* ===== verification/StreamContract.v ===== *)
(** * The rendition policy shared by signalling and the SFU

    Model of [internal/streamcontract]: the limits, the identifier check and
    [ValidRenditions], with the declarative meaning of the policy and the
    proof that the single-pass checker decides it. *)

From S2P Require Import Prelude.

(** ** limits.go *)

Definition MaxChannelPublishers : nat := 8.

(** ** renditions.go *)

Record Rendition := mkRendition {
  rd_ID : string;
  rd_Codec : string;
  rd_Profile : string;
  rd_DynamicRange : string;
  rd_BitDepth : Z;
  rd_ColorPrimaries : string;
  rd_Transfer : string;
  rd_Matrix : string
}.

(** The byte test of [ValidID]. The source ranges over runes: a byte below 128
    is its own rune and every other rune is at least 128, hence rejected. *)
Definition valid_id_char (c : Ascii.ascii) : bool :=
  let n := Ascii.nat_of_ascii c in
  (97 <=? n) && (n <=? 122) || (48 <=? n) && (n <=? 57) || (n =? 45) || (n =? 95).

Fixpoint all_chars (p : Ascii.ascii → bool) (s : string) : bool :=
  match s with
  | EmptyString => true
  | String c s' => p c && all_chars p s'
  end.

Definition ValidID (id : string) : bool :=
  if (String.length id =? 0) || (32 <? String.length id) then false
  else all_chars valid_id_char id.

Definition validSDRProfile (codec profile : string) : bool :=
  String.eqb codec "vp8" && String.eqb profile "" ||
  String.eqb codec "vp9" && String.eqb profile "0" ||
  String.eqb codec "h264" && String.eqb profile "baseline" ||
  String.eqb codec "av1" && String.eqb profile "main".

Definition validHDRProfile (codec profile : string) : bool :=
  String.eqb codec "vp9" && String.eqb profile "2" ||
  String.eqb codec "av1" && String.eqb profile "main10".

(** The [switch value.DynamicRange] of the loop body: [None] is [return false],
    [Some b] is the new value of [hasSDR]. *)
Definition check_range (value : Rendition) (hasSDR : bool) : option bool :=
  if String.eqb (rd_DynamicRange value) "sdr" then
    let ok := (rd_BitDepth value =? 8)%Z &&
      String.eqb (rd_ColorPrimaries value) "bt709" &&
      String.eqb (rd_Transfer value) "bt709" &&
      String.eqb (rd_Matrix value) "bt709" &&
      validSDRProfile (rd_Codec value) (rd_Profile value) in
    if ok then Some true else None
  else if String.eqb (rd_DynamicRange value) "hdr10" then
    if negb (rd_BitDepth value =? 10)%Z ||
       negb (String.eqb (rd_ColorPrimaries value) "bt2020") ||
       negb (String.eqb (rd_Transfer value) "pq") ||
       negb (String.eqb (rd_Matrix value) "bt2020-ncl") ||
       negb (validHDRProfile (rd_Codec value) (rd_Profile value))
    then None else Some hasSDR
  else if String.eqb (rd_DynamicRange value) "hlg" then
    if negb (rd_BitDepth value =? 10)%Z ||
       negb (String.eqb (rd_ColorPrimaries value) "bt2020") ||
       negb (String.eqb (rd_Transfer value) "hlg") ||
       negb (String.eqb (rd_Matrix value) "bt2020-ncl") ||
       negb (validHDRProfile (rd_Codec value) (rd_Profile value))
    then None else Some hasSDR
  else None.

Fixpoint check_renditions (ids ranges : gset string) (hasSDR : bool)
    (renditions : list Rendition) : bool :=
  match renditions with
  | [] => hasSDR
  | value :: rest =>
      if negb (ValidID (rd_ID value)) || (rd_BitDepth value =? 0)%Z then false
      else if bool_decide (rd_ID value ∈ ids) then false
      else if bool_decide (rd_DynamicRange value ∈ ranges) then false
      else
        match check_range value hasSDR with
        | None => false
        | Some hasSDR' =>
            check_renditions ({[rd_ID value]} ∪ ids)
              ({[rd_DynamicRange value]} ∪ ranges) hasSDR' rest
        end
  end.

Definition ValidRenditions (renditions : list Rendition) : bool :=
  if (length renditions =? 0) || (2 <? length renditions) then false
  else check_renditions ∅ ∅ false renditions.

(** ** The policy, declaratively *)

Definition id_policy (id : string) : Prop :=
  (1 ≤ String.length id ≤ 32)%nat ∧ all_chars valid_id_char id = true.

Definition sdr_policy (r : Rendition) : Prop :=
  rd_DynamicRange r = "sdr" ∧ rd_BitDepth r = 8%Z ∧
  rd_ColorPrimaries r = "bt709" ∧ rd_Transfer r = "bt709" ∧ rd_Matrix r = "bt709" ∧
  (rd_Codec r, rd_Profile r) ∈
    [("vp8", ""); ("vp9", "0"); ("h264", "baseline"); ("av1", "main")].

Definition hdr_policy (r : Rendition) : Prop :=
  (rd_DynamicRange r, rd_Transfer r) ∈ [("hdr10", "pq"); ("hlg", "hlg")] ∧
  rd_BitDepth r = 10%Z ∧ rd_ColorPrimaries r = "bt2020" ∧
  rd_Matrix r = "bt2020-ncl" ∧
  (rd_Codec r, rd_Profile r) ∈ [("vp9", "2"); ("av1", "main10")].

(** A rendition set is one SDR rendition, optionally with one HDR rendition,
    under distinct well-formed identifiers. *)
Definition rendition_policy (rs : list Rendition) : Prop :=
  (1 ≤ length rs ≤ 2)%nat ∧
  NoDup (rd_ID <$> rs) ∧ NoDup (rd_DynamicRange <$> rs) ∧
  Forall (fun r => id_policy (rd_ID r) ∧ (sdr_policy r ∨ hdr_policy r)) rs ∧
  Exists sdr_policy rs.

(** ** Decision lemmas *)

Lemma ValidID_spec id : ValidID id = true ↔ id_policy id.
Proof.
  unfold ValidID, id_policy.
  destruct (Nat.eqb_spec (String.length id) 0); simpl; [naive_solver lia|].
  destruct (Nat.ltb_spec 32 (String.length id)); naive_solver lia.
Qed.

Lemma validSDRProfile_spec c p :
  validSDRProfile c p = true ↔
  (c, p) ∈ [("vp8", ""); ("vp9", "0"); ("h264", "baseline"); ("av1", "main")].
Proof.
  unfold validSDRProfile. rewrite !orb_true_iff, !andb_true_iff, !String.eqb_eq.
  set_solver.
Qed.

Lemma validHDRProfile_spec c p :
  validHDRProfile c p = true ↔ (c, p) ∈ [("vp9", "2"); ("av1", "main10")].
Proof.
  unfold validHDRProfile. rewrite !orb_true_iff, !andb_true_iff, !String.eqb_eq.
  set_solver.
Qed.

Lemma check_range_sdr r b :
  sdr_policy r → check_range r b = Some true.
Proof.
  intros (H1&H2&H3&H4&H5&H6). unfold check_range.
  apply validSDRProfile_spec in H6. by rewrite H1, H2, H3, H4, H5, H6.
Qed.

Lemma check_range_hdr r b :
  hdr_policy r → check_range r b = Some b.
Proof.
  intros (H1&H2&H3&H4&H5%validHDRProfile_spec). unfold check_range.
  rewrite H2, H3, H4, H5.
  apply elem_of_cons in H1 as [[= -> ->]|H1]; [done|].
  by apply list_elem_of_singleton in H1 as [= -> ->].
Qed.

Lemma check_range_inv r b b' :
  check_range r b = Some b' → (sdr_policy r ∧ b' = true) ∨ (hdr_policy r ∧ b' = b).
Proof.
  unfold check_range, sdr_policy, hdr_policy.
  rewrite <- validSDRProfile_spec, <- validHDRProfile_spec.
  destruct (String.eqb_spec (rd_DynamicRange r) "sdr") as [->|_].
  { case_match eqn:Hc; [|done]. intros [= <-]. left.
    rewrite !andb_true_iff, Z.eqb_eq, !String.eqb_eq in Hc. naive_solver. }
  destruct (String.eqb_spec (rd_DynamicRange r) "hdr10") as [->|_].
  { case_match eqn:Hc; [done|]. intros [= <-]. right.
    rewrite !orb_false_iff, !negb_false_iff, Z.eqb_eq, !String.eqb_eq in Hc.
    destruct Hc as ((((->&->)&->)&->)&->). set_solver. }
  destruct (String.eqb_spec (rd_DynamicRange r) "hlg") as [->|_]; [|done].
  case_match eqn:Hc; [done|]. intros [= <-]. right.
  rewrite !orb_false_iff, !negb_false_iff, Z.eqb_eq, !String.eqb_eq in Hc.
  destruct Hc as ((((->&->)&->)&->)&->). set_solver.
Qed.

Lemma policy_depth r : sdr_policy r ∨ hdr_policy r → rd_BitDepth r ≠ 0%Z.
Proof.
  intros [(_&->&_)|(_&->&_)]; done.
Qed.

(** A field of the remaining renditions avoids the accumulated set extended
    with the current value iff the current value does not recur. *)
Lemma avoids_cons (f : Rendition → string) (X : gset string) (r : Rendition) (rs : list Rendition) :
  (∀ r', r' ∈ rs → f r' ∉ {[f r]} ∪ X) ↔
  f r ∉ f <$> rs ∧ (∀ r', r' ∈ rs → f r' ∉ X).
Proof.
  rewrite list_elem_of_fmap. split.
  - intros Hav. split.
    + intros (r'&Heq&Hr'). apply (Hav _ Hr'). set_solver.
    + intros r' Hr' HX. apply (Hav _ Hr'). set_solver.
  - intros [Hnot HX] r' Hr'. specialize (HX _ Hr').
    rewrite elem_of_union, elem_of_singleton. intros [Heq|?]; [|done].
    apply Hnot. eauto.
Qed.

Lemma hdr_not_sdr r : hdr_policy r → ¬ sdr_policy r.
Proof.
  intros [Hh _] [Hs _]. rewrite Hs in Hh.
  apply elem_of_cons in Hh as [[=]|Hh].
  by apply list_elem_of_singleton in Hh as [=].
Qed.

(** The loop invariant: the accumulated sets are exactly what the remaining
    renditions must avoid. *)
Lemma check_renditions_spec rs : ∀ ids ranges b,
  check_renditions ids ranges b rs = true ↔
  NoDup (rd_ID <$> rs) ∧ NoDup (rd_DynamicRange <$> rs) ∧
  (∀ r, r ∈ rs → rd_ID r ∉ ids) ∧ (∀ r, r ∈ rs → rd_DynamicRange r ∉ ranges) ∧
  Forall (fun r => id_policy (rd_ID r) ∧ (sdr_policy r ∨ hdr_policy r)) rs ∧
  (b = true ∨ Exists sdr_policy rs).
Proof.
  induction rs as [|r rs IH]; intros ids ranges b; simpl.
  { rewrite Exists_nil, Forall_nil, !NoDup_nil. set_solver. }
  rewrite !NoDup_cons, Forall_cons, Exists_cons.
  setoid_rewrite elem_of_cons.
  destruct (ValidID (rd_ID r)) eqn:HID; simpl.
  2:{ split; [done|]. intros (_&_&_&_&[[Hid _] _]&_).
      apply ValidID_spec in Hid. congruence. }
  apply ValidID_spec in HID.
  destruct (Z.eqb_spec (rd_BitDepth r) 0) as [H0|H0].
  { split; [done|]. intros (_&_&_&_&[[_ Hp] _]&_). by apply policy_depth in Hp. }
  case_bool_decide as Hids; [split; [done|naive_solver]|].
  case_bool_decide as Hranges; [split; [done|naive_solver]|].
  destruct (check_range r b) as [b'|] eqn:Hc.
  - rewrite IH, !avoids_cons. apply check_range_inv in Hc as [[Hp ->]|[Hp ->]].
    + naive_solver.
    + apply hdr_not_sdr in Hp as Hns. naive_solver.
  - split; [done|]. intros (_&_&_&_&[[_ [Hp|Hp]] _]&_).
    + by rewrite (check_range_sdr r b Hp) in Hc.
    + by rewrite (check_range_hdr r b Hp) in Hc.
Qed.

Lemma ValidRenditions_policy rs : ValidRenditions rs = true ↔ rendition_policy rs.
Proof.
  unfold ValidRenditions, rendition_policy.
  destruct (Nat.eqb_spec (length rs) 0); simpl; [naive_solver lia|].
  destruct (Nat.ltb_spec 2 (length rs)); [naive_solver lia|].
  rewrite check_renditions_spec. split.
  - intros (?&?&_&_&?&[?|?]); [done|]. repeat split; try done; lia.
  - intros (?&?&?&?&?). repeat split; try done; [set_solver..|by right].
Qed.

(** [ValidRenditions] accepts exactly the rendition sets of the policy: one
    or two renditions with distinct well-formed identifiers and distinct
    dynamic ranges, every one of them a permitted SDR or HDR profile, and an
    SDR fallback among them. *)
Theorem ValidRenditions_spec rs : ValidRenditions rs = true ↔ rendition_policy rs.
Proof. apply ValidRenditions_policy. Qed.
