(* ===== verification/Events.v ===== *)
(** * Realtime events

    The event vocabulary of [internal/realtime]: the [EventType] strings, the
    payload structs and [OutgoingEvent]. The dynamic [Data any] field becomes
    the sum [EventData], one constructor per Go type stored in it; [DOpaque]
    stands for the payloads other packages hand over through [PublishToUser],
    which this package never inspects. *)

From S2P Require Import Prelude.

Definition EventType := string.

(** ** event.go and the [*_events.go] constants *)

Definition EventReady : EventType := "ready".
Definition EventTyping : EventType := "typing".
Definition EventServerMemberRemoved : EventType := "server.member_removed".
Definition EventServerMemberJoined : EventType := "server.member_joined".
Definition EventServerMemberRoleUpdated : EventType := "server.member_role_updated".
Definition EventServerDeleted : EventType := "server.deleted".
Definition EventInvitationReceived : EventType := "invitation.received".
Definition EventChannelCreated : EventType := "channel.created".
Definition EventChannelUpdated : EventType := "channel.updated".
Definition EventChannelDeleted : EventType := "channel.deleted".
Definition EventReadSnapshot : EventType := "read.snapshot".
Definition EventChannelReadSnapshot : EventType := "channel.read_snapshot".
Definition EventChannelRead : EventType := "channel.read".
Definition EventChannelsChanged : EventType := "channels.changed".
Definition EventChannelActivity : EventType := "channel.activity".
Definition EventChannelSyncRequired : EventType := "channel.sync_required".
Definition EventMessageCreated : EventType := "message.created".
Definition EventMessageUpdated : EventType := "message.updated".
Definition EventMessageDeleted : EventType := "message.deleted".
Definition EventMessagePinned : EventType := "message.pinned".
Definition EventMessageUnpinned : EventType := "message.unpinned".
Definition EventMessageReactionsChanged : EventType := "message.reactions_changed".
Definition EventNotificationMessage : EventType := "notification.message".
Definition EventNotificationSettingsUpdated : EventType := "notification.settings_updated".
Definition EventPresenceSnapshot : EventType := "presence.snapshot".
Definition EventPresenceUpdated : EventType := "presence.updated".
Definition EventVoiceStateUpdated : EventType := "voice.state_updated".
Definition EventVoiceParticipantJoined : EventType := "voice.participant_joined".
Definition EventVoiceParticipantLeft : EventType := "voice.participant_left".
Definition EventVoiceSnapshot : EventType := "voice.snapshot".
Definition EventVoiceWebRTCOffer : EventType := "voice.webrtc_offer".
Definition EventVoiceICECandidate : EventType := "voice.ice_candidate".
Definition EventVoiceWebRTCClosed : EventType := "voice.webrtc_closed".
Definition EventE2EEKey : EventType := "e2ee.key".
Definition EventE2EEKeyRequest : EventType := "e2ee.key_request".
Definition EventStreamStarted : EventType := "stream.started".
Definition EventStreamUpdated : EventType := "stream.updated".
Definition EventStreamStopped : EventType := "stream.stopped".
Definition EventStreamSnapshot : EventType := "stream.snapshot".
Definition EventStreamViewerJoined : EventType := "stream.viewer_joined".
Definition EventStreamViewerLeft : EventType := "stream.viewer_left".
Definition EventStreamWebRTCOffer : EventType := "stream.webrtc_offer".
Definition EventStreamICECandidate : EventType := "stream.ice_candidate".
Definition EventStreamWebRTCClosed : EventType := "stream.webrtc_closed".
Definition EventStreamP2POffer : EventType := "stream.p2p_offer".
Definition EventStreamP2PAnswer : EventType := "stream.p2p_answer".
Definition EventStreamP2PICECandidate : EventType := "stream.p2p_ice_candidate".
Definition EventStreamP2PRestart : EventType := "stream.p2p_restart".

(** Requests of a connection and the replies to them. *)
Definition EventAuthenticate : EventType := "auth".
Definition EventError : EventType := "error".
Definition EventPing : EventType := "ping".
Definition EventPong : EventType := "pong".
Definition EventChannelSubscribe : EventType := "channel.subscribe".
Definition EventChannelSubscribed : EventType := "channel.subscribed".
Definition EventChannelUnsubscribe : EventType := "channel.unsubscribe".
Definition EventChannelUnsubscribed : EventType := "channel.unsubscribed".
Definition EventTypingStart : EventType := "typing.start".
Definition EventE2EEKeys : EventType := "e2ee.keys".
Definition EventVoiceJoin : EventType := "voice.join".
Definition EventVoiceJoined : EventType := "voice.joined".
Definition EventVoiceLeave : EventType := "voice.leave".
Definition EventVoiceLeft : EventType := "voice.left".
Definition EventVoiceStateUpdate : EventType := "voice.state_update".
Definition EventVoiceWebRTCAnswer : EventType := "voice.webrtc_answer".
Definition EventVoiceWebRTCAnswered : EventType := "voice.webrtc_answered".
Definition EventStreamStart : EventType := "stream.start".
Definition EventStreamStop : EventType := "stream.stop".
Definition EventStreamWatch : EventType := "stream.watch".
Definition EventStreamWatching : EventType := "stream.watching".
Definition EventStreamLeave : EventType := "stream.leave".
Definition EventStreamLeft : EventType := "stream.left".
Definition EventStreamWebRTCAnswer : EventType := "stream.webrtc_answer".
Definition EventStreamWebRTCAnswered : EventType := "stream.webrtc_answered".
Definition EventStreamRecoveryRequest : EventType := "stream.recovery_request".

Definition ErrorCode := string.
Definition ErrorInvalidEvent : ErrorCode := "invalid_event".
Definition ErrorInvalidPayload : ErrorCode := "invalid_payload".
Definition ErrorUnauthorized : ErrorCode := "unauthorized".
Definition ErrorForbidden : ErrorCode := "forbidden".
Definition ErrorInvalidState : ErrorCode := "invalid_state".
Definition ErrorInternal : ErrorCode := "internal_error".

Definition ProtocolVersion : Z := 6.
Definition MaxE2EEBatchRecipients : nat := 32.

Definition VoiceWebRTCClosedReasonReplaced : string :=
  "voice session moved to another connection".
Definition VoiceWebRTCClosedReasonE2EEPolicy : string := "voice channel encryption changed".
Definition VoiceWebRTCClosedReasonE2EEDevice : string := "voice e2ee device was revoked".

(** ** Payloads carried for the [message] package *)

Record MessageAuthorData := mkMessageAuthorData { ma_UserID : Z; ma_Username : string }.

Record PollOption := mkPollOption {
  po_ID : Z; po_Label : string; po_Count : Z; po_Me : bool; po_Voters : list MessageAuthorData }.
Record Poll := mkPoll {
  pl_ID : Z; pl_Question : string; pl_Multiple : bool; pl_Anonymous : bool;
  pl_ClosesAt : Z; pl_Revision : Z; pl_Options : list PollOption }.
Record Attachment := mkAttachment {
  at_ID : string; at_Filename : string; at_MIMEType : string; at_SizeBytes : Z;
  at_Width : Z; at_Height : Z; at_Deleted : bool }.
Record ReplyReference := mkReplyReference {
  rr_MessageID : Z; rr_Author : MessageAuthorData; rr_Content : string;
  rr_Revision : Z; rr_Deleted : bool }.
Record ForwardReference := mkForwardReference {
  fr_Author : MessageAuthorData; fr_CreatedAt : Z; fr_MentionNames : list (Z * string) }.
Record Reaction := mkReaction { re_Emoji : string; re_Count : Z; re_Me : bool }.
Record ReactionsData := mkReactionsData {
  rx_ChannelID : Z; rx_MessageID : Z; rx_Revision : Z; rx_Reactions : list Reaction }.

Record MessageCreatedData := mkMessageCreatedData {
  mc_Poll : option Poll; mc_Attachments : list Attachment; mc_ThreadRootID : option Z;
  mc_CommentCount : Z; mc_ClientMessageID : string; mc_ID : Z; mc_ChannelID : Z;
  mc_Author : MessageAuthorData; mc_Content : string; mc_CreatedAt : Z;
  mc_EditedAt : option Z; mc_Revision : Z; mc_Reply : option ReplyReference;
  mc_Forward : option ForwardReference }.
Record MessageDeletedData := mkMessageDeletedData { md_ChannelID : Z; md_MessageID : Z }.
Record MessagePinnedData := mkMessagePinnedData {
  mp_ChannelID : Z; mp_MessageID : Z; mp_Message : MessageCreatedData;
  mp_PinnedBy : MessageAuthorData; mp_PinnedAt : Z }.
Record MessageUnpinnedData := mkMessageUnpinnedData { mu_ChannelID : Z; mu_MessageID : Z }.

(** ** Channels, reads, notifications, presence, membership *)

Record ChannelSubscriptionData := mkChannelSubscriptionData { cs_ServerID : Z; cs_ChannelID : Z }.
Record ChannelData := mkChannelData {
  cd_CommentsEnabled : bool; cd_ID : Z; cd_ServerID : Z; cd_Name : string; cd_Kind : string;
  cd_Position : Z; cd_CreatedBy : Z; cd_AccessRestricted : bool; cd_CreatedAt : Z }.
Record ChannelDeletedData := mkChannelDeletedData { cx_ServerID : Z; cx_ChannelID : Z }.
Record ChannelReadData := mkChannelReadData {
  cr_ServerID : Z; cr_ChannelID : Z; cr_UserID : Z; cr_LastReadMessageID : Z; cr_UpdatedAt : Z }.
Record ChannelReadSnapshotData := mkChannelReadSnapshotData {
  crs_ServerID : Z; crs_ChannelID : Z; crs_Reads : list ChannelReadData }.
Record ChannelActivityData := mkChannelActivityData {
  ca_ServerID : Z; ca_ChannelID : Z; ca_MessageID : Z; ca_AuthorUserID : Z }.
Record TypingData := mkTypingData {
  ty_ServerID : Z; ty_ChannelID : Z; ty_UserID : Z; ty_ExpiresAt : Z }.
Record NotificationSettings := mkNotificationSettings {
  ns_ServerID : Z; ns_ChannelID : Z; ns_Mode : string }.
Record NotificationEvent := mkNotificationEvent {
  ne_ServerID : Z; ne_ChannelID : Z; ne_ServerName : string; ne_ChannelName : string;
  ne_Mentioned : bool; ne_MessageID : Z; ne_Author : MessageAuthorData;
  ne_Content : string; ne_CreatedAt : Z }.
Record AttachmentsChanged := mkAttachmentsChanged {
  ac_ChannelID : Z; ac_ConversationID : Z; ac_AttachmentIDs : list string }.

Inductive PresenceStatus := PresenceOnline | PresenceOffline.
#[export] Instance PresenceStatus_eq_dec : EqDecision PresenceStatus.
Proof. solve_decision. Defined.

Record PresenceUpdatedData := mkPresenceUpdatedData {
  pu_ServerID : Z; pu_UserID : Z; pu_Status : PresenceStatus; pu_LastSeenAt : option Z }.
Record ServerPresenceSnapshotData := mkServerPresenceSnapshotData {
  sp_ServerID : Z; sp_OnlineUserIDs : list Z }.
Record ServerMemberRemovedData := mkServerMemberRemovedData { sr_ServerID : Z; sr_UserID : Z }.
Record ServerMemberData := mkServerMemberData {
  sm_UserID : Z; sm_Username : string; sm_CreatedAt : Z; sm_Role : string; sm_JoinedAt : Z;
  sm_About : string; sm_CountryCode : option string; sm_LastSeenAt : option Z;
  sm_AvatarVersion : option string }.
Record InvitationReceivedData := mkInvitationReceivedData {
  iv_ID : Z; iv_ServerID : Z; iv_ServerName : string; iv_InviterUserID : Z;
  iv_InviterUsername : string; iv_InviteeUserID : Z; iv_Status : string;
  iv_ExpiresAt : Z; iv_CreatedAt : Z }.
Record RecordingData := mkRecordingData {
  rc_ID : string; rc_ServerID : Z; rc_ChannelID : Z; rc_OwnerUserID : Z;
  rc_OwnerUsername : string; rc_Status : string; rc_MIMEType : string; rc_SizeBytes : Z;
  rc_DurationMS : Z; rc_CreatedAt : Z; rc_UpdatedAt : Z; rc_ExpiresAt : Z;
  rc_PreviewVersion : option string }.

(** ** Voice *)

Record VoiceParticipantData := mkVoiceParticipantData {
  vp_generation : Z; vp_ConnectionID : string; vp_UserID : Z; vp_ServerID : Z;
  vp_ChannelID : Z; vp_SelfMute : bool; vp_SelfDeaf : bool; vp_SelfVideo : bool;
  vp_E2EEDeviceID : string }.
#[export] Instance VoiceParticipantData_fields : Fields VoiceParticipantData := fun r =>
  mkVoiceParticipantData (vp_generation r) (vp_ConnectionID r) (vp_UserID r) (vp_ServerID r)
    (vp_ChannelID r) (vp_SelfMute r) (vp_SelfDeaf r) (vp_SelfVideo r) (vp_E2EEDeviceID r).
Record VoiceJoinedData := mkVoiceJoinedData {
  vj_Participant : VoiceParticipantData; vj_Participants : list VoiceParticipantData;
  vj_E2EERequired : bool }.
Record VoiceLeftData := mkVoiceLeftData {
  vl_ConnectionID : string; vl_UserID : Z; vl_ServerID : Z; vl_ChannelID : Z }.
Record ICECandidateData := mkICECandidateData {
  ic_Candidate : string; ic_SDPMid : option string; ic_SDPMLineIndex : option Z;
  ic_UsernameFragment : option string }.
Record E2EERelayData := mkE2EERelayData {
  er_ChannelID : Z; er_RecipientUserID : Z; er_RecipientDeviceID : string;
  er_SenderUserID : Z; er_SenderDeviceID : string; er_SenderConnectionID : string;
  er_Payload : string }.
#[export] Instance E2EERelayData_fields : Fields E2EERelayData := fun r =>
  mkE2EERelayData (er_ChannelID r) (er_RecipientUserID r) (er_RecipientDeviceID r)
    (er_SenderUserID r) (er_SenderDeviceID r) (er_SenderConnectionID r) (er_Payload r).

(** ** Streams *)

Definition StreamMode := string.
Definition StreamModeServer : StreamMode := "server".
Definition StreamModeP2P : StreamMode := "p2p".
Definition StreamCodec := string.
Definition StreamCodecVP8 : StreamCodec := "vp8".
Definition StreamCodecVP9 : StreamCodec := "vp9".
Definition StreamCodecH264 : StreamCodec := "h264".
Definition StreamCodecAV1 : StreamCodec := "av1".
Definition StreamDynamicRange := string.
Definition StreamDynamicRangeSDR : StreamDynamicRange := "sdr".
Definition StreamDynamicRangeHDR10 : StreamDynamicRange := "hdr10".
Definition StreamDynamicRangeHLG : StreamDynamicRange := "hlg".
Definition MaxStreamRenditions : nat := 2.

Record StreamCodecProfileData := mkStreamCodecProfileData {
  sc_Codec : StreamCodec; sc_Profile : string }.
Record StreamRenditionData := mkStreamRenditionData {
  sd_ID : string; sd_Codec : StreamCodec; sd_Profile : string;
  sd_DynamicRange : StreamDynamicRange; sd_BitDepth : Z; sd_ColorPrimaries : string;
  sd_Transfer : string; sd_Matrix : string }.
Record StreamData := mkStreamData {
  st_ServerID : Z; st_ChannelID : Z; st_PublisherUserID : Z;
  st_PublisherConnectionID : string; st_Mode : StreamMode; st_Codec : StreamCodec;
  st_HasAudio : bool; st_ViewerCount : Z; st_Renditions : list StreamRenditionData;
  st_StartedAtMS : Z }.
Record StreamWatchingData := mkStreamWatchingData {
  sw_Stream : StreamData; sw_ViewerConnectionID : string; sw_SelectedRenditionID : string }.
Record StreamStoppedData := mkStreamStoppedData {
  ss_PublisherConnectionID : string; ss_ServerID : Z; ss_ChannelID : Z; ss_Reason : string }.
Record StreamViewerData := mkStreamViewerData { sv_ConnectionID : string; sv_UserID : Z }.
Record StreamP2PSessionData := mkStreamP2PSessionData {
  sps_TargetConnectionID : string; sps_FromConnectionID : string; sps_SDP : string }.
Record StreamP2PICECandidateData := mkStreamP2PICECandidateData {
  spi_TargetConnectionID : string; spi_FromConnectionID : string;
  spi_Candidate : ICECandidateData }.

(** ** Requests *)

Record AuthenticateData := mkAuthenticateData {
  au_Token : string; au_MessageSync : bool; au_MultipleStreams : bool }.
Record VoiceJoinData := mkVoiceJoinData {
  vjd_ServerID : Z; vjd_ChannelID : Z; vjd_SelfMute : bool; vjd_SelfDeaf : bool;
  vjd_E2EEDeviceID : string }.
Record VoiceStateUpdateData := mkVoiceStateUpdateData {
  vu_SelfMute : bool; vu_SelfDeaf : bool; vu_SelfVideo : option bool }.
Record E2EEKeyRecipient := mkE2EEKeyRecipient {
  ek_UserID : Z; ek_DeviceID : string; ek_Payload : string }.
Record E2EEKeyBatchData := mkE2EEKeyBatchData {
  eb_ChannelID : Z; eb_Keys : list E2EEKeyRecipient }.
Record StreamStartData := mkStreamStartData {
  ssd_ServerID : Z; ssd_ChannelID : Z; ssd_Mode : StreamMode; ssd_Codec : StreamCodec;
  ssd_HasAudio : bool; ssd_Renditions : list StreamRenditionData }.
Record StreamWatchData := mkStreamWatchData {
  swd_PublisherConnectionID : string; swd_ServerID : Z; swd_ChannelID : Z;
  swd_SupportedDynamicRanges : list StreamDynamicRange;
  swd_CodecProfiles : list StreamCodecProfileData }.
Record StreamRecoveryRequestData := mkStreamRecoveryRequestData {
  srr_ServerID : Z; srr_ChannelID : Z; srr_Action : string }.

(** ** The dynamic payload *)

Inductive EventData :=
  | DNone
  | DReactions (d : ReactionsData)
  | DNotification (d : NotificationEvent)
  | DNotificationSettings (d : NotificationSettings)
  | DAttachmentsChanged (d : AttachmentsChanged)
  | DChannelActivity (d : ChannelActivityData)
  | DTyping (d : TypingData)
  | DE2EERelay (d : E2EERelayData)
  | DChannel (d : ChannelData)
  | DChannelDeleted (d : ChannelDeletedData)
  | DChannelSubscription (d : ChannelSubscriptionData)
  | DChannelRead (d : ChannelReadData)
  | DChannelReadSnapshot (d : ChannelReadSnapshotData)
  | DReadSnapshot (reads : list ChannelReadData)
  | DMessageCreated (d : MessageCreatedData)
  | DMessageDeleted (d : MessageDeletedData)
  | DMessagePinned (d : MessagePinnedData)
  | DMessageUnpinned (d : MessageUnpinnedData)
  | DVoiceParticipant (d : VoiceParticipantData)
  | DVoiceLeft (d : VoiceLeftData)
  | DVoiceJoined (d : VoiceJoinedData)
  | DVoiceSnapshot (participants : list VoiceParticipantData)
  | DVoiceOffer (sdp : string)
  | DVoiceICECandidate (d : ICECandidateData)
  | DVoiceClosed (reason : string)
  | DStream (d : StreamData)
  | DStreamStopped (d : StreamStoppedData)
  | DStreamWatching (d : StreamWatchingData)
  | DStreamSnapshot (streams : list StreamData)
  | DStreamViewer (d : StreamViewerData)
  | DStreamOffer (sdp : string)
  | DStreamICECandidate (d : ICECandidateData)
  | DStreamClosed (reason : string)
  | DStreamP2PSession (d : StreamP2PSessionData)
  | DStreamP2PICECandidate (d : StreamP2PICECandidateData)
  | DRecording (d : RecordingData)
  | DPresenceUpdated (d : PresenceUpdatedData)
  | DPresenceSnapshot (servers : list ServerPresenceSnapshotData)
  | DServerMemberRemoved (d : ServerMemberRemovedData)
  | DServerMemberChanged (serverID : Z) (member : ServerMemberData)
  | DServerDeleted (serverID : Z)
  | DInvitationReceived (d : InvitationReceivedData)
  | DAvatarChanged (userID : Z) (version : option string)
  | DError (code : ErrorCode) (message : string)
  | DReady (userID protocolVersion : Z) (e2eeBatch multipleStreams : bool)
  | DAnswered (accepted : bool)
  | DOpaque (payload : string).

(** [oe_encoding] records whether the event carries a shared JSON cache
    ([encoding != nil]); the telemetry stamp [queuedAt] is not modelled. *)
Record OutgoingEvent := mkOutgoingEvent {
  oe_encoding : bool;
  oe_RequestID : string;
  oe_Type : EventType;
  oe_Data : EventData
}.
#[export] Instance OutgoingEvent_fields : Fields OutgoingEvent := fun r =>
  mkOutgoingEvent (oe_encoding r) (oe_RequestID r) (oe_Type r) (oe_Data r).

(** A composite literal [OutgoingEvent{Type: t, Data: d}]. *)
Definition new_event (t : EventType) (d : EventData) : OutgoingEvent :=
  mkOutgoingEvent false "" t d.

Definition shareEncoding (event : OutgoingEvent) : OutgoingEvent :=
  if oe_encoding event then event else event <| oe_encoding := true |>.

(** The dynamic interface [interface{ EventChannelID() int64 }]: the types that
    declare the method. *)
Definition EventChannelID (d : EventData) : option Z :=
  match d with
  | DReactions d => Some (rx_ChannelID d)
  | DNotification d => Some (ne_ChannelID d)
  | DNotificationSettings d => Some (ns_ChannelID d)
  | DAttachmentsChanged d => Some (ac_ChannelID d)
  | DChannelActivity d => Some (ca_ChannelID d)
  | DTyping d => Some (ty_ChannelID d)
  | DE2EERelay d => Some (er_ChannelID d)
  | _ => None
  end.

Lemma shareEncoding_data event :
  oe_RequestID (shareEncoding event) = oe_RequestID event ∧
  oe_Type (shareEncoding event) = oe_Type event ∧
  oe_Data (shareEncoding event) = oe_Data event.
Proof. unfold shareEncoding. by destruct (oe_encoding event). Qed.
