(* ===== verification/Client.v ===== *)
(** * One websocket client: queues, access filter, membership

    Model of [client.go], [outgoing.go], [stream_legacy.go] (the client part)
    and the client methods of [channel_access.go]. A method that mutates the
    receiver is a state transformer on [Client]; the receiver's locks make each
    of these bodies one atomic step. *)

From S2P Require Import Prelude Events.

Definition outgoingBufferSize : nat := 128.
Arguments outgoingBufferSize : simpl never.

(** [cl_channelAccess = None] is the nil map (no policy installed);
    [cl_done] is "the [done] channel is closed"; [cl_outgoingReady] is "the
    one-slot wake-up channel holds a token"; [cl_legacyStreams] identifies the
    nil and the empty map, which no operation distinguishes. *)
Record Client := mkClient {
  cl_channelAccess : option (gset Z);
  cl_connectionID : string;
  cl_userID : Z;
  cl_sessionKey : string;
  cl_outgoing : list OutgoingEvent;
  cl_priority : list OutgoingEvent;
  cl_outgoingReady : bool;
  cl_priorityBurst : Z;
  cl_queueCoalesced : Z;
  cl_queueResyncs : Z;
  cl_queueHighWater : nat;
  cl_messageSync : bool;
  cl_multipleStreams : bool;
  cl_legacyStreams : gmap Z string;
  cl_done : bool;
  cl_closeReason : string;
  cl_queueFullLogged : bool;
  cl_subscriptions : gmap Z Z;
  cl_servers : gset Z
}.
#[export] Instance Client_fields : Fields Client := fun r =>
  mkClient (cl_channelAccess r) (cl_connectionID r) (cl_userID r) (cl_sessionKey r)
    (cl_outgoing r) (cl_priority r) (cl_outgoingReady r) (cl_priorityBurst r)
    (cl_queueCoalesced r) (cl_queueResyncs r) (cl_queueHighWater r) (cl_messageSync r)
    (cl_multipleStreams r) (cl_legacyStreams r) (cl_done r) (cl_closeReason r)
    (cl_queueFullLogged r) (cl_subscriptions r) (cl_servers r).

(** ** client.go: construction *)

(** [strconv.FormatUint(n, 36)]: the digits are produced least significant
    first, one per unit of fuel; 13 digits cover every [uint64]. *)
Definition base36_digit (d : N) : Ascii.ascii :=
  Ascii.ascii_of_N (if (d <? 10)%N then 48 + d else 87 + d)%N.

Fixpoint base36_digits (fuel : nat) (n : N) (acc : string) : string :=
  match fuel with
  | O => acc
  | S fuel' =>
      let acc' := String (base36_digit (n mod 36)) acc in
      if (n <? 36)%N then acc' else base36_digits fuel' (n / 36) acc'
  end.

(** [newConnectionID] on the value returned by [nextConnectionID.Add(1)]. *)
Definition newConnectionID (counter : N) : string := base36_digits 13 counter "".

(** [NewClient]; the session digest is computed by the caller. *)
Definition NewClient (connectionID : string) (userID : Z) (sessionKey : string)
    (serverIDs : list Z) : Client :=
  {| cl_channelAccess := None;
     cl_connectionID := connectionID;
     cl_userID := userID;
     cl_sessionKey := sessionKey;
     cl_outgoing := [];
     cl_priority := [];
     cl_outgoingReady := false;
     cl_priorityBurst := 0;
     cl_queueCoalesced := 0;
     cl_queueResyncs := 0;
     cl_queueHighWater := 0;
     cl_messageSync := false;
     cl_multipleStreams := false;
     cl_legacyStreams := ∅;
     cl_done := false;
     cl_closeReason := "";
     cl_queueFullLogged := false;
     cl_subscriptions := ∅;
     cl_servers := list_to_set (filter (fun s => (0 < s)%Z) serverIDs) |}.

Definition EnableMessageSync (c : Client) : Client := c <| cl_messageSync := true |>.
Definition EnableMultipleStreams (c : Client) : Client := c <| cl_multipleStreams := true |>.
Definition SupportsMultipleStreams (c : Client) : bool := cl_multipleStreams c.

(** [closeOnce] runs the body for the first caller only. *)
Definition CloseWithReason (reason : string) (c : Client) : Client :=
  if cl_done c then c else c <| cl_closeReason := reason |> <| cl_done := true |>.
Definition Close (c : Client) : Client := CloseWithReason "" c.

(** ** client.go: subscriptions and server membership *)

Definition addSubscription (serverID channelID : Z) (c : Client) : Client :=
  c <| cl_subscriptions ::= <[channelID := serverID]> |>.
Definition removeSubscription (channelID : Z) (c : Client) : Client :=
  c <| cl_subscriptions ::= delete channelID |>.
Definition subscriptionIDs `{MapOrder} (c : Client) : list Z :=
  range_keys (cl_subscriptions c).
Definition subscriptionIDsForServer `{MapOrder} (serverID : Z) (c : Client) : list Z :=
  (filter (fun kv => kv.2 = serverID) (range_entries (cl_subscriptions c))).*1.
Definition IsSubscribed (serverID channelID : Z) (c : Client) : bool :=
  bool_decide (cl_subscriptions c !! channelID = Some serverID).

Definition serverIDs `{MapOrder} (c : Client) : list Z := range_set (cl_servers c).
Definition hasServer (serverID : Z) (c : Client) : bool :=
  bool_decide (serverID ∈ cl_servers c).
Definition addServer (serverID : Z) (c : Client) : bool * Client :=
  if hasServer serverID c then (false, c)
  else (true, c <| cl_servers ::= union {[serverID]} |>).
Definition removeServer (serverID : Z) (c : Client) : bool * Client :=
  if hasServer serverID c then (true, c <| cl_servers ::= (.∖ {[serverID]}) |>)
  else (false, c).

(** ** channel_access.go: the per-client policy *)

Definition canAccessChannel (c : Client) (channelID : Z) : bool :=
  match cl_channelAccess c with
  | None => true
  | Some ids => bool_decide (channelID ∈ ids)
  end.

(** The channel identifier selected by the type switch of
    [filterChannelEvent]; 0 where the switch leaves [id] at its zero value. *)
Definition event_channel (d : EventData) : Z :=
  match EventChannelID d with
  | Some id => id
  | None =>
      match d with
      | DChannel d => cd_ID d
      | DChannelDeleted d => cx_ChannelID d
      | DChannelSubscription d => cs_ChannelID d
      | DChannelRead d => cr_ChannelID d
      | DChannelReadSnapshot d => crs_ChannelID d
      | DMessageCreated d => mc_ChannelID d
      | DMessageDeleted d => md_ChannelID d
      | DMessagePinned d => mp_ChannelID d
      | DMessageUnpinned d => mu_ChannelID d
      | DVoiceParticipant d => vp_ChannelID d
      | DVoiceLeft d => vl_ChannelID d
      | DVoiceJoined d => vp_ChannelID (vj_Participant d)
      | DStream d => st_ChannelID d
      | DStreamStopped d => ss_ChannelID d
      | DStreamWatching d => st_ChannelID (sw_Stream d)
      | DRecording d => rc_ChannelID d
      | _ => 0
      end
  end.

(** The snapshot cases of the switch: drop the entries of hidden channels and
    the shared encoding. *)
Definition filter_snapshot (c : Client) (event : OutgoingEvent) : OutgoingEvent :=
  match oe_Data event with
  | DVoiceSnapshot ps =>
      event <| oe_encoding := false |>
            <| oe_Data := DVoiceSnapshot
                 (filter (fun p => canAccessChannel c (vp_ChannelID p) = true) ps) |>
  | DStreamSnapshot ss =>
      event <| oe_encoding := false |>
            <| oe_Data := DStreamSnapshot
                 (filter (fun s => canAccessChannel c (st_ChannelID s) = true) ss) |>
  | DReadSnapshot rs =>
      event <| oe_encoding := false |>
            <| oe_Data := DReadSnapshot
                 (filter (fun r => canAccessChannel c (cr_ChannelID r) = true) rs) |>
  | _ => event
  end.

Definition filterChannelEvent (c : Client) (event : OutgoingEvent) : OutgoingEvent * bool :=
  let id := event_channel (oe_Data event) in
  (filter_snapshot c event, (id =? 0)%Z || canAccessChannel c id).

(** The in-place filtering of one queue. *)
Definition filter_queue (c : Client) (queue : list OutgoingEvent) : list OutgoingEvent :=
  omap (fun event =>
    let '(value, ok) := filterChannelEvent c event in
    if ok then Some value else None) queue.

Definition replaceChannelAccess (ids : option (gset Z)) (c : Client) : Client :=
  let c := c <| cl_channelAccess := ids |> in
  c <| cl_outgoing ::= filter_queue c |> <| cl_priority ::= filter_queue c |>.

(** ** stream_legacy.go *)

(** The first stream of every channel, in the order of the snapshot. *)
Fixpoint primary_streams (primary : gmap Z string) (streams : list StreamData)
    : gmap Z string * list StreamData :=
  match streams with
  | [] => (primary, [])
  | value :: rest =>
      match primary !! st_ChannelID value with
      | Some _ => primary_streams primary rest
      | None =>
          let '(primary', kept) := primary_streams
            (<[st_ChannelID value := st_PublisherConnectionID value]> primary) rest in
          (primary', value :: kept)
      end
  end.

Definition filterLegacyStreamEvent (event : OutgoingEvent) : M Client (OutgoingEvent * bool) :=
  c ← get_state;
  if SupportsMultipleStreams c then mret (event, true)
  else
    match oe_Data event with
    | DStreamSnapshot streams =>
        let '(primary, kept) := primary_streams ∅ streams in
        modify (fun c => c <| cl_legacyStreams := primary |>) ;;
        mret (event <| oe_Data := DStreamSnapshot kept |> <| oe_encoding := false |>, true)
    | DStream data =>
        let foreign :=
          match cl_legacyStreams c !! st_ChannelID data with
          | Some id => negb (String.eqb id (st_PublisherConnectionID data)) &&
                       String.eqb (oe_RequestID event) ""
          | None => false
          end in
        if foreign then mret (event, false)
        else
          modify (fun c => c <| cl_legacyStreams ::=
            <[st_ChannelID data := st_PublisherConnectionID data]> |>) ;;
          mret (event, true)
    | DStreamWatching data =>
        modify (fun c => c <| cl_legacyStreams ::=
          <[st_ChannelID (sw_Stream data) := st_PublisherConnectionID (sw_Stream data)]> |>) ;;
        mret (event, true)
    | DStreamStopped data =>
        if negb (String.eqb (oe_Type event) EventStreamStopped) then mret (event, true)
        else
          let foreign :=
            match cl_legacyStreams c !! ss_ChannelID data with
            | Some id => negb (String.eqb (ss_PublisherConnectionID data) "") &&
                         negb (String.eqb (ss_PublisherConnectionID data) id)
            | None => false
            end in
          if foreign then mret (event, false)
          else
            modify (fun c => c <| cl_legacyStreams ::= delete (ss_ChannelID data) |>) ;;
            mret (event, true)
    | _ => mret (event, true)
    end.

(** ** outgoing.go: keys *)

Definition fmt_d (z : Z) : string := pretty z.

Definition replacementKey (event : OutgoingEvent) : string :=
  if negb (String.eqb (oe_RequestID event) "") then ""
  else
    match EventChannelID (oe_Data event) with
    | Some id =>
        if String.eqb (oe_Type event) EventNotificationMessage then
          "notification/" +:+ fmt_d id
        else if String.eqb (oe_Type event) EventNotificationSettingsUpdated then
          "notification-settings/" +:+ fmt_d id
        else
          match oe_Data event with
          | DReactions value => "reactions/" +:+ fmt_d (rx_MessageID value)
          | DChannelActivity value => "activity/" +:+ fmt_d (ca_ChannelID value)
          | DTyping value =>
              if String.eqb (oe_Type event) EventTyping then
                "typing/" +:+ fmt_d (ty_ChannelID value) +:+ "/" +:+ fmt_d (ty_UserID value)
              else ""
          | _ => ""
          end
    | None =>
        match oe_Data event with
        | DPresenceUpdated value =>
            if String.eqb (oe_Type event) EventPresenceUpdated then
              "presence/" +:+ fmt_d (pu_ServerID value) +:+ "/" +:+ fmt_d (pu_UserID value)
            else ""
        | DChannelRead value =>
            if String.eqb (oe_Type event) EventChannelRead then
              "read/" +:+ fmt_d (cr_ChannelID value) +:+ "/" +:+ fmt_d (cr_UserID value)
            else ""
        | _ => ""
        end
    end.

Definition eventMessageChannel (event : OutgoingEvent) : Z :=
  if negb (String.eqb (oe_RequestID event) "") then 0
  else if String.eqb (oe_Type event) EventMessageReactionsChanged then
    match oe_Data event with DReactions value => rx_ChannelID value | _ => 0 end
  else if String.eqb (oe_Type event) EventMessageCreated ||
          String.eqb (oe_Type event) EventMessageUpdated then
    match oe_Data event with DMessageCreated value => mc_ChannelID value | _ => 0 end
  else if String.eqb (oe_Type event) EventMessageDeleted ||
          String.eqb (oe_Type event) EventMessageUnpinned then
    match oe_Data event with DMessageDeleted value => md_ChannelID value | _ => 0 end
  else if String.eqb (oe_Type event) EventMessagePinned then
    match oe_Data event with DMessagePinned value => mp_ChannelID value | _ => 0 end
  else 0.

(** The alerts and indicators that a full queue may drop. *)
Definition transient_type (t : EventType) : bool :=
  String.eqb t EventNotificationMessage || String.eqb t EventTyping ||
  String.eqb t EventChannelActivity.

(** ** outgoing.go: the queue *)

Definition notifyOutgoing (c : Client) : Client := c <| cl_outgoingReady := true |>.

(** The zero [OutgoingEvent] left in the slots that compaction clears. *)
Definition zero_event : OutgoingEvent := mkOutgoingEvent false "" "" DNone.

Definition PopOutgoing : M Client (option OutgoingEvent) :=
  c ← get_state;
  let from_priority := (0 <? length (cl_priority c)) &&
    ((cl_priorityBurst c <? 8)%Z || (length (cl_outgoing c) =? 0)) in
  (if from_priority then modify (fun c => c <| cl_priorityBurst ::= Z.add 1 |>)
   else modify (fun c => c <| cl_priorityBurst := 0%Z |>)) ;;
  let queue := if from_priority then cl_priority c else cl_outgoing c in
  match queue with
  | [] => mret None
  | event :: rest =>
      (if from_priority then modify (fun c => c <| cl_priority := rest |>)
       else modify (fun c => c <| cl_outgoing := rest |>)) ;;
      pending ← gets (fun c => length (cl_outgoing c) + length (cl_priority c));
      when (0 <? pending) (modify notifyOutgoing) ;;
      mret (Some event)
  end.

Definition is_media (t : EventType) : bool :=
  String.prefix "voice." t || String.prefix "stream." t.

Definition coalesced : M Client unit :=
  modify (fun c => c <| cl_queueCoalesced ::= u64_succ |>).

(** The replacement loop: position of the first queued event with the key. *)
Definition find_key (key : string) (queue : list OutgoingEvent) : option (nat * OutgoingEvent) :=
  list_find (fun queued => replacementKey queued = key) queue.

(** Whether [event] is older than [queued], per payload type. A queued read
    whose key matches an event of another payload type fails the assertion
    [event.Data.(ChannelReadData)]. *)
Definition is_stale (queued event : OutgoingEvent) : Res bool :=
  match oe_Data queued with
  | DReactions previous =>
      match oe_Data event with
      | DReactions next => Ok (rx_Revision next <? rx_Revision previous)%Z
      | _ => Ok false
      end
  | DChannelRead previous =>
      match oe_Data event with
      | DChannelRead next =>
          Ok (cr_LastReadMessageID next <? cr_LastReadMessageID previous)%Z
      | _ => Panic
      end
  | _ => Ok false
  end.

(** The search for a catch-up marker of the channel; a marker with another
    payload fails the assertion [queued.Data.(ChannelSubscriptionData)]. *)
Fixpoint has_marker (channelID : Z) (queue : list OutgoingEvent) : Res bool :=
  match queue with
  | [] => Ok false
  | queued :: rest =>
      if String.eqb (oe_Type queued) EventChannelSyncRequired then
        match oe_Data queued with
        | DChannelSubscription d =>
            if (cs_ChannelID d =? channelID)%Z then Ok true else has_marker channelID rest
        | _ => Panic
        end
      else has_marker channelID rest
  end.

Definition lift_res {S A} (r : Res A) : M S A := fun s =>
  match r with Ok a => Ok (a, s) | Panic => Panic | OutOfFuel => OutOfFuel end.

(** [compactChannel]: [kept] reuses the array of [c.outgoing] and the slots
    behind it are cleared, so the receiver's slice is replaced as a whole. *)
Definition sync_marker (serverID channelID : Z) : OutgoingEvent :=
  new_event EventChannelSyncRequired
    (DChannelSubscription (mkChannelSubscriptionData serverID channelID)).

Fixpoint compact_queue (serverID channelID : Z) (inserted : bool)
    (queue : list OutgoingEvent) : list OutgoingEvent * bool :=
  match queue with
  | [] => ([], inserted)
  | queued :: rest =>
      if (eventMessageChannel queued =? channelID)%Z then
        let '(kept, ins) := compact_queue serverID channelID true rest in
        (if inserted then kept else sync_marker serverID channelID :: kept, ins)
      else
        let '(kept, ins) := compact_queue serverID channelID inserted rest in
        (queued :: kept, ins)
  end.

Definition compactChannel (channelID : Z) : M Client bool :=
  c ← get_state;
  if negb (cl_messageSync c) then mret false
  else
    let serverID := default 0%Z (cl_subscriptions c !! channelID) in
    if (serverID <=? 0)%Z then mret false
    else
      let '(kept, inserted) := compact_queue serverID channelID false (cl_outgoing c) in
      modify (fun c => c <| cl_outgoing := kept |>) ;;
      when inserted (modify (fun c => c <| cl_queueResyncs ::= u64_succ |>)) ;;
      mret inserted.

(** The compaction loop ranges over the slice header read before the loop while
    [compactChannel] rewrites the same array: iteration [index] reads slot
    [index] of the array as it is then. [true] is the early [return true]. *)
Fixpoint compact_loop (channelID : Z) (indices : list nat) : M Client bool :=
  match indices with
  | [] => mret false
  | index :: rest =>
      queued ← gets (fun c => default zero_event (cl_outgoing c !! index));
      let candidate := eventMessageChannel queued in
      if (0 <? candidate)%Z then
        compacted ← compactChannel candidate;
        if negb compacted then compact_loop channelID rest
        else if (candidate =? channelID)%Z then mret true
        else
          len ← gets (fun c => length (cl_outgoing c));
          if len <? outgoingBufferSize then mret false
          else compact_loop channelID rest
      else compact_loop channelID rest
  end.

(** Drop the first transient event of a full queue. *)
Fixpoint drop_transient (queue : list OutgoingEvent) : list OutgoingEvent :=
  match queue with
  | [] => []
  | queued :: rest =>
      if transient_type (oe_Type queued) then rest else queued :: drop_transient rest
  end.

Definition queue_full : M Client bool :=
  gets (fun c => length (cl_outgoing c) =? outgoingBufferSize).

(** The part of [enqueueLocked] after the coalescing checks. *)
Definition enqueue_append (event : OutgoingEvent) : M Client bool :=
  let channelID := eventMessageChannel event in
  full ← queue_full;
  if full && transient_type (oe_Type event) then mret true
  else
    when full (modify (fun c => c <| cl_outgoing ::= drop_transient |>)) ;;
    full ← queue_full;
    returned ← (if full : bool then
                  compact_loop channelID (seq 0 outgoingBufferSize)
                else mret false);
    if returned : bool then mret true
    else
      full ← queue_full;
      if full : bool then mret false
      else modify (fun c => c <| cl_outgoing ::= (.++ [event]) |>) ;; mret true.

Definition enqueue_marked (event : OutgoingEvent) : M Client bool :=
  let channelID := eventMessageChannel event in
  marked ← (if (0 <? channelID)%Z then
              c ← get_state; lift_res (has_marker channelID (cl_outgoing c))
            else mret false);
  if marked : bool then coalesced ;; mret true else enqueue_append event.

Definition enqueueLocked (event : OutgoingEvent) : M Client bool :=
  c ← get_state;
  if is_media (oe_Type event) then
    if length (cl_priority c) =? outgoingBufferSize then mret false
    else modify (fun c => c <| cl_priority ::= (.++ [event]) |>) ;; mret true
  else
    let key := replacementKey event in
    match (if String.eqb key "" then None else find_key key (cl_outgoing c)) with
    | Some (index, queued) =>
        stale ← lift_res (is_stale queued event);
        when (negb stale) (modify (fun c => c <| cl_outgoing ::= <[index := event]> |>)) ;;
        coalesced ;; mret true
    | None => enqueue_marked event
    end.

(** ** client.go: [enqueue] *)

Definition record_high_water (c : Client) : Client :=
  let pending := length (cl_outgoing c) + length (cl_priority c) in
  c <| cl_queueHighWater ::= fun high => if high <? pending then pending else high |>.

Definition enqueue (event : OutgoingEvent) : M Client bool :=
  c ← get_state;
  if cl_done c then mret false
  else
    let '(event, allowed) := filterChannelEvent c event in
    '(event, allowed) ← (if allowed then filterLegacyStreamEvent event
                         else mret (event, false));
    if negb allowed then mret true
    else
      accepted ← enqueueLocked event;
      if accepted : bool then
        modify (fun c => notifyOutgoing (record_high_water c)) ;; mret true
      else
        modify (fun c => c <| cl_queueFullLogged := true |>) ;; mret false.

Definition Send : OutgoingEvent → M Client bool := enqueue.

Record QueueStats := mkQueueStats {
  qs_NormalPending : nat; qs_MediaPending : nat; qs_HighWatermark : nat;
  qs_Coalesced : Z; qs_Resyncs : Z }.

Definition client_QueueStats (c : Client) : QueueStats :=
  mkQueueStats (length (cl_outgoing c)) (length (cl_priority c)) (cl_queueHighWater c)
    (cl_queueCoalesced c) (cl_queueResyncs c).
