(* ===== verification/ClientFacts.v ===== *)
(** * The client queues: bounds, order, coverage and fairness

    Theorems about [Client]: the queues stay within their buffer, an accepted
    event is never lost silently, the events that carry protocol state keep
    their order, ordinary events are served at least every ninth time, and the
    queues never hold an event of a channel the client cannot access. *)

From S2P Require Import Prelude Events Client.

(** ** Vocabulary *)

Definition is_marker (e : OutgoingEvent) : bool :=
  String.eqb (oe_Type e) EventChannelSyncRequired.

(** The events that nothing may drop, reorder or merge: not an alert or
    indicator, no replacement key, not a chat delta, not a catch-up marker. *)
Definition critical (e : OutgoingEvent) : bool :=
  negb (transient_type (oe_Type e)) && String.eqb (replacementKey e) "" &&
  (eventMessageChannel e <=? 0)%Z && negb (is_marker e).

(** [m] is a catch-up marker of channel [ch]. *)
Definition marks (ch : Z) (m : OutgoingEvent) : Prop :=
  oe_Type m = EventChannelSyncRequired ∧
  ∃ s, oe_Data m = DChannelSubscription (mkChannelSubscriptionData s ch).

(** [x] is represented in the queue [q]: it is there, or it is a droppable
    indicator, or a queued event with its key supersedes it, or a catch-up
    marker of its channel makes the client refetch it. *)
Definition represented (q : list OutgoingEvent) (x : OutgoingEvent) : Prop :=
  x ∈ q ∨ transient_type (oe_Type x) = true ∨
  (replacementKey x ≠ "" ∧ ∃ y, y ∈ q ∧ replacementKey y = replacementKey x) ∨
  ((0 < eventMessageChannel x)%Z ∧ ∃ m, m ∈ q ∧ marks (eventMessageChannel x) m).

(** A catch-up marker carries the payload its reader asserts. *)
Definition event_typed (e : OutgoingEvent) : Prop :=
  oe_Type e = EventChannelSyncRequired → ∃ d, oe_Data e = DChannelSubscription d.

Definition queue_ok (c : Client) : Prop :=
  length (cl_outgoing c) ≤ outgoingBufferSize ∧
  length (cl_priority c) ≤ outgoingBufferSize ∧
  Forall event_typed (cl_outgoing c).

(** What an enqueue may do to the ordinary queue: [q'] after [e] was offered to
    [q] with outcome [ok]. *)
Record queue_step (e : OutgoingEvent) (q : list OutgoingEvent) (ok : bool)
    (q' : list OutgoingEvent) : Prop := {
  qs_bound : length q ≤ outgoingBufferSize → length q' ≤ outgoingBufferSize;
  qs_typed : Forall event_typed q → event_typed e → Forall event_typed q';
  qs_critical : filter (fun x => critical x = true) q' =
    filter (fun x => critical x = true) q ++ (if critical e && ok then [e] else []);
  qs_kept : ∀ x, x ∈ q → represented q' x;
  qs_taken : ok = true → represented q' e;
  qs_source : ∀ x, x ∈ q' → x ∈ q ∨ x = e ∨
    (∃ s ch y, x = sync_marker s ch ∧ y ∈ q ∧ eventMessageChannel y = ch ∧ (0 < ch)%Z);
  qs_rejected : ok = false → length q' = outgoingBufferSize;
  qs_nonempty : q ≠ [] → q' ≠ []
}.

(** ** Keys *)

Lemma replacementKey_marker s ch : replacementKey (sync_marker s ch) = "".
Proof. done. Qed.

Lemma eventMessageChannel_marker s ch : eventMessageChannel (sync_marker s ch) = 0%Z.
Proof. done. Qed.

Lemma event_typed_marker s ch : event_typed (sync_marker s ch).
Proof. intros _. eauto. Qed.

Lemma critical_marker s ch : critical (sync_marker s ch) = false.
Proof. done. Qed.

Lemma critical_delta e : (0 < eventMessageChannel e)%Z → critical e = false.
Proof.
  intros H. unfold critical.
  destruct (Z.leb_spec (eventMessageChannel e) 0); [lia|]. by rewrite andb_false_r.
Qed.

Lemma critical_keyed e : replacementKey e ≠ "" → critical e = false.
Proof.
  intros H. unfold critical. destruct (String.eqb_spec (replacementKey e) ""); [done|].
  by rewrite andb_false_r.
Qed.

Lemma critical_transient e : transient_type (oe_Type e) = true → critical e = false.
Proof. intros H. unfold critical. by rewrite H. Qed.

(** Keys of reads start with [read/]; no other payload has such a key. *)
Lemma replacementKey_read queued event d :
  oe_Data queued = DChannelRead d → replacementKey queued = replacementKey event →
  replacementKey queued ≠ "" → ∃ d', oe_Data event = DChannelRead d'.
Proof.
  unfold replacementKey. intros ->. simpl.
  destruct (negb (String.eqb (oe_RequestID queued) "")); [done|].
  destruct (String.eqb (oe_Type queued) EventChannelRead); [|done].
  destruct (negb (String.eqb (oe_RequestID event) "")); [done|].
  intros Hkey _. revert Hkey.
  destruct (oe_Data event); simpl; repeat case_match; try done; eauto.
Qed.

Lemma is_stale_ok queued event :
  replacementKey queued = replacementKey event → replacementKey queued ≠ "" →
  ∃ b, is_stale queued event = Ok b.
Proof.
  intros Hkey Hne. unfold is_stale. destruct (oe_Data queued) eqn:Hd; eauto.
  - destruct (oe_Data event); eauto.
  - destruct (replacementKey_read _ _ _ Hd Hkey Hne) as [d' ->]. eauto.
Qed.

Lemma has_marker_ok ch q :
  Forall event_typed q → ∃ b, has_marker ch q = Ok b ∧
    (b = true → ∃ m, m ∈ q ∧ marks ch m).
Proof.
  induction 1 as [|x q Hx _ IH]; simpl; [by eexists|].
  destruct IH as (b & Hb & Hm).
  destruct (String.eqb_spec (oe_Type x) EventChannelSyncRequired) as [Ht|_].
  2:{ exists b. split; [done|]. intros (m&?&?)%Hm. exists m. set_solver. }
  destruct (Hx Ht) as [[s ch'] Hd]. rewrite Hd. simpl.
  destruct (Z.eqb_spec ch' ch) as [->|_].
  - exists true. split; [done|]. intros _. exists x.
    split; [set_solver|]. split; [done|eauto].
  - exists b. split; [done|]. intros (m&?&?)%Hm. exists m. set_solver.
Qed.

Lemma marks_sync_marker s ch : marks ch (sync_marker s ch).
Proof. split; [done|by exists s]. Qed.

Lemma marks_plain ch m :
  marks ch m → transient_type (oe_Type m) = false ∧ replacementKey m = "" ∧
    eventMessageChannel m = 0%Z.
Proof.
  intros [Ht [s Hd]]. unfold replacementKey, eventMessageChannel.
  rewrite Ht, Hd. simpl. by destruct (negb _).
Qed.

(** ** Making room: dropping one indicator and compacting channels *)

(** [q'] is [q] with indicators dropped and channels compacted. *)
Record queue_shrink (q q' : list OutgoingEvent) : Prop := {
  sh_bound : length q' ≤ length q;
  sh_typed : Forall event_typed q → Forall event_typed q';
  sh_critical : filter (fun x => critical x = true) q' = filter (fun x => critical x = true) q;
  sh_kept : ∀ x, x ∈ q → x ∈ q' ∨ transient_type (oe_Type x) = true ∨
    ((0 < eventMessageChannel x)%Z ∧ ∃ m, m ∈ q' ∧ marks (eventMessageChannel x) m);
  sh_source : ∀ x, x ∈ q' → x ∈ q ∨
    (∃ s ch y, x = sync_marker s ch ∧ y ∈ q ∧ eventMessageChannel y = ch ∧ (0 < ch)%Z)
}.

#[export] Instance queue_shrink_refl : Reflexive queue_shrink.
Proof. intros q. split; eauto. Qed.

#[export] Instance queue_shrink_trans : Transitive queue_shrink.
Proof.
  intros q1 q2 q3 [B1 T1 C1 K1 S1] [B2 T2 C2 K2 S2]. split.
  - lia.
  - auto.
  - congruence.
  - intros x [Hx|[Hx|[Hch (m&Hm&Hmk)]]]%K1; [auto|auto|].
    destruct (marks_plain _ _ Hmk) as (Ht&_&He).
    destruct (K2 _ Hm) as [?|[?|[? _]]]; [eauto 6|congruence|lia].
  - intros x [Hx|(s&ch&y&->&Hy&Hch&Hpos)]%S2; [auto|].
    destruct (S1 _ Hy) as [?|(s'&ch'&y'&->&_)]; [eauto 8|].
    rewrite eventMessageChannel_marker in Hch. lia.
Qed.

Lemma drop_transient_shrink q : queue_shrink q (drop_transient q).
Proof.
  induction q as [|x q [B T C K S]]; [done|].
  simpl. destruct (transient_type (oe_Type x)) eqn:Ht.
  - split; simpl; [lia|by inversion 1| |set_solver..].
    by rewrite filter_cons_False by (by rewrite critical_transient).
  - split; simpl.
    + lia.
    + inversion_clear 1. constructor; auto.
    + rewrite !filter_cons, C. done.
    + intros y [->|Hy]%elem_of_cons; [set_solver|].
      destruct (K y Hy) as [?|[?|[? (m&?&?)]]]; [set_solver|auto|].
      right; right. split; [done|]. exists m. set_solver.
    + intros y [->|Hy]%elem_of_cons; [set_solver|].
      destruct (S y Hy) as [?|(s&ch&z&->&?&?&?)]; [set_solver|].
      right. exists s, ch, z. set_solver.
Qed.

Lemma compact_queue_bound s ch b q :
  length (compact_queue s ch b q).1 ≤ length q.
Proof.
  revert b. induction q as [|x q IH]; intros b; simpl; [done|].
  destruct (_ =? _)%Z.
  - specialize (IH true). destruct (compact_queue s ch true q). destruct b; simpl in *; lia.
  - specialize (IH b). destruct (compact_queue s ch b q). simpl in *; lia.
Qed.

Lemma compact_queue_rest s ch q :
  compact_queue s ch true q = (filter (fun x => eventMessageChannel x ≠ ch) q, true).
Proof.
  induction q as [|x q IH]; simpl; [done|]. rewrite IH, filter_cons.
  destruct (Z.eqb_spec (eventMessageChannel x) ch); case_decide; naive_solver.
Qed.

Lemma compact_queue_skip s ch q :
  Forall (fun x => eventMessageChannel x ≠ ch) q → compact_queue s ch false q = (q, false).
Proof.
  induction 1 as [|x q Hx _ IH]; simpl; [done|]. rewrite IH.
  by destruct (Z.eqb_spec (eventMessageChannel x) ch).
Qed.

Lemma compact_queue_first s ch l x r :
  Forall (fun y => eventMessageChannel y ≠ ch) l → eventMessageChannel x = ch →
  compact_queue s ch false (l ++ x :: r) =
    (l ++ sync_marker s ch :: filter (fun y => eventMessageChannel y ≠ ch) r, true).
Proof.
  intros Hl Hx. induction Hl as [|y l Hy _ IH]; simpl.
  - by rewrite Hx, Z.eqb_refl, compact_queue_rest.
  - rewrite IH. by destruct (Z.eqb_spec (eventMessageChannel y) ch).
Qed.

(** Either no delta of the channel is queued, or the queue splits at the first. *)
Lemma split_first_delta ch q :
  Forall (fun x => eventMessageChannel x ≠ ch) q ∨
  ∃ l x r, q = l ++ x :: r ∧ eventMessageChannel x = ch ∧
    Forall (fun y => eventMessageChannel y ≠ ch) l.
Proof.
  induction q as [|x q [IH|(l&y&r&->&Hy&Hl)]]; [by left| |].
  - destruct (decide (eventMessageChannel x = ch)) as [Hx|Hx].
    + right. by exists [], x, q.
    + left. by constructor.
  - right. destruct (decide (eventMessageChannel x = ch)) as [Hx|Hx].
    + by exists [], x, (l ++ y :: r).
    + exists (x :: l), y, r. split; [done|]. split; [done|]. by constructor.
Qed.

Lemma filter_critical_deltas ch (q : list OutgoingEvent) :
  (0 < ch)%Z →
  filter (fun x => critical x = true) (filter (fun y => eventMessageChannel y ≠ ch) q) =
  filter (fun x => critical x = true) q.
Proof.
  intros Hch. apply list_filter_filter_l. intros x Hx Heq.
  rewrite critical_delta in Hx by lia. done.
Qed.

Lemma compact_queue_shrink s ch q kept :
  (0 < ch)%Z → compact_queue s ch false q = (kept, true) →
  queue_shrink q kept ∧ sync_marker s ch ∈ kept.
Proof.
  intros Hch Heq.
  destruct (split_first_delta ch q) as [Hn|(l&x&r&->&Hx&Hl)].
  { rewrite compact_queue_skip in Heq by done. done. }
  rewrite compact_queue_first in Heq by done. injection Heq as <-.
  split; [|set_solver]. split.
  - rewrite !length_app. simpl. pose proof (length_filter (fun y => eventMessageChannel y ≠ ch) r).
    lia.
  - rewrite !Forall_app, !Forall_cons. intros (?&?&?). split; [done|].
    split; [apply event_typed_marker|by apply Forall_filter_sub].
  - rewrite !filter_app, !filter_cons, filter_critical_deltas by done.
    rewrite critical_marker, critical_delta by lia. done.
  - intros y. destruct (decide (eventMessageChannel y = ch)) as [Hy|Hy].
    + intros _. right; right. rewrite Hy. split; [done|].
      exists (sync_marker s ch). split; [set_solver|apply marks_sync_marker].
    + rewrite !elem_of_app, !elem_of_cons. intros [?|[->|?]]; [auto|congruence|].
      left; right; right. by apply list_elem_of_filter.
  - intros y. rewrite !elem_of_app, !elem_of_cons, list_elem_of_filter.
    intros [?|[->|[_ ?]]]; [auto| |auto].
    right. exists s, ch, x. set_solver.
Qed.

(** What is common to the receivers before and after a queue operation. *)
Definition same_frame (c c' : Client) : Prop :=
  c' = c <| cl_outgoing := cl_outgoing c' |> <| cl_priority := cl_priority c' |>
         <| cl_queueCoalesced := cl_queueCoalesced c' |>
         <| cl_queueResyncs := cl_queueResyncs c' |>.

#[export] Instance same_frame_refl : Reflexive same_frame.
Proof. by intros []. Qed.
#[export] Instance same_frame_trans : Transitive same_frame.
Proof. intros [] [] []. unfold same_frame. simpl. intros [=] [=]. by subst. Qed.

(** A loop body that only makes room in the ordinary queue. *)
Definition room_made (c c' : Client) : Prop :=
  same_frame c c' ∧ cl_priority c' = cl_priority c ∧
  queue_shrink (cl_outgoing c) (cl_outgoing c').

#[export] Instance room_made_refl : Reflexive room_made.
Proof. done. Qed.
#[export] Instance room_made_trans : Transitive room_made.
Proof. intros c1 c2 c3 (?&?&?) (?&?&?). split_and!; [by etrans|congruence|by etrans]. Qed.

Lemma compactChannel_spec ch c :
  (0 < ch)%Z →
  wp (compactChannel ch) (fun b c' => room_made c c' ∧
    (b = true → ∃ m, m ∈ cl_outgoing c' ∧ marks ch m) ∧
    (b = false → cl_outgoing c' = cl_outgoing c)) c.
Proof.
  intros Hch. unfold compactChannel. wp_step. wp_step.
  destruct (cl_messageSync c); simpl; [|by wp_step].
  set (s := default 0%Z (cl_subscriptions c !! ch)).
  destruct (s <=? 0)%Z; [by wp_step|].
  destruct (compact_queue s ch false (cl_outgoing c)) as [kept b] eqn:Heq.
  destruct b.
  - apply compact_queue_shrink in Heq as [Hsh Hm]; [|done].
    wp_steps; try done. split; [|split; [|done]].
    + split_and!; [by destruct c|done|done].
    + intros _. exists (sync_marker s ch). split; [done|apply marks_sync_marker].
  - destruct (split_first_delta ch (cl_outgoing c)) as [Hn|(l&x&r&Hq&Hx&Hl)].
    + rewrite compact_queue_skip in Heq by done. injection Heq as <-.
      by wp_steps.
    + rewrite Hq, compact_queue_first in Heq by done. done.
Qed.

Lemma compact_loop_spec ch indices c :
  wp (compact_loop ch indices) (fun b c' => room_made c c' ∧
    (b = true → (0 < ch)%Z ∧ ∃ m, m ∈ cl_outgoing c' ∧ marks ch m)) c.
Proof.
  revert c. induction indices as [|i indices IH]; intros c; simpl; [by wp_step|].
  wp_step. wp_step. simpl.
  set (cand := eventMessageChannel _).
  destruct (Z.ltb_spec 0 cand) as [Hpos|_]; [|apply IH].
  wp_step. eapply wp_mono; [by apply compactChannel_spec|].
  intros b c1 (Hroom&Hm&_). destruct b; simpl.
  2:{ eapply wp_mono; [apply IH|]. intros b' c2 [Hroom2 Hb]. split; [by etrans|done]. }
  destruct (Z.eqb_spec cand ch) as [<-|_]; [wp_step; auto|].
  wp_step. wp_step. simpl. destruct (_ <? _); [by wp_step|].
  eapply wp_mono; [apply IH|]. intros b' c2 [Hroom2 Hb]. split; [by etrans|done].
Qed.

(** ** The steps of an enqueue as queue steps *)

Lemma queue_step_absorbed e q :
  critical e = false → represented q e → queue_step e q true q.
Proof.
  intros Hc He. split; try done; [|by left|auto].
  by rewrite Hc, app_nil_r.
Qed.

Lemma queue_step_replaced e q i x :
  q !! i = Some x → replacementKey x = replacementKey e → replacementKey e ≠ "" →
  queue_step e q true (<[i := e]> q).
Proof.
  intros Hi Hkey Hne. apply list_elem_of_split_length in Hi as (l&r&->&->).
  rewrite insert_app_r_alt, Nat.sub_diag by done. simpl. split; try done.
  - by rewrite !length_app.
  - rewrite !Forall_app, !Forall_cons. naive_solver.
  - rewrite !filter_app, !filter_cons, !critical_keyed by congruence. simpl.
    by rewrite app_nil_r.
  - intros y. rewrite elem_of_app, elem_of_cons. intros [Hy|[->|Hy]].
    + left. set_solver.
    + right; right; left. split; [congruence|]. exists e. set_solver.
    + left. set_solver.
  - intros _. left. set_solver.
  - set_solver.
  - intros _ Hnil. by apply app_eq_nil in Hnil as [_ ?].
Qed.

Lemma queue_step_append e q q' :
  queue_shrink q q' → length q' ≠ outgoingBufferSize → queue_step e q true (q' ++ [e]).
Proof.
  intros [B T C K S] Hlen. split; try done.
  - rewrite length_app. simpl. lia.
  - intros ??. apply Forall_app. auto.
  - rewrite filter_app, C, filter_cons, filter_nil. f_equal.
    rewrite andb_true_r. by destruct (critical e).
  - intros x [?|[?|[? (m&?&?)]]]%K; unfold represented; [set_solver..|].
    right; right; right. split; [done|]. exists m. set_solver.
  - intros _. left. set_solver.
  - intros x. rewrite elem_of_app, list_elem_of_singleton. intros [[?|?]%S| ->]; auto.
  - intros _ Hnil. by apply app_eq_nil in Hnil as [_ ?].
Qed.

Lemma queue_step_shrunk e q q' (ok : bool) :
  queue_shrink q q' → (if ok then critical e = false ∧ represented q' e ∧ q' ≠ []
                       else length q' = outgoingBufferSize) →
  queue_step e q ok q'.
Proof.
  intros [B T C K S] Hok. split.
  - lia.
  - auto.
  - destruct ok; [destruct Hok as (->&_&_)|]; by rewrite ?andb_false_r, app_nil_r.
  - intros x [?|[?|?]]%K; unfold represented; auto.
  - intros ->. apply Hok.
  - intros x [?|?]%S; auto.
  - intros ->. apply Hok.
  - intros _. destruct ok; [apply Hok|]. by destruct q'.
Qed.

(** ** [enqueueLocked] *)

Definition enqueued (e : OutgoingEvent) (c : Client) (ok : bool) (c' : Client) : Prop :=
  same_frame c c' ∧
  if is_media (oe_Type e) then
    cl_outgoing c' = cl_outgoing c ∧
    cl_priority c' = (if ok then cl_priority c ++ [e] else cl_priority c) ∧
    (ok = false ↔ length (cl_priority c) = outgoingBufferSize)
  else cl_priority c' = cl_priority c ∧ queue_step e (cl_outgoing c) ok (cl_outgoing c').

Lemma enqueue_append_spec e c :
  wp (enqueue_append e) (fun ok c' => same_frame c c' ∧
    cl_priority c' = cl_priority c ∧ queue_step e (cl_outgoing c) ok (cl_outgoing c')) c.
Proof.
  unfold enqueue_append, queue_full. wp_step. wp_step.
  destruct (length (cl_outgoing c) =? outgoingBufferSize) eqn:Hfull; cbn [andb when].
  - destruct (transient_type (oe_Type e)) eqn:Ht.
    { wp_step. split_and!; try done. apply queue_step_absorbed; [by apply critical_transient|].
      by right; left. }
    wp_step. wp_step. set (c1 := c <| cl_outgoing ::= drop_transient |>).
    assert (room_made c c1) as Hroom1.
    { split_and!; [by destruct c|done|apply drop_transient_shrink]. }
    wp_step. wp_step. wp_step.
    apply (wp_mono _ (fun (b : bool) c' => room_made c c' ∧
      (b = true → (0 < eventMessageChannel e)%Z ∧
        ∃ m, m ∈ cl_outgoing c' ∧ marks (eventMessageChannel e) m))).
    { destruct (length (cl_outgoing c1) =? outgoingBufferSize); [|by wp_step].
      eapply wp_mono; [apply compact_loop_spec|]. intros b c2 [? ?].
      split; [by etrans|done]. }
    intros b c2 ((Hf&Hp&Hsh)&Hb). destruct b.
    { wp_step. split_and!; try done. apply (queue_step_shrunk e _ _ true); [done|].
      destruct (Hb eq_refl) as [Hpos (m&Hm&Hmk)].
      split_and!; [by apply critical_delta|right; right; right; eauto|].
      intros Hnil. rewrite Hnil in Hm. by apply not_elem_of_nil in Hm. }
    wp_step. wp_step. destruct (Nat.eqb_spec (length (cl_outgoing c2)) outgoingBufferSize).
    + wp_step. split_and!; try done. by apply (queue_step_shrunk e _ _ false).
    + wp_steps. split_and!; [|done|by apply queue_step_append].
      etrans; [exact Hf|]. by destruct c2.
  - apply Nat.eqb_neq in Hfull as Hne.
    wp_step. wp_step. wp_step. wp_step. rewrite Hfull. wp_step. wp_step. wp_step. wp_step.
    rewrite Hfull. wp_step. wp_step. wp_step.
    split_and!; [by destruct c|done|by apply queue_step_append].
Qed.

Lemma enqueue_marked_spec e c :
  Forall event_typed (cl_outgoing c) →
  wp (enqueue_marked e) (fun ok c' => same_frame c c' ∧
    cl_priority c' = cl_priority c ∧ queue_step e (cl_outgoing c) ok (cl_outgoing c')) c.
Proof.
  intros Htyped. unfold enqueue_marked. wp_step.
  destruct (Z.ltb_spec 0 (eventMessageChannel e)) as [Hpos|_].
  2:{ wp_step. apply enqueue_append_spec. }
  destruct (has_marker_ok (eventMessageChannel e) _ Htyped) as (b&Hb&Hm).
  wp_step. wp_step. unfold lift_res. rewrite Hb. unfold wp at 1.
  destruct b; [|apply enqueue_append_spec].
  unfold coalesced. wp_step. wp_step. wp_step. split_and!; [by destruct c|done|].
  apply queue_step_absorbed; [by apply critical_delta|].
  by right; right; right; split; [|apply Hm].
Qed.

Lemma enqueueLocked_spec e c :
  Forall event_typed (cl_outgoing c) → wp (enqueueLocked e) (enqueued e c) c.
Proof.
  intros Htyped. unfold enqueueLocked, enqueued. wp_step. wp_step.
  destruct (is_media (oe_Type e)) eqn:Hmedia.
  { destruct (Nat.eqb_spec (length (cl_priority c)) outgoingBufferSize).
    - by wp_step.
    - wp_step. wp_step. wp_step. split_and!; [by destruct c|done|done|]. split; congruence. }
  destruct (String.eqb_spec (replacementKey e) "") as [_|Hne];
    [by apply enqueue_marked_spec|].
  destruct (find_key (replacementKey e) (cl_outgoing c)) as [[i x]|] eqn:Hfind;
    [|by apply enqueue_marked_spec].
  apply list_find_Some in Hfind as (Hi&Hkey&_).
  destruct (is_stale_ok x e) as [stale Hstale]; [done|congruence|].
  wp_step. unfold lift_res. rewrite Hstale. unfold wp at 1.
  unfold coalesced. destruct stale; simpl; wp_step; wp_step; wp_step; wp_step; wp_step.
  - split_and!; [by destruct c|done|]. simpl.
    apply queue_step_absorbed; [by apply critical_keyed|].
    right; right; left. split; [done|]. exists x. split; [|done].
    by eapply list_elem_of_lookup_2.
  - split_and!; [by destruct c|done|]. by eapply queue_step_replaced.
Qed.

(** C26: offering an event to a client whose queues fit their buffers always
    returns, without a failed type assertion, and leaves both queues within
    [outgoingBufferSize]; it is refused only when its lane is full. *)
Theorem enqueueLocked_bounded e c :
  queue_ok c → event_typed e →
  wp (enqueueLocked e) (fun ok c' => queue_ok c' ∧
    (ok = false →
       length (if is_media (oe_Type e) then cl_priority c' else cl_outgoing c') =
         outgoingBufferSize)) c.
Proof.
  intros (Ho&Hp&Ht) He. eapply wp_mono; [by apply enqueueLocked_spec|].
  intros ok c' [_ Hc]. unfold queue_ok. destruct (is_media (oe_Type e)).
  - destruct Hc as (Ho'&Hp'&Hok). rewrite Ho', Hp'. destruct ok; simpl.
    + rewrite length_app. simpl. split; [|done].
      assert (length (cl_priority c) ≠ outgoingBufferSize) by (intros ?%Hok; done).
      split_and!; [done|lia|done].
    + split; [done|]. intros _. by apply Hok.
  - destruct Hc as [Hp' Hq]. rewrite Hp'.
    destruct Hq as [Hb Htyp _ _ _ _ Hrej _]. split; [|done]. split_and!; auto.
Qed.

(** The events that carry protocol state (membership, permissions, key
    material, replies) are never merged, dropped or reordered by the ordinary
    queue: after any enqueue the queued ones are those that were queued, in
    order, followed by the new event when it is one of them and was accepted. *)
Theorem enqueueLocked_critical_order e c :
  queue_ok c → is_media (oe_Type e) = false →
  wp (enqueueLocked e) (fun ok c' =>
    filter (fun x => critical x = true) (cl_outgoing c') =
      filter (fun x => critical x = true) (cl_outgoing c) ++
      (if critical e && ok then [e] else [])) c.
Proof.
  intros (_&_&Ht) Hm. eapply wp_mono; [by apply enqueueLocked_spec|].
  intros ok c' [_ Hc]. rewrite Hm in Hc. by destruct Hc as [_ []].
Qed.

(** C25: nothing queued is lost silently. After an enqueue every event queued
    before, and the new event when it was accepted, is still queued, or is a
    droppable alert, or is superseded by a queued event with its key, or is
    covered by a catch-up marker of its channel. *)
Theorem enqueueLocked_no_silent_loss e c :
  queue_ok c → is_media (oe_Type e) = false →
  wp (enqueueLocked e) (fun ok c' =>
    ∀ x, x ∈ cl_outgoing c ∨ (x = e ∧ ok = true) → represented (cl_outgoing c') x) c.
Proof.
  intros (_&_&Ht) Hm. eapply wp_mono; [by apply enqueueLocked_spec|].
  intros ok c' [_ Hc]. rewrite Hm in Hc. destruct Hc as [_ []].
  intros x [?|[-> ?]]; auto.
Qed.

(** ** The compaction loop over a rewritten array *)

(** The loop as it would run over a private copy of the queue. *)
Fixpoint compact_snapshot (channelID : Z) (snapshot : list OutgoingEvent) : M Client bool :=
  match snapshot with
  | [] => mret false
  | queued :: rest =>
      let candidate := eventMessageChannel queued in
      if (0 <? candidate)%Z then
        compacted ← compactChannel candidate;
        if negb compacted then compact_snapshot channelID rest
        else if (candidate =? channelID)%Z then mret true
        else
          len ← gets (fun c => length (cl_outgoing c));
          if len <? outgoingBufferSize then mret false
          else compact_snapshot channelID rest
      else compact_snapshot channelID rest
  end.

(** A compaction that frees no slot replaced exactly the delta it started from. *)
Lemma compact_queue_in_place s ch q kept i x :
  compact_queue s ch false q = (kept, true) → length kept = length q →
  q !! i = Some x → eventMessageChannel x = ch →
  kept = <[i := sync_marker s ch]> q.
Proof.
  intros Heq Hlen Hi Hx.
  destruct (split_first_delta ch q) as [Hn|(l&y&r&->&Hy&Hl)].
  { by rewrite compact_queue_skip in Heq. }
  rewrite compact_queue_first in Heq by done. injection Heq as <-.
  rewrite !length_app in Hlen. simpl in Hlen.
  assert (filter (fun z => eventMessageChannel z ≠ ch) r = r) as Hr.
  { apply filter_full_length. lia. }
  rewrite Hr. assert (i = length l) as ->.
  { apply lookup_app_Some in Hi as [Hi|[Hge Hi]].
    - rewrite Forall_lookup in Hl. by apply Hl in Hi.
    - destruct (i - length l) as [|j] eqn:Hj; [lia|]. simpl in Hi.
      rewrite <- Hr in Hi. apply list_elem_of_lookup_2, list_elem_of_filter in Hi.
      naive_solver. }
  by rewrite insert_app_r_alt, Nat.sub_diag by done.
Qed.

Lemma compactChannel_in_place ch i x c :
  (0 < ch)%Z → cl_outgoing c !! i = Some x → eventMessageChannel x = ch →
  wp (compactChannel ch) (fun b c' =>
    length (cl_outgoing c') ≤ length (cl_outgoing c) ∧
    (length (cl_outgoing c') = length (cl_outgoing c) →
       drop (S i) (cl_outgoing c') = drop (S i) (cl_outgoing c)) ∧
    (b = false → cl_outgoing c' = cl_outgoing c)) c.
Proof.
  intros Hch Hi Hx. unfold compactChannel. wp_step. wp_step.
  destruct (cl_messageSync c); simpl; [|by wp_step].
  set (s := default 0%Z (cl_subscriptions c !! ch)).
  destruct (s <=? 0)%Z; [by wp_step|].
  destruct (compact_queue s ch false (cl_outgoing c)) as [kept b] eqn:Heq.
  pose proof (compact_queue_bound s ch false (cl_outgoing c)) as Hb.
  rewrite Heq in Hb. simpl in Hb. destruct b; wp_steps; try done.
  - split_and!; [done| |done]. intros Hlen.
    rewrite (compact_queue_in_place _ _ _ _ _ _ Heq Hlen Hi Hx).
    by rewrite drop_insert_lt by lia.
  - destruct (split_first_delta ch (cl_outgoing c)) as [Hn|(l&y&r&Hq&Hy&Hl)].
    + rewrite compact_queue_skip in Heq by done. by injection Heq as <-.
    + by rewrite Hq, compact_queue_first in Heq.
Qed.

Lemma compact_loop_snapshot ch rest : ∀ i c,
  drop i (cl_outgoing c) = rest → length (cl_outgoing c) = outgoingBufferSize →
  compact_loop ch (seq i (length rest)) c = compact_snapshot ch rest c.
Proof.
  induction rest as [|x rest IH]; intros i c Hdrop Hlen; simpl; [done|].
  assert (cl_outgoing c !! i = Some x) as Hi.
  { by rewrite <- (Nat.add_0_r i), <- lookup_drop, Hdrop. }
  assert (drop (S i) (cl_outgoing c) = rest) as Hrest.
  { by rewrite <- (Nat.add_1_r i), <- drop_drop, Hdrop. }
  rewrite bind_gets, Hi. simpl.
  destruct (Z.ltb_spec 0 (eventMessageChannel x)) as [Hpos|_]; [|by apply IH].
  pose proof (compactChannel_in_place _ i x c Hpos Hi eq_refl) as Hwp.
  apply wp_run in Hwp as (b&c1&Hrun&Hle&Heq&Hfalse).
  rewrite !(bind_run _ _ _ _ _ Hrun). destruct b; simpl.
  2:{ apply IH; rewrite Hfalse; done. }
  destruct (_ =? _)%Z; [done|]. rewrite !bind_gets.
  destruct (Nat.ltb_spec (length (cl_outgoing c1)) outgoingBufferSize); [done|].
  apply IH; [rewrite Heq by lia; done|lia].
Qed.

(** The compaction loop of a full queue ranges over an array that
    [compactChannel] rewrites underneath it; it nevertheless behaves exactly as
    the same loop over a private copy of the queue. *)
Theorem compact_loop_alias_safe ch c :
  length (cl_outgoing c) = outgoingBufferSize →
  compact_loop ch (seq 0 outgoingBufferSize) c = compact_snapshot ch (cl_outgoing c) c.
Proof.
  intros Hlen. rewrite <- Hlen at 1.
  rewrite <- (compact_loop_snapshot ch (cl_outgoing c) 0 c); done.
Qed.

(** ** Concrete inputs *)

(** A client of server 7 subscribed to channel 40, with a queue that mixes a
    chat delta, a typing indicator and a membership event. *)
Definition sample_delta (id : Z) : OutgoingEvent :=
  new_event EventMessageDeleted (DMessageDeleted (mkMessageDeletedData 40 id)).
Definition sample_typing : OutgoingEvent :=
  new_event EventTyping (DTyping (mkTypingData 7 40 3 0)).
Definition sample_removed : OutgoingEvent :=
  new_event EventChannelDeleted (DChannelDeleted (mkChannelDeletedData 7 41)).
Definition sample_client : Client :=
  (NewClient "1a" 3 "key" [7%Z]) <| cl_subscriptions := {[40%Z := 7%Z]} |>
    <| cl_messageSync := true |>
    <| cl_outgoing := [sample_delta 1; sample_typing; sample_removed] |>.
Definition sample_full : Client :=
  sample_client <| cl_outgoing := replicate outgoingBufferSize (sample_delta 1) |>.

Lemma sample_full_ok : queue_ok sample_full.
Proof.
  split_and!; [by apply Nat.leb_le|by apply Nat.leb_le|].
  by apply Forall_replicate.
Qed.

(** A deleted message offered to a full queue of deltas of its channel. *)
Lemma enqueueLocked_bounded_witness :
  queue_ok sample_full ∧ event_typed (sample_delta 2) ∧
  wp (enqueueLocked (sample_delta 2)) (fun ok c' => queue_ok c' ∧
    (ok = false →
       length (if is_media (oe_Type (sample_delta 2)) then cl_priority c' else cl_outgoing c') =
         outgoingBufferSize)) sample_full.
Proof.
  split; [exact sample_full_ok|]. split; [done|].
  apply (enqueueLocked_bounded (sample_delta 2) sample_full); [exact sample_full_ok|done].
Defined.

Lemma enqueueLocked_critical_order_witness :
  critical sample_removed = true ∧
  wp (enqueueLocked sample_removed) (fun ok c' =>
    filter (fun x => critical x = true) (cl_outgoing c') =
      filter (fun x => critical x = true) (cl_outgoing sample_client) ++
      (if critical sample_removed && ok then [sample_removed] else [])) sample_client.
Proof.
  split; [reflexivity|]. apply (enqueueLocked_critical_order sample_removed sample_client).
  - split_and!; [by apply Nat.leb_le|by apply Nat.leb_le|]. by repeat constructor.
  - reflexivity.
Defined.

Lemma enqueueLocked_no_silent_loss_witness :
  wp (enqueueLocked (sample_delta 2)) (fun ok c' =>
    ∀ x, x ∈ cl_outgoing sample_full ∨ (x = sample_delta 2 ∧ ok = true) →
      represented (cl_outgoing c') x) sample_full.
Proof.
  apply (enqueueLocked_no_silent_loss (sample_delta 2) sample_full);
    [exact sample_full_ok|reflexivity].
Defined.

Lemma compact_loop_alias_safe_witness :
  compact_loop 40 (seq 0 outgoingBufferSize) sample_full =
    compact_snapshot 40 (cl_outgoing sample_full) sample_full.
Proof. apply (compact_loop_alias_safe 40 sample_full). reflexivity. Defined.
