(* ===== verification/ClientAccess.v ===== *)
(** * The client as a state machine: access safety and fairness

    The operations of a client as a step relation, the invariant that every
    queued event is visible under the installed channel policy, and the
    fairness of the two-lane [PopOutgoing]. *)

From S2P Require Import Prelude Events Client ClientFacts.

#[local] Arguments filterChannelEvent : simpl never.

(** ** Authorised events *)

(** [e] passes the client's channel filter unchanged. *)
Definition authorised (c : Client) (e : OutgoingEvent) : Prop :=
  filterChannelEvent c e = (e, true).

Definition client_ok (c : Client) : Prop :=
  queue_ok c ∧ Forall (authorised c) (cl_outgoing c) ∧ Forall (authorised c) (cl_priority c).

(** The channels a payload is about, read off its own fields: one rule for
    every payload type of [Events] that carries a channel identifier, none of
    them through the switch of [filterChannelEvent] or the dynamic
    [EventChannelID]. A snapshot is about the channels of its entries. *)
Inductive reveals : EventData → Z → Prop :=
  | rv_reactions d : reveals (DReactions d) (rx_ChannelID d)
  | rv_notification d : reveals (DNotification d) (ne_ChannelID d)
  | rv_notification_settings d : reveals (DNotificationSettings d) (ns_ChannelID d)
  | rv_attachments d : reveals (DAttachmentsChanged d) (ac_ChannelID d)
  | rv_activity d : reveals (DChannelActivity d) (ca_ChannelID d)
  | rv_typing d : reveals (DTyping d) (ty_ChannelID d)
  | rv_relay d : reveals (DE2EERelay d) (er_ChannelID d)
  | rv_channel d : reveals (DChannel d) (cd_ID d)
  | rv_channel_deleted d : reveals (DChannelDeleted d) (cx_ChannelID d)
  | rv_subscription d : reveals (DChannelSubscription d) (cs_ChannelID d)
  | rv_read d : reveals (DChannelRead d) (cr_ChannelID d)
  | rv_channel_reads d : reveals (DChannelReadSnapshot d) (crs_ChannelID d)
  | rv_message d : reveals (DMessageCreated d) (mc_ChannelID d)
  | rv_message_deleted d : reveals (DMessageDeleted d) (md_ChannelID d)
  | rv_pinned d : reveals (DMessagePinned d) (mp_ChannelID d)
  | rv_unpinned d : reveals (DMessageUnpinned d) (mu_ChannelID d)
  | rv_participant d : reveals (DVoiceParticipant d) (vp_ChannelID d)
  | rv_left d : reveals (DVoiceLeft d) (vl_ChannelID d)
  | rv_joined d : reveals (DVoiceJoined d) (vp_ChannelID (vj_Participant d))
  | rv_stream d : reveals (DStream d) (st_ChannelID d)
  | rv_stream_stopped d : reveals (DStreamStopped d) (ss_ChannelID d)
  | rv_watching d : reveals (DStreamWatching d) (st_ChannelID (sw_Stream d))
  | rv_recording d : reveals (DRecording d) (rc_ChannelID d)
  | rv_reads rs r : r ∈ rs → reveals (DReadSnapshot rs) (cr_ChannelID r)
  | rv_voice_snapshot ps p : p ∈ ps → reveals (DVoiceSnapshot ps) (vp_ChannelID p)
  | rv_stream_snapshot ss s : s ∈ ss → reveals (DStreamSnapshot ss) (st_ChannelID s).

Lemma canAccessChannel_policy c c' ch :
  cl_channelAccess c = cl_channelAccess c' → canAccessChannel c ch = canAccessChannel c' ch.
Proof. unfold canAccessChannel. by intros ->. Qed.

Lemma filterChannelEvent_policy c c' e :
  cl_channelAccess c = cl_channelAccess c' → filterChannelEvent c e = filterChannelEvent c' e.
Proof.
  intros H. unfold filterChannelEvent, filter_snapshot, canAccessChannel. by rewrite H.
Qed.

Lemma authorised_policy c c' e :
  cl_channelAccess c = cl_channelAccess c' → authorised c e → authorised c' e.
Proof. unfold authorised. intros H. by rewrite (filterChannelEvent_policy _ _ _ H). Qed.

Lemma event_channel_filter c e :
  event_channel (oe_Data (filter_snapshot c e)) = event_channel (oe_Data e).
Proof. unfold filter_snapshot. by destruct (oe_Data e) eqn:Hd; simpl; rewrite ?Hd. Qed.

Lemma filter_snapshot_idemp c e :
  filter_snapshot c (filter_snapshot c e) = filter_snapshot c e.
Proof.
  unfold filter_snapshot at 2 3. destruct (oe_Data e) eqn:Hd;
    unfold filter_snapshot; simpl; rewrite ?Hd; try done;
    by rewrite list_filter_filter_l.
Qed.

Lemma filtered_authorised c e e' :
  filterChannelEvent c e = (e', true) → authorised c e'.
Proof.
  unfold authorised, filterChannelEvent. intros [= <- Hok].
  by rewrite filter_snapshot_idemp, event_channel_filter, Hok.
Qed.

(** The entries of a snapshot that has been filtered. *)
Lemma authorised_snapshot c e :
  authorised c e →
  match oe_Data e with
  | DReadSnapshot rs => ∀ r, r ∈ rs → canAccessChannel c (cr_ChannelID r) = true
  | DVoiceSnapshot ps => ∀ p, p ∈ ps → canAccessChannel c (vp_ChannelID p) = true
  | DStreamSnapshot ss => ∀ s, s ∈ ss → canAccessChannel c (st_ChannelID s) = true
  | _ => True
  end.
Proof.
  intros [= Hs _]. apply (f_equal oe_Data) in Hs. revert Hs. unfold filter_snapshot.
  destruct (oe_Data e) eqn:Hd; simpl; rewrite ?Hd; try done; intros [= Hs] x Hx;
    rewrite <- Hs in Hx; by apply list_elem_of_filter in Hx as [? _].
Qed.

Lemma authorised_reveals c e ch :
  authorised c e → reveals (oe_Data e) ch → ch ≠ 0%Z → canAccessChannel c ch = true.
Proof.
  intros Ha Hr Hne. pose proof (authorised_snapshot c e Ha) as Hs. injection Ha as _ Hok.
  destruct e as [enc id ty d]. cbn [oe_Data] in *.
  destruct Hr; auto; unfold event_channel in Hok; simpl in Hok;
    by rewrite (proj2 (Z.eqb_neq _ _) Hne) in Hok.
Qed.

Lemma delta_event_channel e :
  (0 < eventMessageChannel e)%Z → event_channel (oe_Data e) = eventMessageChannel e.
Proof.
  unfold eventMessageChannel. repeat case_match; try done; intros; try lia.
  all: unfold event_channel; simpl; done.
Qed.

Lemma authorised_marker c s y :
  (0 < eventMessageChannel y)%Z → authorised c y →
  authorised c (sync_marker s (eventMessageChannel y)).
Proof.
  intros Hpos [= _ Hok]. unfold authorised, filterChannelEvent. f_equal. simpl.
  by rewrite delta_event_channel in Hok.
Qed.

(** ** The legacy stream filter *)

Lemma primary_streams_sub primary ss x :
  x ∈ (primary_streams primary ss).2 → x ∈ ss.
Proof.
  revert primary. induction ss as [|s ss IH]; intros primary; simpl; [done|].
  case_match; [intros ?%IH; set_solver|].
  specialize (IH (<[st_ChannelID s := st_PublisherConnectionID s]> primary)).
  destruct (primary_streams _ ss). set_solver.
Qed.

Lemma filterLegacyStreamEvent_spec e c :
  authorised c e → event_typed e →
  wp (filterLegacyStreamEvent e) (fun r c' =>
    authorised c r.1 ∧ event_typed r.1 ∧
    c' = c <| cl_legacyStreams := cl_legacyStreams c' |>) c.
Proof.
  intros Ha Ht. unfold filterLegacyStreamEvent. wp_step. wp_step.
  destruct (SupportsMultipleStreams c); [wp_step; by destruct c|].
  destruct (oe_Data e) eqn:Hd; try (wp_steps; by destruct c).
  destruct (primary_streams ∅ streams) as [primary kept] eqn:Hp.
  wp_step. wp_step. wp_step. simpl. split_and!; [|intros Hty; destruct (Ht Hty); congruence|by destruct c].
  unfold authorised, filterChannelEvent, filter_snapshot. simpl. do 2 f_equal.
  rewrite filter_all; [done|]. intros x Hx. pose proof (authorised_snapshot c e Ha) as Hs. rewrite Hd in Hs.
  apply Hs, (primary_streams_sub ∅). by rewrite Hp.
Qed.

(** ** [enqueue] and the invariant *)

Lemma queue_step_authorised c e q ok q' :
  queue_step e q ok q' → Forall (authorised c) q → authorised c e → Forall (authorised c) q'.
Proof.
  rewrite !Forall_forall. intros Hs Hq He x Hx.
  destruct (qs_source _ _ _ _ Hs x Hx) as [?|[->|(s&ch&y&->&Hy&<-&Hpos)]]; auto.
  apply authorised_marker; auto.
Qed.

Lemma client_ok_frame c c' :
  cl_channelAccess c' = cl_channelAccess c → cl_outgoing c' = cl_outgoing c →
  cl_priority c' = cl_priority c → client_ok c → client_ok c'.
Proof.
  unfold client_ok, queue_ok. intros Ha -> -> (?&Ho&Hp). split; [done|].
  split; (eapply Forall_impl; [done|]); intros x; by apply authorised_policy.
Qed.

Lemma enqueueLocked_client_ok e c :
  client_ok c → event_typed e → authorised c e →
  wp (enqueueLocked e) (fun ok c' => client_ok c' ∧ same_frame c c' ∧
    (cl_outgoing c ≠ [] → cl_outgoing c' ≠ [])) c.
Proof.
  intros ((Ho&Hp&Ht)&Hao&Hap) Het Hea.
  eapply wp_mono; [by apply enqueueLocked_spec|]. intros ok c' [Hf Hc].
  assert (cl_channelAccess c' = cl_channelAccess c) as Hacc by (by rewrite Hf).
  assert (∀ q, Forall (authorised c) q → Forall (authorised c') q) as Hmove.
  { intros q Hq. eapply Forall_impl; [done|]. intros x. by apply authorised_policy. }
  split; [|split; [done|]]; destruct (is_media (oe_Type e)).
  - destruct Hc as (Heq&Hp'&Hok). unfold client_ok, queue_ok. rewrite Heq, Hp'.
    destruct ok; [|split_and!; auto].
    assert (length (cl_priority c) ≠ outgoingBufferSize) by (intros ?%Hok; done).
    rewrite length_app. split_and!; simpl; try done; [lia|auto|].
    apply Forall_app. split; [auto|]. apply Hmove. by constructor.
  - destruct Hc as [Hp' Hq]. unfold client_ok, queue_ok. rewrite Hp'. split_and!; auto.
    + by apply (qs_bound _ _ _ _ Hq).
    + by apply (qs_typed _ _ _ _ Hq).
    + eapply Hmove, queue_step_authorised; eauto.
  - by destruct Hc as [-> _].
  - by destruct Hc as [_ [_ _ _ _ _ _ _ ?]].
Qed.

(** What [enqueue] leaves unchanged. *)
Definition enqueue_frame (c c' : Client) : Prop :=
  cl_channelAccess c' = cl_channelAccess c ∧ cl_connectionID c' = cl_connectionID c ∧
  cl_userID c' = cl_userID c ∧ cl_sessionKey c' = cl_sessionKey c ∧
  cl_priorityBurst c' = cl_priorityBurst c ∧ cl_messageSync c' = cl_messageSync c ∧
  cl_multipleStreams c' = cl_multipleStreams c ∧ cl_done c' = cl_done c ∧
  cl_closeReason c' = cl_closeReason c ∧ cl_subscriptions c' = cl_subscriptions c ∧
  cl_servers c' = cl_servers c.

Lemma filtered_typed c e e' b :
  filterChannelEvent c e = (e', b) → event_typed e → event_typed e'.
Proof.
  intros [= <- _] Ht. unfold event_typed, filter_snapshot in *.
  destruct (oe_Data e) eqn:Hd; simpl; try done; rewrite ?Hd; auto;
    intros Hty; destruct (Ht Hty); congruence.
Qed.

Lemma enqueue_client_ok e c :
  client_ok c → event_typed e →
  wp (enqueue e) (fun ok c' => client_ok c' ∧ enqueue_frame c c' ∧
    (cl_outgoing c ≠ [] → cl_outgoing c' ≠ []) ∧ (cl_done c = true → ok = false)) c.
Proof.
  intros Hok Het. unfold enqueue. wp_step. wp_step.
  destruct (cl_done c) eqn:Hdone; [by wp_step|].
  destruct (filterChannelEvent c e) as [e1 allowed] eqn:Hf.
  wp_step. destruct allowed; [|by wp_steps].
  eapply wp_mono.
  { apply filterLegacyStreamEvent_spec; [by eapply filtered_authorised|by eapply filtered_typed]. }
  intros [e2 allowed] c1 (Ha&Ht&Hc1). simpl in Ha, Ht.
  assert (client_ok c1) as Hok1 by (rewrite Hc1; by apply (client_ok_frame c)).
  destruct allowed; simpl.
  2:{ wp_step. split; [done|]. rewrite Hc1. by destruct c. }
  wp_step. eapply wp_mono.
  { apply enqueueLocked_client_ok; [done|done|]. rewrite Hc1. by apply (authorised_policy c). }
  intros ok c2 (Hok2&Hfr&Hne). rewrite Hc1 in Hfr, Hne. simpl in Hne.
  assert (enqueue_frame c c2) as Hef by (rewrite Hfr; by destruct c).
  destruct ok; wp_steps; (split; [by apply (client_ok_frame c2)|]); (split; [|done]); exact Hef.
Qed.

(** ** Reachable clients *)

Inductive client_step (c : Client) : Client → Prop :=
  | step_enqueue e ok c' : event_typed e → enqueue e c = Ok (ok, c') → client_step c c'
  | step_pop r c' : PopOutgoing c = Ok (r, c') → client_step c c'
  | step_access ids : client_step c (replaceChannelAccess ids c)
  | step_add_subscription s ch : client_step c (addSubscription s ch c)
  | step_remove_subscription ch : client_step c (removeSubscription ch c)
  | step_add_server s : client_step c (addServer s c).2
  | step_remove_server s : client_step c (removeServer s c).2
  | step_message_sync : client_step c (EnableMessageSync c)
  | step_multiple_streams : client_step c (EnableMultipleStreams c)
  | step_close reason : client_step c (CloseWithReason reason c).

Lemma filter_queue_spec c q :
  Forall (authorised c) (filter_queue c q) ∧ length (filter_queue c q) ≤ length q ∧
  (Forall event_typed q → Forall event_typed (filter_queue c q)).
Proof.
  induction q as [|e q (Ha&Hl&Ht)]; [done|].
  assert (filter_queue c (e :: q) =
    if (filterChannelEvent c e).2 then (filterChannelEvent c e).1 :: filter_queue c q
    else filter_queue c q) as ->.
  { unfold filter_queue. change (omap ?f (e :: q)) with
      (match f e with Some y => y :: omap f q | None => omap f q end). cbv beta.
    by destruct (filterChannelEvent c e) as [? [|]]. }
  destruct (filterChannelEvent c e) as [e' [|]] eqn:Hf; simpl.
  - split_and!; [|lia|].
    + constructor; [by eapply filtered_authorised|done].
    + rewrite !Forall_cons. intros [??]. split; [by eapply filtered_typed|auto].
  - split_and!; [done|lia|]. rewrite Forall_cons. naive_solver.
Qed.

Lemma PopOutgoing_spec c :
  wp PopOutgoing (fun r c' =>
    (cl_outgoing c' = cl_outgoing c ∧ cl_priority c' = tail (cl_priority c) ∧
     cl_priorityBurst c' = cl_priorityBurst c + 1 ∧ r = head (cl_priority c) ∧
     (cl_priorityBurst c < 8 ∨ cl_outgoing c = []) ∧ r ≠ None ∨
     cl_priority c' = cl_priority c ∧ cl_outgoing c' = tail (cl_outgoing c) ∧
     cl_priorityBurst c' = 0 ∧ r = head (cl_outgoing c))%Z ∧
    cl_channelAccess c' = cl_channelAccess c) c.
Proof.
  unfold PopOutgoing. wp_step. wp_step.
  destruct (cl_priority c) as [|e p] eqn:Hp; simpl.
  - wp_step. wp_step. destruct (cl_outgoing c) as [|e q] eqn:Hq.
    + wp_step. split; [|done]. right. by simpl.
    + wp_steps; (split; [|done]); by right.
  - destruct ((cl_priorityBurst c <? 8)%Z || (length (cl_outgoing c) =? 0)) eqn:Hb; simpl.
    + wp_steps; (split; [|done]); left; split_and!; try done; simpl; try lia.
      all: apply orb_true_iff in Hb as [Hb%Z.ltb_lt|Hb%Nat.eqb_eq];
        [by left|right; by apply nil_length_inv].
    + wp_step. wp_step. destruct (cl_outgoing c) as [|e' q] eqn:Hq.
      * wp_step. split; [|done]. right. by simpl.
      * wp_steps; (split; [|done]); by right.
Qed.

Lemma client_ok_pop c :
  client_ok c → wp PopOutgoing (fun _ c' => client_ok c') c.
Proof.
  intros ((Ho&Hp&Ht)&Hao&Hap). eapply wp_mono; [apply PopOutgoing_spec|].
  intros r c' [Hcase Hacc].
  assert (∀ q, Forall (authorised c) q → Forall (authorised c') q) as Hmove.
  { intros q Hq. eapply Forall_impl; [done|]. intros x. by apply authorised_policy. }
  unfold client_ok, queue_ok.
  destruct Hcase as [(->&->&_)|(->&->&_)].
  - destruct (cl_priority c) as [|e p]; simpl in *; [split_and!; auto|].
    apply Forall_cons in Hap as [_ Hap]. split_and!; auto; lia.
  - destruct (cl_outgoing c) as [|e q]; simpl in *; [split_and!; auto|].
    apply Forall_cons in Hao as [_ Hao]. apply Forall_cons in Ht as [_ Ht].
    split_and!; auto; lia.
Qed.

Lemma client_step_ok c c' : client_step c c' → client_ok c → client_ok c'.
Proof.
  intros Hstep Hok. destruct Hstep as [e ok c' Ht Hrun|r c' Hrun|ids| | |s|s| | |reason].
  - pose proof (enqueue_client_ok e c Hok Ht) as Hwp. unfold wp in Hwp.
    rewrite Hrun in Hwp. apply Hwp.
  - pose proof (client_ok_pop c Hok) as Hwp. unfold wp in Hwp. by rewrite Hrun in Hwp.
  - destruct Hok as ((Ho&Hp&Ht)&_). unfold client_ok, queue_ok, replaceChannelAccess. simpl.
    set (c1 := c <| cl_channelAccess := ids |>).
    destruct (filter_queue_spec c1 (cl_outgoing c)) as (Ha1&Hl1&Ht1).
    destruct (filter_queue_spec c1 (cl_priority c)) as (Ha2&Hl2&_).
    split_and!; [lia|lia|auto| |]; (eapply Forall_impl; [done|]);
      intros x; by apply authorised_policy.
  - by apply (client_ok_frame c).
  - by apply (client_ok_frame c).
  - unfold addServer. case_match; [done|]. by apply (client_ok_frame c).
  - unfold removeServer. case_match; [|done]. by apply (client_ok_frame c).
  - by apply (client_ok_frame c).
  - by apply (client_ok_frame c).
  - unfold CloseWithReason. case_match; [done|]. by apply (client_ok_frame c).
Qed.

Lemma NewClient_ok conn uid key servers : client_ok (NewClient conn uid key servers).
Proof. unfold client_ok, queue_ok. simpl. split_and!; auto; lia. Qed.

(** C27: whatever a client goes through - enqueues, pops, policy replacements,
    subscriptions, membership changes - both its queues stay within their
    buffer, and whatever the type of a queued event, the channel its payload
    is about ([reveals], by the fields of the payload types; the channel of
    every entry in case of a snapshot) is visible under the currently
    installed policy. The identifier 0 stands for no channel: the payloads
    that serve direct conversations as well have it there. *)
Theorem client_queue_access_safe conn uid key servers c :
  rtc client_step (NewClient conn uid key servers) c →
  queue_ok c ∧
  ∀ e ch, e ∈ cl_outgoing c ++ cl_priority c → reveals (oe_Data e) ch → ch ≠ 0%Z →
    canAccessChannel c ch = true.
Proof.
  intros Hreach. assert (client_ok c) as (Hq&Ho&Hp).
  { revert Hreach. generalize (NewClient_ok conn uid key servers).
    intros Hok Hreach. induction Hreach; eauto using client_step_ok. }
  split; [done|]. intros e ch He Hr Hne.
  assert (Forall (authorised c) (cl_outgoing c ++ cl_priority c)) as Hall
    by (by apply Forall_app).
  rewrite Forall_forall in Hall. eapply authorised_reveals; eauto.
Qed.

(** ** Fairness of the two lanes *)

(** [starved n c c']: from [c] to [c'], [n] pops returned an event and none of
    them touched the ordinary queue; other senders may enqueue in between. *)
Inductive starved : nat → Client → Client → Prop :=
  | starved_refl c : starved 0 c c
  | starved_pop n e c1 c2 c3 :
      PopOutgoing c1 = Ok (Some e, c2) → cl_outgoing c2 = cl_outgoing c1 →
      starved n c2 c3 → starved (S n) c1 c3
  | starved_enqueue n e ok c1 c2 c3 :
      event_typed e → enqueue e c1 = Ok (ok, c2) → starved n c2 c3 → starved n c1 c3.

Lemma starved_bound n c c' :
  starved n c c' → client_ok c → cl_outgoing c ≠ [] → (0 <= cl_priorityBurst c)%Z →
  (Z.of_nat n <= Z.max 0 (8 - cl_priorityBurst c))%Z.
Proof.
  induction 1 as [c|n e c1 c2 c3 Hpop Hsame _ IH|n e ok c1 c2 c3 Ht Hrun _ IH];
    intros Hok Hne Hb.
  - lia.
  - pose proof (PopOutgoing_spec c1) as Hwp. pose proof (client_ok_pop c1 Hok) as Hok2.
    unfold wp in Hwp, Hok2. rewrite Hpop in Hwp, Hok2.
    destruct Hwp as [[(_&_&Hb2&_&[Hlt|Hnil]&_)|(_&Ho&_)] _]; [|done|].
    + rewrite Hsame in IH. specialize (IH Hok2 Hne ltac:(lia)). lia.
    + rewrite Ho in Hsame. exfalso. destruct (cl_outgoing c1) as [|x q]; [done|].
      apply (f_equal length) in Hsame. simpl in Hsame. lia.
  - pose proof (enqueue_client_ok e c1 Hok Ht) as Hwp. unfold wp in Hwp.
    rewrite Hrun in Hwp. destruct Hwp as (Hok2&Hfr&Hne2&_).
    destruct Hfr as (_&_&_&_&Hb2&_). rewrite <- Hb2. apply IH; [done|auto|lia].
Qed.

(** Media events cannot starve the ordinary queue. While ordinary events
    wait, at most eight pops in a row are served from the media lane, however
    many media events other senders keep queueing meanwhile. *)
Theorem PopOutgoing_fair n c c' :
  client_ok c → cl_outgoing c ≠ [] → (0 <= cl_priorityBurst c)%Z →
  starved n c c' → n ≤ 8.
Proof. intros Hok Hne Hb Hs. pose proof (starved_bound n c c' Hs Hok Hne Hb). lia. Qed.

(** ** Connection identifiers *)

(** The inverse of [FormatUint(_, 36)]. *)
Definition base36_value (c : Ascii.ascii) : N :=
  let n := Ascii.N_of_ascii c in if (n <? 87)%N then n - 48 else n - 87.

Fixpoint parse36 (acc : N) (s : string) : N :=
  match s with
  | EmptyString => acc
  | String c s' => parse36 (acc * 36 + base36_value c) s'
  end.

Lemma base36_value_digit d : (d < 36)%N → base36_value (base36_digit d) = d.
Proof.
  intros Hd. assert (∃ n, n < 36 ∧ d = N.of_nat n) as (n&Hn&->).
  { exists (N.to_nat d). lia. }
  do 36 (destruct n as [|n]; [reflexivity|]). lia.
Qed.

Lemma base36_digits_parse fuel : ∀ n acc,
  (n < 36 ^ N.of_nat fuel)%N → parse36 0 (base36_digits fuel n acc) = parse36 n acc.
Proof.
  induction fuel as [|fuel IH]; intros n acc Hn.
  { simpl in *. by replace n with 0%N by lia. }
  rewrite Nat2N.inj_succ, N.pow_succ_r' in Hn.
  pose proof (N.mod_lt n 36) as Hmod. pose proof (N.div_mod n 36) as Hdm.
  simpl. destruct (N.ltb_spec n 36) as [Hlt|Hge]; simpl.
  - rewrite base36_value_digit by lia. by rewrite N.mod_small.
  - rewrite IH; [|apply N.Div0.div_lt_upper_bound; lia].
    simpl. rewrite base36_value_digit by lia. f_equal. lia.
Qed.

Lemma newConnectionID_inj m n :
  (m < 2 ^ 64)%N → (n < 2 ^ 64)%N → newConnectionID m = newConnectionID n → m = n.
Proof.
  assert (2 ^ 64 < 36 ^ N.of_nat 13)%N as Hfuel by reflexivity.
  intros Hm Hn Heq. apply (f_equal (parse36 0)) in Heq. unfold newConnectionID in Heq.
  rewrite !base36_digits_parse in Heq by lia. exact Heq.
Qed.

Lemma newConnectionID_nonempty n : newConnectionID n ≠ "".
Proof.
  assert (∀ fuel m acc, acc ≠ "" ∨ 0 < fuel → base36_digits fuel m acc ≠ "") as Hne; [|apply Hne; lia].
  induction fuel as [|fuel IH]; intros m acc Ha; simpl; [naive_solver lia|].
  case_match; [done|]. apply IH. by left.
Qed.

(** Connection identifiers are unique: the base-36 text of the connection
    counter can be read back, so no two counter values of a [uint64] share an
    identifier. *)
Theorem newConnectionID_unique m n :
  (m < 2 ^ 64)%N → (n < 2 ^ 64)%N → m ≠ n → newConnectionID m ≠ newConnectionID n.
Proof. intros Hm Hn Hne Heq. by apply Hne, newConnectionID_inj. Qed.

(** ** Concrete inputs *)

(** A policy that shows channel 40 only is installed after events of the
    channels 40 and 41 were queued. *)
Definition sample_start : Client := NewClient "1a" 3 "key" [7%Z].
Definition sample_hidden : OutgoingEvent :=
  new_event EventMessageDeleted (DMessageDeleted (mkMessageDeletedData 41 9)).
Definition sample_run : Client :=
  replaceChannelAccess (Some {[40%Z]})
    (sample_start <| cl_outgoing := [sample_delta 1; sample_hidden] |>
       <| cl_outgoingReady := true |> <| cl_queueHighWater := 2 |>).

Lemma client_queue_access_safe_witness :
  cl_outgoing sample_run = [sample_delta 1] ∧ queue_ok sample_run ∧
  ∀ e ch, e ∈ cl_outgoing sample_run ++ cl_priority sample_run → reveals (oe_Data e) ch → ch ≠ 0%Z →
    canAccessChannel sample_run ch = true.
Proof.
  split; [vm_compute; reflexivity|].
  apply (client_queue_access_safe "1a" 3 "key" [7%Z] sample_run).
  eapply rtc_l; [apply (step_enqueue _ (sample_delta 1) true); [done|vm_compute; reflexivity]|].
  eapply rtc_l; [apply (step_enqueue _ sample_hidden true); [done|vm_compute; reflexivity]|].
  eapply rtc_once. apply (step_access _ (Some {[40%Z]})).
Defined.

Definition sample_media : OutgoingEvent := new_event EventVoiceWebRTCClosed (DVoiceClosed "bye").

Lemma PopOutgoing_fair_witness :
  starved 1 (sample_start <| cl_outgoing := [sample_delta 1] |> <| cl_priority := [sample_media] |>)
    (sample_start <| cl_outgoing := [sample_delta 1] |> <| cl_outgoingReady := true |>
       <| cl_priorityBurst := 1%Z |>) ∧ 1 ≤ 8.
Proof.
  assert (starved 1
    (sample_start <| cl_outgoing := [sample_delta 1] |> <| cl_priority := [sample_media] |>)
    (sample_start <| cl_outgoing := [sample_delta 1] |> <| cl_outgoingReady := true |>
       <| cl_priorityBurst := 1%Z |>)) as Hs.
  { eapply starved_pop; [vm_compute; reflexivity|reflexivity|constructor]. }
  split; [exact Hs|]. eapply PopOutgoing_fair; [| |  |exact Hs].
  - split_and!; simpl; [split_and!; simpl; [by apply Nat.leb_le|by apply Nat.leb_le|by repeat constructor]| |];
      by repeat constructor.
  - done.
  - simpl. lia.
Defined.

Lemma newConnectionID_unique_witness : newConnectionID 35 ≠ newConnectionID 36.
Proof. apply newConnectionID_unique; [reflexivity|reflexivity|lia]. Defined.
