(* ===== verification/VoiceState.v ===== *)
(** * Voice presence: who is in which voice channel

    Model of [voice_state.go]. A [*Client] is a reference [ClientRef]; the
    identity the methods read from it ([UserID], [ConnectionID]) is immutable
    and passed along. Each method holds the state's mutex for its whole body
    and is one atomic transformer. *)

From S2P Require Import Prelude Events.

Definition ClientRef := positive.

Record ClientIdent := mkClientIdent { id_UserID : Z; id_ConnectionID : string }.

Record voiceState := mkVoiceState {
  vs_nextGeneration : Z;
  vs_byChannel : gmap Z (gmap ClientRef VoiceParticipantData);
  vs_byClient : gmap ClientRef VoiceParticipantData;
  vs_byUser : gmap Z ClientRef
}.
#[export] Instance voiceState_fields : Fields voiceState := fun r =>
  mkVoiceState (vs_nextGeneration r) (vs_byChannel r) (vs_byClient r) (vs_byUser r).

Definition newVoiceState : voiceState := mkVoiceState 0 ∅ ∅ ∅.

Record voiceJoinResult := mkVoiceJoinResult {
  jr_participant : VoiceParticipantData;
  jr_participants : list VoiceParticipantData;
  jr_previous : option VoiceParticipantData;
  jr_replaced : option ClientRef;
  jr_joined : bool;
  jr_updated : bool
}.

(** ** Ordering of snapshots *)

Definition lex (c1 c2 : comparison) : comparison :=
  match c1 with Eq => c2 | _ => c1 end.

Definition compare_participants (a b : VoiceParticipantData) : comparison :=
  lex (Z.compare (vp_ServerID a) (vp_ServerID b))
    (lex (Z.compare (vp_ChannelID a) (vp_ChannelID b))
      (lex (Z.compare (vp_UserID a) (vp_UserID b))
        (String.compare (vp_ConnectionID a) (vp_ConnectionID b)))).

Definition participant_le (a b : VoiceParticipantData) : Prop :=
  compare_participants a b ≠ Gt.
#[export] Instance participant_le_dec : RelDecision participant_le.
Proof. intros a b. unfold participant_le. solve_decision. Defined.

Definition sortVoiceParticipants (ps : list VoiceParticipantData) : list VoiceParticipantData :=
  merge_sort participant_le ps.

Section model.
Context `{MapOrder}.

Definition participantMapSnapshot (room : gmap ClientRef VoiceParticipantData)
    : list VoiceParticipantData :=
  sortVoiceParticipants (range_values room).

(** [s.byChannel[channelID]]; reading a missing key yields the nil map. *)
Definition voice_room (channelID : Z) (s : voiceState) : gmap ClientRef VoiceParticipantData :=
  default ∅ (vs_byChannel s !! channelID).

(** The assignment [s.byChannel[channelID][client] = participant]; on a nil
    inner map the source panics. *)
Definition set_in_room (channelID : Z) (client : ClientRef) (p : VoiceParticipantData)
    : M voiceState unit :=
  s ← get_state;
  match vs_byChannel s !! channelID with
  | None => panic
  | Some room =>
      modify (fun s => s <| vs_byChannel ::= <[channelID := <[client := p]> room]> |>)
  end.

Definition removeLocked (client : ClientRef) (participant : VoiceParticipantData)
    (s : voiceState) : voiceState :=
  let s := s <| vs_byClient ::= delete client |> in
  let s := if bool_decide (vs_byUser s !! vp_UserID participant = Some client)
           then s <| vs_byUser ::= delete (vp_UserID participant) |> else s in
  let room := delete client (voice_room (vp_ChannelID participant) s) in
  if decide (room = ∅)
  then s <| vs_byChannel ::= delete (vp_ChannelID participant) |>
  else s <| vs_byChannel ::= <[vp_ChannelID participant := room]> |>.

Definition voice_join (client : ClientRef) (ident : ClientIdent) (serverID channelID : Z)
    (selfMute selfDeaf : bool) (e2eeDeviceID : string) : M voiceState voiceJoinResult :=
  modify (fun s => s <| vs_nextGeneration ::= u64_succ |>) ;;
  s ← get_state;
  let participant := {|
    vp_generation := vs_nextGeneration s;
    vp_ConnectionID := id_ConnectionID ident;
    vp_UserID := id_UserID ident;
    vp_ServerID := serverID;
    vp_ChannelID := channelID;
    vp_SelfMute := selfMute;
    vp_SelfDeaf := selfDeaf;
    vp_SelfVideo := false;
    vp_E2EEDeviceID := e2eeDeviceID |} in
  let previous := vs_byClient s !! client in
  let same_place := match previous with
    | Some p => (vp_ServerID p =? serverID)%Z && (vp_ChannelID p =? channelID)%Z &&
                String.eqb (vp_E2EEDeviceID p) e2eeDeviceID
    | None => false
    end in
  if same_place then
    let p := default participant previous in
    let updated := negb (Bool.eqb (vp_SelfMute p) selfMute) ||
                   negb (Bool.eqb (vp_SelfDeaf p) selfDeaf) in
    let participant := participant <| vp_SelfVideo := vp_SelfVideo p |> in
    modify (fun s => s <| vs_byClient ::= <[client := participant]> |>) ;;
    set_in_room channelID client participant ;;
    participants ← gets (fun s => participantMapSnapshot (voice_room channelID s));
    mret (mkVoiceJoinResult participant participants None None false updated)
  else
    (match previous with
     | Some p => modify (removeLocked client p)
     | None => mret tt
     end) ;;
    s ← get_state;
    '(prev, replaced) ←
      (match vs_byUser s !! id_UserID ident with
       | Some previousClient =>
           if bool_decide (previousClient ≠ client) then
             match vs_byClient s !! previousClient with
             | Some p =>
                 modify (removeLocked previousClient p) ;;
                 mret (Some p, Some previousClient)
             | None => mret (previous, None)
             end
           else mret (previous, None)
       | None => mret (previous, None)
       end);
    s ← get_state;
    let room := <[client := participant]> (voice_room channelID s) in
    modify (fun s => s <| vs_byChannel ::= <[channelID := room]> |>
                       <| vs_byClient ::= <[client := participant]> |>
                       <| vs_byUser ::= <[id_UserID ident := client]> |>) ;;
    mret (mkVoiceJoinResult participant (participantMapSnapshot room) prev replaced true false).

(** [update(client, selfMute, selfDeaf, selfVideo...)]: [None] is the call
    without the variadic argument. *)
Definition voice_update (client : ClientRef) (selfMute selfDeaf : bool)
    (selfVideo : option bool) : M voiceState (option (VoiceParticipantData * bool)) :=
  s ← get_state;
  match vs_byClient s !! client with
  | None => mret None
  | Some p =>
      let changed := negb (Bool.eqb (vp_SelfMute p) selfMute) ||
                     negb (Bool.eqb (vp_SelfDeaf p) selfDeaf) in
      let p' := p <| vp_SelfMute := selfMute |> <| vp_SelfDeaf := selfDeaf |> in
      let changed := match selfVideo with
        | Some v => changed || negb (Bool.eqb (vp_SelfVideo p') v)
        | None => changed
        end in
      let p' := match selfVideo with
        | Some v => p' <| vp_SelfVideo := v |>
        | None => p'
        end in
      modify (fun s => s <| vs_byClient ::= <[client := p']> |>) ;;
      set_in_room (vp_ChannelID p') client p' ;;
      mret (Some (p', changed))
  end.

Definition voice_current (client : ClientRef) (s : voiceState) : option VoiceParticipantData :=
  vs_byClient s !! client.

Definition voice_userClient (userID : Z) (s : voiceState) : option ClientRef :=
  vs_byUser s !! userID.

Definition voice_leave (client : ClientRef) : M voiceState (option VoiceParticipantData) :=
  s ← get_state;
  match vs_byClient s !! client with
  | None => mret None
  | Some p => modify (removeLocked client p) ;; mret (Some p)
  end.

Definition voice_leaveServer (client : ClientRef) (serverID : Z)
    : M voiceState (option VoiceParticipantData) :=
  s ← get_state;
  match vs_byClient s !! client with
  | None => mret None
  | Some p =>
      if negb (vp_ServerID p =? serverID)%Z then mret None
      else modify (removeLocked client p) ;; mret (Some p)
  end.

(** One iteration of the loop of [removeChannel]. *)
Definition drop_participant (s : voiceState) (entry : ClientRef * VoiceParticipantData)
    : voiceState :=
  let '(client, p) := entry in
  let s := s <| vs_byClient ::= delete client |> in
  if bool_decide (vs_byUser s !! vp_UserID p = Some client)
  then s <| vs_byUser ::= delete (vp_UserID p) |> else s.

Definition voice_removeChannel (channelID : Z) : M voiceState (list VoiceParticipantData) :=
  s ← get_state;
  let entries := range_entries (voice_room channelID s) in
  modify (fun s => foldl drop_participant s entries) ;;
  modify (fun s => s <| vs_byChannel ::= delete channelID |>) ;;
  mret entries.*2.

(** The loop deletes only the entry it is visiting. *)
Definition voice_removeServer (serverID : Z) : M voiceState (list VoiceParticipantData) :=
  s ← get_state;
  let entries := filter (fun e => vp_ServerID e.2 = serverID) (range_entries (vs_byClient s)) in
  modify (fun s => foldl (fun s e => removeLocked e.1 e.2 s) s entries) ;;
  mret entries.*2.

Definition voice_snapshotForServers (serverIDs : list Z) (s : voiceState)
    : list VoiceParticipantData :=
  sortVoiceParticipants
    (filter (fun p => vp_ServerID p ∈ serverIDs) (range_values (vs_byClient s))).

Definition e2eeRecipient (sender : ClientRef) (channelID recipientUserID : Z)
    (recipientDeviceID : string) (s : voiceState)
    : option (VoiceParticipantData * ClientRef) :=
  match vs_byClient s !! sender with
  | None => None
  | Some from =>
      if negb (vp_ChannelID from =? channelID)%Z || String.eqb (vp_E2EEDeviceID from) ""
      then None
      else
        match vs_byUser s !! recipientUserID with
        | None => None
        | Some recipient =>
            if bool_decide (recipient = sender) then None
            else
              match vs_byClient s !! recipient with
              | None => None
              | Some to =>
                  if negb (vp_ChannelID to =? channelID)%Z ||
                     String.eqb (vp_E2EEDeviceID to) "" ||
                     negb (String.eqb (vp_E2EEDeviceID to) recipientDeviceID)
                  then None
                  else Some (from, recipient)
              end
        end
  end.

Definition voice_channelClients (channelID : Z) (s : voiceState) : list ClientRef :=
  range_keys (voice_room channelID s).

(** [Hub.HasVoiceParticipant] (recording_events.go). *)
Definition HasVoiceParticipant (userID serverID channelID : Z) (s : voiceState) : bool :=
  match vs_byUser s !! userID with
  | None => false
  | Some client =>
      match vs_byClient s !! client with
      | None => false
      | Some p => (vp_ServerID p =? serverID)%Z && (vp_ChannelID p =? channelID)%Z
      end
  end.
End model.
