(* ===== verification/VoiceFacts.v ===== *)
(** * Voice presence: coherence of the three indexes

    [byClient], [byChannel] and [byUser] always describe the same set of
    participants, a user is in voice through at most one connection, and the
    end-to-end key relay only pairs devices of one encrypted channel. *)

From S2P Require Import Prelude Events VoiceState.

(** [ident] gives the immutable identity behind every client reference. *)
Record voice_inv (ident : ClientRef → ClientIdent) (s : voiceState) : Prop := {
  vi_room : ∀ ch c p, voice_room ch s !! c = Some p ↔
    vs_byClient s !! c = Some p ∧ vp_ChannelID p = ch;
  vi_tight : ∀ ch, vs_byChannel s !! ch ≠ Some ∅;
  vi_user : ∀ u c, vs_byUser s !! u = Some c ↔
    ∃ p, vs_byClient s !! c = Some p ∧ vp_UserID p = u;
  vi_ident : ∀ c p, vs_byClient s !! c = Some p →
    vp_UserID p = id_UserID (ident c) ∧ vp_ConnectionID p = id_ConnectionID (ident c)
}.

Section facts.
Context `{MapOrder} (ident : ClientRef → ClientIdent).
Implicit Types (s : voiceState) (c : ClientRef) (p : VoiceParticipantData).

Lemma voice_inv_new : voice_inv ident newVoiceState.
Proof.
  split; unfold newVoiceState, voice_room; simpl.
  - intros ch c p. rewrite !lookup_empty. simpl. rewrite lookup_empty. naive_solver.
  - intros ch. by rewrite lookup_empty.
  - intros u c. split; [by rewrite lookup_empty|]. intros (p&Hp&_). by rewrite lookup_empty in Hp.
  - intros c p. by rewrite lookup_empty.
Qed.

(** A user is in voice through at most one connection. *)
Lemma voice_one_per_user s c1 c2 p1 p2 :
  voice_inv ident s → vs_byClient s !! c1 = Some p1 → vs_byClient s !! c2 = Some p2 →
  vp_UserID p1 = vp_UserID p2 → c1 = c2.
Proof.
  intros Hi H1 H2 Hu.
  assert (vs_byUser s !! vp_UserID p1 = Some c1) as E1 by (apply (vi_user _ _ Hi); eauto).
  assert (vs_byUser s !! vp_UserID p1 = Some c2) as E2 by (apply (vi_user _ _ Hi); eauto).
  congruence.
Qed.

Lemma voice_byUser s c p :
  voice_inv ident s → vs_byClient s !! c = Some p → vs_byUser s !! vp_UserID p = Some c.
Proof. intros Hi Hp. apply (vi_user _ _ Hi). eauto. Qed.

(** The room of a participant's channel exists, so writing into it is safe. *)
Lemma voice_room_exists s c p :
  voice_inv ident s → vs_byClient s !! c = Some p →
  vs_byChannel s !! vp_ChannelID p = Some (voice_room (vp_ChannelID p) s).
Proof.
  intros Hi Hp. assert (voice_room (vp_ChannelID p) s !! c = Some p) as Hr
    by (by apply (vi_room _ _ Hi)).
  unfold voice_room in *. destruct (vs_byChannel s !! vp_ChannelID p); [done|].
  simpl in Hr. by rewrite lookup_empty in Hr.
Qed.

(** ** [removeLocked] *)

Lemma removeLocked_byClient c p s :
  vs_byClient (removeLocked c p s) = delete c (vs_byClient s).
Proof. unfold removeLocked. by repeat case_match. Qed.

Lemma removeLocked_byUser c p s :
  vs_byUser s !! vp_UserID p = Some c →
  vs_byUser (removeLocked c p s) = delete (vp_UserID p) (vs_byUser s).
Proof.
  intros Hu. unfold removeLocked. simpl. rewrite bool_decide_eq_true_2 by done.
  by case_decide.
Qed.

Lemma removeLocked_room c p s ch :
  voice_room ch (removeLocked c p s) =
  if decide (ch = vp_ChannelID p) then delete c (voice_room ch s) else voice_room ch s.
Proof.
  unfold removeLocked, voice_room.
  repeat (case_match || case_decide); simplify_eq/=; rewrite ?lookup_delete, ?lookup_insert;
    repeat case_decide; simplify_eq/=; try done; by rewrite ?decide_True_pi.
Qed.

Lemma removeLocked_tight c p s :
  (∀ ch, vs_byChannel s !! ch ≠ Some ∅) →
  ∀ ch, vs_byChannel (removeLocked c p s) !! ch ≠ Some ∅.
Proof.
  intros Ht ch. unfold removeLocked.
  repeat (case_match || case_decide); simplify_eq/=; rewrite ?lookup_delete, ?lookup_insert;
    case_decide; simplify_eq/=; first [done|by intros [=]|by apply Ht].
Qed.

Lemma removeLocked_gen c p s :
  vs_nextGeneration (removeLocked c p s) = vs_nextGeneration s.
Proof. unfold removeLocked. by repeat case_match. Qed.

Lemma voice_inv_remove c p s :
  voice_inv ident s → vs_byClient s !! c = Some p → voice_inv ident (removeLocked c p s).
Proof.
  intros Hi Hp. pose proof (voice_byUser _ _ _ Hi Hp) as Hu. split.
  - intros ch c' p'. rewrite removeLocked_room, removeLocked_byClient.
    rewrite lookup_delete. case_decide as Hch.
    + rewrite lookup_delete. case_decide; [naive_solver|]. apply (vi_room _ _ Hi).
    + rewrite (vi_room _ _ Hi). case_decide; [|done]. naive_solver.
  - apply removeLocked_tight, (vi_tight _ _ Hi).
  - intros u c'. rewrite removeLocked_byUser, removeLocked_byClient by done.
    rewrite lookup_delete. setoid_rewrite lookup_delete. case_decide as Hu'.
    + subst u. split; [done|]. intros (p'&Hp'&Heq). case_decide; [done|].
      assert (c = c') by (by eapply voice_one_per_user). done.
    + rewrite (vi_user _ _ Hi). case_decide; [|done]. naive_solver.
  - intros c' p'. rewrite removeLocked_byClient. intros [_ ?]%lookup_delete_Some.
    by apply (vi_ident _ _ Hi).
Qed.

(** ** Writing an entry *)

Definition put_participant (c : ClientRef) (p : VoiceParticipantData) (s : voiceState) : voiceState :=
  s <| vs_byChannel ::= <[vp_ChannelID p := <[c := p]> (voice_room (vp_ChannelID p) s)]> |>
    <| vs_byClient ::= <[c := p]> |> <| vs_byUser ::= <[vp_UserID p := c]> |>.

Lemma put_participant_room c p s ch :
  voice_room ch (put_participant c p s) =
  if decide (ch = vp_ChannelID p) then <[c := p]> (voice_room ch s) else voice_room ch s.
Proof.
  unfold put_participant, voice_room. simpl. rewrite lookup_insert.
  repeat case_decide; by simplify_eq/=.
Qed.

Lemma put_participant_snapshot c p s :
  participantMapSnapshot (<[c := p]> (voice_room (vp_ChannelID p) s)) =
  participantMapSnapshot (voice_room (vp_ChannelID p) (put_participant c p s)).
Proof. by rewrite put_participant_room, decide_True. Qed.

(** Entering is safe when neither the client nor another connection of its
    user is elsewhere in voice; rewriting an entry in place is the case where
    the client is already in that channel. *)
Lemma voice_inv_put c p s :
  voice_inv ident s →
  vp_UserID p = id_UserID (ident c) → vp_ConnectionID p = id_ConnectionID (ident c) →
  (∀ c' p', vs_byClient s !! c' = Some p' → vp_UserID p' = vp_UserID p →
     c' = c ∧ vp_ChannelID p' = vp_ChannelID p) →
  voice_inv ident (put_participant c p s).
Proof.
  intros Hi Hu Hid Hfree. split.
  - intros ch c' p'. rewrite put_participant_room. simpl. rewrite lookup_insert.
    case_decide as Hch; [subst ch; rewrite lookup_insert|]; case_decide as Hc.
    + naive_solver.
    + apply (vi_room _ _ Hi).
    + subst c'. rewrite (vi_room _ _ Hi). split; [|naive_solver].
      intros [Hp' <-]. destruct (Hfree _ _ Hp') as [_ ?]; [|congruence].
      rewrite Hu. by apply (vi_ident _ _ Hi).
    + apply (vi_room _ _ Hi).
  - intros ch. simpl. rewrite lookup_insert. case_decide; [|apply (vi_tight _ _ Hi)].
    intros [= Hemp]. by apply insert_non_empty in Hemp.
  - intros u c'. simpl. rewrite lookup_insert. setoid_rewrite lookup_insert.
    case_decide as Hu'.
    + subst u. split; [intros [= <-]; exists p; by rewrite decide_True|].
      intros (p'&Hp'&Heq). case_decide as Hc; [by subst|].
      by destruct (Hfree _ _ Hp' Heq) as [-> _].
    + rewrite (vi_user _ _ Hi). split; intros (p'&Hp'&Heq).
      * exists p'. rewrite decide_False; [done|]. intros <-.
        apply (vi_ident _ _ Hi) in Hp' as [? _]. congruence.
      * case_decide as Hc; [|by eauto]. naive_solver.
  - intros c' p'. simpl. rewrite lookup_insert. case_decide as Hc; [naive_solver|].
    apply (vi_ident _ _ Hi).
Qed.

Lemma wp_set_in_room {A} c p p0 s (k : M voiceState A) Q :
  voice_inv ident s → vs_byClient s !! c = Some p0 →
  vp_ChannelID p = vp_ChannelID p0 → vp_UserID p = vp_UserID p0 →
  wp k Q (put_participant c p s) →
  wp (modify (fun s => s <| vs_byClient ::= <[c := p]> |>) ;;
      set_in_room (vp_ChannelID p) c p ;; k) Q s.
Proof.
  intros Hi Hp Hch Hu Hk. wp_step. wp_step. wp_step. unfold set_in_room. wp_step. wp_step. simpl.
  rewrite Hch, (voice_room_exists s c p0 Hi Hp). simpl. wp_step.
  unfold put_participant in Hk.
  pose proof (voice_byUser s c p0 Hi Hp) as Hbu. rewrite <- Hu in Hbu.
  destruct s as [g bc bcl bu]. simpl in *. unfold update_with in *. simpl in *.
  by rewrite Hch, (insert_id bu _ _ Hbu) in Hk.
Qed.

(** ** The operations preserve coherence *)

Lemma voice_update_spec c m d v s :
  voice_inv ident s →
  wp (voice_update c m d v) (fun r s' => voice_inv ident s' ∧
    match r with
    | None => s' = s ∧ vs_byClient s !! c = None
    | Some (p', changed) => ∃ p, vs_byClient s !! c = Some p ∧ s' = put_participant c p' s ∧
        p' = p <| vp_SelfMute := m |> <| vp_SelfDeaf := d |>
               <| vp_SelfVideo := default (vp_SelfVideo p) v |> ∧
        (changed = false ↔ p' = p)
    end) s.
Proof.
  intros Hi. unfold voice_update. wp_step. wp_step.
  destruct (vs_byClient s !! c) as [p|] eqn:Hp; [|by wp_step].
  set (p1 := p <| vp_SelfMute := m |> <| vp_SelfDeaf := d |>).
  set (p2 := match v with Some b => p1 <| vp_SelfVideo := b |> | None => p1 end).
  assert (vp_ChannelID p2 = vp_ChannelID p) as Hch by (unfold p2, p1; by destruct v).
  assert (vp_UserID p2 = vp_UserID p) as Hu by (unfold p2, p1; by destruct v).
  assert (vp_ConnectionID p2 = vp_ConnectionID p) as Hid by (unfold p2, p1; by destruct v).
  apply wp_set_in_room with p; [done..|]. wp_step. split.
  - apply voice_inv_put; [done|rewrite Hu|rewrite Hid|rewrite Hu, Hch].
    1,2: by apply (vi_ident _ _ Hi).
    intros c' p' Hp' Heq. assert (c' = c) as -> by (by eapply voice_one_per_user).
    naive_solver.
  - exists p. split_and!; [done|done|subst p2 p1; by destruct v, p|].
    subst p2 p1. destruct p as [? ? ? ? ? m0 d0 v0 ?].
    destruct v as [[]|], m, d, m0, d0, v0; simpl; split; intros Heq;
      first [done|by inversion Heq].
Qed.

Lemma voice_leave_spec c s :
  voice_inv ident s →
  wp (voice_leave c) (fun r s' => voice_inv ident s' ∧ r = vs_byClient s !! c ∧
    vs_byClient s' = delete c (vs_byClient s)) s.
Proof.
  intros Hi. unfold voice_leave. wp_step. wp_step. destruct (vs_byClient s !! c) as [p|] eqn:Hp.
  - wp_steps. rewrite removeLocked_byClient. auto using voice_inv_remove.
  - wp_steps. by rewrite delete_id.
Qed.

Lemma voice_leaveServer_spec c srv s :
  voice_inv ident s →
  wp (voice_leaveServer c srv) (fun r s' => voice_inv ident s' ∧
    match r with
    | Some p => vs_byClient s !! c = Some p ∧ vp_ServerID p = srv ∧
        vs_byClient s' = delete c (vs_byClient s)
    | None => s' = s ∧ ∀ p, vs_byClient s !! c = Some p → vp_ServerID p ≠ srv
    end) s.
Proof.
  intros Hi. unfold voice_leaveServer. wp_step. wp_step.
  destruct (vs_byClient s !! c) as [p|] eqn:Hp; [|by wp_steps].
  destruct (Z.eqb_spec (vp_ServerID p) srv); simpl; wp_steps.
  - rewrite removeLocked_byClient. auto using voice_inv_remove.
  - split_and!; [done..|naive_solver].
Qed.
(** The generation counter is not part of the coherence of the indexes. *)
Lemma voice_inv_gen s g : voice_inv ident s → voice_inv ident (s <| vs_nextGeneration := g |>).
Proof. by intros []. Qed.

(** ** [join] *)

Definition join_record (c : ClientRef) (srv ch : Z) (m d v : bool) (dev : string) (g : Z)
    : VoiceParticipantData :=
  mkVoiceParticipantData g (id_ConnectionID (ident c)) (id_UserID (ident c)) srv ch m d v dev.

(** What [join] does to the participants, whatever the branch: the caller is
    in [ch], every other connection of the same user is out, nobody else
    moved. *)
Record join_effect (c : ClientRef) (ch : Z) (p : VoiceParticipantData)
    (s s' : voiceState) : Prop := {
  je_inv : voice_inv ident s';
  je_self : vs_byClient s' !! c = Some p;
  je_other : ∀ c', c' ≠ c → vs_byClient s' !! c' =
    match vs_byClient s !! c' with
    | Some p' => if decide (vp_UserID p' = vp_UserID p) then None else Some p'
    | None => None
    end;
  je_gen : vs_nextGeneration s' = u64_succ (vs_nextGeneration s)
}.

(** Entering once the client and the other connections of its user are out. *)
Lemma join_enter c p s0 s1 :
  voice_inv ident s1 →
  vp_UserID p = id_UserID (ident c) → vp_ConnectionID p = id_ConnectionID (ident c) →
  vs_nextGeneration s1 = u64_succ (vs_nextGeneration s0) →
  (∀ c', c' ≠ c → vs_byClient s1 !! c' =
    match vs_byClient s0 !! c' with
    | Some p' => if decide (vp_UserID p' = vp_UserID p) then None else Some p'
    | None => None
    end) →
  vs_byClient s1 !! c = None →
  join_effect c (vp_ChannelID p) p s0 (put_participant c p s1).
Proof.
  intros Hi Hu Hid Hg Ho Hc. split.
  - apply voice_inv_put; [done..|]. intros c' p' Hp' Heq.
    destruct (decide (c' = c)) as [->|Hne]; [congruence|].
    rewrite (Ho _ Hne) in Hp'. by repeat case_match; simplify_eq.
  - simpl. by rewrite lookup_insert_eq.
  - intros c' Hne. simpl. rewrite lookup_insert_ne by done. by apply Ho.
  - done.
Qed.

(** The other connections of a user whose only voice connection is [c0]. *)
Lemma user_others s c c0 u :
  voice_inv ident s → vs_byUser s !! u = Some c0 → c ≠ c0 →
  match vs_byClient s !! c with
  | Some p => if decide (vp_UserID p = u) then None else Some p
  | None => None
  end = vs_byClient s !! c.
Proof.
  intros Hi Hu Hne. destruct (vs_byClient s !! c) as [p|] eqn:Hp; [|done].
  case_decide as Heq; [|done]. subst u. rewrite (voice_byUser _ _ _ Hi Hp) in Hu. congruence.
Qed.

Lemma user_absent s c u :
  voice_inv ident s → vs_byUser s !! u = None →
  match vs_byClient s !! c with
  | Some p => if decide (vp_UserID p = u) then None else Some p
  | None => None
  end = vs_byClient s !! c.
Proof.
  intros Hi Hu. destruct (vs_byClient s !! c) as [p|] eqn:Hp; [|done].
  case_decide as Heq; [|done]. subst u. rewrite (voice_byUser _ _ _ Hi Hp) in Hu. congruence.
Qed.

Definition same_place (p : VoiceParticipantData) (srv ch : Z) (dev : string) : Prop :=
  vp_ServerID p = srv ∧ vp_ChannelID p = ch ∧ vp_E2EEDeviceID p = dev.

#[local] Instance same_place_dec p srv ch dev : Decision (same_place p srv ch dev).
Proof. unfold same_place. solve_decision. Defined.

Lemma same_place_test p srv ch dev :
  (vp_ServerID p =? srv)%Z && (vp_ChannelID p =? ch)%Z && String.eqb (vp_E2EEDeviceID p) dev = true
  ↔ same_place p srv ch dev.
Proof. unfold same_place. rewrite !andb_true_iff, !Z.eqb_eq, String.eqb_eq. tauto. Qed.

Lemma same_place_test_false p srv ch dev :
  ¬ same_place p srv ch dev →
  (vp_ServerID p =? srv)%Z && (vp_ChannelID p =? ch)%Z && String.eqb (vp_E2EEDeviceID p) dev = false.
Proof. intros Hn. apply not_true_is_false. by rewrite same_place_test. Qed.

Lemma voice_join_in_place c srv ch m d dev s p0 :
  voice_inv ident s → vs_byClient s !! c = Some p0 → same_place p0 srv ch dev →
  wp (voice_join c (ident c) srv ch m d dev) (fun r s' =>
    join_effect c ch (jr_participant r) s s' ∧
    jr_participant r =
      join_record c srv ch m d (vp_SelfVideo p0) dev (u64_succ (vs_nextGeneration s)) ∧
    jr_participants r = participantMapSnapshot (voice_room ch s') ∧
    jr_joined r = false ∧ jr_replaced r = None ∧ jr_previous r = None ∧
    (jr_updated r = false ↔ vp_SelfMute p0 = m ∧ vp_SelfDeaf p0 = d)) s.
Proof.
  intros Hi Hp Hsame. unfold voice_join. wp_step. wp_step. wp_step. wp_step. simpl. rewrite Hp.
  rewrite (proj2 (same_place_test p0 srv ch dev) Hsame).
  destruct Hsame as (Hsrv&Hch&Hdev). simpl.
  set (p1 := join_record c srv ch m d (vp_SelfVideo p0) dev (u64_succ (vs_nextGeneration s))).
  set (s1 := s <| vs_nextGeneration := u64_succ (vs_nextGeneration s) |>).
  assert (voice_inv ident s1) as Hi1 by (by apply voice_inv_gen).
  destruct (vi_ident _ _ Hi _ _ Hp) as [Hu Hid].
  apply (wp_set_in_room c p1 p0 s1); [done|done|by rewrite Hch|by rewrite Hu|].
  wp_step. wp_step. wp_step. cbn [jr_participant jr_participants jr_joined jr_replaced
    jr_previous jr_updated]. split_and!; [|done..|].
  - split; [|by simpl; rewrite lookup_insert_eq| |done].
    + apply voice_inv_put; [done..|]. intros c' p' Hp' Heq. simpl in Hp', Heq.
      rewrite <- Hu in Heq. assert (c' = c) as -> by (by eapply voice_one_per_user; [exact Hi|..]).
      split; [done|]. simpl. congruence.
    + intros c' Hne. simpl. rewrite lookup_insert_ne by done. rewrite <- Hu.
      by rewrite (user_others s c' c) by eauto using voice_byUser.
  - destruct p0 as [? ? ? ? ? m0 d0 ? ?]. simpl. destruct m, d, m0, d0; naive_solver.
Qed.

Lemma voice_join_move c srv ch m d dev s :
  voice_inv ident s →
  (∀ p0, vs_byClient s !! c = Some p0 → ¬ same_place p0 srv ch dev) →
  wp (voice_join c (ident c) srv ch m d dev) (fun r s' =>
    join_effect c ch (jr_participant r) s s' ∧
    jr_participant r = join_record c srv ch m d false dev (u64_succ (vs_nextGeneration s)) ∧
    jr_participants r = participantMapSnapshot (voice_room ch s') ∧
    jr_joined r = true ∧ jr_updated r = false ∧
    jr_previous r = (vs_byUser s !! id_UserID (ident c)) ≫= (fun c0 => vs_byClient s !! c0) ∧
    (∀ c0, jr_replaced r = Some c0 ↔
       c0 ≠ c ∧ vs_byUser s !! id_UserID (ident c) = Some c0)) s.
Proof.
  intros Hi Hmove. unfold voice_join. wp_step. wp_step. wp_step. wp_step. simpl.
  set (s1 := s <| vs_nextGeneration := u64_succ (vs_nextGeneration s) |>).
  set (p := join_record c srv ch m d false dev (u64_succ (vs_nextGeneration s))).
  assert (voice_inv ident s1) as Hi1 by (by apply voice_inv_gen).
  destruct (vs_byClient s !! c) as [p0|] eqn:Hp.
  - rewrite same_place_test_false by (by apply Hmove).
    assert (Hu := proj1 (vi_ident _ _ Hi _ _ Hp)).
    assert (Hbu := voice_byUser _ _ _ Hi Hp). rewrite Hu in Hbu.
    wp_step. wp_step. wp_step. wp_step. wp_step.
    rewrite removeLocked_byUser by (simpl; by rewrite Hu). rewrite Hu, lookup_delete_eq.
    wp_step. wp_step. wp_step. wp_step. wp_step. wp_step. simpl. rewrite Hbu. simpl.
    split_and!; [|done|exact (put_participant_snapshot c p _)|done|done|by rewrite Hp|naive_solver].
    eapply (join_enter c p s (removeLocked c p0 s1)); [by apply voice_inv_remove|done|done| | |].
    + by rewrite removeLocked_gen.
    + intros c' Hne. rewrite removeLocked_byClient, lookup_delete_ne by done. simpl.
      by rewrite (user_others s c' c).
    + by rewrite removeLocked_byClient, lookup_delete_eq.
  - wp_step. wp_step. wp_step. wp_step. wp_step. simpl.
    destruct (vs_byUser s !! id_UserID (ident c)) as [c0|] eqn:Hbu.
    + destruct (proj1 (vi_user _ _ Hi _ _) Hbu) as (p0&Hp0&Hu).
      rewrite bool_decide_eq_true_2 by congruence. rewrite Hp0.
      repeat (wp_step; cbv beta zeta iota). simpl.
      split_and!; [|done|exact (put_participant_snapshot c p _)|done|done|done|naive_solver].
      eapply (join_enter c p s (removeLocked c0 p0 s1)); [by apply voice_inv_remove|done|done| | |].
      * by rewrite removeLocked_gen.
      * intros c' Hne. rewrite removeLocked_byClient, lookup_delete. simpl.
        case_decide; [subst c'; rewrite Hp0; by rewrite decide_True by done|].
        by rewrite (user_others s c' c0).
      * rewrite removeLocked_byClient, lookup_delete. by case_decide.
    + repeat (wp_step; cbv beta zeta iota). simpl.
      split_and!; [|done|exact (put_participant_snapshot c p _)|done|done|done|naive_solver].
      eapply (join_enter c p s s1); [done..| |done].
      intros c' Hne. simpl. by rewrite user_absent.
Qed.

(** ** Bulk removals *)

(** The participants left once those of the list [l] are out. *)
Definition without (l : list ClientRef) (m m' : gmap ClientRef VoiceParticipantData) : Prop :=
  ∀ c, m' !! c = if decide (c ∈ l) then None else m !! c.

Lemma without_filter (P : VoiceParticipantData → Prop) `{∀ p, Decision (P p)} l m m' :
  (∀ c p, m !! c = Some p → (c ∈ l ↔ P p)) → without l m m' →
  m' = filter (fun e => ¬ P e.2) m.
Proof.
  intros Hl Hw. apply map_eq. intros c. rewrite Hw, map_lookup_filter.
  destruct (m !! c) as [p|] eqn:Hp; simpl; [|by case_decide].
  specialize (Hl c p Hp). repeat case_decide; simpl; by try (rewrite option_guard_True by tauto)
    || (rewrite option_guard_False by tauto) || tauto.
Qed.

Lemma foldl_removeLocked l s :
  voice_inv ident s → NoDup l.*1 → (∀ c p, (c, p) ∈ l → vs_byClient s !! c = Some p) →
  let s' := foldl (fun s e => removeLocked e.1 e.2 s) s l in
  voice_inv ident s' ∧ without l.*1 (vs_byClient s) (vs_byClient s').
Proof.
  revert s. induction l as [|[c p] l IH]; intros s Hi Hnd Hin.
  { split; [done|]. intros c. by rewrite decide_False by set_solver. }
  apply NoDup_cons in Hnd as [Hc Hnd]. cbn [fst snd foldl] in *.
  assert (Hp : vs_byClient s !! c = Some p) by (apply Hin; left).
  destruct (IH (removeLocked c p s)) as [Hi' Hw].
  - by apply voice_inv_remove.
  - done.
  - intros c' p' Hin'. rewrite removeLocked_byClient, lookup_delete_ne.
    + apply Hin. by right.
    + intros <-. apply Hc, list_elem_of_fmap. by exists (c, p').
  - split; [done|]. intros c'. rewrite (Hw c'), removeLocked_byClient, lookup_delete.
    simpl. repeat case_decide; set_solver.
Qed.

Lemma foldl_drop_participant l s :
  NoDup (vp_UserID <$> l.*2) → (∀ c p, (c, p) ∈ l → vs_byUser s !! vp_UserID p = Some c) →
  let s' := foldl drop_participant s l in
  vs_byChannel s' = vs_byChannel s ∧ without l.*1 (vs_byClient s) (vs_byClient s') ∧
  ∀ u, vs_byUser s' !! u = if decide (u ∈ vp_UserID <$> l.*2) then None else vs_byUser s !! u.
Proof.
  revert s. induction l as [|[c p] l IH]; intros s Hnd Hin.
  { split_and!; [done|..]; intros c; by rewrite decide_False by set_solver. }
  simpl in Hnd. apply NoDup_cons in Hnd as [Hu Hnd]. cbn [fst snd foldl].
  assert (vs_byUser s !! vp_UserID p = Some c) as Hp by (apply Hin; left).
  assert (drop_participant s (c, p) = s <| vs_byClient ::= delete c |>
    <| vs_byUser ::= delete (vp_UserID p) |>) as ->.
  { unfold drop_participant. simpl. by rewrite bool_decide_eq_true_2. }
  destruct (IH (s <| vs_byClient ::= delete c |> <| vs_byUser ::= delete (vp_UserID p) |>))
    as (Hch&Hw&Hbu); [done| |].
  { intros c' p' Hin'. simpl. rewrite lookup_delete_ne; [apply Hin; by right|].
    intros Heq. apply Hu. rewrite Heq. apply list_elem_of_fmap_2, list_elem_of_fmap.
    by exists (c', p'). }
  split_and!; [done|..].
  - intros c'. rewrite (Hw c'). simpl. rewrite lookup_delete. repeat case_decide; set_solver.
  - intros u. rewrite Hbu. simpl. rewrite lookup_delete. repeat case_decide; set_solver.
Qed.

(** The participants of one channel belong to different users. *)
Lemma room_users_NoDup s ch :
  voice_inv ident s → NoDup (vp_UserID <$> (range_entries (voice_room ch s)).*2).
Proof.
  intros Hi. rewrite <- list_fmap_compose. apply NoDup_fmap_2_strong.
  - intros [c1 p1] [c2 p2]. rewrite !elem_of_range_entries, !(vi_room _ _ Hi). simpl.
    intros [H1 _] [H2 _] Heq. assert (c1 = c2) as -> by (by eapply voice_one_per_user).
    by simplify_eq.
  - unfold range_entries. rewrite visit_perm. apply NoDup_map_to_list.
Qed.

Lemma voice_removeChannel_spec ch s :
  voice_inv ident s →
  wp (voice_removeChannel ch) (fun r s' => voice_inv ident s' ∧
    vs_byClient s' = filter (fun e => ¬ vp_ChannelID e.2 = ch) (vs_byClient s) ∧
    r = (range_entries (voice_room ch s)).*2) s.
Proof.
  intros Hi. unfold voice_removeChannel. repeat wp_step. simpl.
  set (l := range_entries (voice_room ch s)).
  assert (∀ c p, (c, p) ∈ l ↔ vs_byClient s !! c = Some p ∧ vp_ChannelID p = ch) as Hl.
  { intros c p. unfold l. by rewrite elem_of_range_entries, (vi_room _ _ Hi). }
  destruct (foldl_drop_participant l s) as (Hch&Hw&Hbu).
  { by apply room_users_NoDup. }
  { intros c p [Hp _]%Hl. by apply voice_byUser. }
  apply (without_filter (fun p => vp_ChannelID p = ch)) in Hw.
  2:{ intros c p Hp. rewrite list_elem_of_fmap. split.
      - intros ([c' p']&->&Hin). apply Hl in Hin as [? ?]. simpl in *. congruence.
      - intros Heq. exists (c, p). by rewrite Hl. }
  assert (∀ c p, filter (λ e : ClientRef * _, ¬ vp_ChannelID e.2 = ch) (vs_byClient s) !! c
    = Some p ↔ vs_byClient s !! c = Some p ∧ vp_ChannelID p ≠ ch) as Hf
    by (intros; apply map_lookup_filter_Some).
  split_and!; [|done|done]. split; simpl; rewrite ?Hw.
  - intros ch' c p. unfold voice_room. simpl. rewrite Hch, lookup_delete, Hf.
    case_decide; [simpl; rewrite lookup_empty; naive_solver|].
    fold (voice_room ch' s). rewrite (vi_room _ _ Hi). naive_solver.
  - intros ch'. rewrite Hch, lookup_delete. case_decide; [done|apply (vi_tight _ _ Hi)].
  - intros u c. setoid_rewrite Hf. rewrite Hbu. case_decide as Hu.
    + split; [done|]. intros (p&[Hp Hne]&<-). rewrite list_elem_of_fmap in Hu.
      destruct Hu as (p'&Heq&Hin). apply list_elem_of_fmap in Hin as ([c' ?]&->&Hin).
      apply Hl in Hin as [Hp' <-]. simpl in *.
      assert (c = c') as -> by (by eapply voice_one_per_user). congruence.
    + rewrite (vi_user _ _ Hi). split; [|naive_solver]. intros (p&Hp&<-).
      exists p. split_and!; [done| |done]. intros <-. apply Hu.
      apply list_elem_of_fmap_2, list_elem_of_fmap. exists (c, p). by rewrite Hl.
  - intros c p [Hp _]%Hf. by apply (vi_ident _ _ Hi).
Qed.

Lemma voice_removeServer_spec srv s :
  voice_inv ident s →
  wp (voice_removeServer srv) (fun r s' => voice_inv ident s' ∧
    vs_byClient s' = filter (fun e => ¬ vp_ServerID e.2 = srv) (vs_byClient s) ∧
    (∀ p, p ∈ r ↔ ∃ c, vs_byClient s !! c = Some p ∧ vp_ServerID p = srv)) s.
Proof.
  intros Hi. unfold voice_removeServer. repeat wp_step. simpl.
  set (l := filter _ _).
  assert (∀ c p, (c, p) ∈ l ↔ vs_byClient s !! c = Some p ∧ vp_ServerID p = srv) as Hl.
  { intros c p. unfold l. rewrite list_elem_of_filter, elem_of_range_entries. simpl. tauto. }
  destruct (foldl_removeLocked l s) as [Hi' Hw]; [done| |naive_solver|].
  { eapply sublist_NoDup; [|apply fmap_sublist, sublist_filter].
    unfold range_entries. rewrite visit_perm. apply NoDup_fst_map_to_list. }
  split_and!; [done|..].
  - apply (without_filter (fun p => vp_ServerID p = srv)) in Hw; [done|].
    intros c p Hp. rewrite list_elem_of_fmap. split.
    + intros ([c' p']&->&Hin). apply Hl in Hin as [? ?]. simpl in *. congruence.
    + intros Heq. exists (c, p). by rewrite Hl.
  - intros p. rewrite list_elem_of_fmap. split.
    + intros ([c p']&->&Hin). apply Hl in Hin. eauto.
    + intros (c&Hp). exists (c, p). by rewrite Hl.
Qed.

(** ** Runs of the voice component *)

Inductive voice_step : voiceState → voiceState → Prop :=
  | vstep_join c srv ch m d dev r s s' :
      voice_join c (ident c) srv ch m d dev s = Ok (r, s') → voice_step s s'
  | vstep_update c m d v r s s' :
      voice_update c m d v s = Ok (r, s') → voice_step s s'
  | vstep_leave c r s s' : voice_leave c s = Ok (r, s') → voice_step s s'
  | vstep_leaveServer c srv r s s' :
      voice_leaveServer c srv s = Ok (r, s') → voice_step s s'
  | vstep_removeChannel ch r s s' : voice_removeChannel ch s = Ok (r, s') → voice_step s s'
  | vstep_removeServer srv r s s' : voice_removeServer srv s = Ok (r, s') → voice_step s s'.

Lemma voice_join_spec c srv ch m d dev s :
  voice_inv ident s →
  wp (voice_join c (ident c) srv ch m d dev) (fun r s' =>
    join_effect c ch (jr_participant r) s s') s.
Proof.
  intros Hi. destruct (vs_byClient s !! c) as [p0|] eqn:Hp.
  - destruct (decide (same_place p0 srv ch dev)) as [Hs|Hs].
    + eapply wp_mono; [by eapply voice_join_in_place|naive_solver].
    + eapply wp_mono; [eapply voice_join_move; naive_solver|naive_solver].
  - eapply wp_mono; [eapply voice_join_move; naive_solver|naive_solver].
Qed.

Lemma voice_step_inv s s' : voice_inv ident s → voice_step s s' → voice_inv ident s'.
Proof.
  intros Hi Hs. destruct Hs as [? ? ? ? ? ? ? ? ? E|? ? ? ? ? ? ? E|? ? ? ? E|? ? ? ? ? E|? ? ? ? E|? ? ? ? E].
  - by destruct (wp_result _ _ _ _ _ (voice_join_spec _ _ _ _ _ _ _ Hi) E).
  - by destruct (wp_result _ _ _ _ _ (voice_update_spec _ _ _ _ _ Hi) E).
  - by destruct (wp_result _ _ _ _ _ (voice_leave_spec _ _ Hi) E).
  - by destruct (wp_result _ _ _ _ _ (voice_leaveServer_spec _ _ _ Hi) E).
  - by destruct (wp_result _ _ _ _ _ (voice_removeChannel_spec _ _ Hi) E).
  - by destruct (wp_result _ _ _ _ _ (voice_removeServer_spec _ _ Hi) E).
Qed.

Lemma voice_reachable_inv s : rtc voice_step newVoiceState s → voice_inv ident s.
Proof.
  intros Hr. assert (Hi := voice_inv_new). induction Hr; eauto using voice_step_inv.
Qed.

(** ** Properties *)

(** Whatever sequence of joins, self-state updates, leaves and channel or
    server removals is executed, the three indexes of the voice state describe
    the same participants: a channel's room holds exactly the connections
    whose record names that channel, no empty room is kept, the user index
    points at the one connection through which the user is in voice, and every
    record carries the identity of its own connection; moreover the next
    update or join never hits a nil room (it returns a result). *)
Theorem voice_reachable_coherent s :
  rtc voice_step newVoiceState s →
  (∀ ch c p, voice_room ch s !! c = Some p ↔
     vs_byClient s !! c = Some p ∧ vp_ChannelID p = ch) ∧
  (∀ ch, vs_byChannel s !! ch ≠ Some ∅) ∧
  (∀ c1 c2 p1 p2, vs_byClient s !! c1 = Some p1 → vs_byClient s !! c2 = Some p2 →
     vp_UserID p1 = vp_UserID p2 → c1 = c2 ∧ vs_byUser s !! vp_UserID p1 = Some c1) ∧
  (∀ c p, vs_byClient s !! c = Some p →
     vp_UserID p = id_UserID (ident c) ∧ vp_ConnectionID p = id_ConnectionID (ident c)) ∧
  (∀ c m d v, ∃ r s', voice_update c m d v s = Ok (r, s')) ∧
  (∀ c srv ch m d dev, ∃ r s', voice_join c (ident c) srv ch m d dev s = Ok (r, s')).
Proof.
  intros Hi%voice_reachable_inv. split_and!.
  - apply (vi_room _ _ Hi).
  - apply (vi_tight _ _ Hi).
  - intros c1 c2 p1 p2 H1 H2 Hu. eauto using voice_one_per_user, voice_byUser.
  - apply (vi_ident _ _ Hi).
  - intros c m d v. destruct (proj1 (wp_run _ _ _) (voice_update_spec c m d v _ Hi)) as (r&s'&?&_).
    eauto.
  - intros c srv ch m d dev.
    destruct (proj1 (wp_run _ _ _) (voice_join_spec c srv ch m d dev _ Hi)) as (r&s'&?&_). eauto.
Qed.

(** Joining a voice channel from a coherent state always succeeds; the
    caller ends up in that channel with a fresh generation, every other
    connection of the same user is thrown out of voice, nobody else moves, the
    returned list is the sorted room after the join, and [joined] is false
    exactly when the connection was already in that channel of that server
    with the same encryption device, in which case its camera state is kept
    and nothing is replaced; otherwise [replaced] names the other connection
    the user was in voice with, if any. *)
Theorem voice_join_functional c srv ch m d dev s :
  voice_inv ident s →
  ∃ r s', voice_join c (ident c) srv ch m d dev s = Ok (r, s') ∧
    voice_inv ident s' ∧
    vs_byClient s' !! c = Some (jr_participant r) ∧
    (∀ c', c' ≠ c → vs_byClient s' !! c' =
      match vs_byClient s !! c' with
      | Some p' => if decide (vp_UserID p' = id_UserID (ident c)) then None else Some p'
      | None => None
      end) ∧
    jr_participants r = participantMapSnapshot (voice_room ch s') ∧
    (jr_joined r = false ↔
       ∃ p0, vs_byClient s !! c = Some p0 ∧ same_place p0 srv ch dev) ∧
    (∀ c0, jr_replaced r = Some c0 ↔
       c0 ≠ c ∧ vs_byUser s !! id_UserID (ident c) = Some c0) ∧
    ∃ v, jr_participant r =
      join_record c srv ch m d v dev (u64_succ (vs_nextGeneration s)) ∧
      v = match vs_byClient s !! c with
          | Some p0 => if jr_joined r then false else vp_SelfVideo p0
          | None => false
          end.
Proof.
  intros Hi. destruct (vs_byClient s !! c) as [p0|] eqn:Hp;
    [destruct (decide (same_place p0 srv ch dev)) as [Hs|Hs]|].
  - destruct (proj1 (wp_run _ _ _) (voice_join_in_place _ _ _ m d _ _ _ Hi Hp Hs))
      as (r&s'&Hrun&[Hje1 Hje2 Hje3 _]&Hpart&Hps&Hj&Hrep&_&_).
    exists r, s'. rewrite Hpart in Hje3. split_and!; [done..|naive_solver| |].
    + intros c0. rewrite Hrep. split; [done|]. intros [Hne Hbu]. exfalso. apply Hne.
      pose proof (voice_byUser _ _ _ Hi Hp) as Hbu'.
      rewrite (proj1 (vi_ident _ _ Hi _ _ Hp)) in Hbu'. congruence.
    + eexists. split; [done|]. by rewrite Hj.
  - destruct (proj1 (wp_run _ _ _) (voice_join_move c srv ch m d dev _ Hi ltac:(naive_solver)))
      as (r&s'&Hrun&[Hje1 Hje2 Hje3 _]&Hpart&Hps&Hj&_&_&Hrep).
    exists r, s'. rewrite Hpart in Hje3. split_and!; [done..|split; [by rewrite Hj|by intros (?&[= <-]&?)]|done|].
    eexists. split; [done|]. by rewrite Hj.
  - destruct (proj1 (wp_run _ _ _) (voice_join_move c srv ch m d dev _ Hi ltac:(congruence)))
      as (r&s'&Hrun&[Hje1 Hje2 Hje3 _]&Hpart&Hps&Hj&_&_&Hrep).
    exists r, s'. rewrite Hpart in Hje3. split_and!; [done..|split; [by rewrite Hj|by intros (?&?&?)]|done|].
    eexists. by split.
Qed.

(** In a coherent state the key relay resolves a recipient exactly when
    sender and recipient are two different connections in voice in the named
    channel, both with an encryption device, the recipient being the named
    user's connection and its device the named one. *)
Theorem e2eeRecipient_exact sender ch u dev from recipient s :
  voice_inv ident s →
  e2eeRecipient sender ch u dev s = Some (from, recipient) ↔
  ∃ to, vs_byClient s !! sender = Some from ∧ vs_byClient s !! recipient = Some to ∧
    recipient ≠ sender ∧ vp_UserID to = u ∧
    vp_ChannelID from = ch ∧ vp_ChannelID to = ch ∧
    vp_E2EEDeviceID from ≠ "" ∧ dev ≠ "" ∧ vp_E2EEDeviceID to = dev.
Proof.
  intros Hi. unfold e2eeRecipient. split.
  - intros Heq. repeat case_match; simplify_eq.
    repeat match goal with
    | H : _ || _ = false |- _ => apply orb_false_iff in H as [? ?]
    | H : negb _ = false |- _ => apply negb_false_iff in H
    | H : (_ =? _)%Z = true |- _ => apply Z.eqb_eq in H
    | H : String.eqb _ _ = true |- _ => apply String.eqb_eq in H
    | H : String.eqb _ _ = false |- _ => apply String.eqb_neq in H
    | H : bool_decide _ = false |- _ => apply bool_decide_eq_false in H
    | H : vs_byUser _ !! _ = Some _ |- _ => apply (vi_user _ _ Hi) in H as (?&?&?)
    end. simplify_eq. eauto 12.
  - intros (to&Hf&Ht&Hne&<-&<-&Hch&Hd&Hd'&<-). rewrite Hf, Z.eqb_refl. simpl.
    rewrite (proj2 (String.eqb_neq _ _) Hd), (voice_byUser _ _ _ Hi Ht).
    rewrite bool_decide_eq_false_2, Ht, Hch, Z.eqb_refl by done. simpl.
    by rewrite (proj2 (String.eqb_neq _ _) Hd'), String.eqb_refl.
Qed.
End facts.

(** ** Concrete inputs *)

(** Connections 1 and 2 belong to user 5, connection 3 to user 6. *)
Definition sample_ident (c : ClientRef) : ClientIdent :=
  if bool_decide (c = 3%positive) then mkClientIdent 6 "c"
  else mkClientIdent 5 (if bool_decide (c = 1%positive) then "a" else "b").
Definition sample_voice1 : voiceState :=
  put_participant 1%positive (join_record sample_ident 1%positive 7 40 false false false "d1" 1)
    (newVoiceState <| vs_nextGeneration := 1%Z |>).
Definition sample_voice2 : voiceState :=
  put_participant 3%positive (join_record sample_ident 3%positive 7 40 true false false "d3" 2)
    (sample_voice1 <| vs_nextGeneration := 2%Z |>).

Lemma sample_voice1_step :
  @voice_step key_order sample_ident newVoiceState sample_voice1.
Proof. eapply (vstep_join (H := key_order) _ 1%positive 7 40 false false "d1"). vm_compute. reflexivity. Qed.

Lemma sample_voice2_step :
  @voice_step key_order sample_ident sample_voice1 sample_voice2.
Proof. eapply (vstep_join (H := key_order) _ 3%positive 7 40 true false "d3"). vm_compute. reflexivity. Qed.

Lemma sample_voice2_inv : voice_inv sample_ident sample_voice2.
Proof.
  apply (voice_reachable_inv (H := key_order)).
  eapply rtc_l; [exact sample_voice1_step|]. apply rtc_once. exact sample_voice2_step.
Qed.

Lemma voice_reachable_coherent_witness :
  voice_room 40 sample_voice2 !! 3%positive =
    Some (join_record sample_ident 3%positive 7 40 true false false "d3" 2) ∧
  vs_byChannel sample_voice2 !! 40%Z ≠ Some ∅.
Proof.
  split; [vm_compute; reflexivity|].
  apply (voice_reachable_coherent (H := key_order) sample_ident sample_voice2).
  eapply rtc_l; [exact sample_voice1_step|]. apply rtc_once. exact sample_voice2_step.
Defined.

(** User 5 joins another channel from its second connection: the first one is
    replaced. *)
Lemma voice_join_functional_witness :
  ∃ r s', @voice_join key_order 2%positive (sample_ident 2%positive) 7 41 false true "d2" sample_voice2 = Ok (r, s') ∧
    vs_byClient s' !! 2%positive = Some (jr_participant r) ∧
    jr_replaced r = Some 1%positive.
Proof.
  destruct (voice_join_functional (H := key_order) sample_ident 2%positive 7 41 false true "d2"
    sample_voice2 sample_voice2_inv) as (r&s'&Hrun&_&Hself&_&_&_&Hrep&_).
  exists r, s'. split; [exact Hrun|]. split; [exact Hself|]. apply Hrep.
  split; [done|vm_compute; reflexivity].
Defined.

Lemma e2eeRecipient_exact_witness :
  e2eeRecipient 1%positive 40 6 "d3" sample_voice2 =
    Some (join_record sample_ident 1%positive 7 40 false false false "d1" 1, 3%positive).
Proof.
  apply (e2eeRecipient_exact sample_ident 1%positive 40 6 "d3" _ _ sample_voice2 sample_voice2_inv).
  exists (join_record sample_ident 3%positive 7 40 true false false "d3" 2).
  split_and!; by vm_compute.
Defined.
