(* ===== verification/StreamState.v ===== *)
(** * Screen streams: publishers and viewers

    Model of [stream_state.go] and of the rendition helpers of [stream_hub.go].
    [byChannel], [byClient] and the values returned to callers share the
    [*activeStream] objects, so the objects live in a heap and the indexes hold
    references. Each method holds the state's mutex for its whole body. *)

From S2P Require Import Prelude StreamContract Events VoiceState.

Definition StreamRef := positive.

Record activeStream := mkActiveStream {
  as_serverID : Z;
  as_channelID : Z;
  as_mode : StreamMode;
  as_codec : StreamCodec;
  as_hasAudio : bool;
  as_renditions : list StreamRenditionData;
  as_publisher : ClientRef;
  as_viewers : gset ClientRef;
  as_startedAt : Z
}.
#[export] Instance activeStream_fields : Fields activeStream := fun r =>
  mkActiveStream (as_serverID r) (as_channelID r) (as_mode r) (as_codec r) (as_hasAudio r)
    (as_renditions r) (as_publisher r) (as_viewers r) (as_startedAt r).

Record streamClientState := mkStreamClientState {
  sk_generation : Z;
  sk_stream : StreamRef;
  sk_publisher : bool;
  sk_renditionID : string
}.

(** [sst_heap] holds every allocated object, [sst_alloc] the next free address. *)
Record streamState := mkStreamState {
  sst_nextGeneration : Z;
  sst_heap : gmap StreamRef activeStream;
  sst_alloc : StreamRef;
  sst_byChannel : gmap Z (gmap ClientRef StreamRef);
  sst_byClient : gmap ClientRef streamClientState
}.
#[export] Instance streamState_fields : Fields streamState := fun r =>
  mkStreamState (sst_nextGeneration r) (sst_heap r) (sst_alloc r) (sst_byChannel r)
    (sst_byClient r).

Definition newStreamState : streamState := mkStreamState 0 ∅ 1%positive ∅ ∅.

Inductive StreamError :=
  | ErrStreamVoiceRequired
  | ErrStreamAlreadyActive
  | ErrStreamUnavailable
  | ErrStreamViewerLimit
  | ErrStreamPublisherLimit
  | ErrStreamP2PRelation
  | ErrStreamRenditionsInvalid
  | ErrStreamRenditionUnavailable.

(** [time.Time.UnixMilli] of an instant in nanoseconds. *)
Definition UnixMilli (t : Z) : Z := t / 1000000.

(** ** Renditions *)

Definition validStreamCodec (codec : StreamCodec) : bool :=
  String.eqb codec StreamCodecVP8 || String.eqb codec StreamCodecVP9 ||
  String.eqb codec StreamCodecH264 || String.eqb codec StreamCodecAV1.

Definition legacySDRStreamRendition (codec : StreamCodec) : StreamRenditionData :=
  let profile :=
    if String.eqb codec StreamCodecVP9 then "0"
    else if String.eqb codec StreamCodecH264 then "baseline"
    else if String.eqb codec StreamCodecAV1 then "main"
    else "" in
  {| sd_ID := "sdr"; sd_Codec := codec; sd_Profile := profile;
     sd_DynamicRange := StreamDynamicRangeSDR; sd_BitDepth := 8;
     sd_ColorPrimaries := "bt709"; sd_Transfer := "bt709"; sd_Matrix := "bt709" |}.

(** The conversion in the loop of [normalizeStreamRenditions]. *)
Definition to_contract (v : StreamRenditionData) : Rendition :=
  {| rd_ID := sd_ID v; rd_Codec := sd_Codec v; rd_Profile := sd_Profile v;
     rd_DynamicRange := sd_DynamicRange v; rd_BitDepth := sd_BitDepth v;
     rd_ColorPrimaries := sd_ColorPrimaries v; rd_Transfer := sd_Transfer v;
     rd_Matrix := sd_Matrix v |}.

Definition normalizeStreamRenditions (legacyCodec : StreamCodec)
    (values : list StreamRenditionData) : option (list StreamRenditionData) :=
  if length values =? 0 then Some [legacySDRStreamRendition legacyCodec]
  else if MaxStreamRenditions <? length values then None
  else if negb (ValidRenditions (to_contract <$> values)) then None
  else Some values.

Definition onlySDRStreamRenditions (values : list StreamRenditionData) : bool :=
  match values with
  | [v] => String.eqb (sd_DynamicRange v) StreamDynamicRangeSDR
  | _ => false
  end.

Definition supported_ranges (ranges : list StreamDynamicRange) : list StreamDynamicRange :=
  filter (fun r => r = StreamDynamicRangeHDR10 ∨ r = StreamDynamicRangeHLG) ranges.

(** The first loop of [selectStreamRendition]: a rendition that is not SDR,
    in a range the viewer supports, with a codec profile the viewer decodes. *)
Definition hdr_match (ranges : list StreamDynamicRange)
    (profiles : list StreamCodecProfileData) (r : StreamRenditionData) : bool :=
  negb (String.eqb (sd_DynamicRange r) StreamDynamicRangeSDR) &&
  bool_decide (sd_DynamicRange r ∈ supported_ranges ranges) &&
  existsb (fun p => String.eqb (sc_Codec p) (sd_Codec r) &&
                    String.eqb (sc_Profile p) (sd_Profile r)) profiles.

Definition sdr_match (r : StreamRenditionData) : bool :=
  String.eqb (sd_DynamicRange r) StreamDynamicRangeSDR.

Definition selectStreamRendition (values : list StreamRenditionData)
    (ranges : list StreamDynamicRange) (profiles : list StreamCodecProfileData) : string :=
  match List.find (hdr_match ranges profiles) values with
  | Some r => sd_ID r
  | None =>
      match List.find sdr_match values with
      | Some r => sd_ID r
      | None => ""
      end
  end.

(** ** Objects *)

Section model.
Context `{MapOrder} (ident : ClientRef → ClientIdent).

Definition streamData (value : activeStream) : StreamData :=
  {| st_ServerID := as_serverID value;
     st_ChannelID := as_channelID value;
     st_PublisherUserID := id_UserID (ident (as_publisher value));
     st_PublisherConnectionID := id_ConnectionID (ident (as_publisher value));
     st_Mode := as_mode value;
     st_Codec := as_codec value;
     st_HasAudio := as_hasAudio value;
     st_ViewerCount := Z.of_nat (size (as_viewers value));
     st_Renditions := as_renditions value;
     st_StartedAtMS := UnixMilli (as_startedAt value) |}.

(** Reading a field through a pointer; a dangling reference panics. *)
Definition load (r : StreamRef) : M streamState activeStream :=
  s ← get_state;
  match sst_heap s !! r with
  | Some v => mret v
  | None => panic
  end.

Definition store (r : StreamRef) (v : activeStream) : M streamState unit :=
  modify (fun s => s <| sst_heap ::= <[r := v]> |>).

Definition stream_room (channelID : Z) (s : streamState) : gmap ClientRef StreamRef :=
  default ∅ (sst_byChannel s !! channelID).

(** ** Operations *)

Definition stream_start (client : ClientRef) (multiple : bool)
    (participant : VoiceParticipantData) (mode : StreamMode) (codec : StreamCodec)
    (hasAudio : bool) (renditions : list StreamRenditionData) (now : Z)
    : M streamState (StreamData + StreamError) :=
  s ← get_state;
  let room := stream_room (vp_ChannelID participant) s in
  if bool_decide (is_Some (sst_byClient s !! client)) then mret (inr ErrStreamAlreadyActive)
  else if negb multiple && (0 <? size room) then mret (inr ErrStreamAlreadyActive)
  else if MaxChannelPublishers <=? size room then mret (inr ErrStreamPublisherLimit)
  else
    let value := {|
      as_serverID := vp_ServerID participant;
      as_channelID := vp_ChannelID participant;
      as_mode := mode; as_codec := codec; as_hasAudio := hasAudio;
      as_renditions := renditions; as_publisher := client; as_viewers := ∅;
      as_startedAt := now |} in
    let r := sst_alloc s in
    modify (fun s => s <| sst_alloc ::= Pos.succ |>) ;;
    store r value ;;
    modify (fun s => s <| sst_byChannel ::=
      <[as_channelID value := <[client := r]> (stream_room (as_channelID value) s)]> |>) ;;
    modify (fun s => s <| sst_nextGeneration ::= u64_succ |>) ;;
    modify (fun s => s <| sst_byClient ::=
      <[client := mkStreamClientState (sst_nextGeneration s) r true ""]> |>) ;;
    mret (inl (streamData value)).

(** The comparison that picks the stream to watch. *)
Definition starts_before (candidate value : activeStream) : bool :=
  let cid := fun v => id_ConnectionID (ident (as_publisher v)) in
  (UnixMilli (as_startedAt candidate) <? UnixMilli (as_startedAt value))%Z ||
  (UnixMilli (as_startedAt candidate) =? UnixMilli (as_startedAt value))%Z &&
    String.ltb (cid candidate) (cid value).

(** One iteration of the selection loop of [watch]. *)
Definition pick_stream (publisherConnectionID : string)
    (value : option (StreamRef * activeStream)) (r : StreamRef)
    : M streamState (option (StreamRef * activeStream)) :=
  candidate ← load r;
  if negb (String.eqb publisherConnectionID "") &&
     negb (String.eqb (id_ConnectionID (ident (as_publisher candidate))) publisherConnectionID)
  then mret value
  else
    match value with
    | None => mret (Some (r, candidate))
    | Some (_, v) => mret (if starts_before candidate v then Some (r, candidate) else value)
    end.

Definition stream_watch (client : ClientRef) (participant : VoiceParticipantData)
    (maxServerViewers maxP2PViewers : Z) (supportedDynamicRanges : list StreamDynamicRange)
    (codecProfiles : list StreamCodecProfileData) (publisherConnectionID : string)
    : M streamState ((StreamData * ClientRef * string) + StreamError) :=
  s ← get_state;
  value ← fold_each (range_values (stream_room (vp_ChannelID participant) s)) None
            (pick_stream publisherConnectionID);
  match value with
  | None => mret (inr ErrStreamUnavailable)
  | Some (r, v) =>
      if bool_decide (as_publisher v = client) ||
         negb (as_serverID v =? vp_ServerID participant)%Z ||
         bool_decide (is_Some (sst_byClient s !! client))
      then mret (inr ErrStreamUnavailable)
      else
        let maximum := if String.eqb (as_mode v) StreamModeP2P
                       then maxP2PViewers else maxServerViewers in
        if (maximum <=? Z.of_nat (size (as_viewers v)))%Z then mret (inr ErrStreamViewerLimit)
        else
          let selected := selectStreamRendition (as_renditions v)
                            supportedDynamicRanges codecProfiles in
          if String.eqb selected "" then mret (inr ErrStreamRenditionUnavailable)
          else
            let v := v <| as_viewers ::= union {[client]} |> in
            store r v ;;
            modify (fun s => s <| sst_nextGeneration ::= u64_succ |>) ;;
            modify (fun s => s <| sst_byClient ::=
              <[client := mkStreamClientState (sst_nextGeneration s) r false selected]> |>) ;;
            mret (inl (streamData v, as_publisher v, selected))
  end.

(** [leave]: [Some (value, publisher)] where [exists] is true. *)
Definition stream_leave (client : ClientRef) : M streamState (option (StreamRef * bool)) :=
  s ← get_state;
  match sst_byClient s !! client with
  | None => mret None
  | Some state =>
      let r := sk_stream state in
      value ← load r;
      if sk_publisher state then
        modify (fun s =>
          let room := delete (as_publisher value) (stream_room (as_channelID value) s) in
          if decide (room = ∅)
          then s <| sst_byChannel ::= delete (as_channelID value) |>
          else s <| sst_byChannel ::= <[as_channelID value := room]> |>) ;;
        modify (fun s => s <| sst_byClient ::= delete (as_publisher value) |>) ;;
        for_each (range_set (as_viewers value)) (fun viewer =>
          modify (fun s => s <| sst_byClient ::= delete viewer |>)) ;;
        mret (Some (r, true))
      else
        store r (value <| as_viewers ::= (.∖ {[client]}) |>) ;;
        modify (fun s => s <| sst_byClient ::= delete client |>) ;;
        mret (Some (r, false))
  end.

(** [relationship]: the target ([ok] when present) and whether the sender
    publishes. A stream reference of the index is never dangling (StreamFacts),
    so the missing-object branches of the read-only methods are not reached. *)
Definition stream_relationship (from : ClientRef) (targetConnectionID : string)
    (s : streamState) : option ClientRef * bool :=
  match sst_byClient s !! from with
  | None => (None, false)
  | Some fromState =>
      match sst_heap s !! sk_stream fromState with
      | None => (None, false)
      | Some value =>
          if negb (String.eqb (as_mode value) StreamModeP2P) then (None, false)
          else if sk_publisher fromState then
            (List.find (fun v => String.eqb (id_ConnectionID (ident v)) targetConnectionID)
               (range_set (as_viewers value)), true)
          else if String.eqb (id_ConnectionID (ident (as_publisher value))) targetConnectionID
          then (Some (as_publisher value), false)
          else (None, false)
      end
  end.

Definition compare_streams (a b : StreamData) : comparison :=
  lex (Z.compare (st_ServerID a) (st_ServerID b))
    (lex (Z.compare (st_ChannelID a) (st_ChannelID b))
      (lex (Z.compare (st_StartedAtMS a) (st_StartedAtMS b))
        (String.compare (st_PublisherConnectionID a) (st_PublisherConnectionID b)))).

Definition stream_le (a b : StreamData) : Prop := compare_streams a b ≠ Gt.
#[global] Instance stream_le_dec : RelDecision stream_le.
Proof. intros a b. unfold stream_le. solve_decision. Defined.

Definition stream_snapshotForServers (serverIDs : list Z) (s : streamState) : list StreamData :=
  let live := rooms ← range_values (sst_byChannel s); range_values rooms in
  merge_sort stream_le
    (streamData <$> filter (fun v => as_serverID v ∈ serverIDs)
       (omap (fun r => sst_heap s !! r) live)).

(** [data(value)]: the object is read when the event is built. *)
Definition stream_data (r : StreamRef) (s : streamState) : option StreamData :=
  streamData <$> sst_heap s !! r.

Definition recoveryViewer (client : ClientRef) (serverID channelID : Z) (s : streamState)
    : option StreamRef :=
  match sst_byClient s !! client with
  | None => None
  | Some state =>
      if sk_publisher state then None
      else
        match sst_heap s !! sk_stream state with
        | None => None
        | Some value =>
            if negb (String.eqb (as_mode value) StreamModeServer) ||
               negb (as_serverID value =? serverID)%Z ||
               negb (as_channelID value =? channelID)%Z
            then None else Some (sk_stream state)
        end
  end.

Definition isPublisher (client : ClientRef) (s : streamState) : bool :=
  match sst_byClient s !! client with Some state => sk_publisher state | None => false end.

Definition publishersForChannel (channelID : Z) (s : streamState) : list ClientRef :=
  range_keys (stream_room channelID s).
End model.
