(* ===== verification/StreamFacts.v ===== *)
(** * Screen streams: coherence, limits, selection

    The publisher and viewer indexes always describe the same live streams, the
    per-channel and per-stream limits hold in every reachable state, a viewer is
    attached to the oldest matching stream whatever the map order, and every
    accepted set of renditions contains one that any viewer can play. *)

From S2P Require Import Prelude StreamContract Events VoiceState StreamState.

(** ** Choosing a rendition *)

(** The rendition sets that [StartStreamWithRenditions] stores. *)
Definition accepted_renditions (rs : list StreamRenditionData) : Prop :=
  rendition_policy (to_contract <$> rs).

(** [r] can be played by a viewer with these capabilities. *)
Definition playable (ranges : list StreamDynamicRange) (profiles : list StreamCodecProfileData)
    (r : StreamRenditionData) : Prop :=
  sd_DynamicRange r = StreamDynamicRangeSDR ∨
  (sd_DynamicRange r ∈ ranges ∧
   (sd_DynamicRange r = StreamDynamicRangeHDR10 ∨ sd_DynamicRange r = StreamDynamicRangeHLG) ∧
   ∃ p, p ∈ profiles ∧ sc_Codec p = sd_Codec r ∧ sc_Profile p = sd_Profile r).

Lemma hdr_match_spec ranges profiles r :
  hdr_match ranges profiles r = true ↔
  sd_DynamicRange r ≠ StreamDynamicRangeSDR ∧ playable ranges profiles r.
Proof.
  unfold hdr_match, playable, supported_ranges.
  rewrite !andb_true_iff, negb_true_iff, String.eqb_neq, bool_decide_eq_true,
    list_elem_of_filter, existsb_exists.
  setoid_rewrite andb_true_iff. setoid_rewrite String.eqb_eq.
  setoid_rewrite <- list_elem_of_In. naive_solver.
Qed.

Lemma sdr_match_spec r : sdr_match r = true ↔ sd_DynamicRange r = StreamDynamicRangeSDR.
Proof. apply String.eqb_eq. Qed.

Lemma find_first {A} (f : A → bool) l :
  match List.find f l with
  | Some x => x ∈ l ∧ f x = true
  | None => ∀ x, x ∈ l → f x = false
  end.
Proof.
  destruct (List.find f l) as [x|] eqn:Hf.
  - apply List.find_some in Hf as [Hin Hx]. by rewrite list_elem_of_In.
  - intros x Hx. eapply List.find_none; [done|]. by apply list_elem_of_In.
Qed.

(** The selected identifier names a playable rendition, which is HDR whenever
    some playable one is; nothing is selected only when nothing is playable. *)
Lemma selectStreamRendition_spec values ranges profiles :
  (∃ r, r ∈ values ∧ playable ranges profiles r ∧
     selectStreamRendition values ranges profiles = sd_ID r ∧
     (sd_DynamicRange r = StreamDynamicRangeSDR →
        ∀ r', r' ∈ values → playable ranges profiles r' →
          sd_DynamicRange r' = StreamDynamicRangeSDR)) ∨
  (selectStreamRendition values ranges profiles = "" ∧
     ∀ r, r ∈ values → ¬ playable ranges profiles r).
Proof.
  unfold selectStreamRendition.
  pose proof (find_first (hdr_match ranges profiles) values) as Hh.
  destruct (List.find _ values) as [r|] eqn:Hf.
  - destruct Hh as [Hin [Hne Hp]%hdr_match_spec]. left. exists r. naive_solver.
  - clear Hf. pose proof (find_first sdr_match values) as Hs.
    assert (∀ r', r' ∈ values → playable ranges profiles r' →
      sd_DynamicRange r' = StreamDynamicRangeSDR) as Honly.
    { intros r' Hr' Hp. destruct (decide (sd_DynamicRange r' = StreamDynamicRangeSDR)); [done|].
      assert (hdr_match ranges profiles r' = true) as Ht by (by apply hdr_match_spec).
      by rewrite Hh in Ht. }
    destruct (List.find sdr_match values) as [r|] eqn:Hf; clear Hf.
    + destruct Hs as [Hin Hsd%sdr_match_spec]. left. exists r. split_and!; try done. by left.
    + right. split; [done|]. intros r Hr Hp.
      assert (sdr_match r = true) as Ht by (apply sdr_match_spec; auto).
      by rewrite Hs in Ht.
Qed.

Lemma legacy_accepted codec :
  validStreamCodec codec = true → accepted_renditions [legacySDRStreamRendition codec].
Proof.
  unfold accepted_renditions. rewrite <- ValidRenditions_policy.
  unfold validStreamCodec. rewrite !orb_true_iff, !String.eqb_eq.
  by intros [[[->| ->]| ->]| ->].
Qed.

Lemma normalize_accepted codec values rs :
  validStreamCodec codec = true → normalizeStreamRenditions codec values = Some rs →
  accepted_renditions rs.
Proof.
  unfold normalizeStreamRenditions. intros Hc. repeat case_match; intros [= <-].
  - by apply legacy_accepted.
  - apply ValidRenditions_policy. by apply negb_false_iff.
Qed.

(** An accepted set always offers a rendition with a usable identifier. *)
Lemma accepted_selects rs ranges profiles :
  accepted_renditions rs →
  ∃ r, r ∈ rs ∧ playable ranges profiles r ∧ sd_ID r ≠ "" ∧
    selectStreamRendition rs ranges profiles = sd_ID r.
Proof.
  intros (_&_&_&Hall&Hex).
  destruct (selectStreamRendition_spec rs ranges profiles)
    as [(r&Hin&Hp&Hsel&_)|[_ Hnone]].
  - exists r. split_and!; try done. rewrite Forall_forall in Hall.
    destruct (Hall (to_contract r)) as [[Hlen _] _]; [by apply list_elem_of_fmap_2|].
    simpl in Hlen. intros Heq. rewrite Heq in Hlen. simpl in Hlen. lia.
  - exfalso. apply Exists_exists in Hex as (x&Hx&Hsdr&_).
    apply list_elem_of_fmap in Hx as (r&->&Hr). apply (Hnone r Hr). by left.
Qed.

Section facts.
Context `{MapOrder} (ident : ClientRef → ClientIdent).
Implicit Types (s : streamState) (c : ClientRef) (r : StreamRef) (v : activeStream).

(** ** The order of age *)

Definition conn_of (v : activeStream) : string := id_ConnectionID (ident (as_publisher v)).

(** Older by start time in milliseconds, then by publisher connection. *)
Definition older (v w : activeStream) : Prop :=
  (UnixMilli (as_startedAt v) < UnixMilli (as_startedAt w))%Z ∨
  UnixMilli (as_startedAt v) = UnixMilli (as_startedAt w) ∧ String.le (conn_of v) (conn_of w).

Lemma starts_before_older v w : starts_before ident v w = false ↔ older w v.
Proof.
  unfold starts_before, older. fold (conn_of v) (conn_of w).
  rewrite orb_false_iff, andb_false_iff, Z.ltb_ge, Z.eqb_neq, string_ltb_le. split.
  - intros [Hle [Hne|Hs]]; [left; lia|]. apply Z.le_lteq in Hle as [?|?]; auto.
  - intros [?|[? ?]]; [split; [lia|left; lia]|split; [lia|by right]].
Qed.

Lemma older_refl v : older v v.
Proof. right. split; reflexivity. Qed.

Lemma older_trans u v w : older u v → older v w → older u w.
Proof.
  unfold older. intros [?|[? ?]] [?|[? ?]]; [left; lia..|right]. split; [lia|]. by etrans.
Qed.

Lemma older_antisym v w : older v w → older w v → conn_of v = conn_of w.
Proof. unfold older. intros [?|[? ?]] [?|[? ?]]; try lia. by apply (anti_symm String.le). Qed.

Lemma starts_before_true v w : starts_before ident v w = true → older v w.
Proof.
  intros Hb. destruct (starts_before ident w v) eqn:Hw; [|by apply starts_before_older].
  unfold starts_before in Hb, Hw. fold (conn_of v) (conn_of w) in *.
  apply orb_true_iff in Hb as [Hb%Z.ltb_lt|[Hb%Z.eqb_eq Hl]%andb_true_iff]; [by left|].
  right. split; [done|]. destruct (total String.le (conn_of v) (conn_of w)) as [?|Hle]; [done|].
  apply string_ltb_le in Hle. congruence.
Qed.

(** ** The selection loop of [watch] *)

Definition matches (cid : string) (v : activeStream) : Prop := cid = "" ∨ conn_of v = cid.

(** [best cid l s res]: [res] is the oldest matching stream among [l]. *)
Definition best (cid : string) (l : list StreamRef) (s : streamState)
    (res : option (StreamRef * activeStream)) : Prop :=
  match res with
  | None => ∀ r v, r ∈ l → sst_heap s !! r = Some v → ¬ matches cid v
  | Some (r, v) => r ∈ l ∧ sst_heap s !! r = Some v ∧ matches cid v ∧
      ∀ r' v', r' ∈ l → sst_heap s !! r' = Some v' → matches cid v' → older v v'
  end.

Lemma pick_stream_spec cid res pre r v s :
  sst_heap s !! r = Some v → best cid pre s res →
  wp (pick_stream ident cid res r) (fun res' s' => s' = s ∧ best cid (pre ++ [r]) s res') s.
Proof.
  intros Hr Hbest. unfold pick_stream, load. wp_step. wp_step. wp_step.
  rewrite Hr. wp_step. fold (conn_of v).
  destruct (negb (String.eqb cid "") && negb (String.eqb (conn_of v) cid)) eqn:Hm.
  - assert (¬ matches cid v) as Hno.
    { apply andb_true_iff in Hm as [?%negb_true_iff%String.eqb_neq ?%negb_true_iff%String.eqb_neq].
      by intros [?|?]. }
    wp_step. split; [done|]. destruct res as [[r0 v0]|]; simpl in *; set_solver.
  - assert (matches cid v) as Hyes.
    { unfold matches. apply andb_false_iff in Hm as [?%negb_false_iff%String.eqb_eq|
        ?%negb_false_iff%String.eqb_eq]; auto. }
    destruct res as [[r0 v0]|]; wp_step; (split; [done|]); simpl in *.
    + destruct Hbest as (Hin&Hv0&Hm0&Hold). destruct (starts_before ident v v0) eqn:Hb; simpl.
      * apply starts_before_true in Hb. split_and!; [set_solver|done|done|].
        intros r' v' [Hr'| ->%list_elem_of_singleton]%elem_of_app Hv' Hm'.
        -- eapply older_trans; [done|]. by eapply Hold.
        -- simplify_eq. apply older_refl.
      * apply starts_before_older in Hb. split_and!; [set_solver|done|done|].
        intros r' v' [Hr'| ->%list_elem_of_singleton]%elem_of_app Hv' Hm'; [by eapply Hold|].
        by simplify_eq.
    + split_and!; [set_solver|done|done|].
      intros r' v' [Hr'| ->%list_elem_of_singleton]%elem_of_app Hv' Hm'; [naive_solver|].
      simplify_eq. apply older_refl.
Qed.

Lemma pick_loop_spec cid l s :
  (∀ r, r ∈ l → is_Some (sst_heap s !! r)) →
  wp (fold_each l None (pick_stream ident cid)) (fun res s' => s' = s ∧ best cid l s res) s.
Proof.
  intros Hl. eapply wp_mono.
  { apply (wp_fold_each l None (pick_stream ident cid)
      (fun pre res s' => s' = s ∧ best cid pre s res)).
    - split; [done|]. intros r v Hr. by apply not_elem_of_nil in Hr.
    - intros pre r rest res s' -> [-> Hb]. destruct (Hl r) as [v Hv]; [set_solver|].
      by eapply pick_stream_spec. }
  naive_solver.
Qed.

(** ** Coherence *)

Record stream_inv (s : streamState) : Prop := {
  si_alloc : ∀ r v, sst_heap s !! r = Some v → (r < sst_alloc s)%positive;
  si_live : ∀ ch c r, stream_room ch s !! c = Some r →
    ∃ v st, sst_heap s !! r = Some v ∧ as_channelID v = ch ∧ as_publisher v = c ∧
      sst_byClient s !! c = Some st ∧ sk_stream st = r ∧ sk_publisher st = true;
  si_client : ∀ c st, sst_byClient s !! c = Some st →
    ∃ v, sst_heap s !! sk_stream st = Some v ∧
      stream_room (as_channelID v) s !! as_publisher v = Some (sk_stream st) ∧
      (if sk_publisher st then as_publisher v = c else c ∈ as_viewers v);
  si_viewer : ∀ ch c r v w, stream_room ch s !! c = Some r → sst_heap s !! r = Some v →
    w ∈ as_viewers v →
    ∃ st, sst_byClient s !! w = Some st ∧ sk_stream st = r ∧ sk_publisher st = false;
  si_tight : ∀ ch, sst_byChannel s !! ch ≠ Some ∅;
  si_room : ∀ ch, size (stream_room ch s) ≤ MaxChannelPublishers
}.

Lemma stream_inv_new : stream_inv newStreamState.
Proof.
  assert (∀ ch, stream_room ch newStreamState = ∅) as Hroom.
  { intros ch. unfold stream_room. simpl. by rewrite lookup_empty. }
  split; simpl.
  - intros r v. by rewrite lookup_empty.
  - intros ch c r. by rewrite Hroom, lookup_empty.
  - intros c st. by rewrite lookup_empty.
  - intros ch c r v w. by rewrite Hroom, lookup_empty.
  - intros ch. by rewrite lookup_empty.
  - intros ch. rewrite Hroom, map_size_empty. lia.
Qed.

(** Two live streams in different places are different objects. *)
Lemma live_ref_unique s ch1 c1 ch2 c2 r :
  stream_inv s → stream_room ch1 s !! c1 = Some r → stream_room ch2 s !! c2 = Some r →
  ch1 = ch2 ∧ c1 = c2.
Proof.
  intros Hi H1 H2. destruct (si_live _ Hi _ _ _ H1) as (v1&?&?&?&?&_).
  destruct (si_live _ Hi _ _ _ H2) as (v2&?&?&?&?&_). by simplify_eq.
Qed.

(** A publisher is not a viewer of anything, its own stream included. *)
Lemma live_publisher_not_viewer s ch c r v :
  stream_inv s → stream_room ch s !! c = Some r → sst_heap s !! r = Some v →
  c ∉ as_viewers v.
Proof.
  intros Hi Hr Hv Hin. destruct (si_live _ Hi _ _ _ Hr) as (?&st&?&_&_&Hst&_&Hp).
  destruct (si_viewer _ Hi _ _ _ _ _ Hr Hv Hin) as (st'&Hst'&_&Hp'). simplify_eq. congruence.
Qed.

(** ** [start] *)

Definition started (c : ClientRef) (v : activeStream) (s : streamState) : streamState :=
  mkStreamState (u64_succ (sst_nextGeneration s)) (<[sst_alloc s := v]> (sst_heap s))
    (Pos.succ (sst_alloc s))
    (<[as_channelID v := <[c := sst_alloc s]> (stream_room (as_channelID v) s)]> (sst_byChannel s))
    (<[c := mkStreamClientState (u64_succ (sst_nextGeneration s)) (sst_alloc s) true ""]>
       (sst_byClient s)).

Lemma stream_start_run c multiple p mode codec audio rs now s :
  let v := mkActiveStream (vp_ServerID p) (vp_ChannelID p) mode codec audio rs c ∅ now in
  let room := stream_room (vp_ChannelID p) s in
  stream_start ident c multiple p mode codec audio rs now s =
  if decide (is_Some (sst_byClient s !! c)) then Ok (inr ErrStreamAlreadyActive, s)
  else if decide (multiple = false ∧ room ≠ ∅) then Ok (inr ErrStreamAlreadyActive, s)
  else if decide (MaxChannelPublishers ≤ size room) then Ok (inr ErrStreamPublisherLimit, s)
  else Ok (inl (streamData ident v), started c v s).
Proof.
  intros v room. unfold stream_start. rewrite (bind_run get_state _ s s s) by done.
  fold room. rewrite bool_decide_decide. destruct (decide (is_Some _)); [done|].
  assert (negb multiple && (0 <? size room) = bool_decide (multiple = false ∧ room ≠ ∅)) as ->.
  { apply eq_true_iff_eq. rewrite bool_decide_eq_true, andb_true_iff, negb_true_iff, Nat.ltb_lt.
    rewrite <- map_size_non_empty_iff. by rewrite Nat.neq_0_lt_0. }
  rewrite bool_decide_decide. destruct (decide (multiple = false ∧ room ≠ ∅)); [done|].
  destruct (Nat.leb_spec MaxChannelPublishers (size room)).
  - by rewrite decide_True.
  - rewrite decide_False by lia. done.
Qed.

Lemma started_room c v s ch :
  stream_room ch (started c v s) =
  if decide (ch = as_channelID v) then <[c := sst_alloc s]> (stream_room ch s)
  else stream_room ch s.
Proof.
  unfold stream_room, started. simpl. rewrite lookup_insert.
  repeat case_decide; by simplify_eq/=.
Qed.

Lemma started_inv c v s :
  stream_inv s → sst_byClient s !! c = None → as_publisher v = c → as_viewers v = ∅ →
  size (stream_room (as_channelID v) s) < MaxChannelPublishers →
  stream_inv (started c v s).
Proof.
  intros Hi Hc Hp Hview Hsz.
  assert (sst_heap s !! sst_alloc s = None) as Hfresh.
  { destruct (sst_heap s !! sst_alloc s) eqn:E; [|done]. apply (si_alloc _ Hi) in E. lia. }
  assert (∀ ch c' r, stream_room ch s !! c' = Some r → r ≠ sst_alloc s) as Hold.
  { intros ch c' r Hr ->. destruct (si_live _ Hi _ _ _ Hr) as (?&?&?&_). congruence. }
  split.
  - intros r w. simpl. rewrite lookup_insert. case_decide; [lia|].
    intros Hw%(si_alloc _ Hi). lia.
  - intros ch c' r. rewrite started_room. simpl. intros Hr.
    assert (r = sst_alloc s ∧ c' = c ∧ ch = as_channelID v ∨
      stream_room ch s !! c' = Some r) as [(->&->&->)|Hr'].
    { case_decide; [|by right]. rewrite lookup_insert in Hr. case_decide; [left|by right].
      naive_solver. }
    + rewrite !lookup_insert_eq. eauto 10.
    + destruct (si_live _ Hi _ _ _ Hr') as (w&st&Hw&Hch&Hpub&Hst&Hrest).
      exists w, st. rewrite lookup_insert_ne by (intros <-; by eapply Hold).
      rewrite lookup_insert_ne by (intros <-; congruence). eauto 10.
  - intros c' st. simpl. rewrite lookup_insert. case_decide.
    + intros [= <-]. simpl. exists v. rewrite lookup_insert_eq, started_room, decide_True by done.
      rewrite Hp, lookup_insert_eq. naive_solver.
    + intros Hst. destruct (si_client _ Hi _ _ Hst) as (w&Hw&Hroom&Hcase). exists w.
      rewrite lookup_insert_ne by (intros Heq; rewrite Heq in Hfresh; congruence).
      split_and!; [done| |done]. rewrite started_room. case_decide; [|done].
      rewrite lookup_insert_ne; [done|]. intros Heq.
      destruct (si_live _ Hi _ _ _ Hroom) as (?&?&_&_&_&?&_). congruence.
  - intros ch c' r w x. rewrite started_room. simpl. intros Hr Hw Hx.
    assert (r = sst_alloc s ∨ stream_room ch s !! c' = Some r) as [->|Hr'].
    { case_decide; [|by right]. rewrite lookup_insert in Hr. case_decide; [left|by right].
      naive_solver. }
    + rewrite lookup_insert_eq in Hw. simplify_eq. by rewrite Hview in Hx.
    + rewrite lookup_insert_ne in Hw by (intros <-; by eapply Hold).
      destruct (si_viewer _ Hi _ _ _ _ _ Hr' Hw Hx) as (st&Hst&?). exists st.
      rewrite lookup_insert_ne; [done|]. intros <-. congruence.
  - intros ch. simpl. rewrite lookup_insert. case_decide; [|apply (si_tight _ Hi)].
    intros [= He]. by apply insert_non_empty in He.
  - intros ch. rewrite started_room. case_decide; [|apply (si_room _ Hi)]. subst ch.
    destruct (stream_room (as_channelID v) s !! c) eqn:E.
    + rewrite map_size_insert_Some by eauto. lia.
    + rewrite map_size_insert_None by done. lia.
Qed.

(** ** [watch] *)

Definition with_viewer (c : ClientRef) (v : activeStream) : activeStream :=
  v <| as_viewers ::= union {[c]} |>.

Definition watching (c : ClientRef) (r : StreamRef) (v : activeStream) (sel : string)
    (s : streamState) : streamState :=
  mkStreamState (u64_succ (sst_nextGeneration s)) (<[r := with_viewer c v]> (sst_heap s))
    (sst_alloc s) (sst_byChannel s)
    (<[c := mkStreamClientState (u64_succ (sst_nextGeneration s)) r false sel]> (sst_byClient s)).

Definition viewer_limit (maxServer maxP2P : Z) (v : activeStream) : Z :=
  if String.eqb (as_mode v) StreamModeP2P then maxP2P else maxServer.

(** The outcome of [watch] once the loop has picked [res]. *)
Definition watch_outcome (c : ClientRef) (srv maxServer maxP2P : Z)
    (ranges : list StreamDynamicRange) (profiles : list StreamCodecProfileData)
    (res : option (StreamRef * activeStream)) (s : streamState)
    : ((StreamData * ClientRef * string) + StreamError) * streamState :=
  match res with
  | None => (inr ErrStreamUnavailable, s)
  | Some (r, v) =>
      let sel := selectStreamRendition (as_renditions v) ranges profiles in
      if decide (as_publisher v = c ∨ as_serverID v ≠ srv ∨ is_Some (sst_byClient s !! c))
      then (inr ErrStreamUnavailable, s)
      else if decide (viewer_limit maxServer maxP2P v <= Z.of_nat (size (as_viewers v)))%Z
      then (inr ErrStreamViewerLimit, s)
      else if decide (sel = "") then (inr ErrStreamRenditionUnavailable, s)
      else (inl (streamData ident (with_viewer c v), as_publisher v, sel), watching c r v sel s)
  end.

Lemma room_refs_allocated s ch r :
  stream_inv s → r ∈ range_values (stream_room ch s) → is_Some (sst_heap s !! r).
Proof.
  intros Hi [c Hc]%elem_of_range_values. destruct (si_live _ Hi _ _ _ Hc) as (v&?&?&_). eauto.
Qed.

Lemma stream_watch_run c p maxServer maxP2P ranges profiles cid s :
  stream_inv s →
  ∃ res, best cid (range_values (stream_room (vp_ChannelID p) s)) s res ∧
    stream_watch ident c p maxServer maxP2P ranges profiles cid s =
    Ok (watch_outcome c (vp_ServerID p) maxServer maxP2P ranges profiles res s).
Proof.
  intros Hi. set (l := range_values (stream_room (vp_ChannelID p) s)).
  destruct (proj1 (wp_run _ _ _) (pick_loop_spec cid l s
    (fun r Hr => room_refs_allocated s _ r Hi Hr))) as (res&s'&Hrun&->&Hbest).
  exists res. split; [done|]. unfold stream_watch.
  rewrite (bind_run get_state _ s s s) by done. fold l.
  rewrite (bind_run _ _ _ _ _ Hrun). destruct res as [[r v]|]; [|done]. unfold watch_outcome.
  assert (bool_decide (as_publisher v = c) || negb (as_serverID v =? vp_ServerID p)%Z ||
    bool_decide (is_Some (sst_byClient s !! c)) =
    bool_decide (as_publisher v = c ∨ as_serverID v ≠ vp_ServerID p ∨
      is_Some (sst_byClient s !! c))) as ->.
  { apply eq_true_iff_eq. rewrite !orb_true_iff, !bool_decide_eq_true, negb_true_iff, Z.eqb_neq.
    tauto. }
  rewrite bool_decide_decide. destruct (decide (_ ∨ _)); [done|].
  fold (viewer_limit maxServer maxP2P v).
  destruct (Z.leb_spec (viewer_limit maxServer maxP2P v) (Z.of_nat (size (as_viewers v)))).
  - by rewrite decide_True.
  - rewrite decide_False by lia.
    destruct (String.eqb_spec (selectStreamRendition (as_renditions v) ranges profiles) "").
    + by rewrite decide_True.
    + by rewrite decide_False.
Qed.

Lemma watching_inv c r v sel s ch :
  stream_inv s → sst_byClient s !! c = None → r ∈ range_values (stream_room ch s) →
  sst_heap s !! r = Some v → stream_inv (watching c r v sel s).
Proof.
  intros Hi Hc Hr Hv. apply elem_of_range_values in Hr as [pub Hpub].
  assert (∀ ch, stream_room ch (watching c r v sel s) = stream_room ch s) as Hroom by done.
  destruct (si_live _ Hi _ _ _ Hpub) as (v'&stp&Hv'&Hvch&Hvp&Hstp&_). simplify_eq.
  split; simpl.
  - intros r' w. rewrite lookup_insert. case_decide; [subst; by intros _; eapply si_alloc|].
    apply (si_alloc _ Hi).
  - intros ch' c' r' Hr'. rewrite Hroom in Hr'.
    destruct (si_live _ Hi _ _ _ Hr') as (w&st&Hw&?&?&Hst&?).
    rewrite lookup_insert. rewrite (lookup_insert_ne _ c c') by (intros <-; congruence).
    case_decide; [subst r'; simplify_eq|]; eauto 10.
  - intros c' st. rewrite lookup_insert. case_decide as Hcc.
    + intros [= <-]. subst c'. simpl. exists (with_viewer c v). rewrite lookup_insert_eq.
      split_and!; [done|done|]. unfold with_viewer. simpl. set_solver.
    + intros Hst. destruct (si_client _ Hi _ _ Hst) as (w&Hw&Hrm&Hcase).
      rewrite lookup_insert. case_decide as Hrr; [|by eauto].
      subst r. rewrite Hw in Hv. simplify_eq. exists (with_viewer c v).
      split_and!; [done|done|]. unfold with_viewer. simpl. case_match; set_solver.
  - intros ch' c' r' w x Hr' Hw Hx. rewrite Hroom in Hr'.
    destruct (decide (x = c)) as [->|Hxc].
    + rewrite lookup_insert_eq. rewrite lookup_insert in Hw. case_decide; [by eauto|].
      destruct (si_viewer _ Hi _ _ _ _ _ Hr' Hw Hx) as (st&?&_). congruence.
    + rewrite lookup_insert_ne by done. rewrite lookup_insert in Hw. case_decide.
      * subst r'. simplify_eq. eapply si_viewer; [done|done|exact Hv|].
        unfold with_viewer in Hx. simpl in Hx. set_solver.
      * by eapply si_viewer.
  - apply (si_tight _ Hi).
  - intros ch'. rewrite Hroom. apply (si_room _ Hi).
Qed.

(** ** [leave] *)

Definition drop_room (ch : Z) (c : ClientRef) (m : gmap Z (gmap ClientRef StreamRef))
    : gmap Z (gmap ClientRef StreamRef) :=
  let room := delete c (default ∅ (m !! ch)) in
  if decide (room = ∅) then delete ch m else <[ch := room]> m.

Lemma drop_room_lookup ch c m ch' :
  default ∅ (drop_room ch c m !! ch') =
  if decide (ch' = ch) then delete c (default ∅ (m !! ch)) else default ∅ (m !! ch').
Proof.
  unfold drop_room. case_decide as He; rewrite ?lookup_delete, ?lookup_insert;
    repeat case_decide; by simplify_eq/=.
Qed.

Lemma drop_room_tight ch c m :
  (∀ ch', m !! ch' ≠ Some ∅) → ∀ ch', drop_room ch c m !! ch' ≠ Some ∅.
Proof.
  intros Ht ch'. unfold drop_room. case_decide; rewrite ?lookup_delete, ?lookup_insert;
    case_decide; try done. congruence.
Qed.

(** The publisher [c] of [v] stops: the stream is unlinked and its viewers
    are released; the object itself stays as the callers left it. *)
Definition stopped (c : ClientRef) (v : activeStream) (s : streamState) : streamState :=
  mkStreamState (sst_nextGeneration s) (sst_heap s) (sst_alloc s)
    (drop_room (as_channelID v) c (sst_byChannel s))
    (filter (fun e => e.1 ≠ c ∧ e.1 ∉ as_viewers v) (sst_byClient s)).

Definition unwatched (c : ClientRef) (r : StreamRef) (v : activeStream) (s : streamState)
    : streamState :=
  mkStreamState (sst_nextGeneration s)
    (<[r := v <| as_viewers ::= (.∖ {[c]}) |>]> (sst_heap s)) (sst_alloc s) (sst_byChannel s)
    (delete c (sst_byClient s)).

Lemma release_viewers l s :
  for_each l (fun viewer => modify (fun s => s <| sst_byClient ::= delete viewer |>)) s =
  Ok (tt, s <| sst_byClient ::= filter (fun e => e.1 ∉ l) |>).
Proof.
  revert s. induction l as [|x l IH]; intros s.
  - simpl. unfold mret, M_ret. do 2 f_equal. destruct s as [? ? ? ? m]. unfold update_with. simpl.
    f_equal. symmetry. apply map_filter_id. intros; apply not_elem_of_nil.
  - change ((modify (fun s => s <| sst_byClient ::= delete x |>) ≫= (fun _ =>
      for_each l (fun viewer => modify (fun s => s <| sst_byClient ::= delete viewer |>)))) s =
      Ok (tt, s <| sst_byClient ::= filter (fun e => e.1 ∉ x :: l) |>)).
    rewrite (bind_run _ _ s tt (s <| sst_byClient ::= delete x |>)) by done. rewrite IH.
    do 2 f_equal. destruct s as [? ? ? ? m]. unfold update_with. simpl. f_equal.
    apply map_eq. intros k. apply option_eq. intros st.
    rewrite !map_lookup_filter_Some, lookup_delete_Some, not_elem_of_cons. simpl. naive_solver.
Qed.

Lemma stream_leave_run c s :
  stream_inv s →
  stream_leave c s =
  match sst_byClient s !! c with
  | None => Ok (None, s)
  | Some st =>
      match sst_heap s !! sk_stream st with
      | None => Panic
      | Some v => if sk_publisher st then Ok (Some (sk_stream st, true), stopped c v s)
                  else Ok (Some (sk_stream st, false), unwatched c (sk_stream st) v s)
      end
  end.
Proof.
  intros Hi. unfold stream_leave. rewrite (bind_run get_state _ s s s) by done.
  destruct (sst_byClient s !! c) as [st|] eqn:Hst; [|done].
  destruct (si_client _ Hi _ _ Hst) as (v&Hv&Hroom&Hcase). rewrite Hv.
  rewrite (bind_run (load (sk_stream st)) _ s v s).
  2:{ unfold load. rewrite (bind_run get_state _ s s s) by done. by rewrite Hv. }
  destruct (sk_publisher st); [|done]. rewrite Hcase.
  erewrite bind_run; [|reflexivity]. erewrite bind_run; [|reflexivity].
  erewrite bind_run; [|apply release_viewers]. unfold mret, M_ret. do 2 f_equal.
  unfold stopped, drop_room. fold (stream_room (as_channelID v) s).
  destruct s as [g h a bch bcl]. unfold update_with. simpl.
  case_decide; simpl; f_equal; (apply map_eq; intros k; apply option_eq; intros st';
    rewrite !map_lookup_filter_Some, lookup_delete_Some, elem_of_range_set; naive_solver).
Qed.

Lemma stopped_room c v s ch :
  stream_room ch (stopped c v s) =
  if decide (ch = as_channelID v) then delete c (stream_room ch s) else stream_room ch s.
Proof.
  unfold stream_room at 1, stopped. simpl. rewrite drop_room_lookup.
  case_decide; by subst.
Qed.

Lemma stopped_inv c st v s :
  stream_inv s → sst_byClient s !! c = Some st → sk_publisher st = true →
  sst_heap s !! sk_stream st = Some v → stream_inv (stopped c v s).
Proof.
  intros Hi Hst Hp Hv.
  destruct (si_client _ Hi _ _ Hst) as (v'&Hv'&Hroom&Hpub). rewrite Hp in Hpub. simplify_eq.
  assert (∀ ch c' r, stream_room ch (stopped (as_publisher v) v s) !! c' = Some r →
    stream_room ch s !! c' = Some r ∧ c' ≠ as_publisher v ∧ r ≠ sk_stream st) as Hrest.
  { intros ch c' r. rewrite stopped_room. intros Hr.
    assert (stream_room ch s !! c' = Some r) as Hr' by (case_decide; [|done];
      by apply lookup_delete_Some in Hr as [_ ?]).
    assert (c' ≠ as_publisher v) as Hne.
    { intros ->. destruct (si_live _ Hi _ _ _ Hr') as (w&st'&Hw&Hch&_&Hst'&<-&_). simplify_eq.
      rewrite decide_True in Hr by done. by rewrite lookup_delete_eq in Hr. }
    split_and!; [done|done|]. intros ->.
    by destruct (live_ref_unique _ _ _ _ _ _ Hi Hr' Hroom). }
  split; simpl.
  - apply (si_alloc _ Hi).
  - intros ch c' r [Hr [Hne Hrne]]%Hrest.
    destruct (si_live _ Hi _ _ _ Hr) as (w&st'&Hw&Hch&Hpw&Hst'&Hs&Hp').
    exists w, st'. split_and!; try done. apply map_lookup_filter_Some. split; [done|].
    simpl. split; [congruence|]. intros Hin.
    destruct (si_viewer _ Hi _ _ _ _ _ Hroom Hv Hin) as (?&?&_&?). simplify_eq. congruence.
  - intros c' st'. rewrite map_lookup_filter_Some. simpl. intros [Hst' [Hne Hnv]].
    destruct (si_client _ Hi _ _ Hst') as (w&Hw&Hrw&Hcase). exists w. split_and!; try done.
    assert (sk_stream st' ≠ sk_stream st) as Hsne.
    { intros Heq. rewrite Heq in Hw. simplify_eq. by case_match. }
    rewrite stopped_room. case_decide; [|done]. rewrite lookup_delete_ne; [done|].
    intros Heq. destruct (si_live _ Hi _ _ _ Hrw) as (?&st2&_&_&_&Hst2&Hss&_).
    rewrite <- Heq in Hst2. simplify_eq.
  - intros ch c' r w x [Hr [Hne Hrne]]%Hrest Hw Hx.
    destruct (si_viewer _ Hi _ _ _ _ _ Hr Hw Hx) as (st'&Hst'&Hs&Hp').
    exists st'. split_and!; try done. apply map_lookup_filter_Some. split; [done|]. simpl. split.
    + intros ->. by simplify_eq.
    + intros Hin. destruct (si_viewer _ Hi _ _ _ _ _ Hroom Hv Hin) as (st2&?&?&_).
      by simplify_eq.
  - apply drop_room_tight, (si_tight _ Hi).
  - intros ch. rewrite stopped_room. pose proof (si_room _ Hi ch).
    case_decide; [|done]. rewrite map_size_delete. case_match; unfold id; lia.
Qed.

Lemma unwatched_inv c st v s :
  stream_inv s → sst_byClient s !! c = Some st → sk_publisher st = false →
  sst_heap s !! sk_stream st = Some v → stream_inv (unwatched c (sk_stream st) v s).
Proof.
  intros Hi Hst Hp Hv.
  destruct (si_client _ Hi _ _ Hst) as (v'&Hv'&Hroom&Hin). rewrite Hp in Hin. simplify_eq.
  set (v1 := v <| as_viewers ::= (.∖ {[c]}) |>).
  assert (∀ ch, stream_room ch (unwatched c (sk_stream st) v s) = stream_room ch s) as Hr by done.
  split; simpl; fold v1.
  - intros r w. rewrite lookup_insert. case_decide; [subst; intros _; by eapply si_alloc|].
    apply (si_alloc _ Hi).
  - intros ch c' r Hr'. rewrite Hr in Hr'.
    destruct (si_live _ Hi _ _ _ Hr') as (w&st'&Hw&Hch&Hpw&Hst'&Hs'&Hp').
    rewrite lookup_insert, lookup_delete_ne by (intros <-; congruence).
    case_decide as Heq; [|by eauto 10]. rewrite Heq in Hv. assert (w = v) as -> by congruence.
    by exists v1, st'.
  - intros c' st' [Hne Hst']%lookup_delete_Some.
    destruct (si_client _ Hi _ _ Hst') as (w&Hw&Hrw&Hcase). rewrite lookup_insert.
    case_decide as Hs; [|by eauto]. rewrite <- Hs in Hw. assert (w = v) as -> by congruence.
    exists v1. split_and!; [done|exact Hrw|]. unfold v1. simpl. case_match; set_solver.
  - intros ch c' r w x Hr' Hw Hx. rewrite Hr in Hr'. rewrite lookup_insert in Hw.
    assert (∃ w', sst_heap s !! r = Some w' ∧ x ∈ as_viewers w' ∧ (x = c → r ≠ sk_stream st))
      as (w'&Hw'&Hx'&Hxc).
    { case_decide as Hs; [|by eauto]. injection Hw as <-. exists v. rewrite <- Hs.
      unfold v1 in Hx. simpl in Hx. set_solver. }
    destruct (si_viewer _ Hi _ _ _ _ _ Hr' Hw' Hx') as (st'&Hst'&Hs'&?). exists st'.
    rewrite lookup_delete_ne; [done|]. intros <-. simplify_eq. by apply Hxc.
  - apply (si_tight _ Hi).
  - intros ch. rewrite Hr. apply (si_room _ Hi).
Qed.

(** ** Runs of the stream component *)

Section runs.
Context (maxServer maxP2P : Z) (Hserver : (0 <= maxServer)%Z) (Hp2p : (0 <= maxP2P)%Z).

Inductive stream_step : streamState → streamState → Prop :=
  | sstep_start c multiple p mode codec audio rs now res s s' :
      stream_start ident c multiple p mode codec audio rs now s = Ok (res, s') →
      stream_step s s'
  | sstep_watch c p ranges profiles cid res s s' :
      stream_watch ident c p maxServer maxP2P ranges profiles cid s = Ok (res, s') →
      stream_step s s'
  | sstep_leave c res s s' : stream_leave c s = Ok (res, s') → stream_step s s'.

(** The audience of every object ever created stays within its limit. *)
Definition audience_bounded (s : streamState) : Prop :=
  ∀ r v, sst_heap s !! r = Some v →
    (Z.of_nat (size (as_viewers v)) <= viewer_limit maxServer maxP2P v)%Z.

Lemma limit_nonneg v : (0 <= viewer_limit maxServer maxP2P v)%Z.
Proof using Hserver Hp2p. unfold viewer_limit. by case_match. Qed.

Lemma audience_started c v s :
  audience_bounded s → as_viewers v = ∅ → audience_bounded (started c v s).
Proof using Hserver Hp2p.
  intros Hb Hv r w. simpl. rewrite lookup_insert. case_decide; [|apply Hb].
  intros [= <-]. rewrite Hv, size_empty. apply limit_nonneg.
Qed.

Lemma audience_watching c r v sel s :
  audience_bounded s → (Z.of_nat (size (as_viewers v)) < viewer_limit maxServer maxP2P v)%Z →
  audience_bounded (watching c r v sel s).
Proof.
  intros Hb Hlt r' w. simpl. rewrite lookup_insert. case_decide; [|apply Hb].
  intros [= <-]. unfold with_viewer, viewer_limit in *. simpl.
  pose proof (size_union_alt {[c]} (as_viewers v)) as Hsz. rewrite size_singleton in Hsz.
  pose proof (subseteq_size (as_viewers v ∖ {[c]}) (as_viewers v) ltac:(set_solver)). lia.
Qed.

Lemma audience_unwatched c r v s :
  audience_bounded s → sst_heap s !! r = Some v → audience_bounded (unwatched c r v s).
Proof.
  intros Hb Hv r' w. simpl. rewrite lookup_insert. case_decide; [|apply Hb].
  intros [= <-]. specialize (Hb _ _ Hv). unfold viewer_limit in *. simpl.
  pose proof (subseteq_size (as_viewers v ∖ {[c]}) (as_viewers v) ltac:(set_solver)). lia.
Qed.

Lemma stream_step_inv s s' :
  stream_step s s' → stream_inv s ∧ audience_bounded s → stream_inv s' ∧ audience_bounded s'.
Proof using Hserver Hp2p.
  intros Hstep [Hi Hb]. destruct Hstep as [c mu p mode codec audio rs now res s s' E
    |c p ranges profiles cid res s s' E|c res s s' E].
  - rewrite stream_start_run in E. repeat case_decide; simplify_eq; try done.
    split; [apply started_inv; simpl; try done|by apply audience_started].
    + by apply eq_None_not_Some.
    + lia.
  - destruct (stream_watch_run c p maxServer maxP2P ranges profiles cid s Hi) as (pick&Hbest&Hrun).
    rewrite E in Hrun. injection Hrun as Hrun. unfold watch_outcome in Hrun.
    destruct pick as [[r v]|]; [|by simplify_eq]. destruct Hbest as (Hin&Hv&_).
    repeat case_decide; simplify_eq; try done.
    split; [eapply watching_inv; try done|apply audience_watching; [done|lia]].
    apply eq_None_not_Some. tauto.
  - rewrite stream_leave_run in E by done.
    destruct (sst_byClient s !! c) as [st|] eqn:Hst; [|by simplify_eq].
    destruct (sst_heap s !! sk_stream st) as [v|] eqn:Hv; [|done].
    destruct (sk_publisher st) eqn:Hp; simplify_eq.
    + split; [by eapply stopped_inv|exact Hb].
    + split; [by apply unwatched_inv|by apply audience_unwatched].
Qed.

Lemma stream_reachable s :
  rtc stream_step newStreamState s → stream_inv s ∧ audience_bounded s.
Proof using Hserver Hp2p.
  assert (audience_bounded newStreamState) as Hb.
  { intros r v. simpl. by rewrite lookup_empty. }
  intros Hr. pose proof (conj stream_inv_new Hb) as Hok. clear Hb.
  induction Hr; eauto using stream_step_inv.
Qed.
End runs.

(** ** Properties *)

(** In every state reachable by starting, watching and leaving streams,
    the channel index and the client index name the same live streams, a
    channel has at most [MaxChannelPublishers] of them and no empty entry, a
    client publishes or watches at most one stream, every viewer recorded by a
    live stream is recorded as its viewer, no publisher is a viewer, and no
    audience exceeds the limit of its mode. *)
Theorem stream_reachable_coherent maxServer maxP2P s :
  (0 <= maxServer)%Z → (0 <= maxP2P)%Z → rtc (stream_step maxServer maxP2P) newStreamState s →
  (∀ ch c r, stream_room ch s !! c = Some r →
     ∃ v, sst_heap s !! r = Some v ∧ as_channelID v = ch ∧ as_publisher v = c ∧
       isPublisher c s = true ∧ c ∉ as_viewers v ∧
       (Z.of_nat (size (as_viewers v)) <= viewer_limit maxServer maxP2P v)%Z ∧
       ∀ w, w ∈ as_viewers v ↔ ∃ st, sst_byClient s !! w = Some st ∧
         sk_stream st = r ∧ sk_publisher st = false) ∧
  (∀ c st, sst_byClient s !! c = Some st → ∃ ch pub,
     stream_room ch s !! pub = Some (sk_stream st) ∧ (pub = c ↔ sk_publisher st = true)) ∧
  (∀ ch, size (stream_room ch s) ≤ MaxChannelPublishers ∧ sst_byChannel s !! ch ≠ Some ∅).
Proof.
  intros Hs Hp Hr. destruct (stream_reachable maxServer maxP2P Hs Hp s Hr) as [Hi Hb].
  split_and!.
  - intros ch c r Hroom. destruct (si_live _ Hi _ _ _ Hroom) as (v&st&Hv&Hch&Hpub&Hst&Hss&Hsp).
    exists v. split_and!; try done.
    + unfold isPublisher. by rewrite Hst.
    + by eapply live_publisher_not_viewer.
    + by apply (Hb r).
    + intros w. split; [by eapply si_viewer|]. intros (st'&Hst'&<-&Hp').
      destruct (si_client _ Hi _ _ Hst') as (v'&Hv'&_&Hcase). rewrite Hp' in Hcase. congruence.
  - intros c st Hst. destruct (si_client _ Hi _ _ Hst) as (v&Hv&Hroom&Hcase).
    exists (as_channelID v), (as_publisher v). split; [done|].
    destruct (sk_publisher st) eqn:Hsp; [done|]. split; [|done]. intros Heq.
    pose proof (live_publisher_not_viewer _ _ _ _ _ Hi Hroom Hv). congruence.
  - intros ch. split; [apply (si_room _ Hi)|apply (si_tight _ Hi)].
Qed.

Lemma best_unique cid ch s res res' :
  stream_inv s →
  (∀ c1 c2, id_ConnectionID (ident c1) = id_ConnectionID (ident c2) → c1 = c2) →
  best cid ch s res → best cid ch s res' →
  (∀ r v, r ∈ ch → sst_heap s !! r = Some v →
     stream_room (as_channelID v) s !! as_publisher v = Some r) →
  (∀ r r' v v', r ∈ ch → r' ∈ ch → sst_heap s !! r = Some v → sst_heap s !! r' = Some v' →
     as_channelID v = as_channelID v') →
  res = res'.
Proof.
  intros Hi Hinj Hb Hb' Hroom Hch. destruct res as [[r v]|], res' as [[r' v']|]; simpl in *.
  - destruct Hb as (Hin&Hv&Hm&Hold), Hb' as (Hin'&Hv'&Hm'&Hold').
    assert (as_publisher v = as_publisher v') as Heq.
    { apply Hinj. exact (older_antisym v v' (Hold r' v' Hin' Hv' Hm') (Hold' r v Hin Hv Hm)). }
    pose proof (Hroom _ _ Hin Hv) as H1. pose proof (Hroom _ _ Hin' Hv') as H2.
    rewrite (Hch r r' v v'), Heq in H1 by done. by simplify_eq.
  - naive_solver.
  - naive_solver.
  - done.
Qed.

(** Leaving is exact. A publisher's departure unlinks its stream and
    releases all of its viewers and nobody else; a viewer's departure takes
    only itself out of the audience; a client without a stream changes
    nothing. The streams of other publishers are untouched. *)
Theorem stream_leave_exact c s :
  stream_inv s →
  ∃ res s', stream_leave c s = Ok (res, s') ∧ stream_inv s' ∧
    match sst_byClient s !! c with
    | None => res = None ∧ s' = s
    | Some st => ∃ v, sst_heap s !! sk_stream st = Some v ∧
        res = Some (sk_stream st, sk_publisher st) ∧
        (∀ c', sst_byClient s' !! c' =
           if decide (c' = c ∨ sk_publisher st = true ∧ c' ∈ as_viewers v) then None
           else sst_byClient s !! c') ∧
        (∀ ch c', stream_room ch s' !! c' =
           if decide (sk_publisher st = true ∧ c' = c ∧ ch = as_channelID v) then None
           else stream_room ch s !! c') ∧
        (∀ r v', r ≠ sk_stream st → sst_heap s !! r = Some v' → sst_heap s' !! r = Some v')
    end.
Proof.
  intros Hi. rewrite stream_leave_run by done.
  destruct (sst_byClient s !! c) as [st|] eqn:Hst; [|by eauto 10].
  destruct (si_client _ Hi _ _ Hst) as (v&Hv&Hroom&Hcase). rewrite Hv.
  destruct (sk_publisher st) eqn:Hp.
  - eexists _, _. split; [done|]. split; [by eapply stopped_inv|]. exists v.
    split_and!; [done|done| | |done].
    + intros c'. simpl. rewrite map_lookup_filter. destruct (sst_byClient s !! c') eqn:E; simpl.
      * case_decide; [rewrite option_guard_False|rewrite option_guard_True]; [done|tauto|done|tauto].
      * by case_decide.
    + intros ch c'. rewrite stopped_room. destruct (decide (ch = as_channelID v)).
      * rewrite lookup_delete. repeat case_decide; naive_solver.
      * rewrite (decide_False (P := _ ∧ _)) by tauto. done.
  - eexists _, _. split; [done|]. split; [by apply unwatched_inv|]. exists v.
    split_and!; [done|done| | |].
    + intros c'. simpl. rewrite lookup_delete. repeat case_decide; naive_solver.
    + intros ch c'. by rewrite decide_False by naive_solver.
    + intros r v' Hne. simpl. by rewrite lookup_insert_ne.
Qed.
End facts.

(** Which stream a viewer gets does not depend on the iteration order of
    the channel's map: under any two orders [watch] returns the same answer and
    leaves the same state, provided connection identifiers are distinct; when
    it succeeds, the stream is live in the viewer's channel, belongs to the
    requested connection if one was named, is the oldest such stream, still
    has room, and the returned rendition is one the viewer can play. *)
Theorem stream_watch_deterministic (o1 o2 : MapOrder) ident c p maxServer maxP2P ranges profiles cid s :
  stream_inv s →
  (∀ c1 c2, id_ConnectionID (ident c1) = id_ConnectionID (ident c2) → c1 = c2) →
  @stream_watch o1 ident c p maxServer maxP2P ranges profiles cid s =
    @stream_watch o2 ident c p maxServer maxP2P ranges profiles cid s ∧
  ∃ ans s', @stream_watch o1 ident c p maxServer maxP2P ranges profiles cid s = Ok (ans, s') ∧
    match ans with
    | inr _ => s' = s
    | inl (_, pub, sel) => ∃ r v,
        stream_room (vp_ChannelID p) s !! pub = Some r ∧ sst_heap s !! r = Some v ∧
        s' = watching c r v sel s ∧ matches ident cid v ∧ pub ≠ c ∧
        as_serverID v = vp_ServerID p ∧
        (Z.of_nat (size (as_viewers v)) < viewer_limit maxServer maxP2P v)%Z ∧
        (∀ pub' r' v', stream_room (vp_ChannelID p) s !! pub' = Some r' →
           sst_heap s !! r' = Some v' → matches ident cid v' → older ident v v') ∧
        ∃ rd, rd ∈ as_renditions v ∧ playable ranges profiles rd ∧ sd_ID rd = sel
    end.
Proof.
  intros Hi Hinj.
  destruct (@stream_watch_run o1 ident c p maxServer maxP2P ranges profiles cid s Hi) as (res&Hb&E1).
  destruct (@stream_watch_run o2 ident c p maxServer maxP2P ranges profiles cid s Hi) as (res'&Hb'&E2).
  assert (best ident cid (@range_values o1 _ _ _ _ (stream_room (vp_ChannelID p) s)) s res') as Hb2.
  { revert Hb'. unfold best. destruct res' as [[r v]|]; setoid_rewrite elem_of_range_values; done. }
  assert (∀ r v, r ∈ @range_values o1 _ _ _ _ (stream_room (vp_ChannelID p) s) →
    sst_heap s !! r = Some v → stream_room (vp_ChannelID p) s !! as_publisher v = Some r ∧
      as_channelID v = vp_ChannelID p) as Hlive.
  { intros r v [pub Hpub]%elem_of_range_values Hv.
    destruct (si_live _ Hi _ _ _ Hpub) as (v'&?&Hv'&?&?&_). by simplify_eq. }
  assert (res = res') as <-.
  { eapply best_unique; [done|done|done|done| |].
    - intros r v Hr Hv. destruct (Hlive _ _ Hr Hv) as [? ->]. done.
    - intros r r' v v' Hr Hr' Hv Hv'. destruct (Hlive _ _ Hr Hv) as [_ ->].
      by destruct (Hlive _ _ Hr' Hv') as [_ ->]. }
  split; [by rewrite E1, E2|]. destruct (watch_outcome _ _ _ _ _ _ _ res s) as [ans s'] eqn:Ho.
  exists ans, s'. split; [done|]. unfold watch_outcome in Ho.
  destruct res as [[r v]|]; [|by simplify_eq]. destruct Hb as (Hin&Hv&Hm&Hold).
  repeat case_decide; simplify_eq; try done. destruct (Hlive _ _ Hin Hv) as [Hroom _].
  exists r, v. split_and!; try done; [tauto|by destruct (decide (as_serverID v = vp_ServerID p)); tauto
    |lia| |].
  - intros pub' r' v' Hr' Hv' Hm'. eapply Hold; [|done|done]. apply elem_of_range_values. eauto.
  - destruct (selectStreamRendition_spec (as_renditions v) ranges profiles)
      as [(rd&?&?&Heq&_)|[? _]]; [|done]. eauto.
Qed.

(** Whatever a publisher announces, an accepted stream can be watched by
    every client: the normalised renditions satisfy the shared policy, and for
    any viewer capabilities a rendition with a non-empty identifier is
    selected which is SDR or matches a range and codec profile of the viewer,
    and is HDR if any HDR rendition matches. *)
Theorem normalized_always_playable codec values rs ranges profiles :
  validStreamCodec codec = true → normalizeStreamRenditions codec values = Some rs →
  rendition_policy (to_contract <$> rs) ∧
  ∃ r, r ∈ rs ∧ playable ranges profiles r ∧ sd_ID r ≠ "" ∧
    selectStreamRendition rs ranges profiles = sd_ID r ∧
    (sd_DynamicRange r = StreamDynamicRangeSDR →
       ∀ r', r' ∈ rs → playable ranges profiles r' → sd_DynamicRange r' = StreamDynamicRangeSDR).
Proof.
  intros Hc Hn. pose proof (normalize_accepted _ _ _ Hc Hn) as Hacc. split; [done|].
  destruct (accepted_selects rs ranges profiles Hacc) as (r0&_&_&Hne&Hsel).
  destruct (selectStreamRendition_spec rs ranges profiles)
    as [(r&Hin&Hp&Hsel'&Hbest)|[Hnone _]]; [|congruence].
  exists r. split_and!; try done. congruence.
Qed.

(** ** Concrete inputs *)

Definition sample_conn (c : ClientRef) : ClientIdent := mkClientIdent (Z.pos c) (pretty c).

Lemma sample_conn_inj c1 c2 :
  id_ConnectionID (sample_conn c1) = id_ConnectionID (sample_conn c2) → c1 = c2.
Proof. simpl. intros Heq. by apply (inj pretty) in Heq. Qed.

Definition sample_participant (c : ClientRef) : VoiceParticipantData :=
  mkVoiceParticipantData 1 (pretty c) (Z.pos c) 7 40 false false false "".
Definition sample_hdr : list StreamRenditionData :=
  [legacySDRStreamRendition StreamCodecVP9;
   mkStreamRenditionData "hdr" StreamCodecVP9 "2" "hdr10" 10 "bt2020" "pq" "bt2020-ncl"].
Definition sample_live : activeStream :=
  mkActiveStream 7 40 StreamModeServer StreamCodecVP9 true sample_hdr 1%positive ∅ 5000000.
Definition sample_published : streamState := started 1%positive sample_live newStreamState.
Definition sample_watched : streamState :=
  watching 3%positive 1%positive sample_live "hdr" sample_published.

Lemma sample_published_step :
  @stream_step key_order sample_conn 2 1 newStreamState sample_published.
Proof.
  eapply (sstep_start (H := key_order) sample_conn 2 1 1%positive true (sample_participant 1%positive)
    StreamModeServer StreamCodecVP9 true sample_hdr 5000000). vm_compute. reflexivity.
Qed.

Lemma sample_watched_step :
  @stream_step key_order sample_conn 2 1 sample_published sample_watched.
Proof.
  eapply (sstep_watch (H := key_order) sample_conn 2 1 3%positive (sample_participant 3%positive)
    ["hdr10"] [mkStreamCodecProfileData "vp9" "2"] ""). vm_compute. reflexivity.
Qed.

Lemma sample_watched_reach :
  rtc (@stream_step key_order sample_conn 2 1) newStreamState sample_watched.
Proof. eapply rtc_l; [exact sample_published_step|]. apply rtc_once, sample_watched_step. Qed.

Lemma sample_published_inv : stream_inv sample_published.
Proof.
  eapply (stream_reachable (H := key_order) sample_conn 2 1); [lia|lia|].
  apply rtc_once, sample_published_step.
Qed.

Lemma sample_watched_inv : stream_inv sample_watched.
Proof.
  eapply (stream_reachable (H := key_order) sample_conn 2 1); [lia|lia|].
  exact sample_watched_reach.
Qed.

Lemma stream_reachable_coherent_witness :
  stream_room 40 sample_watched !! 1%positive = Some 1%positive ∧
  size (stream_room 40 sample_watched) ≤ MaxChannelPublishers.
Proof.
  split; [vm_compute; reflexivity|].
  apply (stream_reachable_coherent (H := key_order) sample_conn 2 1 sample_watched);
    [lia|lia|exact sample_watched_reach].
Defined.

Lemma stream_watch_deterministic_witness :
  @stream_watch key_order sample_conn 3%positive (sample_participant 3%positive) 2 1
    ["hdr10"] [mkStreamCodecProfileData "vp9" "2"] "1" sample_published =
  @stream_watch key_order sample_conn 3%positive (sample_participant 3%positive) 2 1
    ["hdr10"] [mkStreamCodecProfileData "vp9" "2"] "1" sample_published.
Proof.
  apply (stream_watch_deterministic key_order key_order sample_conn);
    [exact sample_published_inv|exact sample_conn_inj].
Defined.

Lemma stream_leave_exact_witness :
  ∃ res s', @stream_leave key_order 1%positive sample_watched = Ok (res, s') ∧
    sst_byClient s' !! 3%positive = None ∧ stream_room 40 s' !! 1%positive = None.
Proof.
  destruct (stream_leave_exact (H := key_order) sample_conn 1%positive sample_watched sample_watched_inv)
    as (res&s'&Hrun&_&Hcase). exists res, s'. split; [exact Hrun|].
  destruct Hcase as (v&Hv&_&Hcl&Hroom&_). vm_compute in Hv. injection Hv as <-.
  split; [rewrite Hcl; by vm_compute|rewrite Hroom; by vm_compute].
Defined.

Lemma normalized_always_playable_witness :
  ∃ r, r ∈ sample_hdr ∧ selectStreamRendition sample_hdr ["hdr10"] [] = sd_ID r.
Proof.
  destruct (normalized_always_playable StreamCodecVP9 sample_hdr sample_hdr ["hdr10"] []
    ltac:(vm_compute; reflexivity) ltac:(vm_compute; reflexivity)) as [_ (r&Hin&_&_&Hsel&_)].
  exists r. split; [exact Hin|exact Hsel].
Defined.
