(* ===== verification/Hub.v ===== *)
(** * The hub: shared state and the recursive clean-up of a connection

    Model of the part of [hub.go], [voice_hub.go], [stream_hub.go],
    [stream_legacy.go] and [voice_signals.go] that [Unregister] is made of. A
    broadcast unregisters the clients whose queue is full, unregistering leaves
    voice and streams, and leaving broadcasts again: the functions here are
    written against the callback [unreg] and tied together by [unregister],
    which takes fuel. [hub_measure] bounds the depth of the recursion.

    A handler runs to completion on the state it is given; the interleavings of
    concurrent handlers are the subject of [Presence]. *)

From S2P Require Import Prelude Events Client VoiceState StreamState.

(** ** State *)

Record room := mkRoom { rm_clients : gset ClientRef; rm_closed : bool }.
#[export] Instance room_fields : Fields room := fun r => mkRoom (rm_clients r) (rm_closed r).

Record presenceStamp := mkPresenceStamp { pst_at : Z; pst_status : PresenceStatus }.
#[export] Instance presenceStamp_eq_dec : EqDecision presenceStamp.
Proof. solve_decision. Defined.

(** Calls to the collaborators injected into the hub. *)
Inductive Effect :=
  | VoiceSessionLeave (connectionID : string)
  | StreamSessionLeave (connectionID : string)
  | SaveLastSeen (userID at_ : Z).

(** [h_mem] is the heap of [*Client] objects. The injected callbacks are
    functions; an inner [None] is a non-nil [error]. [h_now] is the clock in
    nanoseconds, [h_trace] the calls made to the session closers and the
    last-seen saver, whose presence the three flags record. *)
Record Hub := mkHub {
  h_mem : gmap ClientRef Client;
  h_voiceDeviceActive : option (Z → string → option bool);
  h_rolePermissions : option (Z → Z → option Z);
  h_channelAccessLoader : option (Z → option (option (gset Z)));
  h_channelAccessBatchLoader : option (list Z → option (gmap Z (gset Z)));
  h_rooms : gmap Z room;
  h_closed : bool;
  h_clients : gset ClientRef;
  h_clientsByUser : gmap Z (gset ClientRef);
  h_clientsByServer : gmap Z (gset ClientRef);
  h_clientsBySession : gmap string (gset ClientRef);
  h_clientsByConnection : gmap string ClientRef;
  h_presence : gmap Z (gmap Z Z);
  h_lastSeenSaver : bool;
  h_lastSeen : gmap Z presenceStamp;
  h_voice : voiceState;
  h_voiceSessions : bool;
  h_streams : streamState;
  h_streamSessions : bool;
  h_maxStreamViewers : Z;
  h_maxP2PStreamViewers : Z;
  h_now : Z;
  h_trace : list Effect
}.
#[export] Instance Hub_fields : Fields Hub := fun r =>
  mkHub (h_mem r) (h_voiceDeviceActive r) (h_rolePermissions r) (h_channelAccessLoader r)
    (h_channelAccessBatchLoader r) (h_rooms r) (h_closed r) (h_clients r) (h_clientsByUser r)
    (h_clientsByServer r) (h_clientsBySession r) (h_clientsByConnection r) (h_presence r)
    (h_lastSeenSaver r) (h_lastSeen r) (h_voice r) (h_voiceSessions r) (h_streams r)
    (h_streamSessions r) (h_maxStreamViewers r) (h_maxP2PStreamViewers r) (h_now r) (h_trace r).

Definition NewHub : Hub :=
  {| h_mem := ∅; h_voiceDeviceActive := None; h_rolePermissions := None;
     h_channelAccessLoader := None; h_channelAccessBatchLoader := None;
     h_rooms := ∅; h_closed := false; h_clients := ∅; h_clientsByUser := ∅;
     h_clientsByServer := ∅; h_clientsBySession := ∅; h_clientsByConnection := ∅;
     h_presence := ∅; h_lastSeenSaver := false; h_lastSeen := ∅;
     h_voice := newVoiceState; h_voiceSessions := false;
     h_streams := newStreamState; h_streamSessions := false;
     h_maxStreamViewers := 32; h_maxP2PStreamViewers := 8; h_now := 0; h_trace := [] |}.

(** ** Access to the objects *)

(** Every [*Client] points at an allocated object; the default only makes the
    function total. *)
Definition client_at (c : ClientRef) (h : Hub) : Client :=
  default (NewClient "" 0 "" []) (h_mem h !! c).

Definition client_ident (h : Hub) (c : ClientRef) : ClientIdent :=
  mkClientIdent (cl_userID (client_at c h)) (cl_connectionID (client_at c h)).

(** Run a method of the client [c]. *)
Definition on_client {A} (c : ClientRef) (m : M Client A) : M Hub A := fun h =>
  match m (client_at c h) with
  | Ok (a, cl) => Ok (a, h <| h_mem ::= <[c := cl]> |>)
  | Panic => Panic
  | OutOfFuel => OutOfFuel
  end.

Definition update_client (c : ClientRef) (f : Client → Client) : M Hub unit :=
  on_client c (modify f).

Definition on_voice {A} (m : M voiceState A) : M Hub A := fun h =>
  match m (h_voice h) with
  | Ok (a, v) => Ok (a, h <| h_voice := v |>)
  | Panic => Panic
  | OutOfFuel => OutOfFuel
  end.

Definition on_streams {A} (m : M streamState A) : M Hub A := fun h =>
  match m (h_streams h) with
  | Ok (a, s) => Ok (a, h <| h_streams := s |>)
  | Panic => Panic
  | OutOfFuel => OutOfFuel
  end.

Definition effect (e : Effect) : M Hub unit := modify (fun h => h <| h_trace ::= (.++ [e]) |>).

Definition hub_enqueue (c : ClientRef) (event : OutgoingEvent) : M Hub bool :=
  on_client c (enqueue event).

Section hub.
Context `{MapOrder}.

(** ** Rooms *)

Definition newRoom : room := mkRoom ∅ false.

Definition room_add (client : ClientRef) (r : room) : bool * room :=
  if rm_closed r then (false, r)
  else if bool_decide (client ∈ rm_clients r) then (false, r)
  else (true, r <| rm_clients ::= union {[client]} |>).

Definition room_closeAndSnapshot (r : room) : list ClientRef * room :=
  if rm_closed r then ([], r)
  else (range_set (rm_clients r), mkRoom ∅ true).

Definition room_remove (client : ClientRef) (r : room) : bool * room :=
  if bool_decide (client ∈ rm_clients r)
  then (true, r <| rm_clients ::= (.∖ {[client]}) |>) else (false, r).

Definition room_snapshot (r : room) : list ClientRef := range_set (rm_clients r).

Definition getRoom (channelID : Z) (h : Hub) : option room := h_rooms h !! channelID.

Definition getOrCreateRoom (channelID : Z) : M Hub room :=
  h ← get_state;
  match h_rooms h !! channelID with
  | Some r => mret r
  | None => modify (fun h => h <| h_rooms ::= <[channelID := newRoom]> |>) ;; mret newRoom
  end.

Definition Unsubscribe (client : ClientRef) (channelID : Z) : M Hub bool :=
  if (channelID <=? 0)%Z then mret false
  else
    h ← get_state;
    match getRoom channelID h with
    | None => update_client client (removeSubscription channelID) ;; mret false
    | Some r =>
        let '(removed, r') := room_remove client r in
        modify (fun h => h <| h_rooms ::= <[channelID := r']> |>) ;;
        update_client client (removeSubscription channelID) ;;
        mret removed
    end.

(** ** Indexes *)

Definition clientSetSnapshot (values : gset ClientRef) : list ClientRef := range_set values.

Definition clientsForServer (serverID : Z) (h : Hub) : list ClientRef :=
  clientSetSnapshot (index_get serverID (h_clientsByServer h)).

Definition indexServerLocked (serverID : Z) (client : ClientRef) : M Hub unit :=
  modify (fun h => h <| h_clientsByServer ::= index_add serverID client |>).

Definition unindexServerLocked (serverID : Z) (client : ClientRef) : M Hub unit :=
  modify (fun h => h <| h_clientsByServer ::= index_remove serverID client |>).

Definition clientByConnectionID (connectionID : string) (h : Hub) : option ClientRef :=
  h_clientsByConnection h !! connectionID.

(** ** Presence counters *)

Definition presence_count (serverID userID : Z) (h : Hub) : Z :=
  default 0%Z (default ∅ (h_presence h !! serverID) !! userID).

Definition incrementPresence (serverID userID : Z) : M Hub bool :=
  h ← get_state;
  let serverPresence := default ∅ (h_presence h !! serverID) in
  let wasOffline := (presence_count serverID userID h =? 0)%Z in
  modify (fun h => h <| h_presence ::=
    <[serverID := <[userID := (presence_count serverID userID h + 1)%Z]> serverPresence]> |>) ;;
  mret wasOffline.

Definition decrementPresence (serverID userID : Z) : M Hub bool :=
  h ← get_state;
  match h_presence h !! serverID with
  | None => mret false
  | Some serverPresence =>
      let connections := default 0%Z (serverPresence !! userID) in
      if (connections =? 0)%Z then mret false
      else if (0 <? connections - 1)%Z then
        modify (fun h => h <| h_presence ::=
          <[serverID := <[userID := (connections - 1)%Z]> serverPresence]> |>) ;;
        mret false
      else
        let serverPresence := delete userID serverPresence in
        (if decide (serverPresence = ∅)
         then modify (fun h => h <| h_presence ::= delete serverID |>)
         else modify (fun h => h <| h_presence ::= <[serverID := serverPresence]> |>)) ;;
        mret true
  end.

Definition onlineUserIDs (serverID : Z) (h : Hub) : list Z :=
  merge_sort Z.le
    ((filter (fun e => (0 < e.2)%Z)
        (range_entries (default ∅ (h_presence h !! serverID)))).*1).

Definition current_status (serverID userID : Z) (h : Hub) : PresenceStatus :=
  if (0 <? presence_count serverID userID h)%Z then PresenceOnline else PresenceOffline.

(** The bookkeeping of [broadcastPresence] around the saver callback. *)
Definition save_last_seen (userID lastSeenAt : Z) (status : PresenceStatus) : M Hub unit :=
  h ← get_state;
  when (h_lastSeenSaver h)
    (let stamp := mkPresenceStamp lastSeenAt status in
     when (bool_decide (h_lastSeen h !! userID ≠ Some stamp))
       (modify (fun h => h <| h_lastSeen ::= <[userID := stamp]> |>) ;;
        effect (SaveLastSeen userID lastSeenAt))).

(** ** Session closers *)

Definition closeVoiceSession (connectionID : string) : M Hub unit :=
  h ← get_state; when (h_voiceSessions h) (effect (VoiceSessionLeave connectionID)).

Definition closeStreamSession (connectionID : string) : M Hub unit :=
  h ← get_state; when (h_streamSessions h) (effect (StreamSessionLeave connectionID)).

Definition newVoiceLeftData (p : VoiceParticipantData) : VoiceLeftData :=
  mkVoiceLeftData (vp_ConnectionID p) (vp_UserID p) (vp_ServerID p) (vp_ChannelID p).

(** ** Delivery *)

(** The loop of [broadcastToClients]: each distinct client is offered the
    event once; the result counts the acceptances and lists the refusals. *)
Definition deliver_once (event : OutgoingEvent)
    (acc : gset ClientRef * nat * list ClientRef) (client : ClientRef)
    : M Hub (gset ClientRef * nat * list ClientRef) :=
  let '(delivered, count, failed) := acc in
  if bool_decide (client ∈ delivered) then mret acc
  else
    accepted ← hub_enqueue client event;
    mret (if accepted : bool then ({[client]} ∪ delivered, S count, failed)
          else ({[client]} ∪ delivered, count, failed ++ [client])).

(** The loop of [Publish], [PublishExcept] and [broadcastPresence]. *)
Definition deliver (event : OutgoingEvent) (acc : nat * list ClientRef) (client : ClientRef)
    : M Hub (nat * list ClientRef) :=
  let '(count, failed) := acc in
  accepted ← hub_enqueue client event;
  mret (if accepted : bool then (S count, failed) else (count, failed ++ [client])).

(** ** The recursive functions *)

Section recursive.
Context (unreg : ClientRef → M Hub unit).

Definition broadcastToClients (clients : list ClientRef) (event : OutgoingEvent) : M Hub nat :=
  let event := shareEncoding event in
  '(_, count, failed) ← fold_each clients (∅, 0, []) (deliver_once event);
  for_each failed unreg ;;
  mret count.

Definition PublishToServer (serverID : Z) (event : OutgoingEvent) : M Hub nat :=
  if (serverID <=? 0)%Z then mret 0
  else
    clients ← gets (clientsForServer serverID);
    broadcastToClients clients event.

Definition publishToServerExcept (serverID : Z) (excluded : ClientRef) (event : OutgoingEvent)
    : M Hub nat :=
  clients ← gets (clientsForServer serverID);
  broadcastToClients (filter (fun c => c ≠ excluded) clients) event.

Definition publishVoiceLeft (p : VoiceParticipantData) (excluded : ClientRef) : M Hub unit :=
  publishToServerExcept (vp_ServerID p) excluded
    (new_event EventVoiceParticipantLeft (DVoiceLeft (newVoiceLeftData p))) ;;
  mret tt.

Definition SendToConnection (connectionID : string) (event : OutgoingEvent) : M Hub bool :=
  client ← gets (clientByConnectionID connectionID);
  match client with
  | None => mret false
  | Some client =>
      accepted ← hub_enqueue client event;
      if accepted : bool then mret true else unreg client ;; mret false
  end.

Definition broadcastPresence (serverID userID : Z) (status : PresenceStatus) : M Hub unit :=
  current ← gets (current_status serverID userID);
  if bool_decide (current ≠ status) then mret tt
  else
    h ← get_state;
    let lastSeenAt := (h_now h / 1000000000)%Z in
    save_last_seen userID lastSeenAt status ;;
    let event := new_event EventPresenceUpdated
      (DPresenceUpdated (mkPresenceUpdatedData serverID userID status (Some lastSeenAt))) in
    current ← gets (current_status serverID userID);
    '(_, failed) ←
      (if bool_decide (current = status) then
         clients ← gets (clientsForServer serverID);
         fold_each clients (0, []) (deliver event)
       else mret (0, []));
    for_each failed unreg.

Definition sendPresenceSnapshot (client : ClientRef) (serverIDs : list Z) : M Hub unit :=
  servers ← gets (fun h => (fun s => mkServerPresenceSnapshotData s (onlineUserIDs s h)) <$>
                             merge_sort Z.le serverIDs);
  accepted ← hub_enqueue client (new_event EventPresenceSnapshot (DPresenceSnapshot servers));
  when (negb accepted) (unreg client).

Definition sendVoiceSnapshot (client : ClientRef) : M Hub unit :=
  participants ← gets (fun h =>
    voice_snapshotForServers (serverIDs (client_at client h)) (h_voice h));
  accepted ← hub_enqueue client (new_event EventVoiceSnapshot (DVoiceSnapshot participants));
  when (negb accepted) (unreg client).

Definition sendStreamSnapshot (client : ClientRef) : M Hub unit :=
  streams ← gets (fun h =>
    stream_snapshotForServers (client_ident h) (serverIDs (client_at client h)) (h_streams h));
  accepted ← hub_enqueue client (new_event EventStreamSnapshot (DStreamSnapshot streams));
  when (negb accepted) (unreg client).

Definition announceLegacyStreamReplacement (serverID channelID : Z) : M Hub unit :=
  snapshot ← gets (fun h => stream_snapshotForServers (client_ident h) [serverID] (h_streams h));
  match List.find (fun v => (st_ChannelID v =? channelID)%Z) snapshot with
  | None => mret tt
  | Some value =>
      clients ← gets (clientsForServer serverID);
      for_each clients (fun client =>
        cl ← gets (client_at client);
        when (negb (SupportsMultipleStreams cl))
          (SendToConnection (cl_connectionID cl)
             (new_event EventStreamStarted (DStream value)) ;; mret tt))
  end.

Definition leaveStream (client : ClientRef) (reason : string)
    : M Hub (option (StreamRef * bool)) :=
  left_ ← on_streams (stream_leave client);
  match left_ with
  | None => mret None
  | Some (r, publisher) =>
      self ← gets (fun h => client_ident h client);
      closeStreamSession (id_ConnectionID self) ;;
      value ← on_streams (load r);
      if publisher : bool then
        publisherID ← gets (fun h => id_ConnectionID (client_ident h (as_publisher value)));
        PublishToServer (as_serverID value)
          (new_event EventStreamStopped (DStreamStopped
             (mkStreamStoppedData publisherID (as_serverID value) (as_channelID value) reason))) ;;
        announceLegacyStreamReplacement (as_serverID value) (as_channelID value) ;;
        mret (Some (r, true))
      else
        notified ←
          (if String.eqb (as_mode value) StreamModeP2P then
             hub_enqueue (as_publisher value)
               (new_event EventStreamViewerLeft (DStreamViewer
                  (mkStreamViewerData (id_ConnectionID self) (id_UserID self))))
           else mret true);
        if notified : bool then
          data ← gets (fun h => streamData (client_ident h) value);
          PublishToServer (as_serverID value) (new_event EventStreamUpdated (DStream data)) ;;
          mret (Some (r, false))
        else
          unreg (as_publisher value) ;; mret (Some (r, false))
  end.

Definition leaveVoice (client : ClientRef) : M Hub (option VoiceParticipantData) :=
  leaveStream client "left voice channel" ;;
  participant ← on_voice (voice_leave client);
  match participant with
  | None => mret None
  | Some p =>
      publishVoiceLeft p client ;;
      closeVoiceSession (vp_ConnectionID p) ;;
      mret (Some p)
  end.

Definition removeClientServer (client : ClientRef) (serverID : Z) (announce : bool)
    : M Hub unit :=
  removed ← on_client client (fun cl => Ok (removeServer serverID cl));
  if negb removed then mret tt
  else
    unindexServerLocked serverID client ;;
    cl ← gets (client_at client);
    becameOffline ← decrementPresence serverID (cl_userID cl);
    when (announce && becameOffline)
      (broadcastPresence serverID (cl_userID cl) PresenceOffline).

Definition unregisterPresence (client : ClientRef) : M Hub unit :=
  servers ← gets (fun h => serverIDs (client_at client h));
  for_each servers (fun serverID => removeClientServer client serverID true) ;;
  h ← get_state;
  let userID := cl_userID (client_at client h) in
  when (bool_decide (index_get userID (h_clientsByUser h) = ∅))
    (modify (fun h => h <| h_lastSeen ::= delete userID |>)).

(** The part of [Unregister] under [clientsMu]. *)
Definition detach (client : ClientRef) : M Hub unit :=
  modify (fun h => h <| h_clients ::= (.∖ {[client]}) |>) ;;
  servers ← gets (fun h => serverIDs (client_at client h));
  for_each servers (fun serverID => unindexServerLocked serverID client) ;;
  cl ← gets (client_at client);
  modify (fun h => h <| h_clientsByConnection ::= delete (cl_connectionID cl) |>) ;;
  modify (fun h => h <| h_clientsByUser ::= index_remove (cl_userID cl) client |>) ;;
  modify (fun h => h <| h_clientsBySession ::= index_remove (cl_sessionKey cl) client |>).

Definition unregister_body (client : ClientRef) : M Hub unit :=
  update_client client Close ;;
  detach client ;;
  leaveVoice client ;;
  channels ← gets (fun h => subscriptionIDs (client_at client h));
  for_each channels (fun channelID => Unsubscribe client channelID ;; mret tt) ;;
  unregisterPresence client.
End recursive.

(** ** Tying the knot *)

(** Every broadcast of [unregister_body] follows the removal of a stream
    entry, a voice entry or a server membership. *)
Definition server_links (mem : gmap ClientRef Client) : nat :=
  map_fold (fun _ cl n => size (cl_servers cl) + n) 0 mem.

Definition hub_measure (h : Hub) : nat :=
  size (sst_byClient (h_streams h)) + size (vs_byClient (h_voice h)) + server_links (h_mem h).

Fixpoint unregister (fuel : nat) (client : ClientRef) : M Hub unit :=
  match fuel with
  | O => fun _ => OutOfFuel
  | S fuel' => unregister_body (unregister fuel') client
  end.

Definition Unregister (client : ClientRef) : M Hub unit := fun h =>
  unregister (S (hub_measure h)) client h.
End hub.
