(* ===== verification/HubInv.v ===== *)
(** * The hub: invariant and frame

    [hub_inv P S h] relates the heap of clients, the lookup indexes, the rooms,
    the presence counters, the voice state and the stream state. [P] is the set
    of connections whose [Unregister] is in progress up the call stack: they
    are out of every index but still own rooms, voice entries and memberships;
    [S] is the part of [P] that may still own a stream. The class [Schedule]
    says whether requests may run between the two parts of a registration, on
    which the exactness of the presence counters depends. [evolves h h'] is the
    effect every function of the recursive core is confined to. *)

From S2P Require Import Prelude Events Client ClientFacts ClientAccess.
From S2P Require Import VoiceState VoiceFacts StreamState StreamFacts Hub.

(** ** Accessors *)

Definition servers_of (c : ClientRef) (h : Hub) : gset Z := cl_servers (client_at c h).
Definition user_of (c : ClientRef) (h : Hub) : Z := cl_userID (client_at c h).
Definition subs_of (c : ClientRef) (h : Hub) : gmap Z Z := cl_subscriptions (client_at c h).
Definition room_members (ch : Z) (h : Hub) : gset ClientRef :=
  match h_rooms h !! ch with Some r => rm_clients r | None => ∅ end.

(** The connections that count as presence of user [u] in server [s]. *)
Definition connections (s u : Z) (P : gset ClientRef) (h : Hub) : gset ClientRef :=
  filter (fun c => s ∈ servers_of c h ∧ user_of c h = u) (h_clients h ∪ P).

(** How registrations are scheduled. [Register] releases [clientsMu] between
    making the connection visible and counting its presence. The counters are
    required to be exact when no request runs between the two parts; every
    other relation of the invariant is required of either schedule. *)
Class Schedule := { serial_registration : Prop }.

Record hub_inv `{Sched : Schedule} (P S : gset ClientRef) (h : Hub) : Prop := {
  hi_client : ∀ c, client_ok (client_at c h);
  hi_voice : voice_inv (client_ident h) (h_voice h);
  hi_stream : stream_inv (h_streams h);
  hi_user : ∀ u c, c ∈ index_get u (h_clientsByUser h) ↔ c ∈ h_clients h ∧ user_of c h = u;
  hi_session : ∀ k c, c ∈ index_get k (h_clientsBySession h) ↔
    c ∈ h_clients h ∧ cl_sessionKey (client_at c h) = k;
  hi_server : ∀ s c, c ∈ index_get s (h_clientsByServer h) ↔
    c ∈ h_clients h ∧ s ∈ servers_of c h;
  hi_tight : index_tight (h_clientsByUser h) ∧ index_tight (h_clientsBySession h) ∧
    index_tight (h_clientsByServer h);
  hi_conn : ∀ k c, h_clientsByConnection h !! k = Some c ↔
    c ∈ h_clients h ∧ cl_connectionID (client_at c h) = k;
  hi_room : ∀ ch c, c ∈ room_members ch h ↔ is_Some (subs_of c h !! ch);
  hi_room_open : ∀ ch r, h_rooms h !! ch = Some r → rm_closed r = false;
  hi_sub_pos : ∀ c ch, is_Some (subs_of c h !! ch) → (0 < ch)%Z;
  hi_sub_live : ∀ c, subs_of c h ≠ ∅ → c ∈ h_clients h ∪ P;
  hi_voice_live : ∀ c, is_Some (vs_byClient (h_voice h) !! c) →
    c ∈ h_clients h ∪ P ∨ servers_of c h = ∅;
  hi_stream_live : ∀ c, is_Some (sst_byClient (h_streams h) !! c) →
    c ∈ h_clients h ∪ S ∨ c ∉ P ∧ servers_of c h = ∅;
  hi_presence : serial_registration → ∀ s u, presence_count s u h = Z.of_nat (size (connections s u P h));
  hi_presence_tight : ∀ s m, h_presence h !! s = Some m → m ≠ ∅ ∧ ∀ u n, m !! u = Some n → (0 < n)%Z;
  hi_pending : P ## h_clients h;
  hi_unique : ∀ c c', c ∈ h_clients h →
    cl_connectionID (client_at c' h) = cl_connectionID (client_at c h) → c' = c
}.

(** The streams of the heap keep their place and publisher. *)
Definition place (v : activeStream) : Z * Z * ClientRef :=
  (as_serverID v, as_channelID v, as_publisher v).
Definition heap_frame (s s' : streamState) : Prop :=
  ∀ r, place <$> sst_heap s' !! r = place <$> sst_heap s !! r.

#[export] Instance heap_frame_equiv : Equivalence heap_frame.
Proof. split; intros ? **; intros r; congruence. Qed.

(** The effect of the recursive core: connections are detached, memberships,
    subscriptions, voice and stream entries disappear, nothing is added. *)
Record evolves (h h' : Hub) : Prop := {
  ev_clients : h_clients h' ⊆ h_clients h;
  ev_gone : ∀ c, c ∈ h_clients h → c ∉ h_clients h' → servers_of c h' = ∅;
  ev_ident : ∀ c, client_ident h' c = client_ident h c;
  ev_session : ∀ c, cl_sessionKey (client_at c h') = cl_sessionKey (client_at c h);
  ev_access : ∀ c, cl_channelAccess (client_at c h') = cl_channelAccess (client_at c h);
  ev_done : ∀ c, cl_done (client_at c h) = true → cl_done (client_at c h') = true;
  ev_servers : ∀ c, servers_of c h' ⊆ servers_of c h;
  ev_subs : ∀ c ch, subs_of c h' !! ch = None ∨ subs_of c h' !! ch = subs_of c h !! ch;
  ev_voice : ∀ c, vs_byClient (h_voice h') !! c = None ∨
    vs_byClient (h_voice h') !! c = vs_byClient (h_voice h) !! c;
  ev_stream : ∀ c, sst_byClient (h_streams h') !! c = None ∨
    sst_byClient (h_streams h') !! c = sst_byClient (h_streams h) !! c;
  ev_heap : heap_frame (h_streams h) (h_streams h');
  ev_measure : hub_measure h' ≤ hub_measure h;
  ev_closed : h_closed h' = h_closed h;
  ev_loaders : h_channelAccessLoader h' = h_channelAccessLoader h ∧
    h_channelAccessBatchLoader h' = h_channelAccessBatchLoader h ∧
    h_rolePermissions h' = h_rolePermissions h ∧ h_voiceDeviceActive h' = h_voiceDeviceActive h;
  ev_limits : h_maxStreamViewers h' = h_maxStreamViewers h ∧
    h_maxP2PStreamViewers h' = h_maxP2PStreamViewers h
}.

Lemma evolves_refl h : evolves h h.
Proof. split; auto; try reflexivity; set_solver. Qed.

Lemma evolves_user h h' c : evolves h h' → user_of c h' = user_of c h.
Proof. intros Hev. pose proof (ev_ident _ _ Hev c) as Hid. by injection Hid. Qed.

Lemma shrinks_trans {A} (x y z : option A) :
  (y = None ∨ y = x) → (z = None ∨ z = y) → z = None ∨ z = x.
Proof. naive_solver. Qed.

Lemma evolves_trans h1 h2 h3 : evolves h1 h2 → evolves h2 h3 → evolves h1 h3.
Proof.
  intros H1 H2. split.
  - etrans; [apply (ev_clients _ _ H2)|apply (ev_clients _ _ H1)].
  - intros c Hc Hn. destruct (decide (c ∈ h_clients h2)) as [?|Hn2].
    + by apply (ev_gone _ _ H2).
    + pose proof (ev_gone _ _ H1 c Hc Hn2). pose proof (ev_servers _ _ H2 c). set_solver.
  - intros c. by rewrite (ev_ident _ _ H2), (ev_ident _ _ H1).
  - intros c. by rewrite (ev_session _ _ H2), (ev_session _ _ H1).
  - intros c. by rewrite (ev_access _ _ H2), (ev_access _ _ H1).
  - intros c Hc. by apply (ev_done _ _ H2), (ev_done _ _ H1).
  - intros c. etrans; [apply (ev_servers _ _ H2)|apply (ev_servers _ _ H1)].
  - intros c ch. eapply shrinks_trans; [apply (ev_subs _ _ H1)|apply (ev_subs _ _ H2)].
  - intros c. eapply shrinks_trans; [apply (ev_voice _ _ H1)|apply (ev_voice _ _ H2)].
  - intros c. eapply shrinks_trans; [apply (ev_stream _ _ H1)|apply (ev_stream _ _ H2)].
  - etrans; [apply (ev_heap _ _ H1)|apply (ev_heap _ _ H2)].
  - pose proof (ev_measure _ _ H1). pose proof (ev_measure _ _ H2). lia.
  - by rewrite (ev_closed _ _ H2), (ev_closed _ _ H1).
  - destruct (ev_loaders _ _ H1) as (?&?&?&?), (ev_loaders _ _ H2) as (?&?&?&?).
    split_and!; congruence.
  - destruct (ev_limits _ _ H1), (ev_limits _ _ H2). split; congruence.
Qed.
#[export] Instance evolves_preorder : PreOrder evolves.
Proof. split; [exact evolves_refl|exact evolves_trans]. Qed.
#[export] Hint Resolve evolves_refl : voxhold.

(** ** The measure *)

Lemma client_at_insert c cl h c' :
  client_at c' (h <| h_mem ::= <[c := cl]> |>) = if decide (c' = c) then cl else client_at c' h.
Proof.
  unfold client_at. simpl. rewrite lookup_insert. repeat case_decide; by simplify_eq/=.
Qed.

Lemma server_links_delete c m :
  server_links m = default 0 ((fun cl => size (cl_servers cl)) <$> m !! c) +
    server_links (delete c m).
Proof.
  unfold server_links. destruct (m !! c) as [cl|] eqn:Hc; simpl.
  - rewrite (map_fold_delete_L _ _ c cl m); [done| |done]. intros. lia.
  - by rewrite delete_id.
Qed.

Lemma server_links_insert c cl h :
  server_links (<[c := cl]> (h_mem h)) + size (servers_of c h) =
  server_links (h_mem h) + size (cl_servers cl).
Proof.
  rewrite (server_links_delete c (<[c := cl]> (h_mem h))), (server_links_delete c (h_mem h)).
  rewrite lookup_insert_eq, delete_insert_eq. unfold servers_of, client_at.
  assert (size (cl_servers (NewClient "" 0 "" [])) = 0) by done.
  destruct (h_mem h !! c); unfold id in *; simpl fmap; simpl default; unfold id in *; lia.
Qed.

(** ** Identities *)

Lemma voice_inv_ext ident ident' s :
  (∀ c, ident' c = ident c) → voice_inv ident s → voice_inv ident' s.
Proof.
  intros Heq [? ? ? Hid]. split; try done. intros c p Hp. rewrite Heq. by apply Hid.
Qed.

(** ** Steps that change no relation *)

(** The fields of a client the invariant relates to the rest of the hub. *)
Record same_links (cl cl' : Client) : Prop := {
  sl_user : cl_userID cl' = cl_userID cl;
  sl_conn : cl_connectionID cl' = cl_connectionID cl;
  sl_session : cl_sessionKey cl' = cl_sessionKey cl;
  sl_servers : cl_servers cl' = cl_servers cl;
  sl_subs : cl_subscriptions cl' = cl_subscriptions cl
}.

(** [h'] differs from [h] only inside the clients (and in the clock, the trace,
    the last-seen cache and the configuration). *)
Record same_shape (h h' : Hub) : Prop := {
  ss_links : ∀ c, same_links (client_at c h) (client_at c h');
  ss_rooms : h_rooms h' = h_rooms h;
  ss_clients : h_clients h' = h_clients h;
  ss_byUser : h_clientsByUser h' = h_clientsByUser h;
  ss_byServer : h_clientsByServer h' = h_clientsByServer h;
  ss_bySession : h_clientsBySession h' = h_clientsBySession h;
  ss_byConn : h_clientsByConnection h' = h_clientsByConnection h;
  ss_presence : h_presence h' = h_presence h;
  ss_voice : h_voice h' = h_voice h;
  ss_streams : h_streams h' = h_streams h
}.

Lemma same_shape_user h h' c : same_shape h h' → user_of c h' = user_of c h.
Proof. intros Hs. apply (sl_user _ _ (ss_links _ _ Hs c)). Qed.
Lemma same_shape_servers h h' c : same_shape h h' → servers_of c h' = servers_of c h.
Proof. intros Hs. apply (sl_servers _ _ (ss_links _ _ Hs c)). Qed.
Lemma same_shape_subs h h' c : same_shape h h' → subs_of c h' = subs_of c h.
Proof. intros Hs. apply (sl_subs _ _ (ss_links _ _ Hs c)). Qed.
Lemma same_shape_ident h h' c : same_shape h h' → client_ident h' c = client_ident h c.
Proof.
  intros Hs. unfold client_ident.
  by rewrite (sl_user _ _ (ss_links _ _ Hs c)), (sl_conn _ _ (ss_links _ _ Hs c)).
Qed.

Lemma connections_shape s u P h h' :
  same_shape h h' → connections s u P h' = connections s u P h.
Proof.
  intros Hs. unfold connections. rewrite (ss_clients _ _ Hs). apply set_eq. intros c.
  rewrite !elem_of_filter. by rewrite (same_shape_user h h'), (same_shape_servers h h').
Qed.

Lemma hub_inv_shape `{Sched : Schedule} P S h h' :
  same_shape h h' → (∀ c, client_ok (client_at c h')) → hub_inv P S h → hub_inv P S h'.
Proof.
  intros Hs Hok Hi.
  assert (∀ ch, room_members ch h' = room_members ch h) as Hrm.
  { intros ch. unfold room_members. by rewrite (ss_rooms _ _ Hs). }
  split.
  - done.
  - rewrite (ss_voice _ _ Hs). eapply voice_inv_ext; [|apply (hi_voice _ _ _ Hi)].
    intros c. by apply same_shape_ident.
  - rewrite (ss_streams _ _ Hs). apply (hi_stream _ _ _ Hi).
  - intros u c. rewrite (ss_byUser _ _ Hs), (ss_clients _ _ Hs), (same_shape_user h h') by done.
    apply (hi_user _ _ _ Hi).
  - intros k c. rewrite (ss_bySession _ _ Hs), (ss_clients _ _ Hs), (sl_session _ _ (ss_links _ _ Hs c)).
    apply (hi_session _ _ _ Hi).
  - intros s c. rewrite (ss_byServer _ _ Hs), (ss_clients _ _ Hs), (same_shape_servers h h') by done.
    apply (hi_server _ _ _ Hi).
  - rewrite (ss_byUser _ _ Hs), (ss_bySession _ _ Hs), (ss_byServer _ _ Hs).
    apply (hi_tight _ _ _ Hi).
  - intros k c. rewrite (ss_byConn _ _ Hs), (ss_clients _ _ Hs), (sl_conn _ _ (ss_links _ _ Hs c)).
    apply (hi_conn _ _ _ Hi).
  - intros ch c. rewrite Hrm, (same_shape_subs h h') by done. apply (hi_room _ _ _ Hi).
  - rewrite (ss_rooms _ _ Hs). apply (hi_room_open _ _ _ Hi).
  - intros c ch. rewrite (same_shape_subs h h') by done. apply (hi_sub_pos _ _ _ Hi).
  - intros c. rewrite (same_shape_subs h h'), (ss_clients _ _ Hs) by done. apply (hi_sub_live _ _ _ Hi).
  - intros c. rewrite (ss_voice _ _ Hs), (ss_clients _ _ Hs), (same_shape_servers h h') by done.
    apply (hi_voice_live _ _ _ Hi).
  - intros c. rewrite (ss_streams _ _ Hs), (ss_clients _ _ Hs), (same_shape_servers h h') by done.
    apply (hi_stream_live _ _ _ Hi).
  - intros Hser s u. rewrite (connections_shape _ _ _ h h') by done.
    unfold presence_count. rewrite (ss_presence _ _ Hs). by apply (hi_presence _ _ _ Hi).
  - rewrite (ss_presence _ _ Hs). apply (hi_presence_tight _ _ _ Hi).
  - rewrite (ss_clients _ _ Hs). apply (hi_pending _ _ _ Hi).
  - intros c c'. rewrite (ss_clients _ _ Hs), !(sl_conn _ _ (ss_links _ _ Hs _)).
    apply (hi_unique _ _ _ Hi).
Qed.

(** Replacing one client by one with the same links. *)
Lemma same_shape_put c cl h :
  same_links (client_at c h) cl → same_shape h (h <| h_mem ::= <[c := cl]> |>).
Proof.
  intros Hl. split; try done. intros c'. rewrite client_at_insert.
  case_decide; [by subst|]. by split.
Qed.

Lemma client_ok_put c cl h :
  client_ok cl → (∀ c, client_ok (client_at c h)) →
  ∀ c', client_ok (client_at c' (h <| h_mem ::= <[c := cl]> |>)).
Proof. intros Hcl Hok c'. rewrite client_at_insert. by case_decide. Qed.

(** A step that keeps the shape, the policies and the configuration, and
    reopens no connection, is an evolution. *)
Lemma evolves_put c cl h :
  same_links (client_at c h) cl →
  cl_channelAccess cl = cl_channelAccess (client_at c h) →
  (cl_done (client_at c h) = true → cl_done cl = true) →
  evolves h (h <| h_mem ::= <[c := cl]> |>).
Proof.
  intros Hl Ha Hd. pose proof (same_shape_put c cl h Hl) as Hs.
  split; simpl; try done.
  - intros c'. by apply same_shape_ident.
  - intros c'. apply (sl_session _ _ (ss_links _ _ Hs c')).
  - intros c'. rewrite client_at_insert. case_decide; [by subst|done].
  - intros c'. rewrite client_at_insert. case_decide; [by subst|done].
  - intros c'. by rewrite (same_shape_servers h).
  - intros c' ch. right. by rewrite (same_shape_subs h).
  - intros c'. by right.
  - intros c'. by right.
  - pose proof (server_links_insert c cl h) as Hm. rewrite (sl_servers _ _ Hl) in Hm.
    unfold hub_measure. simpl. fold (servers_of c h) in Hm. lia.
Qed.

(** ** Steps on one component *)

(** Writing the trace, the last-seen cache or the clock. *)
Definition inert (h h' : Hub) : Prop :=
  h' = h <| h_trace := h_trace h' |> <| h_lastSeen := h_lastSeen h' |>.

Lemma inert_shape h h' : inert h h' → same_shape h h'.
Proof. intros ->. by split. Qed.

Lemma inert_evolves h h' : inert h h' → evolves h h'.
Proof. intros ->. split; simpl; auto; try reflexivity; done. Qed.

Lemma inert_inv `{Sched : Schedule} P S h h' : inert h h' → hub_inv P S h → hub_inv P S h'.
Proof.
  intros Hin Hi. eapply hub_inv_shape; [by apply inert_shape| |done].
  intros c. rewrite Hin. apply (hi_client _ _ _ Hi).
Qed.

Lemma hub_inv_streams `{Sched : Schedule} P S S' h s :
  hub_inv P S h → stream_inv s →
  (∀ c, is_Some (sst_byClient s !! c) → c ∈ h_clients h ∪ S' ∨ c ∉ P ∧ servers_of c h = ∅) →
  hub_inv P S' (h <| h_streams := s |>).
Proof. intros [] Hs Hl. split; done. Qed.

Lemma evolves_streams h s :
  (∀ c, sst_byClient s !! c = None ∨ sst_byClient s !! c = sst_byClient (h_streams h) !! c) →
  heap_frame (h_streams h) s → evolves h (h <| h_streams := s |>).
Proof.
  intros Hs Hf. split; simpl; auto; try done.
  unfold hub_measure. simpl.
  assert (size (sst_byClient s) ≤ size (sst_byClient (h_streams h))); [|lia].
  apply map_subseteq_size, map_subseteq_spec. intros c st Hst.
  destruct (Hs c) as [?|<-]; congruence.
Qed.

Lemma hub_inv_voice `{Sched : Schedule} P S h v :
  hub_inv P S h → voice_inv (client_ident h) v →
  (∀ c, is_Some (vs_byClient v !! c) → c ∈ h_clients h ∪ P ∨ servers_of c h = ∅) →
  hub_inv P S (h <| h_voice := v |>).
Proof. intros [] Hv Hl. split; done. Qed.

Lemma evolves_voice h v :
  (∀ c, vs_byClient v !! c = None ∨ vs_byClient v !! c = vs_byClient (h_voice h) !! c) →
  evolves h (h <| h_voice := v |>).
Proof.
  intros Hs. split; simpl; auto; try reflexivity; try done.
  unfold hub_measure. simpl.
  assert (size (vs_byClient v) ≤ size (vs_byClient (h_voice h))); [|lia].
  apply map_subseteq_size, map_subseteq_spec. intros c st Hst.
  destruct (Hs c) as [?|<-]; congruence.
Qed.

(** ** Presence counters *)

Definition presence_tight (h : Hub) : Prop :=
  ∀ s m, h_presence h !! s = Some m → m ≠ ∅ ∧ ∀ u n, m !! u = Some n → (0 < n)%Z.

Lemma presence_count_nonneg s u h : presence_tight h → (0 <= presence_count s u h)%Z.
Proof.
  intros Ht. unfold presence_count. destruct (h_presence h !! s) as [m|] eqn:Hm; simpl.
  - destruct (m !! u) as [n|] eqn:Hn; simpl; [|done]. apply Ht in Hm as [_ Hm]. by apply Hm in Hn; lia.
  - by rewrite lookup_empty.
Qed.

Lemma presence_count_insert s m h s' u' :
  presence_count s' u' (h <| h_presence ::= <[s := m]> |>) =
  if decide (s' = s) then default 0%Z (m !! u') else presence_count s' u' h.
Proof.
  unfold presence_count. simpl. rewrite lookup_insert. repeat case_decide; by simplify_eq/=.
Qed.

Lemma presence_count_delete s h s' u' :
  presence_count s' u' (h <| h_presence ::= delete s |>) =
  if decide (s' = s) then 0%Z else presence_count s' u' h.
Proof.
  unfold presence_count. simpl. rewrite lookup_delete. by repeat case_decide.
Qed.

(** [g] and [g'] differ in the presence table only, by [f] at one counter. *)
Definition presence_step (s u : Z) (f : Z → Z) (g g' : Hub) : Prop :=
  g' = g <| h_presence := h_presence g' |> ∧ presence_tight g' ∧
  ∀ s' u', presence_count s' u' g' =
    if decide (s' = s ∧ u' = u) then f (presence_count s u g) else presence_count s' u' g.

Lemma increment_spec s u h :
  presence_tight h →
  wp (incrementPresence s u) (fun b h' => presence_step s u Z.succ h h' ∧
    b = bool_decide (presence_count s u h = 0%Z)) h.
Proof.
  intros Ht. unfold incrementPresence. wp_step. wp_step. wp_step. wp_step. wp_step.
  split; [|apply eq_true_iff_eq; by rewrite Z.eqb_eq, bool_decide_eq_true].
  split_and!.
  - by destruct h.
  - intros s' m. simpl. rewrite lookup_insert. case_decide; [|apply Ht].
    intros [= <-]. split; [apply insert_non_empty|]. intros u' n. rewrite lookup_insert.
    case_decide; [intros [= <-]; pose proof (presence_count_nonneg s u h Ht); lia|].
    intros Hn. destruct (h_presence h !! s) as [m0|] eqn:Hm; simpl in Hn;
      [|by rewrite lookup_empty in Hn]. by apply (Ht s m0 Hm) in Hn.
  - intros s' u'. rewrite presence_count_insert. destruct (decide (s' = s)) as [->|].
    + rewrite lookup_insert. repeat case_decide; simplify_eq/=; first [tauto|lia|done].
    + by rewrite (decide_False (P := _ ∧ _)) by tauto.
Qed.

Lemma decrement_spec s u h :
  presence_tight h →
  wp (decrementPresence s u) (fun b h' => presence_step s u (fun n => Z.max 0 (n - 1)) h h' ∧
    b = bool_decide (presence_count s u h = 1%Z)) h.
Proof.
  intros Ht. pose proof (presence_count_nonneg s u h Ht) as Hnn.
  unfold decrementPresence. wp_step. wp_step.
  destruct (h_presence h !! s) as [m|] eqn:Hm.
  2:{ assert (presence_count s u h = 0%Z) as H0.
      { unfold presence_count. rewrite Hm. simpl. by rewrite lookup_empty. }
      wp_step. rewrite H0. split; [|by rewrite bool_decide_eq_false_2].
      split_and!; [by destruct h|done|]. intros s' u'. case_decide as Hd; [|done].
      destruct Hd as [-> ->]. lia. }
  assert (presence_count s u h = default 0%Z (m !! u)) as Hpc by (unfold presence_count; by rewrite Hm).
  rewrite <- Hpc. set (n := presence_count s u h) in *.
  assert (∀ u', presence_count s u' h = default 0%Z (m !! u')) as Hall
    by (intros; unfold presence_count; by rewrite Hm).
  destruct (Z.eqb_spec n 0) as [H0|H0].
  { wp_step. rewrite H0. split; [|by rewrite bool_decide_eq_false_2].
    split_and!; [by destruct h|done|]. intros s' u'. fold n. case_decide as Hd; [|done].
    destruct Hd as [-> ->]. fold n. lia. }
  destruct (Z.ltb_spec 0 (n - 1)).
  - wp_step. wp_step. wp_step. split; [|rewrite bool_decide_eq_false_2; [done|lia]].
    split_and!; [by destruct h| |].
    + intros s' m'. simpl. rewrite lookup_insert. case_decide; [|apply Ht]. intros [= <-].
      split; [apply insert_non_empty|]. intros u' n'. rewrite lookup_insert.
      case_decide; [intros [= <-]; lia|]. apply (Ht s m Hm).
    + intros s' u'. rewrite presence_count_insert. fold n. destruct (decide (s' = s)) as [->|].
      * rewrite lookup_insert. repeat case_decide; simplify_eq/=; first [done|lia|by rewrite Hall|naive_solver].
      * by rewrite (decide_False (P := _ ∧ _)) by tauto.
  - assert (n = 1%Z) as Hn1 by lia. rewrite bool_decide_eq_true_2 by done.
    assert (∀ g, presence_tight g → g = h <| h_presence := h_presence g |> →
      (∀ s' u', presence_count s' u' g = if decide (s' = s ∧ u' = u) then 0%Z
         else presence_count s' u' h) →
      presence_step s u (fun n => Z.max 0 (n - 1)) h g ∧ true = true) as Hend.
    { intros g Hg Heq Hc. split; [|done]. split_and!; [done|done|]. intros s' u'. rewrite Hc.
      case_decide; [|done]. fold n. lia. }
    case_decide as Hemp; wp_step; wp_step; wp_step; apply Hend.
    + intros s' m'. simpl. rewrite lookup_delete. case_decide; [done|apply Ht].
    + by destruct h.
    + intros s' u'. rewrite presence_count_delete. destruct (decide (s' = s)) as [->|].
      * case_decide; [done|]. rewrite Hall. assert (u' ≠ u) as Hu by naive_solver.
        rewrite <- (lookup_delete_ne m u u') by done. by rewrite Hemp, lookup_empty.
      * by rewrite (decide_False (P := _ ∧ _)) by tauto.
    + intros s' m'. simpl. rewrite lookup_insert. case_decide; [|apply Ht]. intros [= <-].
      split; [done|]. intros u' n' [_ Hn']%lookup_delete_Some. by apply (Ht s m Hm) in Hn'.
    + by destruct h.
    + intros s' u'. rewrite presence_count_insert. destruct (decide (s' = s)) as [->|].
      * rewrite lookup_delete. repeat case_decide; simplify_eq/=; first [done|by rewrite Hall|naive_solver].
      * by rewrite (decide_False (P := _ ∧ _)) by tauto.
Qed.

(** ** Leaving one server *)

Definition without_server (s : Z) (cl : Client) : Client := cl <| cl_servers ::= (.∖ {[s]}) |>.

(** The hub after [removeServer] and [unindexServerLocked]. *)
Definition unlinked (c : ClientRef) (s : Z) (h : Hub) : Hub :=
  h <| h_mem ::= <[c := without_server s (client_at c h)]> |>
    <| h_clientsByServer ::= index_remove s c |>.

Lemma unlinked_client c s h c' :
  client_at c' (unlinked c s h) =
  if decide (c' = c) then without_server s (client_at c h) else client_at c' h.
Proof. apply (client_at_insert c (without_server s (client_at c h)) h c'). Qed.

Lemma unlinked_servers c s h c' :
  servers_of c' (unlinked c s h) =
  if decide (c' = c) then servers_of c h ∖ {[s]} else servers_of c' h.
Proof. unfold servers_of. rewrite unlinked_client. by case_decide. Qed.

Lemma unlinked_user c s h c' : user_of c' (unlinked c s h) = user_of c' h.
Proof. unfold user_of. rewrite unlinked_client. case_decide; by subst. Qed.

Lemma unlinked_subs c s h c' : subs_of c' (unlinked c s h) = subs_of c' h.
Proof. unfold subs_of. rewrite unlinked_client. case_decide; by subst. Qed.

Lemma unlinked_ident c s h c' : client_ident (unlinked c s h) c' = client_ident h c'.
Proof. unfold client_ident. rewrite unlinked_client. case_decide; by subst. Qed.

Lemma unlinked_key c s h c' :
  cl_sessionKey (client_at c' (unlinked c s h)) = cl_sessionKey (client_at c' h).
Proof. rewrite unlinked_client. case_decide; by subst. Qed.

Lemma unlinked_conn c s h c' :
  cl_connectionID (client_at c' (unlinked c s h)) = cl_connectionID (client_at c' h).
Proof. rewrite unlinked_client. case_decide; by subst. Qed.

(** One connection fewer for exactly one (server, user) pair. *)
Lemma connections_unlinked P c s h s' u' :
  c ∈ h_clients h ∪ P → s ∈ servers_of c h →
  Z.of_nat (size (connections s' u' P (unlinked c s h))) =
  if decide (s' = s ∧ u' = user_of c h)
  then Z.max 0 (Z.of_nat (size (connections s (user_of c h) P h)) - 1)
  else Z.of_nat (size (connections s' u' P h)).
Proof.
  intros Hc Hs. case_decide as Hd.
  - destruct Hd as [-> ->].
    assert (connections s (user_of c h) P (unlinked c s h) =
      connections s (user_of c h) P h ∖ {[c]}) as ->.
    { apply set_eq. intros c'. unfold connections.
      rewrite elem_of_difference, !elem_of_filter, unlinked_servers, unlinked_user.
      simpl. case_decide; set_solver. }
    assert (c ∈ connections s (user_of c h) P h) as Hin.
    { unfold connections. by rewrite elem_of_filter. }
    rewrite size_difference by set_solver. rewrite size_singleton. lia.
  - do 2 f_equal. apply set_eq. intros c'. unfold connections.
    rewrite !elem_of_filter, unlinked_servers, unlinked_user. simpl.
    case_decide; [subst c'|done]. set_solver.
Qed.

Lemma hub_inv_unlink `{Sched : Schedule} P S c s h h' :
  hub_inv P S h → c ∈ h_clients h ∪ P → s ∈ servers_of c h →
  presence_step s (user_of c h) (fun n => Z.max 0 (n - 1)) (unlinked c s h) h' →
  hub_inv P S h'.
Proof.
  intros Hi Hc Hs (Heq&Ht&Hcount).
  generalize dependent (h_presence h'). intros p ->.
  assert (∀ s' u', presence_count s' u' (unlinked c s h) = presence_count s' u' h) as Hpc by done.
  split; simpl; try apply Hi.
  - intros c'. change (client_ok (client_at c' (unlinked c s h))). rewrite unlinked_client.
    case_decide; [|apply (hi_client _ _ _ Hi)].
    by apply (client_ok_frame (client_at c h)), (hi_client _ _ _ Hi).
  - eapply voice_inv_ext; [|apply (hi_voice _ _ _ Hi)]. apply (unlinked_ident c s h).
  - intros u c'. change (c' ∈ index_get u (h_clientsByUser h) ↔ c' ∈ h_clients h ∧
      user_of c' (unlinked c s h) = u). rewrite unlinked_user. apply (hi_user _ _ _ Hi).
  - intros k c'. change (c' ∈ index_get k (h_clientsBySession h) ↔ c' ∈ h_clients h ∧
      cl_sessionKey (client_at c' (unlinked c s h)) = k).
    rewrite unlinked_key. apply (hi_session _ _ _ Hi).
  - intros s' c'. change (c' ∈ index_get s' (index_remove s c (h_clientsByServer h)) ↔
      c' ∈ h_clients h ∧ s' ∈ servers_of c' (unlinked c s h)).
    rewrite elem_of_index_remove, (hi_server _ _ _ Hi), unlinked_servers.
    case_decide; [subst c'|]; set_solver.
  - destruct (hi_tight _ _ _ Hi) as (?&?&?). split_and!; [done|done|].
    by apply index_tight_remove.
  - intros k c'. change (h_clientsByConnection h !! k = Some c' ↔ c' ∈ h_clients h ∧
      cl_connectionID (client_at c' (unlinked c s h)) = k).
    rewrite unlinked_conn. apply (hi_conn _ _ _ Hi).
  - intros ch c'. change (c' ∈ room_members ch h ↔ is_Some (subs_of c' (unlinked c s h) !! ch)).
    rewrite unlinked_subs. apply (hi_room _ _ _ Hi).
  - intros c' ch. change (is_Some (subs_of c' (unlinked c s h) !! ch) → (0 < ch)%Z).
    rewrite unlinked_subs. apply (hi_sub_pos _ _ _ Hi).
  - intros c'. change (subs_of c' (unlinked c s h) ≠ ∅ → c' ∈ h_clients h ∪ P).
    rewrite unlinked_subs. apply (hi_sub_live _ _ _ Hi).
  - intros c' Hv. change (c' ∈ h_clients h ∪ P ∨ servers_of c' (unlinked c s h) = ∅).
    rewrite unlinked_servers. destruct (hi_voice_live _ _ _ Hi c' Hv); [by left|right].
    case_decide; set_solver.
  - intros c' Hv. change (c' ∈ h_clients h ∪ S ∨ c' ∉ P ∧ servers_of c' (unlinked c s h) = ∅).
    rewrite unlinked_servers. destruct (hi_stream_live _ _ _ Hi c' Hv) as [?|[? ?]]; [by left|right].
    case_decide; set_solver.
  - intros Hser s' u'. rewrite Hcount, !Hpc, !(hi_presence _ _ _ Hi Hser).
    symmetry. exact (connections_unlinked P c s h s' u' Hc Hs).
  - exact Ht.
  - intros c1 c2. change (c1 ∈ h_clients h → cl_connectionID (client_at c2 (unlinked c s h)) =
      cl_connectionID (client_at c1 (unlinked c s h)) → c2 = c1).
    rewrite !unlinked_conn. apply (hi_unique _ _ _ Hi).
Qed.

Lemma evolves_unlink c s f h h' :
  s ∈ servers_of c h → presence_step s (user_of c h) f (unlinked c s h) h' →
  evolves h h' ∧ hub_measure h' < hub_measure h ∧
  (∀ c', servers_of c' h' = if decide (c' = c) then servers_of c h ∖ {[s]} else servers_of c' h) ∧
  h_clients h' = h_clients h ∧ user_of c h' = user_of c h.
Proof.
  intros Hs (Heq&_&_). generalize dependent (h_presence h'). intros p ->.
  set (h' := (unlinked c s h) <| h_presence := p |>).
  assert (∀ c', servers_of c' h' = if decide (c' = c) then servers_of c h ∖ {[s]} else servers_of c' h)
    as Hsrv by exact (unlinked_servers c s h).
  assert (hub_measure h' < hub_measure h) as Hm.
  { pose proof (server_links_insert c (without_server s (client_at c h)) h) as Hl. simpl in Hl.
    change (cl_servers (client_at c h)) with (servers_of c h) in Hl.
    rewrite size_difference, size_singleton in Hl by set_solver.
    assert (size (servers_of c h) ≠ 0) by (intros E%size_empty_inv; set_solver).
    unfold hub_measure. simpl. lia. }
  split; [|split_and!; [done|exact Hsrv|done|exact (unlinked_user c s h c)]].
  split; simpl; try done.
  - exact (unlinked_ident c s h).
  - exact (unlinked_key c s h).
  - intros c'. change (cl_channelAccess (client_at c' (unlinked c s h)) =
      cl_channelAccess (client_at c' h)). rewrite unlinked_client. by case_decide; subst.
  - intros c'. change (cl_done (client_at c' h) = true →
      cl_done (client_at c' (unlinked c s h)) = true). rewrite unlinked_client.
    by case_decide; subst.
  - intros c'. rewrite Hsrv. case_decide; subst; set_solver.
  - intros c' ch. right. f_equal. exact (unlinked_subs c s h c').
  - by right.
  - by right.
  - lia.
Qed.

(** ** Leaving the indexes *)

(** [h'] is [h] with [c] taken out of the client set and the indexes. *)
Record detached (c : ClientRef) (h h' : Hub) : Prop := {
  dt_frame : h' = h <| h_clients := h_clients h ∖ {[c]} |>
    <| h_clientsByServer := h_clientsByServer h' |>
    <| h_clientsByConnection := delete (cl_connectionID (client_at c h)) (h_clientsByConnection h) |>
    <| h_clientsByUser := index_remove (user_of c h) c (h_clientsByUser h) |>
    <| h_clientsBySession :=
         index_remove (cl_sessionKey (client_at c h)) c (h_clientsBySession h) |>;
  dt_server : ∀ s c', c' ∈ index_get s (h_clientsByServer h') ↔
    c' ∈ index_get s (h_clientsByServer h) ∧ (c' ≠ c ∨ s ∉ servers_of c h);
  dt_tight : index_tight (h_clientsByServer h) → index_tight (h_clientsByServer h')
}.

Lemma detached_inv `{Sched : Schedule} P c h h' :
  detached c h h' → hub_inv P ∅ h → c ∉ P → (c ∈ h_clients h ∨ servers_of c h = ∅) →
  hub_inv ({[c]} ∪ P) {[c]} h'.
Proof.
  intros [Heq Hsrv Ht] Hi HP Hc. generalize dependent (h_clientsByServer h'). intros ix -> Hsrv Ht.
  assert (∀ s' u', size (connections s' u' ({[c]} ∪ P)
    (h <| h_clients := h_clients h ∖ {[c]} |>)) = size (connections s' u' P h)) as Hconn.
  { intros s' u'. f_equal. apply set_eq. intros c'. unfold connections.
    rewrite !elem_of_filter. unfold servers_of, user_of in *. simpl.
    change (client_at c' (h <| h_clients := h_clients h ∖ {[c]} |>)) with (client_at c' h).
    destruct (decide (c' = c)) as [->|]; [|set_solver].
    destruct Hc as [Hc|Hc]; [set_solver|]. rewrite Hc. set_solver. }
  destruct (hi_tight _ _ _ Hi) as (Ht1&Ht2&Ht3). pose proof (hi_pending _ _ _ Hi) as Hp.
  split; simpl; try apply Hi.
  - intros u c'. rewrite elem_of_index_remove, (hi_user _ _ _ Hi).
    change (user_of c' _) with (user_of c' h). set_solver.
  - intros k c'. rewrite elem_of_index_remove, (hi_session _ _ _ Hi). simpl.
    change (client_at c' _) with (client_at c' h). set_solver.
  - intros s c'. rewrite Hsrv, (hi_server _ _ _ Hi).
    change (servers_of c' _) with (servers_of c' h). set_solver.
  - split_and!; auto using index_tight_remove.
  - intros k c'. change (client_at c' _) with (client_at c' h).
    rewrite lookup_delete_Some, (hi_conn _ _ _ Hi), elem_of_difference, not_elem_of_singleton.
    split.
    + intros [Hne [Hc' Hk]]. split_and!; [done| |done]. by intros ->.
    + intros [[Hc' Hne] Hk]. split; [|done]. intros Heq. apply Hne. symmetry.
      apply (hi_unique _ _ _ Hi); [done|congruence].
  - intros c'. change (subs_of c' _) with (subs_of c' h). intros Hs.
    pose proof (hi_sub_live _ _ _ Hi c' Hs). destruct (decide (c' = c)); set_solver.
  - intros c' Hs. change (servers_of c' _) with (servers_of c' h).
    destruct (hi_voice_live _ _ _ Hi c' Hs); [|by right].
    left. destruct (decide (c' = c)); set_solver.
  - intros c' Hs. change (servers_of c' _) with (servers_of c' h).
    destruct (decide (c' = c)); [left; set_solver|].
    destruct (hi_stream_live _ _ _ Hi c' Hs) as [?|[? ?]]; [left; set_solver|right].
    split; [set_solver|done].
  - intros Hser s u. etrans; [by apply (hi_presence _ _ _ Hi)|]. f_equal. symmetry. apply Hconn.
  - set_solver.
  - intros c1 c2 [Hc1 _]%elem_of_difference. by apply (hi_unique _ _ _ Hi).
Qed.

Lemma evolves_detached c h h1 h2 :
  detached c h h1 → evolves h1 h2 → servers_of c h2 = ∅ → evolves h h2.
Proof.
  intros [Heq _ _] Hev Hs. generalize dependent (h_clientsByServer h1). intros ix ->.
  destruct Hev as [Hcl Hgone Hid Hkey Hacc Hdone Hsrv Hsub Hv Hst Hheap Hm Hclosed Hl Hlim].
  split; try done.
  - simpl in Hcl. set_solver.
  - intros c' Hc' Hn. destruct (decide (c' = c)) as [->|]; [done|]. apply Hgone; [|done].
    simpl. set_solver.
Qed.

(** A connection that has left everything is no longer on the way out. *)
Lemma hub_inv_finished `{Sched : Schedule} P c h :
  hub_inv ({[c]} ∪ P) ∅ h → c ∉ P → subs_of c h = ∅ → servers_of c h = ∅ →
  vs_byClient (h_voice h) !! c = None → hub_inv P ∅ h.
Proof.
  intros Hi HP Hsub Hsrv Hv. split; try apply Hi.
  - intros c' Hs. pose proof (hi_sub_live _ _ _ Hi c' Hs).
    destruct (decide (c' = c)); [congruence|set_solver].
  - intros c' Hs. destruct (hi_voice_live _ _ _ Hi c' Hs); [|by right].
    destruct (decide (c' = c)); [subst; rewrite Hv in Hs; by destruct Hs|set_solver].
  - intros c' Hs. destruct (hi_stream_live _ _ _ Hi c' Hs) as [?|[? ?]]; [by left|right].
    split; [set_solver|done].
  - intros Hser s u. rewrite (hi_presence _ _ _ Hi Hser). do 2 f_equal. apply set_eq. intros c'.
    unfold connections. rewrite !elem_of_filter. destruct (decide (c' = c)) as [->|]; [|set_solver].
    rewrite Hsrv. set_solver.
  - pose proof (hi_pending _ _ _ Hi). set_solver.
Qed.

(** ** Leaving one room *)

(** The hub after the client left channel [ch] and [rooms'] replaced the rooms. *)
Definition unsubscribed (c : ClientRef) (ch : Z) (rooms' : gmap Z room) (h : Hub) : Hub :=
  h <| h_rooms := rooms' |>
    <| h_mem ::= <[c := removeSubscription ch (client_at c h)]> |>.

Lemma unsubscribed_client c ch rooms' h c' :
  client_at c' (unsubscribed c ch rooms' h) =
  if decide (c' = c) then removeSubscription ch (client_at c h) else client_at c' h.
Proof. exact (client_at_insert c _ (h <| h_rooms := rooms' |>) c'). Qed.

Lemma unsubscribed_subs c ch rooms' h c' :
  subs_of c' (unsubscribed c ch rooms' h) =
  if decide (c' = c) then delete ch (subs_of c h) else subs_of c' h.
Proof. unfold subs_of. rewrite unsubscribed_client. by case_decide. Qed.

(** Every other projection of a client is unchanged. *)
Lemma unsubscribed_field {A} (f : Client → A) c ch rooms' h c' :
  (∀ cl, f (removeSubscription ch cl) = f cl) →
  f (client_at c' (unsubscribed c ch rooms' h)) = f (client_at c' h).
Proof. intros Hf. rewrite unsubscribed_client. case_decide; [|done]. subst. apply Hf. Qed.

Definition members_in (ch : Z) (rooms : gmap Z room) : gset ClientRef :=
  match rooms !! ch with Some r => rm_clients r | None => ∅ end.

Lemma hub_inv_unsubscribed `{Sched : Schedule} P S c ch rooms' h :
  hub_inv P S h →
  (∀ ch' c', c' ∈ members_in ch' rooms' ↔ c' ∈ room_members ch' h ∧ (ch' ≠ ch ∨ c' ≠ c)) →
  (∀ ch' r, rooms' !! ch' = Some r → rm_closed r = false) →
  hub_inv P S (unsubscribed c ch rooms' h).
Proof.
  intros Hi Hroom Hopen. set (h' := unsubscribed c ch rooms' h).
  assert (∀ c', servers_of c' h' = servers_of c' h) as Hsrv
    by (intros; by apply (unsubscribed_field cl_servers)).
  assert (∀ c', user_of c' h' = user_of c' h) as Husr
    by (intros; by apply (unsubscribed_field cl_userID)).
  assert (∀ c', cl_connectionID (client_at c' h') = cl_connectionID (client_at c' h)) as Hconn
    by (intros; by apply (unsubscribed_field cl_connectionID)).
  assert (∀ c' ch', is_Some (subs_of c' h' !! ch') ↔
    is_Some (subs_of c' h !! ch') ∧ (ch' ≠ ch ∨ c' ≠ c)) as Hsub.
  { intros c' ch'. unfold h'. rewrite unsubscribed_subs. case_decide; [subst c'|naive_solver].
    rewrite lookup_delete. case_decide; [|naive_solver]. split; [by intros []|naive_solver]. }
  split; try apply Hi.
  - intros c'. unfold h'. rewrite unsubscribed_client. case_decide; [|apply (hi_client _ _ _ Hi)].
    by apply (client_ok_frame (client_at c h)), (hi_client _ _ _ Hi).
  - eapply voice_inv_ext; [|apply (hi_voice _ _ _ Hi)]. intros c'. unfold client_ident.
    rewrite Hconn. f_equal. apply Husr.
  - intros u c'. rewrite Husr. apply (hi_user _ _ _ Hi).
  - intros k c'. unfold h'. rewrite (unsubscribed_field cl_sessionKey) by done.
    apply (hi_session _ _ _ Hi).
  - intros s c'. rewrite Hsrv. apply (hi_server _ _ _ Hi).
  - intros k c'. rewrite Hconn. apply (hi_conn _ _ _ Hi).
  - intros ch' c'. rewrite Hsub, <- (hi_room _ _ _ Hi). apply Hroom.
  - done.
  - intros c' ch' [? _]%Hsub. by apply (hi_sub_pos _ _ _ Hi c').
  - intros c' Hne. apply (hi_sub_live _ _ _ Hi). intros He. apply Hne.
    unfold h'. rewrite unsubscribed_subs. case_decide; [subst c'|done]. by rewrite He, delete_empty.
  - intros c'. rewrite Hsrv. apply (hi_voice_live _ _ _ Hi).
  - intros c'. rewrite Hsrv. apply (hi_stream_live _ _ _ Hi).
  - intros Hser s u. etrans; [by apply (hi_presence _ _ _ Hi)|]. do 2 f_equal. apply set_eq. intros c'.
    unfold connections. by rewrite !elem_of_filter, Hsrv, Husr.
  - intros c1 c2. rewrite !Hconn. apply (hi_unique _ _ _ Hi).
Qed.

Lemma evolves_unsubscribed c ch rooms' h : evolves h (unsubscribed c ch rooms' h).
Proof.
  set (h' := unsubscribed c ch rooms' h).
  assert (∀ A (f : Client → A), (∀ cl, f (removeSubscription ch cl) = f cl) → ∀ c',
    f (client_at c' h') = f (client_at c' h)) as Hf by (intros; by apply unsubscribed_field).
  split; try done.
  - intros c'. unfold client_ident. by rewrite !Hf.
  - intros c'. by apply Hf.
  - intros c'. by apply Hf.
  - intros c'. by rewrite (Hf _ cl_done).
  - intros c'. unfold servers_of. by rewrite (Hf _ cl_servers).
  - intros c' ch'. unfold h'. rewrite unsubscribed_subs. case_decide; [subst|by right].
    rewrite lookup_delete. case_decide; auto.
  - by right.
  - by right.
  - pose proof (server_links_insert c (removeSubscription ch (client_at c h)) h) as Hl.
    simpl in Hl. change (cl_servers (client_at c h)) with (servers_of c h) in Hl.
    unfold hub_measure. simpl. lia.
Qed.
