(* ===== verification/HubSpecs.v ===== *)
(** * The hub: specifications of the recursive core

    Every function of the recursive core, run with a callback that satisfies
    [unreg_ok], returns, preserves the invariant and only [evolves] the hub;
    [unregister] with enough fuel is such a callback, by induction on the fuel. *)

From S2P Require Import Prelude Events Client ClientFacts ClientAccess.
From S2P Require Import VoiceState VoiceFacts StreamState StreamFacts Hub HubInv.

Section specs.
Context `{MapOrder} `{Sched : Schedule}.

(** [c] may be unregistered: it is not already on the way out, and it is
    registered or has no membership left. *)
Definition settled (P : gset ClientRef) (c : ClientRef) (h : Hub) : Prop :=
  c ∉ P ∧ (c ∈ h_clients h ∨ servers_of c h = ∅).

Definition good (P : gset ClientRef) (h h' : Hub) : Prop := hub_inv P ∅ h' ∧ evolves h h'.

Definition unreg_ok (m : nat) (unreg : ClientRef → M Hub unit) : Prop :=
  ∀ P h c, hub_inv P ∅ h → settled P c h → hub_measure h < m →
    wp (unreg c) (fun _ h' => good P h h' ∧ c ∉ h_clients h' ∧ servers_of c h' = ∅) h.

Lemma settled_evolves P c h h' : evolves h h' → settled P c h → settled P c h'.
Proof.
  intros Hev [HP [Hc|Hs]]; (split; [done|]).
  - destruct (decide (c ∈ h_clients h')); [by left|]. right. by apply (ev_gone _ _ Hev).
  - right. pose proof (ev_servers _ _ Hev c). set_solver.
Qed.

Lemma settled_registered P c h : hub_inv P ∅ h → c ∈ h_clients h → settled P c h.
Proof. intros Hi Hc. split; [|by left]. pose proof (hi_pending _ _ _ Hi). set_solver. Qed.

Lemma good_refl P h : hub_inv P ∅ h → good P h h.
Proof. split; [done|reflexivity]. Qed.

Lemma good_trans P h1 h2 h3 : good P h1 h2 → good P h2 h3 → good P h1 h3.
Proof. intros [_ E1] [? E2]. split; [done|]. by etrans. Qed.

(** ** Enqueueing *)

Lemma hub_enqueue_spec P S c e h :
  hub_inv P S h → event_typed e →
  wp (hub_enqueue c e) (fun _ h' => hub_inv P S h' ∧ evolves h h' ∧ same_shape h h') h.
Proof.
  intros Hi He. pose proof (enqueue_client_ok e (client_at c h) (hi_client _ _ _ Hi c) He) as Hwp.
  unfold hub_enqueue, on_client, wp in *.
  destruct (enqueue e (client_at c h)) as [[ok cl]| |]; [|done..].
  destruct Hwp as (Hok&(Hacc&Hconn&Huser&Hkey&_&_&_&Hdone&_&Hsubs&Hsrv)&_).
  assert (same_links (client_at c h) cl) as Hl by done.
  split_and!.
  - eapply hub_inv_shape; [by apply same_shape_put|by apply client_ok_put, (hi_client _ _ _ Hi)|done].
  - apply evolves_put; [done|done|congruence].
  - by apply same_shape_put.
Qed.

(** The delivery loops touch the queues only and report recipients. *)
Lemma deliver_loop P S e clients n0 h :
  hub_inv P S h → event_typed e →
  wp (fold_each clients (n0, []) (deliver e)) (fun r h' =>
    hub_inv P S h' ∧ evolves h h' ∧ same_shape h h' ∧ ∀ c, c ∈ r.2 → c ∈ clients) h.
Proof.
  intros Hi He.
  apply (wp_fold_each clients (n0, []) (deliver e) (fun pre r h' =>
    hub_inv P S h' ∧ evolves h h' ∧ same_shape h h' ∧ ∀ c, c ∈ r.2 → c ∈ pre)).
  { split_and!; [done|reflexivity|by split|]. intros c Hc. by apply not_elem_of_nil in Hc. }
  intros pre c rest [n failed] h1 _ (Hi1&Hev1&Hs1&Hf). simpl in Hf. unfold deliver.
  wp_step. eapply wp_mono; [by apply (hub_enqueue_spec P S c e)|].
  intros ok h2 (Hi2&Hev2&Hs2). wp_step. split_and!; [done|by etrans| |].
  - destruct Hs1 as [L1], Hs2 as [L2]. split; try congruence.
    intros c'. destruct (L1 c'), (L2 c'). split; congruence.
  - intros c'. destruct ok; simpl; set_solver.
Qed.

Lemma same_shape_trans h1 h2 h3 : same_shape h1 h2 → same_shape h2 h3 → same_shape h1 h3.
Proof.
  intros [L1] [L2]. split; try congruence.
  intros c'. destruct (L1 c'), (L2 c'). split; congruence.
Qed.

Lemma deliver_once_loop P S e clients h :
  hub_inv P S h → event_typed e →
  wp (fold_each clients (∅, 0, []) (deliver_once e)) (fun r h' =>
    hub_inv P S h' ∧ evolves h h' ∧ same_shape h h' ∧ ∀ c, c ∈ r.2 → c ∈ clients) h.
Proof.
  intros Hi He.
  apply (wp_fold_each clients (∅, 0, []) (deliver_once e) (fun pre r h' =>
    hub_inv P S h' ∧ evolves h h' ∧ same_shape h h' ∧ ∀ c, c ∈ r.2 → c ∈ pre)).
  { split_and!; [done|reflexivity|by split|]. intros c Hc. by apply not_elem_of_nil in Hc. }
  intros pre c rest [[seen n] failed] h1 _ (Hi1&Hev1&Hs1&Hf). simpl in Hf. unfold deliver_once.
  case_bool_decide.
  { wp_step. split_and!; [done..|]. simpl. set_solver. }
  wp_step. eapply wp_mono; [by apply (hub_enqueue_spec P S c e)|].
  intros ok h2 (Hi2&Hev2&Hs2). wp_step. split_and!; [done|by etrans|by eapply same_shape_trans|].
  intros c'. destruct ok; simpl; set_solver.
Qed.

Lemma settled_shape P c h h' : same_shape h h' → settled P c h → settled P c h'.
Proof.
  intros Hs [? Hc]. split; [done|]. rewrite (ss_clients _ _ Hs), (same_shape_servers h h') by done.
  done.
Qed.

Lemma clientsForServer_settled P s h c :
  hub_inv P ∅ h → c ∈ clientsForServer s h → settled P c h.
Proof.
  intros Hi Hc. apply settled_registered; [done|]. unfold clientsForServer in Hc.
  by apply elem_of_range_set, (hi_server _ _ _ Hi) in Hc as [? _].
Qed.

Lemma event_typed_share e : event_typed e → event_typed (shareEncoding e).
Proof.
  intros He. destruct (shareEncoding_data e) as (_&Ht&Hd). unfold event_typed. by rewrite Ht, Hd.
Qed.

Lemma event_typed_new t d : t ≠ EventChannelSyncRequired → event_typed (new_event t d).
Proof. by intros Ht Heq. Qed.

Lemma closeVoiceSession_spec k h : wp (closeVoiceSession k) (fun _ h' => inert h h') h.
Proof. unfold closeVoiceSession. wp_steps; by destruct h. Qed.

Lemma closeStreamSession_spec k h : wp (closeStreamSession k) (fun _ h' => inert h h') h.
Proof. unfold closeStreamSession. wp_steps; by destruct h. Qed.

Lemma save_last_seen_spec u t st h : wp (save_last_seen u t st) (fun _ h' => inert h h') h.
Proof. unfold save_last_seen. wp_steps; by destruct h. Qed.

Lemma inert_good P h h' : hub_inv P ∅ h → inert h h' → good P h h'.
Proof. intros Hi Hin. split; [by eapply inert_inv|by apply inert_evolves]. Qed.

(** ** Leaving a stream *)

(** The caller may still own a stream ([S]); afterwards nobody on the way out
    does. A viewer's publisher is registered, so it can be notified. *)
Lemma streams_leave_spec P S c h :
  hub_inv P S h → S ⊆ {[c]} →
  wp (on_streams (stream_leave c)) (fun r h1 =>
    good P h h1 ∧ sst_byClient (h_streams h1) !! c = None ∧ h1 = h <| h_streams := h_streams h1 |> ∧
    match r with
    | None => True
    | Some (ref, pub) => hub_measure h1 < hub_measure h ∧
        ∃ v, sst_heap (h_streams h1) !! ref = Some v ∧
          (if pub : bool then as_publisher v = c else settled P (as_publisher v) h1)
    end) h.
Proof.
  intros Hi HS. pose proof (hi_stream _ _ _ Hi) as Hsi.
  unfold on_streams, wp. rewrite (stream_leave_run (client_ident h)) by done.
  destruct (sst_byClient (h_streams h) !! c) as [st|] eqn:Hst.
  2:{ assert (h <| h_streams := h_streams h |> = h) as -> by (by destruct h).
      split_and!; [|done|by destruct h|done]. split; [|reflexivity].
      assert (h = h <| h_streams := h_streams h |>) as -> by (by destruct h).
      eapply hub_inv_streams; [done|done|]. intros c' Hc'.
      pose proof (hi_stream_live _ _ _ Hi c' Hc') as Hl. simpl.
      destruct (decide (c' = c)) as [->|]; [by destruct Hc'; congruence|].
      destruct Hl; [left; set_solver|by right]. }
  destruct (si_client _ Hsi _ _ Hst) as (v&Hv&Hroom&Hcase). rewrite Hv.
  assert (∀ s', stream_inv s' →
    (∀ k, sst_byClient s' !! k = None ∨ sst_byClient s' !! k = sst_byClient (h_streams h) !! k) →
    sst_byClient s' !! c = None → heap_frame (h_streams h) s' →
    good P h (h <| h_streams := s' |>) ∧ hub_measure (h <| h_streams := s' |>) < hub_measure h)
    as Hgood.
  { intros s' Hs' Hsh Hc Hf. split.
    - split; [|by apply evolves_streams]. eapply hub_inv_streams; [done|done|].
      intros c' Hc'. destruct (decide (c' = c)) as [->|]; [by destruct Hc'; congruence|].
      assert (is_Some (sst_byClient (h_streams h) !! c')) as Hc''.
      { destruct (Hsh c') as [Hn|<-]; [|done]. destruct Hc'. congruence. }
      destruct (hi_stream_live _ _ _ Hi c' Hc''); [left; set_solver|by right].
    - pose proof (map_shrink_lt _ _ c Hsh ltac:(eauto) Hc). unfold hub_measure. simpl. lia. }
  destruct (sk_publisher st) eqn:Hp.
  - set (s' := stopped c v (h_streams h)).
    assert (sst_byClient s' !! c = None) as Hc by (simpl; apply map_lookup_filter_None; naive_solver).
    destruct (Hgood s') as [Hg Hlt]; [exact (stopped_inv c st v _ Hsi Hst Hp Hv)| |done|by intros r|].
    { intros k. simpl. rewrite map_lookup_filter. destruct (_ !! k); [|by left]. simpl.
      case_guard; simpl; auto. }
    split_and!; [done|done|done|exact Hlt|]. by exists v.
  - set (s' := unwatched c (sk_stream st) v (h_streams h)).
    assert (sst_byClient s' !! c = None) as Hc by (simpl; by rewrite lookup_delete_eq).
    pose proof (unwatched_inv (client_ident h) c st v _ Hsi Hst Hp Hv) as Hs'. fold s' in Hs'.
    destruct (Hgood s') as [Hg Hlt]; [done| |done| |].
    { intros k. simpl. rewrite lookup_delete. case_decide; auto. }
    { intros r. simpl. rewrite lookup_insert. case_decide; [|done]. subst r. by rewrite Hv. }
    split_and!; [done|done|done|exact Hlt|]. eexists. simpl. rewrite lookup_insert_eq.
    split; [done|]. simpl. destruct Hg as [Hg _].
    assert (stream_room (as_channelID v) s' !! as_publisher v = Some (sk_stream st)) as Hr by done.
    destruct (si_live _ Hs' _ _ _ Hr) as (_&st'&_&_&_&Hst'&_).
    destruct (hi_stream_live _ _ _ Hg (as_publisher v)) as [Hin|[? ?]]; [simpl; eauto| |].
    + apply settled_registered; [done|set_solver].
    + split; [done|by right].
Qed.

(** ** The functions that call back *)

Section callback.
Context (m : nat) (unreg : ClientRef → M Hub unit) (Hunreg : unreg_ok m unreg).

Lemma unreg_all P l h :
  hub_inv P ∅ h → hub_measure h < m → (∀ c, c ∈ l → settled P c h) →
  wp (for_each l unreg) (fun _ h' => good P h h' ∧ ∀ c, c ∈ l → c ∉ h_clients h') h.
Proof using Hunreg.
  intros Hi Hm Hl.
  apply (wp_for_each l unreg (fun pre h' => good P h h' ∧ ∀ c, c ∈ pre → c ∉ h_clients h')).
  { split; [by apply good_refl|]. intros c Hc. by apply not_elem_of_nil in Hc. }
  intros pre c rest h1 -> [[Hi1 Hev1] Hgone]. eapply wp_mono.
  { apply Hunreg; [done| |].
    - eapply settled_evolves; [done|]. apply Hl. set_solver.
    - pose proof (ev_measure _ _ Hev1). lia. }
  intros [] h2 ([Hi2 Hev2]&Hc&_). split; [split; [done|by etrans]|].
  intros c' [Hc'| ->%list_elem_of_singleton]%elem_of_app; [|done].
  pose proof (ev_clients _ _ Hev2). specialize (Hgone c' Hc'). set_solver.
Qed.

Lemma broadcast_spec P clients e h :
  hub_inv P ∅ h → event_typed e → hub_measure h < m → (∀ c, c ∈ clients → settled P c h) →
  wp (broadcastToClients unreg clients e) (fun _ h' => good P h h') h.
Proof using Hunreg.
  intros Hi He Hm Hl. unfold broadcastToClients. wp_step. eapply wp_mono.
  { apply (deliver_once_loop P ∅ (shareEncoding e) clients); [done|by apply event_typed_share]. }
  intros [[seen n] failed] h1 (Hi1&Hev1&Hs1&Hf). simpl in Hf. wp_step. eapply wp_mono.
  { apply (unreg_all P); [done|pose proof (ev_measure _ _ Hev1); lia|].
    intros c Hc. eapply settled_shape; [done|auto]. }
  intros [] h2 [Hg _]. wp_step. eapply good_trans; [split; [exact Hi1|exact Hev1]|done].
Qed.

Lemma PublishToServer_spec P s e h :
  hub_inv P ∅ h → event_typed e → hub_measure h < m →
  wp (PublishToServer unreg s e) (fun _ h' => good P h h') h.
Proof using Hunreg.
  intros Hi He Hm. unfold PublishToServer. wp_step; [wp_step; by apply good_refl|].
  wp_step. wp_step. apply broadcast_spec; try done. intros c. by apply clientsForServer_settled.
Qed.

Lemma publishToServerExcept_spec P s x e h :
  hub_inv P ∅ h → event_typed e → hub_measure h < m →
  wp (publishToServerExcept unreg s x e) (fun _ h' => good P h h') h.
Proof using Hunreg.
  intros Hi He Hm. unfold publishToServerExcept. wp_step. wp_step. apply broadcast_spec; try done.
  intros c [_ Hc]%list_elem_of_filter. by apply (clientsForServer_settled P s).
Qed.

Lemma publishVoiceLeft_spec P p x h :
  hub_inv P ∅ h → hub_measure h < m →
  wp (publishVoiceLeft unreg p x) (fun _ h' => good P h h') h.
Proof using Hunreg.
  intros Hi Hm. unfold publishVoiceLeft. wp_step. eapply wp_mono.
  - by apply (publishToServerExcept_spec P).
  - intros n h1 Hg. by wp_step.
Qed.

Lemma SendToConnection_spec P k e h :
  hub_inv P ∅ h → event_typed e → hub_measure h < m →
  wp (SendToConnection unreg k e) (fun _ h' => good P h h') h.
Proof using Hunreg.
  intros Hi He Hm. unfold SendToConnection. wp_step. wp_step.
  destruct (clientByConnectionID k h) as [c|] eqn:Hc; [|wp_step; by apply good_refl].
  assert (settled P c h) as Hset.
  { apply settled_registered; [done|]. by apply (hi_conn _ _ _ Hi) in Hc as [? _]. }
  wp_step. eapply wp_mono; [by apply (hub_enqueue_spec P ∅ c e)|].
  intros ok h1 (Hi1&Hev1&Hs1). destruct ok; [by wp_step|]. wp_step. eapply wp_mono.
  { apply Hunreg; [done|by eapply settled_shape|pose proof (ev_measure _ _ Hev1); lia]. }
  intros [] h2 [Hg _]. wp_step. eapply good_trans; [split; [exact Hi1|exact Hev1]|done].
Qed.

(** A snapshot sent to one client. *)
Lemma send_or_unregister P c e h :
  hub_inv P ∅ h → event_typed e → settled P c h → hub_measure h < m →
  wp (accepted ← hub_enqueue c e; when (negb accepted) (unreg c)) (fun _ h' => good P h h') h.
Proof using Hunreg.
  intros Hi He Hset Hm. wp_step. eapply wp_mono; [by apply (hub_enqueue_spec P ∅ c e)|].
  intros ok h1 (Hi1&Hev1&Hs1). wp_step; [|done]. eapply wp_mono.
  { apply Hunreg; [done|by eapply settled_shape|pose proof (ev_measure _ _ Hev1); lia]. }
  intros [] h2 [Hg _]. eapply good_trans; [split; [exact Hi1|exact Hev1]|done].
Qed.

Lemma sendPresenceSnapshot_spec P c l h :
  hub_inv P ∅ h → settled P c h → hub_measure h < m →
  wp (sendPresenceSnapshot unreg c l) (fun _ h' => good P h h') h.
Proof using Hunreg.
  intros Hi Hset Hm. unfold sendPresenceSnapshot. wp_step. wp_step.
  by apply send_or_unregister; [|apply event_typed_new|..].
Qed.

Lemma sendVoiceSnapshot_spec P c h :
  hub_inv P ∅ h → settled P c h → hub_measure h < m →
  wp (sendVoiceSnapshot unreg c) (fun _ h' => good P h h') h.
Proof using Hunreg.
  intros Hi Hset Hm. unfold sendVoiceSnapshot. wp_step. wp_step.
  by apply send_or_unregister; [|apply event_typed_new|..].
Qed.

Lemma sendStreamSnapshot_spec P c h :
  hub_inv P ∅ h → settled P c h → hub_measure h < m →
  wp (sendStreamSnapshot unreg c) (fun _ h' => good P h h') h.
Proof using Hunreg.
  intros Hi Hset Hm. unfold sendStreamSnapshot. wp_step. wp_step.
  by apply send_or_unregister; [|apply event_typed_new|..].
Qed.

Lemma broadcastPresence_spec P s u st h :
  hub_inv P ∅ h → hub_measure h < m →
  wp (broadcastPresence unreg s u st) (fun _ h' => good P h h') h.
Proof using Hunreg.
  intros Hi Hm. unfold broadcastPresence. wp_step. wp_step.
  case_bool_decide; [wp_step; by apply good_refl|]. wp_step. wp_step.
  wp_step. eapply wp_mono; [apply save_last_seen_spec|]. intros [] h1 Hin.
  destruct (inert_good P h h1 Hi Hin) as [Hi1 Hev1]. pose proof (ev_measure _ _ Hev1) as Hm1.
  wp_step. wp_step. wp_step. case_bool_decide.
  - wp_step. wp_step. eapply wp_mono.
    { apply (deliver_loop P ∅); [done|by apply event_typed_new]. }
    intros [n failed] h2 (Hi2&Hev2&Hs2&Hf). pose proof (ev_measure _ _ Hev2) as Hm2. eapply wp_mono.
    { apply (unreg_all P); [done|lia|]. intros c Hc. eapply settled_shape; [done|].
      by apply (clientsForServer_settled P s), Hf. }
    intros [] h3 [[Hi3 Hev3] _]. split; [done|]. etrans; [done|]. by etrans.
  - wp_step. eapply wp_mono; [apply (unreg_all P); [done|lia|set_solver]|].
    intros [] h3 [[Hi3 Hev3] _]. split; [done|]. by etrans.
Qed.

(** A loop of calls that each only evolve the hub. *)
Lemma good_for_each {A} P (l : list A) (f : A → M Hub unit) h :
  hub_inv P ∅ h → hub_measure h < m →
  (∀ x h', x ∈ l → hub_inv P ∅ h' → evolves h h' → hub_measure h' < m →
     wp (f x) (fun _ h'' => good P h' h'') h') →
  wp (for_each l f) (fun _ h' => good P h h') h.
Proof.
  intros Hi Hm Hf. apply (wp_for_each_inv l f (fun h' => good P h h')); [by apply good_refl|].
  intros x h1 Hx [Hi1 Hev1]. eapply wp_mono.
  - apply Hf; [done|done|done|]. pose proof (ev_measure _ _ Hev1). lia.
  - intros [] h2 [Hi2 Hev2]. split; [done|by etrans].
Qed.

Lemma announceLegacy_spec P s ch h :
  hub_inv P ∅ h → hub_measure h < m →
  wp (announceLegacyStreamReplacement unreg s ch) (fun _ h' => good P h h') h.
Proof using Hunreg.
  intros Hi Hm. unfold announceLegacyStreamReplacement. wp_step. wp_step.
  destruct (List.find _ _) as [v|]; [|wp_step; by apply good_refl]. wp_step. wp_step.
  apply good_for_each; [done|done|]. intros c h1 _ Hi1 _ Hm1. wp_step. wp_step.
  wp_step; [|by apply good_refl]. wp_step. eapply wp_mono.
  - apply (SendToConnection_spec P); [done|by apply event_typed_new|done].
  - intros b h2 Hg. by wp_step.
Qed.

Lemma leaveStream_spec P S c reason h :
  hub_inv P S h → S ⊆ {[c]} → hub_measure h ≤ m →
  wp (leaveStream unreg c reason) (fun r h' => good P h h' ∧
    sst_byClient (h_streams h') !! c = None ∧
    ∀ ref pub, r = Some (ref, pub) → is_Some (sst_heap (h_streams h') !! ref)) h.
Proof using Hunreg.
  intros Hi HS Hm. unfold leaveStream. wp_step.
  eapply wp_mono; [by apply (streams_leave_spec P S)|].
  intros r h1 (Hg1&Hc1&_&Hr). destruct r as [[ref pub]|]; [|by wp_step].
  destruct Hr as (Hlt&v&Hv&Hpub). wp_step. wp_step. wp_step.
  eapply wp_mono; [apply closeStreamSession_spec|]. intros [] h2 Hin2.
  pose proof (inert_good P h1 h2 (proj1 Hg1) Hin2) as Hg2.
  pose proof (inert_shape _ _ Hin2) as Hsh2. pose proof (ev_measure _ _ (proj2 Hg2)) as Hm2.
  assert (good P h h2) as Hg02 by (by eapply good_trans).
  assert (∀ h' (b : bool), good P h2 h' → good P h h' ∧ sst_byClient (h_streams h') !! c = None ∧
    ∀ ref' pub', Some (ref, b) = Some (ref', pub') → is_Some (sst_heap (h_streams h') !! ref')) as Hend.
  { intros h' b Hg. split_and!; [exact (good_trans _ _ _ _ Hg02 Hg)|..].
    - destruct (ev_stream _ _ (proj2 Hg) c) as [?| ->]; [done|]. by rewrite (ss_streams _ _ Hsh2).
    - intros ? ? [= <- <-]. pose proof (ev_heap _ _ (proj2 Hg) ref) as Hp.
      rewrite (ss_streams _ _ Hsh2), Hv in Hp. simpl in Hp.
      destruct (sst_heap (h_streams h') !! ref); [by eexists|done]. }
  wp_step. eapply (wp_mono _ (fun a h' => a = v ∧ h' = h2)).
  { unfold on_streams, load, wp. rewrite (bind_run get_state _ _ _ _ eq_refl).
    rewrite (ss_streams _ _ Hsh2), Hv. split; [done|]. rewrite <- (ss_streams _ _ Hsh2).
    by destruct h2. }
  intros ? ? [-> ->]. destruct pub.
  - wp_step. wp_step. wp_step. eapply wp_mono.
    { apply (PublishToServer_spec P); [apply Hg2|by apply event_typed_new|lia]. }
    intros n h3 Hg3. pose proof (ev_measure _ _ (proj2 Hg3)). wp_step. eapply wp_mono.
    { apply (announceLegacy_spec P); [apply Hg3|lia]. }
    intros [] h4 Hg4. wp_step. apply Hend. exact (good_trans _ _ _ _ Hg3 Hg4).
  - wp_step. eapply (wp_mono _ (fun _ h' => good P h2 h' ∧ settled P (as_publisher v) h')).
    { apply (settled_shape P _ h1 h2 Hsh2) in Hpub. destruct (String.eqb _ _).
      - eapply wp_mono; [apply (hub_enqueue_spec P ∅); [apply Hg2|by apply event_typed_new]|].
        intros ok h3 (Hi3&Hev3&Hs3). split; [by split|by eapply settled_shape].
      - wp_step. split; [apply good_refl, Hg2|done]. }
    intros ok h3 [Hg3 Hin3]. pose proof (ev_measure _ _ (proj2 Hg3)). destruct ok.
    + wp_step. wp_step. wp_step. eapply wp_mono.
      { apply (PublishToServer_spec P); [apply Hg3|by apply event_typed_new|lia]. }
      intros n h4 Hg4. wp_step. apply Hend. exact (good_trans _ _ _ _ Hg3 Hg4).
    + wp_step. eapply wp_mono.
      { apply (Hunreg P); [apply Hg3|done|lia]. }
      intros [] h4 [Hg4 _]. wp_step. apply Hend. exact (good_trans _ _ _ _ Hg3 Hg4).
Qed.

Lemma leaveVoice_spec P S c h :
  hub_inv P S h → S ⊆ {[c]} → hub_measure h ≤ m →
  wp (leaveVoice unreg c) (fun _ h' => good P h h' ∧
    sst_byClient (h_streams h') !! c = None ∧ vs_byClient (h_voice h') !! c = None) h.
Proof using Hunreg.
  intros Hi HS Hm. unfold leaveVoice. wp_step. eapply wp_mono; [by apply (leaveStream_spec P S)|].
  intros _ h1 ([Hi1 Hev1]&Hc1&_). pose proof (ev_measure _ _ Hev1) as Hm1. wp_step.
  pose proof (voice_leave_spec (client_ident h1) c (h_voice h1) (hi_voice _ _ _ Hi1)) as Hv.
  unfold on_voice, wp at 1. unfold wp in Hv.
  destruct (voice_leave c (h_voice h1)) as [[r v]| |]; [|done..]. destruct Hv as (Hvi&->&Hbc).
  assert (good P h1 (h1 <| h_voice := v |>)) as Hg2.
  { split.
    - apply hub_inv_voice; [done|done|]. intros c'. rewrite Hbc, lookup_delete.
      case_decide; [by intros []|]. apply (hi_voice_live _ _ _ Hi1 c').
    - apply evolves_voice. intros c'. rewrite Hbc, lookup_delete. case_decide; auto. }
  assert (vs_byClient v !! c = None) as Hcv by (rewrite Hbc; by rewrite lookup_delete_eq).
  assert (∀ h', good P (h1 <| h_voice := v |>) h' → good P h h' ∧
    sst_byClient (h_streams h') !! c = None ∧ vs_byClient (h_voice h') !! c = None) as Hend.
  { intros h' Hg. split_and!.
    - eapply good_trans; [split; [exact Hi1|exact Hev1]|]. exact (good_trans _ _ _ _ Hg2 Hg).
    - destruct (ev_stream _ _ (proj2 Hg) c) as [?| ->]; [done|]. done.
    - destruct (ev_voice _ _ (proj2 Hg) c) as [?| ->]; done. }
  destruct (vs_byClient (h_voice h1) !! c) as [p|] eqn:Hp; [|wp_step; by apply Hend, good_refl, Hg2].
  assert (hub_measure (h1 <| h_voice := v |>) < m) as Hlt.
  { unfold hub_measure in *. simpl.
    assert (size (vs_byClient v) < size (vs_byClient (h_voice h1))); [|lia].
    eapply (map_shrink_lt _ _ c); [|eauto|done].
    intros k. rewrite Hbc, lookup_delete. case_decide; auto. }
  wp_step. eapply wp_mono; [by apply (publishVoiceLeft_spec P); [apply Hg2|]|].
  intros [] h3 Hg3. wp_step. eapply wp_mono; [apply closeVoiceSession_spec|].
  intros [] h4 Hin. wp_step. apply Hend. eapply good_trans; [done|]. apply inert_good; [apply Hg3|done].
Qed.

Lemma removeClientServer_spec P c s announce h :
  hub_inv P ∅ h → c ∈ h_clients h ∪ P ∨ servers_of c h = ∅ → hub_measure h ≤ m →
  wp (removeClientServer unreg c s announce) (fun _ h' => good P h h' ∧ s ∉ servers_of c h') h.
Proof using Hunreg.
  intros Hi Hc Hm. unfold removeClientServer. wp_step.
  unfold on_client, wp at 1, removeServer, hasServer.
  change (cl_servers (client_at c h)) with (servers_of c h). case_bool_decide as Hs; simpl.
  2:{ wp_step. split; [split|].
      - eapply hub_inv_shape; [by apply same_shape_put|by apply client_ok_put; apply (hi_client _ _ _ Hi)|done].
      - by apply evolves_put.
      - by rewrite (same_shape_servers h) by (by apply same_shape_put). }
  destruct Hc as [Hc|Hc]; [|set_solver].
  wp_step. unfold unindexServerLocked. wp_step. wp_step. wp_step. wp_step.
  change (h <| h_mem ::= <[c := (client_at c h) <| cl_servers ::= (.∖ {[s]}) |>]> |>
    <| h_clientsByServer ::= index_remove s c |>) with (unlinked c s h).
  change (cl_userID (client_at c (unlinked c s h))) with (user_of c (unlinked c s h)).
  rewrite unlinked_user. eapply wp_mono.
  { apply decrement_spec. exact (hi_presence_tight _ _ _ Hi). }
  intros off h1 [Hstep _]. pose proof (hub_inv_unlink _ _ _ _ _ _ Hi Hc Hs Hstep) as Hi1.
  destruct (evolves_unlink _ _ _ _ _ Hs Hstep) as (Hev1&Hlt&Hsrv&_&_).
  assert (s ∉ servers_of c h1) as Hns by (rewrite Hsrv, decide_True by done; set_solver).
  wp_step; [|done]. eapply wp_mono; [apply (broadcastPresence_spec P); [done|lia]|].
  intros [] h2 [Hi2 Hev2]. split; [split; [done|by etrans]|].
  pose proof (ev_servers _ _ Hev2 c). set_solver.
Qed.

Lemma unregisterPresence_spec P c h :
  hub_inv P ∅ h → c ∈ P → hub_measure h ≤ m →
  wp (unregisterPresence unreg c) (fun _ h' => good P h h' ∧ servers_of c h' = ∅) h.
Proof using Hunreg.
  intros Hi Hc Hm. unfold unregisterPresence. wp_step. wp_step. wp_step.
  eapply wp_mono.
  { apply (wp_for_each _ _ (fun pre h' => good P h h' ∧ ∀ s, s ∈ pre → s ∉ servers_of c h')).
    - split; [by apply good_refl|]. intros s Hs. by apply not_elem_of_nil in Hs.
    - intros pre s rest h1 _ [[Hi1 Hev1] Hpre]. pose proof (ev_measure _ _ Hev1). eapply wp_mono.
      + apply (removeClientServer_spec P); [done|left; set_solver|lia].
      + intros [] h2 [[Hi2 Hev2] Hs]. split; [split; [done|by etrans]|].
        intros s' [Hs'| ->%list_elem_of_singleton]%elem_of_app; [|done].
        pose proof (ev_servers _ _ Hev2 c). specialize (Hpre s' Hs'). set_solver. }
  intros [] h1 [[Hi1 Hev1] Hall]. wp_step. wp_step.
  assert (servers_of c h1 = ∅) as Hemp.
  { apply set_eq. intros s. split; [|set_solver]. intros Hs. exfalso. apply (Hall s); [|done].
    apply elem_of_range_set. by apply (ev_servers _ _ Hev1 c). }
  wp_step; [|done]. wp_step. set (h2 := h1 <| h_lastSeen ::= _ |>).
  assert (inert h1 h2) as Hin by (by destruct h1). split; [|done].
  eapply good_trans; [split; [exact Hi1|exact Hev1]|by apply inert_good].
Qed.
End callback.

(** ** Subscriptions *)

Lemma Unsubscribe_spec P S c ch h :
  hub_inv P S h → (0 < ch)%Z →
  wp (Unsubscribe c ch) (fun _ h' => hub_inv P S h' ∧ evolves h h' ∧ h_clients h' = h_clients h ∧
    (∀ c', subs_of c' h' = if decide (c' = c) then delete ch (subs_of c h) else subs_of c' h) ∧
    (∀ c', servers_of c' h' = servers_of c' h) ∧
    h_voice h' = h_voice h ∧ h_streams h' = h_streams h) h.
Proof.
  intros Hi Hch. unfold Unsubscribe. rewrite (proj2 (Z.leb_gt _ _) Hch). wp_step. wp_step.
  assert (∀ rooms', (∀ ch' c', c' ∈ members_in ch' rooms' ↔
      c' ∈ room_members ch' h ∧ (ch' ≠ ch ∨ c' ≠ c)) →
    (∀ ch' r, rooms' !! ch' = Some r → rm_closed r = false) →
    let h' := unsubscribed c ch rooms' h in
    hub_inv P S h' ∧ evolves h h' ∧ h_clients h' = h_clients h ∧
    (∀ c', subs_of c' h' = if decide (c' = c) then delete ch (subs_of c h) else subs_of c' h) ∧
    (∀ c', servers_of c' h' = servers_of c' h) ∧ h_voice h' = h_voice h ∧
    h_streams h' = h_streams h) as Hend.
  { intros rooms' Hm Ho. split_and!; [by apply hub_inv_unsubscribed|apply evolves_unsubscribed|done|
      apply unsubscribed_subs|intros; by apply (unsubscribed_field cl_servers)|done|done]. }
  unfold getRoom. destruct (h_rooms h !! ch) as [r|] eqn:Hr.
  - set (r' := (room_remove c r).2).
    assert (room_remove c r = ((room_remove c r).1, r')) as -> by (unfold r'; by destruct (room_remove c r)).
    wp_step. wp_step. wp_step. unfold update_client, on_client, wp. simpl.
    apply (Hend (<[ch := r']> (h_rooms h))).
    + intros ch' c'. unfold members_in, room_members. rewrite lookup_insert.
      case_decide; [subst ch'|set_solver]. rewrite Hr. unfold r', room_remove.
      case_bool_decide; simpl; set_solver.
    + intros ch' r0. rewrite lookup_insert. case_decide; [|apply (hi_room_open _ _ _ Hi)].
      intros [= <-]. unfold r', room_remove. apply (hi_room_open _ _ _ Hi) in Hr.
      by case_bool_decide.
  - wp_step. unfold update_client, on_client, wp. simpl.
    assert (h <| h_rooms := h_rooms h |> = h) as Hself by (by destruct h).
    pose proof (Hend (h_rooms h)) as Hh. unfold unsubscribed in Hh. rewrite Hself in Hh. apply Hh.
    + intros ch' c'. change (members_in ch' (h_rooms h)) with (room_members ch' h).
      split; [|tauto]. intros Hc'. split; [done|]. destruct (decide (ch' = ch)); [|by left].
      subst ch'. unfold room_members in Hc'. rewrite Hr in Hc'. set_solver.
    + apply (hi_room_open _ _ _ Hi).
Qed.

(** Leaving every channel of a list. *)
Lemma unsubscribe_loop P S c l h :
  hub_inv P S h → (∀ ch, ch ∈ l → (0 < ch)%Z) →
  wp (for_each l (fun ch => Unsubscribe c ch ;; mret tt)) (fun _ h' =>
    hub_inv P S h' ∧ evolves h h' ∧ h_clients h' = h_clients h ∧
    (∀ ch, subs_of c h' !! ch = if decide (ch ∈ l) then None else subs_of c h !! ch) ∧
    (∀ c', servers_of c' h' = servers_of c' h) ∧
    h_voice h' = h_voice h ∧ h_streams h' = h_streams h) h.
Proof.
  intros Hi Hl. apply (wp_for_each l _ (fun pre h' =>
    hub_inv P S h' ∧ evolves h h' ∧ h_clients h' = h_clients h ∧
    (∀ ch, subs_of c h' !! ch = if decide (ch ∈ pre) then None else subs_of c h !! ch) ∧
    (∀ c', servers_of c' h' = servers_of c' h) ∧
    h_voice h' = h_voice h ∧ h_streams h' = h_streams h)).
  { split_and!; try done. }
  intros pre ch rest h1 -> (Hi1&Hev1&Hc1&Hs1&Hsrv1&Hv1&Hst1). wp_step. eapply wp_mono.
  { apply (Unsubscribe_spec P S); [done|]. apply Hl. set_solver. }
  intros b h2 (Hi2&Hev2&Hc2&Hs2&Hsrv2&Hv2&Hst2). wp_step.
  split_and!; [done|by etrans|congruence| |congruence|congruence|congruence].
  intros ch'. rewrite Hs2, decide_True, lookup_delete by done. rewrite Hs1.
  repeat case_decide; set_solver.
Qed.

(** ** [Unregister] *)

Lemma unindex_loop c l h :
  wp (for_each l (fun s => unindexServerLocked s c)) (fun _ h' =>
    h' = h <| h_clientsByServer := h_clientsByServer h' |> ∧
    (∀ s c', c' ∈ index_get s (h_clientsByServer h') ↔
       c' ∈ index_get s (h_clientsByServer h) ∧ (c' ≠ c ∨ s ∉ l)) ∧
    (index_tight (h_clientsByServer h) → index_tight (h_clientsByServer h'))) h.
Proof.
  apply (wp_for_each l _ (fun pre h' => h' = h <| h_clientsByServer := h_clientsByServer h' |> ∧
    (∀ s c', c' ∈ index_get s (h_clientsByServer h') ↔
       c' ∈ index_get s (h_clientsByServer h) ∧ (c' ≠ c ∨ s ∉ pre)) ∧
    (index_tight (h_clientsByServer h) → index_tight (h_clientsByServer h')))).
  { split_and!; [by destruct h|set_solver|done]. }
  intros pre s rest h1 _ (Heq&Hix&Ht). unfold unindexServerLocked. wp_step. split_and!.
  - rewrite Heq. by destruct h.
  - intros s' c'. simpl. rewrite elem_of_index_remove, Hix, not_elem_of_app, list_elem_of_singleton.
    destruct (decide (s' = s)); destruct (decide (c' = c)); naive_solver.
  - simpl. auto using index_tight_remove.
Qed.

Lemma detach_spec c h : wp (detach c) (fun _ h' => detached c h h') h.
Proof.
  unfold detach. wp_step. wp_step. wp_step. wp_step. wp_step.
  set (h0 := h <| h_clients ::= (.∖ {[c]}) |>).
  eapply wp_mono; [apply (unindex_loop c (serverIDs (client_at c h0)) h0)|].
  intros [] h1 (Heq&Hix&Ht). wp_step. wp_step. wp_step. wp_step. wp_step. wp_step. wp_step.
  assert (client_at c h1 = client_at c h) as Hat by (rewrite Heq; done).
  split.
  - simpl. rewrite !Hat. rewrite Heq. by destruct h.
  - intros s c'. simpl. rewrite Hix. unfold serverIDs. rewrite elem_of_range_set. done.
  - done.
Qed.

Lemma update_client_spec P S c f h :
  hub_inv P S h → (∀ cl, same_links cl (f cl)) → (∀ cl, client_ok cl → client_ok (f cl)) →
  (∀ cl, cl_channelAccess (f cl) = cl_channelAccess cl) →
  (∀ cl, cl_done cl = true → cl_done (f cl) = true) →
  wp (update_client c f) (fun _ h' => hub_inv P S h' ∧ evolves h h' ∧ same_shape h h' ∧
    client_at c h' = f (client_at c h)) h.
Proof.
  intros Hi Hl Hok Hacc Hdone. unfold update_client, on_client, wp. simpl. split_and!.
  - eapply hub_inv_shape; [by apply same_shape_put| |done].
    apply client_ok_put; [apply Hok|]; apply (hi_client _ _ _ Hi).
  - apply evolves_put; auto.
  - by apply same_shape_put.
  - rewrite client_at_insert. by rewrite decide_True.
Qed.

Lemma close_links reason cl : same_links cl (CloseWithReason reason cl).
Proof. unfold CloseWithReason. by destruct (cl_done cl). Qed.

Lemma close_spec P S c reason h :
  hub_inv P S h →
  wp (update_client c (CloseWithReason reason)) (fun _ h' => hub_inv P S h' ∧ evolves h h' ∧
    same_shape h h' ∧ cl_done (client_at c h') = true) h.
Proof.
  intros Hi. eapply wp_mono.
  { apply (update_client_spec P S); [done|apply close_links| | |].
    - intros cl Hok. unfold CloseWithReason. destruct (cl_done cl); [done|].
      by apply (client_ok_frame cl).
    - intros cl. unfold CloseWithReason. by destruct (cl_done cl).
    - intros cl Hd. unfold CloseWithReason. by rewrite Hd. }
  intros [] h' (?&?&?&Hat). split_and!; try done. rewrite Hat. unfold CloseWithReason.
  by destruct (cl_done (client_at c h)) eqn:E.
Qed.

(** What [Unregister] leaves of a connection besides its memberships. *)
Definition cleaned (c : ClientRef) (h : Hub) : Prop :=
  cl_done (client_at c h) = true ∧ subs_of c h = ∅ ∧
  vs_byClient (h_voice h) !! c = None ∧ sst_byClient (h_streams h) !! c = None.

Lemma unregister_body_spec m unreg P c h :
  unreg_ok m unreg → hub_inv P ∅ h → settled P c h → hub_measure h ≤ m →
  wp (unregister_body unreg c) (fun _ h' => good P h h' ∧ c ∉ h_clients h' ∧
    servers_of c h' = ∅ ∧ cleaned c h') h.
Proof.
  intros Hun Hi Hset Hm. unfold unregister_body. wp_step.
  eapply wp_mono; [by apply (close_spec P ∅ c "")|]. intros [] h1 (Hi1&Hev1&Hs1&Hd1).
  pose proof (ev_measure _ _ Hev1) as Hm1.
  destruct (settled_shape P c h h1 Hs1 Hset) as [HcP Hreg1].
  wp_step. eapply wp_mono; [apply detach_spec|]. intros [] h2 Hdt.
  pose proof (detached_inv P c h1 h2 Hdt Hi1 HcP Hreg1) as Hi2.
  assert (hub_measure h2 = hub_measure h1) as Hm2 by (rewrite (dt_frame _ _ _ Hdt); done).
  assert (c ∉ h_clients h2) as Hc2 by (rewrite (dt_frame _ _ _ Hdt); simpl; set_solver).
  assert (cl_done (client_at c h2) = true) as Hd2 by (by rewrite (dt_frame _ _ _ Hdt)).
  wp_step. eapply wp_mono; [apply (leaveVoice_spec m unreg Hun ({[c]} ∪ P) {[c]}); [done|done|lia]|].
  intros _ h3 ([Hi3 Hev3]&Hst3&Hv3). pose proof (ev_measure _ _ Hev3) as Hm3.
  wp_step. wp_step. wp_step. eapply wp_mono.
  { apply (unsubscribe_loop ({[c]} ∪ P) ∅); [done|]. intros ch Hch.
    apply elem_of_range_keys in Hch. by apply (hi_sub_pos _ _ _ Hi3 c). }
  intros [] h4 (Hi4&Hev4&Hcl4&Hsub4&_&Hvo4&Hso4). pose proof (ev_measure _ _ Hev4) as Hm4.
  assert (subs_of c h4 = ∅) as Hsub.
  { apply map_eq. intros ch. rewrite lookup_empty, Hsub4. case_decide as Hin; [done|].
    unfold subscriptionIDs in Hin. rewrite elem_of_range_keys in Hin.
    by apply eq_None_not_Some. }
  eapply wp_mono; [apply (unregisterPresence_spec m unreg Hun ({[c]} ∪ P)); [done|set_solver|lia]|].
  intros [] h5 [[Hi5 Hev5] Hsrv5].
  assert (evolves h2 h5) as Hev25 by (etrans; [done|]; by etrans).
  assert (subs_of c h5 = ∅) as Hsub5.
  { apply map_eq. intros ch. rewrite lookup_empty. destruct (ev_subs _ _ Hev5 c ch) as [?| ->]; [done|].
    by rewrite Hsub, lookup_empty. }
  assert (vs_byClient (h_voice h5) !! c = None) as Hv5.
  { destruct (ev_voice _ _ Hev5 c) as [?| ->]; [done|]. by rewrite Hvo4. }
  assert (sst_byClient (h_streams h5) !! c = None) as Hs5.
  { destruct (ev_stream _ _ Hev5 c) as [?| ->]; [done|]. by rewrite Hso4. }
  split_and!; [|pose proof (ev_clients _ _ Hev25); set_solver|done|].
  2: { split_and!; [by apply (ev_done _ _ Hev25)|done..]. }
  split; [by eapply hub_inv_finished|]. etrans; [done|]. by eapply evolves_detached.
Qed.

(** Enough fuel: the recursion never goes deeper than [hub_measure]. *)
Lemma unregister_ok fuel : unreg_ok fuel (unregister fuel).
Proof.
  induction fuel as [|fuel IH]; intros P h c Hi Hset Hm; [lia|]. simpl.
  eapply wp_mono; [apply (unregister_body_spec fuel (unregister fuel) P); [done|done|done|lia]|].
  naive_solver.
Qed.

Lemma Unregister_spec P h c :
  hub_inv P ∅ h → settled P c h →
  wp (Unregister c) (fun _ h' => good P h h' ∧ c ∉ h_clients h' ∧
    servers_of c h' = ∅ ∧ cleaned c h') h.
Proof.
  intros Hi Hset. unfold Unregister, wp. simpl.
  apply (unregister_body_spec (hub_measure h) _ P c h); [apply unregister_ok|done|done|done].
Qed.

(** With the fuel computed from the state there is no bound to respect. *)
Lemma Unregister_ok m : unreg_ok m Unregister.
Proof.
  intros P h c Hi Hset _. eapply wp_mono; [by apply (Unregister_spec P)|]. naive_solver.
Qed.

End specs.
