(* ===== verification/HubOps.v ===== *)
(** * The hub: connection, membership and channel handlers

    Model of the exported methods of [hub.go], [channel_access.go] and
    [role_permissions.go]. A [nil] client argument is [None]. The reader/writer
    lock [channelAccessMu] makes the handlers that take it exclusively atomic;
    each handler is one transformer of the hub. *)

From S2P Require Import Prelude Events Client VoiceState StreamState Hub.

Definition CloseReasonServerShutdown : string := "server is shutting down".

Section ops.
Context `{MapOrder}.

(** ** Queries *)

Definition ConnectedUserIDs (h : Hub) : list Z := range_keys (h_clientsByUser h).

Definition IsUserOnline (userID : Z) (h : Hub) : bool :=
  0 <? size (index_get userID (h_clientsByUser h)).

(** ** channel_access.go *)

(** The policy to install and whether the loader failed. *)
Definition loadChannelAccess (userID : Z) (h : Hub) : option (gset Z) * bool :=
  match h_channelAccessLoader h with
  | None => (None, false)
  | Some loader =>
      match loader userID with
      | None => (Some ∅, true)
      | Some None => (Some ∅, false)
      | Some (Some ids) => (Some ids, false)
      end
  end.

(** One iteration of the loop without a batch loader: [permissions] caches the
    policies per user. *)
Definition reload_single (acc : gmap Z (option (gset Z)) * gmap Z bool) (client : ClientRef)
    : M Hub (gmap Z (option (gset Z)) * gmap Z bool) :=
  let '(permissions, failed) := acc in
  h ← get_state;
  let userID := cl_userID (client_at client h) in
  let '(ids, acc) :=
    match permissions !! userID with
    | Some ids => (ids, acc)
    | None =>
        let '(ids, err) := loadChannelAccess userID h in
        (ids, (<[userID := ids]> permissions, <[userID := err]> failed))
    end in
  update_client client (replaceChannelAccess ids) ;;
  mret acc.

(** One iteration of the loop after a batch load; [loaded = None] is an error. *)
Definition reload_batched (loaded : option (gmap Z (gset Z))) (failed : gmap Z bool)
    (client : ClientRef) : M Hub (gmap Z bool) :=
  h ← get_state;
  let userID := cl_userID (client_at client h) in
  let policy := match loaded with
    | Some m => default ∅ (m !! userID)
    | None => ∅
    end in
  let err := match loaded with Some _ => false | None => true end in
  update_client client (replaceChannelAccess (Some policy)) ;;
  mret (<[userID := err]> failed).

(** The distinct users of a client list, in order of first occurrence. *)
Definition distinct_users (clients : list ClientRef) (h : Hub) : list Z :=
  foldl (fun ids u => if bool_decide (u ∈ ids) then ids else ids ++ [u]) []
    ((fun c => cl_userID (client_at c h)) <$> clients).

Definition reloadChannelAccess (clients : list ClientRef) : M Hub (gmap Z bool) :=
  h ← get_state;
  match h_channelAccessBatchLoader h with
  | Some loader => fold_each clients ∅ (reload_batched (loader (distinct_users clients h)))
  | None => '(_, failed) ← fold_each clients (∅, ∅) reload_single; mret failed
  end.

Definition failed_for (failed : gmap Z bool) (client : ClientRef) (h : Hub) : bool :=
  default false (failed !! cl_userID (client_at client h)).

(** The branch shared by the reload loops: reconnecting fetches a fresh policy. *)
Definition drop_failed (client : ClientRef) : M Hub unit :=
  update_client client (CloseWithReason CloseReasonServerShutdown) ;; Unregister client.

Definition voice_closed (reason : string) : OutgoingEvent :=
  new_event EventVoiceWebRTCClosed (DVoiceClosed reason).

(** The body of the loop of [RefreshChannelAccess] for one client. *)
Definition refresh_client (serverID : Z) (failed : gmap Z bool) (client : ClientRef) : M Hub unit :=
  bad ← gets (failed_for failed client);
  if bad : bool then drop_failed client
  else
    h ← get_state;
    (match voice_current client (h_voice h) with
     | Some current =>
         when (negb (canAccessChannel (client_at client h) (vp_ChannelID current)))
           (leaveVoice Unregister client ;;
            connectionID ← gets (fun h => cl_connectionID (client_at client h));
            SendToConnection Unregister connectionID (voice_closed "channel access was revoked") ;;
            mret tt)
     | None => mret tt
     end) ;;
    ids ← gets (fun h => subscriptionIDsForServer serverID (client_at client h));
    for_each ids (fun id =>
      cl ← gets (client_at client);
      when (negb (canAccessChannel cl id)) (Unsubscribe client id ;; mret tt)) ;;
    sendVoiceSnapshot Unregister client ;;
    sendStreamSnapshot Unregister client.

Definition RefreshChannelAccess (serverID : Z) : M Hub unit :=
  h ← get_state;
  match h_channelAccessLoader h, h_channelAccessBatchLoader h with
  | None, None => mret tt
  | _, _ =>
      let clients := clientsForServer serverID h in
      failed ← reloadChannelAccess clients;
      for_each clients (refresh_client serverID failed) ;;
      PublishToServer Unregister serverID
        (new_event EventChannelsChanged (DServerDeleted serverID)) ;;
      mret tt
  end.

(** ** hub.go: life cycle *)

Definition registerPresence (client : ClientRef) : M Hub unit :=
  h ← get_state;
  if bool_decide (client ∉ h_clients h) then mret tt
  else
    let servers := serverIDs (client_at client h) in
    let userID := cl_userID (client_at client h) in
    online ← fold_each servers [] (fun online serverID =>
      becameOnline ← incrementPresence serverID userID;
      mret (if becameOnline : bool then online ++ [serverID] else online));
    for_each online (fun serverID =>
      broadcastPresence Unregister serverID userID PresenceOnline) ;;
    sendPresenceSnapshot Unregister client servers.

(** The part of [Register] under [clientsMu]. *)
Definition attach (client : ClientRef) : M Hub unit :=
  modify (fun h => h <| h_clients ::= union {[client]} |>) ;;
  servers ← gets (fun h => serverIDs (client_at client h));
  for_each servers (fun serverID => indexServerLocked serverID client) ;;
  cl ← gets (client_at client);
  modify (fun h => h <| h_clientsByConnection ::= <[cl_connectionID cl := client]> |>) ;;
  modify (fun h => h <| h_clientsByUser ::= index_add (cl_userID cl) client |>) ;;
  modify (fun h => h <| h_clientsBySession ::= index_add (cl_sessionKey cl) client |>).

(** [Register] up to [clientsMu.Unlock]: from here on other requests see the
    connection. *)
Definition Register_begin (client : ClientRef) : M Hub bool :=
  h ← get_state;
  let '(ids, err) := loadChannelAccess (cl_userID (client_at client h)) h in
  if err : bool then
    update_client client (CloseWithReason CloseReasonServerShutdown) ;; mret false
  else
    update_client client (replaceChannelAccess ids) ;;
    h ← get_state;
    if (cl_userID (client_at client h) <=? 0)%Z || h_closed h ||
       cl_done (client_at client h) || bool_decide (client ∈ h_clients h)
    then mret false
    else attach client ;; mret true.

(** [Register] after [clientsMu.Unlock]. *)
Definition Register_end (client : ClientRef) : M Hub unit :=
  registerPresence client ;;
  sendVoiceSnapshot Unregister client ;;
  sendStreamSnapshot Unregister client.

(** Both parts with nothing in between. [channelAccessMu] is held for reading
    over both of them, which excludes the requests that take it for writing;
    [race_step] of [HubSystem] runs the two parts as two steps, with any
    request in between. *)
Definition Register (client : option ClientRef) : M Hub bool :=
  match client with
  | None => mret false
  | Some client =>
      ok ← Register_begin client;
      if ok : bool then Register_end client ;; mret true else mret false
  end.

Definition Subscribe (client : option ClientRef) (serverID channelID : Z) : M Hub bool :=
  match client with
  | None => mret false
  | Some client =>
      h ← get_state;
      let cl := client_at client h in
      if (serverID <=? 0)%Z || (channelID <=? 0)%Z || negb (canAccessChannel cl channelID) then mret false
      else if bool_decide (client ∉ h_clients h) || h_closed h || negb (hasServer serverID cl) then mret false
      else if cl_done cl then mret false
      else
        r ← getOrCreateRoom channelID;
        let '(added, r') := room_add client r in
        modify (fun h => h <| h_rooms ::= <[channelID := r']> |>) ;;
        if negb added then mret false
        else update_client client (addSubscription serverID channelID) ;; mret true
  end.

Definition hub_Close : M Hub unit :=
  modify (fun h => h <| h_closed := true |>) ;;
  clients ← gets (fun h => clientSetSnapshot (h_clients h));
  for_each clients (fun client =>
    update_client client (CloseWithReason CloseReasonServerShutdown) ;; Unregister client).

(** [revokeSessionKey]; the digest of the token is computed by the caller. *)
Definition revokeSessionKey (key : string) : M Hub unit :=
  clients ← gets (fun h => clientSetSnapshot (index_get key (h_clientsBySession h)));
  for_each clients (fun client =>
    update_client client (CloseWithReason "session expired or revoked") ;; Unregister client).

Definition unsubscribeFromServer (client : ClientRef) (serverID : Z) : M Hub unit :=
  ids ← gets (fun h => subscriptionIDsForServer serverID (client_at client h));
  for_each ids (fun channelID => Unsubscribe client channelID ;; mret tt).

Definition leaveVoiceForServer (client : ClientRef) (serverID : Z) : M Hub unit :=
  current ← gets (fun h => voice_current client (h_voice h));
  (match current with
   | Some p => when (vp_ServerID p =? serverID)%Z
                 (leaveStream Unregister client "server access was revoked" ;; mret tt)
   | None => mret tt
   end) ;;
  participant ← on_voice (voice_leaveServer client serverID);
  match participant with
  | None => mret tt
  | Some p =>
      publishVoiceLeft Unregister p client ;;
      closeVoiceSession (vp_ConnectionID p)
  end.

Definition RevokeUserFromServer (userID serverID : Z) : M Hub unit :=
  if (userID <=? 0)%Z || (serverID <=? 0)%Z then mret tt
  else
    serverClients ← gets (clientsForServer serverID);
    userClients ← gets (fun h => clientSetSnapshot (index_get userID (h_clientsByUser h)));
    failed ← reloadChannelAccess userClients;
    broadcastToClients Unregister (serverClients ++ userClients)
      (new_event EventServerMemberRemoved
         (DServerMemberRemoved (mkServerMemberRemovedData serverID userID))) ;;
    for_each userClients (fun client =>
      bad ← gets (failed_for failed client);
      if bad : bool then drop_failed client
      else
        leaveVoiceForServer client serverID ;;
        removeClientServer Unregister client serverID false ;;
        unsubscribeFromServer client serverID).

Definition stopStreamForChannel (channelID : Z) (reason : string) : M Hub unit :=
  publishers ← gets (fun h => publishersForChannel channelID (h_streams h));
  for_each publishers (fun publisher => leaveStream Unregister publisher reason ;; mret tt).

Definition RevokeServer (serverID : Z) : M Hub unit :=
  if (serverID <=? 0)%Z then mret tt
  else
    clients ← gets (clientsForServer serverID);
    failed ← reloadChannelAccess clients;
    broadcastToClients Unregister clients (new_event EventServerDeleted (DServerDeleted serverID)) ;;
    for_each clients (fun client =>
      bad ← gets (failed_for failed client);
      if bad : bool then drop_failed client
      else
        removeClientServer Unregister client serverID false ;;
        unsubscribeFromServer client serverID) ;;
    modify (fun h => h <| h_presence ::= delete serverID |>) ;;
    removed ← on_voice (voice_removeServer serverID);
    for_each removed (fun p =>
      stopStreamForChannel (vp_ChannelID p) "server was deleted" ;;
      closeVoiceSession (vp_ConnectionID p)).

(** The body of the loop of [AddUserToServer] for one connection. *)
Definition add_connection (userID serverID : Z) (client : ClientRef) : M Hub unit :=
  h ← get_state;
  if bool_decide (client ∉ h_clients h) then mret tt
  else
    added ← on_client client (fun cl => Ok (addServer serverID cl));
    if negb added then mret tt
    else
      indexServerLocked serverID client ;;
      becameOnline ← incrementPresence serverID userID;
      '(ids, err) ← gets (loadChannelAccess userID);
      if err : bool then drop_failed client
      else
        update_client client (replaceChannelAccess ids) ;;
        when becameOnline (broadcastPresence Unregister serverID userID PresenceOnline) ;;
        sendPresenceSnapshot Unregister client [serverID].

Definition AddUserToServer (userID serverID : Z) : M Hub unit :=
  if (userID <=? 0)%Z || (serverID <=? 0)%Z then mret tt
  else
    clients ← gets (fun h => clientSetSnapshot (index_get userID (h_clientsByUser h)));
    for_each clients (add_connection userID serverID).

(** ** hub.go: publishing *)

Definition Publish (channelID : Z) (event : OutgoingEvent) : M Hub nat :=
  if (channelID <=? 0)%Z then mret 0
  else
    r ← gets (getRoom channelID);
    match r with
    | None => mret 0
    | Some r =>
        '(delivered, failed) ← fold_each (room_snapshot r) (0, []) (deliver (shareEncoding event));
        for_each failed Unregister ;;
        mret delivered
    end.

Definition PublishExcept (channelID : Z) (event : OutgoingEvent) (except : option ClientRef)
    : M Hub nat :=
  r ← gets (getRoom channelID);
  match r with
  | None => mret 0
  | Some r =>
      if (channelID <=? 0)%Z then mret 0
      else
        '(delivered, failed) ←
          fold_each (filter (fun c => Some c ≠ except) (room_snapshot r)) (0, [])
            (deliver (shareEncoding event));
        for_each failed Unregister ;;
        mret delivered
  end.

Definition PublishToUser (userID : Z) (event : OutgoingEvent) : M Hub nat :=
  if (userID <=? 0)%Z then mret 0
  else
    clients ← gets (fun h => clientSetSnapshot (index_get userID (h_clientsByUser h)));
    broadcastToClients Unregister clients event.

Definition PublishToChannelAndUser (channelID userID : Z) (event : OutgoingEvent) : M Hub nat :=
  if (channelID <=? 0)%Z || (userID <=? 0)%Z then mret 0
  else
    members ← gets (fun h => match getRoom channelID h with
                              | Some r => room_snapshot r
                              | None => []
                              end);
    own ← gets (fun h => clientSetSnapshot (index_get userID (h_clientsByUser h)));
    broadcastToClients Unregister (members ++ own) event.

(** The end of [RemoveChannel], common to its two branches. *)
Definition close_channel_media (channelID : Z) : M Hub unit :=
  stopStreamForChannel channelID "voice channel was deleted" ;;
  removed ← on_voice (voice_removeChannel channelID);
  for_each removed (fun p => closeVoiceSession (vp_ConnectionID p)).

Definition RemoveChannel (channelID : Z) : M Hub unit :=
  if (channelID <=? 0)%Z then mret tt
  else
    r ← gets (getRoom channelID);
    match r with
    | None => close_channel_media channelID
    | Some r =>
        modify (fun h => h <| h_rooms ::= delete channelID |>) ;;
        for_each (room_closeAndSnapshot r).1
          (fun client => update_client client (removeSubscription channelID)) ;;
        close_channel_media channelID
    end.

(** ** role_permissions.go *)

(** The body of the loop of [RefreshRolePermissions] for one client. *)
Definition refresh_role (serverID : Z) (client : ClientRef) : M Hub unit :=
  h ← get_state;
  match h_rolePermissions h with
  | None => mret tt
  | Some rolePermissions =>
      let bits := rolePermissions serverID (cl_userID (client_at client h)) in
      let in_server := match voice_current client (h_voice h) with
        | Some current => (vp_ServerID current =? serverID)%Z
        | None => false
        end in
      let lacks := fun mask => match bits with
        | None => true
        | Some b => (Z.land b mask =? 0)%Z
        end in
      if lacks 4%Z then
        when in_server
          (leaveVoiceForServer client serverID ;;
           connectionID ← gets (fun h => cl_connectionID (client_at client h));
           SendToConnection Unregister connectionID (voice_closed "voice permission was revoked") ;;
           mret tt)
      else if lacks 8%Z then
        when (in_server && isPublisher client (h_streams h))
          (leaveStream Unregister client "stream permission was revoked" ;; mret tt)
      else mret tt
  end.

Definition RefreshRolePermissions (serverID : Z) : M Hub unit :=
  clients ← gets (clientsForServer serverID);
  for_each clients (refresh_role serverID) ;;
  RefreshChannelAccess serverID.
End ops.
