(* ===== verification/HubReach.v ===== *)
(** * The hub: every handler preserves the invariant

    The handlers of [HubOps] as a step relation and the reachability theorem:
    whatever sequence of handlers is executed, the indexes, the rooms, the
    presence counters, the voice state and the stream state agree. *)

From S2P Require Import Prelude Events Client ClientFacts ClientAccess.
From S2P Require Import VoiceState VoiceFacts StreamState StreamFacts Hub HubInv HubSpecs HubOps.

Section reach.
Context `{MapOrder} `{Sched : Schedule}.

(** ** A weaker frame for the handlers that install policies *)

Record ages (h h' : Hub) : Prop := {
  ag_clients : h_clients h' ⊆ h_clients h;
  ag_gone : ∀ c, c ∈ h_clients h → c ∉ h_clients h' → servers_of c h' = ∅;
  ag_ident : ∀ c, client_ident h' c = client_ident h c;
  ag_session : ∀ c, cl_sessionKey (client_at c h') = cl_sessionKey (client_at c h);
  ag_servers : ∀ c, servers_of c h' ⊆ servers_of c h;
  ag_subs : ∀ c ch, subs_of c h' !! ch = None ∨ subs_of c h' !! ch = subs_of c h !! ch;
  ag_voice : ∀ c, vs_byClient (h_voice h') !! c = None ∨
    vs_byClient (h_voice h') !! c = vs_byClient (h_voice h) !! c;
  ag_stream : ∀ c, sst_byClient (h_streams h') !! c = None ∨
    sst_byClient (h_streams h') !! c = sst_byClient (h_streams h) !! c;
  ag_heap : heap_frame (h_streams h) (h_streams h')
}.

Definition inv (h : Hub) : Prop := hub_inv ∅ ∅ h.
Definition kept (h h' : Hub) : Prop := inv h' ∧ ages h h'.
Definition ready (c : ClientRef) (h : Hub) : Prop := settled ∅ c h.

Lemma evolves_ages h h' : evolves h h' → ages h h'.
Proof. intros []. by split. Qed.

Lemma ages_refl h : ages h h.
Proof. apply evolves_ages, evolves_refl. Qed.

Lemma ages_trans h1 h2 h3 : ages h1 h2 → ages h2 h3 → ages h1 h3.
Proof.
  intros H1 H2. split.
  - etrans; [apply (ag_clients _ _ H2)|apply (ag_clients _ _ H1)].
  - intros c Hc Hn. destruct (decide (c ∈ h_clients h2)) as [?|Hn2].
    + by apply (ag_gone _ _ H2).
    + pose proof (ag_gone _ _ H1 c Hc Hn2). pose proof (ag_servers _ _ H2 c). set_solver.
  - intros c. by rewrite (ag_ident _ _ H2), (ag_ident _ _ H1).
  - intros c. by rewrite (ag_session _ _ H2), (ag_session _ _ H1).
  - intros c. etrans; [apply (ag_servers _ _ H2)|apply (ag_servers _ _ H1)].
  - intros c ch. eapply shrinks_trans; [apply (ag_subs _ _ H1)|apply (ag_subs _ _ H2)].
  - intros c. eapply shrinks_trans; [apply (ag_voice _ _ H1)|apply (ag_voice _ _ H2)].
  - intros c. eapply shrinks_trans; [apply (ag_stream _ _ H1)|apply (ag_stream _ _ H2)].
  - etrans; [apply (ag_heap _ _ H1)|apply (ag_heap _ _ H2)].
Qed.

Lemma same_shape_ages h h' : same_shape h h' → ages h h'.
Proof.
  intros Hs. split.
  - by rewrite (ss_clients _ _ Hs).
  - intros c. by rewrite (ss_clients _ _ Hs).
  - intros c. by apply same_shape_ident.
  - intros c. apply (sl_session _ _ (ss_links _ _ Hs c)).
  - intros c. by rewrite (same_shape_servers h h').
  - intros c ch. right. by rewrite (same_shape_subs h h').
  - intros c. right. by rewrite (ss_voice _ _ Hs).
  - intros c. right. by rewrite (ss_streams _ _ Hs).
  - by rewrite (ss_streams _ _ Hs).
Qed.

Lemma good_kept h h' : good ∅ h h' → kept h h'.
Proof. intros [? ?]. split; [done|by apply evolves_ages]. Qed.

Lemma kept_refl h : inv h → kept h h.
Proof. split; [done|apply ages_refl]. Qed.

Lemma kept_trans h1 h2 h3 : kept h1 h2 → kept h2 h3 → kept h1 h3.
Proof. intros [_ ?] [? ?]. split; [done|by eapply ages_trans]. Qed.

Lemma ready_ages c h h' : ages h h' → ready c h → ready c h'.
Proof.
  intros Hag [HP [Hc|Hs]]; (split; [done|]).
  - destruct (decide (c ∈ h_clients h')); [by left|]. right. by apply (ag_gone _ _ Hag).
  - right. pose proof (ag_servers _ _ Hag c). set_solver.
Qed.

Lemma ready_registered c h : inv h → c ∈ h_clients h → ready c h.
Proof. apply settled_registered. Qed.

(** Sequencing and loops. *)
Lemma wp_kept {A B} (m : M Hub A) (f : A → M Hub B) h :
  wp m (fun _ h' => kept h h') h →
  (∀ a h', kept h h' → wp (f a) (fun _ h'' => kept h' h'') h') →
  wp (m ≫= f) (fun _ h' => kept h h') h.
Proof.
  intros Hm Hf. apply wp_bind. eapply wp_mono; [done|]. intros a h1 H1. simpl.
  eapply wp_mono; [by apply Hf|]. intros b h2 H2. exact (kept_trans _ _ _ H1 H2).
Qed.

Lemma wp_good {A} (m : M Hub A) h :
  wp m (fun _ h' => good ∅ h h') h → wp m (fun _ h' => kept h h') h.
Proof. intros Hm. eapply wp_mono; [done|]. intros a h'. apply good_kept. Qed.

Lemma kept_for_each {A} (l : list A) (f : A → M Hub unit) h :
  inv h →
  (∀ x h', x ∈ l → kept h h' → wp (f x) (fun _ h'' => kept h' h'') h') →
  wp (for_each l f) (fun _ h' => kept h h') h.
Proof.
  intros Hi Hf. apply (wp_for_each_inv l f (fun h' => kept h h')); [by apply kept_refl|].
  intros x h1 Hx H1. eapply wp_mono; [by apply Hf|]. intros [] h2 H2. exact (kept_trans _ _ _ H1 H2).
Qed.

(** A loop that establishes [Q x] for every element, where nothing that
    happens later can undo it. *)
Lemma kept_for_each_post {A} (l : list A) (f : A → M Hub unit) (Q : A → Hub → Prop) h0 h :
  kept h0 h → (∀ x h1 h2, ages h1 h2 → Q x h1 → Q x h2) →
  (∀ x h', x ∈ l → kept h0 h' → wp (f x) (fun _ h'' => kept h' h'' ∧ Q x h'') h') →
  wp (for_each l f) (fun _ h' => kept h0 h' ∧ ∀ x, x ∈ l → Q x h') h.
Proof.
  intros H0 Hstable Hf.
  apply (wp_for_each l f (fun pre h' => kept h0 h' ∧ ∀ x, x ∈ pre → Q x h')).
  { split; [done|]. intros x Hx. by apply not_elem_of_nil in Hx. }
  intros pre x rest h1 -> [H1 Hpre]. eapply wp_mono; [apply Hf; [set_solver|done]|].
  intros [] h2 [H2 Hx]. split; [exact (kept_trans _ _ _ H1 H2)|].
  intros y [Hy| ->%list_elem_of_singleton]%elem_of_app; [|done].
  eapply Hstable; [apply H2|by apply Hpre].
Qed.

(** ** Installing policies *)

Lemma replace_links ids cl : same_links cl (replaceChannelAccess ids cl).
Proof. by split. Qed.

Lemma set_access_spec c ids h :
  inv h → wp (update_client c (replaceChannelAccess ids)) (fun _ h' => kept h h' ∧ same_shape h h') h.
Proof.
  intros Hi. unfold update_client, on_client, wp. simpl.
  assert (same_shape h (h <| h_mem ::= <[c := replaceChannelAccess ids (client_at c h)]> |>)) as Hs
    by (apply same_shape_put, replace_links).
  split; [split|done]; [|by apply same_shape_ages].
  eapply hub_inv_shape; [done| |done]. apply client_ok_put; [|apply (hi_client _ _ _ Hi)].
  eapply client_step_ok; [apply step_access|apply (hi_client _ _ _ Hi)].
Qed.

Lemma reload_spec clients h :
  inv h → wp (reloadChannelAccess clients) (fun _ h' => kept h h' ∧ same_shape h h') h.
Proof.
  intros Hi. unfold reloadChannelAccess. wp_step. wp_step.
  assert (∀ A (acc : A) (step : A → ClientRef → M Hub A),
    (∀ a c h', kept h h' → same_shape h h' →
       wp (step a c) (fun _ h'' => kept h h'' ∧ same_shape h h'') h') →
    wp (fold_each clients acc step) (fun _ h' => kept h h' ∧ same_shape h h') h) as Hloop.
  { intros A acc step Hstep.
    eapply wp_mono; [apply (wp_fold_each clients acc step
      (fun _ _ h' => kept h h' ∧ same_shape h h'))|done].
    - split; [by apply kept_refl|by split].
    - intros pre c rest a h1 _ [Hk Hs]. by apply Hstep. }
  assert (∀ c ids h', kept h h' → same_shape h h' →
    wp (update_client c (replaceChannelAccess ids)) (fun _ h'' => kept h h'' ∧ same_shape h h'') h')
    as Hset.
  { intros c ids h1 Hk Hs. eapply wp_mono; [by apply set_access_spec, Hk|].
    intros [] h2 [Hk2 Hs2]. split; [exact (kept_trans _ _ _ Hk Hk2)|exact (same_shape_trans _ _ _ Hs Hs2)]. }
  destruct (h_channelAccessBatchLoader h) as [loader|].
  - apply Hloop. intros failed c h1 Hk Hs. unfold reload_batched. wp_step. wp_step. wp_step.
    eapply wp_mono; [by apply Hset|]. intros [] h2 ?. by wp_step.
  - wp_step. eapply wp_mono; [apply Hloop|].
    + intros [permissions failed] c h1 Hk Hs. unfold reload_single. wp_step. wp_step.
      destruct (permissions !! _) as [ids|];
        [|destruct (loadChannelAccess _ h1) as [ids err]];
        (wp_step; eapply wp_mono; [by apply Hset|]; intros [] h2 ?; by wp_step).
    + intros [permissions failed] h1 Hk. by wp_step.
Qed.

Lemma close_kept c reason h :
  inv h → wp (update_client c (CloseWithReason reason)) (fun _ h' => kept h h' ∧ same_shape h h') h.
Proof.
  intros Hi. eapply wp_mono; [by apply (close_spec ∅ ∅)|].
  intros [] h1 (Hi1&Hev1&Hs1&_). split; [|done]. split; [done|by apply evolves_ages].
Qed.

Lemma Unregister_kept c h :
  inv h → ready c h → wp (Unregister c) (fun _ h' => kept h h' ∧ c ∉ h_clients h' ∧
    servers_of c h' = ∅) h.
Proof.
  intros Hi Hr. eapply wp_mono; [by apply (Unregister_spec ∅)|].
  intros [] h1 (Hg&?&?&_). split; [by apply good_kept|done].
Qed.

(** Closing with a reason and unregistering, as the revocation loops do. *)
Lemma close_unregister_spec c reason h :
  inv h → ready c h →
  wp (update_client c (CloseWithReason reason) ;; Unregister c) (fun _ h' =>
    kept h h' ∧ c ∉ h_clients h' ∧ servers_of c h' = ∅) h.
Proof.
  intros Hi Hr. wp_step. eapply wp_mono; [by apply close_kept|].
  intros [] h1 [Hk1 Hs1]. eapply wp_mono.
  - apply Unregister_kept; [apply Hk1|]. by eapply ready_ages; [apply Hk1|].
  - intros [] h2 (Hk2&?&?). split_and!; try done. exact (kept_trans _ _ _ Hk1 Hk2).
Qed.

(** ** The recursive core at handler level *)

Lemma broadcast_kept clients e h :
  inv h → event_typed e → (∀ c, c ∈ clients → ready c h) →
  wp (broadcastToClients Unregister clients e) (fun _ h' => kept h h') h.
Proof.
  intros Hi He Hl. apply wp_good.
  by apply (broadcast_spec (S (hub_measure h)) Unregister (Unregister_ok _)); [| |lia|].
Qed.

Lemma PublishToServer_kept s e h :
  inv h → event_typed e → wp (PublishToServer Unregister s e) (fun _ h' => kept h h') h.
Proof.
  intros Hi He. apply wp_good.
  by apply (PublishToServer_spec (S (hub_measure h)) Unregister (Unregister_ok _)); [| |lia].
Qed.

Lemma publishToServerExcept_kept s x e h :
  inv h → event_typed e → wp (publishToServerExcept Unregister s x e) (fun _ h' => kept h h') h.
Proof.
  intros Hi He. apply wp_good.
  by apply (publishToServerExcept_spec (S (hub_measure h)) Unregister (Unregister_ok _)); [| |lia].
Qed.

Lemma publishVoiceLeft_kept p x h :
  inv h → wp (publishVoiceLeft Unregister p x) (fun _ h' => kept h h') h.
Proof.
  intros Hi. apply wp_good.
  by apply (publishVoiceLeft_spec (S (hub_measure h)) Unregister (Unregister_ok _)); [|lia].
Qed.

Lemma SendToConnection_kept k e h :
  inv h → event_typed e → wp (SendToConnection Unregister k e) (fun _ h' => kept h h') h.
Proof.
  intros Hi He. apply wp_good.
  by apply (SendToConnection_spec (S (hub_measure h)) Unregister (Unregister_ok _)); [| |lia].
Qed.

Lemma leaveStream_kept c reason h :
  inv h → wp (leaveStream Unregister c reason) (fun r h' => kept h h' ∧
    sst_byClient (h_streams h') !! c = None ∧
    ∀ ref pub, r = Some (ref, pub) → is_Some (sst_heap (h_streams h') !! ref)) h.
Proof.
  intros Hi. eapply wp_mono.
  - by apply (leaveStream_spec (S (hub_measure h)) Unregister (Unregister_ok _) ∅ ∅); [|set_solver|lia].
  - intros r h1 (Hg&?&?). split_and!; [by apply good_kept|done|done].
Qed.

Lemma leaveVoice_kept c h :
  inv h → wp (leaveVoice Unregister c) (fun _ h' => kept h h' ∧
    sst_byClient (h_streams h') !! c = None ∧ vs_byClient (h_voice h') !! c = None) h.
Proof.
  intros Hi. eapply wp_mono.
  - by apply (leaveVoice_spec (S (hub_measure h)) Unregister (Unregister_ok _) ∅ ∅); [|set_solver|lia].
  - intros r h1 (Hg&?&?). split; [by apply good_kept|done].
Qed.

Lemma broadcastPresence_kept s u st h :
  inv h → wp (broadcastPresence Unregister s u st) (fun _ h' => kept h h') h.
Proof.
  intros Hi. apply wp_good.
  by apply (broadcastPresence_spec (S (hub_measure h)) Unregister (Unregister_ok _)); [|lia].
Qed.

Lemma removeClientServer_kept c s announce h :
  inv h → ready c h →
  wp (removeClientServer Unregister c s announce) (fun _ h' => kept h h' ∧ s ∉ servers_of c h') h.
Proof.
  intros Hi [_ Hr]. eapply wp_mono.
  - apply (removeClientServer_spec (S (hub_measure h)) Unregister (Unregister_ok _) ∅);
      [done|set_solver|lia].
  - intros [] h1 [Hg ?]. split; [by apply good_kept|done].
Qed.

Lemma snapshots_kept c h :
  inv h → ready c h →
  wp (sendVoiceSnapshot Unregister c ;; sendStreamSnapshot Unregister c) (fun _ h' => kept h h') h.
Proof.
  intros Hi Hr. apply wp_kept.
  - apply wp_good. by apply (sendVoiceSnapshot_spec (S (hub_measure h)) Unregister (Unregister_ok _)); [| |lia].
  - intros [] h1 Hk. apply wp_good.
    apply (sendStreamSnapshot_spec (S (hub_measure h1)) Unregister (Unregister_ok _));
      [apply Hk|by eapply ready_ages; [apply Hk|]|lia].
Qed.

Lemma sendPresenceSnapshot_kept c l h :
  inv h → ready c h → wp (sendPresenceSnapshot Unregister c l) (fun _ h' => kept h h') h.
Proof.
  intros Hi Hr. apply wp_good.
  by apply (sendPresenceSnapshot_spec (S (hub_measure h)) Unregister (Unregister_ok _)); [| |lia].
Qed.

Lemma Unsubscribe_kept c ch h : inv h → wp (Unsubscribe c ch) (fun _ h' => kept h h') h.
Proof.
  intros Hi. destruct (decide (0 < ch)%Z) as [Hch|Hch].
  - eapply wp_mono; [by apply (Unsubscribe_spec ∅ ∅)|].
    intros b h1 (Hi1&Hev1&_). split; [done|by apply evolves_ages].
  - unfold Unsubscribe. rewrite (proj2 (Z.leb_le _ _)) by lia. wp_step. by apply kept_refl.
Qed.

Lemma closeVoiceSession_kept k h : inv h → wp (closeVoiceSession k) (fun _ h' => kept h h') h.
Proof.
  intros Hi. eapply wp_mono; [apply closeVoiceSession_spec|].
  intros [] h1 Hin. by apply good_kept, inert_good.
Qed.

(** ** channel_access.go and role_permissions.go *)

Lemma drop_failed_kept c h : inv h → ready c h → wp (drop_failed c) (fun _ h' => kept h h') h.
Proof.
  intros Hi Hr. eapply wp_mono; [by apply close_unregister_spec|]. by intros [] h1 [? _].
Qed.

Lemma voice_closed_typed reason : event_typed (voice_closed reason).
Proof. by apply event_typed_new. Qed.

Lemma send_closed_kept (c : ClientRef) (reason : string) h :
  inv h →
  wp (k ← gets (fun h => cl_connectionID (client_at c h));
      SendToConnection Unregister k (voice_closed reason) ;; mret tt) (fun _ h' => kept h h') h.
Proof.
  intros Hi. wp_step. wp_step. wp_step. eapply wp_mono.
  - apply SendToConnection_kept; [done|apply voice_closed_typed].
  - intros b h1 Hk. by wp_step.
Qed.

Lemma refresh_client_kept s failed c h :
  inv h → ready c h → wp (refresh_client s failed c) (fun _ h' => kept h h') h.
Proof.
  intros Hi Hr. unfold refresh_client. wp_step. wp_step.
  destruct (failed_for failed c h); [by apply drop_failed_kept|]. wp_step. wp_step.
  apply wp_kept.
  { destruct (voice_current c (h_voice h)) as [p|]; [|wp_step; by apply kept_refl].
    wp_step; [|by apply kept_refl]. apply wp_kept.
    - eapply wp_mono; [by apply leaveVoice_kept|]. by intros r h1 [? _].
    - intros r h1 Hk. by apply send_closed_kept, Hk. }
  intros [] h1 Hk1. wp_step. wp_step. apply wp_kept.
  { apply kept_for_each; [apply Hk1|]. intros ch h2 _ Hk2. wp_step. wp_step.
    wp_step; [|by apply kept_refl, Hk2]. wp_step.
    eapply wp_mono; [apply Unsubscribe_kept, Hk2|]. intros b h3 Hk3. by wp_step. }
  intros [] h2 Hk2. apply snapshots_kept; [apply Hk2|].
  eapply ready_ages; [|exact Hr]. by apply (kept_trans h h1 h2).
Qed.

Lemma server_clients_ready s h c : inv h → c ∈ clientsForServer s h → ready c h.
Proof. apply clientsForServer_settled. Qed.

Lemma RefreshChannelAccess_kept s h :
  inv h → wp (RefreshChannelAccess s) (fun _ h' => kept h h') h.
Proof.
  intros Hi. unfold RefreshChannelAccess. wp_step. wp_step.
  assert (wp (failed ← reloadChannelAccess (clientsForServer s h);
    for_each (clientsForServer s h) (refresh_client s failed) ;;
    PublishToServer Unregister s (new_event EventChannelsChanged (DServerDeleted s)) ;; mret tt)
    (fun _ h' => kept h h') h) as Hmain.
  { apply wp_kept.
    - eapply wp_mono; [by apply reload_spec|]. by intros ? h1 [? _].
    - intros failed h1 Hk1. apply wp_kept.
      + apply kept_for_each; [apply Hk1|]. intros c h2 Hc Hk2.
        apply refresh_client_kept; [apply Hk2|].
        eapply ready_ages; [apply (kept_trans h h1 h2 Hk1 Hk2)|by apply (server_clients_ready s)].
      + intros [] h2 Hk2. wp_step. eapply wp_mono.
        * apply PublishToServer_kept; [apply Hk2|by apply event_typed_new].
        * intros n h3 ?. by wp_step. }
  destruct (h_channelAccessLoader h), (h_channelAccessBatchLoader h); try exact Hmain.
  wp_step. by apply kept_refl.
Qed.

(** Running an operation of the voice state that only removes entries. *)
Lemma voice_shrink {A} (m : M voiceState A) (Q : A → voiceState → Prop) h :
  inv h → wp m Q (h_voice h) →
  (∀ a v, Q a v → voice_inv (client_ident h) v ∧
    ∀ c, vs_byClient v !! c = None ∨ vs_byClient v !! c = vs_byClient (h_voice h) !! c) →
  wp (on_voice m) (fun a h' => kept h h' ∧ Q a (h_voice h')) h.
Proof.
  intros Hi Hm HQ. unfold on_voice, wp in *. destruct (m (h_voice h)) as [[a v]| |]; [|done..].
  destruct (HQ a v Hm) as [Hv Hs]. split; [|done]. apply good_kept.
  split; [|by apply evolves_voice].
  apply hub_inv_voice; [done|done|]. intros c Hc. apply (hi_voice_live _ _ _ Hi).
  destruct (Hs c) as [Hn|<-]; [|done]. rewrite Hn in Hc. by destruct Hc.
Qed.

Lemma leave_server_voice c s h :
  inv h → wp (on_voice (voice_leaveServer c s)) (fun _ h' => kept h h' ∧
    ∀ p, vs_byClient (h_voice h') !! c = Some p → vp_ServerID p ≠ s) h.
Proof.
  intros Hi. eapply wp_mono.
  - apply voice_shrink; [done|by apply (voice_leaveServer_spec (client_ident h)), (hi_voice _ _ _ Hi)|].
    intros r v [Hv Hr]. split; [done|]. intros c'. destruct r as [p|]; [|destruct Hr as [-> _]; by right].
    destruct Hr as (_&_&->). rewrite lookup_delete. case_decide; auto.
  - intros r h1 (Hk&_&Hr). split; [done|]. intros p Hp.
    destruct r as [q|]; [|destruct Hr as [Heq Hr]; rewrite Heq in Hp; by apply Hr].
    destruct Hr as (_&_&Hd). rewrite Hd, lookup_delete_eq in Hp. done.
Qed.

Definition voice_out (s : Z) (c : ClientRef) (h : Hub) : Prop :=
  ∀ p, vs_byClient (h_voice h) !! c = Some p → vp_ServerID p ≠ s.

Lemma voice_out_ages s c h h' : ages h h' → voice_out s c h → voice_out s c h'.
Proof.
  intros Hag Hv p Hp. destruct (ag_voice _ _ Hag c) as [E|E]; rewrite E in Hp; [done|by apply Hv].
Qed.

Lemma leaveVoiceForServer_out c s h :
  inv h → wp (leaveVoiceForServer c s) (fun _ h' => kept h h' ∧ voice_out s c h') h.
Proof.
  intros Hi. unfold leaveVoiceForServer. wp_step. wp_step. wp_step.
  eapply (wp_mono _ (fun _ h' => kept h h')).
  { destruct (voice_current c (h_voice h)) as [p|]; [|wp_step; by apply kept_refl].
    wp_step; [|by apply kept_refl]. wp_step. eapply wp_mono; [by apply leaveStream_kept|].
    intros r h1 [? _]. by wp_step. }
  intros [] h1 Hk1. wp_step. eapply wp_mono; [apply leave_server_voice, Hk1|].
  intros r h2 [Hk2 Hout]. pose proof (kept_trans _ _ _ Hk1 Hk2) as Hk02.
  destruct r as [p|]; [|by wp_step]. eapply wp_mono; [apply (wp_kept (publishVoiceLeft Unregister p c))|].
  - apply publishVoiceLeft_kept, Hk2.
  - intros [] h3 Hk3. apply closeVoiceSession_kept, Hk3.
  - intros [] h3 Hk3. split; [exact (kept_trans _ _ _ Hk02 Hk3)|].
    eapply voice_out_ages; [apply Hk3|done].
Qed.

Lemma leaveVoiceForServer_kept c s h :
  inv h → wp (leaveVoiceForServer c s) (fun _ h' => kept h h') h.
Proof. intros Hi. eapply wp_mono; [by apply leaveVoiceForServer_out|]. by intros [] h1 [? _]. Qed.

Lemma refresh_role_kept s c h : inv h → wp (refresh_role s c) (fun _ h' => kept h h') h.
Proof.
  intros Hi. unfold refresh_role. wp_step. wp_step.
  destruct (h_rolePermissions h) as [perm|]; [|wp_step; by apply kept_refl].
  assert (∀ b, wp (when b (leaveVoiceForServer c s ;;
    connectionID ← gets (fun h => cl_connectionID (client_at c h));
    SendToConnection Unregister connectionID (voice_closed "voice permission was revoked") ;;
    mret tt)) (fun _ h' => kept h h') h) as Hvoice.
  { intros b. wp_step; [|by apply kept_refl]. apply wp_kept; [by apply leaveVoiceForServer_kept|].
    intros [] h1 Hk1. apply send_closed_kept, Hk1. }
  destruct (perm s _) as [b|]; [|apply Hvoice].
  destruct (Z.land b 4 =? 0)%Z; [apply Hvoice|].
  destruct (Z.land b 8 =? 0)%Z; [|wp_step; by apply kept_refl].
  wp_step; [|by apply kept_refl]. wp_step. eapply wp_mono; [by apply leaveStream_kept|].
  intros r h1 [? _]. by wp_step.
Qed.

Lemma RefreshRolePermissions_kept s h :
  inv h → wp (RefreshRolePermissions s) (fun _ h' => kept h h') h.
Proof.
  intros Hi. unfold RefreshRolePermissions. wp_step. wp_step. apply wp_kept.
  - apply kept_for_each; [done|]. intros c h1 _ Hk1. apply refresh_role_kept, Hk1.
  - intros [] h1 Hk1. apply RefreshChannelAccess_kept, Hk1.
Qed.

(** ** Revocation *)

(** Unregistering every connection of a list leaves none of them registered. *)
Lemma close_all reason l h :
  inv h → (∀ c, c ∈ l → ready c h) →
  wp (for_each l (fun c => update_client c (CloseWithReason reason) ;; Unregister c)) (fun _ h' =>
    kept h h' ∧ ∀ c, c ∈ l → c ∉ h_clients h') h.
Proof.
  intros Hi Hl. apply (kept_for_each_post l _ (fun c h' => c ∉ h_clients h')).
  - by apply kept_refl.
  - intros c h1 h2 Hag. pose proof (ag_clients _ _ Hag). set_solver.
  - intros c h1 Hc Hk. eapply wp_mono.
    + apply close_unregister_spec; [apply Hk|]. eapply ready_ages; [apply Hk|by apply Hl].
    + intros [] h2 (?&?&_). done.
Qed.

Lemma revokeSessionKey_spec key h :
  inv h →
  wp (revokeSessionKey key) (fun _ h' => kept h h' ∧
    ∀ c, c ∈ h_clients h' → cl_sessionKey (client_at c h') ≠ key) h.
Proof.
  intros Hi. unfold revokeSessionKey. wp_step. wp_step. eapply wp_mono.
  - apply close_all; [done|]. intros c Hc%elem_of_range_set.
    apply ready_registered; [done|]. by apply (hi_session _ _ _ Hi) in Hc as [? _].
  - intros [] h1 [Hk Hgone]. split; [done|]. intros c Hc Hkey. apply (Hgone c); [|done].
    apply elem_of_range_set, (hi_session _ _ _ Hi). rewrite <- Hkey.
    destruct Hk as [_ Hag]. rewrite (ag_session _ _ Hag). split; [|done].
    by apply (ag_clients _ _ Hag).
Qed.

Lemma hub_Close_spec h :
  inv h → wp hub_Close (fun _ h' => kept h h' ∧ h_clients h' = ∅) h.
Proof.
  intros Hi. unfold hub_Close. wp_step. wp_step. wp_step. wp_step.
  set (h0 := h <| h_closed := true |>). assert (same_shape h h0) as Hs0 by (by split).
  assert (inv h0) as Hi0 by (eapply hub_inv_shape; [done|intros c; apply (hi_client _ _ _ Hi c)|exact Hi]).
  eapply wp_mono; [apply close_all; [done|]|].
  - intros c Hc%elem_of_range_set. by apply ready_registered.
  - intros [] h1 [Hk Hgone].
    split; [exact (kept_trans _ _ _ (conj Hi0 (same_shape_ages _ _ Hs0)) Hk)|]. apply set_eq. intros c. split; [|set_solver].
    intros Hc. exfalso. apply (Hgone c); [|done]. apply elem_of_range_set.
    by apply (ag_clients _ _ (proj2 Hk)).
Qed.

Lemma unsubscribeFromServer_kept c s h :
  inv h → wp (unsubscribeFromServer c s) (fun _ h' => kept h h' ∧
    ∀ ch, subs_of c h' !! ch ≠ Some s) h.
Proof.
  intros Hi. unfold unsubscribeFromServer. wp_step. wp_step. eapply wp_mono.
  { apply (unsubscribe_loop ∅ ∅); [done|]. intros ch [[ch' s'] [-> Hin]]%list_elem_of_fmap.
    apply list_elem_of_filter in Hin as [_ Hin]. apply elem_of_range_entries in Hin.
    apply (hi_sub_pos _ _ _ Hi c). simpl. eauto. }
  intros [] h1 (Hi1&Hev1&_&Hsub&_). split; [split; [done|by apply evolves_ages]|].
  intros ch. rewrite Hsub. case_decide as Hin; [done|]. intros Heq. apply Hin.
  apply list_elem_of_fmap. exists (ch, s). split; [done|].
  apply list_elem_of_filter. by rewrite elem_of_range_entries.
Qed.

(** What a user keeps in a server: nothing. *)
Definition out_of_server (s : Z) (c : ClientRef) (h : Hub) : Prop :=
  s ∉ servers_of c h ∧ (∀ ch, subs_of c h !! ch ≠ Some s) ∧ voice_out s c h.

Lemma out_of_server_ages s c h h' : ages h h' → out_of_server s c h → out_of_server s c h'.
Proof.
  intros Hag (Hs&Hsub&Hv). split_and!.
  - pose proof (ag_servers _ _ Hag c). set_solver.
  - intros ch. destruct (ag_subs _ _ Hag c ch) as [->| ->]; [done|apply Hsub].
  - by eapply voice_out_ages.
Qed.

(** The clean-up of one connection in [RevokeUserFromServer]. *)
Lemma revoke_connection s failed c h :
  inv h → ready c h →
  wp (bad ← gets (failed_for failed c);
      if bad : bool then drop_failed c
      else leaveVoiceForServer c s ;; removeClientServer Unregister c s false ;;
           unsubscribeFromServer c s)
    (fun _ h' => kept h h' ∧ (c ∈ h_clients h' → out_of_server s c h')) h.
Proof.
  intros Hi Hr. wp_step. wp_step. destruct (failed_for failed c h).
  { eapply wp_mono; [by apply close_unregister_spec|]. naive_solver. }
  wp_step. eapply wp_mono; [by apply leaveVoiceForServer_out|]. intros [] h1 [Hk1 Hv1].
  wp_step. eapply wp_mono.
  { apply removeClientServer_kept; [apply Hk1|]. eapply ready_ages; [apply Hk1|done]. }
  intros [] h2 [Hk2 Hs2]. eapply wp_mono; [apply unsubscribeFromServer_kept, Hk2|].
  intros [] h3 [Hk3 Hsub]. pose proof (kept_trans _ _ _ Hk2 Hk3) as Hk13.
  split; [exact (kept_trans _ _ _ Hk1 Hk13)|]. intros _. split_and!; [|done|].
  - pose proof (ag_servers _ _ (proj2 Hk3) c). set_solver.
  - eapply voice_out_ages; [apply Hk13|done].
Qed.

Lemma RevokeUserFromServer_spec u s h :
  inv h → (0 < u)%Z → (0 < s)%Z →
  wp (RevokeUserFromServer u s) (fun _ h' => kept h h' ∧
    ∀ c, c ∈ h_clients h' → user_of c h' = u → out_of_server s c h') h.
Proof.
  intros Hi Hu Hs. unfold RevokeUserFromServer.
  rewrite (proj2 (Z.leb_gt _ _) Hu), (proj2 (Z.leb_gt _ _) Hs). simpl.
  wp_step. wp_step. wp_step. wp_step. set (own := clientSetSnapshot _).
  assert (∀ c, c ∈ own ↔ c ∈ h_clients h ∧ user_of c h = u) as Hown.
  { intros c. unfold own, clientSetSnapshot. rewrite elem_of_range_set. apply (hi_user _ _ _ Hi). }
  assert (∀ c, c ∈ own → ready c h) as Hready.
  { intros c [Hc _]%Hown. by apply ready_registered. }
  wp_step. eapply wp_mono; [by apply reload_spec|]. intros failed h1 [Hk1 _].
  wp_step. eapply wp_mono.
  { apply broadcast_kept; [apply Hk1|by apply event_typed_new|]. intros c Hc.
    eapply ready_ages; [apply Hk1|]. apply elem_of_app in Hc as [Hc|Hc]; [|by apply Hready].
    by apply (server_clients_ready s). }
  intros n h2 Hk2. eapply wp_mono.
  { apply (kept_for_each_post own _ (fun c h' => c ∈ h_clients h' → out_of_server s c h') h).
    - exact (kept_trans _ _ _ Hk1 Hk2).
    - intros c h3 h4 Hag Hc Hin. eapply out_of_server_ages; [done|]. apply Hc.
      by apply (ag_clients _ _ Hag).
    - intros c h3 Hc Hk3. apply revoke_connection; [apply Hk3|].
      eapply ready_ages; [apply Hk3|by apply Hready]. }
  intros [] h3 [Hk3 Hout]. split; [done|]. intros c Hc Hcu. apply Hout; [|done]. apply Hown.
  pose proof (ag_ident _ _ (proj2 Hk3) c) as Hid. split; [by apply (ag_clients _ _ (proj2 Hk3))|].
  injection Hid as Hid _. unfold user_of in *. congruence.
Qed.

Lemma stopStreamForChannel_kept ch reason h :
  inv h → wp (stopStreamForChannel ch reason) (fun _ h' => kept h h' ∧
    ∀ c, c ∈ publishersForChannel ch (h_streams h) → sst_byClient (h_streams h') !! c = None) h.
Proof.
  intros Hi. unfold stopStreamForChannel. wp_step. wp_step.
  apply (kept_for_each_post _ _ (fun c h' => sst_byClient (h_streams h') !! c = None)).
  - by apply kept_refl.
  - intros c h1 h2 Hag Hc. destruct (ag_stream _ _ Hag c) as [?| ->]; done.
  - intros c h1 _ Hk. wp_step. eapply wp_mono; [apply leaveStream_kept, Hk|].
    intros r h2 (?&?&_). by wp_step.
Qed.

(** A server nobody belongs to has no presence counters. *)
Lemma presence_empty s h :
  serial_registration → inv h → (∀ c, c ∈ h_clients h → s ∉ servers_of c h) →
  h_presence h !! s = None.
Proof.
  intros Hser Hi Hout. destruct (h_presence h !! s) as [mp|] eqn:Hmp; [|done].
  destruct (hi_presence_tight _ _ _ Hi _ _ Hmp) as [Hne Hpos].
  apply map_choose in Hne as (u&n&Hn). apply Hpos in Hn as Hn'.
  pose proof (hi_presence _ _ _ Hi Hser s u) as Hc. unfold presence_count in Hc.
  rewrite Hmp in Hc. simpl in Hc. rewrite Hn in Hc. simpl in Hc.
  assert (connections s u ∅ h = ∅) as Hemp.
  { apply set_eq. intros c. unfold connections. rewrite elem_of_filter. set_solver. }
  rewrite Hemp, size_empty in Hc. lia.
Qed.

(** Dropping the counters of such a server. *)
Lemma drop_presence_kept s h :
  inv h → (∀ c, c ∈ h_clients h → s ∉ servers_of c h) → kept h (h <| h_presence ::= delete s |>).
Proof.
  intros Hi Hout. split; [|split; simpl; auto; try reflexivity; done].
  split; try apply Hi.
  - intros Hser s' u. rewrite presence_count_delete. case_decide as Hd; [subst s'|by apply (hi_presence _ _ _ Hi)].
    change (connections s u ∅ (h <| h_presence ::= delete s |>)) with (connections s u ∅ h).
    assert (connections s u ∅ h = ∅) as ->; [|done].
    apply set_eq. intros c. unfold connections. rewrite elem_of_filter. set_solver.
  - intros s' m. simpl. rewrite lookup_delete. case_decide; [done|apply (hi_presence_tight _ _ _ Hi)].
Qed.

(** The membership part of [RevokeServer]: nobody is left in the server. *)
Lemma revoke_members s failed l h0 h :
  kept h0 h → (∀ c, c ∈ l ↔ c ∈ h_clients h0 ∧ s ∈ servers_of c h0) → inv h0 →
  wp (for_each l (fun c => bad ← gets (failed_for failed c);
        if bad : bool then drop_failed c
        else removeClientServer Unregister c s false ;; unsubscribeFromServer c s))
    (fun _ h' => kept h0 h' ∧ ∀ c, c ∈ h_clients h' → s ∉ servers_of c h') h.
Proof.
  intros Hk Hl Hi0. eapply wp_mono.
  { apply (kept_for_each_post l _ (fun c h' => s ∉ servers_of c h') h0); [done|..].
    - intros c h1 h2 Hag Hc. pose proof (ag_servers _ _ Hag c). set_solver.
    - intros c h1 Hc Hk1. assert (ready c h1) as Hr.
      { eapply ready_ages; [apply Hk1|]. apply ready_registered; [done|by apply Hl]. }
      wp_step. wp_step. destruct (failed_for failed c h1).
      + eapply wp_mono; [apply close_unregister_spec; [apply Hk1|done]|].
        intros [] h2 (?&_&Hemp). split; [done|]. rewrite Hemp. set_solver.
      + wp_step. eapply wp_mono; [apply removeClientServer_kept; [apply Hk1|done]|].
        intros [] h2 [Hk2 Hs2]. eapply wp_mono; [apply unsubscribeFromServer_kept, Hk2|].
        intros [] h3 [Hk3 _]. split; [exact (kept_trans _ _ _ Hk2 Hk3)|].
        pose proof (ag_servers _ _ (proj2 Hk3) c). set_solver. }
  intros [] h1 [Hk1 Hout]. split; [done|]. intros c Hc Hin. apply (Hout c); [|done]. apply Hl.
  split; [by apply (ag_clients _ _ (proj2 Hk1))|by apply (ag_servers _ _ (proj2 Hk1))].
Qed.

Lemma RevokeServer_spec s h :
  inv h → (0 < s)%Z →
  wp (RevokeServer s) (fun _ h' => kept h h' ∧ (serial_registration → h_presence h' !! s = None) ∧
    (∀ c, c ∈ h_clients h' → s ∉ servers_of c h') ∧ (∀ c, voice_out s c h')) h.
Proof.
  intros Hi Hs. unfold RevokeServer. rewrite (proj2 (Z.leb_gt _ _) Hs).
  wp_step. wp_step. set (l := clientsForServer s h).
  assert (∀ c, c ∈ l ↔ c ∈ h_clients h ∧ s ∈ servers_of c h) as Hl.
  { intros c. unfold l, clientsForServer, clientSetSnapshot. rewrite elem_of_range_set.
    apply (hi_server _ _ _ Hi). }
  wp_step. eapply wp_mono; [by apply reload_spec|]. intros failed h1 [Hk1 _].
  wp_step. eapply wp_mono.
  { apply broadcast_kept; [apply Hk1|by apply event_typed_new|]. intros c Hc.
    eapply ready_ages; [apply Hk1|]. by apply (server_clients_ready s). }
  intros n h2 Hk2. wp_step. eapply wp_mono.
  { apply (revoke_members s failed l h); [exact (kept_trans _ _ _ Hk1 Hk2)|done|done]. }
  intros [] h2' [Hk2' Hout']. wp_step. wp_step.
  pose proof (drop_presence_kept s h2' (proj1 Hk2') Hout') as Hkd.
  set (h3 := h2' <| h_presence ::= delete s |>) in *.
  pose proof (kept_trans _ _ _ Hk2' Hkd) as Hk3.
  assert (∀ c, c ∈ h_clients h3 → s ∉ servers_of c h3) as Hout by exact Hout'.
  clearbody h3. wp_step. eapply wp_mono.
  { apply voice_shrink; [apply Hk3|apply (voice_removeServer_spec (client_ident h3)), (hi_voice _ _ _ (proj1 Hk3))|].
    intros r v (Hv&Hbc&_). split; [done|]. intros c. rewrite Hbc, map_lookup_filter.
    destruct (_ !! c); simpl; [|by right]. case_guard; simpl; auto. }
  intros removed h4 (Hk4&_&Hbc&_). pose proof (kept_trans _ _ _ Hk3 Hk4) as Hk04.
  assert (∀ c, voice_out s c h4) as Hvo.
  { intros c p. rewrite Hbc. intros [_ ?]%map_lookup_filter_Some. done. }
  assert (∀ c, c ∈ h_clients h4 → s ∉ servers_of c h4) as Hout4.
  { intros c Hc Hin. apply (Hout c); [by apply (ag_clients _ _ (proj2 Hk4))|].
    by apply (ag_servers _ _ (proj2 Hk4)). }
  eapply wp_mono.
  { apply kept_for_each; [apply Hk4|]. intros p h5 _ Hk5. apply wp_kept.
    - eapply wp_mono; [apply stopStreamForChannel_kept, Hk5|]. by intros [] h6 [? _].
    - intros [] h6 Hk6. apply closeVoiceSession_kept, Hk6. }
  intros [] h5 Hk5. assert (∀ c, c ∈ h_clients h5 → s ∉ servers_of c h5) as Hout5.
  { intros c Hc Hin. apply (Hout4 c); [by apply (ag_clients _ _ (proj2 Hk5))|].
    by apply (ag_servers _ _ (proj2 Hk5)). }
  split_and!; [exact (kept_trans _ _ _ Hk04 Hk5)|intros Hser; by apply presence_empty; [|apply Hk5|]|done|].
  intros c. eapply voice_out_ages; [apply Hk5|apply Hvo].
Qed.
End reach.
