(* ===== verification/HubRefresh.v ===== *)
(** * Refreshing the policies of a server

    What [RefreshChannelAccess] leaves: every connection of the server has the
    policy the loader answers, and no subscription to a channel of the server
    and no voice seat outside it. *)

From S2P Require Import Prelude GoText StreamContract Events Client ClientFacts ClientAccess VoiceState VoiceFacts StreamState StreamFacts Hub HubInv HubSpecs HubOps HubReach.

Section refresh.
Context `{MapOrder} `{Sched : Schedule}.

(** ** Steps that keep the policies *)

Lemma wp_good_bind {A B} (m : M Hub A) (f : A → M Hub B) h :
  wp m (fun _ h' => good ∅ h h') h →
  (∀ a h', good ∅ h h' → wp (f a) (fun _ h'' => good ∅ h' h'') h') →
  wp (m ≫= f) (fun _ h' => good ∅ h h') h.
Proof.
  intros Hm Hf. apply wp_bind. eapply wp_mono; [done|]. intros a h1 H1. simpl.
  eapply wp_mono; [by apply Hf|]. intros b h2 H2. exact (good_trans _ _ _ _ H1 H2).
Qed.

Lemma Unsubscribe_good c ch h : inv h →
  wp (Unsubscribe c ch) (fun _ h' => good ∅ h h' ∧ subs_of c h' !! ch = None) h.
Proof.
  intros Hi. destruct (decide (0 < ch)%Z) as [Hch|Hch].
  - eapply wp_mono; [by apply (Unsubscribe_spec ∅ ∅)|].
    intros b h1 (Hi1&Hev1&_&Hs&_). split; [by split|]. by rewrite Hs, decide_True, lookup_delete_eq.
  - unfold Unsubscribe. rewrite (proj2 (Z.leb_le _ _)) by lia. wp_step. split; [by apply good_refl|].
    destruct (subs_of c h !! ch) eqn:E; [|done]. exfalso. apply Hch, (hi_sub_pos _ _ _ Hi c). eauto.
Qed.

(** A connection only has what its policy allows: its subscriptions to
    channels of the server and its voice seat. *)
Definition confined (s : Z) (c : ClientRef) (h : Hub) : Prop :=
  (∀ ch, subs_of c h !! ch = Some s → canAccessChannel (client_at c h) ch = true) ∧
  (∀ p, vs_byClient (h_voice h) !! c = Some p → canAccessChannel (client_at c h) (vp_ChannelID p) = true).

Lemma access_evolves c ch h h' : evolves h h' →
  canAccessChannel (client_at c h') ch = canAccessChannel (client_at c h) ch.
Proof. intros Hev. unfold canAccessChannel. by rewrite (ev_access _ _ Hev). Qed.

Lemma confined_evolves s c h h' : evolves h h' → confined s c h → confined s c h'.
Proof.
  intros Hev [Hs Hv]. split.
  - intros ch Hch. rewrite (access_evolves c ch h h') by done. apply Hs.
    destruct (ev_subs _ _ Hev c ch) as [E|E]; [|by rewrite <- E]. by rewrite E in Hch.
  - intros p Hp. rewrite (access_evolves c _ h h') by done. apply Hv.
    destruct (ev_voice _ _ Hev c) as [E|E]; [|by rewrite <- E]. by rewrite E in Hp.
Qed.

Lemma snapshots_good c h :
  inv h → ready c h →
  wp (sendVoiceSnapshot Unregister c ;; sendStreamSnapshot Unregister c) (fun _ h' => good ∅ h h') h.
Proof.
  intros Hi Hr. apply wp_good_bind.
  - by apply (sendVoiceSnapshot_spec (S (hub_measure h)) Unregister (Unregister_ok _)); [| |lia].
  - intros [] h1 Hk. apply (sendStreamSnapshot_spec (S (hub_measure h1)) Unregister (Unregister_ok _));
      [apply Hk|by eapply ready_ages; [apply good_kept, Hk|]|lia].
Qed.

(** Leaving the seat the policy no longer covers. *)
Lemma leave_voice_refused c h :
  inv h →
  wp (match voice_current c (h_voice h) with
      | Some current =>
          when (negb (canAccessChannel (client_at c h) (vp_ChannelID current)))
            (leaveVoice Unregister c ;;
             connectionID ← gets (fun h => cl_connectionID (client_at c h));
             SendToConnection Unregister connectionID (voice_closed "channel access was revoked") ;;
             mret tt)
      | None => mret tt
      end) (fun _ h' => good ∅ h h' ∧
        ∀ p, vs_byClient (h_voice h') !! c = Some p → canAccessChannel (client_at c h') (vp_ChannelID p) = true) h.
Proof.
  intros Hi. unfold voice_current. destruct (vs_byClient (h_voice h) !! c) as [q|] eqn:Hq.
  - destruct (canAccessChannel (client_at c h) (vp_ChannelID q)) eqn:Ha; simpl.
    + wp_step. split; [by apply good_refl|]. intros p Hp. congruence.
    + wp_step. eapply wp_mono.
      { apply (leaveVoice_spec (S (hub_measure h)) Unregister (Unregister_ok _) ∅ ∅); [done|set_solver|lia]. }
      intros r h1 (Hg1&_&Hv1). simpl. wp_step. wp_step. wp_step.
      eapply wp_mono.
      { apply (SendToConnection_spec (S (hub_measure h1)) Unregister (Unregister_ok _));
          [apply Hg1|apply voice_closed_typed|lia]. }
      intros b h2 Hg2. wp_step. split; [exact (good_trans _ _ _ _ Hg1 Hg2)|].
      intros p Hp. destruct (ev_voice _ _ (proj2 Hg2) c) as [E|E]; rewrite E in Hp; congruence.
  - wp_step. split; [by apply good_refl|]. intros p Hp. congruence.
Qed.

Lemma unsubscribe_refused s c ids h :
  inv h →
  wp (for_each ids (fun id =>
      cl ← gets (client_at c);
      when (negb (canAccessChannel cl id)) (Unsubscribe c id ;; mret tt))) (fun _ h' => good ∅ h h' ∧
    ∀ ch, ch ∈ ids → subs_of c h' !! ch = Some s → canAccessChannel (client_at c h') ch = true) h.
Proof.
  intros Hi. apply (wp_for_each ids _ (fun pre h' => good ∅ h h' ∧
    ∀ ch, ch ∈ pre → subs_of c h' !! ch = Some s → canAccessChannel (client_at c h') ch = true)).
  { split; [by apply good_refl|]. intros ch Hch. by apply not_elem_of_nil in Hch. }
  intros pre id rest h1 -> [Hg1 Hpre]. wp_step. wp_step.
  destruct (canAccessChannel (client_at c h1) id) eqn:Ha; simpl.
  - wp_step. split; [done|]. intros ch [Hch| ->%list_elem_of_singleton]%elem_of_app Hs; auto.
  - wp_step. eapply wp_mono; [apply Unsubscribe_good, Hg1|]. intros b h2 [Hg2 Hn]. wp_step.
    split; [exact (good_trans _ _ _ _ Hg1 Hg2)|].
    intros ch [Hch| ->%list_elem_of_singleton]%elem_of_app Hs; [|congruence].
    rewrite (access_evolves c ch h1 h2) by apply Hg2. apply Hpre; [done|].
    destruct (ev_subs _ _ (proj2 Hg2) c ch) as [E|E]; congruence.
Qed.

Lemma elem_of_subscriptionIDsForServer s c ch h :
  ch ∈ subscriptionIDsForServer s (client_at c h) ↔ subs_of c h !! ch = Some s.
Proof.
  unfold subscriptionIDsForServer, subs_of. rewrite list_elem_of_fmap. split.
  - intros ([ch' s']&->&[Hs Hin]%list_elem_of_filter). apply elem_of_range_entries in Hin. simpl in *. by subst.
  - intros Hs. exists (ch, s). split; [done|]. by rewrite list_elem_of_filter, elem_of_range_entries.
Qed.

Lemma refresh_client_confined s failed c h :
  inv h → ready c h → failed_for failed c h = false →
  wp (refresh_client s failed c) (fun _ h' => good ∅ h h' ∧ confined s c h') h.
Proof.
  intros Hi Hr Hf. unfold refresh_client. wp_step. wp_step. rewrite Hf. wp_step. wp_step. wp_step.
  eapply wp_mono; [by apply leave_voice_refused|]. intros [] h1 [Hg1 Hv1]. simpl. wp_step. wp_step. wp_step.
  eapply wp_mono; [apply (unsubscribe_refused s), Hg1|]. intros [] h2 [Hg2 Hs2]. simpl.
  eapply wp_mono.
  { apply snapshots_good; [apply Hg2|]. eapply ready_ages; [|exact Hr].
    apply evolves_ages. etrans; [apply Hg1|apply Hg2]. }
  intros [] h3 Hg3. split; [exact (good_trans _ _ _ _ Hg1 (good_trans _ _ _ _ Hg2 Hg3))|].
  apply (confined_evolves s c h2); [apply Hg3|]. split.
  - intros ch Hch. apply Hs2; [|done]. apply elem_of_subscriptionIDsForServer.
    destruct (ev_subs _ _ (proj2 Hg2) c ch) as [E|E]; congruence.
  - intros p Hp. rewrite (access_evolves c _ h1 h2) by apply Hg2. apply Hv1.
    destruct (ev_voice _ _ (proj2 Hg2) c) as [E|E]; congruence.
Qed.

(** ** Loading *)

Lemma set_access_at c ids h :
  inv h → wp (update_client c (replaceChannelAccess ids)) (fun _ h' => kept h h' ∧ same_shape h h' ∧
    ∀ c', cl_channelAccess (client_at c' h') = if decide (c' = c) then ids else cl_channelAccess (client_at c' h)) h.
Proof.
  intros Hi. pose proof (set_access_spec c ids h Hi) as Hs. unfold update_client, on_client, wp in *. simpl in *.
  destruct Hs as [Hk Hs]. split_and!; [done|done|]. intros c'. rewrite client_at_insert. by case_decide.
Qed.

Lemma elem_of_distinct_users clients h u :
  u ∈ distinct_users clients h ↔ u ∈ (fun c => cl_userID (client_at c h)) <$> clients.
Proof.
  apply elem_of_collect_distinct.
Qed.

Definition none_failed (failed : gmap Z bool) : Prop := ∀ u, default false (failed !! u) = false.

Lemma reload_batch_spec clients loader m h :
  inv h → h_channelAccessBatchLoader h = Some loader → loader (distinct_users clients h) = Some m →
  wp (reloadChannelAccess clients) (fun failed h' => kept h h' ∧ same_shape h h' ∧ none_failed failed ∧
    ∀ c, c ∈ clients → cl_channelAccess (client_at c h') = Some (default ∅ (m !! user_of c h))) h.
Proof.
  intros Hi Hl Hm. unfold reloadChannelAccess. wp_step. wp_step. rewrite Hl, Hm.
  eapply wp_mono; [apply (wp_fold_each clients ∅ (reload_batched (Some m)) (fun pre failed h' =>
    kept h h' ∧ same_shape h h' ∧ none_failed failed ∧
    ∀ c, c ∈ pre → cl_channelAccess (client_at c h') = Some (default ∅ (m !! user_of c h))))|done].
  - split_and!; [by apply kept_refl|by split|done|]. intros c Hc. by apply not_elem_of_nil in Hc.
  - intros pre c rest failed h1 -> (Hk1&Hs1&Hf1&Hpre). unfold reload_batched. wp_step. wp_step. wp_step.
    eapply wp_mono; [apply set_access_at, Hk1|]. intros [] h2 (Hk2&Hs2&Hat). wp_step.
    pose proof (ag_ident _ _ (proj2 Hk1) c) as Hid. injection Hid as Hu _.
    split_and!; [exact (kept_trans _ _ _ Hk1 Hk2)|exact (same_shape_trans _ _ _ Hs1 Hs2)| |].
    + intros u. rewrite lookup_insert. case_decide; [done|apply Hf1].
    + intros c' Hc'. rewrite Hat. case_decide as Heq; [subst c'; unfold user_of; by rewrite Hu|].
      apply Hpre. set_solver.
Qed.

(** Every connection of the server has the policy that was loaded, and keeps
    nothing outside it. *)
Definition refreshed (s : Z) (policy : Z → gset Z) (h : Hub) : Prop :=
  ∀ c, c ∈ h_clients h → s ∈ servers_of c h →
    cl_channelAccess (client_at c h) = Some (policy (user_of c h)) ∧ confined s c h.

Lemma RefreshChannelAccess_exact s loader policy h :
  inv h → h_channelAccessBatchLoader h = Some loader →
  (∀ us, ∃ m, loader us = Some m ∧ ∀ u, u ∈ us → m !! u = Some (policy u)) →
  wp (RefreshChannelAccess s) (fun _ h' => kept h h' ∧ refreshed s policy h') h.
Proof.
  intros Hi Hl Hpol. destruct (Hpol (distinct_users (clientsForServer s h) h)) as (m&Hm&Hmu).
  assert (∀ c, c ∈ clientsForServer s h → default ∅ (m !! user_of c h) = policy (user_of c h)) as Hpolicy.
  { intros c Hc. rewrite Hmu; [done|]. apply elem_of_distinct_users. by apply (list_elem_of_fmap_2 (fun c => cl_userID (client_at c h))). }
  unfold RefreshChannelAccess. wp_step. wp_step. rewrite Hl.
  assert (wp (failed ← reloadChannelAccess (clientsForServer s h);
    for_each (clientsForServer s h) (refresh_client s failed) ;;
    PublishToServer Unregister s (new_event EventChannelsChanged (DServerDeleted s)) ;; mret tt)
    (fun _ h' => kept h h' ∧ refreshed s policy h') h) as Hmain; [|by destruct (h_channelAccessLoader h)].
  wp_step. eapply wp_mono; [by apply (reload_batch_spec _ loader m)|].
  intros failed h1 (Hk1&Hs1&Hf&Hat1). simpl. wp_step. eapply wp_mono.
  { apply (wp_for_each (clientsForServer s h) _ (fun pre h' => good ∅ h1 h' ∧ ∀ c, c ∈ pre → confined s c h')).
    { split; [apply good_refl, Hk1|]. intros c Hc. by apply not_elem_of_nil in Hc. }
    intros pre c rest h2 Heq [Hg2 Hpre]. eapply wp_mono.
    - apply refresh_client_confined; [apply Hg2| |apply Hf].
      eapply ready_ages; [apply (kept_trans h h1 h2 Hk1), good_kept, Hg2|].
      apply (server_clients_ready s); [done|]. rewrite Heq. set_solver.
    - intros [] h3 [Hg3 Hc3]. split; [exact (good_trans _ _ _ _ Hg2 Hg3)|].
      intros c' [Hc'| ->%list_elem_of_singleton]%elem_of_app; [|done].
      apply (confined_evolves s c' h2); [apply Hg3|by apply Hpre]. }
  intros [] h2 [Hg2 Hc2]. simpl. wp_step. eapply wp_mono.
  { apply (PublishToServer_spec (S (hub_measure h2)) Unregister (Unregister_ok _));
      [apply Hg2|by apply event_typed_new|lia]. }
  intros n h3 Hg3. wp_step. pose proof (good_trans _ _ _ _ Hg2 Hg3) as Hg.
  split; [exact (kept_trans _ _ _ Hk1 (good_kept _ _ Hg))|]. intros c Hc Hsv.
  assert (c ∈ clientsForServer s h) as Hin.
  { unfold clientsForServer. apply elem_of_range_set, (hi_server _ _ _ Hi).
    pose proof (kept_trans _ _ _ Hk1 (good_kept _ _ Hg)) as [_ Hag].
    split; [by apply (ag_clients _ _ Hag)|by apply (ag_servers _ _ Hag)]. }
  split; [|apply (confined_evolves s c h2); [apply Hg3|by apply Hc2]].
  rewrite (ev_access _ _ (proj2 Hg)), Hat1, Hpolicy by done. do 2 f_equal.
  rewrite (evolves_user h1 h3) by apply Hg. symmetry. by apply same_shape_user.
Qed.
End refresh.
