(* ===== verification/HubGrow.v ===== *)
(** * The hub: the handlers that add connections, memberships and entries

    [Register], [AddUserToServer], [Subscribe], joining voice, starting and
    watching streams re-establish the invariant after the additions they make. *)

From S2P Require Import Prelude Events Client ClientFacts ClientAccess.
From S2P Require Import VoiceState VoiceFacts StreamState StreamFacts.
From S2P Require Import Hub HubInv HubSpecs HubOps HubReach.

(** ** Joining one server *)

Definition with_server (s : Z) (cl : Client) : Client := cl <| cl_servers ::= union {[s]} |>.

Definition linked (c : ClientRef) (s : Z) (h : Hub) : Hub :=
  h <| h_mem ::= <[c := with_server s (client_at c h)]> |>
    <| h_clientsByServer ::= index_add s c |>.

Lemma linked_client c s h c' :
  client_at c' (linked c s h) =
  if decide (c' = c) then with_server s (client_at c h) else client_at c' h.
Proof. apply (client_at_insert c (with_server s (client_at c h)) h c'). Qed.

Lemma linked_servers c s h c' :
  servers_of c' (linked c s h) =
  if decide (c' = c) then {[s]} ∪ servers_of c h else servers_of c' h.
Proof. unfold servers_of. rewrite linked_client. by case_decide. Qed.

Lemma linked_field {A} (f : Client → A) c s h c' :
  (∀ cl, f (with_server s cl) = f cl) → f (client_at c' (linked c s h)) = f (client_at c' h).
Proof. intros Hf. rewrite linked_client. case_decide; [|done]. subst. apply Hf. Qed.

Lemma connections_linked P c s h s' u' :
  c ∈ h_clients h ∪ P → s ∉ servers_of c h →
  Z.of_nat (size (connections s' u' P (linked c s h))) =
  if decide (s' = s ∧ u' = user_of c h)
  then Z.succ (Z.of_nat (size (connections s (user_of c h) P h)))
  else Z.of_nat (size (connections s' u' P h)).
Proof.
  intros Hc Hs.
  assert (∀ c', user_of c' (linked c s h) = user_of c' h) as Hu
    by (intros; by apply (linked_field cl_userID)).
  case_decide as Hd.
  - destruct Hd as [-> ->].
    assert (connections s (user_of c h) P (linked c s h) =
      {[c]} ∪ connections s (user_of c h) P h) as ->.
    { apply set_eq. intros c'. unfold connections.
      rewrite elem_of_union, !elem_of_filter, linked_servers, Hu.
      simpl. case_decide; set_solver. }
    assert (c ∉ connections s (user_of c h) P h) as Hin.
    { unfold connections. rewrite elem_of_filter. tauto. }
    rewrite size_union by set_solver. rewrite size_singleton. lia.
  - do 2 f_equal. apply set_eq. intros c'. unfold connections.
    rewrite !elem_of_filter, linked_servers, Hu. simpl.
    case_decide; [subst c'|done]. set_solver.
Qed.

Lemma hub_inv_link `{Sched : Schedule} c s h h' :
  inv h → c ∈ h_clients h → s ∉ servers_of c h →
  presence_step s (user_of c h) Z.succ (linked c s h) h' → inv h'.
Proof.
  intros Hi Hc Hs (Heq&Ht&Hcount).
  generalize dependent (h_presence h'). intros p ->.
  assert (∀ s' u', presence_count s' u' (linked c s h) = presence_count s' u' h) as Hpc by done.
  assert (∀ A (f : Client → A), (∀ cl, f (with_server s cl) = f cl) → ∀ c',
    f (client_at c' (linked c s h)) = f (client_at c' h)) as Hf by (intros; by apply linked_field).
  assert (∀ c' S, c' ∈ h_clients h ∪ S ∨ servers_of c' h = ∅ →
    c' ∈ h_clients h ∪ S ∨ servers_of c' (linked c s h) = ∅) as Hlive.
  { intros c' S [?|He]; [by left|]. rewrite linked_servers. case_decide; [|by right].
    subst. left. set_solver. }
  split; simpl; try apply Hi.
  - intros c'. change (client_ok (client_at c' (linked c s h))). rewrite linked_client.
    case_decide; [|apply (hi_client _ _ _ Hi)].
    by apply (client_ok_frame (client_at c h)), (hi_client _ _ _ Hi).
  - eapply voice_inv_ext; [|apply (hi_voice _ _ _ Hi)]. intros c'. unfold client_ident.
    exact (f_equal2 mkClientIdent (Hf _ cl_userID (fun _ => eq_refl) c')
      (Hf _ cl_connectionID (fun _ => eq_refl) c')).
  - intros u c'. change (user_of c' _) with (cl_userID (client_at c' (linked c s h))).
    rewrite (Hf _ cl_userID) by done. apply (hi_user _ _ _ Hi).
  - intros k c'. change (client_at c' _) with (client_at c' (linked c s h)).
    rewrite (Hf _ cl_sessionKey) by done. apply (hi_session _ _ _ Hi).
  - intros s' c'. change (servers_of c' _) with (servers_of c' (linked c s h)).
    rewrite elem_of_index_add, (hi_server _ _ _ Hi), linked_servers.
    case_decide; [subst c'|]; set_solver.
  - destruct (hi_tight _ _ _ Hi) as (?&?&?). split_and!; [done|done|].
    by apply index_tight_add.
  - intros k c'. change (client_at c' _) with (client_at c' (linked c s h)).
    rewrite (Hf _ cl_connectionID) by done. apply (hi_conn _ _ _ Hi).
  - intros ch c'. change (subs_of c' _) with (cl_subscriptions (client_at c' (linked c s h))).
    rewrite (Hf _ cl_subscriptions) by done. apply (hi_room _ _ _ Hi).
  - intros c' ch. change (subs_of c' _) with (cl_subscriptions (client_at c' (linked c s h))).
    rewrite (Hf _ cl_subscriptions) by done. apply (hi_sub_pos _ _ _ Hi).
  - intros c'. change (subs_of c' _) with (cl_subscriptions (client_at c' (linked c s h))).
    rewrite (Hf _ cl_subscriptions) by done. apply (hi_sub_live _ _ _ Hi).
  - intros c' Hv. exact (Hlive c' ∅ (hi_voice_live _ _ _ Hi c' Hv)).
  - intros c' Hv. destruct (Hlive c' ∅) as [?|?]; [|by left|right; split; [set_solver|done]].
    destruct (hi_stream_live _ _ _ Hi c' Hv) as [?|[_ ?]]; [by left|by right].
  - intros Hser s' u'. rewrite Hcount, !Hpc, !(hi_presence _ _ _ Hi Hser). symmetry.
    exact (connections_linked ∅ c s h s' u' ltac:(set_solver) Hs).
  - exact Ht.
  - intros c1 c2. change (c1 ∈ h_clients h → cl_connectionID (client_at c2 (linked c s h)) =
      cl_connectionID (client_at c1 (linked c s h)) → c2 = c1).
    rewrite !(Hf _ cl_connectionID) by done. apply (hi_unique _ _ _ Hi).
Qed.

Section grow.
Context `{MapOrder} `{Sched : Schedule}.

(** ** The frame of the handlers that add something *)

(** Registered clients and clients with media entries have an identifier. *)
Definition named (h : Hub) : Prop := ∀ c,
  c ∈ h_clients h ∨ is_Some (vs_byClient (h_voice h) !! c) ∨
    is_Some (sst_byClient (h_streams h) !! c) → cl_connectionID (client_at c h) ≠ "".

Record sound (h h' : Hub) : Prop := {
  so_inv : inv h';
  so_ready : ∀ c, ready c h → ready c h';
  so_ident : ∀ c, client_ident h' c = client_ident h c;
  so_named : named h → named h'
}.

Lemma ident_conn h h' c :
  client_ident h' c = client_ident h c → cl_connectionID (client_at c h') = cl_connectionID (client_at c h).
Proof. by intros [= _ ?]. Qed.
Lemma ident_user h h' c : client_ident h' c = client_ident h c → user_of c h' = user_of c h.
Proof. by intros [= ? _]. Qed.

Lemma sound_refl h : inv h → sound h h.
Proof. by split. Qed.

Lemma sound_trans h1 h2 h3 : sound h1 h2 → sound h2 h3 → sound h1 h3.
Proof.
  intros [_ R1 I1 N1] [? R2 I2 N2]. split; auto. intros c. by rewrite I2.
Qed.

Lemma kept_sound h h' : kept h h' → sound h h'.
Proof.
  intros [Hi Hag]. split; [done|intros c; by apply ready_ages|apply (ag_ident _ _ Hag)|].
  intros Hn c Hc. rewrite (ident_conn h h') by apply (ag_ident _ _ Hag). apply Hn.
  destruct Hc as [Hc|[Hc|Hc]].
  - left. by apply (ag_clients _ _ Hag).
  - destruct (ag_voice _ _ Hag c) as [E|E]; rewrite E in Hc; [by destruct Hc|auto].
  - destruct (ag_stream _ _ Hag c) as [E|E]; rewrite E in Hc; [by destruct Hc|auto].
Qed.

(** Growing by registration or membership: the new facts about one connection
    leave the others alone. *)
Lemma sound_grow h h' :
  inv h' → h_clients h ⊆ h_clients h' → (∀ c, c ∈ h_clients h' ∨ servers_of c h' = servers_of c h) →
  (∀ c, client_ident h' c = client_ident h c) →
  (∀ c, c ∈ h_clients h' → c ∈ h_clients h ∨ cl_connectionID (client_at c h) ≠ "") →
  h_voice h' = h_voice h → h_streams h' = h_streams h → sound h h'.
Proof.
  intros Hi Hcl Hsrv Hid Hnew Hv Hs. split; [done| |done|].
  - intros c [_ Hr]. split; [set_solver|].
    destruct (Hsrv c) as [?|E]; [by left|]. rewrite E. destruct Hr; [left; set_solver|by right].
  - intros Hn c Hc. rewrite (ident_conn h h') by done. rewrite Hv, Hs in Hc.
    destruct Hc as [[?|?]%Hnew|Hc]; [apply Hn; by left|done|apply Hn; by right].
Qed.

Lemma wp_sound {A} (m : M Hub A) h :
  wp m (fun _ h' => kept h h') h → wp m (fun _ h' => sound h h') h.
Proof. intros Hm. eapply wp_mono; [done|]. intros a h'. apply kept_sound. Qed.

(** ** [Register] *)

Record attached (c : ClientRef) (h h' : Hub) : Prop := {
  at_frame : h' = h <| h_clients := {[c]} ∪ h_clients h |>
    <| h_clientsByServer := h_clientsByServer h' |>
    <| h_clientsByConnection := <[cl_connectionID (client_at c h) := c]> (h_clientsByConnection h) |>
    <| h_clientsByUser := index_add (user_of c h) c (h_clientsByUser h) |>
    <| h_clientsBySession :=
         index_add (cl_sessionKey (client_at c h)) c (h_clientsBySession h) |>;
  at_server : ∀ s c', c' ∈ index_get s (h_clientsByServer h') ↔
    c' ∈ index_get s (h_clientsByServer h) ∨ c' = c ∧ s ∈ servers_of c h;
  at_tight : index_tight (h_clientsByServer h) → index_tight (h_clientsByServer h')
}.

Lemma index_loop c l h :
  wp (for_each l (fun s => indexServerLocked s c)) (fun _ h' =>
    h' = h <| h_clientsByServer := h_clientsByServer h' |> ∧
    (∀ s c', c' ∈ index_get s (h_clientsByServer h') ↔
       c' ∈ index_get s (h_clientsByServer h) ∨ c' = c ∧ s ∈ l) ∧
    (index_tight (h_clientsByServer h) → index_tight (h_clientsByServer h'))) h.
Proof.
  apply (wp_for_each l _ (fun pre h' => h' = h <| h_clientsByServer := h_clientsByServer h' |> ∧
    (∀ s c', c' ∈ index_get s (h_clientsByServer h') ↔
       c' ∈ index_get s (h_clientsByServer h) ∨ c' = c ∧ s ∈ pre) ∧
    (index_tight (h_clientsByServer h) → index_tight (h_clientsByServer h')))).
  { split_and!; [by destruct h|set_solver|done]. }
  intros pre s rest h1 _ (Heq&Hix&Ht). unfold indexServerLocked. wp_step. split_and!.
  - rewrite Heq. by destruct h.
  - intros s' c'. simpl. rewrite elem_of_index_add, Hix, elem_of_app, list_elem_of_singleton. tauto.
  - simpl. auto using index_tight_add.
Qed.

Lemma attach_spec c h : wp (attach c) (fun _ h' => attached c h h') h.
Proof.
  unfold attach. wp_step. wp_step. wp_step. wp_step. wp_step.
  set (h0 := h <| h_clients ::= union {[c]} |>).
  eapply wp_mono; [apply (index_loop c (serverIDs (client_at c h0)) h0)|].
  intros [] h1 (Heq&Hix&Ht). wp_step. wp_step. wp_step. wp_step. wp_step. wp_step. wp_step.
  assert (client_at c h1 = client_at c h) as Hat by (rewrite Heq; done).
  split.
  - simpl. rewrite !Hat. rewrite Heq. by destruct h.
  - intros s c'. simpl. rewrite Hix. unfold serverIDs. rewrite elem_of_range_set. done.
  - done.
Qed.

(** The increments of [registerPresence]: one for each server of the list. *)
Lemma increment_loop u l acc h :
  NoDup l → presence_tight h →
  wp (fold_each l acc (fun online s =>
        becameOnline ← incrementPresence s u;
        mret (if becameOnline : bool then online ++ [s] else online))) (fun _ h' =>
    h' = h <| h_presence := h_presence h' |> ∧ presence_tight h' ∧
    ∀ s' u', presence_count s' u' h' =
      (presence_count s' u' h + if decide (u' = u ∧ s' ∈ l) then 1 else 0)%Z) h.
Proof.
  intros Hnd Ht. eapply wp_mono.
  { apply (wp_fold_each l acc _ (fun pre _ h' =>
      h' = h <| h_presence := h_presence h' |> ∧ presence_tight h' ∧
      ∀ s' u', presence_count s' u' h' =
        (presence_count s' u' h + if decide (u' = u ∧ s' ∈ pre) then 1 else 0)%Z)).
    - split_and!; [by destruct h|done|]. intros s' u'. rewrite decide_False by set_solver. lia.
    - intros pre s rest online h1 -> (Heq&Ht1&Hc1). wp_step. eapply wp_mono; [by apply increment_spec|].
      intros b h2 [(Heq2&Ht2&Hc2) _]. wp_step. split_and!; [|done|].
      + rewrite Heq2, Heq. by destruct h.
      + intros s' u'. rewrite Hc2, !Hc1. apply NoDup_app in Hnd as (_&Hnd&_).
        assert (s ∉ pre) as Hns by (intros Hin; apply (Hnd s Hin); left).
        destruct (decide (s' = s ∧ u' = u)) as [[-> ->]|Hne].
        * rewrite decide_False, decide_True by set_solver. lia.
        * f_equal. apply decide_ext. set_solver. }
  naive_solver.
Qed.

Lemma connections_attached c h s u :
  c ∉ h_clients h →
  Z.of_nat (size (connections s u ∅ (h <| h_clients := {[c]} ∪ h_clients h |>))) =
  (Z.of_nat (size (connections s u ∅ h)) +
     if decide (u = user_of c h ∧ s ∈ servers_of c h) then 1 else 0)%Z.
Proof.
  intros Hc. set (h' := h <| h_clients := {[c]} ∪ h_clients h |>).
  assert (∀ c', c' ∈ connections s u ∅ h' ↔ c' ∈ connections s u ∅ h ∨
    c' = c ∧ s ∈ servers_of c h ∧ user_of c h = u) as Hset.
  { intros c'. unfold connections. rewrite !elem_of_filter.
    change (servers_of c' h') with (servers_of c' h). change (user_of c' h') with (user_of c' h).
    simpl. set_solver. }
  case_decide as Hd.
  - assert (connections s u ∅ h' = {[c]} ∪ connections s u ∅ h) as -> by set_solver.
    assert (c ∉ connections s u ∅ h) by (unfold connections; rewrite elem_of_filter; set_solver).
    rewrite size_union, size_singleton by set_solver. lia.
  - assert (connections s u ∅ h' = connections s u ∅ h) as -> by set_solver. lia.
Qed.

Lemma registered_inv c h h1 h2 :
  inv h → c ∉ h_clients h →
  (∀ c', cl_connectionID (client_at c' h) = cl_connectionID (client_at c h) → c' = c) →
  attached c h h1 → h2 = h1 <| h_presence := h_presence h2 |> → presence_tight h2 →
  (serial_registration → ∀ s u, presence_count s u h2 =
     (presence_count s u h + if decide (u = user_of c h ∧ s ∈ servers_of c h) then 1 else 0)%Z) →
  inv h2.
Proof.
  intros Hi Hc Huniq [Heq Hsrv Ht] Heq2 Ht2 Hcount.
  generalize dependent (h_presence h2). generalize dependent (h_clientsByServer h1).
  intros ix -> Hsrv Ht p ->. destruct (hi_tight _ _ _ Hi) as (Ht1&Ht3&Ht4).
  split; simpl; try apply Hi.
  - intros u c'. rewrite elem_of_index_add, (hi_user _ _ _ Hi).
    change (user_of c' _) with (user_of c' h). set_solver.
  - intros k c'. rewrite elem_of_index_add, (hi_session _ _ _ Hi).
    change (client_at c' _) with (client_at c' h). set_solver.
  - intros s c'. rewrite Hsrv, (hi_server _ _ _ Hi).
    change (servers_of c' _) with (servers_of c' h). set_solver.
  - split_and!; auto using index_tight_add.
  - intros k c'. change (client_at c' _) with (client_at c' h). rewrite lookup_insert.
    case_decide as Hk.
    + subst k. split; [intros [= <-]; set_solver|]. intros [_ Heq]. by rewrite (Huniq c' Heq).
    + rewrite (hi_conn _ _ _ Hi). set_solver.
  - intros c'. change (subs_of c' _) with (subs_of c' h). intros Hs.
    pose proof (hi_sub_live _ _ _ Hi c' Hs). set_solver.
  - intros c' Hv. change (servers_of c' _) with (servers_of c' h).
    destruct (hi_voice_live _ _ _ Hi c' Hv); [left; set_solver|by right].
  - intros c' Hv. change (servers_of c' _) with (servers_of c' h).
    destruct (hi_stream_live _ _ _ Hi c' Hv); [left; set_solver|by right].
  - intros Hser s u. etrans; [by apply Hcount|]. rewrite (hi_presence _ _ _ Hi Hser). symmetry.
    by apply connections_attached.
  - exact Ht2.
  - set_solver.
  - intros c1 c2 [->%elem_of_singleton|Hc1]%elem_of_union; [apply Huniq|].
    by apply (hi_unique _ _ _ Hi).
Qed.

Definition unique_id (c : ClientRef) (h : Hub) : Prop :=
  ∀ c', cl_connectionID (client_at c' h) = cl_connectionID (client_at c h) → c' = c.

(** What [attach] and the counting after it leave alone. *)
Lemma attached_grow c h h1 h2 :
  attached c h h1 → h2 = h1 <| h_presence := h_presence h2 |> → inv h2 →
  cl_connectionID (client_at c h) ≠ "" → sound h h2.
Proof.
  intros Hat Heq Hi2 Hname.
  apply sound_grow; [done|rewrite Heq, (at_frame _ _ _ Hat); simpl; set_solver|..];
    try (rewrite Heq, (at_frame _ _ _ Hat); done).
  - intros c'. right. by rewrite Heq, (at_frame _ _ _ Hat).
  - intros c'. rewrite Heq, (at_frame _ _ _ Hat). simpl. set_solver.
Qed.

(** The announcements of [registerPresence]. *)
Lemma announce_kept c u online servers h :
  inv h → ready c h →
  wp (for_each online (fun s => broadcastPresence Unregister s u PresenceOnline) ;;
      sendPresenceSnapshot Unregister c servers) (fun _ h' => kept h h') h.
Proof.
  intros Hi Hr. apply wp_kept.
  { apply kept_for_each; [by apply kept_refl|]. intros s h3 _ Hk. apply broadcastPresence_kept, Hk. }
  intros [] h3 Hk3. apply sendPresenceSnapshot_kept; [apply Hk3|].
  eapply ready_ages; [apply Hk3|done].
Qed.

(** [Register_begin] refuses, or attaches the connection after loading its
    channel policy. *)
Lemma Register_begin_spec c h :
  inv h →
  wp (Register_begin c) (fun ok h' =>
    if ok then ∃ h0, kept h h0 ∧ same_shape h h0 ∧ c ∉ h_clients h0 ∧ attached c h0 h'
    else kept h h' ∧ h_clients h' ⊆ h_clients h) h.
Proof.
  intros Hi. unfold Register_begin. wp_step. wp_step.
  destruct (loadChannelAccess _ h) as [ids err]. destruct err.
  { wp_step. eapply wp_mono; [by apply close_kept|]. intros [] h1 [Hk _]. wp_step.
    split; [done|apply (ag_clients _ _ (proj2 Hk))]. }
  wp_step. eapply wp_mono; [by apply set_access_spec|]. intros [] h1 [Hk1 Hs1].
  wp_step. wp_step.
  destruct (_ || _ || _ || bool_decide (c ∈ h_clients h1)) eqn:Hguard.
  { wp_step. split; [done|apply (ag_clients _ _ (proj2 Hk1))]. }
  apply orb_false_iff in Hguard as [_ Hc%bool_decide_eq_false].
  wp_step. eapply wp_mono; [apply attach_spec|]. intros [] h2 Hat. wp_step. by exists h1.
Qed.

(** [registerPresence] right after [attach]. *)
Lemma registerPresence_counts c h h1 :
  inv h → c ∉ h_clients h → unique_id c h → cl_connectionID (client_at c h) ≠ "" →
  attached c h h1 → wp (registerPresence c) (fun _ h' => sound h h' ∧ ready c h' ∧
    h_clients h' ⊆ {[c]} ∪ h_clients h) h1.
Proof.
  intros Hi Hc Huniq Hname Hat.
  assert (client_at c h1 = client_at c h) as Hcl by (by rewrite (at_frame _ _ _ Hat)).
  assert (h_presence h1 = h_presence h) as Hpr by (by rewrite (at_frame _ _ _ Hat)).
  assert (c ∈ h_clients h1) as Hin by (rewrite (at_frame _ _ _ Hat); simpl; set_solver).
  unfold registerPresence. wp_step. wp_step. rewrite bool_decide_eq_false_2 by tauto.
  rewrite Hcl. wp_step. eapply wp_mono.
  { apply increment_loop; [apply NoDup_range_set|]. unfold presence_tight. rewrite Hpr.
    apply (hi_presence_tight _ _ _ Hi). }
  intros online h2 (Heq&Ht&Hcount). assert (inv h2) as Hi2.
  { eapply (registered_inv c h h1 h2); try done. intros _ s u. rewrite Hcount.
    unfold presence_count at 1. rewrite Hpr. fold (presence_count s u h). f_equal.
    apply decide_ext. unfold serverIDs, user_of, servers_of. by rewrite elem_of_range_set. }
  assert (ready c h2) as Hr2 by (apply ready_registered; [done|]; by rewrite Heq).
  assert (sound h h2) as Hso by (by apply (attached_grow c h h1)).
  eapply wp_mono; [by apply announce_kept|].
  intros [] h3 Hk3. split; [exact (sound_trans _ _ _ Hso (kept_sound _ _ Hk3))|].
  split; [eapply ready_ages; [apply Hk3|done]|].
  etrans; [apply (ag_clients _ _ (proj2 Hk3))|]. by rewrite Heq, (at_frame _ _ _ Hat).
Qed.

Lemma Register_sound c h :
  inv h → unique_id c h → cl_connectionID (client_at c h) ≠ "" →
  wp (Register (Some c)) (fun ok h' =>
    sound h h' ∧ if ok then ready c h' ∧ h_clients h' ⊆ {[c]} ∪ h_clients h
    else h_clients h' ⊆ h_clients h) h.
Proof.
  intros Hi Huniq Hname. unfold Register. wp_step. eapply wp_mono; [by apply Register_begin_spec|].
  intros [] h1; simpl; [|intros [Hk Hs]; wp_step; split; [by apply kept_sound|exact Hs]].
  intros (h0&Hk0&Hs0&Hc&Hat).
  assert (unique_id c h0 ∧ cl_connectionID (client_at c h0) ≠ "") as [Hu0 Hn0].
  { split; [intros c'|]; rewrite !(sl_conn _ _ (ss_links _ _ Hs0 _)); [apply Huniq|done]. }
  wp_step. unfold Register_end. wp_step.
  eapply wp_mono; [by apply (registerPresence_counts c h0 h1), Hat; [apply Hk0|..]|].
  intros [] h3 (Hso3&Hr3&Hs3). eapply wp_mono; [by apply snapshots_kept; [apply (so_inv _ _ Hso3)|]|].
  intros [] h5 Hk5. wp_step. split; [|split; [eapply ready_ages; [apply Hk5|done]|]].
  2:{ pose proof (ag_clients _ _ (proj2 Hk5)). pose proof (ag_clients _ _ (proj2 Hk0)). set_solver. }
  exact (sound_trans _ _ _ (kept_sound _ _ Hk0) (sound_trans _ _ _ Hso3 (kept_sound _ _ Hk5))).
Qed.

(** *** The two parts of a registration on their own

    When other requests may run in between, the presence counters are not
    related to the connections, and each part keeps the rest. *)

Lemma Register_begin_sound c h :
  ¬ serial_registration → inv h → unique_id c h → cl_connectionID (client_at c h) ≠ "" →
  wp (Register_begin c) (fun ok h' => sound h h' ∧ (ok = true → ready c h')) h.
Proof.
  intros Hns Hi Huniq Hname. eapply wp_mono; [by apply Register_begin_spec|].
  intros [] h1; [|intros [Hk _]; split; [by apply kept_sound|done]].
  intros (h0&Hk0&Hs0&Hc&Hat).
  assert (unique_id c h0 ∧ cl_connectionID (client_at c h0) ≠ "") as [Hu0 Hn0].
  { split; [intros c'|]; rewrite !(sl_conn _ _ (ss_links _ _ Hs0 _)); [apply Huniq|done]. }
  assert (h1 = h1 <| h_presence := h_presence h1 |>) as Heq by (by destruct h1).
  assert (presence_tight h1) as Ht.
  { unfold presence_tight. rewrite (at_frame _ _ _ Hat). apply (hi_presence_tight _ _ _ (proj1 Hk0)). }
  assert (inv h1) as Hi1 by (eapply (registered_inv c h0 h1 h1); done || apply Hk0).
  split; [|intros _; apply ready_registered; [done|]; rewrite (at_frame _ _ _ Hat); set_solver].
  exact (sound_trans _ _ _ (kept_sound _ _ Hk0) (attached_grow c h0 h1 h1 Hat Heq Hi1 Hn0)).
Qed.

(** Counting a connection does not touch any other relation. *)
Lemma counted_inv h h' :
  ¬ serial_registration → inv h → h' = h <| h_presence := h_presence h' |> → presence_tight h' → inv h'.
Proof.
  intros Hns Hi. generalize dependent (h_presence h'). intros p -> Ht. by split; try apply Hi.
Qed.

Lemma Register_end_sound c h :
  ¬ serial_registration → inv h → ready c h → wp (Register_end c) (fun _ h' => sound h h') h.
Proof.
  intros Hns Hi Hr. unfold Register_end. wp_step.
  eapply (wp_mono _ (fun _ h' => sound h h' ∧ ready c h')).
  - unfold registerPresence. wp_step. wp_step.
    case_bool_decide; [wp_step; split; [by apply sound_refl|done]|].
    wp_step. eapply wp_mono; [apply increment_loop; [apply NoDup_range_set|exact (hi_presence_tight _ _ _ Hi)]|].
    intros online h2 (Heq&Ht&_). pose proof (counted_inv h h2 Hns Hi Heq Ht) as Hi2.
    assert (sound h h2) as Hso by (apply sound_grow; try done; rewrite Heq; auto).
    eapply wp_mono; [by apply announce_kept; [|apply (so_ready _ _ Hso)]|].
    intros [] h3 Hk3. split; [exact (sound_trans _ _ _ Hso (kept_sound _ _ Hk3))|].
    eapply ready_ages; [apply Hk3|by apply (so_ready _ _ Hso)].
  - intros [] h3 [Hso Hr3]. eapply wp_mono; [by apply snapshots_kept; [apply (so_inv _ _ Hso)|]|].
    intros [] h5 Hk5. exact (sound_trans _ _ _ Hso (kept_sound _ _ Hk5)).
Qed.

(** ** [AddUserToServer] *)

Lemma add_connection_sound u s c h :
  inv h → user_of c h = u → wp (add_connection u s c) (fun _ h' => sound h h') h.
Proof.
  intros Hi Hu. unfold add_connection. wp_step. wp_step.
  case_bool_decide as Hc; [wp_step; by apply sound_refl|].
  wp_step. unfold on_client, wp at 1, addServer, hasServer.
  change (cl_servers (client_at c h)) with (servers_of c h). case_bool_decide as Hs.
  { simpl. wp_step. assert (same_shape h (h <| h_mem ::= <[c := client_at c h]> |>)) as Hsh
      by (by apply same_shape_put).
    apply kept_sound. split; [|by apply same_shape_ages]. eapply hub_inv_shape; [done| |done].
    apply client_ok_put; apply (hi_client _ _ _ Hi). }
  simpl. wp_step. unfold indexServerLocked. wp_step. wp_step.
  change (h <| h_mem ::= <[c := (client_at c h) <| cl_servers ::= union {[s]} |>]> |>
    <| h_clientsByServer ::= index_add s c |>) with (linked c s h).
  eapply wp_mono; [apply increment_spec; exact (hi_presence_tight _ _ _ Hi)|].
  intros online h1 [Hstep _]. rewrite <- Hu in Hstep.
  pose proof (hub_inv_link c s h h1 Hi Hc Hs Hstep) as Hi1.
  assert (c ∈ h_clients h1) as Hin1 by (by destruct Hstep as [-> _]).
  assert (ready c h1) as Hr1 by (by apply ready_registered).
  assert (sound h h1) as Hso.
  { apply sound_grow; [done|by destruct Hstep as [-> _]|..]; try (by destruct Hstep as [-> _]).
    - intros c'. destruct (decide (c' = c)) as [->|]; [by left|right]. destruct Hstep as [-> _].
      etrans; [apply linked_servers|]. by rewrite decide_False.
    - intros c'. destruct Hstep as [-> _]. unfold client_ident.
      f_equal; [by apply (linked_field cl_userID)|by apply (linked_field cl_connectionID)].
    - intros c'. destruct Hstep as [-> _]. by left. }
  assert (∀ h', kept h1 h' → sound h h') as Hend.
  { intros h' Hk. exact (sound_trans _ _ _ Hso (kept_sound _ _ Hk)). }
  wp_step. wp_step. destruct (loadChannelAccess u h1) as [ids err]. destruct err.
  { eapply wp_mono; [by apply drop_failed_kept|]. intros [] h2. apply Hend. }
  eapply wp_mono; [apply (wp_kept (update_client c (replaceChannelAccess ids)))|intros [] h2; apply Hend].
  { eapply wp_mono; [by apply set_access_spec|]. by intros [] h2 [? _]. }
  intros [] h2 Hk2. apply wp_kept.
  { wp_step; [|apply kept_refl, Hk2]. apply broadcastPresence_kept, Hk2. }
  intros [] h3 Hk3. apply sendPresenceSnapshot_kept; [apply Hk3|].
  eapply ready_ages; [apply (kept_trans _ _ _ Hk2 Hk3)|done].
Qed.

Lemma AddUserToServer_sound u s h : inv h → wp (AddUserToServer u s) (fun _ h' => sound h h') h.
Proof.
  intros Hi. unfold AddUserToServer. wp_step; [wp_step; by apply sound_refl|]. wp_step. wp_step.
  apply (wp_for_each_inv _ _ (fun h' => sound h h')); [by apply sound_refl|].
  intros c h1 Hc%elem_of_range_set Hso. eapply wp_mono.
  - apply add_connection_sound; [apply Hso|]. rewrite (ident_user h h1) by apply (so_ident _ _ Hso).
    by apply (hi_user _ _ _ Hi) in Hc as [_ ?].
  - intros [] h2 Hso2. exact (sound_trans _ _ _ Hso Hso2).
Qed.

(** ** [Subscribe] *)

Definition subscribed (c : ClientRef) (s ch : Z) (rooms' : gmap Z room) (h : Hub) : Hub :=
  h <| h_rooms := rooms' |> <| h_mem ::= <[c := addSubscription s ch (client_at c h)]> |>.

Lemma subscribed_client c s ch rooms' h c' :
  client_at c' (subscribed c s ch rooms' h) =
  if decide (c' = c) then addSubscription s ch (client_at c h) else client_at c' h.
Proof. exact (client_at_insert c _ (h <| h_rooms := rooms' |>) c'). Qed.

Lemma subscribed_field {A} (f : Client → A) c s ch rooms' h c' :
  (∀ cl, f (addSubscription s ch cl) = f cl) →
  f (client_at c' (subscribed c s ch rooms' h)) = f (client_at c' h).
Proof. intros Hf. rewrite subscribed_client. case_decide; [|done]. subst. apply Hf. Qed.

Lemma hub_inv_subscribed c s ch rooms' h :
  inv h → c ∈ h_clients h → (0 < ch)%Z →
  (∀ ch' c', c' ∈ members_in ch' rooms' ↔ c' ∈ room_members ch' h ∨ ch' = ch ∧ c' = c) →
  (∀ ch' r, rooms' !! ch' = Some r → rm_closed r = false) →
  inv (subscribed c s ch rooms' h).
Proof.
  intros Hi Hc Hch Hroom Hopen. set (h' := subscribed c s ch rooms' h).
  assert (∀ A (f : Client → A), (∀ cl, f (addSubscription s ch cl) = f cl) → ∀ c',
    f (client_at c' h') = f (client_at c' h)) as Hf by (intros; by apply subscribed_field).
  assert (∀ c', servers_of c' h' = servers_of c' h) as Hsrv by (intros; by apply (Hf _ cl_servers)).
  assert (∀ c', user_of c' h' = user_of c' h) as Husr by (intros; by apply (Hf _ cl_userID)).
  assert (∀ c' ch', is_Some (subs_of c' h' !! ch') ↔
    is_Some (subs_of c' h !! ch') ∨ ch' = ch ∧ c' = c) as Hsub.
  { intros c' ch'. unfold subs_of, h'. rewrite subscribed_client.
    case_decide; [subst c'|naive_solver]. simpl. rewrite lookup_insert. case_decide; naive_solver. }
  split; try apply Hi.
  - intros c'. unfold h'. rewrite subscribed_client. case_decide; [|apply (hi_client _ _ _ Hi)].
    by apply (client_ok_frame (client_at c h)), (hi_client _ _ _ Hi).
  - eapply voice_inv_ext; [|apply (hi_voice _ _ _ Hi)]. intros c'. unfold client_ident.
    by rewrite (Hf _ cl_connectionID), (Hf _ cl_userID).
  - intros u c'. rewrite Husr. apply (hi_user _ _ _ Hi).
  - intros k c'. rewrite (Hf _ cl_sessionKey) by done. apply (hi_session _ _ _ Hi).
  - intros s' c'. rewrite Hsrv. apply (hi_server _ _ _ Hi).
  - intros k c'. rewrite (Hf _ cl_connectionID) by done. apply (hi_conn _ _ _ Hi).
  - intros ch' c'. rewrite Hsub, <- (hi_room _ _ _ Hi). apply Hroom.
  - done.
  - intros c' ch' [?|[-> _]]%Hsub; [by apply (hi_sub_pos _ _ _ Hi c')|done].
  - intros c' Hne. destruct (decide (c' = c)) as [->|Hcc]; [set_solver|].
    apply (hi_sub_live _ _ _ Hi). unfold subs_of, h' in Hne. rewrite subscribed_client in Hne.
    by rewrite decide_False in Hne.
  - intros c'. rewrite Hsrv. apply (hi_voice_live _ _ _ Hi).
  - intros c'. rewrite Hsrv. apply (hi_stream_live _ _ _ Hi).
  - intros Hser s' u. etrans; [by apply (hi_presence _ _ _ Hi)|]. do 2 f_equal. apply set_eq. intros c'.
    unfold connections. by rewrite !elem_of_filter, Hsrv, Husr.
  - intros c1 c2. rewrite !(Hf _ cl_connectionID) by done. apply (hi_unique _ _ _ Hi).
Qed.

Lemma hub_inv_rooms rooms' h :
  inv h → (∀ ch, members_in ch rooms' = room_members ch h) →
  (∀ ch r, rooms' !! ch = Some r → rm_closed r = false) → inv (h <| h_rooms := rooms' |>).
Proof.
  intros Hi Hm Ho. split; try apply Hi; [|done].
  intros ch c. change (room_members ch _) with (members_in ch rooms'). rewrite Hm.
  apply (hi_room _ _ _ Hi).
Qed.

Lemma getOrCreateRoom_spec ch h :
  inv h →
  wp (getOrCreateRoom ch) (fun r h' => inv h' ∧ h' = h <| h_rooms := h_rooms h' |> ∧
    h_rooms h' !! ch = Some r ∧ (∀ ch', members_in ch' (h_rooms h') = room_members ch' h)) h.
Proof.
  intros Hi. unfold getOrCreateRoom. wp_step. wp_step.
  destruct (h_rooms h !! ch) as [r|] eqn:Hr; [wp_step; split_and!; try done; by destruct h|].
  wp_step. wp_step. wp_step. simpl. rewrite lookup_insert_eq.
  assert (∀ ch', members_in ch' (<[ch := newRoom]> (h_rooms h)) = room_members ch' h) as Hm.
  { intros ch'. unfold members_in, room_members. rewrite lookup_insert.
    case_decide; [subst ch'; by rewrite Hr|done]. }
  split_and!; [|by destruct h|done|done]. apply (hub_inv_rooms (<[ch := newRoom]> (h_rooms h)) h); [done|done|].
  intros ch' r. rewrite lookup_insert. case_decide; [by intros [= <-]|apply (hi_room_open _ _ _ Hi)].
Qed.

(** A step that changes rooms and subscriptions only. *)
Lemma sound_subs h h' :
  inv h' → h_clients h' = h_clients h → (∀ c, servers_of c h' = servers_of c h) →
  (∀ c, client_ident h' c = client_ident h c) →
  h_voice h' = h_voice h → h_streams h' = h_streams h → sound h h'.
Proof.
  intros Hi Hcl Hsrv Hid Hv Hs. apply sound_grow; try done; [by rewrite Hcl|by right|].
  intros c. rewrite Hcl. by left.
Qed.

Lemma Subscribe_sound c s ch h : inv h → wp (Subscribe c s ch) (fun _ h' => sound h h') h.
Proof.
  intros Hi. unfold Subscribe. pose proof (sound_refl h Hi) as Hrefl.
  destruct c as [c|]; [|by wp_step]. wp_step. wp_step.
  destruct (_ || _ || negb (canAccessChannel _ ch)) eqn:H1; [by wp_step|].
  destruct (bool_decide (c ∉ h_clients h) || _ || _) eqn:H2; [by wp_step|].
  wp_step; [by wp_step|]. apply orb_false_iff in H1 as [[_ Hch%Z.leb_gt]%orb_false_iff _].
  apply orb_false_iff in H2 as [[Hc%bool_decide_eq_false _]%orb_false_iff _].
  assert (c ∈ h_clients h) as Hin by (by apply dec_stable).
  wp_step. eapply wp_mono; [by apply getOrCreateRoom_spec|].
  intros r h1 (Hi1&Heq&Hr&Hm). assert (rm_closed r = false) as Hop by (by apply (hi_room_open _ _ _ Hi1 ch)).
  unfold room_add. rewrite Hop. assert (h_clients h1 = h_clients h) as Hcl by (by rewrite Heq).
  case_bool_decide as Hmem; simpl.
  - wp_step. wp_step. wp_step.
    assert (h1 <| h_rooms ::= <[ch := r]> |> = h1) as ->.
    { destruct h1. unfold update_with. simpl in *. f_equal. by apply insert_id. }
    rewrite Heq in Hi1 |- *. by apply sound_subs.
  - wp_step. wp_step. wp_step. unfold update_client, on_client, wp. simpl.
    set (r' := r <| rm_clients ::= union {[c]} |>).
    change (sound h (subscribed c s ch (<[ch := r']> (h_rooms h1)) h1)).
    assert (∀ A (f : Client → A), (∀ cl, f (addSubscription s ch cl) = f cl) → ∀ c',
      f (client_at c' (subscribed c s ch (<[ch := r']> (h_rooms h1)) h1)) = f (client_at c' h)) as Hf.
    { intros A f Hf c'. rewrite (subscribed_field f) by done. by rewrite Heq. }
    apply sound_subs; [|done|by apply (Hf _ cl_servers)| |by rewrite Heq..].
    2: { intros c'. unfold client_ident. by rewrite (Hf _ cl_connectionID), (Hf _ cl_userID). }
    apply (hub_inv_subscribed c s ch (<[ch := r']> (h_rooms h1)) h1); [done|by rewrite Hcl|done| |].
    + intros ch' c'. unfold members_in, room_members. rewrite lookup_insert. case_decide as Hd; [|naive_solver].
      subst ch'. rewrite Hr. unfold r'. simpl. set_solver.
    + intros ch' r0. rewrite lookup_insert. case_decide; [by intros [= <-]|apply (hi_room_open _ _ _ Hi1)].
Qed.

(** ** Publishing *)

Lemma room_member_ready ch r c h :
  inv h → h_rooms h !! ch = Some r → c ∈ rm_clients r → ready c h.
Proof.
  intros Hi Hr Hc. assert (c ∈ room_members ch h) as Hm by (unfold room_members; by rewrite Hr).
  apply (hi_room _ _ _ Hi) in Hm. apply ready_registered; [done|].
  assert (c ∈ h_clients h ∪ ∅); [|set_solver]. apply (hi_sub_live _ _ _ Hi). intros He.
  rewrite He, lookup_empty in Hm. by destruct Hm.
Qed.

Lemma deliver_unregister_kept e l h :
  inv h → event_typed e → (∀ c, c ∈ l → ready c h) →
  wp ('(n, failed) ← fold_each l (0, []) (deliver (shareEncoding e));
      for_each failed Unregister ;; mret n) (fun _ h' => kept h h') h.
Proof.
  intros Hi He Hl. wp_step. eapply wp_mono.
  { apply (deliver_loop ∅ ∅ (shareEncoding e) l); [done|by apply event_typed_share]. }
  intros [n failed] h1 (Hi1&Hev1&Hs1&Hf). simpl in Hf. wp_step. eapply wp_mono.
  { apply (unreg_all (S (hub_measure h1)) Unregister (Unregister_ok _) ∅); [done|lia|].
    intros c Hc. eapply settled_shape; [done|]. apply Hl. auto. }
  intros [] h2 [Hg _]. wp_step. apply good_kept. eapply good_trans; [split; [exact Hi1|exact Hev1]|done].
Qed.

Lemma Publish_kept ch e h :
  inv h → event_typed e → wp (Publish ch e) (fun _ h' => kept h h') h.
Proof.
  intros Hi He. unfold Publish. wp_step; [wp_step; by apply kept_refl|]. wp_step. wp_step.
  unfold getRoom. destruct (h_rooms h !! ch) as [r|] eqn:Hr; [|wp_step; by apply kept_refl].
  apply deliver_unregister_kept; [done|done|]. intros c Hc%elem_of_range_set.
  by eapply room_member_ready.
Qed.

Lemma PublishExcept_kept ch e x h :
  inv h → event_typed e → wp (PublishExcept ch e x) (fun _ h' => kept h h') h.
Proof.
  intros Hi He. unfold PublishExcept. wp_step. wp_step.
  unfold getRoom. destruct (h_rooms h !! ch) as [r|] eqn:Hr; [|wp_step; by apply kept_refl].
  wp_step; [wp_step; by apply kept_refl|].
  apply deliver_unregister_kept; [done|done|]. intros c [_ Hc%elem_of_range_set]%list_elem_of_filter.
  by eapply room_member_ready.
Qed.

Lemma user_clients_ready u h c :
  inv h → c ∈ clientSetSnapshot (index_get u (h_clientsByUser h)) → ready c h.
Proof.
  intros Hi Hc%elem_of_range_set. apply ready_registered; [done|].
  by apply (hi_user _ _ _ Hi) in Hc as [? _].
Qed.

Lemma PublishToUser_kept u e h :
  inv h → event_typed e → wp (PublishToUser u e) (fun _ h' => kept h h') h.
Proof.
  intros Hi He. unfold PublishToUser. wp_step; [wp_step; by apply kept_refl|]. wp_step. wp_step.
  apply broadcast_kept; [done|done|]. intros c. by apply user_clients_ready.
Qed.

Lemma PublishToChannelAndUser_kept ch u e h :
  inv h → event_typed e → wp (PublishToChannelAndUser ch u e) (fun _ h' => kept h h') h.
Proof.
  intros Hi He. unfold PublishToChannelAndUser. wp_step; [wp_step; by apply kept_refl|].
  wp_step. wp_step. wp_step. wp_step. apply broadcast_kept; [done|done|].
  intros c [Hc|Hc]%elem_of_app; [|by apply (user_clients_ready u)]. unfold getRoom in Hc.
  destruct (h_rooms h !! ch) as [r|] eqn:Hr; [|by apply not_elem_of_nil in Hc].
  apply elem_of_range_set in Hc. by eapply room_member_ready.
Qed.
End grow.
