(* ===== verification/MediaHub.v ===== *)
(** * The hub: voice and stream signalling

    Model of the exported handlers of [voice_hub.go], [stream_hub.go],
    [voice_signals.go] and [stream_signals.go]. The per-user transition lock
    makes each handler atomic with respect to the other transitions of the same
    user; a [nil] client is [None]. *)

From S2P Require Import Prelude Events Client VoiceState StreamState Hub HubOps.

Definition StreamRecoveryAction := string.
Definition StreamRecoveryKeyframe : StreamRecoveryAction := "keyframe".
Definition StreamRecoveryICERestart : StreamRecoveryAction := "ice_restart".

Definition ValidStreamRecoveryAction (action : StreamRecoveryAction) : bool :=
  String.eqb action StreamRecoveryKeyframe || String.eqb action StreamRecoveryICERestart.

Section media.
Context `{MapOrder}.

(** ** voice_hub.go *)

(** The guards of [JoinVoiceWithDevice] before any state changes. *)
Definition join_allowed (client : ClientRef) (serverID channelID : Z) (e2eeDeviceID : string)
    (h : Hub) : bool :=
  let cl := client_at client h in
  let device_ok :=
    if String.eqb e2eeDeviceID "" then true
    else match h_voiceDeviceActive h with
      | None => true
      | Some check => match check (cl_userID cl) e2eeDeviceID with Some active => active | None => false end
      end in
  device_ok && canAccessChannel cl channelID &&
  (0 <? serverID)%Z && (0 <? channelID)%Z && hasServer serverID cl && negb (cl_done cl).

Definition JoinVoiceWithDevice (client : option ClientRef) (serverID channelID : Z)
    (selfMute selfDeaf : bool) (e2eeDeviceID : string) : M Hub (option VoiceJoinedData) :=
  match client with
  | None => mret None
  | Some client =>
      allowed ← gets (join_allowed client serverID channelID e2eeDeviceID);
      if negb allowed then mret None
      else
        current ← gets (fun h => voice_current client (h_voice h));
        (match current with
         | Some p => when (negb (vp_ServerID p =? serverID)%Z || negb (vp_ChannelID p =? channelID)%Z)
                       (leaveStream Unregister client "voice channel changed" ;; mret tt)
         | None => mret tt
         end) ;;
        ident ← gets (fun h => client_ident h client);
        result ← on_voice (voice_join client ident serverID channelID selfMute selfDeaf e2eeDeviceID);
        (match jr_previous result with
         | Some previous => publishVoiceLeft Unregister previous client
         | None => mret tt
         end) ;;
        (match jr_replaced result with
         | Some replaced =>
             leaveStream Unregister replaced "voice session moved to another connection" ;;
             connectionID ← gets (fun h => cl_connectionID (client_at replaced h));
             closeVoiceSession connectionID ;;
             SendToConnection Unregister connectionID
               (voice_closed VoiceWebRTCClosedReasonReplaced) ;;
             mret tt
         | None => mret tt
         end) ;;
        (if jr_joined result then
           publishToServerExcept Unregister serverID client
             (new_event EventVoiceParticipantJoined (DVoiceParticipant (jr_participant result))) ;;
           mret tt
         else
           when (jr_updated result)
             (publishToServerExcept Unregister serverID client
                (new_event EventVoiceStateUpdated (DVoiceParticipant (jr_participant result))) ;;
              mret tt)) ;;
        mret (Some (mkVoiceJoinedData (jr_participant result) (jr_participants result) false))
  end.

Definition JoinVoice (client : option ClientRef) (serverID channelID : Z)
    (selfMute selfDeaf : bool) : M Hub (option VoiceJoinedData) :=
  JoinVoiceWithDevice client serverID channelID selfMute selfDeaf "".

Definition UpdateVoiceState (client : option ClientRef) (selfMute selfDeaf : bool)
    (selfVideo : option bool) : M Hub (option VoiceParticipantData) :=
  match client with
  | None => mret None
  | Some client =>
      updated ← on_voice (voice_update client selfMute selfDeaf selfVideo);
      match updated with
      | None => mret None
      | Some (participant, changed) =>
          when changed
            (publishToServerExcept Unregister (vp_ServerID participant) client
               (new_event EventVoiceStateUpdated (DVoiceParticipant participant)) ;; mret tt) ;;
          mret (Some participant)
      end
  end.

Definition LeaveVoice (client : option ClientRef) : M Hub (option VoiceLeftData) :=
  match client with
  | None => mret None
  | Some client =>
      participant ← leaveVoice Unregister client;
      mret (newVoiceLeftData <$> participant)
  end.

Definition RelayVoiceE2EE (sender : ClientRef) (eventType : EventType) (data : E2EERelayData)
    : M Hub bool :=
  found ← gets (fun h => e2eeRecipient sender (er_ChannelID data) (er_RecipientUserID data)
                           (er_RecipientDeviceID data) (h_voice h));
  match found with
  | None => mret false
  | Some (from, recipient) =>
      let data := data <| er_SenderUserID := vp_UserID from |>
                       <| er_SenderDeviceID := vp_E2EEDeviceID from |>
                       <| er_SenderConnectionID := vp_ConnectionID from |>
                       <| er_RecipientUserID := 0%Z |>
                       <| er_RecipientDeviceID := "" |> in
      accepted ← hub_enqueue recipient (new_event eventType (DE2EERelay data));
      if accepted : bool then mret true
      else Unregister recipient ;; mret false
  end.

Definition ResetVoiceChannel (channelID : Z) (reason : string) : M Hub unit :=
  clients ← gets (fun h => voice_channelClients channelID (h_voice h));
  for_each clients (fun client =>
    left_ ← leaveVoice Unregister client;
    match left_ with
    | None => mret tt
    | Some _ =>
        connectionID ← gets (fun h => cl_connectionID (client_at client h));
        SendToConnection Unregister connectionID (voice_closed reason) ;; mret tt
    end).

Definition RevalidateVoiceE2EE (userID : Z) : M Hub unit :=
  h ← get_state;
  match voice_userClient userID (h_voice h), h_voiceDeviceActive h with
  | Some client, Some check =>
      match voice_current client (h_voice h) with
      | None => mret tt
      | Some current =>
          if String.eqb (vp_E2EEDeviceID current) "" then mret tt
          else
            match check userID (vp_E2EEDeviceID current) with
            | Some true => mret tt
            | _ =>
                left_ ← leaveVoice Unregister client;
                match left_ with
                | None => mret tt
                | Some _ =>
                    connectionID ← gets (fun h => cl_connectionID (client_at client h));
                    SendToConnection Unregister connectionID
                      (voice_closed VoiceWebRTCClosedReasonE2EEDevice) ;;
                    mret tt
                end
            end
      end
  | _, _ => mret tt
  end.

(** ** stream_hub.go *)

(** [current_in client serverID channelID h]: the client's voice entry, if it
    is in that channel of that server. *)
Definition current_in (client : ClientRef) (serverID channelID : Z) (h : Hub)
    : option VoiceParticipantData :=
  match voice_current client (h_voice h) with
  | Some p => if (vp_ServerID p =? serverID)%Z && (vp_ChannelID p =? channelID)%Z
              then Some p else None
  | None => None
  end.

Definition StartStreamWithRenditions (client : option ClientRef) (serverID channelID : Z)
    (mode : StreamMode) (codec : StreamCodec) (hasAudio : bool)
    (renditions : list StreamRenditionData) : M Hub (StreamData + StreamError) :=
  match client with
  | None => mret (inr ErrStreamUnavailable)
  | Some client =>
      h ← get_state;
      let cl := client_at client h in
      if negb (canAccessChannel cl channelID) then mret (inr ErrStreamVoiceRequired)
      else if negb (String.eqb mode StreamModeServer) && negb (String.eqb mode StreamModeP2P) ||
              negb (validStreamCodec codec)
      then mret (inr ErrStreamUnavailable)
      else
        match current_in client serverID channelID h with
        | None => mret (inr ErrStreamVoiceRequired)
        | Some participant =>
            match normalizeStreamRenditions codec renditions with
            | None => mret (inr ErrStreamRenditionsInvalid)
            | Some normalized =>
                if String.eqb mode StreamModeP2P && negb (onlySDRStreamRenditions normalized)
                then mret (inr ErrStreamRenditionsInvalid)
                else
                  started ← on_streams (stream_start (client_ident h) client
                    (SupportsMultipleStreams cl) participant mode codec hasAudio normalized (h_now h));
                  match started with
                  | inr err => mret (inr err)
                  | inl data =>
                      still ← gets (current_in client serverID channelID);
                      match still with
                      | None =>
                          on_streams (stream_leave client) ;; mret (inr ErrStreamVoiceRequired)
                      | Some _ =>
                          publishToServerExcept Unregister serverID client
                            (new_event EventStreamStarted (DStream data)) ;;
                          mret (inl data)
                      end
                  end
            end
        end
  end.

Definition StartStream (client : option ClientRef) (serverID channelID : Z) (mode : StreamMode)
    (codec : StreamCodec) (hasAudio : bool) : M Hub (StreamData + StreamError) :=
  StartStreamWithRenditions client serverID channelID mode codec hasAudio [].

Definition WatchStreamWithCapabilities (client : option ClientRef) (serverID channelID : Z)
    (supportedDynamicRanges : list StreamDynamicRange)
    (codecProfiles : list StreamCodecProfileData) (publisherConnectionIDs : list string)
    : M Hub (StreamWatchingData + StreamError) :=
  if 1 <? length publisherConnectionIDs then mret (inr ErrStreamUnavailable)
  else
    let publisherConnectionID := default "" (head publisherConnectionIDs) in
    if 128 <? String.length publisherConnectionID then mret (inr ErrStreamUnavailable)
    else
      match client with
      | None => mret (inr ErrStreamUnavailable)
      | Some client =>
          h ← get_state;
          if negb (canAccessChannel (client_at client h) channelID)
          then mret (inr ErrStreamVoiceRequired)
          else
            match current_in client serverID channelID h with
            | None => mret (inr ErrStreamVoiceRequired)
            | Some participant =>
                watched ← on_streams (stream_watch (client_ident h) client participant
                  (h_maxStreamViewers h) (h_maxP2PStreamViewers h) supportedDynamicRanges
                  codecProfiles publisherConnectionID);
                match watched with
                | inr err => mret (inr err)
                | inl (data, publisher, selectedRenditionID) =>
                    still ← gets (current_in client serverID channelID);
                    match still with
                    | None => on_streams (stream_leave client) ;; mret (inr ErrStreamVoiceRequired)
                    | Some _ =>
                        let self := client_ident h client in
                        notified ←
                          (if String.eqb (st_Mode data) StreamModeP2P then
                             hub_enqueue publisher (new_event EventStreamViewerJoined (DStreamViewer
                               (mkStreamViewerData (id_ConnectionID self) (id_UserID self))))
                           else mret true);
                        if notified : bool then
                          PublishToServer Unregister serverID
                            (new_event EventStreamUpdated (DStream data)) ;;
                          mret (inl (mkStreamWatchingData data (id_ConnectionID self)
                                       selectedRenditionID))
                        else
                          Unregister publisher ;; mret (inr ErrStreamUnavailable)
                    end
                end
            end
      end.

Definition WatchStream (client : option ClientRef) (serverID channelID : Z)
    : M Hub (StreamWatchingData + StreamError) :=
  WatchStreamWithCapabilities client serverID channelID [] [] [].

Definition LeaveStream (client : option ClientRef) (reason : string)
    : M Hub (option StreamStoppedData * bool) :=
  match client with
  | None => mret (None, false)
  | Some client =>
      left_ ← leaveStream Unregister client reason;
      match left_ with
      | None => mret (None, false)
      | Some (r, publisher) =>
          value ← on_streams (load r);
          publisherID ← gets (fun h => id_ConnectionID (client_ident h (as_publisher value)));
          mret (Some (mkStreamStoppedData publisherID (as_serverID value) (as_channelID value) reason),
                publisher)
      end
  end.

(** The common end of the peer-to-peer relays. *)
Definition relay_to (target : ClientRef) (event : OutgoingEvent) : M Hub (option StreamError) :=
  accepted ← hub_enqueue target event;
  if accepted : bool then mret None
  else Unregister target ;; mret (Some ErrStreamUnavailable).

Definition RelayStreamP2PSession (client : ClientRef) (targetConnectionID sdp : string)
    (typeOfEvent : EventType) : M Hub (option StreamError) :=
  h ← get_state;
  match stream_relationship (client_ident h) client targetConnectionID (h_streams h) with
  | (None, _) => mret (Some ErrStreamP2PRelation)
  | (Some target, senderIsPublisher) =>
      if String.eqb typeOfEvent EventStreamP2POffer && negb senderIsPublisher ||
         String.eqb typeOfEvent EventStreamP2PAnswer && senderIsPublisher
      then mret (Some ErrStreamP2PRelation)
      else relay_to target (new_event typeOfEvent (DStreamP2PSession
             (mkStreamP2PSessionData "" (cl_connectionID (client_at client h)) sdp)))
  end.

Definition RelayStreamP2PICECandidate (client : ClientRef) (data : StreamP2PICECandidateData)
    : M Hub (option StreamError) :=
  h ← get_state;
  match stream_relationship (client_ident h) client (spi_TargetConnectionID data) (h_streams h) with
  | (None, _) => mret (Some ErrStreamP2PRelation)
  | (Some target, _) =>
      relay_to target (new_event EventStreamP2PICECandidate (DStreamP2PICECandidate
        (mkStreamP2PICECandidateData "" (cl_connectionID (client_at client h)) (spi_Candidate data))))
  end.

Definition RequestStreamP2PRestart (client : ClientRef) (targetConnectionID : string)
    : M Hub (option StreamError) :=
  h ← get_state;
  match stream_relationship (client_ident h) client targetConnectionID (h_streams h) with
  | (Some target, false) =>
      relay_to target (new_event EventStreamP2PRestart (DStreamViewer
        (mkStreamViewerData (cl_connectionID (client_at client h)) (cl_userID (client_at client h)))))
  | _ => mret (Some ErrStreamP2PRelation)
  end.

Definition RequestStreamRecovery (client : option ClientRef) (serverID channelID : Z)
    (action : StreamRecoveryAction) (h : Hub) : option StreamError :=
  match client with
  | None => Some ErrStreamUnavailable
  | Some client =>
      if negb (ValidStreamRecoveryAction action) then Some ErrStreamUnavailable
      else match recoveryViewer client serverID channelID (h_streams h) with
        | None => Some ErrStreamP2PRelation
        | Some _ => None
        end
  end.

(** ** Configuration *)

Definition SetVoiceSessionCloser : M Hub unit :=
  modify (fun h => h <| h_voiceSessions := true |>).
Definition SetStreamSessionCloser (maxServerViewers maxP2PViewers : Z) : M Hub unit :=
  modify (fun h => h <| h_streamSessions := true |>) ;;
  when (0 <? maxServerViewers)%Z
    (modify (fun h => h <| h_maxStreamViewers := maxServerViewers |>)) ;;
  when (0 <? maxP2PViewers)%Z
    (modify (fun h => h <| h_maxP2PStreamViewers := maxP2PViewers |>)).
Definition SetVoiceDeviceValidator (check : Z → string → option bool) : M Hub unit :=
  modify (fun h => h <| h_voiceDeviceActive := Some check |>).
Definition SetRolePermissionLoader (loader : Z → Z → option Z) : M Hub unit :=
  modify (fun h => h <| h_rolePermissions := Some loader |>).
Definition SetChannelAccessLoader (loader : Z → option (option (gset Z))) : M Hub unit :=
  modify (fun h => h <| h_channelAccessLoader := Some loader |>).
Definition SetChannelAccessBatchLoader (loader : list Z → option (gmap Z (gset Z))) : M Hub unit :=
  modify (fun h => h <| h_channelAccessBatchLoader := Some loader |>).
Definition SetLastSeenSaver : M Hub unit :=
  modify (fun h => h <| h_lastSeenSaver := true |>).

(** ** voice_signals.go *)

Definition voice_SendOffer (connectionID sdp : string) : M Hub bool :=
  SendToConnection Unregister connectionID (new_event EventVoiceWebRTCOffer (DVoiceOffer sdp)).

Definition voice_SendICECandidate (connectionID : string) (candidate : ICECandidateData) : M Hub bool :=
  SendToConnection Unregister connectionID
    (new_event EventVoiceICECandidate (DVoiceICECandidate candidate)).

Definition CloseVoice (connectionID reason : string) : M Hub unit :=
  client ← gets (clientByConnectionID connectionID);
  match client with
  | None => mret tt
  | Some client =>
      LeaveVoice (Some client) ;;
      SendToConnection Unregister connectionID (voice_closed reason) ;;
      mret tt
  end.

(** The closure captures the voice entry of the moment it is created. *)
Definition voice_SessionFailureHandler (connectionID : string) (h : Hub) : string → M Hub unit :=
  match clientByConnectionID connectionID h with
  | None => fun _ => mret tt
  | Some client =>
      let participant := voice_current client (h_voice h) in
      fun reason =>
        current ← gets (fun h => voice_current client (h_voice h));
        match participant, current with
        | Some participant, Some current =>
            if (vp_generation current =? vp_generation participant)%Z
            then CloseVoice connectionID reason else mret tt
        | _, _ => mret tt
        end
  end.

(** ** stream_signals.go *)

Definition stream_SendOffer (connectionID sdp : string) : M Hub bool :=
  SendToConnection Unregister connectionID (new_event EventStreamWebRTCOffer (DStreamOffer sdp)).

Definition stream_SendICECandidate (connectionID : string) (candidate : ICECandidateData) : M Hub bool :=
  SendToConnection Unregister connectionID
    (new_event EventStreamICECandidate (DStreamICECandidate candidate)).

Definition CloseStream (connectionID reason : string) : M Hub unit :=
  client ← gets (clientByConnectionID connectionID);
  match client with
  | None => mret tt
  | Some client =>
      LeaveStream (Some client) reason ;;
      SendToConnection Unregister connectionID
        (new_event EventStreamWebRTCClosed (DStreamClosed reason)) ;;
      mret tt
  end.

Definition stream_SessionFailureHandler (connectionID : string) (h : Hub) : string → M Hub unit :=
  match clientByConnectionID connectionID h with
  | None => fun _ => mret tt
  | Some client =>
      let state := sst_byClient (h_streams h) !! client in
      fun reason =>
        current ← gets (fun h => sst_byClient (h_streams h) !! client);
        match state, current with
        | Some state, Some current =>
            if (sk_generation current =? sk_generation state)%Z
            then CloseStream connectionID reason else mret tt
        | _, _ => mret tt
        end
  end.
End media.
