(* ===== verification/Publishers.v ===== *)
(** * Publishers: domain events turned into deliveries

    Model of the [..._events.go] adapters: each takes a value committed by
    another package and publishes it to a room, a server or a user. *)

From S2P Require Import Prelude Events Client VoiceState StreamState Hub HubOps.

(** ** Values of the domain packages (the fields the adapters read) *)

Record Message := mkMessage {
  msg_Poll : option Poll; msg_Attachments : list Attachment; msg_Replayed : bool;
  msg_ClientMessageID : string; msg_ID : Z; msg_ChannelID : Z; msg_Author : MessageAuthorData;
  msg_Content : string; msg_CreatedAt : Z; msg_EditedAt : option Z; msg_Revision : Z;
  msg_Reply : option ReplyReference; msg_Forward : option ForwardReference;
  msg_ThreadRootID : option Z; msg_CommentCount : Z }.

Record PinnedMessage := mkPinnedMessage {
  pm_Message : Message; pm_PinnedBy : MessageAuthorData; pm_PinnedAt : Z }.

Record Channel := mkChannel {
  chn_ID : Z; chn_ServerID : Z; chn_Name : string; chn_Kind : string; chn_Position : Z;
  chn_CreatedBy : Z; chn_CreatedAt : Z; chn_AccessRestricted : bool; chn_CommentsEnabled : bool }.

Record ReactionState := mkReactionState {
  rs_ChannelID : Z; rs_MessageID : Z; rs_Revision : Z; rs_Users : gmap string (gset Z) }.

(** ** message/interactions.go *)

(** [strings.Fields] of a text whose only separator is the space. *)
Fixpoint fields (current : string) (s : string) : list string :=
  match s with
  | EmptyString => if String.eqb current "" then [] else [current]
  | String c s' =>
      if Ascii.eqb c (Ascii.ascii_of_nat 32) then
        (if String.eqb current "" then [] else [current]) ++ fields "" s'
      else fields (current +:+ String c EmptyString) s'
  end.

Definition ReactionEmoji : list string := fields ""
  "❤️ 👍 👎 😂 🤣 🔥 🤔 😁 😢 😭 😮 😱 🤯 🥰 😍 😎 🤩 🥳 😇 🙂 🙃 😉 😊 😋 😘 😴 🤤 🤨 😐 😑 😏 😒 😔 😕 🙁 ☹️ 😫 😩 😤 😡 🤬 😳 🥺 🥹 🤗 🤫 🤭 🫡 🫠 🤡 💀 👻 👀 🧠 💯 ✅ ❌ ⚡ ⭐ 🌟 🎉 🎊 🎁 💎 🏆 🥇 🚀 🌈 ☀️ 🌙 ☕ 🍿 🍰 🍕 🍓 🍉 🌹 💐 🦋 🐱 🐶 🐸 🦄 🐝 🤝 👏 🙌 👐 🤲 🙏 💪 ✊ 👊 ✌️ 🤞 🤟 🤘 👌 🤌 🫶 🫰 👋".

Definition ForUser (s : ReactionState) (userID : Z) : ReactionsData :=
  mkReactionsData (rs_ChannelID s) (rs_MessageID s) (rs_Revision s)
    (omap (fun emoji =>
       let users := default ∅ (rs_Users s !! emoji) in
       if size users =? 0 then None
       else Some (mkReaction emoji (Z.of_nat (size users)) (bool_decide (userID ∈ users))))
     ReactionEmoji).

(** ** message_events.go: payloads *)

Definition newMessageData (value : Message) : MessageCreatedData :=
  {| mc_Poll := msg_Poll value; mc_Attachments := msg_Attachments value;
     mc_ThreadRootID := msg_ThreadRootID value; mc_CommentCount := msg_CommentCount value;
     mc_ClientMessageID := ""; mc_ID := msg_ID value; mc_ChannelID := msg_ChannelID value;
     mc_Author := msg_Author value; mc_Content := msg_Content value;
     mc_CreatedAt := msg_CreatedAt value; mc_EditedAt := msg_EditedAt value;
     mc_Revision := msg_Revision value; mc_Reply := msg_Reply value;
     mc_Forward := msg_Forward value |}.

Definition created_data (value : Message) : MessageCreatedData :=
  {| mc_Poll := msg_Poll value; mc_Attachments := msg_Attachments value;
     mc_ThreadRootID := msg_ThreadRootID value; mc_CommentCount := msg_CommentCount value;
     mc_ClientMessageID := msg_ClientMessageID value; mc_ID := msg_ID value;
     mc_ChannelID := msg_ChannelID value; mc_Author := msg_Author value;
     mc_Content := msg_Content value; mc_CreatedAt := msg_CreatedAt value;
     mc_EditedAt := msg_EditedAt value; mc_Revision := msg_Revision value;
     mc_Reply := msg_Reply value; mc_Forward := msg_Forward value |}.

(** ** read_events.go: payloads *)

Definition newChannelReadData (read : ChannelReadData) : ChannelReadData :=
  mkChannelReadData (cr_ServerID read) (cr_ChannelID read) (cr_UserID read)
    (cr_LastReadMessageID read) (cr_UpdatedAt read).
Definition newChannelReadDataSlice (reads : list ChannelReadData) : list ChannelReadData :=
  newChannelReadData <$> reads.
Definition NewReadSnapshotData (reads : list ChannelReadData) : EventData :=
  DReadSnapshot (newChannelReadDataSlice reads).
Definition NewChannelReadSnapshotData (serverID channelID : Z) (reads : list ChannelReadData)
    : ChannelReadSnapshotData :=
  mkChannelReadSnapshotData serverID channelID (newChannelReadDataSlice reads).

Section publishers.
Context `{MapOrder}.

(** ** message_events.go *)

(** [onCreated] is the listener installed with [SetCreatedListener]. *)
Definition PublishMessageCreated (onCreated : option (Message → M Hub unit)) (value : Message)
    : M Hub unit :=
  if msg_Replayed value then mret tt
  else
    Publish (msg_ChannelID value)
      (new_event EventMessageCreated (DMessageCreated (created_data value))) ;;
    match onCreated with
    | Some listener => when (negb (msg_Replayed value)) (listener value)
    | None => mret tt
    end.

Definition PublishMessageUpdated (value : Message) : M Hub unit :=
  Publish (msg_ChannelID value)
    (new_event EventMessageUpdated (DMessageCreated (newMessageData value))) ;; mret tt.

Definition PublishMessageDeleted (value : Message) : M Hub unit :=
  Publish (msg_ChannelID value)
    (new_event EventMessageDeleted
       (DMessageDeleted (mkMessageDeletedData (msg_ChannelID value) (msg_ID value)))) ;; mret tt.

Definition PublishMessagePinned (value : PinnedMessage) : M Hub unit :=
  let message := pm_Message value in
  Publish (msg_ChannelID message)
    (new_event EventMessagePinned (DMessagePinned
       (mkMessagePinnedData (msg_ChannelID message) (msg_ID message) (newMessageData message)
          (pm_PinnedBy value) (pm_PinnedAt value)))) ;; mret tt.

(** The event [PublishMessageUnpinned] sends. *)
Definition unpinned_event (channelID messageID : Z) : OutgoingEvent :=
  new_event EventMessageUnpinned (DMessageUnpinned (mkMessageUnpinnedData channelID messageID)).

Definition PublishMessageUnpinned (channelID messageID : Z) : M Hub unit :=
  Publish channelID (unpinned_event channelID messageID) ;; mret tt.

Definition PublishChannelActivity (serverID : Z) (value : Message) : M Hub unit :=
  PublishToServer Unregister serverID (new_event EventChannelActivity (DChannelActivity
    (mkChannelActivityData serverID (msg_ChannelID value) (msg_ID value)
       (ma_UserID (msg_Author value))))) ;; mret tt.

(** ** reactions.go *)

(** The loop of [PublishReactionsChanged]: tabs of one account share an event. *)
Definition deliver_reactions (state : ReactionState) (events : gmap Z OutgoingEvent)
    (client : ClientRef) : M Hub (gmap Z OutgoingEvent) :=
  userID ← gets (fun h => cl_userID (client_at client h));
  let fresh := shareEncoding (new_event EventMessageReactionsChanged
                 (DReactions (ForUser state userID))) in
  let event := default fresh (events !! userID) in
  accepted ← hub_enqueue client event;
  when (negb accepted) (Unregister client) ;;
  mret (<[userID := event]> events).

Definition PublishReactionsChanged (state : ReactionState) : M Hub unit :=
  r ← gets (getRoom (rs_ChannelID state));
  match r with
  | None => mret tt
  | Some r => fold_each (room_snapshot r) ∅ (deliver_reactions state) ;; mret tt
  end.

(** ** channel_events.go *)

Definition channel_data (value : Channel) : ChannelData :=
  {| cd_CommentsEnabled := chn_CommentsEnabled value; cd_ID := chn_ID value;
     cd_ServerID := chn_ServerID value; cd_Name := chn_Name value; cd_Kind := chn_Kind value;
     cd_Position := chn_Position value; cd_CreatedBy := chn_CreatedBy value;
     cd_AccessRestricted := chn_AccessRestricted value; cd_CreatedAt := chn_CreatedAt value |}.

Definition publishChannel (eventType : EventType) (value : Channel) : M Hub unit :=
  when (String.eqb eventType EventChannelCreated) (RefreshChannelAccess (chn_ServerID value)) ;;
  PublishToServer Unregister (chn_ServerID value)
    (new_event eventType (DChannel (channel_data value))) ;; mret tt.

Definition PublishChannelCreated (value : Channel) : M Hub unit :=
  publishChannel EventChannelCreated value.
Definition PublishChannelUpdated (value : Channel) : M Hub unit :=
  publishChannel EventChannelUpdated value.

Definition PublishChannelDeleted (value : Channel) : M Hub unit :=
  PublishToServer Unregister (chn_ServerID value)
    (new_event EventChannelDeleted
       (DChannelDeleted (mkChannelDeletedData (chn_ServerID value) (chn_ID value)))) ;;
  RemoveChannel (chn_ID value) ;;
  RefreshChannelAccess (chn_ServerID value).

Definition PublishChannelAccessChanged (serverID channelID : Z) : M Hub unit :=
  RefreshChannelAccess serverID.

(** ** read, invitation, membership, avatar and recording events *)

Definition PublishChannelRead (read : ChannelReadData) : M Hub unit :=
  PublishToChannelAndUser (cr_ChannelID read) (cr_UserID read)
    (new_event EventChannelRead (DChannelRead (newChannelReadData read))) ;; mret tt.

Definition PublishInvitationReceived (invitation : InvitationReceivedData) : M Hub unit :=
  PublishToUser (iv_InviteeUserID invitation)
    (new_event EventInvitationReceived (DInvitationReceived
       {| iv_ID := iv_ID invitation; iv_ServerID := iv_ServerID invitation;
          iv_ServerName := iv_ServerName invitation;
          iv_InviterUserID := iv_InviterUserID invitation;
          iv_InviterUsername := iv_InviterUsername invitation;
          iv_InviteeUserID := iv_InviteeUserID invitation;
          iv_Status := iv_Status invitation; iv_ExpiresAt := iv_ExpiresAt invitation;
          iv_CreatedAt := iv_CreatedAt invitation |})) ;; mret tt.

Definition publishMemberChanged (eventType : EventType) (serverID : Z) (member : ServerMemberData)
    : M Hub unit :=
  RefreshChannelAccess serverID ;;
  PublishToServer Unregister serverID (new_event eventType (DServerMemberChanged serverID
    {| sm_UserID := sm_UserID member; sm_Username := sm_Username member;
       sm_CreatedAt := sm_CreatedAt member; sm_Role := sm_Role member;
       sm_JoinedAt := sm_JoinedAt member; sm_About := sm_About member;
       sm_CountryCode := sm_CountryCode member; sm_LastSeenAt := sm_LastSeenAt member;
       sm_AvatarVersion := sm_AvatarVersion member |})) ;; mret tt.

Definition PublishServerMemberJoined (serverID : Z) (member : ServerMemberData) : M Hub unit :=
  publishMemberChanged EventServerMemberJoined serverID member.
Definition PublishServerMemberRoleUpdated (serverID : Z) (member : ServerMemberData) : M Hub unit :=
  publishMemberChanged EventServerMemberRoleUpdated serverID member.

Definition PublishAvatarChanged (serverIDs : list Z) (userID : Z) (version : option string)
    : M Hub unit :=
  for_each serverIDs (fun serverID =>
    PublishToServer Unregister serverID
      (new_event "avatar.updated" (DAvatarChanged userID version)) ;; mret tt).

Definition PublishRecordingChanged (record : RecordingData) : M Hub unit :=
  PublishToServer Unregister (rc_ServerID record)
    (new_event "recording.updated" (DRecording record)) ;; mret tt.
End publishers.
