(* ===== verification/HubMedia.v ===== *)
(** * The hub: channel removal, voice and stream handlers keep the invariant

    The remaining handlers of the hub, proved against the invariant of
    [HubInv] with the lemmas of [HubReach]: what each of them leaves behind
    and that the indexes, rooms, presence counters, voice and stream states
    stay consistent. *)

From S2P Require Import Prelude Events Client ClientFacts ClientAccess.
From S2P Require Import VoiceState VoiceFacts StreamState StreamFacts.
From S2P Require Import Hub HubInv HubSpecs HubOps HubReach HubGrow MediaHub Publishers.

Section channel.
Context `{MapOrder} `{Sched : Schedule}.

(** ** [RemoveChannel] *)

(** The hub with the room of [ch] put back, without the members [gone]. *)
Definition with_room (ch : Z) (r : room) (gone : gset ClientRef) (rooms : gmap Z room) (h : Hub) : Hub :=
  h <| h_rooms := <[ch := mkRoom (rm_clients r ∖ gone) false]> rooms |>.

Lemma forget_member ch r gone c h0 h :
  inv (with_room ch r gone (h_rooms h0) h) → evolves h0 (with_room ch r gone (h_rooms h0) h) →
  wp (update_client c (removeSubscription ch)) (fun _ h' =>
    inv (with_room ch r ({[c]} ∪ gone) (h_rooms h0) h') ∧
    evolves h0 (with_room ch r ({[c]} ∪ gone) (h_rooms h0) h') ∧ h_rooms h' = h_rooms h) h.
Proof.
  intros Hi Hev. unfold update_client, on_client, wp. simpl.
  set (rooms' := <[ch := mkRoom (rm_clients r ∖ ({[c]} ∪ gone)) false]> (h_rooms h0)).
  assert (with_room ch r ({[c]} ∪ gone) (h_rooms h0)
    (h <| h_mem ::= <[c := removeSubscription ch (client_at c h)]> |>) =
    unsubscribed c ch rooms' (with_room ch r gone (h_rooms h0) h)) as -> by done.
  split_and!; [|by etrans; [|apply evolves_unsubscribed]|done]. apply hub_inv_unsubscribed; [done|..].
  - intros ch' c'. unfold members_in, room_members, rooms', with_room. simpl.
    rewrite !lookup_insert. case_decide; [subst; simpl; set_solver|naive_solver].
  - intros ch' r'. unfold rooms'. rewrite lookup_insert. case_decide; [by intros [= <-]|].
    intros Hr'. apply (hi_room_open _ _ _ Hi ch'). simpl. by rewrite lookup_insert_ne.
Qed.

Lemma close_room_spec ch r h :
  inv h → h_rooms h !! ch = Some r →
  wp (for_each (room_closeAndSnapshot r).1
        (fun client => update_client client (removeSubscription ch)))
    (fun _ h' => kept h h' ∧ room_members ch h' = ∅) (h <| h_rooms ::= delete ch |>).
Proof.
  intros Hi Hr. eapply wp_mono.
  { apply (wp_for_each _ _ (fun pre h' =>
      inv (with_room ch r (list_to_set pre) (h_rooms h) h') ∧
      evolves h (with_room ch r (list_to_set pre) (h_rooms h) h') ∧
      h_rooms h' = delete ch (h_rooms h))).
    - assert (with_room ch r (list_to_set []) (h_rooms h) (h <| h_rooms ::= delete ch |>) = h) as ->.
      { unfold with_room. simpl. rewrite difference_empty_L. pose proof (hi_room_open _ _ _ Hi _ _ Hr) as Ho.
        destruct r as [m cl]. simpl in *. subst cl. rewrite insert_id by done. by destruct h. }
      done.
    - intros pre c rest h1 _ (Hi1&Hev1&Hr1). eapply wp_mono; [by apply (forget_member ch r (list_to_set pre) c h)|].
      intros [] h2 (Hi2&Hev2&Hr2). rewrite list_to_set_app_L. simpl. rewrite union_empty_r_L, union_comm_L.
      split_and!; [done|done|congruence]. }
  intros [] h1 (Hi1&Hev1&Hr1).
  assert (rm_clients r ∖ list_to_set (room_closeAndSnapshot r).1 = ∅) as Hemp.
  { unfold room_closeAndSnapshot. rewrite (hi_room_open _ _ _ Hi _ _ Hr). apply set_eq. intros c. simpl.
    rewrite elem_of_difference, elem_of_list_to_set, elem_of_range_set. set_solver. }
  unfold with_room in Hi1, Hev1. rewrite Hemp in Hi1, Hev1.
  assert (room_members ch h1 = ∅) as Hm by (unfold room_members; by rewrite Hr1, lookup_delete_eq).
  split; [split|done].
  - assert (h1 = (h1 <| h_rooms := <[ch := mkRoom ∅ false]> (h_rooms h) |>) <| h_rooms := h_rooms h1 |>)
      as Heq by (by destruct h1). rewrite Heq. apply hub_inv_rooms; [done|..].
    + intros ch'. unfold members_in, room_members. simpl. rewrite Hr1, lookup_delete, lookup_insert.
      by case_decide.
    + intros ch' r'. rewrite Hr1, lookup_delete_Some. intros [_ ?]. by apply (hi_room_open _ _ _ Hi ch').
  - apply evolves_ages in Hev1. destruct Hev1. by split.
Qed.

(** Streams only disappear. *)
Lemma stream_room_ages ch c r h h' :
  inv h → kept h h' → stream_room ch (h_streams h') !! c = Some r →
  stream_room ch (h_streams h) !! c = Some r.
Proof.
  intros Hi [Hi' Hag] Hr.
  destruct (si_live _ (hi_stream _ _ _ Hi') _ _ _ Hr) as (v'&st&Hv'&Hch&Hc&Hst&Hsk&Hp).
  destruct (ag_stream _ _ Hag c) as [?|E]; [congruence|]. rewrite E in Hst.
  destruct (si_client _ (hi_stream _ _ _ Hi) _ _ Hst) as (v&Hv&Hroom&_).
  pose proof (ag_heap _ _ Hag r) as Hpl. rewrite Hsk in Hv, Hroom.
  rewrite Hv', Hv in Hpl. injection Hpl as _ Hpl1 Hpl2. congruence.
Qed.

Lemma stopStream_channel ch reason h :
  inv h → wp (stopStreamForChannel ch reason) (fun _ h' => kept h h' ∧
    stream_room ch (h_streams h') = ∅) h.
Proof.
  intros Hi. eapply wp_mono; [by apply stopStreamForChannel_kept|]. intros [] h1 [Hk Hgone].
  split; [done|]. apply map_eq. intros c. rewrite lookup_empty.
  destruct (stream_room ch (h_streams h1) !! c) as [r|] eqn:Hr; [|done].
  destruct (si_live _ (hi_stream _ _ _ (proj1 Hk)) _ _ _ Hr) as (v&st&_&_&_&Hst&_).
  pose proof (stream_room_ages ch c r h h1 Hi Hk Hr) as Hr0.
  rewrite Hgone in Hst; [done|]. unfold publishersForChannel. apply elem_of_range_keys. eauto.
Qed.

(** Nothing of channel [ch] is left. *)
Record channel_gone (ch : Z) (h : Hub) : Prop := {
  cg_room : room_members ch h = ∅;
  cg_subs : ∀ c, subs_of c h !! ch = None;
  cg_voice : ∀ c p, vs_byClient (h_voice h) !! c = Some p → vp_ChannelID p ≠ ch;
  cg_streams : stream_room ch (h_streams h) = ∅
}.

Lemma no_members ch h : inv h → room_members ch h = ∅ ↔ ∀ c, subs_of c h !! ch = None.
Proof.
  intros Hi. split.
  - intros He c. apply eq_None_not_Some. rewrite <- (hi_room _ _ _ Hi), He. set_solver.
  - intros Hs. apply set_eq. intros c. rewrite (hi_room _ _ _ Hi), Hs. split; [by intros []|set_solver].
Qed.

Lemma close_channel_media_spec ch h :
  inv h → room_members ch h = ∅ →
  wp (close_channel_media ch) (fun _ h' => kept h h' ∧ channel_gone ch h') h.
Proof.
  intros Hi Hm. unfold close_channel_media. wp_step. eapply wp_mono; [by apply stopStream_channel|].
  intros [] h1 [Hk1 Hs1]. wp_step. eapply wp_mono.
  { apply voice_shrink; [apply Hk1|apply (voice_removeChannel_spec (client_ident h1)), (hi_voice _ _ _ (proj1 Hk1))|].
    intros r v (Hv&Hbc&_). split; [done|]. intros c. rewrite Hbc, map_lookup_filter.
    destruct (_ !! c); simpl; [|by right]. case_guard; simpl; auto. }
  intros removed h2 (Hk2&_&Hbc&_). pose proof (kept_trans _ _ _ Hk1 Hk2) as Hk02.
  eapply wp_mono.
  { apply kept_for_each; [apply Hk2|]. intros p h3 _ Hk3. apply closeVoiceSession_kept, Hk3. }
  intros [] h3 Hk3. pose proof (kept_trans _ _ _ Hk02 Hk3) as Hk03. split; [done|].
  assert (∀ c, subs_of c h3 !! ch = None) as Hsub.
  { intros c. destruct (ag_subs _ _ (proj2 Hk03) c ch) as [?| ->]; [done|]. by apply no_members. }
  split; [by apply no_members; [apply Hk03|]|done| |].
  - intros c p Hp. destruct (ag_voice _ _ (proj2 Hk3) c) as [E|E]; [congruence|].
    rewrite E, Hbc in Hp. by apply map_lookup_filter_Some in Hp as [_ ?].
  - apply map_eq. intros c. rewrite lookup_empty.
    destruct (stream_room ch (h_streams h3) !! c) as [r|] eqn:Hr; [|done].
    pose proof (stream_room_ages ch c r h1 h3 (proj1 Hk1) (kept_trans _ _ _ Hk2 Hk3) Hr) as Hr1.
    by rewrite Hs1, lookup_empty in Hr1.
Qed.

Lemma RemoveChannel_gone ch h :
  inv h → (0 < ch)%Z →
  wp (RemoveChannel ch) (fun _ h' => kept h h' ∧ channel_gone ch h') h.
Proof.
  intros Hi Hch. unfold RemoveChannel. rewrite (proj2 (Z.leb_gt _ _) Hch). wp_step. wp_step.
  unfold getRoom. destruct (h_rooms h !! ch) as [r|] eqn:Hr.
  - wp_step. wp_step. wp_step. eapply wp_mono; [by apply close_room_spec|]. intros [] h1 [Hk1 Hm].
    eapply wp_mono; [apply close_channel_media_spec; [apply Hk1|done]|].
    intros [] h2 [Hk2 Hg]. split; [exact (kept_trans _ _ _ Hk1 Hk2)|done].
  - apply close_channel_media_spec; [done|]. unfold room_members. by rewrite Hr.
Qed.
End channel.

Section media.
Context `{MapOrder} `{Sched : Schedule}.

(** ** Adding a voice or stream entry *)

Lemma wp_sound_seq {A B} (m : M Hub A) (f : A → M Hub B) h :
  wp m (fun _ h' => sound h h') h →
  (∀ a h', sound h h' → wp (f a) (fun _ h'' => sound h' h'') h') →
  wp (m ≫= f) (fun _ h' => sound h h') h.
Proof.
  intros Hm Hf. apply wp_bind. eapply wp_mono; [done|]. intros a h1 H1. simpl.
  eapply wp_mono; [by apply Hf|]. intros b h2 H2. exact (sound_trans _ _ _ H1 H2).
Qed.

(** A connection that [Register] has accepted, whatever happened to it since. *)
Definition admitted (c : ClientRef) (h : Hub) : Prop :=
  ready c h ∧ cl_connectionID (client_at c h) ≠ "".

Lemma admitted_sound c h h' : sound h h' → admitted c h → admitted c h'.
Proof.
  intros Hso [Hr Hc]. split; [by apply (so_ready _ _ Hso)|].
  by rewrite (ident_conn h h') by apply (so_ident _ _ Hso).
Qed.

Lemma sound_voice c v h :
  inv h → admitted c h →
  voice_inv (client_ident h) v →
  (∀ c', is_Some (vs_byClient v !! c') → c' = c ∨ is_Some (vs_byClient (h_voice h) !! c')) →
  sound h (h <| h_voice := v |>).
Proof.
  intros Hi [[_ Hr] Hc] Hv Hnew. split; [|done|done|].
  - apply hub_inv_voice; [done|done|]. intros c' [->|Hs]%Hnew; [|by apply (hi_voice_live _ _ _ Hi)].
    destruct Hr; [left; set_solver|by right].
  - intros Hn c' [Hin|[[->|Hs]%Hnew|Hs]]; [apply Hn; by left|done|apply Hn; auto|apply Hn; auto].
Qed.

Lemma sound_streams c s h :
  inv h → admitted c h → stream_inv s →
  (∀ c', is_Some (sst_byClient s !! c') → c' = c ∨ is_Some (sst_byClient (h_streams h) !! c')) →
  sound h (h <| h_streams := s |>).
Proof.
  intros Hi [[HP Hr] Hc] Hs Hnew. split; [|done|done|].
  - eapply hub_inv_streams; [done|done|]. intros c' [->|Hs']%Hnew; [|by apply (hi_stream_live _ _ _ Hi)].
    destruct Hr; [left; set_solver|by right].
  - intros Hn c' [Hin|[Hs'|[->|Hs']%Hnew]]; [apply Hn; by left|apply Hn; auto|done|apply Hn; auto].
Qed.

Lemma join_allowed_server c s ch dev h :
  join_allowed c s ch dev h = true → s ∈ servers_of c h.
Proof.
  unfold join_allowed. rewrite !andb_true_iff. intros [[_ Hs] _].
  unfold hasServer in Hs. by apply bool_decide_eq_true in Hs.
Qed.

Lemma join_spec c ident s ch m d dev h :
  inv h → admitted c h → ident = client_ident h c →
  wp (on_voice (voice_join c ident s ch m d dev)) (fun r h' => sound h h' ∧
    vs_byClient (h_voice h') !! c = Some (jr_participant r)) h.
Proof.
  intros Hi Hr ->.
  pose proof (voice_join_spec (client_ident h) c s ch m d dev _ (hi_voice _ _ _ Hi)) as Hj.
  unfold on_voice, wp in *. destruct (voice_join _ _ _ _ _ _ _ _) as [[r v]| |]; [|done..].
  split; [|apply (je_self _ _ _ _ _ _ Hj)]. apply (sound_voice c); [done..|apply (je_inv _ _ _ _ _ _ Hj)|].
  intros c'. destruct (decide (c' = c)) as [->|Hne]; [by left|right].
  rewrite (je_other _ _ _ _ _ _ Hj c' Hne) in *. by destruct (vs_byClient (h_voice h) !! c').
Qed.

(** The tail of [JoinVoiceWithDevice] only shrinks the state. *)
Lemma replaced_kept (replaced : option ClientRef) h :
  inv h →
  wp (match replaced with
      | Some replaced =>
          leaveStream Unregister replaced "voice session moved to another connection" ;;
          connectionID ← gets (fun h => cl_connectionID (client_at replaced h));
          closeVoiceSession connectionID ;;
          SendToConnection Unregister connectionID (voice_closed VoiceWebRTCClosedReasonReplaced) ;;
          mret tt
      | None => mret tt
      end) (fun _ h' => kept h h') h.
Proof.
  intros Hi. destruct replaced as [c|]; [|wp_step; by apply kept_refl]. apply wp_kept.
  { eapply wp_mono; [by apply leaveStream_kept|]. by intros r h1 [? _]. }
  intros _ h1 Hk1. wp_step. wp_step. apply wp_kept; [apply closeVoiceSession_kept, Hk1|].
  intros [] h2 Hk2. wp_step. eapply wp_mono.
  - apply SendToConnection_kept; [apply Hk2|apply voice_closed_typed].
  - intros b h3 Hk3. by wp_step.
Qed.

Lemma publish_kept s c e h :
  inv h → event_typed e →
  wp (publishToServerExcept Unregister s c e ;; mret tt) (fun _ h' => kept h h') h.
Proof.
  intros Hi He. wp_step. eapply wp_mono; [by apply publishToServerExcept_kept|]. intros n h1 Hk.
  by wp_step.
Qed.

Lemma announce_join_kept s c (r : voiceJoinResult) h :
  inv h →
  wp (if jr_joined r then
        publishToServerExcept Unregister s c
          (new_event EventVoiceParticipantJoined (DVoiceParticipant (jr_participant r))) ;; mret tt
      else
        when (jr_updated r)
          (publishToServerExcept Unregister s c
             (new_event EventVoiceStateUpdated (DVoiceParticipant (jr_participant r))) ;; mret tt))
    (fun _ h' => kept h h') h.
Proof.
  intros Hi. wp_step; [by apply publish_kept; [|apply event_typed_new]|].
  wp_step; [by apply publish_kept; [|apply event_typed_new]|by apply kept_refl].
Qed.

Lemma JoinVoiceWithDevice_sound c s ch m d dev h :
  inv h → admitted c h → wp (JoinVoiceWithDevice (Some c) s ch m d dev) (fun _ h' => sound h h') h.
Proof.
  intros Hi Hr. unfold JoinVoiceWithDevice. wp_step. wp_step.
  destruct (join_allowed c s ch dev h) eqn:Hal; simpl; [|wp_step; by apply sound_refl].
  wp_step. wp_step. apply wp_sound_seq.
  { apply wp_sound. destruct (voice_current c (h_voice h)) as [p|]; [|wp_step; by apply kept_refl].
    wp_step; [|by apply kept_refl]. wp_step. eapply wp_mono; [by apply leaveStream_kept|].
    intros r h1 [? _]. by wp_step. }
  intros _ h1 Hso1. wp_step. wp_step. apply wp_sound_seq.
  { eapply wp_mono; [apply join_spec; [apply Hso1|by eapply admitted_sound|done]|].
    by intros r h2 [? _]. }
  intros r h2 Hso2. apply wp_sound_seq.
  { apply wp_sound. destruct (jr_previous r); [|wp_step; by apply kept_refl, Hso2].
    apply publishVoiceLeft_kept, Hso2. }
  intros _ h3 Hso3. apply wp_sound_seq; [apply wp_sound, replaced_kept, Hso3|].
  intros _ h4 Hso4. apply wp_sound_seq; [apply wp_sound, announce_join_kept, Hso4|].
  intros _ h5 Hso5. wp_step. apply sound_refl, Hso5.
Qed.

Lemma UpdateVoiceState_sound c m d v h :
  inv h → admitted c h → wp (UpdateVoiceState (Some c) m d v) (fun _ h' => sound h h') h.
Proof.
  intros Hi Hr. unfold UpdateVoiceState.
  apply (wp_sound_seq (on_voice (voice_update c m d v))).
  - pose proof (voice_update_spec (client_ident h) c m d v _ (hi_voice _ _ _ Hi)) as Hu.
    unfold on_voice, wp in *. destruct (voice_update _ _ _ _ _) as [[r s]| |]; [|done..].
    destruct Hu as [Hv Hu]. apply (sound_voice c); [done..|]. intros c'.
    destruct r as [[p' changed]|].
    + destruct Hu as (p&_&->&_). simpl. rewrite lookup_insert. case_decide; [by left|by right].
    + destruct Hu as [-> _]. by right.
  - intros r h1 Hso1. apply wp_sound. destruct r as [[p changed]|]; [|wp_step; apply kept_refl, Hso1].
    apply wp_kept; [|intros [] h2 Hk2; wp_step; apply kept_refl, Hk2].
    wp_step; [|apply kept_refl, Hso1]. apply publish_kept; [apply Hso1|by apply event_typed_new].
Qed.

Lemma LeaveVoice_kept c h : inv h → wp (LeaveVoice (Some c)) (fun _ h' => kept h h') h.
Proof.
  intros Hi. unfold LeaveVoice. wp_step. eapply wp_mono; [by apply leaveVoice_kept|].
  intros r h1 [Hk _]. by wp_step.
Qed.

(** ** Directed sends *)

Lemma relay_kept {A} (a b : A) c e h :
  inv h → event_typed e → ready c h →
  wp (accepted ← hub_enqueue c e;
      if accepted : bool then mret a else Unregister c ;; mret b) (fun _ h' => kept h h') h.
Proof.
  intros Hi He Hr. wp_step. eapply wp_mono; [by apply (hub_enqueue_spec ∅ ∅)|].
  intros ok h1 (Hi1&Hev1&Hs1). assert (kept h h1) as Hk1 by (split; [done|by apply evolves_ages]).
  wp_step; [by wp_step|]. wp_step. eapply wp_mono.
  - apply Unregister_kept; [done|]. eapply ready_ages; [apply Hk1|done].
  - intros [] h2 [Hk2 _]. wp_step. exact (kept_trans _ _ _ Hk1 Hk2).
Qed.

(** A connection with a media entry can be unregistered. *)
Lemma voice_ready c h : inv h → is_Some (vs_byClient (h_voice h) !! c) → ready c h.
Proof.
  intros Hi Hv. split; [set_solver|]. destruct (hi_voice_live _ _ _ Hi c Hv); [left; set_solver|by right].
Qed.
Lemma stream_ready c h : inv h → is_Some (sst_byClient (h_streams h) !! c) → ready c h.
Proof.
  intros Hi Hv. split; [set_solver|].
  destruct (hi_stream_live _ _ _ Hi c Hv) as [?|[_ ?]]; [left; set_solver|by right].
Qed.

Lemma e2eeRecipient_in_voice sender ch u dev from recipient s :
  e2eeRecipient sender ch u dev s = Some (from, recipient) → is_Some (vs_byClient s !! recipient).
Proof. unfold e2eeRecipient. intros He. by repeat case_match; simplify_eq. Qed.

Lemma RelayVoiceE2EE_kept c t data h :
  inv h → t ≠ EventChannelSyncRequired → wp (RelayVoiceE2EE c t data) (fun _ h' => kept h h') h.
Proof.
  intros Hi Ht. unfold RelayVoiceE2EE. wp_step. wp_step.
  destruct (e2eeRecipient _ _ _ _ _) as [[from recipient]|] eqn:He; [|wp_step; by apply kept_refl].
  apply relay_kept; [done|by apply event_typed_new|]. apply voice_ready; [done|].
  by eapply e2eeRecipient_in_voice.
Qed.

(** Leaving voice and telling the connection why. *)
Lemma evict_kept c reason h :
  inv h →
  wp (left_ ← leaveVoice Unregister c;
      match left_ with
      | None => mret tt
      | Some _ =>
          connectionID ← gets (fun h => cl_connectionID (client_at c h));
          SendToConnection Unregister connectionID (voice_closed reason) ;; mret tt
      end) (fun _ h' => kept h h' ∧ vs_byClient (h_voice h') !! c = None) h.
Proof.
  intros Hi. wp_step. eapply wp_mono; [by apply leaveVoice_kept|]. intros r h1 (Hk1&_&Hv).
  destruct r; [|by wp_step]. eapply wp_mono; [apply send_closed_kept, Hk1|].
  intros [] h2 Hk2. split; [exact (kept_trans _ _ _ Hk1 Hk2)|].
  destruct (ag_voice _ _ (proj2 Hk2) c) as [?| ->]; done.
Qed.

Lemma ResetVoiceChannel_empties ch reason h :
  inv h → wp (ResetVoiceChannel ch reason) (fun _ h' => kept h h' ∧
    ∀ c p, vs_byClient (h_voice h') !! c = Some p → vp_ChannelID p ≠ ch) h.
Proof.
  intros Hi. unfold ResetVoiceChannel. wp_step. wp_step. eapply wp_mono.
  { apply (kept_for_each_post _ _ (fun c h' => vs_byClient (h_voice h') !! c = None) h).
    - by apply kept_refl.
    - intros c h1 h2 Hag Hc. destruct (ag_voice _ _ Hag c) as [?| ->]; done.
    - intros c h1 _ Hk. apply evict_kept, Hk. }
  intros [] h1 [Hk Hgone]. split; [done|]. intros c p Hp Hch.
  destruct (ag_voice _ _ (proj2 Hk) c) as [E|E]; [congruence|]. rewrite Hgone in Hp; [done|].
  unfold voice_channelClients. apply elem_of_range_keys. exists p.
  apply (vi_room _ _ (hi_voice _ _ _ Hi)). split; [congruence|done].
Qed.

(** A user whose encryption device the validator does not confirm is put out
    of voice. *)
Lemma RevalidateVoiceE2EE_evicts u h :
  inv h → wp (RevalidateVoiceE2EE u) (fun _ h' => kept h h' ∧
    ∀ check c p, h_voiceDeviceActive h = Some check → vs_byClient (h_voice h') !! c = Some p →
      vp_UserID p = u → vp_E2EEDeviceID p = "" ∨ check u (vp_E2EEDeviceID p) = Some true) h.
Proof.
  intros Hi. unfold RevalidateVoiceE2EE. wp_step. wp_step.
  assert (∀ c p, vs_byClient (h_voice h) !! c = Some p → vp_UserID p = u →
    voice_userClient u (h_voice h) = Some c) as Huser.
  { intros c p Hp Hu. unfold voice_userClient. apply (vi_user _ _ (hi_voice _ _ _ Hi)). eauto. }
  destruct (voice_userClient u (h_voice h)) as [c|] eqn:Hc.
  2: { wp_step. split; [by apply kept_refl|]. intros check c p _ Hp Hu. by eapply Huser in Hp. }
  destruct (h_voiceDeviceActive h) as [check|]; [|wp_step; split; [by apply kept_refl|done]].
  unfold voice_current. destruct (vs_byClient (h_voice h) !! c) as [cur|] eqn:Hcur.
  2: { wp_step. split; [by apply kept_refl|]. intros ? c' p _ Hp Hu.
       pose proof (Huser _ _ Hp Hu). simplify_eq. }
  assert (vp_E2EEDeviceID cur = "" ∨ check u (vp_E2EEDeviceID cur) = Some true →
    wp (mret tt : M Hub unit) (fun _ h' => kept h h' ∧
    ∀ check' c p, Some check = Some check' → vs_byClient (h_voice h') !! c = Some p →
      vp_UserID p = u → vp_E2EEDeviceID p = "" ∨ check' u (vp_E2EEDeviceID p) = Some true) h) as Hstay.
  { intros Hok. wp_step. split; [by apply kept_refl|]. intros ? c' p [= <-] Hp Hu.
    pose proof (Huser _ _ Hp Hu). by simplify_eq. }
  destruct (String.eqb_spec (vp_E2EEDeviceID cur) ""); [apply Hstay; auto|].
  assert (wp (left_ ← leaveVoice Unregister c;
      match left_ with
      | None => mret tt
      | Some _ =>
          connectionID ← gets (fun h => cl_connectionID (client_at c h));
          SendToConnection Unregister connectionID (voice_closed VoiceWebRTCClosedReasonE2EEDevice) ;;
          mret tt
      end) (fun _ h' => kept h h' ∧
    ∀ check' c p, Some check = Some check' → vs_byClient (h_voice h') !! c = Some p →
      vp_UserID p = u → vp_E2EEDeviceID p = "" ∨ check' u (vp_E2EEDeviceID p) = Some true) h) as Hevict.
  { eapply wp_mono; [by apply evict_kept|]. intros [] h1 [Hk Hv]. split; [done|].
    intros ? c' p _ Hp Hu. destruct (ag_voice _ _ (proj2 Hk) c') as [E|E]; [congruence|].
    rewrite E in Hp. pose proof (Huser _ _ Hp Hu). simplify_eq. congruence. }
  destruct (check u (vp_E2EEDeviceID cur)) as [[]|]; [apply Hstay; auto|done|done].
Qed.

(** ** Streams *)

Lemma current_in_voice c s ch h p :
  current_in c s ch h = Some p → vs_byClient (h_voice h) !! c = Some p.
Proof. unfold current_in, voice_current. intros He. by repeat case_match; simplify_eq. Qed.

Lemma start_spec c multiple p mode codec audio rs now h :
  inv h → admitted c h →
  wp (on_streams (stream_start (client_ident h) c multiple p mode codec audio rs now))
    (fun _ h' => sound h h') h.
Proof.
  intros Hi Ha. unfold on_streams, wp. rewrite stream_start_run.
  assert (sound h (h <| h_streams := h_streams h |>)) as Hid.
  { assert (h <| h_streams := h_streams h |> = h) as -> by (by destruct h). by apply sound_refl. }
  destruct (decide (is_Some _)) as [|Hn]; [done|].
  repeat case_decide; try done. apply (sound_streams c); [done|done| |].
  - apply (started_inv (client_ident h)); simpl; [apply (hi_stream _ _ _ Hi)|by apply eq_None_not_Some|done|done|lia].
  - intros c'. simpl. rewrite lookup_insert. case_decide; [by left|by right].
Qed.

Lemma drop_stream_kept c h : inv h → wp (on_streams (stream_leave c)) (fun _ h' => kept h h') h.
Proof.
  intros Hi. eapply wp_mono; [by apply (streams_leave_spec ∅ ∅); [|set_solver]|].
  intros r h1 [Hg _]. by apply good_kept.
Qed.

Lemma StartStreamWithRenditions_sound c s ch mode codec audio rs h :
  inv h → admitted c h →
  wp (StartStreamWithRenditions (Some c) s ch mode codec audio rs) (fun _ h' => sound h h') h.
Proof.
  intros Hi Ha. pose proof (sound_refl h Hi) as Hrefl. unfold StartStreamWithRenditions.
  wp_step. wp_step. wp_step; [by wp_step|]. wp_step; [by wp_step|].
  destruct (current_in c s ch h) as [p|] eqn:Hp; [|by wp_step].
  destruct (normalizeStreamRenditions codec rs) as [normalized|]; [|by wp_step].
  wp_step; [by wp_step|]. apply wp_sound_seq; [by apply start_spec|].
  intros r h1 Hso1. apply wp_sound. destruct r as [data|err]; [|wp_step; apply kept_refl, Hso1].
  wp_step. wp_step. destruct (current_in c s ch h1).
  - wp_step. eapply wp_mono.
    + apply publishToServerExcept_kept; [apply Hso1|by apply event_typed_new].
    + intros n h2 Hk. by wp_step.
  - wp_step. eapply wp_mono; [apply drop_stream_kept, Hso1|]. intros r h2 Hk. by wp_step.
Qed.

Lemma watch_spec c p maxS maxP ranges profiles cid h :
  inv h → admitted c h →
  wp (on_streams (stream_watch (client_ident h) c p maxS maxP ranges profiles cid)) (fun r h' =>
    sound h h' ∧ ∀ data publisher sel, r = inl (data, publisher, sel) → ready publisher h') h.
Proof.
  intros Hi Ha. unfold on_streams, wp.
  destruct (stream_watch_run (client_ident h) c p maxS maxP ranges profiles cid
    (h_streams h) (hi_stream _ _ _ Hi)) as (res&Hbest&->). unfold watch_outcome.
  assert (sound h (h <| h_streams := h_streams h |>)) as Hid.
  { assert (h <| h_streams := h_streams h |> = h) as -> by (by destruct h). by apply sound_refl. }
  destruct res as [[r v]|]; [|done]. destruct (decide (_ ∨ _)) as [|Hn]; [done|].
  repeat (case_decide; [done|]). destruct Hbest as (Hr&Hv&_).
  assert (sound h (h <| h_streams := watching c r v
    (selectStreamRendition (as_renditions v) ranges profiles) (h_streams h) |>)) as Hso.
  { apply (sound_streams c); [done|done| |].
    - apply (watching_inv (client_ident h) c r v _ _ (vp_ChannelID p)); [apply (hi_stream _ _ _ Hi)| |done|done].
      apply eq_None_not_Some. naive_solver.
    - intros c'. simpl. rewrite lookup_insert. case_decide; [by left|by right]. }
  split; [done|]. intros ? ? ? [= _ <- _]. apply (so_ready _ _ Hso), stream_ready; [done|].
  apply elem_of_range_values in Hr as [pub Hpub].
  destruct (si_live _ (hi_stream _ _ _ Hi) _ _ _ Hpub) as (v'&st&?&?&?&?&_). simplify_eq. eauto.
Qed.

Lemma WatchStreamWithCapabilities_sound c s ch ranges profiles cids h :
  inv h → admitted c h →
  wp (WatchStreamWithCapabilities (Some c) s ch ranges profiles cids) (fun _ h' => sound h h') h.
Proof.
  intros Hi Ha. pose proof (sound_refl h Hi) as Hrefl. unfold WatchStreamWithCapabilities.
  wp_step; [by wp_step|]. wp_step; [by wp_step|]. wp_step. wp_step. wp_step; [by wp_step|].
  destruct (current_in c s ch h) as [p|] eqn:Hp; [|by wp_step].
  wp_step. eapply wp_mono; [by apply watch_spec|]. intros r h1 [Hso1 Hpub].
  eapply wp_mono; [|intros a h2 Hk; exact (sound_trans _ _ _ Hso1 (kept_sound _ _ Hk))].
  destruct r as [[[data publisher] sel]|err]; [|wp_step; apply kept_refl, Hso1].
  wp_step. wp_step. destruct (current_in c s ch h1).
  2: { wp_step. eapply wp_mono; [apply drop_stream_kept, Hso1|]. intros r h2 Hk. by wp_step. }
  wp_step. eapply (wp_mono _ (fun _ h2 => kept h1 h2)).
  { wp_step; [|wp_step; apply kept_refl, Hso1].
    eapply wp_mono; [apply (hub_enqueue_spec ∅ ∅); [apply Hso1|by apply event_typed_new]|].
    intros ok h2 (Hi2&Hev2&_). split; [done|by apply evolves_ages]. }
  intros ok h2 Hk2. wp_step.
  - wp_step. eapply wp_mono; [apply PublishToServer_kept; [apply Hk2|by apply event_typed_new]|].
    intros n h3 Hk3. wp_step. exact (kept_trans _ _ _ Hk2 Hk3).
  - wp_step. eapply wp_mono.
    { apply Unregister_kept; [apply Hk2|]. eapply ready_ages; [apply Hk2|by eapply Hpub]. }
    intros [] h3 [Hk3 _]. wp_step. exact (kept_trans _ _ _ Hk2 Hk3).
Qed.

Lemma LeaveStream_kept c reason h :
  inv h → wp (LeaveStream (Some c) reason) (fun _ h' => kept h h' ∧
    sst_byClient (h_streams h') !! c = None) h.
Proof.
  intros Hi. unfold LeaveStream. wp_step. eapply wp_mono; [by apply leaveStream_kept|].
  intros r h1 (Hk&Hc&Hheap). destruct r as [[ref pub]|]; [|by wp_step].
  destruct (Hheap ref pub eq_refl) as [v Hv]. wp_step.
  eapply (wp_mono _ (fun a h' => h' = h1)).
  { unfold on_streams, load, wp. rewrite (bind_run get_state _ _ _ _ eq_refl), Hv. by destruct h1. }
  intros a h2 ->. wp_step. wp_step. by wp_step.
Qed.

(** [from] and [target] are the publisher and a viewer of one live
    peer-to-peer stream; [pub] says that [from] is the publisher. *)
Definition p2p_peers (from target : ClientRef) (pub : bool) (s : streamState) : Prop :=
  ∃ r v, stream_room (as_channelID v) s !! as_publisher v = Some r ∧ sst_heap s !! r = Some v ∧
    as_mode v = StreamModeP2P ∧
    if pub then as_publisher v = from ∧ target ∈ as_viewers v
    else as_publisher v = target ∧ from ∈ as_viewers v.

Lemma relationship_peers ident from tid target pub s :
  stream_inv s → stream_relationship ident from tid s = (Some target, pub) →
  p2p_peers from target pub s ∧ id_ConnectionID (ident target) = tid.
Proof.
  intros Hi. unfold stream_relationship. destruct (sst_byClient s !! from) as [st|] eqn:Hst; [|done].
  destruct (si_client _ Hi _ _ Hst) as (v&Hv&Hroom&Hcase). rewrite Hv.
  destruct (String.eqb_spec (as_mode v) StreamModeP2P) as [Hm|]; [|done]. simpl.
  destruct (sk_publisher st).
  - intros [= Hf <-]. apply List.find_some in Hf as [Hin Hid].
    apply list_elem_of_In, elem_of_range_set in Hin. apply String.eqb_eq in Hid.
    split; [|done]. by exists (sk_stream st), v.
  - destruct (String.eqb_spec (id_ConnectionID (ident (as_publisher v))) tid); [|done].
    intros [= <- <-]. split; [|done]. by exists (sk_stream st), v.
Qed.

Lemma peers_entry from target pub s :
  stream_inv s → p2p_peers from target pub s → is_Some (sst_byClient s !! target).
Proof.
  intros Hi (r&v&Hr&Hv&_&Hp). destruct pub; destruct Hp as [Hp Hin].
  - destruct (si_viewer _ Hi _ _ _ _ _ Hr Hv Hin) as (st&?&_). eauto.
  - destruct (si_live _ Hi _ _ _ Hr) as (?&st&?&?&?&?&_). subst. eauto.
Qed.

Lemma relay_to_kept c e h :
  inv h → event_typed e → ready c h → wp (relay_to c e) (fun _ h' => kept h h') h.
Proof. intros. by apply relay_kept. Qed.

Lemma peer_ready ident from tid target pub h :
  inv h → stream_relationship ident from tid (h_streams h) = (Some target, pub) → ready target h.
Proof.
  intros Hi Hrel. apply stream_ready; [done|].
  eapply peers_entry; [|eapply relationship_peers; [|done]]; apply (hi_stream _ _ _ Hi).
Qed.

Lemma RelayStreamP2PSession_kept c tid sdp t h :
  inv h → t ≠ EventChannelSyncRequired →
  wp (RelayStreamP2PSession c tid sdp t) (fun _ h' => kept h h') h.
Proof.
  intros Hi Ht. unfold RelayStreamP2PSession. wp_step. wp_step.
  destruct (stream_relationship _ _ _ _) as [[target|] pub] eqn:Hrel; [|wp_step; by apply kept_refl].
  wp_step; [wp_step; by apply kept_refl|].
  apply relay_to_kept; [done|by apply event_typed_new|by eapply peer_ready].
Qed.

Lemma RelayStreamP2PICECandidate_kept c data h :
  inv h → wp (RelayStreamP2PICECandidate c data) (fun _ h' => kept h h') h.
Proof.
  intros Hi. unfold RelayStreamP2PICECandidate. wp_step. wp_step.
  destruct (stream_relationship _ _ _ _) as [[target|] pub] eqn:Hrel; [|wp_step; by apply kept_refl].
  apply relay_to_kept; [done|by apply event_typed_new|by eapply peer_ready].
Qed.

Lemma RequestStreamP2PRestart_kept c tid h :
  inv h → wp (RequestStreamP2PRestart c tid) (fun _ h' => kept h h') h.
Proof.
  intros Hi. unfold RequestStreamP2PRestart. wp_step. wp_step.
  destruct (stream_relationship _ _ _ _) as [[target|] []] eqn:Hrel;
    try (wp_step; by apply kept_refl).
  apply relay_to_kept; [done|by apply event_typed_new|by eapply peer_ready].
Qed.

(** ** Media sessions *)

Lemma CloseVoice_kept k reason h : inv h → wp (CloseVoice k reason) (fun _ h' => kept h h') h.
Proof.
  intros Hi. unfold CloseVoice. wp_step. wp_step.
  destruct (clientByConnectionID k h) as [c|]; [|wp_step; by apply kept_refl].
  apply wp_kept; [by apply LeaveVoice_kept|]. intros _ h1 Hk1. wp_step. eapply wp_mono.
  - apply SendToConnection_kept; [apply Hk1|apply voice_closed_typed].
  - intros b h2 Hk2. by wp_step.
Qed.

Lemma CloseStream_kept k reason h : inv h → wp (CloseStream k reason) (fun _ h' => kept h h') h.
Proof.
  intros Hi. unfold CloseStream. wp_step. wp_step.
  destruct (clientByConnectionID k h) as [c|]; [|wp_step; by apply kept_refl].
  apply wp_kept; [eapply wp_mono; [by apply LeaveStream_kept|]; by intros r h1 [? _]|].
  intros _ h1 Hk1. wp_step. eapply wp_mono.
  - apply SendToConnection_kept; [apply Hk1|by apply event_typed_new].
  - intros b h2 Hk2. by wp_step.
Qed.

Lemma voice_failure_kept k h0 reason h :
  inv h → wp (voice_SessionFailureHandler k h0 reason) (fun _ h' => kept h h') h.
Proof.
  intros Hi. unfold voice_SessionFailureHandler.
  destruct (clientByConnectionID k h0) as [c|]; [|wp_step; by apply kept_refl]. wp_step. wp_step.
  repeat case_match; try (wp_step; by apply kept_refl). by apply CloseVoice_kept.
Qed.

Lemma stream_failure_kept k h0 reason h :
  inv h → wp (stream_SessionFailureHandler k h0 reason) (fun _ h' => kept h h') h.
Proof.
  intros Hi. unfold stream_SessionFailureHandler.
  destruct (clientByConnectionID k h0) as [c|]; [|wp_step; by apply kept_refl]. wp_step. wp_step.
  repeat case_match; try (wp_step; by apply kept_refl). by apply CloseStream_kept.
Qed.
End media.
