(* ===== verification/HubSystem.v ===== *)
(** * The hub as a system: requests, reachable states

    Every way the rest of the program calls into the hub is a [request];
    [exec] runs it. The system allocates connections with identifiers drawn
    from the connection counter, registers them, and lets the accepted ones
    issue requests. The invariant of [HubInv] holds in every reachable state,
    and in every reachable state every request returns. A second transition
    system runs a registration in two steps, as [Register] does, with any
    requests in between. *)

From S2P Require Import Prelude Events Client ClientFacts ClientAccess.
From S2P Require Import VoiceState VoiceFacts StreamState StreamFacts.
From S2P Require Import Hub HubInv HubSpecs HubOps HubReach HubGrow MediaHub Publishers HubMedia.

(** ** Requests *)

(** Calls made on behalf of one connection. *)
Inductive client_request :=
  | RqSubscribe (s ch : Z)
  | RqUnsubscribe (ch : Z)
  | RqUnregister
  | RqPop
  | RqSend (e : OutgoingEvent)
  | RqMessageSync
  | RqMultipleStreams
  | RqClose (reason : string)
  | RqJoinVoice (s ch : Z) (mute deaf : bool) (device : string)
  | RqUpdateVoice (mute deaf : bool) (video : option bool)
  | RqLeaveVoice
  | RqRelayE2EE (request : bool) (data : E2EERelayData)
  | RqStartStream (s ch : Z) (mode codec : string) (audio : bool) (rs : list StreamRenditionData)
  | RqWatchStream (s ch : Z) (ranges : list StreamDynamicRange)
      (profiles : list StreamCodecProfileData) (publishers : list string)
  | RqLeaveStream (reason : string)
  | RqP2PSession (target sdp : string) (answer : bool)
  | RqP2PCandidate (data : StreamP2PICECandidateData)
  | RqP2PRestart (target : string).

(** Calls made by the services, the media managers and the configuration. *)
Inductive service_request :=
  | SvRevokeSession (key : string)
  | SvRevokeUser (u s : Z)
  | SvRevokeServer (s : Z)
  | SvAddUser (u s : Z)
  | SvRefreshAccess (s : Z)
  | SvRefreshRoles (s : Z)
  | SvRemoveChannel (ch : Z)
  | SvShutdown
  | SvPublish (ch : Z) (e : OutgoingEvent)
  | SvPublishExcept (ch : Z) (e : OutgoingEvent) (except : option ClientRef)
  | SvPublishToUser (u : Z) (e : OutgoingEvent)
  | SvPublishToChannelAndUser (ch u : Z) (e : OutgoingEvent)
  | SvPublishToServer (s : Z) (e : OutgoingEvent)
  | SvReactions (state : ReactionState)
  | SvChannelCreated (value : Channel)
  | SvChannelUpdated (value : Channel)
  | SvChannelDeleted (value : Channel)
  | SvMemberJoined (s : Z) (member : ServerMemberData)
  | SvMemberRole (s : Z) (member : ServerMemberData)
  | SvResetVoice (ch : Z) (reason : string)
  | SvRevalidate (u : Z)
  | SvSend (connectionID : string) (e : OutgoingEvent)
  | SvCloseVoice (connectionID reason : string)
  | SvCloseStream (connectionID reason : string)
  | SvVoiceFailure (connectionID : string) (since : Hub) (reason : string)
  | SvStreamFailure (connectionID : string) (since : Hub) (reason : string)
  | SvClock (now : Z)
  | SvAccessLoader (loader : Z → option (option (gset Z)))
  | SvAccessBatchLoader (loader : list Z → option (gmap Z (gset Z)))
  | SvRoleLoader (loader : Z → Z → option Z)
  | SvDeviceValidator (check : Z → string → option bool)
  | SvVoiceCloser
  | SvStreamCloser (maxServer maxP2P : Z)
  | SvLastSeenSaver.

Section exec.
Context `{MapOrder} `{Sched : Schedule}.

Definition ignore {A} (m : M Hub A) : M Hub unit := m ;; mret tt.

Definition exec_client (c : ClientRef) (r : client_request) : M Hub unit :=
  match r with
  | RqSubscribe s ch => ignore (Subscribe (Some c) s ch)
  | RqUnsubscribe ch => ignore (Unsubscribe c ch)
  | RqUnregister => Unregister c
  | RqPop => ignore (on_client c PopOutgoing)
  | RqSend e => ignore (hub_enqueue c e)
  | RqMessageSync => update_client c EnableMessageSync
  | RqMultipleStreams => update_client c EnableMultipleStreams
  | RqClose reason => update_client c (CloseWithReason reason)
  | RqJoinVoice s ch m d dev => ignore (JoinVoiceWithDevice (Some c) s ch m d dev)
  | RqUpdateVoice m d v => ignore (UpdateVoiceState (Some c) m d v)
  | RqLeaveVoice => ignore (LeaveVoice (Some c))
  | RqRelayE2EE request data =>
      ignore (RelayVoiceE2EE c (if request then EventE2EEKeyRequest else EventE2EEKey) data)
  | RqStartStream s ch mode codec audio rs =>
      ignore (StartStreamWithRenditions (Some c) s ch mode codec audio rs)
  | RqWatchStream s ch ranges profiles publishers =>
      ignore (WatchStreamWithCapabilities (Some c) s ch ranges profiles publishers)
  | RqLeaveStream reason => ignore (LeaveStream (Some c) reason)
  | RqP2PSession target sdp answer =>
      ignore (RelayStreamP2PSession c target sdp
        (if answer then EventStreamP2PAnswer else EventStreamP2POffer))
  | RqP2PCandidate data => ignore (RelayStreamP2PICECandidate c data)
  | RqP2PRestart target => ignore (RequestStreamP2PRestart c target)
  end.

Definition exec_service (r : service_request) : M Hub unit :=
  match r with
  | SvRevokeSession key => revokeSessionKey key
  | SvRevokeUser u s => RevokeUserFromServer u s
  | SvRevokeServer s => RevokeServer s
  | SvAddUser u s => AddUserToServer u s
  | SvRefreshAccess s => RefreshChannelAccess s
  | SvRefreshRoles s => RefreshRolePermissions s
  | SvRemoveChannel ch => RemoveChannel ch
  | SvShutdown => hub_Close
  | SvPublish ch e => ignore (Publish ch e)
  | SvPublishExcept ch e x => ignore (PublishExcept ch e x)
  | SvPublishToUser u e => ignore (PublishToUser u e)
  | SvPublishToChannelAndUser ch u e => ignore (PublishToChannelAndUser ch u e)
  | SvPublishToServer s e => ignore (PublishToServer Unregister s e)
  | SvReactions state => PublishReactionsChanged state
  | SvChannelCreated v => PublishChannelCreated v
  | SvChannelUpdated v => PublishChannelUpdated v
  | SvChannelDeleted v => PublishChannelDeleted v
  | SvMemberJoined s m => PublishServerMemberJoined s m
  | SvMemberRole s m => PublishServerMemberRoleUpdated s m
  | SvResetVoice ch reason => ResetVoiceChannel ch reason
  | SvRevalidate u => RevalidateVoiceE2EE u
  | SvSend k e => ignore (SendToConnection Unregister k e)
  | SvCloseVoice k reason => CloseVoice k reason
  | SvCloseStream k reason => CloseStream k reason
  | SvVoiceFailure k since reason => voice_SessionFailureHandler k since reason
  | SvStreamFailure k since reason => stream_SessionFailureHandler k since reason
  | SvClock now => modify (fun h => h <| h_now := now |>)
  | SvAccessLoader loader => SetChannelAccessLoader loader
  | SvAccessBatchLoader loader => SetChannelAccessBatchLoader loader
  | SvRoleLoader loader => SetRolePermissionLoader loader
  | SvDeviceValidator check => SetVoiceDeviceValidator check
  | SvVoiceCloser => SetVoiceSessionCloser
  | SvStreamCloser s p => SetStreamSessionCloser s p
  | SvLastSeenSaver => SetLastSeenSaver
  end.

(** Only the queue itself creates catch-up markers. *)
Definition well_typed (e : OutgoingEvent) : Prop := oe_Type e ≠ EventChannelSyncRequired.
Definition client_request_ok (r : client_request) : Prop :=
  match r with RqSend e => well_typed e | _ => True end.
Definition service_request_ok (r : service_request) : Prop :=
  match r with
  | SvPublish _ e | SvPublishExcept _ e _ | SvPublishToUser _ e | SvPublishToChannelAndUser _ _ e
  | SvPublishToServer _ e | SvSend _ e => well_typed e
  | _ => True
  end.

(** ** Every request keeps the invariant *)

Lemma well_typed_event e : well_typed e → event_typed e.
Proof. intros He Ht. by destruct He. Qed.

Lemma wp_ignore {A} (m : M Hub A) (Q : Hub → Prop) h :
  wp m (fun _ h' => Q h') h → wp (ignore m) (fun _ h' => Q h') h.
Proof. intros Hm. unfold ignore. wp_step. eapply wp_mono; [done|]. intros a h' Ha. by wp_step. Qed.

(** Steps inside one client. *)
Lemma client_local_kept c f h :
  inv h → (∀ cl, same_links cl (f cl)) → (∀ cl, client_ok cl → client_ok (f cl)) →
  wp (update_client c f) (fun _ h' => kept h h') h.
Proof.
  intros Hi Hl Hok. unfold update_client, on_client, wp. simpl.
  pose proof (same_shape_put c (f (client_at c h)) h (Hl _)) as Hs.
  split; [|by apply same_shape_ages]. eapply hub_inv_shape; [done| |done].
  apply client_ok_put; [apply Hok|]; apply (hi_client _ _ _ Hi).
Qed.

Lemma pop_links c : wp PopOutgoing (fun _ c' => same_links c c') c.
Proof. unfold PopOutgoing. wp_steps; repeat case_match; wp_steps; done. Qed.

Lemma pop_kept c h : inv h → wp (on_client c PopOutgoing) (fun _ h' => kept h h') h.
Proof.
  intros Hi. pose proof (pop_links (client_at c h)) as Hl.
  pose proof (client_ok_pop (client_at c h) (hi_client _ _ _ Hi c)) as Hok.
  unfold on_client, wp in *. destruct (PopOutgoing _) as [[r cl]| |]; [|done..].
  pose proof (same_shape_put c cl h Hl) as Hs. split; [|by apply same_shape_ages].
  eapply hub_inv_shape; [done| |done]. apply client_ok_put; [done|apply (hi_client _ _ _ Hi)].
Qed.

(** *** The publishers *)

Lemma reaction_event_typed state u (m : gmap Z OutgoingEvent) :
  map_Forall (fun _ e => event_typed e) m →
  event_typed (default (shareEncoding (new_event EventMessageReactionsChanged
    (DReactions (ForUser state u)))) (m !! u)).
Proof.
  intros Hm. destruct (m !! u) as [e|] eqn:He; simpl; [by eapply Hm|].
  by apply event_typed_share, event_typed_new.
Qed.

Lemma deliver_reactions_kept state m c h :
  inv h → ready c h → map_Forall (fun _ e => event_typed e) m →
  wp (deliver_reactions state m c) (fun m' h' =>
    kept h h' ∧ map_Forall (fun _ e => event_typed e) m') h.
Proof.
  intros Hi Hr Hm. unfold deliver_reactions. wp_step. wp_step.
  pose proof (reaction_event_typed state (cl_userID (client_at c h)) m Hm) as He.
  set (e := default _ _) in *. wp_step. eapply wp_mono; [by apply (hub_enqueue_spec ∅ ∅)|].
  intros ok h1 (Hi1&Hev1&_). assert (kept h h1) as Hk1 by (split; [done|by apply evolves_ages]).
  wp_step. eapply (wp_mono _ (fun _ h' => kept h1 h')).
  { wp_step; [|by apply kept_refl]. eapply wp_mono.
    - apply Unregister_kept; [done|]. eapply ready_ages; [apply Hk1|done].
    - by intros [] h2 [? _]. }
  intros [] h2 Hk2. wp_step. split; [exact (kept_trans _ _ _ Hk1 Hk2)|].
  by apply map_Forall_insert_2.
Qed.

Lemma reactions_kept state h : inv h → wp (PublishReactionsChanged state) (fun _ h' => kept h h') h.
Proof.
  intros Hi. unfold PublishReactionsChanged. wp_step. wp_step. unfold getRoom.
  destruct (h_rooms h !! _) as [r|] eqn:Hr; [|wp_step; by apply kept_refl].
  wp_step. eapply wp_mono.
  { apply (wp_fold_each (room_snapshot r) ∅ (deliver_reactions state) (fun _ m h' =>
      kept h h' ∧ map_Forall (fun _ e => event_typed e) m)).
    - split; [by apply kept_refl|apply map_Forall_empty].
    - intros pre c rest m h1 Hl [Hk1 Hm]. eapply wp_mono; [apply deliver_reactions_kept; [apply Hk1| |done]|].
      + eapply ready_ages; [apply Hk1|]. eapply room_member_ready; [done|done|].
        apply elem_of_range_set. unfold room_snapshot in Hl. rewrite Hl. set_solver.
      + intros m' h2 [Hk2 ?]. split; [exact (kept_trans _ _ _ Hk1 Hk2)|done]. }
  intros m h1 [Hk _]. by wp_step.
Qed.

Lemma to_server_kept s e h :
  inv h → event_typed e →
  wp (PublishToServer Unregister s e ;; mret tt) (fun _ h' => kept h h') h.
Proof.
  intros Hi He. wp_step. eapply wp_mono; [by apply PublishToServer_kept|]. intros n h1 Hk. by wp_step.
Qed.

Lemma publishChannel_kept t value h :
  inv h → t ≠ EventChannelSyncRequired → wp (publishChannel t value) (fun _ h' => kept h h') h.
Proof.
  intros Hi Ht. unfold publishChannel. apply wp_kept.
  { wp_step; [by apply RefreshChannelAccess_kept|by apply kept_refl]. }
  intros [] h1 Hk1. apply to_server_kept; [apply Hk1|by apply event_typed_new].
Qed.

Lemma RemoveChannel_kept ch h : inv h → wp (RemoveChannel ch) (fun _ h' => kept h h') h.
Proof.
  intros Hi. destruct (decide (0 < ch)%Z) as [Hch|Hch].
  - eapply wp_mono; [by apply RemoveChannel_gone|]. by intros [] h1 [? _].
  - unfold RemoveChannel. rewrite (proj2 (Z.leb_le _ _)) by lia. wp_step. by apply kept_refl.
Qed.

Lemma channelDeleted_kept value h :
  inv h → wp (PublishChannelDeleted value) (fun _ h' => kept h h') h.
Proof.
  intros Hi. unfold PublishChannelDeleted. apply wp_kept.
  { by apply PublishToServer_kept; [|apply event_typed_new]. }
  intros _ h1 Hk1. apply wp_kept; [apply RemoveChannel_kept, Hk1|].
  intros [] h2 Hk2. apply RefreshChannelAccess_kept, Hk2.
Qed.

Lemma memberChanged_kept t s m h :
  inv h → t ≠ EventChannelSyncRequired → wp (publishMemberChanged t s m) (fun _ h' => kept h h') h.
Proof.
  intros Hi Ht. unfold publishMemberChanged. apply wp_kept; [by apply RefreshChannelAccess_kept|].
  intros [] h1 Hk1. apply to_server_kept; [apply Hk1|by apply event_typed_new].
Qed.

(** *** Requests *)

Lemma RevokeUser_kept u s h : inv h → wp (RevokeUserFromServer u s) (fun _ h' => kept h h') h.
Proof.
  intros Hi. destruct (decide (0 < u ∧ 0 < s)%Z) as [[Hu Hs]|Hn].
  - eapply wp_mono; [by apply RevokeUserFromServer_spec|]. by intros [] h1 [? _].
  - unfold RevokeUserFromServer. assert ((u <=? 0)%Z || (s <=? 0)%Z = true) as ->.
    { apply orb_true_iff. rewrite !Z.leb_le. lia. }
    wp_step. by apply kept_refl.
Qed.

Lemma RevokeServer_kept s h : inv h → wp (RevokeServer s) (fun _ h' => kept h h') h.
Proof.
  intros Hi. destruct (decide (0 < s)%Z) as [Hs|Hn].
  - eapply wp_mono; [by apply RevokeServer_spec|]. by intros [] h1 [? _].
  - unfold RevokeServer. rewrite (proj2 (Z.leb_le _ _)) by lia. wp_step. by apply kept_refl.
Qed.

Lemma shape_kept h h' : inv h → same_shape h h' → (∀ c, client_at c h' = client_at c h) → kept h h'.
Proof.
  intros Hi Hs Hc. split; [|by apply same_shape_ages]. eapply hub_inv_shape; [done| |done].
  intros c. rewrite Hc. apply (hi_client _ _ _ Hi).
Qed.

Lemma kept_pair {A} (m : M Hub A) (Q : A → Hub → Prop) h :
  wp m (fun a h' => kept h h' ∧ Q a h') h → wp m (fun _ h' => kept h h') h.
Proof. intros Hm. eapply wp_mono; [done|]. by intros a h' [? _]. Qed.

Lemma exec_service_sound r h :
  inv h → service_request_ok r → wp (exec_service r) (fun _ h' => sound h h') h.
Proof.
  intros Hi Hr. destruct r; simpl in Hr |- *;
    try apply well_typed_event in Hr; try (by apply AddUserToServer_sound); apply wp_sound;
    try (apply wp_ignore).
  all: try (by eauto using RevokeUser_kept, RevokeServer_kept, RefreshChannelAccess_kept,
    RefreshRolePermissions_kept, RemoveChannel_kept, Publish_kept, PublishExcept_kept,
    PublishToUser_kept, PublishToChannelAndUser_kept, PublishToServer_kept, reactions_kept,
    channelDeleted_kept, SendToConnection_kept, CloseVoice_kept, CloseStream_kept,
    voice_failure_kept, stream_failure_kept).
  all: try (by apply publishChannel_kept || by apply memberChanged_kept).
  - exact (kept_pair _ _ _ (revokeSessionKey_spec key h Hi)).
  - exact (kept_pair _ _ _ (hub_Close_spec h Hi)).
  - by apply PublishToServer_kept; [|apply event_typed_new].
  - exact (kept_pair _ _ _ (ResetVoiceChannel_empties ch reason h Hi)).
  - exact (kept_pair _ _ _ (RevalidateVoiceE2EE_evicts u h Hi)).
  - wp_step. by apply shape_kept.
  - unfold SetChannelAccessLoader. wp_step. by apply shape_kept.
  - unfold SetChannelAccessBatchLoader. wp_step. by apply shape_kept.
  - unfold SetRolePermissionLoader. wp_step. by apply shape_kept.
  - unfold SetVoiceDeviceValidator. wp_step. by apply shape_kept.
  - unfold SetVoiceSessionCloser. wp_step. by apply shape_kept.
  - unfold SetStreamSessionCloser. wp_steps; by apply shape_kept.
  - unfold SetLastSeenSaver. wp_step. by apply shape_kept.
Qed.

Lemma exec_client_sound c r h :
  inv h → admitted c h → client_request_ok r → wp (exec_client c r) (fun _ h' => sound h h') h.
Proof.
  intros Hi Ha Hr. pose proof (proj1 Ha) as Hready.
  destruct r; cbn [exec_client client_request_ok] in Hr |- *; try apply wp_ignore;
    try (by eauto using Subscribe_sound, JoinVoiceWithDevice_sound, UpdateVoiceState_sound,
      StartStreamWithRenditions_sound, WatchStreamWithCapabilities_sound); apply wp_sound;
    try (by eauto using Unsubscribe_kept, pop_kept, LeaveVoice_kept, RelayStreamP2PICECandidate_kept,
      RequestStreamP2PRestart_kept).
  - exact (kept_pair _ _ _ (Unregister_kept c h Hi Hready)).
  - apply well_typed_event in Hr. eapply wp_mono; [by apply (hub_enqueue_spec ∅ ∅)|].
    intros ok h1 (Hi1&Hev1&_). split; [done|by apply evolves_ages].
  - apply client_local_kept; [done|by split|]. intros cl. by apply (client_step_ok cl), step_message_sync.
  - apply client_local_kept; [done|by split|]. intros cl. by apply (client_step_ok cl), step_multiple_streams.
  - apply client_local_kept; [done|apply close_links|]. intros cl. by apply (client_step_ok cl), step_close.
  - apply RelayVoiceE2EE_kept; [done|]. by destruct request.
  - exact (kept_pair _ _ _ (LeaveStream_kept c reason h Hi)).
  - apply RelayStreamP2PSession_kept; [done|]. by destruct answer.
Qed.
End exec.

(** ** The system *)

(** [sy_counter] is the last value of the global connection counter;
    [sy_accepted] holds the connections [Register] has accepted. *)
Record System := mkSystem { sy_hub : Hub; sy_counter : N; sy_accepted : gset ClientRef }.

Definition init_system : System := mkSystem NewHub 0 ∅.

(** [NewClient] allocated at [c]. *)
Definition connect (c : ClientRef) (id : string) (u : Z) (key : string) (servers : list Z)
    (h : Hub) : Hub :=
  h <| h_mem ::= <[c := NewClient id u key servers]> |>.

Lemma and_iff_under (A B C : Prop) : (A → B ↔ C) → A ∧ B ↔ A ∧ C.
Proof. tauto. Qed.

Section system.
Context `{MapOrder} `{Sched : Schedule}.

Inductive sys_step (y : System) : System → Prop :=
  | sys_connect c u key servers :
      (sy_counter y + 1 < 2 ^ 64)%N → cl_connectionID (client_at c (sy_hub y)) = "" →
      sys_step y (mkSystem
        (connect c (newConnectionID (sy_counter y + 1)) u key servers (sy_hub y))
        (sy_counter y + 1) (sy_accepted y))
  | sys_register c ok h :
      cl_connectionID (client_at c (sy_hub y)) ≠ "" → Register (Some c) (sy_hub y) = Ok (ok, h) →
      sys_step y (mkSystem h (sy_counter y)
        (if ok : bool then {[c]} ∪ sy_accepted y else sy_accepted y))
  | sys_client c r h :
      c ∈ sy_accepted y → client_request_ok r → exec_client c r (sy_hub y) = Ok (tt, h) →
      sys_step y (mkSystem h (sy_counter y) (sy_accepted y))
  | sys_service r h :
      service_request_ok r → exec_service r (sy_hub y) = Ok (tt, h) →
      sys_step y (mkSystem h (sy_counter y) (sy_accepted y)).

Record sys_inv (y : System) : Prop := {
  yi_inv : inv (sy_hub y);
  yi_named : named (sy_hub y);
  yi_accepted : ∀ c, c ∈ sy_accepted y → admitted c (sy_hub y);
  yi_counter : (sy_counter y < 2 ^ 64)%N;
  yi_ids : ∀ c, cl_connectionID (client_at c (sy_hub y)) = "" ∨
    ∃ k, (k <= sy_counter y)%N ∧ cl_connectionID (client_at c (sy_hub y)) = newConnectionID k;
  yi_unique : ∀ c, cl_connectionID (client_at c (sy_hub y)) ≠ "" → unique_id c (sy_hub y)
}.

Lemma new_hub_inv : inv NewHub.
Proof.
  assert (∀ c, subs_of c NewHub = ∅) as Hsub by done.
  assert (∀ c, c ∉ h_clients NewHub) as Hcl by (intros c; apply not_elem_of_empty).
  split; try done.
  - intros c. apply NewClient_ok.
  - apply voice_inv_new.
  - apply stream_inv_new.
  - intros u c. unfold index_get. simpl. rewrite lookup_empty. set_solver.
  - intros k c. unfold index_get. simpl. rewrite lookup_empty. set_solver.
  - intros k c. unfold index_get. simpl. rewrite lookup_empty. set_solver.
  - intros k c. simpl. rewrite lookup_empty. set_solver.
  - intros ch c. rewrite Hsub, lookup_empty. unfold room_members. simpl. rewrite lookup_empty.
    split; [set_solver|by intros []].
  - intros c ch. rewrite Hsub, lookup_empty. by intros [].
  - intros c. simpl. rewrite lookup_empty. by intros [].
  - intros c. simpl. rewrite lookup_empty. by intros [].
Qed.

Lemma init_inv : sys_inv init_system.
Proof.
  split; simpl; [apply new_hub_inv|..]; try done; try (intros; by left).
  - intros c [?|[Hs|Hs]]; [set_solver|..]; simpl in Hs; rewrite lookup_empty in Hs; by destruct Hs.
Qed.

(** Allocating a connection touches nothing that is registered. *)
Lemma connect_client c id u key servers h c' :
  client_at c' (connect c id u key servers h) =
  if decide (c' = c) then NewClient id u key servers else client_at c' h.
Proof. apply client_at_insert. Qed.

Lemma connect_inv c id u key servers h :
  inv h → named h → cl_connectionID (client_at c h) = "" →
  (∀ c', cl_connectionID (client_at c' h) ≠ id) → inv (connect c id u key servers h).
Proof.
  intros Hi Hn Hfree Hid. set (h' := connect c id u key servers h).
  assert (∀ c', c' ∈ h_clients h ∨ is_Some (vs_byClient (h_voice h) !! c') ∨
    is_Some (sst_byClient (h_streams h) !! c') → client_at c' h' = client_at c' h) as Hsame.
  { intros c' Hc'. unfold h'. rewrite connect_client. case_decide; [|done]. subst. by destruct (Hn c). }
  assert (subs_of c h = ∅) as Hsc.
  { apply dec_stable. intros Hs%(hi_sub_live _ _ _ Hi). destruct (Hn c); [left; set_solver|done]. }
  assert (∀ c', subs_of c' h' = subs_of c' h) as Hsub.
  { intros c'. unfold subs_of, h'. rewrite connect_client. case_decide; [|done]. subst. symmetry. exact Hsc. }
  split; try apply Hi.
  - intros c'. unfold h'. rewrite connect_client. case_decide; [apply NewClient_ok|apply (hi_client _ _ _ Hi)].
  - destruct (hi_voice _ _ _ Hi) as [? ? ? Hvid]. split; try done. intros c' p Hp.
    unfold client_ident. rewrite Hsame by eauto. by apply Hvid.
  - intros u' c'. etrans; [apply (hi_user _ _ _ Hi)|]. apply and_iff_under. intros Hc'.
    unfold user_of. by rewrite Hsame by auto.
  - intros k c'. etrans; [apply (hi_session _ _ _ Hi)|]. apply and_iff_under. intros Hc'.
    by rewrite Hsame by auto.
  - intros s c'. etrans; [apply (hi_server _ _ _ Hi)|]. apply and_iff_under. intros Hc'.
    unfold servers_of. by rewrite Hsame by auto.
  - intros k c'. etrans; [apply (hi_conn _ _ _ Hi)|]. apply and_iff_under. intros Hc'.
    by rewrite Hsame by auto.
  - intros ch c'. rewrite Hsub. apply (hi_room _ _ _ Hi).
  - intros c' ch. rewrite Hsub. apply (hi_sub_pos _ _ _ Hi).
  - intros c'. rewrite Hsub. apply (hi_sub_live _ _ _ Hi).
  - intros c' Hv. unfold servers_of. rewrite Hsame by auto. by apply (hi_voice_live _ _ _ Hi).
  - intros c' Hs. unfold servers_of. rewrite Hsame by auto. by apply (hi_stream_live _ _ _ Hi).
  - intros Hser s' u'. etrans; [by apply (hi_presence _ _ _ Hi)|]. do 2 f_equal. apply set_eq. intros c'.
    unfold connections. rewrite !elem_of_filter. rewrite !(and_comm (_ ∧ _)). apply and_iff_under.
    intros Hc'. unfold servers_of, user_of. rewrite Hsame; [done|]. left. set_solver.
  - intros c1 c2 Hc1. rewrite (Hsame c1) by auto. unfold h'. rewrite connect_client.
    case_decide; [|by apply (hi_unique _ _ _ Hi)]. intros He. by destruct (Hid c1).
Qed.

Lemma connect_sys c u key servers y :
  sys_inv y → (sy_counter y + 1 < 2 ^ 64)%N → cl_connectionID (client_at c (sy_hub y)) = "" →
  sys_inv (mkSystem (connect c (newConnectionID (sy_counter y + 1)) u key servers (sy_hub y))
    (sy_counter y + 1) (sy_accepted y)).
Proof.
  intros [Hi Hn Ha Hc Hids Hun] Hlt Hfree. set (id := newConnectionID (sy_counter y + 1)).
  assert (∀ c', cl_connectionID (client_at c' (sy_hub y)) ≠ id) as Hid.
  { intros c' He. destruct (Hids c') as [E|(k&Hk&E)]; rewrite He in E.
    - by apply newConnectionID_nonempty in E.
    - apply newConnectionID_inj in E; lia. }
  split; simpl.
  - by apply connect_inv.
  - intros c' Hc'. rewrite connect_client. case_decide; [apply newConnectionID_nonempty|by apply Hn].
  - intros c' Hc'. destruct (Ha c' Hc') as [Hr Hne]. unfold admitted, ready, settled, servers_of in *.
    rewrite connect_client. by rewrite decide_False by (intros ->; done).
  - done.
  - intros c'. rewrite connect_client. case_decide; [right; exists (sy_counter y + 1)%N; split; [lia|done]|].
    destruct (Hids c') as [?|(k&?&?)]; [by left|right; exists k; split; [lia|done]].
  - intros c1 Hne c2. rewrite !connect_client. rewrite connect_client in Hne.
    destruct (decide (c1 = c)) as [->|H1], (decide (c2 = c)) as [->|H2]; try done.
    + intros He. by destruct (Hid c2).
    + intros He. by destruct (Hid c1).
    + by apply Hun.
Qed.

(** The other steps keep identities. *)
Lemma sound_sys h y acc :
  sys_inv y → sound (sy_hub y) h → (∀ c, c ∈ acc → c ∈ sy_accepted y ∨ admitted c h) →
  sys_inv (mkSystem h (sy_counter y) acc).
Proof.
  intros [Hi Hn Ha Hc Hids Hun] Hso Hacc.
  assert (∀ c, cl_connectionID (client_at c h) = cl_connectionID (client_at c (sy_hub y))) as Hid.
  { intros c. apply ident_conn, (so_ident _ _ Hso). }
  split; simpl; [apply Hso|by apply (so_named _ _ Hso)| |done|..].
  - intros c [Hin|?]%Hacc; [|done]. by eapply admitted_sound; [|apply Ha].
  - intros c. rewrite Hid. apply Hids.
  - intros c. rewrite Hid. intros Hne c'. rewrite !Hid. by apply Hun.
Qed.

Lemma sys_step_inv y y' : sys_inv y → sys_step y y' → sys_inv y'.
Proof.
  intros Hy Hstep. pose proof (yi_inv _ Hy) as Hi. destruct Hstep as
    [c u key servers Hlt Hfree|c ok h Hne Hrun|c r h Hin Hok Hrun|r h Hok Hrun].
  - by apply connect_sys.
  - pose proof (Register_sound c _ Hi (yi_unique _ Hy c Hne) Hne) as Hwp.
    apply (wp_result _ _ _ _ _ Hwp) in Hrun as [Hso Hr]. apply sound_sys; [done|done|].
    intros c'. destruct ok; [|by left]. intros [->%elem_of_singleton|?]%elem_of_union; [right|by left].
    split; [exact (proj1 Hr)|]. by rewrite (ident_conn (sy_hub y)) by apply (so_ident _ _ Hso).
  - pose proof (exec_client_sound c r _ Hi (yi_accepted _ Hy c Hin) Hok) as Hwp.
    apply (wp_result _ _ _ _ _ Hwp) in Hrun. apply sound_sys; [done|done|by left].
  - pose proof (exec_service_sound r _ Hi Hok) as Hwp.
    apply (wp_result _ _ _ _ _ Hwp) in Hrun. apply sound_sys; [done|done|by left].
Qed.

Lemma reachable_inv y : rtc sys_step init_system y → sys_inv y.
Proof.
  intros Hr. assert (Hi := init_inv). induction Hr; eauto using sys_step_inv.
Qed.

(** *** Registrations in two steps

    [Register] releases [clientsMu] before it counts the connection and sends
    it the voice and stream snapshots: other requests run in between. Here a
    state is a system together with the connections whose registration is at
    that point; [race_other] is any step of the system above, so requests,
    other registrations and revocations come between the two parts in any
    number and order - also the requests that take [channelAccessMu] for
    writing, which the code makes wait for the end of the registration. *)
Inductive race_step : System * gset ClientRef → System * gset ClientRef → Prop :=
  | race_begin y pending c h :
      cl_connectionID (client_at c (sy_hub y)) ≠ "" → Register_begin c (sy_hub y) = Ok (true, h) →
      race_step (y, pending) (mkSystem h (sy_counter y) (sy_accepted y), {[c]} ∪ pending)
  | race_end y pending c h :
      c ∈ pending → Register_end c (sy_hub y) = Ok (tt, h) →
      race_step (y, pending)
        (mkSystem h (sy_counter y) ({[c]} ∪ sy_accepted y), pending ∖ {[c]})
  | race_other y pending y' : sys_step y y' → race_step (y, pending) (y', pending).

(** The connections being registered count as accepted. *)
Definition widen (pending : gset ClientRef) (y : System) : System :=
  mkSystem (sy_hub y) (sy_counter y) (pending ∪ sy_accepted y).

Lemma sys_step_widen pending y y' : sys_step y y' → sys_step (widen pending y) (widen pending y').
Proof.
  intros Hstep. destruct Hstep as [c u key servers Hlt Hfree|c ok h Hne Hrun|c r h Hin Hok Hrun|r h Hok Hrun].
  - exact (sys_connect (widen pending y) c u key servers Hlt Hfree).
  - assert (widen pending (mkSystem h (sy_counter y) (if ok then {[c]} ∪ sy_accepted y else sy_accepted y)) =
      mkSystem h (sy_counter (widen pending y))
        (if ok then {[c]} ∪ sy_accepted (widen pending y) else sy_accepted (widen pending y))) as ->.
    { unfold widen. simpl. f_equal. destruct ok; set_solver. }
    by apply sys_register.
  - apply (sys_client (widen pending y) c r h); [simpl; set_solver|done|done].
  - by apply (sys_service (widen pending y) r h).
Qed.

Definition race_inv (z : System * gset ClientRef) : Prop := sys_inv (widen z.2 z.1).

Lemma race_step_inv z z' : ¬ serial_registration → race_inv z → race_step z z' → race_inv z'.
Proof.
  intros Hns Hy Hstep. destruct Hstep as [y pending c h Hne Hrun|y pending c h Hc Hrun|y pending y' Hstep];
    unfold race_inv in *; simpl in *.
  - pose proof (Register_begin_sound c _ Hns (yi_inv _ Hy) (yi_unique _ Hy c Hne) Hne) as Hwp.
    apply (wp_result _ _ _ _ _ Hwp) in Hrun as [Hso Hr].
    apply (sound_sys h (widen pending y)); [done|done|]. simpl. intros c' Hc'.
    destruct (decide (c' = c)) as [->|]; [right|left; set_solver].
    split; [by apply Hr|]. by rewrite (ident_conn (sy_hub y)) by apply (so_ident _ _ Hso).
  - pose proof (yi_accepted _ Hy c ltac:(simpl; set_solver)) as [Hready _].
    pose proof (Register_end_sound c _ Hns (yi_inv _ Hy) Hready) as Hwp.
    apply (wp_result _ _ _ _ _ Hwp) in Hrun.
    apply (sound_sys h (widen pending y)); [done|done|]. simpl. intros c' Hc'. left.
    destruct (decide (c' = c)) as [->|]; set_solver.
  - eapply sys_step_inv; [exact Hy|]. by apply sys_step_widen.
Qed.

Lemma race_reachable_inv y pending :
  ¬ serial_registration → rtc race_step (init_system, ∅) (y, pending) → race_inv (y, pending).
Proof.
  intros Hns Hr. assert (race_inv (init_system, ∅)) as Hi.
  { unfold race_inv, widen. simpl. rewrite union_empty_l_L. exact init_inv. }
  induction Hr; eauto using race_step_inv.
Qed.
End system.

(** The schedule of [sys_step], which the theorems about the endpoint and the
    services refer to, and the schedule of [race_step]. *)
#[export] Instance serial : Schedule := {| serial_registration := True |}.
Definition interrupted : Schedule := {| serial_registration := False |}.
