(* ===== verification/HubProps.v ===== *)
(** * The hub: properties of every reachable state

    The claims about the hub as a whole: coherence of its indexes in every
    reachable state, totality of every request, and what the revocations, the
    removals and the shutdown leave behind. Concrete executions, computed by
    the model itself, serve as examples. *)

From S2P Require Import Prelude Events Client ClientFacts ClientAccess.
From S2P Require Import VoiceState VoiceFacts StreamState StreamFacts.
From S2P Require Import Hub HubInv HubSpecs HubOps HubReach HubGrow MediaHub Publishers HubMedia HubSystem.

(** ** Executions *)

#[export] Instance client_request_ok_dec r : Decision (client_request_ok r).
Proof. destruct r; simpl; apply _. Defined.
#[export] Instance service_request_ok_dec r : Decision (service_request_ok r).
Proof. destruct r; simpl; apply _. Defined.

Inductive action :=
  | AConnect (c : ClientRef) (u : Z) (key : string) (servers : list Z)
  | ARegister (c : ClientRef)
  | AClient (c : ClientRef) (r : client_request)
  | AService (r : service_request).

Section run.
Context `{MapOrder}.

Definition act (a : action) (y : System) : option System :=
  let h := sy_hub y in
  match a with
  | AConnect c u key servers =>
      if decide (sy_counter y + 1 < 2 ^ 64)%N then
        if decide (cl_connectionID (client_at c h) = "") then
          Some (mkSystem (connect c (newConnectionID (sy_counter y + 1)) u key servers h)
                  (sy_counter y + 1) (sy_accepted y))
        else None
      else None
  | ARegister c =>
      if decide (cl_connectionID (client_at c h) = "") then None
      else match Register (Some c) h with
        | Ok (ok, h') => Some (mkSystem h' (sy_counter y)
            (if ok : bool then {[c]} ∪ sy_accepted y else sy_accepted y))
        | _ => None
        end
  | AClient c r =>
      if decide (c ∈ sy_accepted y ∧ client_request_ok r) then
        match exec_client c r h with
        | Ok (_, h') => Some (mkSystem h' (sy_counter y) (sy_accepted y))
        | _ => None
        end
      else None
  | AService r =>
      if decide (service_request_ok r) then
        match exec_service r h with
        | Ok (_, h') => Some (mkSystem h' (sy_counter y) (sy_accepted y))
        | _ => None
        end
      else None
  end.

Fixpoint run (l : list action) (y : System) : option System :=
  match l with
  | [] => Some y
  | a :: l' => act a y ≫= run l'
  end.

Lemma act_step a y y' : act a y = Some y' → sys_step y y'.
Proof.
  destruct a as [c u key servers|c|c r|r]; cbn [act].
  - repeat case_decide; [|done..]. intros [= <-]. by apply sys_connect.
  - case_decide; [done|]. destruct (Register (Some c) (sy_hub y)) as [[ok h']| |] eqn:E; [|done..].
    intros [= <-]. by apply sys_register.
  - case_decide as Hd; [|done]. destruct (exec_client c r (sy_hub y)) as [[[] h']| |] eqn:E; [|done..].
    intros [= <-]. destruct Hd. by eapply sys_client.
  - case_decide as Hd; [|done]. destruct (exec_service r (sy_hub y)) as [[[] h']| |] eqn:E; [|done..].
    intros [= <-]. by eapply sys_service.
Qed.

Lemma run_reachable l y y' : run l y = Some y' → rtc sys_step y y'.
Proof.
  revert y. induction l as [|a l IH]; intros y; simpl; [by intros [= ->]|].
  destruct (act a y) as [y1|] eqn:Ha; [|done]. simpl. intros Hr.
  eapply rtc_l; [by eapply act_step|by apply IH].
Qed.
(** Executions in which registrations are interrupted. *)
Inductive race_action :=
  | RBegin (c : ClientRef)
  | REnd (c : ClientRef)
  | ROther (a : action).

Definition race_act (a : race_action) (z : System * gset ClientRef) : option (System * gset ClientRef) :=
  let '(y, pending) := z in
  match a with
  | RBegin c =>
      if decide (cl_connectionID (client_at c (sy_hub y)) = "") then None
      else match Register_begin c (sy_hub y) with
        | Ok (true, h) => Some (mkSystem h (sy_counter y) (sy_accepted y), {[c]} ∪ pending)
        | _ => None
        end
  | REnd c =>
      if decide (c ∈ pending) then
        match Register_end c (sy_hub y) with
        | Ok (_, h) => Some (mkSystem h (sy_counter y) ({[c]} ∪ sy_accepted y), pending ∖ {[c]})
        | _ => None
        end
      else None
  | ROther a => (fun y' => (y', pending)) <$> act a y
  end.

Fixpoint race_run (l : list race_action) (z : System * gset ClientRef) :=
  match l with
  | [] => Some z
  | a :: l' => race_act a z ≫= race_run l'
  end.

Lemma race_run_reachable l z z' : race_run l z = Some z' → rtc race_step z z'.
Proof.
  revert z. induction l as [|a l IH]; intros z; simpl; [by intros [= ->]|].
  destruct (race_act a z) as [z1|] eqn:Ha; [|done]. simpl. intros Hr.
  eapply rtc_l; [|by apply IH]. destruct z as [y pending], a as [c|c|a]; simpl in Ha.
  - case_decide; [done|]. destruct (Register_begin c (sy_hub y)) as [[[] h]| |] eqn:E; [|done..].
    injection Ha as <-. by apply race_begin.
  - case_decide; [|done]. destruct (Register_end c (sy_hub y)) as [[[] h]| |] eqn:E; [|done..].
    injection Ha as <-. by apply race_end.
  - destruct (act a y) as [y'|] eqn:E; [|done]. injection Ha as <-. by apply race_other, (act_step a).
Qed.
End run.

Definition race_result (l : list race_action) : System * gset ClientRef :=
  default (init_system, ∅) (@race_run key_order l (init_system, ∅)).

Lemma race_result_reachable l :
  is_Some (@race_run key_order l (init_system, ∅)) →
  rtc (@race_step key_order) (init_system, ∅) (race_result l).
Proof.
  intros [z Hz]. unfold race_result. rewrite Hz. by apply (race_run_reachable l).
Qed.

(** ** Coherence *)

(** The indexes, the rooms, the queues, the voice and the stream tables agree. *)
Record tables_coherent (h : Hub) : Prop := {
  co_user : ∀ u c, c ∈ index_get u (h_clientsByUser h) ↔ c ∈ h_clients h ∧ user_of c h = u;
  co_session : ∀ k c, c ∈ index_get k (h_clientsBySession h) ↔
    c ∈ h_clients h ∧ cl_sessionKey (client_at c h) = k;
  co_server : ∀ s c, c ∈ index_get s (h_clientsByServer h) ↔
    c ∈ h_clients h ∧ s ∈ servers_of c h;
  co_conn : ∀ k c, h_clientsByConnection h !! k = Some c ↔
    c ∈ h_clients h ∧ cl_connectionID (client_at c h) = k;
  co_tight : index_tight (h_clientsByUser h) ∧ index_tight (h_clientsBySession h) ∧
    index_tight (h_clientsByServer h);
  co_unique : ∀ c c', c ∈ h_clients h → c' ∈ h_clients h →
    cl_connectionID (client_at c h) = cl_connectionID (client_at c' h) → c = c';
  co_room : ∀ ch c, c ∈ room_members ch h ↔ is_Some (subs_of c h !! ch);
  co_subscriber : ∀ c, subs_of c h ≠ ∅ → c ∈ h_clients h;
  co_queues : ∀ c, queue_ok (client_at c h) ∧
    Forall (authorised (client_at c h)) (cl_outgoing (client_at c h)) ∧
    Forall (authorised (client_at c h)) (cl_priority (client_at c h));
  co_voice : voice_inv (client_ident h) (h_voice h);
  co_streams : stream_inv (h_streams h);
  co_media : ∀ c, is_Some (vs_byClient (h_voice h) !! c) ∨ is_Some (sst_byClient (h_streams h) !! c) →
    c ∈ h_clients h ∨ servers_of c h = ∅
}.

(** The presence counters are the numbers of registered connections. *)
Definition presence_exact (h : Hub) : Prop :=
  ∀ s u, presence_count s u h =
    Z.of_nat (size (filter (fun c => s ∈ servers_of c h ∧ user_of c h = u) (h_clients h))).

Record coherent (h : Hub) : Prop := {
  co_tables : tables_coherent h;
  co_presence : presence_exact h
}.

Section props.
Context `{MapOrder}.

Lemma inv_tables (Sched : Schedule) h : @inv Sched h → tables_coherent h.
Proof.
  intros Hi. split; try apply Hi.
  - intros c c' Hc _ He. symmetry. by apply (hi_unique _ _ _ Hi).
  - intros c Hc. pose proof (hi_sub_live _ _ _ Hi c Hc). set_solver.
  - intros c [Hv|Hs].
    + pose proof (hi_voice_live _ _ _ Hi c Hv). set_solver.
    + pose proof (hi_stream_live _ _ _ Hi c Hs). set_solver.
Qed.

Lemma inv_coherent h : inv h → coherent h.
Proof.
  intros Hi. split; [by eapply inv_tables|].
  intros s u. rewrite (hi_presence _ _ _ Hi I). unfold connections. by rewrite union_empty_r_L.
Qed.

(** C1: requests, and each of the two parts into which the release of
    [clientsMu] cuts a registration, run to completion one after another, in
    any order and number. Then, with any requests between the two parts of
    any registrations, in every state the hub can reach the four lookup
    indexes list exactly the registered connections, a channel room holds
    exactly its subscribers, every queue is within its buffer and shows only
    permitted channels, and the voice and stream tables are coherent and
    mention only registered connections or connections without memberships.
    If no request runs between the two parts of a registration, the presence
    counters moreover are exactly the numbers of registered connections;
    [presence_race] shows that this condition is necessary. *)
Theorem hub_reachable_coherent :
  (∀ y pending, rtc race_step (init_system, ∅) (y, pending) → tables_coherent (sy_hub y)) ∧
  (∀ y, rtc sys_step init_system y → tables_coherent (sy_hub y) ∧ presence_exact (sy_hub y)).
Proof.
  split.
  - intros y pending Hr. apply (inv_tables interrupted).
    apply (race_reachable_inv (Sched := interrupted)) in Hr; [exact (yi_inv _ Hr)|by intros []].
  - intros y Hr. pose proof (yi_inv y (reachable_inv y Hr)) as Hi. by destruct (inv_coherent _ Hi).
Qed.

(** C2: in every reachable state every request returns: no handler panics,
    and the recursion through full queues terminates within the fuel the
    model computes from the state. *)
Theorem hub_requests_total y :
  rtc sys_step init_system y →
  (∀ c r, c ∈ sy_accepted y → client_request_ok r → ∃ h', exec_client c r (sy_hub y) = Ok (tt, h')) ∧
  (∀ r, service_request_ok r → ∃ h', exec_service r (sy_hub y) = Ok (tt, h')) ∧
  (∀ c, cl_connectionID (client_at c (sy_hub y)) ≠ "" →
    ∃ ok h', Register (Some c) (sy_hub y) = Ok (ok, h')).
Proof.
  intros Hr. destruct (reachable_inv y Hr) as [Hi _ Ha _ _ Hun]. split_and!.
  - intros c r Hc Hok.
    destruct (proj1 (wp_run _ _ _) (exec_client_sound c r _ Hi (Ha c Hc) Hok)) as ([]&h'&?&_). eauto.
  - intros r Hok. destruct (proj1 (wp_run _ _ _) (exec_service_sound r _ Hi Hok)) as ([]&h'&?&_). eauto.
  - intros c Hc. destruct (proj1 (wp_run _ _ _) (Register_sound c _ Hi (Hun c Hc) Hc)) as (ok&h'&?&_).
    eauto.
Qed.

(** C3: unregistering an accepted connection, whatever its state and however
    many slow connections it takes down with it, leaves no trace of it: it is
    closed, in no index and no room, not in voice, neither publishing nor
    watching, without membership; and the hub is coherent, so the presence of
    its user is again exactly the user's remaining connections. *)
Theorem Unregister_clean y c :
  rtc sys_step init_system y → c ∈ sy_accepted y →
  wp (Unregister c) (fun _ h' => coherent h' ∧ c ∉ h_clients h' ∧ servers_of c h' = ∅ ∧
    cl_done (client_at c h') = true ∧ (∀ ch, c ∉ room_members ch h') ∧
    vs_byClient (h_voice h') !! c = None ∧ sst_byClient (h_streams h') !! c = None) (sy_hub y).
Proof.
  intros Hr Hc. destruct (reachable_inv y Hr) as [Hi _ Ha _ _ _].
  eapply wp_mono; [by apply (Unregister_spec ∅); [|apply Ha]|].
  intros [] h' ([Hi' _]&Hcl&Hs&Hd&Hsub&Hv&Hst). split_and!; try done; [by apply inv_coherent|].
  intros ch Hin%(hi_room _ _ _ Hi'). rewrite Hsub, lookup_empty in Hin. by destruct Hin.
Qed.

(** After a session is revoked no registered connection carries its key,
    and every connection that did has lost its memberships. *)
Theorem revokeSessionKey_complete y key :
  rtc sys_step init_system y →
  wp (revokeSessionKey key) (fun _ h' => coherent h' ∧
    (∀ c, c ∈ h_clients h' → cl_sessionKey (client_at c h') ≠ key) ∧
    ∀ c, c ∈ h_clients (sy_hub y) → cl_sessionKey (client_at c (sy_hub y)) = key →
      servers_of c h' = ∅) (sy_hub y).
Proof.
  intros Hr. pose proof (yi_inv _ (reachable_inv y Hr)) as Hi.
  eapply wp_mono; [by apply revokeSessionKey_spec|]. intros [] h' [[Hi' Hag] Hkey].
  split_and!; [by apply inv_coherent|done|]. intros c Hc Hk. apply (ag_gone _ _ Hag); [done|].
  intros Hc'. apply (Hkey c Hc'). by rewrite (ag_session _ _ Hag).
Qed.

(** After a user is removed from a server, no registered connection of
    that user is a member of the server, is subscribed to one of its
    channels, or is in voice there. *)
Theorem RevokeUserFromServer_complete y u s :
  rtc sys_step init_system y → (0 < u)%Z → (0 < s)%Z →
  wp (RevokeUserFromServer u s) (fun _ h' => coherent h' ∧
    (∀ c, c ∈ h_clients h' → user_of c h' = u →
      s ∉ servers_of c h' ∧ (∀ ch, subs_of c h' !! ch ≠ Some s) ∧
      ∀ p, vs_byClient (h_voice h') !! c = Some p → vp_ServerID p ≠ s) ∧
    presence_count s u h' = 0%Z) (sy_hub y).
Proof.
  intros Hr Hu Hs. pose proof (yi_inv _ (reachable_inv y Hr)) as Hi.
  eapply wp_mono; [by apply RevokeUserFromServer_spec|]. intros [] h' [[Hi' _] Hout].
  pose proof (inv_coherent h' Hi') as Hco. split_and!; [done|exact Hout|].
  rewrite (co_presence _ Hco). change 0%Z with (Z.of_nat 0). f_equal. apply size_empty_iff, set_equiv.
  intros c. rewrite elem_of_filter. split; [|set_solver]. intros [[Hs' Hu'] Hc].
  destruct (Hout c Hc Hu') as [? _]. done.
Qed.

(** After a server is deleted nobody is a member of it, its presence
    table is gone, and nobody is in voice in any of its channels. *)
Theorem RevokeServer_complete y s :
  rtc sys_step init_system y → (0 < s)%Z →
  wp (RevokeServer s) (fun _ h' => coherent h' ∧ h_presence h' !! s = None ∧
    (∀ c, c ∈ h_clients h' → s ∉ servers_of c h') ∧
    ∀ c p, vs_byClient (h_voice h') !! c = Some p → vp_ServerID p ≠ s) (sy_hub y).
Proof.
  intros Hr Hs. pose proof (yi_inv _ (reachable_inv y Hr)) as Hi.
  eapply wp_mono; [by apply RevokeServer_spec|]. intros [] h' ([Hi' _]&Hp&Hm&Hv).
  split_and!; [by apply inv_coherent|exact (Hp I)|done|exact Hv].
Qed.

(** After a channel is deleted its room is empty, nobody is subscribed to
    it, nobody is in voice in it and no stream is live in it. *)
Theorem RemoveChannel_complete y ch :
  rtc sys_step init_system y → (0 < ch)%Z →
  wp (RemoveChannel ch) (fun _ h' => coherent h' ∧
    room_members ch h' = ∅ ∧ (∀ c, subs_of c h' !! ch = None) ∧
    (∀ c p, vs_byClient (h_voice h') !! c = Some p → vp_ChannelID p ≠ ch) ∧
    stream_room ch (h_streams h') = ∅) (sy_hub y).
Proof.
  intros Hr Hch. pose proof (yi_inv _ (reachable_inv y Hr)) as Hi.
  eapply wp_mono; [by apply RemoveChannel_gone|]. intros [] h' [[Hi' _] []].
  split_and!; [by apply inv_coherent|done..].
Qed.

(** ** Shutdown *)

Lemma close_all_closed reason l h :
  inv h → (∀ c, c ∈ l → ready c h) →
  wp (for_each l (fun c => update_client c (CloseWithReason reason) ;; Unregister c)) (fun _ h' =>
    kept h h' ∧ h_closed h' = h_closed h) h.
Proof.
  intros Hi Hl. apply (wp_for_each_inv _ _ (fun h' => kept h h' ∧ h_closed h' = h_closed h)).
  { split; [by apply kept_refl|done]. }
  intros c h1 Hc [Hk1 Hc1]. wp_step. eapply wp_mono; [apply (close_spec ∅ ∅), Hk1|].
  intros [] h2 (Hi2&Hev2&_). assert (kept h1 h2) as Hk2 by (split; [done|by apply evolves_ages]).
  pose proof (kept_trans _ _ _ Hk1 Hk2) as Hk02.
  eapply wp_mono; [apply (Unregister_spec ∅); [done|eapply ready_ages; [apply Hk02|by apply Hl]]|].
  intros [] h3 [Hg3 _]. split; [exact (kept_trans _ _ _ Hk02 (good_kept _ _ Hg3))|].
  by rewrite (ev_closed _ _ (proj2 Hg3)), (ev_closed _ _ Hev2).
Qed.

Lemma hub_Close_closed h : inv h → wp hub_Close (fun _ h' => h_closed h' = true) h.
Proof.
  intros Hi. unfold hub_Close. wp_step. wp_step. wp_step. wp_step.
  set (h0 := h <| h_closed := true |>). assert (same_shape h h0) as Hs0 by (by split).
  assert (inv h0) as Hi0 by (eapply hub_inv_shape; [done|intros c; apply (hi_client _ _ _ Hi c)|exact Hi]).
  eapply wp_mono; [apply close_all_closed; [done|]|by intros [] h1 [_ ->]].
  intros c Hc%elem_of_range_set. by apply ready_registered.
Qed.

Lemma Register_closed c h :
  h_closed h = true → wp (Register (Some c)) (fun ok h' => ok = false ∧ h_clients h' = h_clients h) h.
Proof.
  intros Hc. unfold Register, Register_begin. wp_step. wp_step. wp_step.
  destruct (loadChannelAccess _ h) as [ids err].
  destruct err; wp_step; unfold update_client, on_client, wp at 1; simpl.
  - by wp_step.
  - wp_step. wp_step. simpl. rewrite Hc, orb_true_r. simpl. by wp_step.
Qed.

(** Shutting down closes every connection for good: nothing is
    registered or counted as present afterwards, and every later registration
    is refused. *)
Theorem hub_Close_final y :
  rtc sys_step init_system y →
  wp hub_Close (fun _ h' => coherent h' ∧ h_clients h' = ∅ ∧ (∀ s u, presence_count s u h' = 0%Z) ∧
    ∀ c, wp (Register (Some c)) (fun ok h'' => ok = false ∧ h_clients h'' = ∅) h') (sy_hub y).
Proof.
  intros Hr. pose proof (yi_inv _ (reachable_inv y Hr)) as Hi.
  eapply wp_mono; [exact (wp_and _ _ _ _ (hub_Close_spec _ Hi) (hub_Close_closed _ Hi))|].
  intros [] h' [[[Hi' _] Hemp] Hcl]. pose proof (inv_coherent h' Hi') as Hco.
  split_and!; [done|done| |].
  - intros s u. rewrite (co_presence _ Hco), Hemp. by rewrite filter_empty_L by apply _.
  - intros c. rewrite <- Hemp. by apply Register_closed.
Qed.

(** ** Relays *)

(** One event offered to one client, and nothing else. *)
Definition offered (c : ClientRef) (e : OutgoingEvent) (h h' : Hub) : Prop :=
  ∃ cl, enqueue e (client_at c h) = Ok (true, cl) ∧ h' = h <| h_mem ::= <[c := cl]> |>.

Lemma relay_offered {A} (a b : A) c e h :
  inv h → event_typed e → ready c h → a ≠ b →
  wp (accepted ← hub_enqueue c e; if accepted : bool then mret a else Unregister c ;; mret b)
    (fun r h' => (r = a → offered c e h h') ∧ (r ≠ a → r = b)) h.
Proof.
  intros Hi He Hr Hab.
  pose proof (hub_enqueue_spec ∅ ∅ c e h Hi He) as Hen. wp_step.
  unfold hub_enqueue, on_client, wp in Hen. unfold hub_enqueue, on_client, wp at 1.
  destruct (enqueue e (client_at c h)) as [[ok cl]| |] eqn:Hrun; [|done..].
  destruct Hen as (Hi1&Hev1&_). destruct ok.
  - wp_step. split; [|done]. intros _. by exists cl.
  - wp_step. eapply wp_mono.
    + apply Unregister_kept; [done|]. eapply ready_ages; [by apply evolves_ages|done].
    + intros [] h2 _. by wp_step.
Qed.

(** A recipient that cannot take the event is removed. *)
Lemma relay_removed {A} (a b : A) c e h :
  inv h → event_typed e → ready c h →
  wp (accepted ← hub_enqueue c e; if accepted : bool then mret a else Unregister c ;; mret b)
    (fun r h' => r = a ∨ r = b ∧ c ∉ h_clients h') h.
Proof.
  intros Hi He Hr. pose proof (hub_enqueue_spec ∅ ∅ c e h Hi He) as Hen. wp_step.
  eapply wp_mono; [exact Hen|]. intros ok h1 (Hi1&Hev1&_). destruct ok; [wp_step; by left|].
  wp_step. eapply wp_mono.
  { apply (Unregister_spec ∅); [done|]. eapply ready_ages; [by apply evolves_ages|done]. }
  intros [] h2 (_&?&_). wp_step. by right.
Qed.

(** The payload [RelayVoiceE2EE] forwards. *)
Definition relayed (from : VoiceParticipantData) (data : E2EERelayData) : E2EERelayData :=
  data <| er_SenderUserID := vp_UserID from |> <| er_SenderDeviceID := vp_E2EEDeviceID from |>
       <| er_SenderConnectionID := vp_ConnectionID from |>
       <| er_RecipientUserID := 0%Z |> <| er_RecipientDeviceID := "" |>.

(** Who may relay keys to whom, read off the voice table: both connections
    are in the channel the message names, each with an encryption device; the
    recipient is a connection of the addressed user that joined with the
    addressed device, and not the sender itself. *)
Record key_route (h : Hub) (data : E2EERelayData) (sender recipient : ClientRef)
    (device : string) : Prop := {
  kr_sender : ∃ from, vs_byClient (h_voice h) !! sender = Some from ∧
    vp_ChannelID from = er_ChannelID data ∧ vp_E2EEDeviceID from = device ∧ device ≠ "";
  kr_recipient : ∃ to, vs_byClient (h_voice h) !! recipient = Some to ∧
    vp_ChannelID to = er_ChannelID data ∧
    vp_E2EEDeviceID to = er_RecipientDeviceID data ∧ er_RecipientDeviceID data ≠ "";
  kr_user : user_of recipient h = er_RecipientUserID data;
  kr_other : recipient ≠ sender
}.

(** What the recipient is sent: the channel and the payload of the message,
    and the sender as the hub knows it. *)
Definition key_message (h : Hub) (data : E2EERelayData) (sender : ClientRef) (device : string)
    : E2EERelayData :=
  mkE2EERelayData (er_ChannelID data) 0 "" (user_of sender h) device
    (cl_connectionID (client_at sender h)) (er_Payload data).

Lemma e2eeRecipient_route h data c from recipient :
  inv h →
  e2eeRecipient c (er_ChannelID data) (er_RecipientUserID data) (er_RecipientDeviceID data) (h_voice h) =
    Some (from, recipient) →
  key_route h data c recipient (vp_E2EEDeviceID from) ∧
  relayed from data = key_message h data c (vp_E2EEDeviceID from).
Proof.
  intros Hi Hf. pose proof (hi_voice _ _ _ Hi) as Hv.
  apply (e2eeRecipient_exact _ _ _ _ _ _ _ _ Hv) in Hf as (to&Hfrom&Hto&Hne&Hu&Hch&Hch'&Hd&Hd'&Hdev).
  destruct (vi_ident _ _ Hv _ _ Hfrom) as [Eu Ec], (vi_ident _ _ Hv _ _ Hto) as [Eu' _].
  split; [split|]; eauto 10.
  - rewrite <- Hu. by rewrite Eu'.
  - unfold relayed, key_message. destruct data. cbn in *. by rewrite Eu, Ec.
Qed.

Lemma route_e2eeRecipient h data c recipient device :
  inv h → key_route h data c recipient device →
  ∃ from, vp_E2EEDeviceID from = device ∧
    e2eeRecipient c (er_ChannelID data) (er_RecipientUserID data) (er_RecipientDeviceID data) (h_voice h) =
      Some (from, recipient).
Proof.
  intros Hi [(from&Hfrom&Hch&<-&Hd) (to&Hto&Hch'&Hdev&Hd') Hu Hne]. pose proof (hi_voice _ _ _ Hi) as Hv.
  exists from. split; [done|]. apply (e2eeRecipient_exact _ _ _ _ _ _ _ _ Hv). exists to.
  split_and!; try done. rewrite <- Hu. apply (vi_ident _ _ Hv _ _ Hto).
Qed.

(** C28: a key relay reaches the one connection of the addressed user that is
    in encrypted voice in the same channel as the sender, with the addressed
    device, and no other: it is sent the payload with the user, the device
    and the connection of the sender as the hub knows them, whatever the
    sender claimed. If there is no such connection, or the sender is not in
    encrypted voice in the channel it names, the relay is refused and nothing
    changes; if its queue is full, that connection is removed. *)
Theorem RelayVoiceE2EE_confined y c t data :
  rtc sys_step init_system y → t = EventE2EEKey ∨ t = EventE2EEKeyRequest →
  let h := sy_hub y in
  wp (RelayVoiceE2EE c t data) (fun ok h' =>
    (ok = true → ∃ recipient device, key_route h data c recipient device ∧
      (∀ other device', key_route h data c other device' → other = recipient) ∧
      offered recipient (new_event t (DE2EERelay (key_message h data c device))) h h') ∧
    (ok = false → (h' = h ∧ ∀ recipient device, ¬ key_route h data c recipient device) ∨
      ∃ recipient device, key_route h data c recipient device ∧ recipient ∉ h_clients h')) h.
Proof.
  intros Hr Ht h. pose proof (yi_inv _ (reachable_inv y Hr)) as Hi. fold h in Hi.
  unfold RelayVoiceE2EE. wp_step. wp_step.
  destruct (e2eeRecipient _ _ _ _ _) as [[from recipient]|] eqn:Hf.
  - destruct (e2eeRecipient_route h data c from recipient Hi Hf) as [Hroute Hmsg].
    pose proof (voice_ready recipient h Hi (e2eeRecipient_in_voice _ _ _ _ _ _ _ Hf)) as Hready.
    assert (event_typed (new_event t (DE2EERelay (relayed from data)))) as Htyped
      by (apply event_typed_new; by destruct Ht as [->| ->]).
    eapply wp_mono; [exact (wp_and _ _ _ _
      (relay_offered true false recipient _ h Hi Htyped Hready ltac:(done))
      (relay_removed true false recipient _ h Hi Htyped Hready))|].
    intros ok h' [[Hok _] Hno]. split.
    + intros E. exists recipient, (vp_E2EEDeviceID from). rewrite <- Hmsg. split_and!; [done| |by apply Hok].
      intros other device' Ho. apply (route_e2eeRecipient _ _ _ _ _ Hi) in Ho as (from'&_&Ho). congruence.
    + intros ->. right. destruct Hno as [|[_ ?]]; [done|eauto].
  - wp_step. split; [done|]. intros _. left. split; [done|]. intros recipient device Ho.
    apply (route_e2eeRecipient _ _ _ _ _ Hi) in Ho as (from'&_&Ho). congruence.
Qed.

(** Peer-to-peer signalling only travels between the publisher and a
    viewer of one live peer-to-peer stream, offers from the publisher and
    answers from a viewer; the peer learns the true connection of the sender,
    and a refused message changes nothing. *)
Theorem RelayStreamP2PSession_confined y c tid sdp t :
  rtc sys_step init_system y → t = EventStreamP2POffer ∨ t = EventStreamP2PAnswer →
  let h := sy_hub y in
  wp (RelayStreamP2PSession c tid sdp t) (fun r h' =>
    (r = Some ErrStreamP2PRelation → h' = h) ∧
    (r = None → ∃ target pub, p2p_peers c target pub (h_streams h) ∧
      cl_connectionID (client_at target h) = tid ∧ (t = EventStreamP2POffer ↔ pub = true) ∧
      offered target (new_event t (DStreamP2PSession
        (mkStreamP2PSessionData "" (cl_connectionID (client_at c h)) sdp))) h h')) h.
Proof.
  intros Hr Ht h. pose proof (yi_inv _ (reachable_inv y Hr)) as Hi. unfold RelayStreamP2PSession.
  wp_step. wp_step. destruct (stream_relationship _ _ _ _) as [[target|] pub] eqn:Hrel; [|by wp_step].
  destruct (relationship_peers _ _ _ _ _ _ (hi_stream _ _ _ Hi) Hrel) as [Hpeers Hid].
  destruct (_ || _) eqn:Hdir; [by wp_step|]. eapply wp_mono.
  - apply relay_offered; [done| |by eapply peer_ready|done]. apply event_typed_new. by destruct Ht as [->| ->].
  - intros r h' [Hok Hno]. split; [intros ->; by discriminate Hno|]. intros ->. exists target, pub.
    split_and!; [done|done| |by apply Hok].
    destruct Ht as [->| ->], pub; simpl in Hdir; naive_solver.
Qed.

(** When the encryption policy of a channel changes, everybody is put out
    of voice in it; when a user's encryption devices change, the user stays
    in voice only without encryption or with a device the validator confirms. *)
Theorem voice_encryption_enforced y ch reason u :
  rtc sys_step init_system y →
  wp (ResetVoiceChannel ch reason) (fun _ h' => coherent h' ∧
    ∀ c p, vs_byClient (h_voice h') !! c = Some p → vp_ChannelID p ≠ ch) (sy_hub y) ∧
  wp (RevalidateVoiceE2EE u) (fun _ h' => coherent h' ∧
    ∀ check c p, h_voiceDeviceActive (sy_hub y) = Some check →
      vs_byClient (h_voice h') !! c = Some p → vp_UserID p = u →
      vp_E2EEDeviceID p = "" ∨ check u (vp_E2EEDeviceID p) = Some true) (sy_hub y).
Proof.
  intros Hr. pose proof (yi_inv _ (reachable_inv y Hr)) as Hi. split.
  - eapply wp_mono; [by apply ResetVoiceChannel_empties|]. intros [] h' [[? _] ?].
    split; [by apply inv_coherent|done].
  - eapply wp_mono; [by apply RevalidateVoiceE2EE_evicts|]. intros [] h' [[? _] ?].
    split; [by apply inv_coherent|done].
Qed.
End props.

(** ** Concrete execution *)

(** Two connections of user 5 and one of user 6 in server 7; the channel 40 is
    subscribed, the voice channel 41 holds both users, the first connection
    publishes a peer-to-peer stream that the third one watches. *)
Definition sample_trace : list action :=
  [ AConnect 1%positive 5 "k1" [7; 8]%Z; AConnect 2%positive 5 "k1" [7]%Z;
    AConnect 3%positive 6 "k2" [7]%Z;
    ARegister 1%positive; ARegister 2%positive; ARegister 3%positive;
    AClient 1%positive (RqSubscribe 7 40); AClient 3%positive (RqSubscribe 7 40);
    AClient 1%positive (RqJoinVoice 7 41 false false "d1");
    AClient 3%positive (RqJoinVoice 7 41 true false "d3");
    AClient 1%positive (RqStartStream 7 41 StreamModeP2P StreamCodecVP8 true []);
    AClient 3%positive (RqWatchStream 7 41 [] [] []) ].

Definition sample_system : System :=
  default init_system (@run key_order sample_trace init_system).

Lemma sample_run_ok : @run key_order sample_trace init_system = Some sample_system.
Proof. vm_compute. reflexivity. Qed.

Lemma sample_reachable : rtc (@sys_step key_order) init_system sample_system.
Proof. exact (run_reachable sample_trace init_system sample_system sample_run_ok). Qed.

Lemma sample_accepted : 3%positive ∈ sy_accepted sample_system.
Proof. apply (bool_decide_unpack _). vm_compute. reflexivity. Qed.

(** A connection whose session is revoked while it is being registered. *)
Definition interrupted_trace : list race_action :=
  [ ROther (AConnect 1%positive 5 "k1" [7]%Z); RBegin 1%positive;
    ROther (AService (SvRevokeSession "k1")) ].

Lemma hub_reachable_coherent_witness :
  (race_result interrupted_trace).2 = {[1%positive]} ∧
  tables_coherent (sy_hub (race_result interrupted_trace).1) ∧
  tables_coherent (sy_hub sample_system) ∧ presence_exact (sy_hub sample_system).
Proof.
  split; [vm_compute; reflexivity|]. split.
  - apply (proj1 (@hub_reachable_coherent key_order) _ (race_result interrupted_trace).2).
    rewrite <- surjective_pairing. apply race_result_reachable. vm_compute. eexists. reflexivity.
  - exact (proj2 (@hub_reachable_coherent key_order) sample_system sample_reachable).
Defined.

Lemma hub_requests_total_witness :
  ∃ h', @exec_client key_order 3%positive RqUnregister (sy_hub sample_system) = Ok (tt, h').
Proof.
  exact (proj1 (@hub_requests_total key_order sample_system sample_reachable) 3%positive RqUnregister
    sample_accepted I).
Defined.

Lemma Unregister_clean_witness :
  wp (@Unregister key_order 3%positive) (fun _ h' => coherent h' ∧ 3%positive ∉ h_clients h' ∧
    servers_of 3%positive h' = ∅ ∧ cl_done (client_at 3%positive h') = true ∧
    (∀ ch, 3%positive ∉ room_members ch h') ∧ vs_byClient (h_voice h') !! 3%positive = None ∧
    sst_byClient (h_streams h') !! 3%positive = None) (sy_hub sample_system).
Proof. apply (@Unregister_clean key_order); [apply sample_reachable|apply sample_accepted]. Defined.

Lemma revokeSessionKey_complete_witness :
  wp (@revokeSessionKey key_order "k1") (fun _ h' => coherent h' ∧
    (∀ c, c ∈ h_clients h' → cl_sessionKey (client_at c h') ≠ "k1") ∧
    ∀ c, c ∈ h_clients (sy_hub sample_system) →
      cl_sessionKey (client_at c (sy_hub sample_system)) = "k1" → servers_of c h' = ∅)
    (sy_hub sample_system).
Proof. apply (@revokeSessionKey_complete key_order), sample_reachable. Defined.

Lemma RevokeUserFromServer_complete_witness :
  wp (@RevokeUserFromServer key_order 5 7) (fun _ h' => presence_count 7 5 h' = 0%Z)
    (sy_hub sample_system).
Proof.
  eapply wp_mono; [apply (@RevokeUserFromServer_complete key_order sample_system 5 7); [|lia|lia]|].
  - apply sample_reachable.
  - intros [] h' (_&_&Hp). exact Hp.
Defined.

Lemma RevokeServer_complete_witness :
  wp (@RevokeServer key_order 7) (fun _ h' => h_presence h' !! 7%Z = None) (sy_hub sample_system).
Proof.
  eapply wp_mono; [apply (@RevokeServer_complete key_order sample_system 7); [|lia]|].
  - apply sample_reachable.
  - intros [] h' (_&Hp&_). exact Hp.
Defined.

Lemma RemoveChannel_complete_witness :
  wp (@RemoveChannel key_order 41) (fun _ h' => stream_room 41 (h_streams h') = ∅)
    (sy_hub sample_system).
Proof.
  eapply wp_mono; [apply (@RemoveChannel_complete key_order sample_system 41); [|lia]|].
  - apply sample_reachable.
  - intros [] h' (_&_&_&_&Hs). exact Hs.
Defined.

Lemma hub_Close_final_witness :
  wp (@hub_Close key_order) (fun _ h' => h_clients h' = ∅) (sy_hub sample_system).
Proof.
  eapply wp_mono; [apply (@hub_Close_final key_order), sample_reachable|].
  intros [] h' (_&Hc&_). exact Hc.
Defined.

(** The first connection sends a key to the device of the third one, under a
    false name, and an offer to it. *)
Definition sample_key : E2EERelayData := mkE2EERelayData 41 6 "d3" 99 "forged" "forged" "key".

Definition ok_with {A} (a : A) (r : Res (A * Hub)) : Prop :=
  match r with Ok (b, _) => b = a | _ => False end.

Lemma ok_with_run {A} (a : A) (m : M Hub A) h : ok_with a (m h) → ∃ h', m h = Ok (a, h').
Proof. unfold ok_with. destruct (m h) as [[b h']| |]; [intros ->; eauto|done..]. Qed.

Lemma RelayVoiceE2EE_confined_witness :
  ∃ h' recipient device,
    RelayVoiceE2EE (H := key_order) 1%positive EventE2EEKey sample_key (sy_hub sample_system) =
      Ok (true, h') ∧ key_route (sy_hub sample_system) sample_key 1%positive recipient device ∧
    offered recipient (new_event EventE2EEKey
      (DE2EERelay (key_message (sy_hub sample_system) sample_key 1%positive device)))
      (sy_hub sample_system) h'.
Proof.
  destruct (ok_with_run true (RelayVoiceE2EE (H := key_order) 1%positive EventE2EEKey sample_key)
    (sy_hub sample_system)) as [h' Hrun]; [vm_compute; reflexivity|].
  destruct (wp_result _ _ _ _ _ (@RelayVoiceE2EE_confined key_order sample_system 1%positive
    EventE2EEKey sample_key sample_reachable (or_introl eq_refl)) Hrun) as [Hok _].
  destruct (Hok eq_refl) as (recipient&device&Hroute&_&Ho).
  exact (ex_intro _ h' (ex_intro _ recipient (ex_intro _ device (conj Hrun (conj Hroute Ho))))).
Defined.

Lemma RelayStreamP2PSession_confined_witness :
  ∃ h' target pub,
    @RelayStreamP2PSession key_order 1%positive "3" "sdp" EventStreamP2POffer (sy_hub sample_system) =
      Ok (None, h') ∧ p2p_peers 1%positive target pub (h_streams (sy_hub sample_system)).
Proof.
  destruct (ok_with_run None (@RelayStreamP2PSession key_order 1%positive "3" "sdp" EventStreamP2POffer)
    (sy_hub sample_system)) as [h' Hrun]; [vm_compute; reflexivity|].
  destruct (wp_result _ _ _ _ _ (@RelayStreamP2PSession_confined key_order sample_system 1%positive "3"
    "sdp" EventStreamP2POffer sample_reachable (or_introl eq_refl)) Hrun) as [_ Hok].
  destruct (Hok eq_refl) as (target&pub&Hp&_). eauto.
Defined.

Lemma voice_encryption_enforced_witness :
  wp (@ResetVoiceChannel key_order 41 "policy") (fun _ h' =>
    ∀ c p, vs_byClient (h_voice h') !! c = Some p → vp_ChannelID p ≠ 41%Z) (sy_hub sample_system).
Proof.
  eapply wp_mono.
  - exact (proj1 (@voice_encryption_enforced key_order sample_system 41 "policy" 5 sample_reachable)).
  - intros [] h' [_ Hv]. exact Hv.
Defined.
