(* ===== verification/HubFuel.v ===== *)
(** * The hub: independence of the fuel, and single delivery

    [Unregister] computes its fuel from the state. Any larger amount gives the
    same result, so the fuel is an artefact of the model and not a bound the
    program has. [broadcastToClients] is shown to be the plain delivery loop
    over the distinct clients. *)

From S2P Require Import Prelude Events Client ClientFacts ClientAccess.
From S2P Require Import VoiceState VoiceFacts StreamState StreamFacts.
From S2P Require Import Hub HubInv HubSpecs HubOps HubReach HubGrow MediaHub Publishers HubMedia HubSystem.
From S2P Require Import HubProps.

(** ** Approximation *)

(** [m] runs out of fuel or behaves as [m']. *)
Definition approx {A} (m m' : M Hub A) : Prop := ∀ h, m h = OutOfFuel ∨ m h = m' h.

Lemma approx_refl {A} (m : M Hub A) : approx m m.
Proof. by right. Qed.

Lemma approx_bind {A B} (m m' : M Hub A) (f f' : A → M Hub B) :
  approx m m' → (∀ a, approx (f a) (f' a)) → approx (m ≫= f) (m' ≫= f').
Proof.
  intros Hm Hf h. unfold mbind, M_bind. destruct (Hm h) as [E|E].
  - rewrite E. by left.
  - rewrite E. destruct (m' h) as [[a h1]| |]; auto. apply Hf.
Qed.

Lemma approx_when b (m m' : M Hub unit) : approx m m' → approx (when b m) (when b m').
Proof. destruct b; [done|]. intros _. apply approx_refl. Qed.

Lemma approx_for_each {A} (l : list A) (f f' : A → M Hub unit) :
  (∀ x, approx (f x) (f' x)) → approx (for_each l f) (for_each l f').
Proof.
  intros Hf. induction l as [|x l IH]; [apply approx_refl|]. simpl. by apply approx_bind.
Qed.

Create HintDb approx.
#[export] Hint Resolve approx_refl : approx.

(** Descend through the common structure of the two programs. *)
Ltac approx_step :=
  first
    [ solve [auto with approx]
    | apply approx_bind; [|intros]
    | apply approx_when
    | apply approx_for_each; intros
    | match goal with |- approx (match ?x with _ => _ end) _ => destruct x end
    | match goal with |- approx (let '(_, _) := ?x in _) _ => destruct x end ].
Ltac approximate := repeat approx_step.

Section fuel.
Context `{MapOrder} (u u' : ClientRef → M Hub unit) (Hu : ∀ c, approx (u c) (u' c)).
#[local] Hint Resolve Hu : approx.

Lemma broadcast_approx l e : approx (broadcastToClients u l e) (broadcastToClients u' l e).
Proof using Hu. unfold broadcastToClients. approximate. Qed.
#[local] Hint Resolve broadcast_approx : approx.

Lemma PublishToServer_approx s e : approx (PublishToServer u s e) (PublishToServer u' s e).
Proof using Hu. unfold PublishToServer. approximate. Qed.
#[local] Hint Resolve PublishToServer_approx : approx.

Lemma publishVoiceLeft_approx p x : approx (publishVoiceLeft u p x) (publishVoiceLeft u' p x).
Proof using Hu. unfold publishVoiceLeft, publishToServerExcept. approximate. Qed.
#[local] Hint Resolve publishVoiceLeft_approx : approx.

Lemma broadcastPresence_approx s x st :
  approx (broadcastPresence u s x st) (broadcastPresence u' s x st).
Proof using Hu. unfold broadcastPresence. approximate. Qed.
#[local] Hint Resolve broadcastPresence_approx : approx.

Lemma announceLegacy_approx s ch :
  approx (announceLegacyStreamReplacement u s ch) (announceLegacyStreamReplacement u' s ch).
Proof using Hu. unfold announceLegacyStreamReplacement. approximate. Qed.
#[local] Hint Resolve announceLegacy_approx : approx.

Lemma leaveStream_approx c reason : approx (leaveStream u c reason) (leaveStream u' c reason).
Proof using Hu. unfold leaveStream. approximate. Qed.
#[local] Hint Resolve leaveStream_approx : approx.

Lemma leaveVoice_approx c : approx (leaveVoice u c) (leaveVoice u' c).
Proof using Hu. unfold leaveVoice. approximate. Qed.
#[local] Hint Resolve leaveVoice_approx : approx.

Lemma unregisterPresence_approx c : approx (unregisterPresence u c) (unregisterPresence u' c).
Proof using Hu. unfold unregisterPresence, removeClientServer. approximate. Qed.
#[local] Hint Resolve unregisterPresence_approx : approx.

Lemma unregister_body_approx c : approx (unregister_body u c) (unregister_body u' c).
Proof using Hu. unfold unregister_body. approximate. Qed.
End fuel.

Section independence.
Context `{MapOrder}.

Lemma unregister_more n m c : n ≤ m → approx (unregister n c) (unregister m c).
Proof.
  revert m c. induction n as [|n IH]; intros m c Hle; [by left|]. destruct m as [|m]; [lia|].
  simpl. apply unregister_body_approx. intros c'. apply IH. lia.
Qed.

(** The fuel is not a limit of the program: in every reachable state,
    for every accepted connection, any amount of fuel above the measure of
    the state gives the result of [Unregister]. *)
Theorem unregister_fuel_irrelevant y c n :
  rtc sys_step init_system y → c ∈ sy_accepted y → hub_measure (sy_hub y) < n →
  unregister n c (sy_hub y) = Unregister c (sy_hub y).
Proof.
  intros Hr Hc Hn. destruct (reachable_inv y Hr) as [Hi _ Ha _ _ _].
  destruct (proj1 (wp_run _ _ _) (Unregister_spec ∅ _ c Hi (proj1 (Ha c Hc)))) as ([]&h'&Hrun&_).
  unfold Unregister in *. destruct (unregister_more (S (hub_measure (sy_hub y))) n c Hn (sy_hub y)) as [E|E];
    congruence.
Qed.

(** ** Single delivery *)

(** The distinct clients of a list, in order of first occurrence. *)
Fixpoint distinct (seen : gset ClientRef) (l : list ClientRef) : list ClientRef :=
  match l with
  | [] => []
  | c :: l' => if bool_decide (c ∈ seen) then distinct seen l' else c :: distinct ({[c]} ∪ seen) l'
  end.

Lemma elem_of_distinct c seen l : c ∈ distinct seen l ↔ c ∈ l ∧ c ∉ seen.
Proof.
  revert seen. induction l as [|x l IH]; intros seen; simpl; [set_solver|].
  case_bool_decide; [rewrite IH; set_solver|]. rewrite elem_of_cons, IH.
  destruct (decide (c = x)); set_solver.
Qed.

Lemma NoDup_distinct seen l : NoDup (distinct seen l).
Proof.
  revert seen. induction l as [|x l IH]; intros seen; simpl; [constructor|].
  case_bool_decide; [done|]. constructor; [|done]. rewrite elem_of_distinct. set_solver.
Qed.

Lemma deliver_once_loop_eq e l seen n failed h :
  (fold_each l (seen, n, failed) (deliver_once e) ≫= (fun r => mret (r.1.2, r.2))) h =
  fold_each (distinct seen l) (n, failed) (deliver e) h.
Proof.
  revert seen n failed h. induction l as [|c l IH]; intros seen n failed h; [done|].
  simpl. unfold deliver_once at 1. case_bool_decide as Hc.
  - apply IH.
  - simpl. unfold deliver at 1.
    unfold mbind, M_bind, mret, M_ret in IH |- *. destruct (hub_enqueue c e h) as [[ok h1]| |]; [|done..].
    destruct ok; apply IH.
Qed.

(** A broadcast offers the event exactly once to each distinct client of
    its list, however often a client occurs in it: it is the plain delivery
    loop over the distinct clients, and its result counts the clients that
    accepted. *)
Theorem broadcastToClients_once unreg l e h :
  NoDup (distinct ∅ l) ∧ (∀ c, c ∈ distinct ∅ l ↔ c ∈ l) ∧
  broadcastToClients unreg l e h =
  ('(n, failed) ← fold_each (distinct ∅ l) (0, []) (deliver (shareEncoding e));
   for_each failed unreg ;; mret n) h.
Proof.
  split_and!; [apply NoDup_distinct|intros c; rewrite elem_of_distinct; set_solver|].
  unfold broadcastToClients. pose proof (deliver_once_loop_eq (shareEncoding e) l ∅ 0 [] h) as Heq.
  unfold mbind, M_bind, mret, M_ret in Heq |- *.
  destruct (fold_each l _ _ h) as [[[[seen n] failed] h1]| |]; simpl in Heq; by rewrite <- Heq.
Qed.
End independence.

Lemma unregister_fuel_irrelevant_witness :
  @unregister key_order 100 3%positive (sy_hub sample_system) =
  @Unregister key_order 3%positive (sy_hub sample_system).
Proof.
  apply (@unregister_fuel_irrelevant key_order);
    [apply sample_reachable|apply sample_accepted|by apply Nat.ltb_lt; vm_compute].
Defined.
