(* ===== verification/Presence.v ===== *)
(** * Registration and membership changes interleaved

    [Register] makes a connection visible under [clientsMu], releases the lock
    and counts its presence afterwards in [registerPresence]. Both parts hold
    [channelAccessMu] for reading only, as does [AddUserToServer], and
    [Unregister] does not take it: other requests can run in between. Here the
    transition system [race_step] of [HubSystem], which has a registration in
    two steps, is executed with requests in between. *)

From S2P Require Import Prelude Events Client ClientFacts ClientAccess.
From S2P Require Import VoiceState VoiceFacts StreamState StreamFacts.
From S2P Require Import Hub HubInv HubSpecs HubOps HubReach HubGrow MediaHub Publishers HubMedia HubSystem.
From S2P Require Import HubProps.

(** The number of registered connections of user [u] in server [s]. *)
Definition live_connections (s u : Z) (h : Hub) : Z :=
  Z.of_nat (size (filter (fun c => s ∈ servers_of c h ∧ user_of c h = u) (h_clients h))).

(** User 5 is added to server 9 while the connection is being registered;
    then the connection is closed. *)
Definition overcount_trace : list race_action :=
  [ ROther (AConnect 1%positive 5 "k1" [7]%Z); RBegin 1%positive;
    ROther (AService (SvAddUser 5 9)); REnd 1%positive;
    ROther (AClient 1%positive RqUnregister) ].

(** The session of a second connection is revoked while it is being
    registered; the first connection of the user stays. *)
Definition undercount_trace : list race_action :=
  [ ROther (AConnect 1%positive 5 "k1" [7]%Z); ROther (ARegister 1%positive);
    ROther (AConnect 2%positive 5 "k2" [7]%Z); RBegin 2%positive;
    ROther (AService (SvRevokeSession "k2")); REnd 2%positive ].

(** The presence counters can drift from the connections when
    registration is interleaved: one execution leaves user 5 counted online
    in server 9 with no connection at all, another leaves user 5 counted
    offline in server 7 with a registered connection there, both with no
    registration in progress. *)
Theorem presence_race :
  (∃ y, rtc (@race_step key_order) (init_system, ∅) (y, ∅) ∧
    h_clients (sy_hub y) = ∅ ∧ presence_count 9 5 (sy_hub y) = 1%Z) ∧
  (∃ y, rtc (@race_step key_order) (init_system, ∅) (y, ∅) ∧
    live_connections 7 5 (sy_hub y) = 1%Z ∧ presence_count 7 5 (sy_hub y) = 0%Z).
Proof.
  split.
  - exists (race_result overcount_trace).1.
    assert ((race_result overcount_trace).2 = ∅) as E by (vm_compute; reflexivity).
    split_and!; [|vm_compute; reflexivity..]. rewrite <- E, <- surjective_pairing.
    apply race_result_reachable. vm_compute. eexists. reflexivity.
  - exists (race_result undercount_trace).1.
    assert ((race_result undercount_trace).2 = ∅) as E by (vm_compute; reflexivity).
    split_and!; [|vm_compute; reflexivity..]. rewrite <- E, <- surjective_pairing.
    apply race_result_reachable. vm_compute. eexists. reflexivity.
Qed.
