(* ===== verification/Overflow.v ===== *)
(** * Consequences of a full queue

    Two executions of the model around full queues: unpin events are not
    recognised as message events of their channel, so they are never compacted
    into a catch-up marker; and a voice join that disconnects its own slow
    connection still enters the voice table. *)

From S2P Require Import Prelude Events Client ClientFacts ClientAccess.
From S2P Require Import VoiceState VoiceFacts StreamState StreamFacts.
From S2P Require Import Hub HubInv HubSpecs HubOps HubReach HubGrow MediaHub Publishers HubMedia HubSystem.
From S2P Require Import HubProps.

(** ** Unpin events *)

(** A client that asked for catch-up markers, with a full ordinary queue. *)
Definition full_client (e : Z → OutgoingEvent) : Client :=
  (EnableMessageSync (NewClient "1" 5 "k" [7%Z]))
    <| cl_subscriptions := {[40%Z := 7%Z]} |>
    <| cl_outgoing := (fun n => e (Z.of_nat n)) <$> seq 1 outgoingBufferSize |>.

Definition deleted_event (channelID messageID : Z) : OutgoingEvent :=
  new_event EventMessageDeleted (DMessageDeleted (mkMessageDeletedData channelID messageID)).

Definition accepts (r : Res (bool * Client)) : option bool :=
  match r with Ok (ok, _) => Some ok | _ => None end.

(** The event published for an unpinned message has no channel for the
    queue, unlike the one published for a deleted message: a client with a
    queue full of deletions of a channel catches up and accepts the next one,
    a client with a queue full of unpins refuses the next one and is
    disconnected. *)
Theorem unpinned_not_compacted :
  (∀ ch m, eventMessageChannel (unpinned_event ch m) = 0%Z) ∧
  (∀ ch m, eventMessageChannel (deleted_event ch m) = ch) ∧
  accepts (enqueueLocked (deleted_event 40 999) (full_client (deleted_event 40))) = Some true ∧
  accepts (enqueueLocked (unpinned_event 40 999) (full_client (unpinned_event 40))) = Some false.
Proof. split_and!; [done|done|vm_compute; reflexivity..]. Qed.

(** ** A join that disconnects its own connection *)

(** The connection publishes in channel 41 and does not read; its media queue
    is filled up with offers before it moves to channel 42. *)
Definition slow_join_trace : list action :=
  [ AConnect 1%positive 5 "k1" [7]%Z; ARegister 1%positive;
    AClient 1%positive (RqJoinVoice 7 41 false false "");
    AClient 1%positive (RqStartStream 7 41 StreamModeServer StreamCodecVP8 true []) ] ++
  repeat (AService (SvSend "1" (new_event EventVoiceWebRTCOffer (DVoiceOffer "sdp")))) 126 ++
  [ AClient 1%positive (RqJoinVoice 7 42 false false "") ].

Definition slow_join_system : System :=
  default init_system (@run key_order slow_join_trace init_system).

(** A connection whose media queue is full and that moves between voice
    channels while publishing is unregistered by its own departure from the
    stream, and is nevertheless in the voice table afterwards: a participant
    that no connection stands for. *)
Theorem slow_join_ghost :
  ∃ y, rtc (@sys_step key_order) init_system y ∧ h_clients (sy_hub y) = ∅ ∧
    ∃ p, vs_byClient (h_voice (sy_hub y)) !! 1%positive = Some p ∧ vp_ChannelID p = 42%Z.
Proof.
  exists slow_join_system. split_and!; [|vm_compute; reflexivity|].
  - apply (run_reachable slow_join_trace). vm_compute. reflexivity.
  - assert (vp_ChannelID <$> vs_byClient (h_voice (sy_hub slow_join_system)) !! 1%positive = Some 42%Z) as E
      by (vm_compute; reflexivity).
    destruct (vs_byClient (h_voice (sy_hub slow_join_system)) !! 1%positive) as [p|]; [|done].
    injection E as E. eauto.
Qed.
