(* ===== verification/AntiAbuse.v ===== *)
(** * The abuse guard

    Model of [internal/antiabuse]: the table of token buckets, the login
    failure table, the websocket connection slots and the HTTP middleware that
    charges them. The token bucket itself ([golang.org/x/time/rate]) is the
    parameter [Limiter] with [NewLimiter] and [AllowN]. A time is a number of
    nanoseconds since Go's zero time, so that the zero [time.Time] is [0].
    Requests carry the two keys the guard derives from them, the rate key of
    the client address and the digest of the bearer token; their derivation
    ([resolveClientIP], [rateKey], [bearerKey]) parses addresses and hashes
    tokens and is not modelled. *)

From S2P Require Import Prelude GoText.

Definition Second : Z := 1000000000.
Definition Minute : Z := 60 * Second.

(** ** config.go *)

Record Config := mkConfig {
  cf_TrustProxyHeaders : bool;
  cf_HTTPRequestsPerSecond : Z; cf_HTTPBurst : Z;
  cf_HTTPWritesPerSecond : Z; cf_HTTPWriteBurst : Z;
  cf_CallSignalsPerSecond : Z; cf_CallSignalBurst : Z;
  cf_AuthRequestsPerMinute : Z; cf_AuthBurst : Z;
  cf_InviteRequestsPerMinute : Z; cf_InviteBurst : Z;
  cf_LoginMaxFailures : Z; cf_LoginBlockDuration : Z;
  cf_WebSocketConnectsPerMinute : Z; cf_WebSocketConnectBurst : Z;
  cf_WebSocketEventsPerSecond : Z; cf_WebSocketEventBurst : Z;
  cf_WebSocketMaxPerIP : Z; cf_WebSocketMaxPerUser : Z;
  cf_EntryTTL : Z; cf_MaxRateEntries : Z;
  cf_IPv6PrefixBits : Z; cf_IPMultiplier : Z
}.

Definition DefaultConfig : Config := {|
  cf_TrustProxyHeaders := false;
  cf_HTTPRequestsPerSecond := 25; cf_HTTPBurst := 50;
  cf_HTTPWritesPerSecond := 8; cf_HTTPWriteBurst := 16;
  cf_CallSignalsPerSecond := 120; cf_CallSignalBurst := 240;
  cf_AuthRequestsPerMinute := 10; cf_AuthBurst := 5;
  cf_InviteRequestsPerMinute := 20; cf_InviteBurst := 10;
  cf_LoginMaxFailures := 5; cf_LoginBlockDuration := 20 * Minute;
  cf_WebSocketConnectsPerMinute := 10; cf_WebSocketConnectBurst := 5;
  cf_WebSocketEventsPerSecond := 30; cf_WebSocketEventBurst := 60;
  cf_WebSocketMaxPerIP := 50; cf_WebSocketMaxPerUser := 5;
  cf_EntryTTL := 30 * Minute; cf_MaxRateEntries := 20000;
  cf_IPv6PrefixBits := 0; cf_IPMultiplier := 4 |}.

(** The argument of [rate.Limit]: a number per second, or per minute divided
    by sixty. *)
Inductive Rate := PerSecond (n : Z) | PerMinute (n : Z).

(** ** Configuration from the environment *)

#[global] Instance Config_fields : Fields Config := fun c =>
  mkConfig (cf_TrustProxyHeaders c) (cf_HTTPRequestsPerSecond c) (cf_HTTPBurst c)
    (cf_HTTPWritesPerSecond c) (cf_HTTPWriteBurst c) (cf_CallSignalsPerSecond c)
    (cf_CallSignalBurst c) (cf_AuthRequestsPerMinute c) (cf_AuthBurst c)
    (cf_InviteRequestsPerMinute c) (cf_InviteBurst c) (cf_LoginMaxFailures c)
    (cf_LoginBlockDuration c) (cf_WebSocketConnectsPerMinute c) (cf_WebSocketConnectBurst c)
    (cf_WebSocketEventsPerSecond c) (cf_WebSocketEventBurst c) (cf_WebSocketMaxPerIP c)
    (cf_WebSocketMaxPerUser c) (cf_EntryTTL c) (cf_MaxRateEntries c) (cf_IPv6PrefixBits c)
    (cf_IPMultiplier c).

Inductive ConfigError := ErrTrustProxy | ErrIPv6Prefix | ErrNotPositive (name : string).

(** The table [values]: a variable and the assignment of its parsed value. The
    entry [LOGIN_BLOCK_MINUTES] has no destination and is multiplied into a
    duration, an [int64]. *)
Definition env_values : list (string * (Z → Config → Config)) := [
  ("HTTP_RATE_LIMIT_RPS", fun v c => c <| cf_HTTPRequestsPerSecond := v |>);
  ("HTTP_RATE_LIMIT_BURST", fun v c => c <| cf_HTTPBurst := v |>);
  ("HTTP_WRITE_RATE_LIMIT_RPS", fun v c => c <| cf_HTTPWritesPerSecond := v |>);
  ("HTTP_WRITE_RATE_LIMIT_BURST", fun v c => c <| cf_HTTPWriteBurst := v |>);
  ("CALL_SIGNAL_RATE_LIMIT_RPS", fun v c => c <| cf_CallSignalsPerSecond := v |>);
  ("CALL_SIGNAL_RATE_LIMIT_BURST", fun v c => c <| cf_CallSignalBurst := v |>);
  ("AUTH_RATE_LIMIT_PER_MINUTE", fun v c => c <| cf_AuthRequestsPerMinute := v |>);
  ("AUTH_RATE_LIMIT_BURST", fun v c => c <| cf_AuthBurst := v |>);
  ("INVITE_RATE_LIMIT_PER_MINUTE", fun v c => c <| cf_InviteRequestsPerMinute := v |>);
  ("INVITE_RATE_LIMIT_BURST", fun v c => c <| cf_InviteBurst := v |>);
  ("LOGIN_MAX_FAILURES", fun v c => c <| cf_LoginMaxFailures := v |>);
  ("LOGIN_BLOCK_MINUTES", fun v c => c <| cf_LoginBlockDuration := wrap_int (v * Minute) |>);
  ("WS_CONNECT_RATE_PER_MINUTE", fun v c => c <| cf_WebSocketConnectsPerMinute := v |>);
  ("WS_CONNECT_RATE_BURST", fun v c => c <| cf_WebSocketConnectBurst := v |>);
  ("WS_EVENT_RATE_PER_SECOND", fun v c => c <| cf_WebSocketEventsPerSecond := v |>);
  ("WS_EVENT_RATE_BURST", fun v c => c <| cf_WebSocketEventBurst := v |>);
  ("WS_MAX_CONNECTIONS_PER_IP", fun v c => c <| cf_WebSocketMaxPerIP := v |>);
  ("WS_MAX_CONNECTIONS_PER_USER", fun v c => c <| cf_WebSocketMaxPerUser := v |>);
  ("RATE_LIMIT_MAX_ENTRIES", fun v c => c <| cf_MaxRateEntries := v |>);
  ("HTTP_IP_MULTIPLIER", fun v c => c <| cf_IPMultiplier := v |>)].

(** The loop over the table. *)
Fixpoint read_values (Getenv : string → string) (values : list (string * (Z → Config → Config)))
    (config : Config) : Config + ConfigError :=
  match values with
  | [] => inl config
  | (name, assign) :: rest =>
      let raw := Getenv name in
      if String.eqb raw "" then read_values Getenv rest config
      else match Atoi raw with
        | Some parsed =>
            if (parsed <=? 0)%Z then inr (ErrNotPositive name)
            else read_values Getenv rest (assign parsed config)
        | None => inr (ErrNotPositive name)
        end
  end.

(** The prefix variable is read and checked twice; the second block repeats
    the first, with no state in between. *)
Definition read_prefix (Getenv : string → string) (config : Config) : Config + ConfigError :=
  let raw := Getenv "RATE_LIMIT_IPV6_PREFIX" in
  if String.eqb raw "" then inl config
  else match Atoi raw with
    | Some bits => if (bits <? 32)%Z || (128 <? bits)%Z then inr ErrIPv6Prefix
                   else inl (config <| cf_IPv6PrefixBits := bits |>)
    | None => inr ErrIPv6Prefix
    end.

Definition ConfigFromEnv (Getenv : string → string) : Config + ConfigError :=
  let raw := Getenv "TRUST_PROXY_HEADERS" in
  let trusted := if String.eqb raw "" then inl DefaultConfig
    else match ParseBool raw with
      | Some value => inl (DefaultConfig <| cf_TrustProxyHeaders := value |>)
      | None => inr ErrTrustProxy
      end in
  match trusted with
  | inr e => inr e
  | inl config =>
      match read_prefix Getenv config with
      | inr e => inr e
      | inl config =>
          match read_prefix Getenv config with
          | inr e => inr e
          | inl config => read_values Getenv env_values config
          end
      end
  end.

(** ** Requests *)

Record Request := mkRequest {
  rq_Method : string;
  rq_Path : string;
  rq_rateIP : string;      (* g.rateKey(g.resolveClientIP(r)) *)
  rq_tokenKey : string     (* bearerKey(r), empty without a bearer token *)
}.

Definition conversationCallSignal (r : Request) : bool :=
  if negb (String.eqb (rq_Method r) "POST") then false
  else match CutPrefix (rq_Path r) "/api/v1/conversations/" with
    | None => false
    | Some rest =>
        match CutSuffix rest "/call/signal" with
        | None => false
        | Some id => match ParseInt id with Some number => (0 <? number)%Z | None => false end
        end
    end.

Inductive Verdict := Forwarded | TooManyRequests (retryAfter : Z).

(** The value of the [Retry-After] header. *)
Definition writeRateLimitError (retryAfter : Z) : Verdict :=
  TooManyRequests (Z.max 1 ((retryAfter + Second / 2) / Second)).

Section guard.
Context `{MapOrder}.
Context {Limiter : Type}.
Context (NewLimiter : Rate → Z → Limiter) (AllowN : Limiter → Z → bool * Limiter).

(** ** The bucket table *)

Record limiterEntry := mkLimiterEntry { le_limiter : Limiter; le_lastSeen : Z }.

Record limiterStore := mkLimiterStore {
  ls_entries : gmap string limiterEntry;
  ls_ttl : Z;
  ls_maxEntries : Z;
  ls_operations : Z
}.

Definition store_cleanup (now : Z) (s : limiterStore) : limiterStore :=
  mkLimiterStore (filter (fun e => ¬ (ls_ttl s <= now - le_lastSeen e.2)%Z) (ls_entries s))
    (ls_ttl s) (ls_maxEntries s) (ls_operations s).

Definition evictionSample : nat := 16.

(** One iteration of the sampling loop: the least recently seen so far. *)
Definition older_entry (acc : option (string * Z)) (e : string * limiterEntry)
    : option (string * Z) :=
  match acc with
  | Some (_, oldest) => if (le_lastSeen e.2 <? oldest)%Z then Some (e.1, le_lastSeen e.2) else acc
  | None => Some (e.1, le_lastSeen e.2)
  end.

Definition evictOldestLocked (s : limiterStore) : limiterStore :=
  match foldl older_entry None (take evictionSample (range_entries (ls_entries s))) with
  | Some (oldestKey, _) =>
      mkLimiterStore (delete oldestKey (ls_entries s)) (ls_ttl s) (ls_maxEntries s) (ls_operations s)
  | None => s
  end.

Definition store_full (s : limiterStore) : bool :=
  (ls_maxEntries s <=? Z.of_nat (size (ls_entries s)))%Z.

Definition store_allow (key : string) (requestsPerSecond : Rate) (burst now : Z)
    (s : limiterStore) : bool * limiterStore :=
  let s := mkLimiterStore (ls_entries s) (ls_ttl s) (ls_maxEntries s) (u64_succ (ls_operations s)) in
  let s := if (ls_operations s mod 256 =? 0)%Z || store_full s then store_cleanup now s else s in
  let '(limiter, s) :=
    match ls_entries s !! key with
    | Some entry => (le_limiter entry, s)
    | None => (NewLimiter requestsPerSecond burst, if store_full s then evictOldestLocked s else s)
    end in
  let '(ok, limiter') := AllowN limiter now in
  (ok, mkLimiterStore (<[key := mkLimiterEntry limiter' now]> (ls_entries s)) (ls_ttl s)
         (ls_maxEntries s) (ls_operations s)).

(** ** The guard *)

Record failureEntry := mkFailureEntry {
  fe_failures : Z; fe_blockedUntil : Z; fe_lastSeen : Z }.

(** A closure returned by [AcquireWebSocketIP] or [AcquireWebSocketUser];
    [sync.OnceFunc] lets it run once. *)
Inductive slot := SlotIP (ip : string) | SlotUser (userID : Z).
Record handle := mkHandle { hd_slot : slot; hd_fired : bool }.

Record Guard := mkGuard {
  g_config : Config;
  g_limiters : limiterStore;
  g_failures : gmap string failureEntry;
  g_connectionsIP : gmap string Z;
  g_connectionsUser : gmap Z Z;
  g_handles : list handle
}.
#[global] Instance Guard_fields : Fields Guard := fun g =>
  mkGuard (g_config g) (g_limiters g) (g_failures g) (g_connectionsIP g) (g_connectionsUser g)
    (g_handles g).

Definition New (config : Config) : Guard :=
  mkGuard config (mkLimiterStore ∅ (cf_EntryTTL config) (cf_MaxRateEntries config) 0) ∅ ∅ ∅ [].

(** *** HTTP *)

Definition allow (key : string) (r : Rate) (burst now : Z) : M Guard bool := fun g =>
  let '(ok, s) := store_allow key r burst now (g_limiters g) in
  Ok (ok, g <| g_limiters := s |>).

Definition safe_method (m : string) : bool :=
  String.eqb m "GET" || String.eqb m "HEAD" || String.eqb m "OPTIONS".

Definition auth_route (r : Request) : bool :=
  (String.eqb (rq_Method r) "PUT" && String.eqb (rq_Path r) "/api/v1/me/password") ||
  (String.eqb (rq_Method r) "DELETE" && String.eqb (rq_Path r) "/api/v1/account") ||
  (String.eqb (rq_Method r) "POST" &&
     (String.eqb (rq_Path r) "/api/v1/auth/login" ||
      String.eqb (rq_Path r) "/api/v1/auth/register" ||
      String.eqb (rq_Path r) "/api/v1/auth/refresh")).

Definition invite_route (r : Request) : bool :=
  String.eqb (rq_Method r) "POST" && String.eqb (rq_Path r) "/api/v1/invite-links/resolve".

Definition ws_route (r : Request) : bool :=
  String.eqb (rq_Method r) "GET" && String.eqb (rq_Path r) "/api/v1/ws".

(** The [switch] over the routes with a budget of their own. *)
Definition route_bucket (cfg : Config) (r : Request) : option (string * Rate * Z * Z) :=
  if auth_route r then
    Some ("http:auth:" +:+ rq_rateIP r, PerMinute (cf_AuthRequestsPerMinute cfg),
          cf_AuthBurst cfg, 6 * Second)%Z
  else if invite_route r then
    Some ("http:invite:" +:+ rq_rateIP r, PerMinute (cf_InviteRequestsPerMinute cfg),
          cf_InviteBurst cfg, 3 * Second)%Z
  else if ws_route r then
    Some ("http:ws:" +:+ rq_rateIP r, PerMinute (cf_WebSocketConnectsPerMinute cfg),
          cf_WebSocketConnectBurst cfg, 6 * Second)%Z
  else None.

Definition ProtectHTTP (r : Request) (now : Z) : M Guard Verdict :=
  cfg ← gets g_config;
  if conversationCallSignal r then
    ok ← allow ("http:call-signal:" +:+ rq_rateIP r) (PerSecond (cf_CallSignalsPerSecond cfg))
           (cf_CallSignalBurst cfg) now;
    mret (if ok : bool then Forwarded else writeRateLimitError Second)
  else
    let bearer := negb (String.eqb (rq_tokenKey r) "") in
    let ipMultiplier := if bearer then Z.max 1 (cf_IPMultiplier cfg) else 1%Z in
    ok ← (if bearer then
            allow ("http:token:" +:+ rq_tokenKey r) (PerSecond (cf_HTTPRequestsPerSecond cfg))
              (cf_HTTPBurst cfg) now
          else mret true);
    if negb ok then mret (writeRateLimitError Second)
    else
      ok ← allow ("http:all:" +:+ rq_rateIP r)
             (PerSecond (wrap_int (cf_HTTPRequestsPerSecond cfg * ipMultiplier)))
             (wrap_int (cf_HTTPBurst cfg * ipMultiplier)) now;
      if negb ok then mret (writeRateLimitError Second)
      else
        ok ← (if safe_method (rq_Method r) then mret true
              else allow ("http:write:" +:+ rq_rateIP r) (PerSecond (cf_HTTPWritesPerSecond cfg))
                     (cf_HTTPWriteBurst cfg) now);
        if negb ok then mret (writeRateLimitError Second)
        else
          match route_bucket cfg r with
          | Some (key, limit, burst, retry) =>
              ok ← allow key limit burst now;
              mret (if ok : bool then Forwarded else writeRateLimitError retry)
          | None => mret Forwarded
          end.

(** *** Login failures *)

(** [identity] is the digest of the trimmed, lower-cased user name. *)
Definition loginFailureKeys (clientIP identity : string) : list string :=
  ["login:ip:" +:+ clientIP; "login:pair:" +:+ clientIP +:+ ":" +:+ identity].

(** [now.Sub(entry.lastSeen) >= EntryTTL && !now.Before(entry.blockedUntil)] *)
Definition lapsed (cfg : Config) (now : Z) (e : failureEntry) : bool :=
  (cf_EntryTTL cfg <=? now - fe_lastSeen e)%Z && negb (now <? fe_blockedUntil e)%Z.

Definition cleanupFailuresLocked (now : Z) (g : Guard) : Guard :=
  if (Z.of_nat (size (g_failures g)) <? cf_MaxRateEntries (g_config g))%Z then g
  else g <| g_failures ::= filter (fun e => lapsed (g_config g) now e.2 = false) |>.

(** One iteration of the sampling loop of [evictFailureLocked]. *)
Definition better_victim (now : Z) (acc : option (string * Z * bool)) (e : string * failureEntry)
    : option (string * Z * bool) :=
  let blocked := (now <? fe_blockedUntil e.2)%Z in
  match acc with
  | Some (_, victimSeen, victimBlocked) =>
      if (victimBlocked && negb blocked) ||
         (Bool.eqb blocked victimBlocked && (fe_lastSeen e.2 <? victimSeen)%Z)
      then Some (e.1, fe_lastSeen e.2, blocked) else acc
  | None => Some (e.1, fe_lastSeen e.2, blocked)
  end.

Definition failure_victim (now : Z) (m : gmap string failureEntry) : option (string * Z * bool) :=
  foldl (better_victim now) None (take evictionSample (range_entries m)).

Definition evictFailureLocked (now : Z) (g : Guard) : Guard :=
  match failure_victim now (g_failures g) with
  | Some (victim, _, _) => g <| g_failures ::= delete victim |>
  | None => g
  end.

(** The loop of [AllowLogin]: the blocking time of the first blocked key. *)
Fixpoint login_blocked (now : Z) (keys : list string) : M Guard (option Z) :=
  match keys with
  | [] => mret None
  | key :: rest =>
      g ← get_state;
      match g_failures g !! key with
      | None => login_blocked now rest
      | Some entry =>
          if lapsed (g_config g) now entry then
            modify (fun g => g <| g_failures ::= delete key |>) ;; login_blocked now rest
          else if (now <? fe_blockedUntil entry)%Z then mret (Some (fe_blockedUntil entry))
          else login_blocked now rest
      end
  end.

(** [later] is the clock read by [time.Until]. *)
Definition AllowLogin (clientIP identity : string) (now later : Z) : M Guard (bool * Z) :=
  modify (cleanupFailuresLocked now) ;;
  blocked ← login_blocked now (loginFailureKeys clientIP identity);
  mret (match blocked with Some until => (false, until - later)%Z | None => (true, 0%Z) end).

(** The body of the loop of [RecordLoginFailure]. *)
Definition record_failure (now : Z) (key : string) : M Guard unit :=
  g ← get_state;
  let cfg := g_config g in
  let found := g_failures g !! key in
  let entry := match found with
    | Some e => if lapsed cfg now e then mkFailureEntry 0 0 0 else e
    | None => mkFailureEntry 0 0 0
    end in
  when (match found with
        | None => (cf_MaxRateEntries cfg <=? Z.of_nat (size (g_failures g)))%Z
        | Some _ => false
        end) (modify (evictFailureLocked now)) ;;
  let failures := (fe_failures entry + 1)%Z in
  let blockedUntil := if (cf_LoginMaxFailures cfg <=? failures)%Z
    then (now + cf_LoginBlockDuration cfg)%Z else fe_blockedUntil entry in
  modify (fun g => g <| g_failures ::= <[key := mkFailureEntry failures blockedUntil now]> |>).

Definition RecordLoginFailure (clientIP identity : string) (now : Z) : M Guard unit :=
  modify (cleanupFailuresLocked now) ;;
  for_each (loginFailureKeys clientIP identity) (record_failure now).

Definition RecordLoginSuccess (clientIP identity : string) : M Guard unit :=
  for_each (loginFailureKeys clientIP identity) (fun key =>
    modify (fun g => g <| g_failures ::= delete key |>)).

(** *** Websocket slots *)

(** The index of the release closure, or [None] with a closure that does
    nothing. *)
Definition AcquireWebSocketIP (clientIP : string) : M Guard (option nat) :=
  g ← get_state;
  let held := default 0%Z (g_connectionsIP g !! clientIP) in
  if (cf_WebSocketMaxPerIP (g_config g) <=? held)%Z then mret None
  else
    modify (fun g => g <| g_connectionsIP ::= <[clientIP := held + 1]> |>
                       <| g_handles ::= (.++ [mkHandle (SlotIP clientIP) false]) |>)%Z ;;
    mret (Some (length (g_handles g))).

Definition AcquireWebSocketUser (userID : Z) : M Guard (option nat) :=
  g ← get_state;
  let held := default 0%Z (g_connectionsUser g !! userID) in
  if (cf_WebSocketMaxPerUser (g_config g) <=? held)%Z then mret None
  else
    modify (fun g => g <| g_connectionsUser ::= <[userID := held + 1]> |>
                       <| g_handles ::= (.++ [mkHandle (SlotUser userID) false]) |>)%Z ;;
    mret (Some (length (g_handles g))).

(** The limiter of the events of one connection; its [Allow] is the closure
    the source returns. *)
Definition NewWebSocketEventLimiter (g : Guard) : Limiter :=
  NewLimiter (PerSecond (cf_WebSocketEventsPerSecond (g_config g))) (cf_WebSocketEventBurst (g_config g)).

(** [m[k]--] followed by the deletion of an entry that reached zero. *)
Definition decrement `{Countable K} (k : K) (m : gmap K Z) : gmap K Z :=
  let n := (default 0 (m !! k) - 1)%Z in
  if (n =? 0)%Z then delete k m else <[k := n]> m.

(** Calling the closure number [i]. *)
Definition release (i : nat) : M Guard unit :=
  g ← get_state;
  match g_handles g !! i with
  | None => mret tt
  | Some h =>
      if hd_fired h then mret tt
      else
        modify (fun g => g <| g_handles ::= <[i := mkHandle (hd_slot h) true]> |>) ;;
        match hd_slot h with
        | SlotIP ip => modify (fun g => g <| g_connectionsIP ::= decrement ip |>)
        | SlotUser userID => modify (fun g => g <| g_connectionsUser ::= decrement userID |>)
        end
  end.
End guard.

Arguments mkLimiterEntry {Limiter} _ _.
Arguments le_limiter {Limiter} _.
Arguments le_lastSeen {Limiter} _.
Arguments limiterStore Limiter : clear implicits.
Arguments Guard Limiter : clear implicits.
Arguments limiterEntry Limiter : clear implicits.
