(* ===== verification/AntiAbuseFacts.v ===== *)
(** * The abuse guard: bounded tables, lockout, slots

    Invariants of the guard by induction over its operations, the exact
    behaviour of the login lockout, the preference of the failure eviction,
    and the charging of authentication attempts. *)

From S2P Require Import Prelude AntiAbuse.

(** ** Tables *)

Lemma size_delete_present `{Countable K} {V} (m : gmap K V) k :
  is_Some (m !! k) → S (size (delete k m)) = size m.
Proof.
  intros [v Hv]. rewrite map_size_delete, Hv. simpl.
  assert (size m ≠ 0); [|lia]. intros E%map_size_empty_inv. by rewrite E, lookup_empty in Hv.
Qed.

Lemma size_filter_le `{Countable K} {V} (P : K * V → Prop) `{∀ x, Decision (P x)} (m : gmap K V) :
  size (filter P m) ≤ size m.
Proof. apply map_subseteq_size, map_filter_subseteq. Qed.

(** A loop that keeps one of the elements it has seen. *)
Lemma foldl_pick {A E} (f : option A → E → option A) (g : E → A) :
  (∀ acc e, f acc e = acc ∨ f acc e = Some (g e)) → (∀ e, f None e = Some (g e)) →
  ∀ l, l ≠ [] → ∃ e, e ∈ l ∧ foldl f None l = Some (g e).
Proof.
  intros Hf H0 l Hl.
  assert (∀ l' a, foldl f (Some a) l' = Some a ∨ ∃ e, e ∈ l' ∧ foldl f (Some a) l' = Some (g e)) as Hrun.
  { induction l' as [|e l' IH]; intros a; [by left|]. simpl. destruct (Hf (Some a) e) as [->| ->].
    - destruct (IH a) as [?|(e'&?&?)]; [by left|right; exists e'; split; [by right|done]].
    - right. destruct (IH (g e)) as [?|(e'&?&?)]; [exists e|exists e']; (split; [|done]); [by left|by right]. }
  destruct l as [|e l]; [done|]. simpl. rewrite H0.
  destruct (Hrun l (g e)) as [?|(e'&?&?)]; [exists e|exists e']; (split; [|done]); [by left|by right].
Qed.

(** The sample of a non-empty table is a non-empty part of it. *)
Lemma sample_nonempty `{MapOrder, Countable K} {V} (m : gmap K V) :
  m ≠ ∅ → take evictionSample (range_entries m) ≠ [].
Proof.
  intros Hm. apply map_choose in Hm as (k&v&Hk). apply elem_of_range_entries in Hk.
  destruct (range_entries m); [by apply not_elem_of_nil in Hk|done].
Qed.

Lemma sample_entry `{MapOrder, Countable K} {V} (m : gmap K V) e :
  e ∈ take evictionSample (range_entries m) → m !! e.1 = Some e.2.
Proof.
  intros (i&Hi&_)%elem_of_take. apply elem_of_range_entries. destruct e.
  by apply list_elem_of_lookup_2 in Hi.
Qed.

(** ** Connection slots *)

#[export] Instance slot_eq_dec : EqDecision slot.
Proof. solve_decision. Defined.

(** The release closures of [p] that have not run. *)
Definition held (p : slot) (hs : list handle) : Z :=
  Z.of_nat (length (filter (fun h => hd_slot h = p ∧ hd_fired h = false) hs)).

Lemma held_snoc p q hs :
  held p (hs ++ [mkHandle q false]) = (held p hs + if decide (q = p) then 1 else 0)%Z.
Proof.
  unfold held. rewrite filter_app, length_app. case_decide.
  - rewrite filter_cons_True by done. simpl. lia.
  - rewrite filter_cons_False by naive_solver. simpl. lia.
Qed.

Lemma held_fire p hs i h :
  hs !! i = Some h → hd_fired h = false →
  held p (<[i := mkHandle (hd_slot h) true]> hs) =
    (held p hs - if decide (hd_slot h = p) then 1 else 0)%Z.
Proof.
  intros Hi Hf. unfold held.
  rewrite <- (take_drop_middle hs i h Hi) at 2. rewrite insert_take_drop by (by eapply lookup_lt_Some).
  rewrite !filter_app, !length_app. rewrite (filter_cons_False _ (mkHandle _ true)) by naive_solver.
  case_decide; [rewrite (filter_cons_True _ h) by done|rewrite (filter_cons_False _ h) by naive_solver];
    simpl; lia.
Qed.

(** The counter table [m] of the slots [mk k] agrees with the closures. *)
Definition slots_ok `{Countable K} (mk : K → slot) (m : gmap K Z) (hs : list handle) (max : Z) : Prop :=
  ∀ k, default 0%Z (m !! k) = held (mk k) hs ∧ m !! k ≠ Some 0%Z ∧ (held (mk k) hs <= Z.max 0 max)%Z.

Section slots.
Context `{Countable K} (mk : K → slot) `{!Inj (=) (=) mk}.

Lemma slots_acquire k m hs max :
  slots_ok mk m hs max → (default 0%Z (m !! k) < max)%Z →
  slots_ok mk (<[k := default 0 (m !! k) + 1]> m)%Z (hs ++ [mkHandle (mk k) false]) max.
Proof.
  intros Hok Hlt k'. destruct (Hok k') as (Hh&Hz&Hm). rewrite held_snoc, lookup_insert.
  assert (0 <= held (mk k') hs)%Z by (unfold held; lia).
  destruct (decide (k = k')) as [<-|Hne].
  - rewrite decide_True by done. simpl. split_and!; [lia|intros [= E]; lia|lia].
  - rewrite decide_False by (intros E; by apply Hne, (inj mk)). rewrite Z.add_0_r. done.
Qed.

Lemma slots_append_other q m hs max :
  slots_ok mk m hs max → (∀ k, q ≠ mk k) → slots_ok mk m (hs ++ [mkHandle q false]) max.
Proof.
  intros Hok Hq k. rewrite held_snoc, decide_False by apply Hq. rewrite Z.add_0_r. apply Hok.
Qed.

Lemma slots_release i h k m hs max :
  slots_ok mk m hs max → hs !! i = Some h → hd_fired h = false → hd_slot h = mk k →
  slots_ok mk (decrement k m) (<[i := mkHandle (hd_slot h) true]> hs) max.
Proof.
  intros Hok Hi Hf Hs k'. rewrite (held_fire _ _ _ _ Hi Hf), Hs.
  destruct (Hok k') as (Hh&Hz&Hm). unfold decrement. destruct (decide (mk k = mk k')) as [E|E].
  - apply (inj mk) in E as <-. split_and!; [| |lia].
    + destruct (Z.eqb_spec (default 0 (m !! k) - 1)%Z 0).
      * rewrite lookup_delete_eq. simpl. lia.
      * rewrite lookup_insert_eq. simpl. lia.
    + destruct (Z.eqb_spec (default 0 (m !! k) - 1)%Z 0).
      * by rewrite lookup_delete_eq.
      * rewrite lookup_insert_eq. congruence.
  - rewrite Z.sub_0_r. assert (k ≠ k') by (by intros ->).
    case_match; [rewrite lookup_delete_ne by done|rewrite lookup_insert_ne by done]; done.
Qed.

Lemma slots_release_other i h m hs max :
  slots_ok mk m hs max → hs !! i = Some h → hd_fired h = false → (∀ k, hd_slot h ≠ mk k) →
  slots_ok mk m (<[i := mkHandle (hd_slot h) true]> hs) max.
Proof.
  intros Hok Hi Hf Hq k. rewrite (held_fire _ _ _ _ Hi Hf), decide_False by apply Hq.
  rewrite Z.sub_0_r. apply Hok.
Qed.
End slots.
#[export] Instance SlotIP_inj : Inj (=) (=) SlotIP.
Proof. by intros ? ? [= ->]. Qed.
#[export] Instance SlotUser_inj : Inj (=) (=) SlotUser.
Proof. by intros ? ? [= ->]. Qed.

Section facts.
Context `{MapOrder} {Limiter : Type}.
Context (NewLimiter : Rate → Z → Limiter) (AllowN : Limiter → Z → bool * Limiter).
Implicit Types (g : Guard Limiter).

(** *** The bucket table *)

Lemma evictOldest_size (s : limiterStore Limiter) :
  ls_entries s ≠ ∅ → S (size (ls_entries (evictOldestLocked s))) = size (ls_entries s).
Proof.
  intros Hne. unfold evictOldestLocked.
  destruct (foldl_pick older_entry (fun e : string * limiterEntry Limiter => (e.1, le_lastSeen e.2))
    ltac:(intros [[]|] e; simpl; [case_match|]; auto) ltac:(done) _ (sample_nonempty _ Hne))
    as (e&He%sample_entry&->).
  simpl. apply size_delete_present. eauto.
Qed.

Definition store_bounded (s : limiterStore Limiter) : Prop :=
  (Z.of_nat (size (ls_entries s)) <= ls_maxEntries s)%Z ∧ (1 <= ls_maxEntries s)%Z.

Lemma store_allow_bounded key r burst now s :
  store_bounded s → store_bounded (store_allow NewLimiter AllowN key r burst now s).2 ∧
    ls_maxEntries (store_allow NewLimiter AllowN key r burst now s).2 = ls_maxEntries s.
Proof.
  intros [Hs H1]. unfold store_allow.
  set (s1 := mkLimiterStore (ls_entries s) _ _ _).
  set (s2 := if (_ || _) then store_cleanup now s1 else s1).
  assert (store_bounded s2 ∧ ls_maxEntries s2 = ls_maxEntries s) as [[Hs2 H12] Hm2].
  { unfold s2, store_bounded. case_match; simpl; [|done].
    pose proof (size_filter_le (fun e => ¬ (ls_ttl s1 <= now - le_lastSeen e.2)%Z) (ls_entries s1)).
    simpl in *. split_and!; [lia|done|done]. }
  destruct (ls_entries s2 !! key) as [entry|] eqn:He.
  - destruct (AllowN _ now) as [ok l]. unfold store_bounded. simpl.
    rewrite map_size_insert_Some by eauto. done.
  - destruct (AllowN _ now) as [ok l]. unfold store_bounded. simpl.
    destruct (store_full s2) eqn:Hf.
    + apply Z.leb_le in Hf. assert (ls_entries s2 ≠ ∅) as Hne.
      { intros E. rewrite E, map_size_empty in Hf. lia. }
      pose proof (evictOldest_size s2 Hne) as Hev.
      assert (ls_maxEntries (evictOldestLocked s2) = ls_maxEntries s2) as Hmx.
      { unfold evictOldestLocked. by repeat case_match. }
      rewrite Hmx, map_size_insert. destruct (ls_entries (evictOldestLocked s2) !! key); unfold id;
        split_and!; lia.
    + apply Z.leb_gt in Hf. rewrite map_size_insert, He. split_and!; lia.
Qed.

(** *** The failure table *)

Lemma failure_victim_entry now m :
  m ≠ ∅ → ∃ k e, m !! k = Some e ∧
    failure_victim now m = Some (k, fe_lastSeen e, (now <? fe_blockedUntil e)%Z).
Proof.
  intros Hne. unfold failure_victim.
  destruct (foldl_pick (better_victim now)
    (fun e => (e.1, fe_lastSeen e.2, (now <? fe_blockedUntil e.2)%Z))
    ltac:(intros [[[]]|] e; simpl; [case_match|]; auto) ltac:(done) _ (sample_nonempty _ Hne))
    as (e&He%sample_entry&Hf). exists e.1, e.2. done.
Qed.

Lemma evictFailure_size now (g : Guard Limiter) :
  g_failures g ≠ ∅ → S (size (g_failures (evictFailureLocked now g))) = size (g_failures g).
Proof.
  intros Hne. unfold evictFailureLocked. destruct (failure_victim_entry now _ Hne) as (k&e&He&->).
  simpl. apply size_delete_present. eauto.
Qed.

Definition failures_bounded (g : Guard Limiter) : Prop :=
  (Z.of_nat (size (g_failures g)) <= cf_MaxRateEntries (g_config g))%Z ∧
  (1 <= cf_MaxRateEntries (g_config g))%Z.

(** Everything but the failure table is left alone. *)
Definition only_failures (g g' : Guard Limiter) : Prop := g' = g <| g_failures := g_failures g' |>.

Lemma only_failures_trans g1 g2 g3 :
  only_failures g1 g2 → only_failures g2 g3 → only_failures g1 g3.
Proof. unfold only_failures. intros E1 E2. rewrite E2. rewrite E1 at 1. done. Qed.

Lemma cleanup_bounded now g :
  failures_bounded g → failures_bounded (cleanupFailuresLocked now g) ∧
    only_failures g (cleanupFailuresLocked now g).
Proof.
  intros [Hs H1]. unfold cleanupFailuresLocked. case_match; [split; [done|by destruct g]|].
  pose proof (size_filter_le (fun e => lapsed (g_config g) now e.2 = false) (g_failures g)).
  split; [|by destruct g]. split; simpl; [lia|done].
Qed.

Lemma record_failure_bounded now key g :
  failures_bounded g →
  wp (record_failure now key) (fun _ g' => failures_bounded g' ∧ only_failures g g') g.
Proof.
  intros [Hs H1]. unfold record_failure. wp_step. wp_step. wp_step.
  destruct (g_failures g !! key) as [e|] eqn:He.
  { wp_step; [done|]. wp_step. split; [|by destruct g]. split; [|done]. simpl.
    by rewrite map_size_insert_Some by eauto. }
  wp_step.
  - wp_step. wp_step. rename H0 into Hf. apply Z.leb_le in Hf.
    assert (g_failures g ≠ ∅) as Hne by (intros E; rewrite E, map_size_empty in Hf; lia).
    pose proof (evictFailure_size now g Hne) as Hev.
    assert (only_failures g (evictFailureLocked now g)) as Ho.
    { unfold evictFailureLocked, only_failures. repeat case_match; by destruct g. }
    set (g1 := evictFailureLocked now g) in *. rewrite Ho. split; [|by destruct g].
    split; simpl; [|done]. rewrite map_size_insert. destruct (g_failures g1 !! key); unfold id; lia.
  - rename H0 into Hf. apply Z.leb_gt in Hf. wp_step. split; [|by destruct g].
    split; simpl; [|done]. rewrite map_size_insert, He. lia.
Qed.

(** ** Reachable guards *)

Inductive guard_step (g : Guard Limiter) : Guard Limiter → Prop :=
  | step_http r now v g' : ProtectHTTP NewLimiter AllowN r now g = Ok (v, g') → guard_step g g'
  | step_allow_login ip id now later r g' :
      AllowLogin ip id now later g = Ok (r, g') → guard_step g g'
  | step_login_failure ip id now g' : RecordLoginFailure ip id now g = Ok (tt, g') → guard_step g g'
  | step_login_success ip id g' : RecordLoginSuccess ip id g = Ok (tt, g') → guard_step g g'
  | step_acquire_ip ip r g' : AcquireWebSocketIP ip g = Ok (r, g') → guard_step g g'
  | step_acquire_user u r g' : AcquireWebSocketUser u g = Ok (r, g') → guard_step g g'
  | step_release i g' : release i g = Ok (tt, g') → guard_step g g'.

Record guard_inv (cfg : Config) (g : Guard Limiter) : Prop := {
  gi_config : g_config g = cfg;
  gi_store : store_bounded (g_limiters g);
  gi_max : ls_maxEntries (g_limiters g) = cf_MaxRateEntries cfg;
  gi_failures : failures_bounded g;
  gi_ip : slots_ok SlotIP (g_connectionsIP g) (g_handles g) (cf_WebSocketMaxPerIP cfg);
  gi_user : slots_ok SlotUser (g_connectionsUser g) (g_handles g) (cf_WebSocketMaxPerUser cfg)
}.

Lemma guard_inv_new cfg : (1 <= cf_MaxRateEntries cfg)%Z → guard_inv cfg (New cfg).
Proof.
  intros H1. split; [done| |done| |..].
  - split; simpl; [rewrite map_size_empty; lia|done].
  - split; simpl; [rewrite map_size_empty; lia|done].
  - intros k. simpl. rewrite lookup_empty. unfold held. simpl. split_and!; [done|done|lia].
  - intros k. simpl. rewrite lookup_empty. unfold held. simpl. split_and!; [done|done|lia].
Qed.

Lemma guard_inv_failures cfg g g' :
  guard_inv cfg g → only_failures g g' → failures_bounded g' → guard_inv cfg g'.
Proof. intros Hi -> Hf. split; try apply Hi. done. Qed.

Lemma allow_inv cfg key r burst now g :
  guard_inv cfg g → wp (allow NewLimiter AllowN key r burst now) (fun _ g' => guard_inv cfg g') g.
Proof.
  intros Hi. unfold allow, wp.
  destruct (store_allow_bounded key r burst now (g_limiters g) (gi_store _ _ Hi)) as [Hb Hm].
  destruct (store_allow _ _ _ _ _ _ _) as [ok s]. simpl in Hb, Hm.
  split; try apply Hi; simpl; [done|by rewrite Hm, (gi_max _ _ Hi)].
Qed.

Lemma ProtectHTTP_inv cfg r now g :
  guard_inv cfg g → wp (ProtectHTTP NewLimiter AllowN r now) (fun _ g' => guard_inv cfg g') g.
Proof.
  intros Hi. unfold ProtectHTTP. wp_step. wp_step. wp_step.
  { wp_step. eapply wp_mono; [by apply allow_inv|]. intros ok g1 Hi1. by wp_step. }
  wp_step. eapply (wp_mono _ (fun _ g' => guard_inv cfg g')).
  { wp_step; [by apply allow_inv|by wp_step]. }
  intros ok1 g1 Hi1. wp_step; [by wp_step|]. wp_step. eapply wp_mono; [by apply allow_inv|].
  intros ok2 g2 Hi2. wp_step; [by wp_step|]. wp_step. eapply (wp_mono _ (fun _ g' => guard_inv cfg g')).
  { wp_step; [by wp_step|by apply allow_inv]. }
  intros ok3 g3 Hi3. wp_step; [by wp_step|]. destruct (route_bucket _ r) as [[[[key lim] b] retry]|]; [|by wp_step].
  wp_step. eapply wp_mono; [by apply allow_inv|]. intros ok g4 Hi4. by wp_step.
Qed.

Lemma delete_failure_bounded key g :
  failures_bounded g → failures_bounded (g <| g_failures ::= delete key |>) ∧
    only_failures g (g <| g_failures ::= delete key |>).
Proof.
  intros [Hs H1]. split; [|by destruct g]. split; simpl; [|done].
  rewrite map_size_delete. destruct (g_failures g !! key); unfold id; lia.
Qed.

Lemma login_blocked_bounded now keys g :
  failures_bounded g →
  wp (login_blocked now keys) (fun _ g' => failures_bounded g' ∧ only_failures g g') g.
Proof.
  revert g. induction keys as [|key keys IH]; intros g Hf; simpl.
  { wp_step. split; [done|by destruct g]. }
  wp_step. wp_step. destruct (g_failures g !! key) as [e|]; [|by apply IH].
  wp_step.
  - wp_step. wp_step. destruct (delete_failure_bounded key g Hf) as [Hf1 Ho1].
    eapply wp_mono; [by apply IH|]. intros r g2 [Hf2 Ho2]. split; [done|].
    exact (only_failures_trans _ _ _ Ho1 Ho2).
  - wp_step; [|by apply IH]. wp_step. split; [done|by destruct g].
Qed.

Lemma failures_loop (f : string → M (Guard Limiter) unit) keys g :
  (∀ key g, failures_bounded g → wp (f key) (fun _ g' => failures_bounded g' ∧ only_failures g g') g) →
  failures_bounded g →
  wp (for_each keys f) (fun _ g' => failures_bounded g' ∧ only_failures g g') g.
Proof.
  intros Hf Hg. apply (wp_for_each_inv _ _ (fun g' => failures_bounded g' ∧ only_failures g g')).
  - split; [done|by destruct g].
  - intros key g1 _ [Hb1 Ho1]. eapply wp_mono; [by apply Hf|]. intros [] g2 [Hb2 Ho2].
    split; [done|exact (only_failures_trans _ _ _ Ho1 Ho2)].
Qed.

Lemma guard_step_inv cfg g g' : guard_inv cfg g → guard_step g g' → guard_inv cfg g'.
Proof.
  intros Hi Hs. pose proof (gi_failures _ _ Hi) as Hf. destruct Hs as
    [r now v g' Hrun|ip id now later r g' Hrun|ip id now g' Hrun|ip id g' Hrun|ip r g' Hrun
    |u r g' Hrun|i g' Hrun].
  - by apply (wp_result _ _ _ _ _ (ProtectHTTP_inv cfg r now g Hi)) in Hrun.
  - destruct (cleanup_bounded now g Hf) as [Hf1 Ho1].
    assert (wp (AllowLogin ip id now later) (fun _ g' => failures_bounded g' ∧ only_failures g g') g) as Hwp.
    { unfold AllowLogin. wp_step. wp_step. wp_step. eapply wp_mono; [by apply login_blocked_bounded|].
      intros b g2 [Hf2 Ho2]. wp_step. split; [done|exact (only_failures_trans _ _ _ Ho1 Ho2)]. }
    apply (wp_result _ _ _ _ _ Hwp) in Hrun as [? ?]. by eapply guard_inv_failures.
  - destruct (cleanup_bounded now g Hf) as [Hf1 Ho1].
    assert (wp (RecordLoginFailure ip id now) (fun _ g' => failures_bounded g' ∧ only_failures g g') g) as Hwp.
    { unfold RecordLoginFailure. wp_step. wp_step. eapply wp_mono.
      - apply failures_loop; [|done]. intros key g0. apply record_failure_bounded.
      - intros [] g2 [Hf2 Ho2]. split; [done|exact (only_failures_trans _ _ _ Ho1 Ho2)]. }
    apply (wp_result _ _ _ _ _ Hwp) in Hrun as [? ?]. by eapply guard_inv_failures.
  - assert (wp (RecordLoginSuccess ip id) (fun _ g' => failures_bounded g' ∧ only_failures g g') g) as Hwp.
    { apply failures_loop; [|done]. intros key g0 Hg0. wp_step. by apply delete_failure_bounded. }
    apply (wp_result _ _ _ _ _ Hwp) in Hrun as [? ?]. by eapply guard_inv_failures.
  - unfold AcquireWebSocketIP, mbind, M_bind, get_state in Hrun. rewrite (gi_config _ _ Hi) in Hrun.
    destruct (Z.leb_spec (cf_WebSocketMaxPerIP cfg) (default 0%Z (g_connectionsIP g !! ip)));
      injection Hrun as <- <-; [done|].
    split; try apply Hi; simpl; [apply slots_acquire; [apply _|apply Hi|done]|].
    by apply slots_append_other; [apply Hi|].
  - unfold AcquireWebSocketUser, mbind, M_bind, get_state in Hrun. rewrite (gi_config _ _ Hi) in Hrun.
    destruct (Z.leb_spec (cf_WebSocketMaxPerUser cfg) (default 0%Z (g_connectionsUser g !! u)));
      injection Hrun as <- <-; [done|].
    split; try apply Hi; simpl; [by apply slots_append_other; [apply Hi|]|].
    apply slots_acquire; [apply _|apply Hi|done].
  - unfold release, mbind, M_bind, get_state in Hrun.
    destruct (g_handles g !! i) as [[sl fired]|] eqn:Hh; [|by injection Hrun as <-]. simpl in Hrun.
    destruct fired; [by injection Hrun as <-|].
    destruct sl as [ip|u]; injection Hrun as <-; (split; try apply Hi; simpl).
    + by eapply (slots_release SlotIP i (mkHandle (SlotIP ip) false) ip); [apply Hi| | |].
    + by apply (slots_release_other SlotUser i (mkHandle (SlotIP ip) false)); [apply Hi| | |].
    + by apply (slots_release_other SlotIP i (mkHandle (SlotUser u) false)); [apply Hi| | |].
    + by eapply (slots_release SlotUser i (mkHandle (SlotUser u) false) u); [apply Hi| | |].
Qed.

Lemma guard_reachable_inv cfg g :
  (1 <= cf_MaxRateEntries cfg)%Z → rtc guard_step (New cfg) g → guard_inv cfg g.
Proof.
  intros H1 Hr. assert (Hi := guard_inv_new cfg H1). remember (New cfg) as g0 eqn:E. clear E.
  induction Hr; eauto using guard_step_inv.
Qed.

(** ** The login lockout *)

(** The entry after one more failure. *)
Definition bump (cfg : Config) (now : Z) (found : option failureEntry) : failureEntry :=
  let entry := match found with
    | Some e => if lapsed cfg now e then mkFailureEntry 0 0 0 else e
    | None => mkFailureEntry 0 0 0
    end in
  mkFailureEntry (fe_failures entry + 1)
    (if (cf_LoginMaxFailures cfg <=? fe_failures entry + 1)%Z
     then (now + cf_LoginBlockDuration cfg)%Z else fe_blockedUntil entry) now.

Lemma record_failure_run now key g :
  (Z.of_nat (size (g_failures g)) < cf_MaxRateEntries (g_config g))%Z →
  record_failure now key g =
    Ok (tt, g <| g_failures ::= <[key := bump (g_config g) now (g_failures g !! key)]> |>).
Proof.
  intros Hlt. unfold record_failure, mbind, M_bind, get_state, when, modify.
  destruct (g_failures g !! key) as [e|]; [done|].
  by rewrite (proj2 (Z.leb_gt _ _) Hlt).
Qed.

Lemma login_keys_differ ip id :
  "login:ip:" +:+ ip ≠ "login:pair:" +:+ ip +:+ ":" +:+ id.
Proof. by intros [=]. Qed.

(** There is room for the two entries of a login. *)
Definition room (ip id : string) (g : Guard Limiter) : Prop :=
  let e := mkFailureEntry 0 0 0 in
  (Z.of_nat (size (<["login:ip:" +:+ ip := e]>
     (<["login:pair:" +:+ ip +:+ ":" +:+ id := e]> (g_failures g)))) < cf_MaxRateEntries (g_config g))%Z.

Definition with_failure (ip id : string) (e : failureEntry) (g : Guard Limiter) : Guard Limiter :=
  g <| g_failures := <["login:pair:" +:+ ip +:+ ":" +:+ id := e]>
         (<["login:ip:" +:+ ip := e]> (g_failures g)) |>.

Lemma room_size ip id g :
  room ip id g →
  (Z.of_nat (size (g_failures g)) < cf_MaxRateEntries (g_config g))%Z ∧
  ∀ e, (Z.of_nat (size (<["login:ip:" +:+ ip := e]> (g_failures g))) < cf_MaxRateEntries (g_config g))%Z.
Proof.
  unfold room. intros Hr. pose proof (login_keys_differ ip id) as Hne.
  rewrite !map_size_insert in Hr. rewrite lookup_insert_ne in Hr by done.
  split; [|intros e; rewrite map_size_insert];
    destruct (g_failures g !! ("login:ip:" +:+ ip)), (g_failures g !! ("login:pair:" +:+ ip +:+ ":" +:+ id));
    unfold Datatypes.id in *; lia.
Qed.

Lemma RecordLoginFailure_run ip id now e g :
  room ip id g →
  bump (g_config g) now (g_failures g !! ("login:ip:" +:+ ip)) = e →
  bump (g_config g) now (g_failures g !! ("login:pair:" +:+ ip +:+ ":" +:+ id)) = e →
  RecordLoginFailure ip id now g = Ok (tt, with_failure ip id e g).
Proof.
  intros Hroom H1 H2. destruct (room_size _ _ _ Hroom) as [Hlt Hlt1].
  pose proof (login_keys_differ ip id) as Hne.
  unfold RecordLoginFailure, cleanupFailuresLocked.
  rewrite (bind_run (modify _) _ g tt g) by (unfold modify; by rewrite (proj2 (Z.ltb_lt _ _) Hlt)).
  unfold loginFailureKeys. cbn [for_each].
  rewrite (bind_run _ _ _ _ _ (record_failure_run now _ g Hlt)).
  rewrite H1. erewrite bind_run; [|apply record_failure_run; apply Hlt1]. simpl.
  rewrite lookup_insert_ne by done. rewrite H2. done.
Qed.

(** The entries after [n] failures, the last of them at [t]. *)
Definition locked_entry (cfg : Config) (n t : Z) : failureEntry :=
  mkFailureEntry n (if (cf_LoginMaxFailures cfg <=? n)%Z
                    then (t + cf_LoginBlockDuration cfg)%Z else 0%Z) t.

Definition counted (ip id : string) (n t : Z) (g : Guard Limiter) : Prop :=
  g_failures g !! ("login:ip:" +:+ ip) = Some (locked_entry (g_config g) n t) ∧
  g_failures g !! ("login:pair:" +:+ ip +:+ ":" +:+ id) = Some (locked_entry (g_config g) n t).

Lemma with_failure_counted ip id e g :
  let g' := with_failure ip id e g in
  g_config g' = g_config g ∧ (room ip id g → room ip id g') ∧
  g_failures g' !! ("login:ip:" +:+ ip) = Some e ∧
  g_failures g' !! ("login:pair:" +:+ ip +:+ ":" +:+ id) = Some e.
Proof.
  pose proof (login_keys_differ ip id) as Hne. simpl.
  split_and!; [done| |by rewrite lookup_insert_ne, lookup_insert_eq|by rewrite lookup_insert_eq].
  unfold room. simpl. set (k1 := "login:ip:" +:+ ip) in *.
  set (k2 := "login:pair:" +:+ ip +:+ ":" +:+ id) in *. intros Hr.
  rewrite 2!map_size_insert_Some.
  - rewrite insert_insert_ne, (map_size_insert k1) by done. rewrite (map_size_insert k1) in Hr.
    rewrite !lookup_insert_ne in * by done. rewrite !map_size_insert in *.
    destruct (g_failures g !! k1), (g_failures g !! k2); unfold Datatypes.id in *; lia.
  - rewrite lookup_insert_eq. by eexists.
  - rewrite !lookup_insert_ne by done. rewrite lookup_insert_eq. by eexists.
Qed.

Lemma bump_fresh cfg now : bump cfg now None = locked_entry cfg 1 now.
Proof. done. Qed.

Lemma bump_again cfg n t now :
  (now - t < cf_EntryTTL cfg)%Z →
  bump cfg now (Some (locked_entry cfg n t)) = locked_entry cfg (n + 1) now.
Proof.
  intros Hgap. unfold bump, lapsed, locked_entry. simpl.
  rewrite (proj2 (Z.leb_gt _ _)) by lia. simpl.
  destruct (Z.leb_spec (cf_LoginMaxFailures cfg) (n + 1)); [done|].
  by rewrite (proj2 (Z.leb_gt _ _)) by lia.
Qed.

(** Each attempt comes before the entry of the previous one has lapsed. *)
Definition soon (cfg : Config) (t t' : Z) : Prop := (t' - t < cf_EntryTTL cfg)%Z.

Lemma failures_run ip id times : ∀ n t g,
  room ip id g → counted ip id n t g → Sorted (soon (g_config g)) (t :: times) →
  ∃ g', for_each times (RecordLoginFailure ip id) g = Ok (tt, g') ∧ g_config g' = g_config g ∧
    room ip id g' ∧ counted ip id (n + Z.of_nat (length times)) (List.last times t) g'.
Proof.
  induction times as [|now times IH]; intros n t g Hroom [H1 H2] Hs.
  { exists g. simpl. by rewrite Z.add_0_r. }
  apply Sorted_inv in Hs as [Hs Hhd]. apply HdRel_inv in Hhd.
  pose proof (RecordLoginFailure_run ip id now (locked_entry (g_config g) (n + 1) now) g Hroom) as Hrun.
  rewrite H1, H2 in Hrun. rewrite bump_again in Hrun by done.
  destruct (with_failure_counted ip id (locked_entry (g_config g) (n + 1) now) g) as (Hc&Hr&He1&He2).
  destruct (IH (n + 1)%Z now (with_failure ip id (locked_entry (g_config g) (n + 1) now) g))
    as (g'&Hg'&Hcfg&Hroom'&Hcount); [by apply Hr|by split; rewrite Hc|by rewrite Hc|].
  exists g'. split_and!.
  - simpl. by rewrite (bind_run _ _ _ _ _ (Hrun eq_refl eq_refl)).
  - by rewrite Hcfg.
  - done.
  - replace (List.last (now :: times) t) with (List.last times now).
    + replace (n + Z.of_nat (length (now :: times)))%Z with (n + 1 + Z.of_nat (length times))%Z
        by (simpl length; lia). done.
    + destruct times as [|x l]; [done|]. change (List.last (now :: x :: l) t) with (List.last (x :: l) t).
      clear. revert x. induction l as [|y l IH]; intros x; [done|]. simpl in *. apply IH.
Qed.

(** What [AllowLogin] answers about an address whose entries count [n]
    failures, the last at [t]. *)
Definition login_answer (cfg : Config) (n t now later : Z) : bool * Z :=
  if (cf_LoginMaxFailures cfg <=? n)%Z && (now <? t + cf_LoginBlockDuration cfg)%Z
  then (false, t + cf_LoginBlockDuration cfg - later)%Z else (true, 0%Z).

Lemma AllowLogin_counted ip id n t now later g :
  room ip id g → counted ip id n t g → (0 <= now)%Z →
  wp (AllowLogin ip id now later) (fun r _ => r = login_answer (g_config g) n t now later) g.
Proof.
  intros Hroom [H1 H2] Hnow. destruct (room_size _ _ _ Hroom) as [Hlt _].
  pose proof (login_keys_differ ip id) as Hne. unfold AllowLogin, cleanupFailuresLocked.
  wp_step. wp_step. rewrite (proj2 (Z.ltb_lt _ _) Hlt). wp_step.
  unfold loginFailureKeys. cbn [login_blocked]. wp_step. wp_step. rewrite H1.
  set (cfg := g_config g) in *. set (e := locked_entry cfg n t) in *.
  assert (login_answer cfg n t now later =
    if (now <? fe_blockedUntil e)%Z then (false, fe_blockedUntil e - later)%Z else (true, 0%Z)) as ->.
  { unfold login_answer, e, locked_entry. simpl. destruct (cf_LoginMaxFailures cfg <=? n)%Z; [done|].
    by rewrite (proj2 (Z.ltb_ge _ _) Hnow). }
  unfold lapsed. destruct (now <? fe_blockedUntil e)%Z eqn:Hbl.
  - rewrite andb_false_r. wp_step. by wp_step.
  - rewrite andb_true_r. destruct (cf_EntryTTL cfg <=? now - fe_lastSeen e)%Z eqn:Hl.
    + wp_step. wp_step. wp_step. wp_step. simpl. rewrite lookup_delete_ne by done. rewrite H2.
      fold cfg. rewrite Hl, Hbl. simpl. wp_step. wp_step. wp_step. by wp_step.
    + wp_step. wp_step. rewrite H2. fold cfg. rewrite Hl, Hbl. simpl. wp_step. by wp_step.
Qed.

Lemma AllowLogin_unknown ip id now later g :
  g_failures g !! ("login:ip:" +:+ ip) = None →
  g_failures g !! ("login:pair:" +:+ ip +:+ ":" +:+ id) = None →
  wp (AllowLogin ip id now later) (fun r _ => r = (true, 0%Z)) g.
Proof.
  intros H1 H2. unfold AllowLogin. wp_step. wp_step.
  assert (∀ key, g_failures g !! key = None → g_failures (cleanupFailuresLocked now g) !! key = None) as Hc.
  { intros key Hk. unfold cleanupFailuresLocked. case_match; [done|]. simpl.
    by rewrite map_lookup_filter, Hk. }
  unfold loginFailureKeys. cbn [login_blocked]. wp_step. wp_step. wp_step. rewrite Hc by done.
  wp_step. wp_step. rewrite Hc by done. wp_step. by wp_step.
Qed.

Lemma RecordLoginSuccess_clears ip id g :
  wp (RecordLoginSuccess ip id) (fun _ g' =>
    g' = g <| g_failures := delete ("login:pair:" +:+ ip +:+ ":" +:+ id)
                              (delete ("login:ip:" +:+ ip) (g_failures g)) |>) g.
Proof. unfold RecordLoginSuccess, loginFailureKeys. simpl. wp_step. wp_step. wp_step. wp_step. by wp_step. Qed.

(** *** The victim of an eviction *)

(** [e] is evicted no later than [e']: expired blocks first, then by age. *)
Definition evicted_before (now : Z) (b : bool) (seen : Z) (e' : failureEntry) : Prop :=
  let b' := (now <? fe_blockedUntil e')%Z in
  (b = false ∧ b' = true) ∨ (b = b' ∧ (seen <= fe_lastSeen e')%Z).

Lemma better_victim_step now k seen b e :
  ∃ k' seen' b', better_victim now (Some (k, seen, b)) e = Some (k', seen', b') ∧
    evicted_before now b' seen' e.2 ∧
    ∀ e0, evicted_before now b seen e0 → evicted_before now b' seen' e0.
Proof.
  unfold better_victim, evicted_before. set (be := (now <? fe_blockedUntil e.2)%Z).
  destruct b, be eqn:Hbe; simpl; repeat case_match; eexists _, _, _; (split; [done|]);
    rewrite ?Z.ltb_lt, ?Z.ltb_ge in *; naive_solver lia.
Qed.

Lemma foldl_victim now l : ∀ k seen b seen0,
  (∀ e0, e0 ∈ seen0 → evicted_before now b seen e0.2) →
  ∃ k' seen' b', foldl (better_victim now) (Some (k, seen, b)) l = Some (k', seen', b') ∧
    ∀ e0, e0 ∈ seen0 ++ l → evicted_before now b' seen' e0.2.
Proof.
  induction l as [|e l IH]; intros k seen b seen0 Hall.
  { exists k, seen, b. by rewrite app_nil_r. }
  cbn [foldl]. destruct (better_victim_step now k seen b e) as (k1&s1&b1&->&He&Hmono).
  destruct (IH k1 s1 b1 (seen0 ++ [e])) as (k'&s'&b'&Hr&Hall').
  - intros e0 [?|Hin]%elem_of_app; [by apply Hmono, Hall|].
    apply list_elem_of_singleton in Hin as ->. done.
  - exists k', s', b'. split; [done|]. intros e0 Hin. apply Hall'. by rewrite <- app_assoc.
Qed.

Lemma failure_victim_first now m k seen b :
  failure_victim now m = Some (k, seen, b) →
  ∀ e, e ∈ take evictionSample (range_entries m) → evicted_before now b seen e.2.
Proof.
  unfold failure_victim. destruct (take _ _) as [|e0 l]; [done|]. cbn [foldl].
  change (better_victim now None e0) with
    (Some (e0.1, fe_lastSeen e0.2, (now <? fe_blockedUntil e0.2)%Z)). intros Hf.
  destruct (foldl_victim now l e0.1 (fe_lastSeen e0.2) (now <? fe_blockedUntil e0.2)%Z [e0])
    as (k'&s'&b'&Hr&Hall).
  - intros e Hin. apply list_elem_of_singleton in Hin as ->. right. split; [done|lia].
  - rewrite Hr in Hf. injection Hf as -> -> ->. exact Hall.
Qed.
End facts.
