(* ===== verification/Buckets.v ===== *)
(** * The bucket table refines one token bucket per key

    [limiterStore] keeps the token buckets of all keys in one table of bounded
    size, forgets a bucket that has not been used for the time to live and
    makes a full one when the key comes back. Its specification, for one key,
    is a single bucket that is charged by the calls with that key and never
    forgotten, [bucket_run]. The two answer alike whatever is asked for the
    other keys, for every token bucket that is full again after the time to
    live: those laws are the class [BucketLaws], and [Bucket] is an exact
    integer token bucket that has them. *)

From S2P Require Import Prelude AntiAbuse AntiAbuseFacts.

(** ** What is asked of a token bucket *)

Section laws.
Context {Limiter : Type} (NewLimiter : Rate → Z → Limiter) (AllowN : Limiter → Z → bool * Limiter).

(** The buckets made for [(r, b)] and last used at a given time. *)
Inductive used (r : Rate) (b : Z) : Z → Limiter → Prop :=
  | used_new t : used r b t (AllowN (NewLimiter r b) t).2
  | used_again t t' l : used r b t l → (t <= t')%Z → used r b t' (AllowN l t').2.

(** [same now l l']: no call at [now] or later tells [l] from [l']. *)
Class BucketLaws (ttl : Z) (refills : Rate → Z → Prop) := {
  same : Z → Limiter → Limiter → Prop;
  same_equivalence :: ∀ now, Equivalence (same now);
  same_later now now' l l' : same now l l' → (now <= now')%Z → same now' l l';
  same_allow now l l' : same now l l' →
    (AllowN l now).1 = (AllowN l' now).1 ∧ same now (AllowN l now).2 (AllowN l' now).2;
  refill r b l t now : refills r b → used r b t l → (t + ttl <= now)%Z →
    same now l (NewLimiter r b)
}.

(** ** The specification *)

Record call := mkCall { cl_key : string; cl_rate : Rate; cl_burst : Z; cl_now : Z }.

(** One bucket, charged at the given times. *)
Fixpoint bucket_run (l : Limiter) (times : list Z) : list bool :=
  match times with
  | [] => []
  | now :: rest => let '(ok, l') := AllowN l now in ok :: bucket_run l' rest
  end.

Context `{MapOrder}.

Definition store_call (c : call) (s : limiterStore Limiter) : bool * limiterStore Limiter :=
  store_allow NewLimiter AllowN (cl_key c) (cl_rate c) (cl_burst c) (cl_now c) s.

(** The answers of the table, one for each call. *)
Fixpoint run (calls : list call) (s : limiterStore Limiter) : list bool :=
  match calls with
  | [] => []
  | c :: rest => let '(ok, s') := store_call c s in ok :: run rest s'
  end.

(** The calls with a key, and their answers. *)
Fixpoint answers (key : string) (calls : list call) (oks : list bool) : list bool :=
  match calls, oks with
  | c :: calls, ok :: oks =>
      if decide (cl_key c = key) then ok :: answers key calls oks else answers key calls oks
  | _, _ => []
  end.
Definition times (key : string) (calls : list call) : list Z :=
  cl_now <$> filter (fun c => cl_key c = key) calls.

(** The keys used within [ttl] before [now]. *)
Definition active (ttl now : Z) (calls : list call) : gset string :=
  list_to_set (cl_key <$> filter (fun c => now - ttl < cl_now c)%Z calls).

(** ** The simulation *)

Context (ttl max : Z) (refills : Rate → Z → Prop) `{!BucketLaws ttl refills}.
Context (key : string) (r : Rate) (b : Z) (Hrefills : refills r b).

(** The entry of [key] and the bucket of the specification. *)
Definition key_sim (now : Z) (found : option (limiterEntry Limiter)) (l : Limiter) : Prop :=
  match found with
  | Some e => same now (le_limiter e) l ∧ used r b (le_lastSeen e) (le_limiter e) ∧ (le_lastSeen e <= now)%Z
  | None => same now (NewLimiter r b) l
  end.

Record sim (past : list call) (now : Z) (s : limiterStore Limiter) (l : Limiter) : Prop := {
  sim_ttl : ls_ttl s = ttl;
  sim_max : ls_maxEntries s = max;
  sim_past k e : ls_entries s !! k = Some e → ∃ c, c ∈ past ∧ cl_key c = k ∧ cl_now c = le_lastSeen e;
  sim_key : key_sim now (ls_entries s !! key) l
}.

Lemma key_sim_later now now' found l : (now <= now')%Z → key_sim now found l → key_sim now' found l.
Proof.
  intros Hle. destruct found as [e|]; simpl.
  - intros (?&?&?). split_and!; [by eapply same_later|done|lia].
  - intros Hl. by eapply same_later.
Qed.

Lemma key_sim_expire now e l :
  key_sim now (Some e) l → (ttl <= now - le_lastSeen e)%Z → key_sim now None l.
Proof.
  intros (Hs&Hu&_) Ht. simpl. transitivity (le_limiter e); [|done]. symmetry.
  eapply refill; [done|done|lia].
Qed.

Lemma sim_cleanup past now s l : sim past now s l → sim past now (store_cleanup now s) l.
Proof.
  intros Hs. split; simpl; try apply Hs.
  - intros k e [Hk _]%map_lookup_filter_Some. by apply (sim_past _ _ _ _ Hs).
  - pose proof (sim_key _ _ _ _ Hs) as Hk. rewrite map_lookup_filter.
    destruct (ls_entries s !! key) as [e|] eqn:He; [|exact Hk]. simpl.
    destruct (decide (ls_ttl s <= now - le_lastSeen e)%Z) as [Ht|Ht].
    + rewrite option_guard_False by auto. rewrite (sim_ttl _ _ _ _ Hs) in Ht. by eapply key_sim_expire.
    + rewrite option_guard_True by done. exact Hk.
Qed.

(** After a clean-up the table holds only keys used within the time to live. *)
Lemma cleanup_active past now s l k e :
  sim past now s l → ls_entries (store_cleanup now s) !! k = Some e → k ∈ active ttl now past.
Proof.
  intros Hs [Hk Ht]%map_lookup_filter_Some. simpl in Ht. rewrite (sim_ttl _ _ _ _ Hs) in Ht.
  apply (sim_past _ _ _ _ Hs) in Hk as (c&Hc&<-&Hn). apply elem_of_list_to_set, list_elem_of_fmap.
  exists c. split; [done|]. apply list_elem_of_filter. split; [lia|done].
Qed.

(** After it there is room for a key that is not in the table. *)
Lemma cleanup_room past c s l :
  sim past (cl_now c) s l → (0 < ttl)%Z →
  (Z.of_nat (size (active ttl (cl_now c) (past ++ [c]))) <= max)%Z →
  ls_entries (store_cleanup (cl_now c) s) !! cl_key c = None →
  store_full (store_cleanup (cl_now c) s) = false.
Proof.
  intros Hs Httl Hmax Hn. apply Z.leb_gt. rewrite <- size_dom.
  change (ls_maxEntries (store_cleanup _ s)) with (ls_maxEntries s). rewrite (sim_max _ _ _ _ Hs).
  enough (size (dom (ls_entries (store_cleanup (cl_now c) s))) <
    size (active ttl (cl_now c) (past ++ [c]))) by lia.
  apply subset_size. split.
  - intros k [e Hk]%elem_of_dom. eapply cleanup_active in Hk; [|done]. revert Hk. unfold active.
    rewrite filter_app, fmap_app, list_to_set_app. set_solver.
  - intros Hsub. assert (cl_key c ∈ dom (ls_entries (store_cleanup (cl_now c) s))) as [e He]%elem_of_dom; [|congruence].
    apply Hsub, elem_of_list_to_set, list_elem_of_fmap. exists c. split; [done|].
    apply list_elem_of_filter. split; [lia|set_solver].
Qed.

Lemma sim_insert past now s l c l1 l' :
  sim past now s l → cl_now c = now →
  (if decide (cl_key c = key) then same now l1 l' ∧ used r b now l1 else l' = l) →
  sim (past ++ [c]) now (mkLimiterStore (<[cl_key c := mkLimiterEntry l1 now]> (ls_entries s)) (ls_ttl s)
             (ls_maxEntries s) (ls_operations s)) l'.
Proof.
  intros Hs Hn Hl. split; simpl; try apply Hs.
  - intros k e [[<- <-]|[_ Hk]]%lookup_insert_Some; [exists c; set_solver|].
    apply (sim_past _ _ _ _ Hs) in Hk as (c'&?&?&?). exists c'. set_solver.
  - case_decide as Hc.
    + rewrite Hc, lookup_insert_eq. simpl. destruct Hl. by split_and!.
    + rewrite lookup_insert_ne by done. subst l'. apply Hs.
Qed.

(** One call: the specification moves only if it is for [key]. *)
Lemma store_call_sim past now s l c :
  sim past now s l → (now <= cl_now c)%Z → (0 < ttl)%Z →
  (cl_key c = key → cl_rate c = r ∧ cl_burst c = b) →
  (Z.of_nat (size (active ttl (cl_now c) (past ++ [c]))) <= max)%Z →
  let '(ok, s') := store_call c s in
  if decide (cl_key c = key)
  then ok = (AllowN l (cl_now c)).1 ∧ sim (past ++ [c]) (cl_now c) s' (AllowN l (cl_now c)).2
  else sim (past ++ [c]) (cl_now c) s' l.
Proof.
  intros Hs Hle Httl Hkind Hmax. unfold store_call, store_allow.
  set (s1 := mkLimiterStore (ls_entries s) _ _ _).
  assert (sim past (cl_now c) s1 l) as Hs1.
  { split; simpl; try apply Hs. eapply key_sim_later; [done|apply Hs]. }
  set (s2 := if (_ || _) then store_cleanup (cl_now c) s1 else s1).
  assert (sim past (cl_now c) s2 l) as Hs2 by (unfold s2; case_match; [by apply sim_cleanup|done]).
  assert (ls_entries s2 !! cl_key c = None → store_full s2 = false) as Hroom.
  { unfold s2. destruct ((_ =? 0)%Z || store_full s1) eqn:Hf; [by apply (cleanup_room past c s1 l)|].
    by apply orb_false_iff in Hf as [_ ?]. }
  clearbody s2. clear Hs1 s1.
  set (found := ls_entries s2 !! cl_key c) in *.
  assert ((match found with
    | Some entry => (le_limiter entry, s2)
    | None => (NewLimiter (cl_rate c) (cl_burst c), if store_full s2 then evictOldestLocked s2 else s2)
    end) = (default (NewLimiter (cl_rate c) (cl_burst c)) (le_limiter <$> found), s2)) as ->.
  { destruct found; [done|]. by rewrite Hroom. }
  set (l0 := default _ _). destruct (AllowN l0 (cl_now c)) as [ok l1] eqn:Hallow.
  assert (cl_key c = key → same (cl_now c) l0 l ∧ used r b (cl_now c) l1) as Hbucket.
  { intros E. destruct (Hkind E) as [Er Eb]. pose proof (sim_key _ _ _ _ Hs2) as Hk.
    assert (l1 = (AllowN l0 (cl_now c)).2) as -> by (by rewrite Hallow). unfold l0, found in *. rewrite E in *.
    destruct (ls_entries s2 !! key) as [e|]; simpl in *; [|rewrite Er, Eb; by split; [|constructor]].
    destruct Hk as (?&?&?). split; [done|by eapply used_again]. }
  case_decide as Hc.
  - destruct (Hbucket Hc) as [Hsame Hused]. destruct (same_allow _ _ _ Hsame) as [Hok Hnext].
    rewrite Hallow in Hok, Hnext. split; [done|]. apply (sim_insert past _ s2 l c); [done..|].
    by rewrite decide_True.
  - apply (sim_insert past _ s2 l c); [done..|]. by rewrite decide_False.
Qed.

(** No more keys are used within the time to live than the table may hold. *)
Definition fits (past calls : list call) : Prop :=
  ∀ pre c post, calls = pre ++ c :: post →
    (Z.of_nat (size (active ttl (cl_now c) (past ++ pre ++ [c]))) <= max)%Z.

Lemma run_sim calls : ∀ past now s l,
  sim past now s l → (0 < ttl)%Z → (∀ c, c ∈ calls → cl_key c = key → cl_rate c = r ∧ cl_burst c = b) →
  Sorted Z.le (now :: map cl_now calls) → fits past calls →
  answers key calls (run calls s) = bucket_run l (times key calls).
Proof.
  induction calls as [|c calls IH]; intros past now s l Hs Httl Hkind Hsort Hfit; [done|]. simpl in Hsort.
  apply Sorted_inv in Hsort as [Hsort Hhd]. apply HdRel_inv in Hhd.
  pose proof (store_call_sim past now s l c Hs Hhd Httl ltac:(apply Hkind; left) (Hfit [] c calls eq_refl)) as Hstep.
  assert (fits (past ++ [c]) calls) as Hfit'.
  { intros pre c' post ->. rewrite <- app_assoc. by apply (Hfit (c :: pre) c' post). }
  assert (∀ c', c' ∈ calls → cl_key c' = key → cl_rate c' = r ∧ cl_burst c' = b) as Hkind'
    by (intros c' Hc'; apply Hkind; by right).
  simpl. destruct (store_call c s) as [ok s']. unfold times. rewrite filter_cons. simpl.
  case_decide as Hc; simpl.
  - destruct Hstep as [-> Hs']. destruct (AllowN l (cl_now c)) as [ok l']. simpl. f_equal. by eapply IH.
  - by eapply IH.
Qed.
End laws.

(** C33: Isolation of the keys in the shared table of token buckets. Take a key
    that is always charged with the same rate and burst, whose bucket refills
    within the time to live, and any sequence of calls for it and for other
    keys - at whatever rates - in which time does not run backwards and no
    more keys are used within a time to live than the table may hold. Then
    the calls with that key are answered exactly as by one bucket of its own
    that is charged by them alone and kept for ever: neither the calls for
    other keys, nor the periodic clean-up that forgets idle buckets, nor the
    number of keys seen over time shows in them. (With more keys in use the
    table evicts a bucket that is still needed; and the keys ["http:all:"]
    are charged with two rates.) *)
Theorem limiter_refines_buckets `{MapOrder} {Limiter} (NewLimiter : Rate → Z → Limiter) AllowN
    ttl refills `{!BucketLaws NewLimiter AllowN ttl refills} calls max key r b :
  (0 < ttl)%Z → refills r b →
  (∀ c, c ∈ calls → cl_key c = key → cl_rate c = r ∧ cl_burst c = b) →
  Sorted Z.le (map cl_now calls) →
  (∀ pre c post, calls = pre ++ c :: post →
     (Z.of_nat (size (active ttl (cl_now c) (pre ++ [c]))) <= max)%Z) →
  answers key calls (run NewLimiter AllowN calls (mkLimiterStore ∅ ttl max 0)) =
    bucket_run AllowN (NewLimiter r b) (times key calls).
Proof.
  intros Httl Hr Hkind Hs Hfit. destruct calls as [|c calls]; [done|]. set (cs := c :: calls) in *.
  apply (run_sim NewLimiter AllowN ttl max refills key r b Hr cs [] (cl_now c)); [|done|exact Hkind| |exact Hfit].
  - split; simpl; [done|done|done|]. rewrite lookup_empty. simpl. reflexivity.
  - simpl. constructor; [done|]. constructor. lia.
Qed.

(** ** An exact token bucket

    Tokens are counted in units of [1 / Unit], where [Unit] is the number of
    nanoseconds in a minute, so that both kinds of rate add a whole number of
    units per nanosecond. *)
Module Bucket.
Definition Unit : Z := Minute.
Definition speed (r : Rate) : Z := match r with PerSecond n => 60 * n | PerMinute n => n end%Z.

Record t := mk { rate : Rate; burst : Z; tokens : Z; last : Z }.

Definition NewLimiter (r : Rate) (b : Z) : t := mk r b (b * Unit)%Z 0.

Definition advance (l : t) (now : Z) : Z :=
  Z.min (burst l * Unit) (tokens l + Z.max 0 (now - last l) * speed (rate l)).

Definition AllowN (l : t) (now : Z) : bool * t :=
  if (Unit <=? advance l now)%Z
  then (true, mk (rate l) (burst l) (advance l now - Unit) now) else (false, l).

(** A bucket that is full again after [ttl]. *)
Definition refills (ttl : Z) (r : Rate) (b : Z) : Prop :=
  (0 <= b ∧ 0 <= speed r ∧ b * Unit <= ttl * speed r)%Z.

Definition alike (now : Z) (l l' : t) : Prop :=
  rate l = rate l' ∧ burst l = burst l' ∧
  ∀ now', (now <= now')%Z → advance l now' = advance l' now'.

#[export] Instance alike_equivalence now : Equivalence (alike now).
Proof.
  split.
  - by intros l.
  - intros l l' (?&?&Ha). split_and!; [done..|]. intros. symmetry. by apply Ha.
  - intros l1 l2 l3 (?&?&Ha) (?&?&Hb). split_and!; [congruence..|]. intros. by rewrite Ha, Hb.
Qed.

Lemma alike_allow now l l' :
  alike now l l' → (AllowN l now).1 = (AllowN l' now).1 ∧ alike now (AllowN l now).2 (AllowN l' now).2.
Proof.
  intros Hl. pose proof Hl as (Hr&Hb&Ha). unfold AllowN. rewrite (Ha now) by lia.
  case_match; simpl; (split; [done|]); [by rewrite Hr, Hb|done].
Qed.

Lemma used_state ttl r b now l :
  refills ttl r b → used NewLimiter AllowN r b now l →
  rate l = r ∧ burst l = b ∧ (0 <= tokens l)%Z ∧ (tokens l = b * Unit ∨ last l <= now)%Z.
Proof.
  intros (Hb&Hsp&_) Hu. assert (0 < Unit)%Z by done.
  induction Hu as [now|seen now l _ (Hr&Hbu&Ht&Hl) Hle]; unfold AllowN; case_match eqn:Hok; simpl;
    rewrite ?Z.leb_le in Hok; split_and!; try done; simpl; nia.
Qed.

#[export] Instance Bucket_laws ttl : BucketLaws NewLimiter AllowN ttl (refills ttl).
Proof.
  refine {| same := alike |}.
  - intros now now' l l' (?&?&Ha) Hle. split_and!; [done..|]. intros. apply Ha. lia.
  - apply alike_allow.
  - intros r b l seen now Hr Hu Hle. destruct (used_state _ _ _ _ _ Hr Hu) as (Hrate&Hb&Ht&Hl).
    destruct Hr as (Hb0&Hsp&Hfull). split_and!; [done..|]. intros now' Hnow.
    unfold advance. rewrite Hrate, Hb. simpl.
    assert (∀ d, 0 <= Z.max 0 d * speed r)%Z as Hnn by (intros; nia).
    pose proof (Hnn (now' - last l)%Z). pose proof (Hnn (now' - 0)%Z).
    rewrite (Z.min_l (b * Unit) (b * Unit + _)) by lia. apply Z.min_l.
    destruct Hl as [->|Hl]; [lia|]. nia.
Qed.
End Bucket.

(** A key whose bucket is forgotten and comes back, in a table with room for
    two keys, among calls for two other keys, one of them with two rates. *)
Definition sample_calls : list call :=
  [mkCall "http:auth:a" (PerMinute 10) 1 0; mkCall "http:all:a" (PerSecond 20) 40 0;
   mkCall "http:auth:a" (PerMinute 10) 1 1; mkCall "http:all:a" (PerSecond 200) 400 2;
   mkCall "http:auth:b" (PerMinute 10) 1 (30 * Minute + 1); mkCall "http:auth:a" (PerMinute 10) 1 (31 * Minute)].

(** Whether every prefix stays within the room of the table. *)
Definition fits_b (ttl max : Z) (calls : list call) : bool :=
  forallb (fun n => match calls !! n with
    | Some c => (Z.of_nat (size (active ttl (cl_now c) (take (S n) calls))) <=? max)%Z
    | None => true
    end) (seq 0 (length calls)).

Lemma fits_b_sound ttl max calls :
  fits_b ttl max calls = true → ∀ pre c post, calls = pre ++ c :: post →
    (Z.of_nat (size (active ttl (cl_now c) (pre ++ [c]))) <= max)%Z.
Proof.
  intros Hf pre c post Heq. unfold fits_b in Hf. rewrite forallb_forall in Hf.
  specialize (Hf (length pre)). rewrite Heq, list_lookup_middle in Hf by done. apply Z.leb_le.
  assert (take (S (length pre)) (pre ++ c :: post) = pre ++ [c]) as E.
  { rewrite cons_middle, app_assoc. apply take_app_length'. rewrite length_app. simpl. lia. }
  rewrite <- E. apply Hf. apply in_seq. rewrite length_app. simpl. lia.
Qed.

Lemma limiter_refines_buckets_witness :
  answers "http:auth:a" sample_calls (@run _ Bucket.NewLimiter Bucket.AllowN key_order sample_calls
    (mkLimiterStore ∅ (30 * Minute) 2 0)) = [true; false; true] ∧
  size (active (31 * Minute + 1) (31 * Minute) sample_calls) = 3.
Proof.
  split; [|vm_compute; reflexivity].
  rewrite (@limiter_refines_buckets key_order _ Bucket.NewLimiter Bucket.AllowN (30 * Minute)
    (Bucket.refills (30 * Minute)) (Bucket.Bucket_laws _) sample_calls 2 "http:auth:a" (PerMinute 10) 1).
  - vm_compute; reflexivity.
  - done.
  - done.
  - intros c Hc. unfold sample_calls in Hc. set_unfold in Hc. destruct_or!; subst; simpl; done.
  - repeat constructor; done.
  - apply fits_b_sound. vm_compute. reflexivity.
Defined.
