(* ===== verification/AntiAbuseProps.v ===== *)
(** * What the abuse guard guarantees

    Properties of [AntiAbuse] for every configuration that [ConfigFromEnv]
    accepts: the tables stay within their limits and the connection counters
    agree with the release closures that have not run, repeated login failures
    lock an address out and nothing else does, and eviction prefers entries
    that no longer block. The first theorem says which environments are
    accepted and what each field of the configuration is then. *)

From S2P Require Import Prelude GoText AntiAbuse AntiAbuseFacts Buckets.

(** ** Configurations *)

(** The counts of a configuration. The duration of the login block is not one
    of them: see [configured] and [login_block_overflow]. *)
Definition limits (c : Config) : list Z :=
  [cf_HTTPRequestsPerSecond c; cf_HTTPBurst c; cf_HTTPWritesPerSecond c; cf_HTTPWriteBurst c;
   cf_CallSignalsPerSecond c; cf_CallSignalBurst c; cf_AuthRequestsPerMinute c; cf_AuthBurst c;
   cf_InviteRequestsPerMinute c; cf_InviteBurst c; cf_LoginMaxFailures c;
   cf_WebSocketConnectsPerMinute c; cf_WebSocketConnectBurst c; cf_WebSocketEventsPerSecond c;
   cf_WebSocketEventBurst c; cf_WebSocketMaxPerIP c; cf_WebSocketMaxPerUser c;
   cf_MaxRateEntries c; cf_IPMultiplier c].

Definition valid_config (c : Config) : Prop :=
  Forall (fun n => 1 <= n)%Z (limits c) ∧ cf_EntryTTL c = (30 * Minute)%Z ∧
  (cf_IPv6PrefixBits c = 0 ∨ 32 <= cf_IPv6PrefixBits c <= 128)%Z.

Lemma read_values_valid Getenv values c :
  Forall (fun e => ∀ v c, (0 < v)%Z → valid_config c → valid_config (e.2 v c)) values →
  valid_config c → ∀ c', read_values Getenv values c = inl c' → valid_config c'.
Proof.
  intros Hv. revert c. induction Hv as [|[name assign] rest He _ IH]; intros c Hc c'; simpl.
  { by intros [= <-]. }
  destruct (String.eqb _ _); [by apply IH|]. destruct (Atoi _) as [parsed|]; [|done].
  destruct (Z.leb_spec parsed 0); [done|]. apply IH. by apply He.
Qed.

Lemma env_values_valid :
  Forall (fun e => ∀ v c, (0 < v)%Z → valid_config c → valid_config (e.2 v c)) env_values.
Proof.
  repeat (apply Forall_cons; split); [..|apply Forall_nil; done];
    intros v c Hpos (H1&H2&H3); (split; [|done]); unfold limits in *; simpl in *;
    repeat (apply Forall_cons in H1 as [? H1]);
    repeat (apply Forall_cons; split; [first [assumption|lia]|]); apply Forall_nil; done.
Qed.

Lemma read_prefix_valid Getenv c c' :
  valid_config c → read_prefix Getenv c = inl c' → valid_config c'.
Proof.
  intros (H1&H2&H3). unfold read_prefix. destruct (String.eqb _ _); [by intros [= <-]|].
  destruct (Atoi _) as [bits|]; [|done]. destruct (_ || _) eqn:Hb; [done|]. intros [= <-].
  apply orb_false_iff in Hb as [?%Z.ltb_ge ?%Z.ltb_ge]. split_and!; simpl; [done|done|lia].
Qed.

Lemma DefaultConfig_valid b : valid_config (DefaultConfig <| cf_TrustProxyHeaders := b |>).
Proof. split_and!; [|done|by left]. repeat constructor; simpl; lia. Qed.

Lemma ConfigFromEnv_accepts Getenv c : ConfigFromEnv Getenv = inl c → valid_config c.
Proof.
  unfold ConfigFromEnv. intros Hc.
  set (trusted := if String.eqb _ _ then inl DefaultConfig else _) in Hc.
  assert (∀ c0, trusted = inl c0 → valid_config c0) as Ht.
  { unfold trusted. intros c0. destruct (String.eqb _ _).
    - intros [= <-]. exact (DefaultConfig_valid false).
    - destruct (ParseBool _) as [b|]; [|done]. intros [= <-]. exact (DefaultConfig_valid b). }
  destruct trusted as [c0|]; [|done].
  destruct (read_prefix Getenv c0) as [c1|] eqn:H1; [|done].
  destruct (read_prefix Getenv c1) as [c2|] eqn:H2; [|done].
  eapply (read_values_valid Getenv env_values c2); [apply env_values_valid| |done].
  eapply read_prefix_valid; [|done]. eapply read_prefix_valid; [|done]. by apply Ht.
Qed.

(** A variable that is unset, or a decimal integer accepted by [ok]. *)
Definition env_number (Getenv : string → string) (ok : Z → bool) (name : string) : Prop :=
  Getenv name = "" ∨ ∃ v, Atoi (Getenv name) = Some v ∧ ok v = true.

(** The settings, one line each: the variable, the field it sets and the value
    of the field when the variable is not set. *)
Definition settings : list (string * (Config → Z) * Z) := [
  ("HTTP_RATE_LIMIT_RPS", cf_HTTPRequestsPerSecond, 25);
  ("HTTP_RATE_LIMIT_BURST", cf_HTTPBurst, 50);
  ("HTTP_WRITE_RATE_LIMIT_RPS", cf_HTTPWritesPerSecond, 8);
  ("HTTP_WRITE_RATE_LIMIT_BURST", cf_HTTPWriteBurst, 16);
  ("CALL_SIGNAL_RATE_LIMIT_RPS", cf_CallSignalsPerSecond, 120);
  ("CALL_SIGNAL_RATE_LIMIT_BURST", cf_CallSignalBurst, 240);
  ("AUTH_RATE_LIMIT_PER_MINUTE", cf_AuthRequestsPerMinute, 10);
  ("AUTH_RATE_LIMIT_BURST", cf_AuthBurst, 5);
  ("INVITE_RATE_LIMIT_PER_MINUTE", cf_InviteRequestsPerMinute, 20);
  ("INVITE_RATE_LIMIT_BURST", cf_InviteBurst, 10);
  ("LOGIN_MAX_FAILURES", cf_LoginMaxFailures, 5);
  ("WS_CONNECT_RATE_PER_MINUTE", cf_WebSocketConnectsPerMinute, 10);
  ("WS_CONNECT_RATE_BURST", cf_WebSocketConnectBurst, 5);
  ("WS_EVENT_RATE_PER_SECOND", cf_WebSocketEventsPerSecond, 30);
  ("WS_EVENT_RATE_BURST", cf_WebSocketEventBurst, 60);
  ("WS_MAX_CONNECTIONS_PER_IP", cf_WebSocketMaxPerIP, 50);
  ("WS_MAX_CONNECTIONS_PER_USER", cf_WebSocketMaxPerUser, 5);
  ("RATE_LIMIT_MAX_ENTRIES", cf_MaxRateEntries, 20000);
  ("HTTP_IP_MULTIPLIER", cf_IPMultiplier, 4)]%Z.

(** The number in a variable, or the value for one that is not set. *)
Definition number_of (Getenv : string → string) (name : string) (unset : Z) : Z :=
  if decide (Getenv name = "") then unset else default 0%Z (Atoi (Getenv name)).

(** Every set variable parses and is in its range. *)
Definition env_ok (Getenv : string → string) : Prop :=
  (Getenv "TRUST_PROXY_HEADERS" = "" ∨ is_Some (ParseBool (Getenv "TRUST_PROXY_HEADERS"))) ∧
  env_number Getenv (fun v => (32 <=? v) && (v <=? 128))%Z "RATE_LIMIT_IPV6_PREFIX" ∧
  env_number Getenv (fun v => 0 <? v)%Z "LOGIN_BLOCK_MINUTES" ∧
  ∀ name field unset, (name, field, unset) ∈ settings → env_number Getenv (fun v => 0 <? v)%Z name.

(** The names of the loop are those of the settings and the login block. *)
Lemma env_names (P : string → Prop) :
  Forall (fun e => P e.1) env_values ↔
  P "LOGIN_BLOCK_MINUTES" ∧ ∀ name field unset, (name, field, unset) ∈ settings → P name.
Proof.
  transitivity (Forall P (env_values.*1)); [by rewrite Forall_fmap|].
  assert (env_values.*1 ≡ₚ "LOGIN_BLOCK_MINUTES" :: settings.*1.*1) as -> by (apply (bool_decide_unpack _); vm_compute; exact I).
  rewrite Forall_cons, !Forall_fmap, Forall_forall. apply and_iff_compat_l. split.
  - intros Hall name field unset Hin. exact (Hall _ Hin).
  - intros Hall [[name field] unset] Hin. by eapply Hall.
Qed.

Lemma read_values_ok Getenv values c :
  (∃ c', read_values Getenv values c = inl c') ↔
  Forall (fun e => env_number Getenv (fun v => 0 <? v)%Z e.1) values.
Proof.
  unfold env_number. revert c. induction values as [|[name assign] rest IH]; intros c; simpl.
  { split; [by constructor|eauto]. }
  rewrite Forall_cons. simpl. destruct (String.eqb_spec (Getenv name) "") as [E|E].
  { rewrite IH. naive_solver. }
  destruct (Atoi (Getenv name)) as [v|] eqn:Hv.
  - destruct (Z.leb_spec v 0).
    + split; [by intros [? ?]|]. intros [[?|(v'&[= <-]&?%Z.ltb_lt)] _]; [done|lia].
    + rewrite IH. split; [|tauto]. intros ?. split; [|done]. right. exists v. split; [done|].
      by apply Z.ltb_lt.
  - split; [by intros [? ?]|naive_solver].
Qed.

Lemma read_prefix_ok Getenv c :
  (∃ c', read_prefix Getenv c = inl c') ↔
  env_number Getenv (fun v => (32 <=? v) && (v <=? 128))%Z "RATE_LIMIT_IPV6_PREFIX".
Proof.
  unfold read_prefix, env_number. destruct (String.eqb_spec (Getenv "RATE_LIMIT_IPV6_PREFIX") "").
  { naive_solver. }
  destruct (Atoi _) as [v|]; [|naive_solver].
  destruct (Z.ltb_spec v 32), (Z.ltb_spec 128 v); simpl; split; intros Hx; try naive_solver;
    try (destruct Hx as [?|(v'&[= <-]&?)]; [done|lia]).
  right. exists v. split; [done|lia].
Qed.

Lemma ConfigFromEnv_total Getenv : (∃ c, ConfigFromEnv Getenv = inl c) ↔ env_ok Getenv.
Proof.
  unfold ConfigFromEnv, env_ok. set (trusted := if String.eqb _ _ then inl DefaultConfig else _).
  assert ((∃ c, trusted = inl c) ↔
    Getenv "TRUST_PROXY_HEADERS" = "" ∨ is_Some (ParseBool (Getenv "TRUST_PROXY_HEADERS"))) as <-.
  { unfold trusted. destruct (String.eqb_spec (Getenv "TRUST_PROXY_HEADERS") ""); [naive_solver|].
    unfold is_Some. destruct (ParseBool _); naive_solver. }
  destruct trusted as [c0|e]; [|naive_solver].
  rewrite <- (read_prefix_ok Getenv c0). destruct (read_prefix Getenv c0) as [c1|e] eqn:E0; [|naive_solver].
  destruct (read_prefix Getenv c1) as [c2|e] eqn:E1.
  - rewrite (read_values_ok Getenv env_values c2), env_names. naive_solver.
  - destruct (proj2 (read_prefix_ok Getenv c1)) as [c2 Hc2]; [|congruence].
    apply (read_prefix_ok Getenv c0). eauto.
Qed.

(** *** What an accepted environment sets *)

(** One entry of the table decides a field the others leave alone. *)
Lemma read_values_keep {A} (f : Config → A) Getenv values c c' :
  Forall (fun e => ∀ v c, f (e.2 v c) = f c) values → read_values Getenv values c = inl c' → f c' = f c.
Proof.
  intros Hf. revert c. induction Hf as [|[name assign] rest He _ IH]; intros c; simpl; [by intros [= ->]|].
  destruct (String.eqb _ _); [by apply IH|]. destruct (Atoi _) as [v|]; [|done].
  destruct (v <=? 0)%Z; [done|]. intros Hr. rewrite (IH _ Hr). apply He.
Qed.

Lemma read_values_app Getenv l1 l2 c c' :
  read_values Getenv (l1 ++ l2) c = inl c' →
  ∃ c1, read_values Getenv l1 c = inl c1 ∧ read_values Getenv l2 c1 = inl c'.
Proof.
  revert c. induction l1 as [|[name assign] l1 IH]; intros c; simpl; [eauto|].
  destruct (String.eqb _ _); [by apply IH|]. destruct (Atoi _) as [v|]; [|done].
  destruct (v <=? 0)%Z; [done|by apply IH].
Qed.

Lemma read_values_field i name assign (f : Config → Z) (g : Z → Z) Getenv c c' :
  env_values !! i = Some (name, assign) → (∀ v c, f (assign v c) = g v) →
  Forall (fun e => ∀ v c, f (e.2 v c) = f c) (take i env_values) →
  Forall (fun e => ∀ v c, f (e.2 v c) = f c) (drop (S i) env_values) →
  read_values Getenv env_values c = inl c' →
  f c' = if decide (Getenv name = "") then f c else g (default 0%Z (Atoi (Getenv name))).
Proof.
  intros Hi Hg H1 H2 Hr. rewrite <- (take_drop_middle _ _ _ Hi) in Hr.
  apply read_values_app in Hr as (c1&Hr1&Hr2). apply (read_values_keep f) in Hr1; [|done]. simpl in Hr2.
  destruct (String.eqb_spec (Getenv name) "").
  - rewrite decide_True by done. rewrite <- Hr1. by apply (read_values_keep f) in Hr2.
  - rewrite decide_False by done. destruct (Atoi (Getenv name)) as [v|]; [|done].
    destruct (v <=? 0)%Z; [done|]. simpl. rewrite <- (Hg v c1). by apply (read_values_keep f) in Hr2.
Qed.

Ltac entry_of i g :=
  lazymatch goal with |- ?f _ = _ =>
    eapply (read_values_field i _ _ f g); [reflexivity|reflexivity|repeat constructor..|eassumption]
  end.

(** The entry of the table that decides the field of the goal. *)
Ltac try_entries n :=
  lazymatch n with S ?i => first [entry_of i (fun v : Z => v)|try_entries i] end.

(** The loop on a configuration that still has the defaults. *)
Lemma read_values_settings Getenv c c' :
  (∀ name field unset, (name, field, unset) ∈ settings → field c = unset) →
  read_values Getenv env_values c = inl c' →
  (∀ name field unset, (name, field, unset) ∈ settings → field c' = number_of Getenv name unset) ∧
  cf_LoginBlockDuration c' = (if decide (Getenv "LOGIN_BLOCK_MINUTES" = "") then cf_LoginBlockDuration c
    else wrap_int (default 0 (Atoi (Getenv "LOGIN_BLOCK_MINUTES")) * Minute))%Z.
Proof.
  intros Hd Hr. split; [|entry_of 11 (fun v => wrap_int (v * Minute))].
  intros name field unset Hin. rewrite <- (Hd _ _ _ Hin). revert Hin. unfold settings, number_of.
  rewrite !elem_of_cons, elem_of_nil. intros Hin. destruct_or!; try done; injection Hin as -> -> ->;
    try_entries 20.
Qed.

Lemma read_prefix_sets Getenv c c' :
  read_prefix Getenv c = inl c' →
  c' = c <| cf_IPv6PrefixBits := number_of Getenv "RATE_LIMIT_IPV6_PREFIX" (cf_IPv6PrefixBits c) |>.
Proof.
  unfold read_prefix, number_of. destruct (String.eqb_spec (Getenv "RATE_LIMIT_IPV6_PREFIX") "").
  - rewrite decide_True by done. intros [= <-]. by destruct c.
  - rewrite decide_False by done. destruct (Atoi _) as [v|]; [|done]. case_match; [done|]. by intros [= <-].
Qed.

(** The fields of an accepted configuration. *)
Record configured (Getenv : string → string) (c : Config) : Prop := {
  cg_setting name field unset : (name, field, unset) ∈ settings →
    field c = number_of Getenv name unset ∧ (1 <= field c)%Z;
  cg_proxy : cf_TrustProxyHeaders c =
    if decide (Getenv "TRUST_PROXY_HEADERS" = "") then false
    else default false (ParseBool (Getenv "TRUST_PROXY_HEADERS"));
  cg_prefix : cf_IPv6PrefixBits c = number_of Getenv "RATE_LIMIT_IPV6_PREFIX" 0 ∧
    (cf_IPv6PrefixBits c = 0 ∨ 32 <= cf_IPv6PrefixBits c <= 128)%Z;
  cg_ttl : cf_EntryTTL c = (30 * Minute)%Z;
  cg_block : let minutes := number_of Getenv "LOGIN_BLOCK_MINUTES" 20 in
    cf_LoginBlockDuration c = wrap_int (minutes * Minute) ∧
    ((minutes * Minute < 2 ^ 63)%Z → cf_LoginBlockDuration c = (minutes * Minute)%Z ∧ (0 < minutes)%Z)
}.

Lemma wrap_int_range z : (0 <= z < 2 ^ 63)%Z → wrap_int z = z.
Proof. intros Hz. unfold wrap_int. rewrite Z.mod_small; lia. Qed.

Lemma number_positive Getenv name unset :
  (0 < unset)%Z → env_number Getenv (fun v => 0 <? v)%Z name → (0 < number_of Getenv name unset)%Z.
Proof.
  unfold number_of. intros Hd [E|(v&E&Hv%Z.ltb_lt)].
  - by rewrite decide_True.
  - case_decide; [done|]. by rewrite E.
Qed.

Lemma ConfigFromEnv_configured Getenv c : ConfigFromEnv Getenv = inl c → configured Getenv c.
Proof.
  intros Hc. pose proof (ConfigFromEnv_accepts Getenv c Hc) as (_&Httl&Hpre).
  pose proof (proj1 (ConfigFromEnv_total Getenv) (ex_intro _ c Hc)) as (_&_&Hblock&Hset).
  unfold ConfigFromEnv in Hc. set (trusted := if String.eqb _ _ then inl DefaultConfig else _) in Hc.
  assert (∀ c0, trusted = inl c0 → c0 = DefaultConfig <| cf_TrustProxyHeaders :=
    if decide (Getenv "TRUST_PROXY_HEADERS" = "") then false
    else default false (ParseBool (Getenv "TRUST_PROXY_HEADERS")) |>) as Ht.
  { unfold trusted. intros c0. destruct (String.eqb_spec (Getenv "TRUST_PROXY_HEADERS") "").
    - rewrite decide_True by done. by intros [= <-].
    - rewrite decide_False by done. destruct (ParseBool _); [|done]. by intros [= <-]. }
  destruct trusted as [c0|]; [|done]. specialize (Ht c0 eq_refl).
  destruct (read_prefix Getenv c0) as [c1|] eqn:H1; [|done]. apply read_prefix_sets in H1.
  destruct (read_prefix Getenv c1) as [c2|] eqn:H2; [|done]. apply read_prefix_sets in H2.
  assert (cf_IPv6PrefixBits c2 = number_of Getenv "RATE_LIMIT_IPV6_PREFIX" 0) as Hp2.
  { rewrite H2, H1, Ht. simpl. unfold number_of. by repeat case_decide. }
  destruct (read_values_settings Getenv c2 c) as [Hs Hb]; [|done|].
  { intros name field unset. rewrite H2, H1, Ht. unfold settings. rewrite !elem_of_cons, elem_of_nil.
    intros Hin. destruct_or!; try done; by injection Hin as -> -> ->. }
  split.
  - intros name field unset Hin. rewrite (Hs _ _ _ Hin). split; [done|].
    apply (Z.le_succ_l 0), number_positive; [|by eapply Hset]. revert Hin. unfold settings.
    rewrite !elem_of_cons, elem_of_nil. intros Hin. destruct_or!; try done; by injection Hin as -> -> ->.
  - rewrite (read_values_keep cf_TrustProxyHeaders Getenv env_values c2 c ltac:(repeat constructor) Hc), H2, H1, Ht. done.
  - split; [|done]. by rewrite (read_values_keep cf_IPv6PrefixBits Getenv env_values c2 c ltac:(repeat constructor) Hc).
  - done.
  - intros minutes. assert (0 < minutes)%Z as Hpos by (by apply number_positive).
    assert (cf_LoginBlockDuration c = wrap_int (minutes * Minute)) as E.
    { rewrite Hb. unfold minutes, number_of. case_decide; [|done]. by rewrite H2, H1, Ht. }
    split; [done|]. intros Hlt. split; [|done]. rewrite E. apply wrap_int_range. unfold Minute, Second in *. lia.
Qed.

(** C38: [ConfigFromEnv] accepts an environment exactly when every set variable
    parses and is in its range - the nineteen counts and the login block at
    least 1, the prefix between 32 and 128 - and then every field of the
    configuration is the value of its variable, or the default where the
    variable is not set: the counts, all at least 1, the two switches of
    address handling, the fixed time to live, and the login block of that
    many minutes as an [int64] of nanoseconds, which is that duration, and
    positive, as long as it fits (a larger number of minutes is accepted and
    wraps around). *)
Theorem ConfigFromEnv_valid Getenv :
  ((∃ c, ConfigFromEnv Getenv = inl c) ↔ env_ok Getenv) ∧
  ∀ c, ConfigFromEnv Getenv = inl c → configured Getenv c.
Proof. split; [apply ConfigFromEnv_total|apply ConfigFromEnv_configured]. Qed.

(** An environment with one variable set. *)
Definition one_variable (name value : string) : string → string :=
  fun n => if String.eqb n name then value else "".

Lemma ConfigFromEnv_valid_witness :
  configured (one_variable "WS_MAX_CONNECTIONS_PER_IP" "7") (DefaultConfig <| cf_WebSocketMaxPerIP := 7%Z |>) ∧
  ¬ env_ok (one_variable "LOGIN_MAX_FAILURES" "0").
Proof.
  split.
  - exact (proj2 (ConfigFromEnv_valid (one_variable "WS_MAX_CONNECTIONS_PER_IP" "7")) _ eq_refl).
  - intros H. apply (proj1 (ConfigFromEnv_valid (one_variable "LOGIN_MAX_FAILURES" "0"))) in H as [c Hc].
    vm_compute in Hc. discriminate Hc.
Defined.

(** ** Tables and connection slots *)

Section guard_props.
Context `{MapOrder} {Limiter : Type}.
Context (NewLimiter : Rate → Z → Limiter) (AllowN : Limiter → Z → bool * Limiter).

(** C34: Whatever requests, logins, connections and disconnections the guard
    has seen, neither its bucket table nor its failure table exceeds
    [MaxRateEntries], and for every address and every user the connection
    counter is the number of release closures that have not been called, is
    at most the configured maximum, and is absent from the map when it is
    zero; calling a closure twice therefore changes nothing. *)
Theorem guard_tables_exact Getenv cfg (g : Guard Limiter) :
  ConfigFromEnv Getenv = inl cfg → rtc (guard_step NewLimiter AllowN) (New cfg) g →
  (Z.of_nat (size (ls_entries (g_limiters g))) <= cf_MaxRateEntries cfg)%Z ∧
  (Z.of_nat (size (g_failures g)) <= cf_MaxRateEntries cfg)%Z ∧
  (∀ ip, default 0%Z (g_connectionsIP g !! ip) = held (SlotIP ip) (g_handles g) ∧
     g_connectionsIP g !! ip ≠ Some 0%Z ∧
     (held (SlotIP ip) (g_handles g) <= cf_WebSocketMaxPerIP cfg)%Z) ∧
  (∀ u, default 0%Z (g_connectionsUser g !! u) = held (SlotUser u) (g_handles g) ∧
     g_connectionsUser g !! u ≠ Some 0%Z ∧
     (held (SlotUser u) (g_handles g) <= cf_WebSocketMaxPerUser cfg)%Z).
Proof.
  intros (Hlim&_&_)%ConfigFromEnv_accepts Hr. unfold limits in Hlim.
  repeat (apply Forall_cons in Hlim as [? Hlim]).
  destruct (guard_reachable_inv NewLimiter AllowN cfg g ltac:(done) Hr) as [Hcfg [Hs _] Hm [Hf _] Hip Huser].
  rewrite Hcfg in Hf. rewrite Hm in Hs. split_and!; [done|done|..].
  - intros ip. destruct (Hip ip) as (?&?&?). split_and!; [done|done|lia].
  - intros u. destruct (Huser u) as (?&?&?). split_and!; [done|done|lia].
Qed.

(** ** Login failures *)

(** Failures at the times of [times] and then an attempt at [now]. *)
Definition attempts (ip id : string) (times : list Z) (now later : Z) : M (Guard Limiter) (bool * Z) :=
  for_each times (RecordLoginFailure ip id) ;; AllowLogin ip id now later.

(** C35: The login lockout. After failures of one account from one address,
    each within the time to live of the one before, the next attempt is
    refused exactly when at least [LoginMaxFailures] of them happened and the
    last one is less than [LoginBlockDuration] ago, with the remaining time as
    the answer; and after a success the next attempt is let through. *)
Theorem login_lockout ip id t times now later (g : Guard Limiter) :
  room ip id g →
  g_failures g !! ("login:ip:" +:+ ip) = None →
  g_failures g !! ("login:pair:" +:+ ip +:+ ":" +:+ id) = None →
  Sorted (soon (g_config g)) (t :: times) → (0 <= now)%Z →
  wp (attempts ip id (t :: times) now later) (fun r _ =>
    r = login_answer (g_config g) (Z.of_nat (length (t :: times))) (List.last times t) now later) g ∧
  wp (for_each (t :: times) (RecordLoginFailure ip id) ;; RecordLoginSuccess ip id ;;
      AllowLogin ip id now later) (fun r _ => r = (true, 0%Z)) g.
Proof.
  intros Hroom H1 H2 Hs Hnow.
  pose proof (RecordLoginFailure_run ip id t (locked_entry (g_config g) 1 t) g Hroom) as Hrun.
  rewrite H1, H2 in Hrun. specialize (Hrun (bump_fresh _ _) (bump_fresh _ _)).
  destruct (with_failure_counted ip id (locked_entry (g_config g) 1 t) g) as (Hc&Hr&He1&He2).
  destruct (failures_run ip id times 1 t (with_failure ip id (locked_entry (g_config g) 1 t) g))
    as (g'&Hg'&Hcfg&Hroom'&Hcount); [by apply Hr|by split; rewrite Hc|by rewrite Hc|].
  assert (for_each (t :: times) (RecordLoginFailure ip id) g = Ok (tt, g')) as Hall.
  { simpl. by rewrite (bind_run _ _ _ _ _ Hrun). }
  split.
  - unfold attempts, wp. rewrite (bind_run _ _ _ _ _ Hall).
    eapply wp_mono; [by apply AllowLogin_counted|]. intros r _ ->. rewrite Hcfg, Hc.
    f_equal. simpl length. lia.
  - unfold wp. rewrite (bind_run _ _ _ _ _ Hall).
    apply wp_bind. eapply wp_mono; [apply RecordLoginSuccess_clears|]. intros [] g2 ->.
    apply AllowLogin_unknown; simpl; [|apply lookup_delete_eq].
    rewrite lookup_delete_ne by (apply not_eq_sym, login_keys_differ). apply lookup_delete_eq.
Qed.

(** When the failure table is full one entry makes room, and it is the
    first in the order the comment promises among the sampled entries: an
    entry whose block has expired before any that still blocks, the longest
    unseen first. *)
Theorem evictFailure_prefers_expired now (g : Guard Limiter) :
  g_failures g ≠ ∅ →
  ∃ k e, g_failures g !! k = Some e ∧
    evictFailureLocked now g = g <| g_failures ::= delete k |> ∧
    ∀ k' e', (k', e') ∈ take evictionSample (range_entries (g_failures g)) →
      evicted_before now (now <? fe_blockedUntil e)%Z (fe_lastSeen e) e'.
Proof.
  intros Hne. destruct (failure_victim_entry now _ Hne) as (k&e&He&Hv). exists k, e.
  split_and!; [done| |].
  - unfold evictFailureLocked. by rewrite Hv.
  - intros k' e' Hin. exact (failure_victim_first now _ _ _ _ Hv _ Hin).
Qed.
End guard_props.

(** ** Witnesses *)

Definition sample_cfg : Config :=
  DefaultConfig <| cf_WebSocketMaxPerIP := 2%Z |>.
Definition sample_guard : Guard Bucket.t := New sample_cfg.

(** Two connections of an address, one of them closed twice. *)
Definition sample_connections : M (Guard Bucket.t) unit :=
  AcquireWebSocketIP "10.0.0.1" ;; AcquireWebSocketIP "10.0.0.1" ;; release 0 ;; release 0.

Definition final {S A} (m : M S A) (s : S) : S :=
  match m s with Ok (_, s') => s' | _ => s end.

Lemma guard_tables_exact_witness :
  default 0%Z (g_connectionsIP (final sample_connections sample_guard) !! "10.0.0.1") = 1%Z ∧
  (held (SlotIP "10.0.0.1") (g_handles (final sample_connections sample_guard)) <= 2)%Z.
Proof.
  split; [vm_compute; reflexivity|].
  refine (proj2 (proj2 (proj1 (proj2 (proj2 (@guard_tables_exact key_order _ Bucket.NewLimiter Bucket.AllowN
    (one_variable "WS_MAX_CONNECTIONS_PER_IP" "2") sample_cfg
    (final sample_connections sample_guard) eq_refl _))) "10.0.0.1"))).
  eapply rtc_l; [eapply (step_acquire_ip _ _ _ "10.0.0.1"); vm_compute; reflexivity|].
  eapply rtc_l; [eapply (step_acquire_ip _ _ _ "10.0.0.1"); vm_compute; reflexivity|].
  eapply rtc_l; [eapply (step_release _ _ _ 0); vm_compute; reflexivity|].
  eapply rtc_l; [eapply (step_release _ _ _ 0); vm_compute; reflexivity|].
  apply rtc_refl.
Defined.

Lemma sample_room : room "10.0.0.1" "u" sample_guard.
Proof. vm_compute. reflexivity. Qed.

Lemma sample_soon : Sorted (soon (g_config sample_guard)) [0; 1; 2; 3; 4]%Z.
Proof. repeat constructor; vm_compute; reflexivity. Qed.

Lemma login_lockout_witness :
  login_answer sample_cfg 5 4 5 5 = (false, 20 * Minute - 1)%Z ∧
  wp (@attempts key_order Bucket.t "10.0.0.1" "u" [0; 1; 2; 3; 4]%Z 5 5)
    (fun r _ => r = login_answer sample_cfg 5 4 5 5) sample_guard.
Proof.
  split; [vm_compute; reflexivity|].
  exact (proj1 (@login_lockout key_order Bucket.t "10.0.0.1" "u" 0%Z [1; 2; 3; 4]%Z 5%Z 5%Z sample_guard
    sample_room eq_refl eq_refl sample_soon ltac:(lia))).
Defined.

(** An expired block, a live one and an entry without a block. *)
Definition sample_failures : Guard Bucket.t :=
  sample_guard <| g_failures := {["a" := mkFailureEntry 5 100 10; "b" := mkFailureEntry 5 20 11;
                                  "c" := mkFailureEntry 1 0 12]}%Z |>.

Lemma evictFailure_prefers_expired_witness :
  g_failures (@evictFailureLocked key_order Bucket.t 50 sample_failures) = delete "b" (g_failures sample_failures) ∧
  ∃ k, evictFailureLocked (H := key_order) 50 sample_failures =
         sample_failures <| g_failures ::= delete k |>.
Proof.
  split; [vm_compute; reflexivity|].
  destruct (@evictFailure_prefers_expired key_order _ 50 sample_failures) as (k&e&_&Hk&_).
  - intros E. apply (f_equal (.!! "a")) in E. discriminate E.
  - exists k. exact Hk.
Defined.

(** ** Two observations *)

(** The duration is a product of machine integers: the accepted setting of two
    hundred million minutes wraps to a negative block, and no number of
    failures locks anybody out. *)
Theorem login_block_overflow :
  ∃ cfg, ConfigFromEnv (one_variable "LOGIN_BLOCK_MINUTES" "200000000") = inl cfg ∧
    (cf_LoginBlockDuration cfg < 0)%Z ∧
    ∀ n t now later, (t <= now)%Z → login_answer cfg n t now later = (true, 0%Z).
Proof.
  eexists. split; [vm_compute; reflexivity|]. split; [done|]. intros n t now later Hle.
  unfold login_answer. simpl. rewrite (proj2 (Z.ltb_ge now _)) by lia. by rewrite andb_false_r.
Qed.

(** The requests of a burst, each with a session token of its own. *)
Definition burst_request (token : string) : Request := mkRequest "GET" "/api/v1/me" "10.0.0.1" token.

Fixpoint verdicts (rs : list Request) (g : Guard Bucket.t) : list Verdict :=
  match rs with
  | [] => []
  | r :: rest =>
      match @ProtectHTTP key_order _ Bucket.NewLimiter Bucket.AllowN r 0 g with
      | Ok (v, g') => v :: verdicts rest g'
      | _ => []
      end
  end.

Definition forwarded (rs : list Request) : nat :=
  length (List.filter (fun v => match v with Forwarded => true | _ => false end)
            (verdicts rs (New DefaultConfig))).

(** The bucket of an address is made with the budget of its first request and
    keeps it: sixty sessions behind one address all pass, but when the first
    request of the address carried no token only forty-nine of them do. *)
Theorem ip_budget_fixed_by_first_request :
  let sessions := map (fun i => burst_request (pretty i)) (seq 1 60) in
  forwarded sessions = 60 ∧ forwarded (burst_request "" :: sessions) = 50.
Proof. vm_compute. done. Qed.
