(* ===== verification/KeyLock.v ===== *)
(** * Locks per key

    Model of [internal/keylock]: [Set.Lock] and the function it returns, run
    by any number of goroutines. The critical sections of [Set.mu] are single
    steps; taking and giving back the mutex of an entry are steps of their
    own, so that between them any other goroutine may run. The theorem is a
    refinement: the table of reference-counted entries implements one lock per
    key. *)

From S2P Require Import Prelude.

Record entry := mkEntry { en_mu : bool; en_refs : Z }.

(** Where a goroutine is: in none of the calls, after the first critical
    section of [Lock], after [value.mu.Lock()], or in the returned function
    after [value.mu.Unlock()]. [value] is the address of the entry captured by
    the closure. *)
Inductive pc :=
  | Idle
  | Waiting (key : Z) (value : nat)
  | Holding (key : Z) (value : nat)
  | Releasing (key : Z) (value : nat).

Record Set_ := mkSet {
  st_entries : gmap Z nat;       (* s.entries, a map of pointers *)
  st_heap : gmap nat entry;      (* the entries that were allocated *)
  st_next : nat;                 (* the address of the next [&entry{}] *)
  st_threads : gmap nat pc
}.
#[global] Instance Set_fields : Fields Set_ := fun s =>
  mkSet (st_entries s) (st_heap s) (st_next s) (st_threads s).

Definition Set_new : Set_ := mkSet ∅ ∅ 0 ∅.

Definition thread (t : nat) (s : Set_) : pc := default Idle (st_threads s !! t).
Definition goto (t : nat) (p : pc) (s : Set_) : Set_ := s <| st_threads ::= <[t := p]> |>.

(** The first critical section of [Lock]. *)
Definition lock_enter (t : nat) (key : Z) (s : Set_) : option Set_ :=
  match thread t s with
  | Idle =>
      let '(value, s) :=
        match st_entries s !! key with
        | Some value => (value, s)
        | None => (st_next s, s <| st_entries ::= <[key := st_next s]> |>
                                <| st_heap ::= <[st_next s := mkEntry false 0]> |>
                                <| st_next ::= S |>)
        end in
      let s := s <| st_heap ::= alter (fun e => mkEntry (en_mu e) (en_refs e + 1)) value |> in
      Some (goto t (Waiting key value) s)
  | _ => None
  end.

(** [value.mu.Lock()] returns; it is blocked while the mutex is taken. *)
Definition lock_acquire (t : nat) (s : Set_) : option Set_ :=
  match thread t s with
  | Waiting key value =>
      match st_heap s !! value with
      | Some e => if en_mu e then None
                  else Some (goto t (Holding key value)
                         (s <| st_heap ::= <[value := mkEntry true (en_refs e)]> |>))
      | None => None
      end
  | _ => None
  end.

(** [value.mu.Unlock()], the first statement of the returned function. *)
Definition unlock_mutex (t : nat) (s : Set_) : option Set_ :=
  match thread t s with
  | Holding key value =>
      match st_heap s !! value with
      | Some e => if en_mu e then Some (goto t (Releasing key value)
                         (s <| st_heap ::= <[value := mkEntry false (en_refs e)]> |>))
                  else None
      | None => None
      end
  | _ => None
  end.

(** The critical section of the returned function. *)
Definition unlock_leave (t : nat) (s : Set_) : option Set_ :=
  match thread t s with
  | Releasing key value =>
      match st_heap s !! value with
      | Some e =>
          let refs := (en_refs e - 1)%Z in
          let s := s <| st_heap ::= <[value := mkEntry (en_mu e) refs]> |> in
          let s := if (refs =? 0)%Z then s <| st_entries ::= delete key |> else s in
          Some (goto t Idle s)
      | None => None
      end
  | _ => None
  end.

(** ** The interleavings *)

Inductive label := Enter (t : nat) (key : Z) | Acquire (t : nat) | Unlock (t : nat) | Leave (t : nat).

Definition exec (l : label) (s : Set_) : option Set_ :=
  match l with
  | Enter t key => lock_enter t key s
  | Acquire t => lock_acquire t s
  | Unlock t => unlock_mutex t s
  | Leave t => unlock_leave t s
  end.

Fixpoint exec_all (ls : list label) (s : Set_) : option Set_ :=
  match ls with
  | [] => Some s
  | l :: rest => s' ← exec l s; exec_all rest s'
  end.

(** ** The specification: one lock per key *)

(** Who holds which key. *)
Notation locks := (gmap Z nat).

Definition spec_acquire (t : nat) (key : Z) (L : locks) : option locks :=
  match L !! key with Some _ => None | None => Some (<[key := t]> L) end.

Definition spec_release (t : nat) (key : Z) (L : locks) : option locks :=
  if decide (L !! key = Some t) then Some (delete key L) else None.

(** What a step of the implementation does to the specification. *)
Definition spec_step (l : label) (s : Set_) (L : locks) : option locks :=
  match l with
  | Acquire t => match thread t s with Waiting key _ => spec_acquire t key L | _ => None end
  | Unlock t => match thread t s with Holding key _ => spec_release t key L | _ => None end
  | _ => Some L
  end.

Fixpoint spec_all (ls : list label) (s : Set_) (L : locks) : option locks :=
  match ls with
  | [] => Some L
  | l :: rest =>
      match exec l s, spec_step l s L with
      | Some s', Some L' => spec_all rest s' L'
      | _, _ => None
      end
  end.

(** ** The invariant *)

(** The key and entry a goroutine is counted for. *)
Definition engaged (p : pc) : option (Z * nat) :=
  match p with
  | Idle => None
  | Waiting k v | Holding k v | Releasing k v => Some (k, v)
  end.

Definition users (value : nat) (m : gmap nat pc) : gmap nat pc :=
  filter (fun tp => snd <$> engaged tp.2 = Some value) m.

(** [new] is the key whose entry was just created and is not counted yet, in
    the middle of [lock_enter]; it is [None] between the steps. *)
Record keylock_inv_but (new : option Z) (s : Set_) (L : locks) : Prop := {
  ki_next v e : st_heap s !! v = Some e → v < st_next s;
  ki_inj k k' v : st_entries s !! k = Some v → st_entries s !! k' = Some v → k = k';
  ki_entry k v : st_entries s !! k = Some v →
    ∃ e, st_heap s !! v = Some e ∧ (new ≠ Some k → 0 < en_refs e)%Z;
  ki_refs v e : st_heap s !! v = Some e →
    en_refs e = Z.of_nat (size (users v (st_threads s)));
  ki_engaged t k v : engaged (thread t s) = Some (k, v) → st_entries s !! k = Some v;
  ki_locked k v e : st_entries s !! k = Some v → st_heap s !! v = Some e →
    en_mu e = true ↔ is_Some (L !! k);
  ki_holder t k v : thread t s = Holding k v → L !! k = Some t;
  ki_held k t : L !! k = Some t → ∃ v, thread t s = Holding k v
}.
Notation keylock_inv := (keylock_inv_but None).

Definition uses (value : nat) (p : pc) : Z :=
  if decide (snd <$> engaged p = Some value) then 1 else 0.

Lemma users_insert v t p m :
  Z.of_nat (size (users v (<[t := p]> m))) =
  (Z.of_nat (size (users v m)) - uses v (default Idle (m !! t)) + uses v p)%Z.
Proof.
  unfold users, uses. set (P := fun tp : nat * pc => snd <$> engaged tp.2 = Some v).
  assert (Z.of_nat (size (filter P m)) = Z.of_nat (size (delete t (filter P m))) +
    if decide (snd <$> engaged (default Idle (m !! t)) = Some v) then 1 else 0)%Z as ->.
  { destruct (decide (snd <$> engaged (default Idle (m !! t)) = Some v)) as [Hd|Hd].
    - destruct (m !! t) as [q|] eqn:E; [|done].
      assert (filter P m !! t = Some q) as Hf by (by apply map_lookup_filter_Some).
      rewrite <- (insert_delete_id _ _ _ Hf) at 1.
      rewrite map_size_insert_None by apply lookup_delete_eq. lia.
    - rewrite delete_id; [lia|]. apply map_lookup_filter_None. right. intros q Hq HP.
      apply Hd. rewrite Hq. exact HP. }
  rewrite map_filter_insert. unfold P at 1. simpl. destruct (decide (snd <$> engaged p = Some v)).
  - rewrite <- insert_delete_eq, map_size_insert_None by apply lookup_delete_eq. lia.
  - rewrite map_filter_delete. lia.
Qed.

Lemma thread_goto t t' p s : thread t' (goto t p s) = if decide (t = t') then p else thread t' s.
Proof.
  unfold thread, goto. simpl. destruct (decide (t = t')) as [<-|].
  - by rewrite lookup_insert_eq.
  - by rewrite lookup_insert_ne.
Qed.

Lemma users_none v s :
  (∀ t, snd <$> engaged (thread t s) ≠ Some v) → users v (st_threads s) = ∅.
Proof.
  intros Hn. apply map_empty. intros t. apply map_lookup_filter_None. right. intros p Hp HP.
  apply (Hn t). unfold thread. rewrite Hp. exact HP.
Qed.

Lemma uses_other v k v' p : engaged p = Some (k, v') → v ≠ v' → uses v p = 0%Z.
Proof. intros Hp Hne. unfold uses. rewrite Hp. simpl. rewrite decide_False; congruence. Qed.

Lemma uses_same v k p : engaged p = Some (k, v) → uses v p = 1%Z.
Proof. intros Hp. unfold uses. rewrite Hp. simpl. by rewrite decide_True. Qed.

(** A step that keeps the entry of its goroutine and the table: taking and
    giving back the mutex. *)
Lemma mutex_step_inv s L L' t p k v e b :
  keylock_inv s L →
  engaged (thread t s) = Some (k, v) → engaged p = Some (k, v) → st_heap s !! v = Some e →
  (b = true ↔ is_Some (L' !! k)) → (∀ k', k' ≠ k → L' !! k' = L !! k') →
  (∀ t', t' ≠ t → L !! k ≠ Some t') →
  (L' !! k = Some t ∧ p = Holding k v ∨ L' !! k = None ∧ ∀ k' v', p ≠ Holding k' v') →
  keylock_inv (goto t p (s <| st_heap ::= <[v := mkEntry b (en_refs e)]> |>)) L'.
Proof.
  intros Hi Ht Hp He Hb Hother Hfree Hmine. pose proof (ki_engaged _ _ _ Hi _ _ _ Ht) as Hk. split.
  - intros w f. simpl. rewrite lookup_insert. case_decide; [|apply Hi]. subst w. intros _. by eapply Hi.
  - apply Hi.
  - intros k' w Hw. simpl in *. rewrite lookup_insert. case_decide; [|by eapply Hi]. subst w.
    destruct (ki_entry _ _ _ Hi _ _ Hw) as (e'&He'&Hpos). rewrite He in He'. injection He' as <-.
    eexists. split; [done|exact Hpos].
  - intros w f. simpl. rewrite users_insert. fold (thread t s).
    assert (uses w (thread t s) = uses w p) as -> by (unfold uses; by rewrite Ht, Hp).
    rewrite lookup_insert. case_decide as Hw; intros Hf.
    + subst w. injection Hf as <-. simpl. rewrite (ki_refs _ _ _ Hi _ _ He). lia.
    + rewrite (ki_refs _ _ _ Hi _ _ Hf). lia.
  - intros t' k' v'. rewrite thread_goto. simpl. case_decide; [|apply Hi]. rewrite Hp.
    by intros [= <- <-].
  - intros k' w f Hw. simpl in *. rewrite lookup_insert. case_decide as Hvw; intros Hf.
    + subst w. injection Hf as <-. simpl. assert (k' = k) as -> by (by eapply Hi). done.
    + rewrite (ki_locked _ _ _ Hi _ _ _ Hw Hf). rewrite Hother; [done|]. congruence.
  - intros t' k' v'. rewrite thread_goto. case_decide as Htt.
    + subst t'. intros ->. destruct Hmine as [[Hl [= <- <-]]|[_ Hn]]; [done|by destruct (Hn k' v')].
    + intros Hh. pose proof (ki_holder _ _ _ Hi _ _ _ Hh) as Hl. rewrite Hother; [done|].
      intros ->. by apply (Hfree t').
  - intros k' t' Hl. destruct (decide (k' = k)) as [->|Hne].
    + destruct Hmine as [[Hl' ->]|[Hl' _]]; rewrite Hl in Hl'; [|done]. injection Hl' as ->.
      exists v. rewrite thread_goto. by rewrite decide_True.
    + rewrite Hother in Hl by done. destruct (ki_held _ _ _ Hi _ _ Hl) as [v' Hv'].
      exists v'. rewrite thread_goto, decide_False; [done|]. intros ->. rewrite Hv' in Ht. simpl in Ht. congruence.
Qed.

Lemma acquire_inv s L t s' :
  keylock_inv s L → lock_acquire t s = Some s' →
  ∃ L', spec_step (Acquire t) s L = Some L' ∧ keylock_inv s' L'.
Proof.
  intros Hi. unfold lock_acquire, spec_step, spec_acquire.
  destruct (thread t s) as [|k v|k v|k v] eqn:Ht; try done.
  destruct (st_heap s !! v) as [e|] eqn:He; [|done]. destruct (en_mu e) eqn:Hmu; [done|].
  intros [= <-].
  assert (engaged (thread t s) = Some (k, v)) as Hen by (by rewrite Ht).
  assert (L !! k = None) as Hfree.
  { apply eq_None_not_Some. rewrite <- (ki_locked _ _ _ Hi _ _ _ (ki_engaged _ _ _ Hi _ _ _ Hen) He).
    by rewrite Hmu. }
  rewrite Hfree. eexists. split; [done|]. eapply mutex_step_inv; try done.
  - rewrite lookup_insert_eq. split; [eauto|done].
  - intros k' Hk. by rewrite lookup_insert_ne.
  - intros t' _. by rewrite Hfree.
  - left. by rewrite lookup_insert_eq.
Qed.

Lemma unlock_inv s L t s' :
  keylock_inv s L → unlock_mutex t s = Some s' →
  ∃ L', spec_step (Unlock t) s L = Some L' ∧ keylock_inv s' L'.
Proof.
  intros Hi. unfold unlock_mutex, spec_step, spec_release.
  destruct (thread t s) as [|k v|k v|k v] eqn:Ht; try done.
  destruct (st_heap s !! v) as [e|] eqn:He; [|done]. destruct (en_mu e) eqn:Hmu; [|done].
  intros [= <-]. pose proof (ki_holder _ _ _ Hi _ _ _ Ht) as Hh. rewrite decide_True by done.
  eexists. split; [done|]. eapply mutex_step_inv; try done.
  - by rewrite Ht.
  - rewrite lookup_delete_eq. split; [done|]. by intros [? ?].
  - intros k' Hk. by rewrite lookup_delete_ne.
  - intros t' Hne. rewrite Hh. congruence.
  - right. by rewrite lookup_delete_eq.
Qed.

(** The second half of [lock_enter]: the reference is counted. *)
Lemma count_inv s L t key v new :
  keylock_inv_but new s L → thread t s = Idle → st_entries s !! key = Some v →
  (new = None ∨ new = Some key) →
  keylock_inv (goto t (Waiting key v)
    (s <| st_heap ::= alter (fun e => mkEntry (en_mu e) (en_refs e + 1)) v |>)) L.
Proof.
  intros Hi Ht Hk Hnew. split.
  - intros w f. simpl. rewrite lookup_alter_Some. intros [(<-&e&He&_)|[_ He]]; by eapply Hi.
  - apply Hi.
  - intros k' w Hw. simpl in *. destruct (ki_entry _ _ _ Hi _ _ Hw) as (e&He&Hpos).
    pose proof (ki_refs _ _ _ Hi _ _ He). rewrite lookup_alter. case_decide as Hvw.
    + subst w. rewrite He. eexists. split; [done|]. simpl. lia.
    + exists e. split; [done|]. intros _. apply Hpos. intros ->. destruct Hnew as [|[= ->]]; [done|congruence].
  - intros w f. simpl. rewrite users_insert. fold (thread t s). rewrite Ht.
    change (uses w Idle) with 0%Z. rewrite lookup_alter_Some. intros [(->&e&He&->)|[Hne He]]; simpl.
    + rewrite (ki_refs _ _ _ Hi _ _ He), (uses_same w key) by done. lia.
    + rewrite (ki_refs _ _ _ Hi _ _ He), (uses_other w key v) by done. lia.
  - intros t' k' v'. rewrite thread_goto. simpl. case_decide; [|apply Hi]. by intros [= <- <-].
  - intros k' w f Hw. simpl in *. rewrite lookup_alter_Some. intros [(->&e&He&->)|[Hne He]]; simpl;
      by eapply Hi.
  - intros t' k' v'. rewrite thread_goto. case_decide; [done|apply Hi].
  - intros k' t' Hl. destruct (ki_held _ _ _ Hi _ _ Hl) as [v' Hv']. exists v'.
    rewrite thread_goto, decide_False; [done|]. intros ->. by rewrite Ht in Hv'.
Qed.

(** The first half: a key without an entry gets one. *)
Lemma create_inv s L key :
  keylock_inv s L → st_entries s !! key = None →
  keylock_inv_but (Some key) (s <| st_entries ::= <[key := st_next s]> |>
     <| st_heap ::= <[st_next s := mkEntry false 0]> |> <| st_next ::= S |>) L.
Proof.
  intros Hi Hk.
  assert (∀ k v, st_entries s !! k = Some v → v < st_next s) as Hlt.
  { intros k v Hv. destruct (ki_entry _ _ _ Hi _ _ Hv) as (e&He&_). by eapply Hi. }
  assert (∀ t k v, engaged (thread t s) = Some (k, v) → k ≠ key ∧ v ≠ st_next s) as Hen.
  { intros t k v Ht. pose proof (ki_engaged _ _ _ Hi _ _ _ Ht) as Hv. apply Hlt in Hv as ?.
    split; [congruence|lia]. }
  assert (L !! key = None) as HL.
  { apply eq_None_not_Some. intros [t (v&Ht)%(ki_held _ _ _ Hi)].
    destruct (Hen t key v) as [? _]; [by rewrite Ht|done]. }
  split; simpl.
  - intros v e. rewrite lookup_insert. case_decide; [lia|]. intros He. apply Hi in He. lia.
  - intros k k' v. rewrite !lookup_insert. repeat case_decide; subst; try done.
    + intros [= <-] ?%Hlt. lia.
    + intros ?%Hlt [= <-]. lia.
    + apply Hi.
  - intros k v. rewrite !lookup_insert. case_decide as Hkk.
    + subst k. intros [= <-]. rewrite decide_True by done. eexists. split; [done|]. done.
    + intros Hv. pose proof (Hlt _ _ Hv). rewrite decide_False by lia.
      destruct (ki_entry _ _ _ Hi _ _ Hv) as (e&He&Hpos). exists e. split; [done|]. intros _. by apply Hpos.
  - intros v e. rewrite lookup_insert. case_decide as Hv; [|apply Hi]. subst v. intros [= <-]. simpl.
    rewrite (users_none (st_next s) s); [by rewrite map_size_empty|]. intros t Ht.
    destruct (engaged (thread t s)) as [[k v]|] eqn:E; [|done]. simpl in Ht. injection Ht as ->.
    by destruct (Hen _ _ _ E).
  - intros t k v Ht. destruct (Hen _ _ _ Ht). rewrite lookup_insert_ne by done. by eapply Hi.
  - intros k v e. rewrite !lookup_insert. case_decide as Hkk.
    + subst k. intros [= <-]. rewrite decide_True by done. intros [= <-]. rewrite HL. simpl.
      split; [done|]. by intros [? ?].
    + intros Hv. pose proof (Hlt _ _ Hv). rewrite decide_False by lia. by apply Hi.
  - apply Hi.
  - apply Hi.
Qed.

Lemma enter_inv s L t key s' :
  keylock_inv s L → lock_enter t key s = Some s' → keylock_inv s' L.
Proof.
  intros Hi. unfold lock_enter. destruct (thread t s) eqn:Ht; try done.
  destruct (st_entries s !! key) as [v|] eqn:Hk; intros [= <-].
  - eapply count_inv; [exact Hi|done|done|by left].
  - eapply count_inv; [by apply create_inv|done| |by right]. simpl. apply lookup_insert_eq.
Qed.

Lemma users_empty v s t :
  size (users v (st_threads s)) = 0 → snd <$> engaged (thread t s) ≠ Some v.
Proof.
  intros Hz%map_size_empty_inv Ht. unfold thread in Ht. destruct (st_threads s !! t) as [p|] eqn:Hp; [|done].
  assert (users v (st_threads s) !! t = Some p) as Hu by (by apply map_lookup_filter_Some).
  by rewrite Hz, lookup_empty in Hu.
Qed.

Lemma leave_inv s L t s' : keylock_inv s L → unlock_leave t s = Some s' → keylock_inv s' L.
Proof.
  intros Hi. unfold unlock_leave. destruct (thread t s) as [|k v|k v|k v] eqn:Ht; try done.
  destruct (st_heap s !! v) as [e|] eqn:He; [|done]. intros [= <-].
  assert (engaged (thread t s) = Some (k, v)) as Hen by (by rewrite Ht).
  pose proof (ki_engaged _ _ _ Hi _ _ _ Hen) as Hk.
  set (m := <[t := Idle]> (st_threads s)).
  assert (∀ w, Z.of_nat (size (users w m)) = Z.of_nat (size (users w (st_threads s))) - uses w (thread t s))%Z as Hm.
  { intros w. unfold m. rewrite users_insert. change (uses w Idle) with 0%Z. fold (thread t s). lia. }
  set (s1 := s <| st_heap ::= <[v := mkEntry (en_mu e) (en_refs e - 1)]> |>).
  set (s2 := if (en_refs e - 1 =? 0)%Z then s1 <| st_entries ::= delete k |> else s1).
  assert (st_heap (goto t Idle s2) = st_heap s1 ∧ st_next (goto t Idle s2) = st_next s ∧
    st_threads (goto t Idle s2) = m ∧
    st_entries (goto t Idle s2) = if (en_refs e - 1 =? 0)%Z then delete k (st_entries s) else st_entries s)
    as (Eh&En&Em&Ee) by (unfold s2; by case_match).
  assert (∀ k' w, st_entries (goto t Idle s2) !! k' = Some w → st_entries s !! k' = Some w ∧
    (k' = k → en_refs e - 1 ≠ 0)%Z) as Hsub.
  { intros k' w. rewrite Ee. destruct (Z.eqb_spec (en_refs e - 1) 0); [|done].
    rewrite lookup_delete_Some. naive_solver. }
  assert (∀ t', thread t' (goto t Idle s2) = if decide (t = t') then Idle else thread t' s) as Hth.
  { intros t'. rewrite thread_goto. case_decide; [done|]. unfold s2. by case_match. }
  assert (∀ w f, st_heap s1 !! w = Some f → en_refs f = Z.of_nat (size (users w m))) as Hrefs.
  { intros w f. simpl. rewrite lookup_insert. case_decide as Hw; intros Hf; rewrite Hm.
    - subst w. injection Hf as <-. simpl. rewrite (ki_refs _ _ _ Hi _ _ He), (uses_same v k) by done. lia.
    - rewrite (ki_refs _ _ _ Hi _ _ Hf), (uses_other w k v) by done. lia. }
  split.
  - rewrite Eh, En. intros w f. simpl. rewrite lookup_insert. case_decide; [subst w; intros _; by eapply Hi|apply Hi].
  - intros k1 k2 w [H1 _]%Hsub [H2 _]%Hsub. by eapply Hi.
  - rewrite Eh. intros k' w [Hw Hz]%Hsub. simpl. rewrite lookup_insert. case_decide as Hvw.
    + subst w. assert (k' = k) as -> by (by eapply Hi). eexists. split; [done|]. intros _. simpl.
      pose proof (ki_refs _ _ _ Hi _ _ He). destruct (ki_entry _ _ _ Hi _ _ Hk) as (e'&He'&Hp).
      rewrite He in He'. injection He' as <-. specialize (Hz eq_refl). specialize (Hp ltac:(done)). lia.
    + by eapply Hi.
  - rewrite Eh, Em. exact Hrefs.
  - intros t' k' v'. rewrite Hth. case_decide as Htt; [done|]. intros Ht'.
    pose proof (ki_engaged _ _ _ Hi _ _ _ Ht') as Hk'. rewrite Ee.
    destruct (Z.eqb_spec (en_refs e - 1) 0) as [Hz|Hz]; [|done].
    rewrite lookup_delete_ne; [done|]. intros <-. rewrite Hk in Hk'. injection Hk' as <-.
    apply (users_empty v (goto t Idle s2) t').
    + rewrite Em. specialize (Hrefs v (mkEntry (en_mu e) (en_refs e - 1))). simpl in Hrefs.
      rewrite lookup_insert_eq in Hrefs. specialize (Hrefs eq_refl). lia.
    + rewrite Hth, decide_False by done. by rewrite Ht'.
  - rewrite Eh. intros k' w f [Hw _]%Hsub. simpl. rewrite lookup_insert. case_decide as Hvw.
    + subst w. intros [= <-]. by apply (ki_locked _ _ _ Hi _ _ _ Hw He).
    + by apply Hi.
  - intros t' k' v'. rewrite Hth. case_decide; [done|apply Hi].
  - intros k' t' Hl. destruct (ki_held _ _ _ Hi _ _ Hl) as [v' Hv']. exists v'.
    rewrite Hth, decide_False; [done|]. intros ->. by rewrite Ht in Hv'.
Qed.

Lemma exec_inv l s L s' :
  keylock_inv s L → exec l s = Some s' →
  ∃ L', spec_step l s L = Some L' ∧ keylock_inv s' L'.
Proof.
  intros Hi He. destruct l; simpl in He.
  - exists L. split; [done|by eapply enter_inv].
  - by eapply acquire_inv.
  - by eapply unlock_inv.
  - exists L. split; [done|by eapply leave_inv].
Qed.

Lemma keylock_inv_new : keylock_inv Set_new ∅.
Proof. split; simpl; intros *; rewrite ?lookup_empty; unfold thread; simpl; try rewrite lookup_empty; done. Qed.

Lemma exec_all_inv ls : ∀ s L s',
  keylock_inv s L → exec_all ls s = Some s' →
  ∃ L', spec_all ls s L = Some L' ∧ keylock_inv s' L'.
Proof.
  induction ls as [|l ls IH]; intros s L s' Hi; simpl.
  { intros [= <-]. eauto. }
  destruct (exec l s) as [s1|] eqn:He; [|done]. simpl.
  destruct (exec_inv _ _ _ _ Hi He) as (L1&->&Hi1). by apply IH.
Qed.

(** ** Consequences of the invariant *)

Lemma acquire_enabled s L t k v :
  keylock_inv s L → thread t s = Waiting k v → is_Some (lock_acquire t s) ↔ L !! k = None.
Proof.
  intros Hi Ht. assert (engaged (thread t s) = Some (k, v)) as Hk%(ki_engaged _ _ _ Hi) by (by rewrite Ht).
  destruct (ki_entry _ _ _ Hi _ _ Hk) as (e&He&_). pose proof (ki_locked _ _ _ Hi _ _ _ Hk He) as Hl.
  rewrite eq_None_not_Some, <- Hl. unfold lock_acquire. rewrite Ht, He.
  destruct (en_mu e); split; [by intros [? ?]|done|done|eauto].
Qed.

Lemma unlock_enabled s L t k v :
  keylock_inv s L → thread t s = Holding k v → is_Some (unlock_mutex t s).
Proof.
  intros Hi Ht. assert (engaged (thread t s) = Some (k, v)) as Hk%(ki_engaged _ _ _ Hi) by (by rewrite Ht).
  destruct (ki_entry _ _ _ Hi _ _ Hk) as (e&He&_).
  assert (en_mu e = true) as Hmu.
  { apply (ki_locked _ _ _ Hi _ _ _ Hk He). rewrite (ki_holder _ _ _ Hi _ _ _ Ht). eauto. }
  unfold unlock_mutex. rewrite Ht, He, Hmu. eauto.
Qed.

Lemma leave_enabled s L t k v :
  keylock_inv s L → thread t s = Releasing k v → is_Some (unlock_leave t s).
Proof.
  intros Hi Ht. assert (engaged (thread t s) = Some (k, v)) as Hk%(ki_engaged _ _ _ Hi) by (by rewrite Ht).
  destruct (ki_entry _ _ _ Hi _ _ Hk) as (e&He&_). unfold unlock_leave. rewrite Ht, He. eauto.
Qed.

Lemma entries_in_use s L k :
  keylock_inv s L → is_Some (st_entries s !! k) ↔ ∃ t, fst <$> engaged (thread t s) = Some k.
Proof.
  intros Hi. split.
  - intros [v Hv]. destruct (ki_entry _ _ _ Hi _ _ Hv) as (e&He&Hpos).
    rewrite (ki_refs _ _ _ Hi _ _ He) in Hpos. specialize (Hpos ltac:(done)).
    destruct (map_choose (users v (st_threads s))) as (t&p&Hp).
    { intros E. rewrite E, map_size_empty in Hpos. lia. }
    apply map_lookup_filter_Some in Hp as [Hp HP]. exists t. unfold thread. rewrite Hp. simpl in *.
    destruct (engaged p) as [[k' v']|] eqn:E; [|done]. simpl in *. injection HP as ->. f_equal.
    eapply (ki_inj _ _ _ Hi); [|done]. apply (ki_engaged _ _ _ Hi t). unfold thread. by rewrite Hp.
  - intros [t Ht]. destruct (engaged (thread t s)) as [[k' v']|] eqn:E; [|done]. injection Ht as ->.
    apply (ki_engaged _ _ _ Hi) in E. eauto.
Qed.

(** C32: The table of reference-counted entries implements one lock per key.
    Every interleaving of the goroutines is a run of the specification, which
    lets a key have one holder at a time; a goroutine that waits for a key can
    go on exactly when the specification has the key free, whatever happens
    to other keys; the returned function never blocks and never unlocks a free
    mutex; and the table holds exactly the keys some goroutine is using, so it
    is empty when all are done. *)
Theorem keylock_refines ls s :
  exec_all ls Set_new = Some s →
  ∃ L, spec_all ls Set_new ∅ = Some L ∧
    (∀ t k, L !! k = Some t ↔ ∃ v, thread t s = Holding k v) ∧
    (∀ t k v, thread t s = Waiting k v → is_Some (lock_acquire t s) ↔ L !! k = None) ∧
    (∀ t k v, thread t s = Holding k v → is_Some (unlock_mutex t s)) ∧
    (∀ t k v, thread t s = Releasing k v → is_Some (unlock_leave t s)) ∧
    (∀ k, is_Some (st_entries s !! k) ↔ ∃ t, fst <$> engaged (thread t s) = Some k).
Proof.
  intros He. destruct (exec_all_inv _ _ _ _ keylock_inv_new He) as (L&HL&Hi).
  exists L. split_and!; [done| |intros; by eapply acquire_enabled|intros; by eapply unlock_enabled|
    intros; by eapply leave_enabled|intros k; by eapply entries_in_use].
  intros t k. split; [apply Hi|]. intros [v Hv]. by eapply Hi.
Qed.

(** Two goroutines on one key and one on another; the second gets the key
    from the first, and a third call finds the entry of the second. *)
Definition sample_run : list label :=
  [Enter 1 7; Enter 2 7; Acquire 1; Enter 3 8; Acquire 3; Unlock 1; Acquire 2; Leave 1; Enter 1 7].

Lemma keylock_refines_witness :
  ∃ s L, exec_all sample_run Set_new = Some s ∧ spec_all sample_run Set_new ∅ = Some L ∧
    L !! 7%Z = Some 2 ∧ thread 1 s = Waiting 7 0 ∧ lock_acquire 1 s = None.
Proof.
  destruct (exec_all sample_run Set_new) as [s|] eqn:Hs; [|vm_compute in Hs; discriminate Hs].
  destruct (keylock_refines sample_run s Hs) as (L&HL&Hh&Hw&_).
  exists s, L. split; [reflexivity|]. split; [exact HL|].
  assert (L !! 7%Z = Some 2) as H7.
  { apply (Hh 2 7%Z). exists 0. vm_compute in Hs. injection Hs as <-. vm_compute. reflexivity. }
  assert (thread 1 s = Waiting 7 0) as H1.
  { vm_compute in Hs. injection Hs as <-. vm_compute. reflexivity. }
  split; [exact H7|]. split; [exact H1|].
  destruct (lock_acquire 1 s) eqn:E; [|reflexivity].
  assert (L !! 7%Z = None) as Hn by (apply (proj1 (Hw 1 7%Z 0 H1)); rewrite E; eexists; reflexivity).
  rewrite H7 in Hn. discriminate Hn.
Defined.
