(* ===== verification/WsHandler.v ===== *)
(** * The websocket endpoint: requests of a connection

    Model of [internal/realtime/http]: [handleIncomingEvent] and every handler
    it dispatches to, with the typing limiter. The collaborators of the Go
    handler are interfaces, and so they are here: the channel, read state and
    encryption services ([Services]) and the two media managers ([VoiceMedia],
    [StreamMedia]). A service may answer differently each time it is asked, so
    every call takes the number of calls made before it. A media operation may
    call back into the hub and is a transformer of it. Payloads arrive as raw
    JSON; [Decoder] is what [json.Unmarshal] makes of them. *)

From S2P Require Import Prelude GoText StreamContract Events Client VoiceState StreamState Hub HubOps MediaHub.

(** ** The handler's collaborators *)

Inductive AccessError := AccessVoiceRequired | AccessNotFound | AccessForbidden | AccessFailed.
Inductive ReadError := ReadTextRequired | ReadForbidden | ReadNotFound | ReadFailed.

(** [VoiceEncryption]; [None] is a database error. *)
Record Encryption := mkEncryption {
  enc_ChannelRequired : nat → Z → option bool;
  enc_DeviceActive : nat → Z → string → option bool
}.

(** [None] as the answer of a check is a nil error. The stream check is an
    optional method of the channel service; a missing encryption service is a
    nil interface. *)
Record Services := mkServices {
  sv_CheckAccess : nat → Z → Z → Z → option AccessError;
  sv_CheckVoiceAccess : nat → Z → Z → Z → option AccessError;
  sv_CheckStreamAccess : option (nat → Z → Z → Z → option AccessError);
  sv_ListByChannelID : nat → Z → Z → Z → list ChannelReadData + ReadError;
  sv_encryption : option Encryption
}.

Inductive VoiceMediaError := VoiceSessionNotFound | VoiceRoomFull | VoiceTooManyICE | VoiceFailed.

Class VoiceMedia := {
  vm_Join : nat → string → Z → Z → Z → bool → bool → M Hub (option VoiceMediaError);
  vm_SetState : nat → string → bool → bool → M Hub (option VoiceMediaError);
  vm_AcceptAnswer : nat → string → string → M Hub (option VoiceMediaError);
  vm_AddICECandidate : nat → string → ICECandidateData → M Hub (option VoiceMediaError)
}.

Inductive StreamMediaError := StreamSessionNotFound | StreamMediaViewerLimit | StreamTooManyICE | StreamFailed.

(** The methods [StartWithRenditions] and [WatchRendition], and
    [WatchRenditionForPublisher], are optional: the handler asks for them with
    type assertions. *)
Class StreamMedia := {
  sm_StartWithRenditions : option (nat → string → Z → Z → Z → StreamCodec → bool →
    list Rendition → M Hub (option StreamMediaError));
  sm_WatchRendition : option (nat → string → Z → Z → Z → string → M Hub (option StreamMediaError));
  sm_WatchRenditionForPublisher : option (nat → string → Z → Z → Z → string → string →
    M Hub (option StreamMediaError));
  sm_Start : nat → string → Z → Z → Z → StreamCodec → bool → M Hub (option StreamMediaError);
  sm_Watch : nat → string → Z → Z → Z → M Hub (option StreamMediaError);
  sm_AcceptAnswer : nat → string → string → M Hub (option StreamMediaError);
  sm_AddICECandidate : nat → string → ICECandidateData → M Hub (option StreamMediaError);
  sm_RequestRecovery : nat → string → string → M Hub (option StreamMediaError)
}.

(** [json.Unmarshal] into each payload type; [None] is an error. *)
Record Decoder (Raw : Type) := mkDecoder {
  de_Subscription : Raw → option ChannelSubscriptionData;
  de_Typing : Raw → option TypingData;
  de_Relay : Raw → option E2EERelayData;
  de_Batch : Raw → option E2EEKeyBatchData;
  de_VoiceJoin : Raw → option VoiceJoinData;
  de_VoiceState : Raw → option VoiceStateUpdateData;
  de_SDP : Raw → option string;
  de_Candidate : Raw → option ICECandidateData;
  de_StreamStart : Raw → option StreamStartData;
  de_StreamWatch : Raw → option StreamWatchData;
  de_P2PSession : Raw → option StreamP2PSessionData;
  de_P2PCandidate : Raw → option StreamP2PICECandidateData;
  de_P2PRestart : Raw → option string;
  de_Recovery : Raw → option StreamRecoveryRequestData
}.
Arguments de_Subscription {Raw}. Arguments de_Typing {Raw}. Arguments de_Relay {Raw}.
Arguments de_Batch {Raw}. Arguments de_VoiceJoin {Raw}. Arguments de_VoiceState {Raw}.
Arguments de_SDP {Raw}. Arguments de_Candidate {Raw}. Arguments de_StreamStart {Raw}.
Arguments de_StreamWatch {Raw}. Arguments de_P2PSession {Raw}. Arguments de_P2PCandidate {Raw}.
Arguments de_P2PRestart {Raw}. Arguments de_Recovery {Raw}.

Record IncomingEvent (Raw : Type) := mkIncomingEvent {
  ie_RequestID : string; ie_Type : EventType; ie_Data : Raw }.
Arguments mkIncomingEvent {Raw}. Arguments ie_RequestID {Raw}. Arguments ie_Type {Raw}.
Arguments ie_Data {Raw}.

(** ** State *)

(** The hub, the last accepted typing event of each user and channel, the
    number of service calls, and the clock in nanoseconds. *)
Record Ws := mkWs { w_hub : Hub; w_typing : gmap (Z * Z) Z; w_calls : nat; w_clock : Z }.
#[global] Instance Ws_fields : Fields Ws := fun w =>
  mkWs (w_hub w) (w_typing w) (w_calls w) (w_clock w).

Definition on_hub {A} (m : M Hub A) : M Ws A := fun w =>
  match m (w_hub w) with
  | Ok (a, h) => Ok (a, w <| w_hub := h |>)
  | Panic => Panic
  | OutOfFuel => OutOfFuel
  end.

(** A call of a service or of a media manager. *)
Definition ask {A} (f : nat → A) : M Ws A :=
  n ← gets w_calls; modify (fun w => w <| w_calls ::= S |>) ;; mret (f n).
Definition ask_media {A} (f : nat → M Hub A) : M Ws A :=
  n ← gets w_calls; modify (fun w => w <| w_calls ::= S |>) ;; on_hub (f n).

(** The error a handler returns to the read loop, [None] for nil. *)
Inductive HandlerError := QueueFull.

(** ** typing.go *)

Definition typingMinInterval : Z := 3000000000.
Definition typingLifetime : Z := 6000000000.

Definition typing_allow (userID channelID now : Z) (last : gmap (Z * Z) Z)
    : bool * gmap (Z * Z) Z :=
  let recent := match last !! (userID, channelID) with
    | Some previous => (now - previous <? typingMinInterval)%Z
    | None => false
    end in
  if recent then (false, last)
  else
    let last := if 4096 <? size last
      then filter (fun e => ¬ (typingMinInterval < now - e.2)%Z) last else last in
    (true, <[(userID, channelID) := now]> last).

(** ** Replies *)

Section handlers.
Context `{MapOrder} `{VoiceMedia} `{StreamMedia}.
Context (sv : Services) {Raw : Type} (de : Decoder Raw).

Definition queueEvent (client : ClientRef) (event : OutgoingEvent) : M Ws (option HandlerError) :=
  sent ← on_hub (hub_enqueue client event);
  mret (if sent : bool then None else Some QueueFull).

Definition queueError (client : ClientRef) (requestID : string) (code : ErrorCode) (message : string)
    : M Ws (option HandlerError) :=
  queueEvent client (mkOutgoingEvent false requestID EventError (DError code message)).

Definition reply (client : ClientRef) (requestID : string) (t : EventType) (d : EventData)
    : M Ws (option HandlerError) :=
  queueEvent client (mkOutgoingEvent false requestID t d).

Definition client_user (client : ClientRef) : M Ws Z :=
  gets (fun w => cl_userID (client_at client (w_hub w))).
Definition client_conn (client : ClientRef) : M Ws string :=
  gets (fun w => cl_connectionID (client_at client (w_hub w))).

Definition positive (a b : Z) : bool := negb ((a <=? 0) || (b <=? 0))%Z.

(** ** Channel subscriptions *)

Definition checkChannelAccess (client : ClientRef) (requestID : string) (data : ChannelSubscriptionData)
    : M Ws (bool * option HandlerError) :=
  u ← client_user client;
  err ← ask (fun n => sv_CheckAccess sv n (cs_ServerID data) (cs_ChannelID data) u);
  match err with
  | None => mret (true, None)
  | Some AccessNotFound | Some AccessForbidden =>
      e ← queueError client requestID ErrorForbidden "not allowed to subscribe to channel";
      mret (false, e)
  | Some _ =>
      e ← queueError client requestID ErrorInternal "internal server error"; mret (false, e)
  end.

Definition subscribeToChannel (client : ClientRef) (event : IncomingEvent Raw)
    : M Ws (option HandlerError) :=
  let id := ie_RequestID event in
  match de_Subscription de (ie_Data event) with
  | None => queueError client id ErrorInvalidPayload "invalid channel subscription payload"
  | Some data =>
      if negb (positive (cs_ServerID data) (cs_ChannelID data)) then
        queueError client id ErrorInvalidPayload "server_id and channel_id must be positive"
      else
        '(allowed, err) ← checkChannelAccess client id data;
        if negb allowed then mret err
        else
          on_hub (Subscribe (Some client) (cs_ServerID data) (cs_ChannelID data)) ;;
          '(allowed, err) ← checkChannelAccess client id data;
          if negb allowed then on_hub (Unsubscribe client (cs_ChannelID data)) ;; mret err
          else
            u ← client_user client;
            reads ← ask (fun n => sv_ListByChannelID sv n (cs_ServerID data) (cs_ChannelID data) u);
            match reads with
            | inr ReadTextRequired =>
                reply client id EventChannelSubscribed (DChannelSubscription data)
            | inr e =>
                on_hub (Unsubscribe client (cs_ChannelID data)) ;;
                match e with
                | ReadForbidden | ReadNotFound =>
                    queueError client id ErrorForbidden "not allowed to subscribe to channel"
                | _ => queueError client id ErrorInternal "internal server error"
                end
            | inl reads =>
                err ← reply client id EventChannelSubscribed (DChannelSubscription data);
                match err with
                | Some e => mret (Some e)
                | None =>
                    queueEvent client (new_event EventChannelReadSnapshot (DChannelReadSnapshot
                      (mkChannelReadSnapshotData (cs_ServerID data) (cs_ChannelID data) reads)))
                end
            end
  end.

Definition unsubscribeFromChannel (client : ClientRef) (event : IncomingEvent Raw)
    : M Ws (option HandlerError) :=
  let id := ie_RequestID event in
  match de_Subscription de (ie_Data event) with
  | None => queueError client id ErrorInvalidPayload "invalid channel unsubscription payload"
  | Some data =>
      if negb (positive (cs_ServerID data) (cs_ChannelID data)) then
        queueError client id ErrorInvalidPayload "server_id and channel_id must be positive"
      else
        on_hub (Unsubscribe client (cs_ChannelID data)) ;;
        reply client id EventChannelUnsubscribed (DChannelSubscription data)
  end.

Definition typingStart (client : ClientRef) (event : IncomingEvent Raw) : M Ws (option HandlerError) :=
  match de_Typing de (ie_Data event) with
  | None => mret None
  | Some data =>
      w ← get_state;
      let cl := client_at client (w_hub w) in
      if negb (positive (ty_ServerID data) (ty_ChannelID data)) then mret None
      else if negb (IsSubscribed (ty_ServerID data) (ty_ChannelID data) cl) then mret None
      else
        let '(ok, last) := typing_allow (cl_userID cl) (ty_ChannelID data) (w_clock w) (w_typing w) in
        modify (fun w => w <| w_typing := last |>) ;;
        if negb ok then mret None
        else
          on_hub (PublishExcept (ty_ChannelID data)
            (new_event EventTyping (DTyping (mkTypingData (ty_ServerID data) (ty_ChannelID data)
               (cl_userID cl) ((w_clock w + typingLifetime) / 1000000000))))
            (Some client)) ;;
          mret None
  end.

(** ** Encrypted key relay *)

(** [e2ee.ValidDeviceID]: [^[0-9a-f]{32}$]. *)
Definition hex_char (c : Ascii.ascii) : bool :=
  let x := byte_of c in ((48 <=? x) && (x <=? 57) || (97 <=? x) && (x <=? 102))%Z.
Fixpoint all_chars (p : Ascii.ascii → bool) (s : string) : bool :=
  match s with EmptyString => true | String c s' => p c && all_chars p s' end.
Definition ValidDeviceID (id : string) : bool := (String.length id =? 32) && all_chars hex_char id.
Definition MaxRelayPayload : nat := 1024.

(** Every rune of the text is in the base64 alphabet or a padding sign; bytes
    outside ASCII never are. *)
Definition base64_char (c : Ascii.ascii) : bool :=
  let x := byte_of c in
  ((65 <=? x) && (x <=? 90) || (97 <=? x) && (x <=? 122) || (48 <=? x) && (x <=? 57) ||
   (x =? 43) || (x =? 47) || (x =? 61))%Z.
Definition base64Text (value : string) : bool := all_chars base64_char value.

Definition payload_ok (payload : string) : bool :=
  negb (String.eqb payload "") && (String.length payload <=? MaxRelayPayload) && base64Text payload.

Definition relayE2EE (client : ClientRef) (event : IncomingEvent Raw) : M Ws (option HandlerError) :=
  let id := ie_RequestID event in
  match de_Relay de (ie_Data event) with
  | None => queueError client id ErrorInvalidPayload "invalid e2ee relay payload"
  | Some data =>
      if negb (positive (er_ChannelID data) (er_RecipientUserID data)) ||
         negb (ValidDeviceID (er_RecipientDeviceID data))
      then queueError client id ErrorInvalidPayload "invalid e2ee relay payload"
      else
        let request := String.eqb (ie_Type event) EventE2EEKeyRequest in
        if negb request && negb (payload_ok (er_Payload data))
        then queueError client id ErrorInvalidPayload "e2ee payload must be base64 up to 1 KiB"
        else
          let data := if request then data <| er_Payload := "" |> else data in
          let data := data <| er_SenderUserID := 0%Z |> <| er_SenderDeviceID := "" |>
                           <| er_SenderConnectionID := "" |> in
          on_hub (RelayVoiceE2EE client (ie_Type event) data) ;; mret None
  end.

Definition recipient_ok (key : E2EEKeyRecipient) : bool :=
  (0 <? ek_UserID key)%Z && ValidDeviceID (ek_DeviceID key) && payload_ok (ek_Payload key).

Definition relayE2EEBatch (client : ClientRef) (event : IncomingEvent Raw) : M Ws (option HandlerError) :=
  let id := ie_RequestID event in
  match de_Batch de (ie_Data event) with
  | None => queueError client id ErrorInvalidPayload "invalid e2ee key batch"
  | Some batch =>
      if (eb_ChannelID batch <=? 0)%Z || (length (eb_Keys batch) =? 0) ||
         (MaxE2EEBatchRecipients <? length (eb_Keys batch))
      then queueError client id ErrorInvalidPayload "invalid e2ee key batch"
      else if negb (forallb recipient_ok (eb_Keys batch))
      then queueError client id ErrorInvalidPayload "invalid e2ee key batch recipient"
      else
        on_hub (for_each (eb_Keys batch) (fun key =>
          RelayVoiceE2EE client EventE2EEKey (mkE2EERelayData (eb_ChannelID batch) (ek_UserID key)
            (ek_DeviceID key) 0 "" "" (ek_Payload key)) ;; mret tt)) ;;
        mret None
  end.

(** ** Voice *)

Definition checkVoiceChannelAccess (client : ClientRef) (requestID : string) (serverID channelID : Z)
    : M Ws (bool * option HandlerError) :=
  u ← client_user client;
  err ← ask (fun n => sv_CheckVoiceAccess sv n serverID channelID u);
  match err with
  | None => mret (true, None)
  | Some AccessVoiceRequired =>
      e ← queueError client requestID ErrorInvalidState "channel is not a voice channel"; mret (false, e)
  | Some AccessNotFound | Some AccessForbidden =>
      e ← queueError client requestID ErrorForbidden "not allowed to join voice channel"; mret (false, e)
  | Some AccessFailed =>
      e ← queueError client requestID ErrorInternal "internal server error"; mret (false, e)
  end.

(** [(required, ok, err)] *)
Definition checkVoiceEncryption (client : ClientRef) (requestID : string) (data : VoiceJoinData)
    : M Ws (bool * bool * option HandlerError) :=
  let plain := String.eqb (vjd_E2EEDeviceID data) "" in
  match sv_encryption sv with
  | None =>
      if plain then mret (false, true, None)
      else
        e ← queueError client requestID ErrorInvalidState "voice channel does not use end-to-end encryption";
        mret (false, false, e)
  | Some encryption =>
      required ← ask (fun n => enc_ChannelRequired encryption n (vjd_ChannelID data));
      match required with
      | None =>
          e ← queueError client requestID ErrorInternal "internal server error"; mret (false, false, e)
      | Some true =>
          if plain then
            e ← queueError client requestID ErrorInvalidState "voice channel requires end-to-end encryption";
            mret (true, false, e)
          else
            u ← client_user client;
            active ← ask (fun n => enc_DeviceActive encryption n u (vjd_E2EEDeviceID data));
            match active with
            | None =>
                e ← queueError client requestID ErrorInternal "internal server error"; mret (true, false, e)
            | Some false =>
                e ← queueError client requestID ErrorInvalidState "e2ee device is not registered";
                mret (true, false, e)
            | Some true => mret (true, true, None)
            end
      | Some false =>
          if plain then mret (false, true, None)
          else
            e ← queueError client requestID ErrorInvalidState "voice channel does not use end-to-end encryption";
            mret (false, false, e)
      end
  end.

(** From the second access check, under the per-user join lock. *)
Definition join_checked (client : ClientRef) (id : string) (data : VoiceJoinData) (required : bool)
    : M Ws (option HandlerError) :=
  joined ← on_hub (JoinVoiceWithDevice (Some client) (vjd_ServerID data) (vjd_ChannelID data)
                     (vjd_SelfMute data) (vjd_SelfDeaf data) (vjd_E2EEDeviceID data));
  match joined with
  | None => queueError client id ErrorForbidden "not allowed to join voice channel"
  | Some joined =>
      let joined := mkVoiceJoinedData (vj_Participant joined) (vj_Participants joined) required in
      err ← reply client id EventVoiceJoined (DVoiceJoined joined);
      match err with
      | Some e => mret (Some e)
      | None =>
          u ← client_user client; k ← client_conn client;
          failed ← ask_media (fun n => vm_Join n k u (vjd_ServerID data) (vjd_ChannelID data)
                                (vjd_SelfMute data) (vjd_SelfDeaf data));
          match failed with
          | None => mret None
          | Some e =>
              on_hub (LeaveVoice (Some client)) ;;
              match e with
              | VoiceRoomFull => queueError client id ErrorInvalidState "voice channel is full"
              | _ => queueError client id ErrorInternal "failed to start voice media session"
              end
          end
      end
  end.

Definition joinVoice (client : ClientRef) (event : IncomingEvent Raw) : M Ws (option HandlerError) :=
  let id := ie_RequestID event in
  match de_VoiceJoin de (ie_Data event) with
  | None => queueError client id ErrorInvalidPayload "invalid voice join payload"
  | Some data =>
      if negb (positive (vjd_ServerID data) (vjd_ChannelID data)) then
        queueError client id ErrorInvalidPayload "server_id and channel_id must be positive"
      else
        '(allowed, err) ← checkVoiceChannelAccess client id (vjd_ServerID data) (vjd_ChannelID data);
        if negb allowed then mret err
        else
          '(required, ok, err) ← checkVoiceEncryption client id data;
          if negb ok then mret err
          else
            '(allowed, err) ← checkVoiceChannelAccess client id (vjd_ServerID data) (vjd_ChannelID data);
            if negb allowed then mret err else join_checked client id data required
  end.

Definition updateVoiceState (client : ClientRef) (event : IncomingEvent Raw)
    : M Ws (option HandlerError) :=
  let id := ie_RequestID event in
  match de_VoiceState de (ie_Data event) with
  | None => queueError client id ErrorInvalidPayload "invalid voice state payload"
  | Some data =>
      k ← client_conn client;
      failed ← ask_media (fun n => vm_SetState n k (vu_SelfMute data) (vu_SelfDeaf data));
      match failed with
      | Some VoiceSessionNotFound =>
          on_hub (LeaveVoice (Some client)) ;;
          queueError client id ErrorInvalidState "WebRTC voice session is not active"
      | Some _ => queueError client id ErrorInternal "failed to update voice media state"
      | None =>
          participant ← on_hub (UpdateVoiceState (Some client) (vu_SelfMute data) (vu_SelfDeaf data)
                                  (vu_SelfVideo data));
          match participant with
          | None => queueError client id ErrorInvalidState "voice channel is not joined"
          | Some p => reply client id EventVoiceStateUpdated (DVoiceParticipant p)
          end
      end
  end.

Definition leave_voice_request (client : ClientRef) (event : IncomingEvent Raw)
    : M Ws (option HandlerError) :=
  left_ ← on_hub (LeaveVoice (Some client));
  match left_ with
  | None => queueError client (ie_RequestID event) ErrorInvalidState "voice channel is not joined"
  | Some left_ => reply client (ie_RequestID event) EventVoiceLeft (DVoiceLeft left_)
  end.

Definition handleVoiceMediaInputError (client : ClientRef) (requestID : string) (e : VoiceMediaError)
    : M Ws (option HandlerError) :=
  match e with
  | VoiceSessionNotFound =>
      queueError client requestID ErrorInvalidState "WebRTC voice session is not active"
  | VoiceTooManyICE =>
      on_hub (LeaveVoice (Some client)) ;;
      queueError client requestID ErrorInvalidState "too many pending ICE candidates"
  | _ => queueError client requestID ErrorInvalidPayload "invalid WebRTC signaling payload"
  end.

Definition blank (s : string) : bool := String.eqb (TrimSpace s) "".

Definition acceptVoiceWebRTCAnswer (client : ClientRef) (event : IncomingEvent Raw)
    : M Ws (option HandlerError) :=
  let id := ie_RequestID event in
  match de_SDP de (ie_Data event) with
  | None => queueError client id ErrorInvalidPayload "invalid WebRTC answer payload"
  | Some sdp =>
      if blank sdp then queueError client id ErrorInvalidPayload "invalid WebRTC answer payload"
      else
        k ← client_conn client;
        failed ← ask_media (fun n => vm_AcceptAnswer n k sdp);
        match failed with
        | Some e => handleVoiceMediaInputError client id e
        | None => reply client id EventVoiceWebRTCAnswered (DAnswered true)
        end
  end.

Definition addVoiceICECandidate (client : ClientRef) (event : IncomingEvent Raw)
    : M Ws (option HandlerError) :=
  let id := ie_RequestID event in
  match de_Candidate de (ie_Data event) with
  | None => queueError client id ErrorInvalidPayload "invalid ICE candidate payload"
  | Some c =>
      if blank (ic_Candidate c) then queueError client id ErrorInvalidPayload "invalid ICE candidate payload"
      else
        k ← client_conn client;
        failed ← ask_media (fun n => vm_AddICECandidate n k c);
        match failed with
        | Some e => handleVoiceMediaInputError client id e
        | None => mret None
        end
  end.

(** ** Streams *)

Definition queueStreamStateError (client : ClientRef) (requestID : string) (e : StreamError)
    : M Ws (option HandlerError) :=
  let '(code, message) :=
    match e with
    | ErrStreamVoiceRequired => (ErrorInvalidState, "join the same voice channel first")
    | ErrStreamPublisherLimit => (ErrorInvalidState, "channel stream publisher limit reached")
    | ErrStreamAlreadyActive => (ErrorInvalidState, "stream is already active")
    | ErrStreamViewerLimit => (ErrorInvalidState, "stream viewer limit reached")
    | ErrStreamP2PRelation => (ErrorForbidden, "P2P stream peer is not allowed")
    | ErrStreamRenditionsInvalid => (ErrorInvalidPayload, "stream renditions are invalid")
    | ErrStreamRenditionUnavailable => (ErrorInvalidState, "compatible stream rendition is not available")
    | ErrStreamUnavailable => (ErrorInvalidState, "stream is not available")
    end in
  queueError client requestID code message.

Definition validStreamCodec (codec : StreamCodec) : bool :=
  String.eqb codec StreamCodecVP8 || String.eqb codec StreamCodecVP9 ||
  String.eqb codec StreamCodecH264 || String.eqb codec StreamCodecAV1.

Definition mediaStreamRenditions (values : list StreamRenditionData) : list Rendition :=
  map (fun value => mkRendition (sd_ID value) (sd_Codec value) (sd_Profile value)
    (sd_DynamicRange value) (sd_BitDepth value) (sd_ColorPrimaries value) (sd_Transfer value)
    (sd_Matrix value)) values.

Definition startStreamMedia (n : nat) (connectionID : string) (userID serverID channelID : Z)
    (codec : StreamCodec) (hasAudio : bool) (renditions : list Rendition)
    : M Hub (option StreamMediaError) :=
  match sm_StartWithRenditions with
  | Some start => start n connectionID userID serverID channelID codec hasAudio renditions
  | None =>
      match renditions with
      | [r] => if String.eqb (rd_DynamicRange r) "sdr"
               then sm_Start n connectionID userID serverID channelID codec hasAudio
               else mret (Some StreamFailed)
      | _ => mret (Some StreamFailed)
      end
  end.

Definition watchStreamMedia (n : nat) (connectionID : string) (userID serverID channelID : Z)
    (selectedRenditionID publisherConnectionID : string) : M Hub (option StreamMediaError) :=
  match sm_WatchRenditionForPublisher, sm_WatchRendition with
  | Some watch, _ => watch n connectionID userID serverID channelID publisherConnectionID selectedRenditionID
  | None, Some watch => watch n connectionID userID serverID channelID selectedRenditionID
  | None, None =>
      if String.eqb selectedRenditionID "sdr"
      then sm_Watch n connectionID userID serverID channelID
      else mret (Some StreamFailed)
  end.

Definition checkStreamAccess (serverID channelID userID : Z) : M Ws bool :=
  match sv_CheckStreamAccess sv with
  | None => mret true
  | Some check =>
      err ← ask (fun n => check n serverID channelID userID);
      mret (match err with None => true | Some _ => false end)
  end.

Definition startStream (client : ClientRef) (event : IncomingEvent Raw) : M Ws (option HandlerError) :=
  let id := ie_RequestID event in
  match de_StreamStart de (ie_Data event) with
  | None => queueError client id ErrorInvalidPayload "invalid stream start payload"
  | Some data =>
      let s := ssd_ServerID data in let ch := ssd_ChannelID data in
      if negb (positive s ch) ||
         negb (String.eqb (ssd_Mode data) StreamModeServer || String.eqb (ssd_Mode data) StreamModeP2P) ||
         negb (validStreamCodec (ssd_Codec data))
      then queueError client id ErrorInvalidPayload "invalid stream start payload"
      else
        u ← client_user client; k ← client_conn client;
        allowed ← checkStreamAccess s ch u;
        if negb allowed then queueError client id ErrorForbidden "stream permission denied"
        else
          started ← on_hub (StartStreamWithRenditions (Some client) s ch (ssd_Mode data)
                              (ssd_Codec data) (ssd_HasAudio data) (ssd_Renditions data));
          match started with
          | inr e => queueStreamStateError client id e
          | inl streamData =>
              failed ← (if String.eqb (ssd_Mode data) StreamModeServer
                        then ask_media (fun n => startStreamMedia n k u s ch (ssd_Codec data)
                               (ssd_HasAudio data) (mediaStreamRenditions (st_Renditions streamData)))
                        else mret None);
              match failed with
              | Some _ =>
                  on_hub (LeaveStream (Some client) "failed to start stream media session") ;;
                  queueError client id ErrorInternal "failed to start stream media session"
              | None => reply client id EventStreamStarted (DStream streamData)
              end
          end
  end.

Definition watchStream (client : ClientRef) (event : IncomingEvent Raw) : M Ws (option HandlerError) :=
  let id := ie_RequestID event in
  match de_StreamWatch de (ie_Data event) with
  | None => queueError client id ErrorInvalidPayload "invalid stream watch payload"
  | Some data =>
      let s := swd_ServerID data in let ch := swd_ChannelID data in
      if negb (positive s ch) then queueError client id ErrorInvalidPayload "invalid stream watch payload"
      else
        watching ← on_hub (WatchStreamWithCapabilities (Some client) s ch
                             (swd_SupportedDynamicRanges data) (swd_CodecProfiles data)
                             [swd_PublisherConnectionID data]);
        match watching with
        | inr e => queueStreamStateError client id e
        | inl watching =>
            u ← client_user client; k ← client_conn client;
            failed ← (if String.eqb (st_Mode (sw_Stream watching)) StreamModeServer
                      then ask_media (fun n => watchStreamMedia n k u s ch
                             (sw_SelectedRenditionID watching)
                             (st_PublisherConnectionID (sw_Stream watching)))
                      else mret None);
            match failed with
            | Some e =>
                on_hub (LeaveStream (Some client) "failed to start stream viewer session") ;;
                match e with
                | StreamMediaViewerLimit =>
                    queueError client id ErrorInvalidState "stream viewer limit reached"
                | _ => queueError client id ErrorInternal "failed to start stream viewer session"
                end
            | None => reply client id EventStreamWatching (DStreamWatching watching)
            end
        end
  end.

Definition leave_stream_request (client : ClientRef) (event : IncomingEvent Raw)
    : M Ws (option HandlerError) :=
  '(data, publisher) ← on_hub (LeaveStream (Some client) "stream stopped by user");
  let data := default (mkStreamStoppedData "" 0 0 "") data in
  if (ss_ChannelID data =? 0)%Z then
    reply client (ie_RequestID event) EventStreamLeft (DStreamStopped data)
  else
    reply client (ie_RequestID event)
      (if publisher : bool then EventStreamStopped else EventStreamLeft) (DStreamStopped data).

Definition handleStreamMediaInputError (client : ClientRef) (requestID : string) (e : StreamMediaError)
    : M Ws (option HandlerError) :=
  match e with
  | StreamSessionNotFound =>
      queueError client requestID ErrorInvalidState "stream WebRTC session is not active"
  | StreamTooManyICE =>
      on_hub (LeaveStream (Some client) "too many pending ICE candidates") ;;
      queueError client requestID ErrorInvalidState "too many pending ICE candidates"
  | _ => queueError client requestID ErrorInvalidPayload "invalid stream WebRTC signaling payload"
  end.

Definition acceptStreamWebRTCAnswer (client : ClientRef) (event : IncomingEvent Raw)
    : M Ws (option HandlerError) :=
  let id := ie_RequestID event in
  match de_SDP de (ie_Data event) with
  | None => queueError client id ErrorInvalidPayload "invalid stream WebRTC answer payload"
  | Some sdp =>
      if blank sdp then queueError client id ErrorInvalidPayload "invalid stream WebRTC answer payload"
      else
        k ← client_conn client;
        failed ← ask_media (fun n => sm_AcceptAnswer n k sdp);
        match failed with
        | Some e => handleStreamMediaInputError client id e
        | None => reply client id EventStreamWebRTCAnswered (DAnswered true)
        end
  end.

Definition addStreamICECandidate (client : ClientRef) (event : IncomingEvent Raw)
    : M Ws (option HandlerError) :=
  let id := ie_RequestID event in
  match de_Candidate de (ie_Data event) with
  | None => queueError client id ErrorInvalidPayload "invalid stream ICE candidate payload"
  | Some c =>
      if blank (ic_Candidate c)
      then queueError client id ErrorInvalidPayload "invalid stream ICE candidate payload"
      else
        k ← client_conn client;
        failed ← ask_media (fun n => sm_AddICECandidate n k c);
        match failed with
        | Some e => handleStreamMediaInputError client id e
        | None => mret None
        end
  end.

(** The end of the three relays: an error of the hub becomes a reply. *)
Definition relayed (client : ClientRef) (id : string) (m : M Hub (option StreamError))
    : M Ws (option HandlerError) :=
  err ← on_hub m;
  match err with
  | Some e => queueStreamStateError client id e
  | None => mret None
  end.

Definition relay_p2p_session (client : ClientRef) (event : IncomingEvent Raw)
    : M Ws (option HandlerError) :=
  let id := ie_RequestID event in
  match de_P2PSession de (ie_Data event) with
  | None => queueError client id ErrorInvalidPayload "invalid P2P stream session payload"
  | Some data =>
      if blank (sps_TargetConnectionID data) || blank (sps_SDP data)
      then queueError client id ErrorInvalidPayload "invalid P2P stream session payload"
      else relayed client id
             (RelayStreamP2PSession client (sps_TargetConnectionID data) (sps_SDP data) (ie_Type event))
  end.

Definition relay_p2p_candidate (client : ClientRef) (event : IncomingEvent Raw)
    : M Ws (option HandlerError) :=
  let id := ie_RequestID event in
  match de_P2PCandidate de (ie_Data event) with
  | None => queueError client id ErrorInvalidPayload "invalid P2P stream ICE candidate payload"
  | Some data =>
      if blank (spi_TargetConnectionID data) || blank (ic_Candidate (spi_Candidate data))
      then queueError client id ErrorInvalidPayload "invalid P2P stream ICE candidate payload"
      else relayed client id (RelayStreamP2PICECandidate client data)
  end.

Definition request_p2p_restart (client : ClientRef) (event : IncomingEvent Raw)
    : M Ws (option HandlerError) :=
  let id := ie_RequestID event in
  match de_P2PRestart de (ie_Data event) with
  | None => queueError client id ErrorInvalidPayload "invalid P2P stream restart payload"
  | Some target =>
      if blank target then queueError client id ErrorInvalidPayload "invalid P2P stream restart payload"
      else relayed client id (RequestStreamP2PRestart client target)
  end.

Definition request_recovery (client : ClientRef) (event : IncomingEvent Raw)
    : M Ws (option HandlerError) :=
  let id := ie_RequestID event in
  match de_Recovery de (ie_Data event) with
  | None => queueError client id ErrorInvalidPayload "invalid stream recovery request payload"
  | Some data =>
      if negb (positive (srr_ServerID data) (srr_ChannelID data)) ||
         negb (ValidStreamRecoveryAction (srr_Action data))
      then queueError client id ErrorInvalidPayload "invalid stream recovery request payload"
      else
        err ← gets (fun w => RequestStreamRecovery (Some client) (srr_ServerID data)
                               (srr_ChannelID data) (srr_Action data) (w_hub w));
        match err with
        | Some e => queueStreamStateError client id e
        | None =>
            k ← client_conn client;
            failed ← ask_media (fun n => sm_RequestRecovery n k (srr_Action data));
            match failed with
            | Some e => handleStreamMediaInputError client id e
            | None => mret None
            end
        end
  end.

(** ** Dispatch *)

Definition handleIncomingEvent (client : ClientRef) (event : IncomingEvent Raw)
    : M Ws (option HandlerError) :=
  let type_is t := String.eqb (ie_Type event) t in
  if type_is EventPing then reply client (ie_RequestID event) EventPong DNone
  else if type_is EventChannelSubscribe then subscribeToChannel client event
  else if type_is EventChannelUnsubscribe then unsubscribeFromChannel client event
  else if type_is EventTypingStart then typingStart client event
  else if type_is EventE2EEKey || type_is EventE2EEKeyRequest then relayE2EE client event
  else if type_is EventE2EEKeys then relayE2EEBatch client event
  else if type_is EventVoiceJoin then joinVoice client event
  else if type_is EventVoiceStateUpdate then updateVoiceState client event
  else if type_is EventVoiceLeave then leave_voice_request client event
  else if type_is EventVoiceWebRTCAnswer then acceptVoiceWebRTCAnswer client event
  else if type_is EventVoiceICECandidate then addVoiceICECandidate client event
  else if type_is EventStreamStart then startStream client event
  else if type_is EventStreamWatch then watchStream client event
  else if type_is EventStreamStop || type_is EventStreamLeave then leave_stream_request client event
  else if type_is EventStreamWebRTCAnswer then acceptStreamWebRTCAnswer client event
  else if type_is EventStreamICECandidate then addStreamICECandidate client event
  else if type_is EventStreamP2POffer || type_is EventStreamP2PAnswer then relay_p2p_session client event
  else if type_is EventStreamP2PICECandidate then relay_p2p_candidate client event
  else if type_is EventStreamP2PRestart then request_p2p_restart client event
  else if type_is EventStreamRecoveryRequest then request_recovery client event
  else queueError client (ie_RequestID event) ErrorInvalidEvent "unsupported event type".
End handlers.
