(* ===== verification/WsFacts.v ===== *)
(** * Websocket requests keep the hub coherent

    Every handler of [WsHandler] returns, without panicking, and leaves the
    hub in a state that satisfies its invariant, for any services, any JSON
    decoder and any media managers that respect the laws below: a media
    operation returns and only does to the hub what the signal sinks do. *)

From S2P Require Import Prelude GoText StreamContract Events Client ClientFacts ClientAccess.
From S2P Require Import VoiceState VoiceFacts StreamState StreamFacts.
From S2P Require Import Hub HubInv HubSpecs HubOps HubReach HubGrow MediaHub Publishers HubMedia.
From S2P Require Import HubSystem WsHandler.

(** ** What the handler asks of the media managers *)

Definition media_safe {A} (m : M Hub A) : Prop :=
  ∀ h, inv h → wp m (fun _ h' => kept h h') h.

Class VoiceMediaLaws (V : VoiceMedia) : Prop := {
  vl_Join n k u s ch m d : media_safe (vm_Join n k u s ch m d);
  vl_SetState n k m d : media_safe (vm_SetState n k m d);
  vl_AcceptAnswer n k sdp : media_safe (vm_AcceptAnswer n k sdp);
  vl_AddICECandidate n k c : media_safe (vm_AddICECandidate n k c)
}.

Class StreamMediaLaws (V : StreamMedia) : Prop := {
  sl_StartWithRenditions f n k u s ch c a rs :
    sm_StartWithRenditions = Some f → media_safe (f n k u s ch c a rs);
  sl_WatchRendition f n k u s ch r : sm_WatchRendition = Some f → media_safe (f n k u s ch r);
  sl_WatchRenditionForPublisher f n k u s ch p r :
    sm_WatchRenditionForPublisher = Some f → media_safe (f n k u s ch p r);
  sl_Start n k u s ch c a : media_safe (sm_Start n k u s ch c a);
  sl_Watch n k u s ch : media_safe (sm_Watch n k u s ch);
  sl_AcceptAnswer n k sdp : media_safe (sm_AcceptAnswer n k sdp);
  sl_AddICECandidate n k c : media_safe (sm_AddICECandidate n k c);
  sl_RequestRecovery n k a : media_safe (sm_RequestRecovery n k a)
}.

Section facts.
Context `{MapOrder} `{!VoiceMedia} `{!StreamMedia}.
Context (sv : Services) {Raw : Type} (de : Decoder Raw).

(** ** Programs that keep the hub coherent *)

(** A connection the hub has accepted, in a coherent hub. *)
Definition served (c : ClientRef) (w : Ws) : Prop := inv (w_hub w) ∧ admitted c (w_hub w).

Definition coherent_run {A} (c : ClientRef) (m : M Ws A) : Prop :=
  ∀ w, served c w → wp m (fun _ w' => sound (w_hub w) (w_hub w')) w.

Lemma served_sound c w w' : served c w → sound (w_hub w) (w_hub w') → served c w'.
Proof. intros [_ Ha] Hs. split; [apply Hs|by eapply admitted_sound]. Qed.

Lemma run_ret {A} c (a : A) : coherent_run c (mret a).
Proof. intros w [Hi _]. wp_step. by apply sound_refl. Qed.

Lemma run_bind {A B} c (m : M Ws A) (f : A → M Ws B) :
  coherent_run c m → (∀ a, coherent_run c (f a)) → coherent_run c (m ≫= f).
Proof.
  intros Hm Hf w Hw. wp_step. eapply wp_mono; [by apply Hm|]. intros a w1 Hs1. simpl.
  eapply wp_mono; [apply Hf; by eapply served_sound|]. intros b w2 Hs2. exact (sound_trans _ _ _ Hs1 Hs2).
Qed.

Lemma run_gets {A} c (f : Ws → A) : coherent_run c (gets f).
Proof. intros w [Hi _]. wp_step. by apply sound_refl. Qed.

Lemma run_get_state c : coherent_run c (get_state (S := Ws)).
Proof. intros w [Hi _]. wp_step. by apply sound_refl. Qed.

Lemma run_modify c f : (∀ w, w_hub (f w) = w_hub w) → coherent_run c (modify f).
Proof. intros Hf w [Hi _]. wp_step. rewrite Hf. by apply sound_refl. Qed.

Lemma run_ask {A} c (f : nat → A) : coherent_run c (ask f).
Proof. apply run_bind; [apply run_gets|]. intros n. apply run_bind; [by apply run_modify|]. intros _. apply run_ret. Qed.

Lemma run_on_hub {A} c (m : M Hub A) :
  (∀ h, inv h → admitted c h → wp m (fun _ h' => sound h h') h) → coherent_run c (on_hub m).
Proof.
  intros Hm w [Hi Ha]. specialize (Hm _ Hi Ha). unfold on_hub, wp in *.
  by destruct (m (w_hub w)) as [[a h]| |].
Qed.

Lemma run_kept {A} c (m : M Hub A) : media_safe m → coherent_run c (on_hub m).
Proof. intros Hm. apply run_on_hub. intros h Hi _. by apply wp_sound, Hm. Qed.

Lemma run_ask_media {A} c (f : nat → M Hub A) :
  (∀ n, media_safe (f n)) → coherent_run c (ask_media f).
Proof.
  intros Hf. apply run_bind; [apply run_gets|]. intros n. apply run_bind; [by apply run_modify|].
  intros _. by apply run_kept.
Qed.

Lemma run_queueEvent c e : oe_Type e ≠ EventChannelSyncRequired → coherent_run c (queueEvent c e).
Proof.
  intros He. apply run_bind; [|intros; apply run_ret]. apply run_kept. intros h Hi.
  eapply wp_mono; [by apply (hub_enqueue_spec ∅ ∅), well_typed_event|]. intros ok h' (Hi'&Hev&_).
  split; [done|by apply evolves_ages].
Qed.

Lemma run_queueError c id code message : coherent_run c (queueError c id code message).
Proof. by apply run_queueEvent. Qed.

Lemma run_reply c id t d : t ≠ EventChannelSyncRequired → coherent_run c (reply c id t d).
Proof. intros Ht. by apply run_queueEvent. Qed.

Lemma run_leaveVoice c : coherent_run c (on_hub (LeaveVoice (Some c))).
Proof. apply run_kept. intros h Hi. by apply LeaveVoice_kept. Qed.

Lemma run_leaveStream c reason : coherent_run c (on_hub (LeaveStream (Some c) reason)).
Proof.
  apply run_kept. intros h Hi. eapply wp_mono; [by apply LeaveStream_kept|]. by intros a h' [? _].
Qed.

Lemma run_unsubscribe c ch : coherent_run c (on_hub (Unsubscribe c ch)).
Proof. apply run_kept. intros h Hi. by apply Unsubscribe_kept. Qed.

Lemma run_stream_error c id e : coherent_run c (queueStreamStateError c id e).
Proof. destruct e; apply run_queueError. Qed.

Lemma run_relayed c id m : media_safe m → coherent_run c (relayed c id m).
Proof.
  intros Hm. apply run_bind; [by apply run_kept|]. intros [e|]; [apply run_stream_error|apply run_ret].
Qed.
End facts.

Create HintDb ws discriminated.
#[export] Hint Resolve run_ret run_gets run_get_state run_ask run_queueError run_leaveVoice
  run_leaveStream run_unsubscribe run_stream_error : ws.
#[export] Hint Extern 1 (coherent_run _ (reply _ _ _ _)) => (by apply run_reply) : ws.
#[export] Hint Extern 1 (coherent_run _ (modify _)) => (by apply run_modify) : ws.

(** One step of a handler: a leaf, a sequence or a case distinction. *)
Ltac run_step :=
  first
    [ solve [auto with ws]
    | match goal with
      | |- coherent_run _ (_ ≫= _) => apply run_bind; [|intros ?]
      | |- coherent_run _ (if ?b then _ else _) => destruct b
      | |- coherent_run _ (match ?x with _ => _ end) => destruct x
      | |- coherent_run _ (let '(_, _) := ?x in _) => destruct x
      end ].
Ltac run_steps := repeat (run_step; cbv beta iota).

Section handlers.
Context `{MapOrder} `{V : VoiceMedia} `{W : StreamMedia} `{!VoiceMediaLaws V} `{!StreamMediaLaws W}.
Context (sv : Services) {Raw : Type} (de : Decoder Raw).

Lemma run_checkChannelAccess c id data : coherent_run c (checkChannelAccess sv c id data).
Proof. unfold checkChannelAccess, client_user. run_steps. Qed.
Lemma run_checkVoiceChannelAccess c id s ch : coherent_run c (checkVoiceChannelAccess sv c id s ch).
Proof. unfold checkVoiceChannelAccess, client_user. run_steps. Qed.
Lemma run_checkVoiceEncryption c id data : coherent_run c (checkVoiceEncryption sv c id data).
Proof. unfold checkVoiceEncryption, client_user. run_steps. Qed.
Lemma run_checkStreamAccess c s ch u : coherent_run c (checkStreamAccess sv s ch u).
Proof. unfold checkStreamAccess. run_steps. Qed.
Hint Resolve run_checkChannelAccess run_checkVoiceChannelAccess run_checkVoiceEncryption
  run_checkStreamAccess : ws.

Lemma run_Subscribe c s ch : coherent_run c (on_hub (Subscribe (Some c) s ch)).
Proof. apply run_on_hub. intros h Hi _. by apply Subscribe_sound. Qed.
Lemma run_join c s ch m d dev : coherent_run c (on_hub (JoinVoiceWithDevice (Some c) s ch m d dev)).
Proof. apply run_on_hub. intros. by apply JoinVoiceWithDevice_sound. Qed.
Lemma run_update c m d v : coherent_run c (on_hub (UpdateVoiceState (Some c) m d v)).
Proof. apply run_on_hub. intros. by apply UpdateVoiceState_sound. Qed.
Lemma run_start c s ch mode codec a rs :
  coherent_run c (on_hub (StartStreamWithRenditions (Some c) s ch mode codec a rs)).
Proof. apply run_on_hub. intros. by apply StartStreamWithRenditions_sound. Qed.
Lemma run_watch c s ch rs ps ks :
  coherent_run c (on_hub (WatchStreamWithCapabilities (Some c) s ch rs ps ks)).
Proof. apply run_on_hub. intros. by apply WatchStreamWithCapabilities_sound. Qed.
Lemma run_typing c ch e x : coherent_run c (on_hub (PublishExcept ch (new_event EventTyping e) x)).
Proof. apply run_kept. intros h Hi. apply PublishExcept_kept; [done|by apply event_typed_new]. Qed.
Hint Resolve run_Subscribe run_join run_update run_start run_watch run_typing : ws.

Lemma run_relayVoice c t data :
  t ≠ EventChannelSyncRequired → coherent_run c (on_hub (RelayVoiceE2EE c t data)).
Proof. intros Ht. apply run_kept. intros h Hi. by apply RelayVoiceE2EE_kept. Qed.

Lemma run_relayBatch c ch keys :
  coherent_run c (on_hub (for_each keys (fun key =>
    RelayVoiceE2EE c EventE2EEKey (mkE2EERelayData ch (ek_UserID key) (ek_DeviceID key) 0 "" ""
      (ek_Payload key)) ;; mret tt))).
Proof.
  apply run_kept. intros h Hi. induction keys as [|key keys IH] in h, Hi |- *; cbn [for_each].
  { wp_step. by apply kept_refl. }
  apply wp_kept; [apply wp_kept|].
  - by apply RelayVoiceE2EE_kept.
  - intros b h1 Hk. wp_step. apply kept_refl, Hk.
  - intros [] h1 Hk. apply IH, Hk.
Qed.
Hint Resolve run_relayBatch : ws.

Lemma run_voice_media_error c id e : coherent_run c (handleVoiceMediaInputError c id e).
Proof. unfold handleVoiceMediaInputError. run_steps. Qed.
Lemma run_stream_media_error c id e : coherent_run c (handleStreamMediaInputError c id e).
Proof. unfold handleStreamMediaInputError. run_steps. Qed.
Hint Resolve run_voice_media_error run_stream_media_error : ws.

Lemma run_voice_call {A} c (f : nat → M Hub A) : (∀ n, media_safe (f n)) → coherent_run c (ask_media f).
Proof. apply run_ask_media. Qed.
Hint Extern 1 (coherent_run _ (ask_media (fun n => vm_Join _ _ _ _ _ _ _))) =>
  (apply run_ask_media; intros; apply vl_Join) : ws.
Hint Extern 1 (coherent_run _ (ask_media (fun n => vm_SetState _ _ _ _))) =>
  (apply run_ask_media; intros; apply vl_SetState) : ws.
Hint Extern 1 (coherent_run _ (ask_media (fun n => vm_AcceptAnswer _ _ _))) =>
  (apply run_ask_media; intros; apply vl_AcceptAnswer) : ws.
Hint Extern 1 (coherent_run _ (ask_media (fun n => vm_AddICECandidate _ _ _))) =>
  (apply run_ask_media; intros; apply vl_AddICECandidate) : ws.
Hint Extern 1 (coherent_run _ (ask_media (fun n => sm_AcceptAnswer _ _ _))) =>
  (apply run_ask_media; intros; apply sl_AcceptAnswer) : ws.
Hint Extern 1 (coherent_run _ (ask_media (fun n => sm_AddICECandidate _ _ _))) =>
  (apply run_ask_media; intros; apply sl_AddICECandidate) : ws.
Hint Extern 1 (coherent_run _ (ask_media (fun n => sm_RequestRecovery _ _ _))) =>
  (apply run_ask_media; intros; apply sl_RequestRecovery) : ws.

Lemma media_safe_ret {A} (a : A) : media_safe (mret a).
Proof. intros h Hi. wp_step. by apply kept_refl. Qed.

Lemma startStreamMedia_safe n k u s ch codec a rs : media_safe (startStreamMedia n k u s ch codec a rs).
Proof.
  unfold startStreamMedia. destruct sm_StartWithRenditions eqn:E; [by eapply sl_StartWithRenditions|].
  destruct rs as [|r [|]]; try apply media_safe_ret. case_match; [apply sl_Start|apply media_safe_ret].
Qed.

Lemma watchStreamMedia_safe n k u s ch r p : media_safe (watchStreamMedia n k u s ch r p).
Proof.
  unfold watchStreamMedia.
  destruct sm_WatchRenditionForPublisher eqn:E; [by eapply sl_WatchRenditionForPublisher|].
  destruct sm_WatchRendition eqn:E'; [by eapply sl_WatchRendition|].
  case_match; [apply sl_Watch|apply media_safe_ret].
Qed.

Lemma run_startMedia c k u s ch codec a rs :
  coherent_run c (ask_media (fun n => startStreamMedia n k u s ch codec a rs)).
Proof. apply run_ask_media. intros n. apply startStreamMedia_safe. Qed.
Lemma run_watchMedia c k u s ch r p :
  coherent_run c (ask_media (fun n => watchStreamMedia n k u s ch r p)).
Proof. apply run_ask_media. intros n. apply watchStreamMedia_safe. Qed.
Hint Resolve run_startMedia run_watchMedia : ws.

(** ** The handlers *)

Lemma run_subscribeToChannel c e : coherent_run c (subscribeToChannel sv de c e).
Proof.
  unfold subscribeToChannel, client_user. run_steps. by apply run_queueEvent.
Qed.

Lemma run_unsubscribeFromChannel c e : coherent_run c (unsubscribeFromChannel de c e).
Proof. unfold unsubscribeFromChannel. run_steps. Qed.

Lemma run_typingStart c e : coherent_run c (typingStart de c e).
Proof. unfold typingStart. run_steps. Qed.

Lemma run_relayE2EE c e :
  ie_Type e ≠ EventChannelSyncRequired → coherent_run c (relayE2EE de c e).
Proof.
  intros Ht. unfold relayE2EE. destruct (de_Relay _ _); run_steps; by apply run_relayVoice.
Qed.

Lemma run_relayE2EEBatch c e : coherent_run c (relayE2EEBatch de c e).
Proof. unfold relayE2EEBatch. run_steps. Qed.

Lemma run_join_checked c id data required : coherent_run c (join_checked c id data required).
Proof. unfold join_checked, client_user, client_conn. run_steps. Qed.
Hint Resolve run_join_checked : ws.

Lemma run_joinVoice c e : coherent_run c (joinVoice sv de c e).
Proof. unfold joinVoice. run_steps. Qed.

Lemma run_updateVoiceState c e : coherent_run c (updateVoiceState de c e).
Proof. unfold updateVoiceState, client_conn. run_steps. Qed.

Lemma run_leave_voice_request c (e : IncomingEvent Raw) : coherent_run c (leave_voice_request c e).
Proof. unfold leave_voice_request. run_steps. Qed.

Lemma run_voice_answer c e : coherent_run c (acceptVoiceWebRTCAnswer de c e).
Proof. unfold acceptVoiceWebRTCAnswer, client_conn. run_steps. Qed.

Lemma run_voice_candidate c e : coherent_run c (addVoiceICECandidate de c e).
Proof. unfold addVoiceICECandidate, client_conn. run_steps. Qed.

Lemma run_startStream c e : coherent_run c (startStream sv de c e).
Proof. unfold startStream, client_user, client_conn. run_steps. Qed.

Lemma run_watchStream c e : coherent_run c (watchStream de c e).
Proof. unfold watchStream, client_user, client_conn. run_steps. Qed.

Lemma run_leave_stream_request c (e : IncomingEvent Raw) : coherent_run c (leave_stream_request c e).
Proof. unfold leave_stream_request. run_steps. apply run_reply. by case_match. Qed.

Lemma run_stream_answer c e : coherent_run c (acceptStreamWebRTCAnswer de c e).
Proof. unfold acceptStreamWebRTCAnswer, client_conn. run_steps. Qed.

Lemma run_stream_candidate c e : coherent_run c (addStreamICECandidate de c e).
Proof. unfold addStreamICECandidate, client_conn. run_steps. Qed.

Lemma run_p2p_session c e :
  ie_Type e ≠ EventChannelSyncRequired → coherent_run c (relay_p2p_session de c e).
Proof.
  intros Ht. unfold relay_p2p_session. run_steps. apply run_relayed. intros h Hi.
  by apply RelayStreamP2PSession_kept.
Qed.

Lemma run_p2p_candidate c e : coherent_run c (relay_p2p_candidate de c e).
Proof.
  unfold relay_p2p_candidate. run_steps. apply run_relayed. intros h Hi.
  by apply RelayStreamP2PICECandidate_kept.
Qed.

Lemma run_p2p_restart c e : coherent_run c (request_p2p_restart de c e).
Proof.
  unfold request_p2p_restart. run_steps. apply run_relayed. intros h Hi.
  by apply RequestStreamP2PRestart_kept.
Qed.

Lemma run_request_recovery c e : coherent_run c (request_recovery de c e).
Proof. unfold request_recovery, client_conn. run_steps. Qed.
Hint Resolve run_subscribeToChannel run_unsubscribeFromChannel run_typingStart run_relayE2EEBatch
  run_joinVoice run_updateVoiceState run_leave_voice_request run_voice_answer run_voice_candidate
  run_startStream run_watchStream run_leave_stream_request run_stream_answer run_stream_candidate
  run_p2p_candidate run_p2p_restart run_request_recovery : ws.

Lemma run_handleIncomingEvent c e : coherent_run c (handleIncomingEvent sv de c e).
Proof.
  unfold handleIncomingEvent. cbv zeta beta.
  assert (∀ (b : bool) (m m' : M Ws (option HandlerError)),
    (b = true → coherent_run c m) → coherent_run c m' → coherent_run c (if b then m else m')) as Hif.
  { by intros [] m m' Hm Hm'; [apply Hm|]. }
  repeat (apply Hif; [intros Ht|]); auto with ws;
    [apply run_relayE2EE|apply run_p2p_session]; intros E; rewrite E in Ht; discriminate Ht.
Qed.
End handlers.
