(* ===== verification/WsProps.v ===== *)
(** * What the websocket endpoint guarantees

    Properties of the request handlers of [WsHandler]: every request of an
    accepted connection is handled to the end and keeps the hub coherent; a
    connection enters a voice channel, or subscribes to a text channel, only
    after the checks of the handler; the typing limiter. *)

From S2P Require Import Prelude GoText StreamContract Events Client ClientFacts ClientAccess.
From S2P Require Import VoiceState VoiceFacts StreamState StreamFacts.
From S2P Require Import Hub HubInv HubSpecs HubOps HubReach HubGrow MediaHub Publishers HubMedia.
From S2P Require Import HubSystem HubProps WsHandler WsFacts.

Section facts.
Context `{MapOrder} `{V : VoiceMedia} `{W : StreamMedia} `{!VoiceMediaLaws V} `{!StreamMediaLaws W}.
Context (sv : Services) {Raw : Type} (de : Decoder Raw).

(** ** Steps that leave voice and subscriptions alone *)

Notation voice_of c w := (vs_byClient (h_voice (w_hub w)) !! c).

(** The hub keeps its shape: queues may change, nothing else. *)
Definition quiet (w w' : Ws) : Prop :=
  inv (w_hub w') ∧ same_shape (w_hub w) (w_hub w').

Lemma quiet_refl w : inv (w_hub w) → quiet w w.
Proof. intros Hi. split; [done|]. by split. Qed.

Lemma quiet_trans w1 w2 w3 : quiet w1 w2 → quiet w2 w3 → quiet w1 w3.
Proof. intros [_ H1] [? H2]. split; [done|by eapply same_shape_trans]. Qed.

Lemma quiet_voice w w' c : quiet w w' → voice_of c w' = voice_of c w.
Proof. intros [_ Hs]. by rewrite (ss_voice _ _ Hs). Qed.

Lemma quiet_subs w w' c : quiet w w' → subs_of c (w_hub w') = subs_of c (w_hub w).
Proof. intros [_ Hs]. apply (sl_subs _ _ (ss_links _ _ Hs c)). Qed.

Lemma quiet_user w w' c :
  quiet w w' → cl_userID (client_at c (w_hub w')) = cl_userID (client_at c (w_hub w)).
Proof. intros [_ Hs]. apply (sl_user _ _ (ss_links _ _ Hs c)). Qed.

Lemma quiet_served w w' c : quiet w w' → served c w → served c w'.
Proof.
  intros [Hi Hs] Hw. eapply served_sound; [done|]. apply kept_sound. split; [done|by apply same_shape_ages].
Qed.

Lemma queueEvent_quiet c e w :
  inv (w_hub w) → oe_Type e ≠ EventChannelSyncRequired →
  wp (queueEvent c e) (fun _ w' => quiet w w' ∧ w_calls w' = w_calls w) w.
Proof.
  intros Hi He. unfold queueEvent. wp_step.
  pose proof (hub_enqueue_spec ∅ ∅ c e (w_hub w) Hi (well_typed_event _ He)) as Hq.
  unfold on_hub, wp in *. destruct (hub_enqueue c e (w_hub w)) as [[ok h]| |]; [|done..].
  destruct Hq as (Hi'&_&Hs). done.
Qed.

Lemma queueError_quiet c id code message w :
  inv (w_hub w) → wp (queueError c id code message) (fun _ w' => quiet w w' ∧ w_calls w' = w_calls w) w.
Proof. intros Hi. by apply queueEvent_quiet. Qed.

Lemma ask_quiet {A} (f : nat → A) w :
  inv (w_hub w) →
  wp (ask f) (fun a w' => a = f (w_calls w) ∧ quiet w w' ∧ w_calls w' = S (w_calls w)) w.
Proof. intros Hi. unfold ask. wp_step. wp_step. wp_step. wp_step. by wp_step. Qed.

(** A refusal: an error reply and nothing else. *)
Lemma refuse {A} c id code message (k : option HandlerError → A) (Q : A → Ws → Prop) w :
  inv (w_hub w) → (∀ e w', quiet w w' → Q (k e) w') →
  wp (e ← queueError c id code message; mret (k e)) Q w.
Proof.
  intros Hi HQ. wp_step. eapply wp_mono; [by apply queueError_quiet|]. intros e w' [Hq _].
  wp_step. by apply HQ.
Qed.

Lemma checkVoiceChannelAccess_spec c id s ch w :
  inv (w_hub w) →
  wp (checkVoiceChannelAccess sv c id s ch) (fun r w' => quiet w w' ∧
    (r.1 = true → sv_CheckVoiceAccess sv (w_calls w) s ch (cl_userID (client_at c (w_hub w))) = None ∧
       w_calls w < w_calls w')) w.
Proof.
  intros Hi. unfold checkVoiceChannelAccess, client_user. wp_step. wp_step. wp_step.
  eapply wp_mono; [by apply ask_quiet|]. intros err w1 (->&Hq&Hn).
  destruct (sv_CheckVoiceAccess _ _ _ _ _) as [[]|] eqn:E;
    try (apply refuse; [apply Hq|]; intros e w2 Hq2; split; [exact (quiet_trans _ _ _ Hq Hq2)|done]).
  wp_step. split; [done|]. intros _. split; [done|lia].
Qed.

(** The encryption policy lets the connection in with the device it names. *)
Definition encryption_admits (u : Z) (data : VoiceJoinData) (required : bool) : Prop :=
  match sv_encryption sv with
  | None => required = false ∧ vjd_E2EEDeviceID data = ""
  | Some enc => ∃ n, enc_ChannelRequired enc n (vjd_ChannelID data) = Some required ∧
      if required then vjd_E2EEDeviceID data ≠ "" ∧
        ∃ n', enc_DeviceActive enc n' u (vjd_E2EEDeviceID data) = Some true
      else vjd_E2EEDeviceID data = ""
  end.

Lemma checkVoiceEncryption_spec c id data w :
  inv (w_hub w) →
  wp (checkVoiceEncryption sv c id data) (fun r w' => quiet w w' ∧
    (r.1.2 = true → encryption_admits (cl_userID (client_at c (w_hub w))) data r.1.1 ∧
       w_calls w <= w_calls w')) w.
Proof.
  intros Hi. unfold checkVoiceEncryption, encryption_admits, client_user.
  destruct (sv_encryption sv) as [enc|].
  - wp_step. eapply wp_mono; [by apply ask_quiet|]. intros r w1 (->&Hq&Hn).
    assert (∀ w2, quiet w1 w2 → quiet w w2) as Htr by (intros; by eapply quiet_trans).
    destruct (enc_ChannelRequired enc (w_calls w) _) as [[]|] eqn:Er; [| |apply refuse; [apply Hq|]; intros; split; [by apply Htr|done]].
    + destruct (String.eqb_spec (vjd_E2EEDeviceID data) "") as [Ed|Ed]; [apply refuse; [apply Hq|]; intros; split; [by apply Htr|done]|].
      wp_step. wp_step. wp_step. eapply wp_mono; [apply ask_quiet, Hq|]. intros a w2 (->&Hq2&Hn2).
      assert (quiet w w2) as Hqq by auto.
      destruct (enc_DeviceActive _ _ _ _) as [[]|] eqn:Ea;
        try (apply refuse; [apply Hqq|]; intros e w3 Hq3; split; [exact (quiet_trans _ _ _ Hqq Hq3)|done]).
      wp_step. split; [done|]. intros _. split; [|lia]. exists (w_calls w). split; [done|].
      split; [done|]. exists (w_calls w1). rewrite (quiet_user _ _ c Hq) in Ea. done.
    + destruct (String.eqb_spec (vjd_E2EEDeviceID data) "") as [Ed|Ed]; [|apply refuse; [apply Hq|]; intros; split; [by apply Htr|done]].
      wp_step. split; [done|]. intros _. split; [eauto|lia].
  - destruct (String.eqb_spec (vjd_E2EEDeviceID data) "") as [Ed|Ed].
    + wp_step. split; [by apply quiet_refl|]. intros _. done.
    + apply refuse; [done|]. intros e w1 Hq. done.
Qed.

(** ** Joining a voice channel *)

(** [c] is out of voice, or in the channel it asked for with its device. *)
Definition in_or_out (c : ClientRef) (u : Z) (data : VoiceJoinData) (h : Hub) : Prop :=
  vs_byClient (h_voice h) !! c = None ∨
  ∃ p, vs_byClient (h_voice h) !! c = Some p ∧ vp_UserID p = u ∧ vp_ServerID p = vjd_ServerID data ∧
    vp_ChannelID p = vjd_ChannelID data ∧ vp_E2EEDeviceID p = vjd_E2EEDeviceID data.

Lemma in_or_out_kept c u data h h' : kept h h' → in_or_out c u data h → in_or_out c u data h'.
Proof.
  intros [_ Ha] Hin. destruct (ag_voice _ _ Ha c) as [E|E]; [by left|]. unfold in_or_out. by rewrite E.
Qed.

Lemma voice_join_fields ident c srv ch m d dev s :
  voice_inv ident s →
  wp (voice_join c (ident c) srv ch m d dev) (fun r s' =>
    vs_byClient s' !! c = Some (jr_participant r) ∧ vp_UserID (jr_participant r) = id_UserID (ident c) ∧
    vp_ServerID (jr_participant r) = srv ∧ vp_ChannelID (jr_participant r) = ch ∧
    vp_E2EEDeviceID (jr_participant r) = dev) s.
Proof.
  intros Hi. destruct (vs_byClient s !! c) as [p0|] eqn:Hp;
    [destruct (decide (same_place p0 srv ch dev)) as [Hs|Hs]|].
  - eapply wp_mono; [by eapply voice_join_in_place|]. intros r s' ([_ Hself _ _]&E&_). by rewrite E in *.
  - eapply wp_mono; [eapply voice_join_move; naive_solver|]. intros r s' ([_ Hself _ _]&E&_). by rewrite E in *.
  - eapply wp_mono; [eapply voice_join_move; naive_solver|]. intros r s' ([_ Hself _ _]&E&_). by rewrite E in *.
Qed.

Lemma JoinVoice_entry c data u h :
  inv h → admitted c h → u = cl_userID (client_at c h) →
  wp (JoinVoiceWithDevice (Some c) (vjd_ServerID data) (vjd_ChannelID data) (vjd_SelfMute data)
        (vjd_SelfDeaf data) (vjd_E2EEDeviceID data))
    (fun r h' => match r with None => h' = h | Some _ => in_or_out c u data h' end) h.
Proof.
  intros Hi Ha Hu. unfold JoinVoiceWithDevice. wp_step. wp_step.
  destruct (join_allowed _ _ _ _ h); simpl; [|by wp_step].
  wp_step. wp_step. wp_step. eapply (wp_mono _ (fun _ h' => kept h h')).
  { destruct (voice_current c (h_voice h)) as [p|]; [|wp_step; by apply kept_refl].
    wp_step; [|by apply kept_refl]. wp_step. eapply wp_mono; [by apply leaveStream_kept|].
    intros r h1 [? _]. by wp_step. }
  intros [] h1 Hk1. wp_step. wp_step. wp_step.
  assert (u = id_UserID (client_ident h1 c)) as Hu1.
  { rewrite (ag_ident _ _ (proj2 Hk1)). exact Hu. }
  pose proof (join_spec c (client_ident h1 c) (vjd_ServerID data) (vjd_ChannelID data)
    (vjd_SelfMute data) (vjd_SelfDeaf data) (vjd_E2EEDeviceID data) h1 (proj1 Hk1)
    (admitted_sound _ _ _ (kept_sound _ _ Hk1) Ha) eq_refl) as Hj.
  pose proof (voice_join_fields (client_ident h1) c (vjd_ServerID data) (vjd_ChannelID data)
    (vjd_SelfMute data) (vjd_SelfDeaf data) (vjd_E2EEDeviceID data) _ (hi_voice _ _ _ (proj1 Hk1))) as Hf.
  eapply (wp_mono _ (fun _ h2 => inv h2 ∧ in_or_out c u data h2)).
  { unfold on_voice, wp in *. destruct (voice_join _ _ _ _ _ _ _ _) as [[r v]| |]; [|done..].
    destruct Hj as [Hso _]. split; [apply Hso|]. right. exists (jr_participant r). rewrite Hu1. tauto. }
  intros r h2 [Hi2 Hin2].
  assert (∀ h3, kept h2 h3 → inv h3 ∧ in_or_out c u data h3) as Hstep.
  { intros h3 Hk. split; [apply Hk|by eapply in_or_out_kept]. }
  wp_step. eapply (wp_mono _ (fun _ h3 => kept h2 h3)).
  { destruct (jr_previous r); [by apply publishVoiceLeft_kept|wp_step; by apply kept_refl]. }
  intros [] h3 Hk3. wp_step. eapply wp_mono; [apply replaced_kept, Hk3|].
  intros [] h4 Hk4. wp_step. eapply wp_mono; [apply announce_join_kept, Hk4|].
  intros [] h5 Hk5. wp_step. apply Hstep. exact (kept_trans _ _ _ Hk3 (kept_trans _ _ _ Hk4 Hk5)).
Qed.

(** A run of [m] from [w] ends with the voice entry of [c] unchanged, gone, or
    the one it asked for while [P] holds. *)
Definition enters (c : ClientRef) (data : VoiceJoinData) (P : Prop) (w w' : Ws) : Prop :=
  voice_of c w' = voice_of c w ∨
  P ∧ in_or_out c (cl_userID (client_at c (w_hub w))) data (w_hub w').

Lemma on_hub_wp {A} (m : M Hub A) (Q : A → Hub → Prop) w :
  wp m Q (w_hub w) → wp (on_hub m) (fun a w' => Q a (w_hub w') ∧ w_calls w' = w_calls w) w.
Proof. intros Hm. unfold on_hub, wp in *. by destruct (m (w_hub w)) as [[a h]| |]. Qed.

Lemma queue_in_or_out c id t d u data w :
  inv (w_hub w) → t ≠ EventChannelSyncRequired → in_or_out c u data (w_hub w) →
  wp (reply c id t d) (fun _ w' => inv (w_hub w') ∧ in_or_out c u data (w_hub w') ∧ quiet w w') w.
Proof.
  intros Hi Ht Hin. eapply wp_mono; [by apply queueEvent_quiet|]. intros e w' [Hq _].
  split_and!; [apply Hq| |done]. unfold in_or_out. by rewrite (quiet_voice _ _ c Hq).
Qed.

Lemma join_checked_spec c id data required w :
  served c w → wp (join_checked c id data required) (fun _ w' => enters c data True w w') w.
Proof.
  intros [Hi Ha]. unfold join_checked. set (u := cl_userID (client_at c (w_hub w))). wp_step.
  pose proof (wp_and _ _ _ _ (JoinVoice_entry c data u _ Hi Ha eq_refl)
    (JoinVoiceWithDevice_sound c (vjd_ServerID data) (vjd_ChannelID data) (vjd_SelfMute data)
      (vjd_SelfDeaf data) (vjd_E2EEDeviceID data) _ Hi Ha)) as Hj.
  apply on_hub_wp in Hj. eapply wp_mono; [exact Hj|]. intros [joined|] w1 [[Hin Hso] _]; simpl in Hin.
  - wp_step. eapply wp_mono; [apply (queue_in_or_out _ _ _ _ u data); [apply Hso|done|done]|].
    intros [e|] w2 (Hi2&Hin2&_); [wp_step; by right|].
    unfold client_user, client_conn. wp_step. wp_step. wp_step. wp_step. wp_step.
    unfold ask_media. eapply (wp_mono _ (fun _ w3 => inv (w_hub w3) ∧ in_or_out c u data (w_hub w3))).
    { wp_step. wp_step. wp_step. wp_step.
      eapply wp_mono; [apply (on_hub_wp _ (fun _ h' => kept (w_hub w2) h')); by apply vl_Join|].
      intros a w3 [Hk _]. split; [apply Hk|by eapply in_or_out_kept]. }
    intros [e|] w3 [Hi3 Hin3]; [|wp_step; by right]. wp_step.
    eapply wp_mono; [apply (on_hub_wp _ (fun _ h' => kept (w_hub w3) h')), LeaveVoice_kept, Hi3|].
    intros a w4 [Hk4 _].
    assert (in_or_out c u data (w_hub w4)) as Hin4 by (by eapply in_or_out_kept).
    destruct e; (eapply wp_mono; [apply (queue_in_or_out _ _ _ _ u data); [apply Hk4|done|done]|]);
      intros e w5 (_&Hin5&_); by right.
  - eapply wp_mono; [apply queueError_quiet; rewrite Hin; done|]. intros e w2 [Hq _]. left.
    by rewrite (quiet_voice _ _ c Hq), Hin.
Qed.

(** The checks a connection passes before it enters a voice channel. *)
Definition voice_checks (u : Z) (data : VoiceJoinData) : Prop :=
  (0 < vjd_ServerID data)%Z ∧ (0 < vjd_ChannelID data)%Z ∧
  (∃ n n', n < n' ∧ sv_CheckVoiceAccess sv n (vjd_ServerID data) (vjd_ChannelID data) u = None ∧
     sv_CheckVoiceAccess sv n' (vjd_ServerID data) (vjd_ChannelID data) u = None) ∧
  ∃ required, encryption_admits u data required.

Lemma quiet_enters c data P w w' : quiet w w' → enters c data P w w'.
Proof. intros Hq. left. by apply quiet_voice. Qed.

Lemma joinVoice_enters c e data w :
  served c w → de_VoiceJoin de (ie_Data e) = Some data →
  wp (joinVoice sv de c e) (fun _ w' =>
    enters c data (voice_checks (cl_userID (client_at c (w_hub w))) data) w w') w.
Proof.
  intros Hw Hd. unfold joinVoice. rewrite Hd. unfold positive.
  destruct ((_ <=? 0)%Z || (_ <=? 0)%Z) eqn:Hpos; cbn [negb].
  { eapply wp_mono; [apply queueError_quiet, Hw|]. intros ? w1 [Hq _]. by apply quiet_enters. }
  apply orb_false_iff in Hpos as [Hs%Z.leb_gt Hch%Z.leb_gt].
  wp_step. eapply wp_mono; [apply checkVoiceChannelAccess_spec, Hw|].
  intros [[] err] w1 [Hq1 Hc1]; simpl in Hc1; cbn [negb]; [|wp_step; by apply quiet_enters].
  destruct (Hc1 eq_refl) as [Hc1' Hn1]. wp_step.
  eapply wp_mono; [apply checkVoiceEncryption_spec, Hq1|].
  intros [[required []] err2] w2 [Hq2 Hc2]; simpl in Hc2; cbn [negb];
    [|wp_step; by apply quiet_enters, (quiet_trans _ _ _ Hq1)].
  destruct (Hc2 eq_refl) as [He Hn2]. wp_step.
  eapply wp_mono; [apply checkVoiceChannelAccess_spec, Hq2|].
  intros [[] err3] w3 [Hq3 Hc3]; simpl in Hc3; cbn [negb];
    pose proof (quiet_trans _ _ _ Hq1 (quiet_trans _ _ _ Hq2 Hq3)) as Hq; [|wp_step; by apply quiet_enters].
  destruct (Hc3 eq_refl) as [Hc3' _].
  assert (cl_userID (client_at c (w_hub w3)) = cl_userID (client_at c (w_hub w))) as Hu3 by (by apply quiet_user).
  rewrite (quiet_user _ _ c Hq1) in He. rewrite (quiet_user _ _ c Hq2), (quiet_user _ _ c Hq1) in Hc3'.
  eapply wp_mono; [apply join_checked_spec; by eapply quiet_served|].
  intros r w4 [Hv|[_ Hin]]; [left; by rewrite Hv, (quiet_voice _ _ c Hq)|right].
  rewrite Hu3 in Hin. split; [|done]. split_and!; [done|done| |eauto].
  exists (w_calls w), (w_calls w2). split; [lia|done].
Qed.

(** ** Subscribing *)

Lemma checkChannelAccess_spec c id data w :
  inv (w_hub w) →
  wp (checkChannelAccess sv c id data) (fun r w' => quiet w w' ∧
    (r.1 = true → sv_CheckAccess sv (w_calls w) (cs_ServerID data) (cs_ChannelID data)
                    (cl_userID (client_at c (w_hub w))) = None ∧ w_calls w < w_calls w')) w.
Proof.
  intros Hi. unfold checkChannelAccess, client_user. wp_step. wp_step. wp_step.
  eapply wp_mono; [by apply ask_quiet|]. intros err w1 (->&Hq&Hn).
  destruct (sv_CheckAccess _ _ _ _ _) as [[]|] eqn:E;
    try (apply refuse; [apply Hq|]; intros e w2 Hq2; split; [exact (quiet_trans _ _ _ Hq Hq2)|done]).
  wp_step. split; [done|]. intros _. split; [done|lia].
Qed.

(** Nobody's subscriptions change, except that [c] may have [ch]. *)
Definition subscribes (c : ClientRef) (s ch : Z) (h h' : Hub) : Prop :=
  ∀ c' ch', subs_of c' h' !! ch' = subs_of c' h !! ch' ∨
    (c' = c ∧ ch' = ch ∧ subs_of c' h' !! ch' = Some s).

Lemma Subscribe_subs c s ch h : wp (Subscribe (Some c) s ch) (fun _ h' => subscribes c s ch h h') h.
Proof.
  assert (subscribes c s ch h h) as Hr by (by left).
  unfold Subscribe. wp_step. wp_step. wp_step; [by wp_step|]. wp_step; [by wp_step|]. wp_step; [by wp_step|].
  wp_step. eapply (wp_mono _ (fun _ h' => h_mem h' = h_mem h)).
  { unfold getOrCreateRoom. wp_step. wp_step. wp_step; [by wp_step|]. wp_step. wp_step. by wp_step. }
  intros r h1 Hm1. destruct (room_add c r) as [added r']. wp_step. wp_step.
  assert (∀ c', client_at c' (h1 <| h_rooms ::= <[ch := r']> |>) = client_at c' h) as Hc.
  { intros c'. unfold client_at. simpl. by rewrite Hm1. }
  set (h2 := h1 <| h_rooms ::= <[ch := r']> |>) in *. clearbody h2.
  destruct added; cbn [negb].
  - wp_step. unfold update_client, on_client, wp. simpl. intros c' ch'. unfold subs_of.
    set (h3 := h2 <| h_mem ::= _ |>).
    assert (client_at c' h3 = if decide (c' = c) then addSubscription s ch (client_at c h) else client_at c' h) as ->.
    { rewrite <- !Hc. apply client_at_insert. }
    destruct (decide (c' = c)) as [->|]; [|by left]. unfold addSubscription. simpl. rewrite lookup_insert.
    destruct (decide (ch = ch')) as [<-|]; [by right|by left].
  - wp_step. intros c' ch'. left. unfold subs_of. by rewrite Hc.
Qed.

Definition subscription_checks (u : Z) (data : ChannelSubscriptionData) : Prop :=
  (∃ n n', n < n' ∧ sv_CheckAccess sv n (cs_ServerID data) (cs_ChannelID data) u = None ∧
     sv_CheckAccess sv n' (cs_ServerID data) (cs_ChannelID data) u = None) ∧
  ∃ n, match sv_ListByChannelID sv n (cs_ServerID data) (cs_ChannelID data) u with
       | inl _ | inr ReadTextRequired => True
       | _ => False
       end.

(** Every subscription was there before, or is the requested one of [c] and
    passed the checks. *)
Definition subscribed_ok (c : ClientRef) (data : ChannelSubscriptionData) (P : Prop) (w w' : Ws) : Prop :=
  ∀ c' ch' s', subs_of c' (w_hub w') !! ch' = Some s' →
    subs_of c' (w_hub w) !! ch' = Some s' ∨
    (P ∧ c' = c ∧ ch' = cs_ChannelID data ∧ s' = cs_ServerID data).

Lemma quiet_subscribed c data P w w' : quiet w w' → subscribed_ok c data P w w'.
Proof. intros Hq c' ch' s' Hs. left. by rewrite <- (quiet_subs _ _ c' Hq). Qed.

Lemma dropped_subscribed c data P w w1 w2 :
  subscribes c (cs_ServerID data) (cs_ChannelID data) (w_hub w) (w_hub w1) →
  inv (w_hub w2) → (0 < cs_ChannelID data)%Z → quiet w1 w2 →
  wp (on_hub (Unsubscribe c (cs_ChannelID data))) (fun _ w3 =>
    inv (w_hub w3) ∧ subscribed_ok c data P w w3) w2.
Proof.
  intros Hsub Hi Hch Hq. eapply wp_mono.
  { apply (on_hub_wp _ _ _ (Unsubscribe_spec ∅ ∅ c (cs_ChannelID data) _ Hi Hch)). }
  intros a w3 [(Hi3&_&_&Hs3&_) _]. split; [done|]. intros c' ch' s' Hs. left.
  assert (subs_of c' (w_hub w1) !! ch' = Some s' ∧ (c' = c → ch' ≠ cs_ChannelID data)) as [Hs1 Hne].
  { rewrite Hs3 in Hs. case_decide; [subst c'; apply lookup_delete_Some in Hs as [? Hs]|];
      rewrite (quiet_subs _ _ _ Hq) in Hs; naive_solver. }
  destruct (Hsub c' ch') as [E|(->&->&_)]; [by rewrite <- E|by destruct Hne].
Qed.

Lemma queue_subscribed c data P w w1 e :
  inv (w_hub w1) → oe_Type e ≠ EventChannelSyncRequired → subscribed_ok c data P w w1 →
  wp (queueEvent c e) (fun _ w2 => inv (w_hub w2) ∧ subscribed_ok c data P w w2) w1.
Proof.
  intros Hi He Hs. eapply wp_mono; [by apply queueEvent_quiet|]. intros r w2 [Hq _].
  split; [apply Hq|]. intros c' ch' s'. rewrite (quiet_subs _ _ c' Hq). apply Hs.
Qed.

Lemma subscribe_checked c e data w :
  served c w → de_Subscription de (ie_Data e) = Some data →
  wp (subscribeToChannel sv de c e) (fun _ w' =>
    subscribed_ok c data (subscription_checks (cl_userID (client_at c (w_hub w))) data) w w') w.
Proof.
  intros Hw Hd. unfold subscribeToChannel. rewrite Hd. unfold positive.
  set (u := cl_userID (client_at c (w_hub w))). set (P := subscription_checks u data).
  destruct ((_ <=? 0)%Z || (_ <=? 0)%Z) eqn:Hpos; cbn [negb].
  { eapply wp_mono; [apply queueError_quiet, Hw|]. intros ? w1 [Hq _]. by apply quiet_subscribed. }
  apply orb_false_iff in Hpos as [_ Hch%Z.leb_gt].
  wp_step. eapply wp_mono; [apply checkChannelAccess_spec, Hw|].
  intros [[] err] w1 [Hq1 Hc1]; simpl in Hc1; cbn [negb]; [|wp_step; by apply quiet_subscribed].
  destruct (Hc1 eq_refl) as [Hc1' Hn1]. wp_step.
  pose proof (wp_and _ _ _ _ (Subscribe_subs c (cs_ServerID data) (cs_ChannelID data) (w_hub w1))
    (Subscribe_sound (Some c) (cs_ServerID data) (cs_ChannelID data) (w_hub w1) (proj1 Hq1))) as Hsub.
  apply on_hub_wp in Hsub. eapply wp_mono; [exact Hsub|]. intros _ w2 [[Hsub2 Hso2] Hcalls2].
  assert (subscribes c (cs_ServerID data) (cs_ChannelID data) (w_hub w) (w_hub w2)) as Hsub'.
  { intros c' ch'. rewrite <- (quiet_subs _ _ c' Hq1). apply Hsub2. }
  assert (cl_userID (client_at c (w_hub w2)) = u) as Hu2.
  { rewrite <- (quiet_user _ _ c Hq1 : _ = u). pose proof (so_ident _ _ Hso2 c) as [= Hu _]. exact Hu. }
  wp_step. eapply wp_mono; [apply checkChannelAccess_spec, Hso2|].
  intros [[] err2] w3 [Hq3 Hc3]; simpl in Hc3; cbn [negb].
  2: { wp_step. eapply wp_mono; [eapply dropped_subscribed; [done|apply Hq3|done|done]|].
       intros _ w4 [_ Hs]. by wp_step. }
  destruct (Hc3 eq_refl) as [Hc3' Hn3]. rewrite Hu2 in Hc3'. unfold client_user. wp_step. wp_step. wp_step.
  rewrite (quiet_user _ _ c Hq3), Hu2.
  eapply wp_mono; [apply ask_quiet, Hq3|]. intros r w4 (->&Hq4&_).
  assert (quiet w2 w4) as Hq24 by exact (quiet_trans _ _ _ Hq3 Hq4).
  assert (∀ Q : Prop, Q → subscribed_ok c data Q w w4) as Hok.
  { intros Q HQ c' ch' s' Hs. rewrite (quiet_subs _ _ c' Hq24) in Hs.
    destruct (Hsub' c' ch') as [E|(->&->&E)]; [left; by rewrite <- E|right].
    split_and!; [done..|]. rewrite E in Hs. by injection Hs. }
  assert (∀ x, sv_ListByChannelID sv (w_calls w3) (cs_ServerID data) (cs_ChannelID data) u = x →
    match x with inl _ | inr ReadTextRequired => True | _ => False end → P) as HP.
  { intros x Ex Hx. split; [exists (w_calls w), (w_calls w2); split; [lia|done]|].
    exists (w_calls w3). by rewrite Ex. }
  destruct (sv_ListByChannelID _ _ _ _ _) as [reads|re] eqn:El.
  - wp_step. eapply wp_mono; [apply (queue_subscribed c data P w); [apply Hq4|done|by apply Hok, (HP _ eq_refl)]|].
    intros [err3|] w5 [Hi5 Hs5]; [by wp_step|].
    eapply wp_mono; [by apply (queue_subscribed c data P w)|]. by intros ? w6 [_ ?].
  - destruct re.
    { eapply wp_mono; [apply (queue_subscribed c data P w); [apply Hq4|done|by apply Hok, (HP _ eq_refl)]|].
      by intros ? w5 [_ ?]. }
    all: wp_step; (eapply wp_mono; [eapply (dropped_subscribed c data P); [done|apply Hq4|done|done]|]);
      intros _ w5 [Hi5 Hs5]; (eapply wp_mono; [by apply (queue_subscribed c data P w)|]); by intros ? w6 [_ ?].
Qed.

(** ** The claims *)

(** Requests of any connections, in the order they are handled. *)
Definition serve (requests : list (ClientRef * IncomingEvent Raw)) : M Ws unit :=
  for_each requests (fun r => handleIncomingEvent sv de r.1 r.2 ;; mret tt).

Lemma serve_sound requests : ∀ w,
  (∀ r, r ∈ requests → served r.1 w) → inv (w_hub w) →
  wp (serve requests) (fun _ w' => sound (w_hub w) (w_hub w')) w.
Proof.
  unfold serve. induction requests as [|r requests IH]; intros w Hr Hi; cbn [for_each].
  { wp_step. by apply sound_refl. }
  wp_step. wp_step. eapply wp_mono; [apply run_handleIncomingEvent, Hr; set_solver|].
  intros a w1 Hs1. wp_step. eapply wp_mono.
  { apply IH; [|apply Hs1]. intros r' Hr'. apply (served_sound _ w); [apply Hr; set_solver|exact Hs1]. }
  intros [] w2 Hs2. exact (sound_trans _ _ _ Hs1 Hs2).
Qed.

(** C22: From every reachable state of the hub, every sequence of websocket
    requests of accepted connections is handled to the end: whatever the
    payloads, the services and the media managers answer, no handler panics
    or diverges, and the hub is coherent afterwards. *)
Theorem ws_requests_total y requests typing calls clock :
  rtc sys_step init_system y → (∀ r, r ∈ requests → r.1 ∈ sy_accepted y) →
  ∃ w', serve requests (mkWs (sy_hub y) typing calls clock) = Ok (tt, w') ∧ coherent (w_hub w').
Proof.
  intros Hr Hacc. destruct (reachable_inv y Hr) as [Hi _ Ha _ _ _].
  destruct (proj1 (wp_run _ _ _) (serve_sound requests (mkWs (sy_hub y) typing calls clock)
    (fun r Hin => conj Hi (Ha _ (Hacc r Hin))) Hi)) as ([]&w'&Hrun&Hs).
  exists w'. split; [done|]. apply inv_coherent, Hs.
Qed.

(** C23: A voice join admits nobody past the checks. After the request the
    connection's voice entry is what it was, or is gone, or names the
    requested channel, with the connection's own user and the device it
    presented; and in the last case the channel access check passed twice, the
    second time after the first, and the encryption policy of the channel
    admitted the device: none for a plain channel, an active one for an
    encrypted channel. *)
Theorem joinVoice_admission y c e data typing calls clock :
  rtc sys_step init_system y → c ∈ sy_accepted y → de_VoiceJoin de (ie_Data e) = Some data →
  let w := mkWs (sy_hub y) typing calls clock in
  wp (joinVoice sv de c e) (fun _ w' =>
    voice_of c w' = voice_of c w ∨
    (voice_checks (cl_userID (client_at c (sy_hub y))) data ∧
     in_or_out c (cl_userID (client_at c (sy_hub y))) data (w_hub w'))) w.
Proof.
  intros Hr Hc Hd w. destruct (reachable_inv y Hr) as [Hi _ Ha _ _ _].
  apply (joinVoice_enters c e data w); [|done]. split; [done|by apply Ha].
Qed.

(** C24: A channel subscription admits nobody past the checks: after the
    request every subscription of every connection was there before, or is
    the requested one and the access check passed before and again after the
    hub took the subscription, and the read state service did not refuse. *)
Theorem subscribe_admission y c e data typing calls clock :
  rtc sys_step init_system y → c ∈ sy_accepted y → de_Subscription de (ie_Data e) = Some data →
  let w := mkWs (sy_hub y) typing calls clock in
  wp (subscribeToChannel sv de c e) (fun _ w' => ∀ c' ch' s',
    subs_of c' (w_hub w') !! ch' = Some s' →
    subs_of c' (sy_hub y) !! ch' = Some s' ∨
    (subscription_checks (cl_userID (client_at c (sy_hub y))) data ∧
     c' = c ∧ ch' = cs_ChannelID data ∧ s' = cs_ServerID data)) w.
Proof.
  intros Hr Hc Hd w. destruct (reachable_inv y Hr) as [Hi _ Ha _ _ _].
  apply (subscribe_checked c e data w); [|done]. split; [done|by apply Ha].
Qed.
End facts.

(** ** Witnesses *)

(** Media managers that answer every request with an offer through the signal
    sinks. *)
#[local] Instance sink_voice : VoiceMedia := {|
  vm_Join n k u s ch m d := @voice_SendOffer key_order k "v=0" ;; mret None;
  vm_SetState n k m d := mret None;
  vm_AcceptAnswer n k sdp := mret (Some VoiceSessionNotFound);
  vm_AddICECandidate n k c := mret (Some VoiceTooManyICE) |}.

#[local] Instance sink_stream : StreamMedia := {|
  sm_StartWithRenditions := Some (fun n k u s ch codec a rs =>
    @stream_SendOffer key_order k "v=0" ;; mret None);
  sm_WatchRendition := None;
  sm_WatchRenditionForPublisher := None;
  sm_Start n k u s ch codec a := mret (Some StreamFailed);
  sm_Watch n k u s ch := @stream_SendOffer key_order k "v=0" ;; mret None;
  sm_AcceptAnswer n k sdp := mret None;
  sm_AddICECandidate n k c := mret (Some StreamTooManyICE);
  sm_RequestRecovery n k a := mret None |}.

Lemma media_safe_pure {A} (a : A) : media_safe (mret a).
Proof. intros h Hi. wp_step. by apply kept_refl. Qed.

Lemma offer_safe {A} (a : A) (m : M Hub bool) :
  (∀ h, inv h → wp m (fun _ h' => kept h h') h) → media_safe (m ;; mret a).
Proof. intros Hm h Hi. wp_step. eapply wp_mono; [by apply Hm|]. intros b h' Hk. by wp_step. Qed.

Lemma sink_voice_laws : VoiceMediaLaws sink_voice.
Proof.
  split; intros; try apply media_safe_pure. apply offer_safe. intros h Hi.
  by apply SendToConnection_kept; [|apply event_typed_new].
Qed.

Lemma sink_stream_laws : StreamMediaLaws sink_stream.
Proof.
  split; intros; simpl in *; simplify_eq; try apply media_safe_pure; apply offer_safe; intros h Hi;
    by apply SendToConnection_kept; [|apply event_typed_new].
Qed.

(** Services that let everybody in, an encrypted channel 40 included. *)
Definition open_services : Services := {|
  sv_CheckAccess := fun _ _ _ _ => None;
  sv_CheckVoiceAccess := fun _ _ _ _ => None;
  sv_CheckStreamAccess := None;
  sv_ListByChannelID := fun _ _ _ _ => inl [];
  sv_encryption := Some (mkEncryption (fun _ ch => Some (ch =? 40)%Z) (fun _ _ _ => Some true)) |}.

Inductive sample_payload :=
  | PSubscribe (d : ChannelSubscriptionData) | PJoin (d : VoiceJoinData) | PGarbage.

Definition sample_decoder : Decoder sample_payload := {|
  de_Subscription r := match r with PSubscribe d => Some d | _ => None end;
  de_Typing r := None; de_Relay r := None; de_Batch r := None;
  de_VoiceJoin r := match r with PJoin d => Some d | _ => None end;
  de_VoiceState r := None; de_SDP r := None; de_Candidate r := None; de_StreamStart r := None;
  de_StreamWatch r := None; de_P2PSession r := None; de_P2PCandidate r := None;
  de_P2PRestart r := None; de_Recovery r := None |}.

Definition sample_voice_join : VoiceJoinData := mkVoiceJoinData 7 40 false false "d9".
Definition sample_join : IncomingEvent sample_payload :=
  mkIncomingEvent "r1" EventVoiceJoin (PJoin sample_voice_join).
Definition sample_channel : ChannelSubscriptionData := mkChannelSubscriptionData 7 41.
Definition sample_subscribe : IncomingEvent sample_payload :=
  mkIncomingEvent "r2" EventChannelSubscribe (PSubscribe sample_channel).
Definition sample_garbage : IncomingEvent sample_payload :=
  mkIncomingEvent "r3" EventStreamStart PGarbage.

Lemma ws_requests_total_witness :
  ∃ w', @serve key_order sink_voice sink_stream open_services _ sample_decoder
    [(3%positive, sample_join); (3%positive, sample_subscribe); (3%positive, sample_garbage)]
    (mkWs (sy_hub sample_system) ∅ 0 0) = Ok (tt, w') ∧ coherent (w_hub w').
Proof.
  exact (@ws_requests_total key_order sink_voice sink_stream sink_voice_laws sink_stream_laws
    open_services _ sample_decoder sample_system
    [(3%positive, sample_join); (3%positive, sample_subscribe); (3%positive, sample_garbage)] ∅ 0 0%Z
    sample_reachable ltac:(intros r Hr; set_unfold in Hr; destruct_or!; subst; exact sample_accepted)).
Defined.

Lemma joinVoice_admission_witness :
  let w := mkWs (sy_hub sample_system) ∅ 0 0 in
  wp (@joinVoice key_order sink_voice open_services _ sample_decoder 3%positive sample_join)
    (fun _ w' => vs_byClient (h_voice (w_hub w')) !! 3%positive = vs_byClient (h_voice (w_hub w)) !! 3%positive ∨
      (voice_checks open_services (cl_userID (client_at 3%positive (sy_hub sample_system))) sample_voice_join ∧
       in_or_out 3%positive (cl_userID (client_at 3%positive (sy_hub sample_system)))
         sample_voice_join (w_hub w'))) w.
Proof.
  exact (@joinVoice_admission key_order sink_voice sink_voice_laws open_services _ sample_decoder
    sample_system 3%positive sample_join sample_voice_join ∅ 0 0%Z
    sample_reachable sample_accepted eq_refl).
Defined.

Lemma subscribe_admission_witness :
  wp (@subscribeToChannel open_services _ sample_decoder 3%positive sample_subscribe)
    (fun _ w' => ∀ c' ch' s', subs_of c' (w_hub w') !! ch' = Some s' →
      subs_of c' (sy_hub sample_system) !! ch' = Some s' ∨
      (subscription_checks open_services (cl_userID (client_at 3%positive (sy_hub sample_system)))
         sample_channel ∧ c' = 3%positive ∧ ch' = cs_ChannelID sample_channel ∧
       s' = cs_ServerID sample_channel))
    (mkWs (sy_hub sample_system) ∅ 0 0).
Proof.
  exact (@subscribe_admission key_order open_services _ sample_decoder sample_system 3%positive
    sample_subscribe sample_channel ∅ 0 0%Z sample_reachable sample_accepted eq_refl).
Defined.

(** ** An observation

    The handler ignores the answer of [Subscribe]. A connection that the hub
    does not (yet) count as a member of the server, while the channel service
    already does, is told that it is subscribed and is not. *)
Theorem subscribe_acknowledged_but_refused :
  ∃ w', subscribeToChannel open_services sample_decoder 3%positive
      (mkIncomingEvent "r9" EventChannelSubscribe (PSubscribe (mkChannelSubscriptionData 99 900)))
      (mkWs (sy_hub sample_system) ∅ 0 0) = Ok (None, w') ∧
    subs_of 3%positive (w_hub w') !! 900%Z = None ∧
    existsb (fun ev => String.eqb (oe_RequestID ev) "r9" && String.eqb (oe_Type ev) EventChannelSubscribed)
      (cl_outgoing (client_at 3%positive (w_hub w'))) = true.
Proof.
  destruct (subscribeToChannel open_services sample_decoder 3%positive
      (mkIncomingEvent "r9" EventChannelSubscribe (PSubscribe (mkChannelSubscriptionData 99 900)))
      (mkWs (sy_hub sample_system) ∅ 0 0)) as [[r w']| |] eqn:E;
    [|vm_compute in E; discriminate E..].
  vm_compute in E. injection E as <- <-. eexists. split; [reflexivity|].
  split; vm_compute; reflexivity.
Qed.
