(* ===== verification/WsConnection.v ===== *)
(** * The websocket endpoint: the life of a connection

    Model of [connect], [serveConnection], [readLoop] and [writeLoopWithPings]
    of [internal/realtime/http/handler.go]. [connect] is split at the point
    where it hands over to [serveConnection]: [connect_open] is everything
    before, with the deferred calls of the paths that end there, and
    [connect_close] is what [serveConnection] does when a loop has ended
    followed by the deferred calls of [connect], in their order. Between the
    two any other part of the program may run. The socket, the clock and the
    services answer through parameters, as in [WsHandler]. *)

From S2P Require Import Prelude GoText StreamContract Events Client VoiceState StreamState.
From S2P Require Import Hub HubOps MediaHub AntiAbuse WsHandler.

(** ** Collaborators *)

(** The answer of the authenticator: a nil error, [ErrUnauthorized] or another
    error, each with the identifier returned beside it. *)
Inductive AuthResult := AuthUser (userID : Z) | AuthUnauthorized (userID : Z) | AuthFailed (userID : Z).

(** What the peer and the services do during the handshake: whether the
    upgrade succeeds, the first event, the answers of the two authentications,
    the memberships and read states, and whether the ready event is written. *)
Record Handshake (Raw : Type) := mkHandshake {
  hs_accepted : bool;
  hs_first : option (IncomingEvent Raw);
  hs_decode : Raw → option AuthenticateData;
  hs_authenticate : string → AuthResult;
  hs_memberships : Z → option (list Z);
  hs_reads : Z → option (list ChannelReadData);
  hs_confirm : string → AuthResult;
  hs_ready_written : bool
}.
Arguments hs_accepted {Raw}. Arguments hs_first {Raw}. Arguments hs_decode {Raw}.
Arguments hs_authenticate {Raw}. Arguments hs_memberships {Raw}. Arguments hs_reads {Raw}.
Arguments hs_confirm {Raw}. Arguments hs_ready_written {Raw}.

(** The close statuses the endpoint uses. *)
Inductive CloseStatus :=
  | StatusPolicyViolation | StatusInternalError | StatusTryAgainLater | StatusServiceRestart.

(** A restart must not look like a policy violation, which clients take for a
    lost session. *)
Definition closeStatusFor (reason : string) : CloseStatus :=
  if String.eqb reason CloseReasonServerShutdown then StatusServiceRestart else StatusPolicyViolation.

(** How [connect] ends without serving the connection: an HTTP error, a failed
    upgrade, a close of the websocket, or an error of the transport. *)
Inductive Refusal :=
  | HTTPTooMany
  | UpgradeFailed
  | Closed (status : CloseStatus) (reason : string)
  | TransportFailed.

Section connection.
Context `{MapOrder} {Limiter : Type}.

(** The guard, the hub with the websocket state, the connection counter and
    the address of the next client. *)
Record Conn := mkConn {
  cn_guard : Guard Limiter; cn_ws : Ws; cn_counter : N; cn_next : ClientRef }.
#[global] Instance Conn_fields : Fields Conn := fun k =>
  mkConn (cn_guard k) (cn_ws k) (cn_counter k) (cn_next k).

Definition on_guard {A} (m : M (Guard Limiter) A) : M Conn A := fun k =>
  match m (cn_guard k) with
  | Ok (a, g) => Ok (a, k <| cn_guard := g |>)
  | Panic => Panic
  | OutOfFuel => OutOfFuel
  end.

Definition on_ws {A} (m : M Ws A) : M Conn A := fun k =>
  match m (cn_ws k) with
  | Ok (a, w) => Ok (a, k <| cn_ws := w |>)
  | Panic => Panic
  | OutOfFuel => OutOfFuel
  end.

(** The deferred release of a slot that was acquired. *)
Definition release_slot (handle : option nat) : M Conn unit :=
  match handle with Some i => on_guard (release i) | None => mret tt end.

(** [realtime.NewClient] and the capabilities the client announced. *)
Definition new_client (u : Z) (sessionKey : string) (servers : list Z) (auth : AuthenticateData)
    : M Conn ClientRef :=
  k ← get_state;
  let client := cn_next k in
  let cl := NewClient (newConnectionID (cn_counter k + 1)) u sessionKey servers in
  modify (fun k => k <| cn_counter := (cn_counter k + 1)%N |> <| cn_next := Pos.succ client |>) ;;
  on_ws (on_hub (modify (fun h => h <| h_mem ::= <[client := cl]> |>))) ;;
  when (au_MessageSync auth) (on_ws (on_hub (update_client client EnableMessageSync))) ;;
  when (au_MultipleStreams auth) (on_ws (on_hub (update_client client EnableMultipleStreams))) ;;
  mret client.

(** From [Register] on: the client and the reason the connection ended, if
    it did. [hub.Unregister] is deferred from here. *)
Definition register_client {Raw} (hs : Handshake Raw) (u : Z) (token : string) (reads : list ChannelReadData)
    (client : ClientRef) : M Conn (option Refusal) :=
  ok ← on_ws (on_hub (Register (Some client)));
  if negb ok then mret (Some (Closed StatusInternalError "failed to register connection"))
  else
    outcome ← (match hs_confirm hs token with
      | AuthUser u' =>
          if (u' =? u)%Z then
            if negb (hs_ready_written hs) then mret (Some TransportFailed)
            else
              err ← on_ws (queueEvent client (new_event EventReadSnapshot (DReadSnapshot reads)));
              mret (match err with Some _ => Some TransportFailed | None => None end)
          else mret (Some (Closed StatusPolicyViolation "invalid or expired session"))
      | AuthUnauthorized _ => mret (Some (Closed StatusPolicyViolation "invalid or expired session"))
      | AuthFailed u' =>
          mret (Some (if (u' =? u)%Z then Closed StatusInternalError "internal server error"
                      else Closed StatusPolicyViolation "invalid or expired session"))
      end);
    match outcome with
    | Some r => on_ws (on_hub (Unregister client)) ;; mret (Some r)
    | None => mret None
    end.

(** A connection that is being served: its client and its two slots. *)
Record Session := mkSession { se_client : ClientRef; se_ip : option nat; se_user : option nat }.

(** After authentication. [digest] is the session key of a token. *)
Definition connect_user {Raw} (hs : Handshake Raw) (digest : string → string) (protected : bool)
    (auth : AuthenticateData) (token : string) (u : Z) : M Conn (ClientRef * option nat + Refusal) :=
  slot ← (if protected then on_guard (AcquireWebSocketUser u) else mret None);
  if protected && bool_decide (slot = None) then
    mret (inr (Closed StatusTryAgainLater "too many active connections"))
  else
    outcome ← (match hs_memberships hs u, hs_reads hs u with
      | None, _ | _, None => mret (inr (Closed StatusInternalError "internal server error"))
      | Some servers, Some reads =>
          client ← new_client u (digest token) servers auth;
          refusal ← register_client hs u token reads client;
          mret (match refusal with Some r => inr r | None => inl client end)
      end);
    match outcome with
    | inl client => mret (inl (client, slot))
    | inr r => release_slot slot ;; mret (inr r)
    end.

(** The first event and the authentication. *)
Definition connect_authenticate {Raw} (hs : Handshake Raw) (digest : string → string) (protected : bool)
    : M Conn (ClientRef * option nat + Refusal) :=
  match hs_first hs with
  | None => mret (inr (Closed StatusPolicyViolation "authentication required"))
  | Some event =>
      if negb (String.eqb (ie_Type event) EventAuthenticate) then
        mret (inr (Closed StatusPolicyViolation "authentication required"))
      else match hs_decode hs (ie_Data event) with
        | None => mret (inr (Closed StatusPolicyViolation "invalid authentication payload"))
        | Some auth =>
            let token := TrimSpace (au_Token auth) in
            if String.eqb token "" then
              mret (inr (Closed StatusPolicyViolation "session token is required"))
            else match hs_authenticate hs token with
              | AuthUnauthorized _ => mret (inr (Closed StatusPolicyViolation "invalid or expired session"))
              | AuthFailed _ => mret (inr (Closed StatusInternalError "internal server error"))
              | AuthUser u => connect_user hs digest protected auth token u
              end
        end
  end.

(** [connect] up to [serveConnection]; [ip] is the rate key of the request. *)
Definition connect_open {Raw} (hs : Handshake Raw) (digest : string → string) (protected : bool)
    (ip : string) : M Conn (Session + Refusal) :=
  slot ← (if protected then on_guard (AcquireWebSocketIP ip) else mret None);
  if protected && bool_decide (slot = None) then mret (inr HTTPTooMany)
  else
    outcome ← (if hs_accepted hs then connect_authenticate hs digest protected
               else mret (inr UpgradeFailed));
    match outcome with
    | inl (client, user) => mret (inl (mkSession client slot user))
    | inr r => release_slot slot ;; mret (inr r)
    end.

(** The end of [serveConnection] and the deferred calls of [connect]. *)
Definition connect_close (s : Session) : M Conn unit :=
  on_ws (on_hub (update_client (se_client s) Close)) ;;
  on_ws (on_hub (Unregister (se_client s))) ;;
  release_slot (se_user s) ;;
  release_slot (se_ip s).

(** ** readLoop *)

Context `{VoiceMedia} `{StreamMedia} (sv : Services) {Raw : Type} (de : Decoder Raw).
(** [rate.Limiter]: [Allow] and [AllowN]. *)
Context (Allow : Limiter → Z → bool * Limiter) (AllowN : Limiter → Z → Z → bool * Limiter).

Inductive ReadEnd :=
  | ReadFailed_
  | EventRateExceeded
  | RelayRateExceeded
  | HandlerFailed (e : HandlerError).

(** What an event costs of the relay budget. *)
Definition relay_count (event : IncomingEvent Raw) : Z :=
  if String.eqb (ie_Type event) EventE2EEKey || String.eqb (ie_Type event) EventE2EEKeyRequest then 1
  else if String.eqb (ie_Type event) EventE2EEKeys then
    match de_Batch de (ie_Data event) with
    | Some batch =>
        if length (eb_Keys batch) <=? MaxE2EEBatchRecipients then Z.of_nat (length (eb_Keys batch)) else 0
    | None => 0
    end
  else 0.

(** The loop over the results of [wsjson.Read], each with the time it arrived;
    [events] is the limiter of the guard, [None] without a protector. The
    answer is [None] while the loop waits for the next event. *)
Fixpoint readLoop (client : ClientRef) (events : option Limiter) (relay : Limiter)
    (reads : list (Z * option (IncomingEvent Raw))) : M Ws (option ReadEnd) :=
  match reads with
  | [] => mret None
  | (_, None) :: _ => mret (Some ReadFailed_)
  | (now, Some event) :: reads =>
      modify (fun w => w <| w_clock := now |>) ;;
      let '(ok, events) := match events with
        | Some l => let '(ok, l) := Allow l now in (ok, Some l)
        | None => (true, None)
        end in
      if negb ok then mret (Some EventRateExceeded)
      else
        let '(ok, relay) :=
          if (0 <? relay_count event)%Z then AllowN relay now (relay_count event) else (true, relay) in
        if negb ok then mret (Some RelayRateExceeded)
        else
          err ← handleIncomingEvent sv de client event;
          match err with
          | Some e => mret (Some (HandlerFailed e))
          | None => readLoop client events relay reads
          end
  end.
End connection.

(** ** writeLoopWithPings *)

(** The case of the [select] that runs, with what the socket and the
    authenticator answer in it. *)
Inductive WriteCase :=
  | CtxDone
  | ClientDone
  | OutgoingReady (written : bool)
  | Ping (authenticated : AuthResult) (answered : bool).

(** How the loop returns; [connection.Close] has been called with the status. *)
Inductive WriteEnd :=
  | EndContext
  | EndClient
  | EndClosed (status : CloseStatus) (reason : string)
  | EndWriteFailed
  | EndPingFailed.

Section writing.
Context `{MapOrder}.

(** One turn: the events written, the new count of failed session checks, and
    whether the loop returns. *)
Definition write_turn (client : ClientRef) (authFailures : Z) (turn : WriteCase)
    : M Ws (list OutgoingEvent * Z * option WriteEnd) :=
  match turn with
  | CtxDone => mret ([], authFailures, Some EndContext)
  | ClientDone =>
      reason ← gets (fun w => cl_closeReason (client_at client (w_hub w)));
      mret ([], authFailures, Some (if String.eqb reason "" then EndClient
                                    else EndClosed (closeStatusFor reason) reason))
  | OutgoingReady written =>
      popped ← on_hub (on_client client PopOutgoing);
      match popped with
      | None => mret ([], authFailures, None)
      | Some event =>
          if written : bool then mret ([event], authFailures, None)
          else mret ([], authFailures, Some EndWriteFailed)
      end
  | Ping authenticated answered =>
      userID ← client_user client;
      let expired := match authenticated with
        | AuthUnauthorized _ => true
        | AuthUser u => negb (u =? userID)%Z
        | AuthFailed _ => false
        end in
      if expired then mret ([], authFailures, Some (EndClosed StatusPolicyViolation "session expired or revoked"))
      else
        let authFailures := match authenticated with AuthFailed _ => authFailures + 1 | _ => 0 end%Z in
        if (3 <=? authFailures)%Z then
          mret ([], authFailures, Some (EndClosed StatusTryAgainLater "session check temporarily unavailable"))
        else mret ([], authFailures, if answered then None else Some EndPingFailed)
  end.

(** The loop over the cases in the order they run; [None] while it waits. *)
Fixpoint write_turns (client : ClientRef) (authFailures : Z) (turns : list WriteCase)
    : M Ws (list OutgoingEvent * option WriteEnd) :=
  match turns with
  | [] => mret ([], None)
  | turn :: turns =>
      r ← write_turn client authFailures turn;
      let '(sent, authFailures, ended) := r in
      match ended with
      | Some e => mret (sent, Some e)
      | None =>
          rest ← write_turns client authFailures turns;
          mret (sent ++ rest.1, rest.2)
      end
  end.

Definition writeLoopWithPings (client : ClientRef) (turns : list WriteCase)
    : M Ws (list OutgoingEvent * option WriteEnd) := write_turns client 0 turns.
End writing.
Arguments Conn Limiter : clear implicits.
Arguments mkConn {Limiter}.
