(* ===== verification/WsLifecycle.v ===== *)
(** * The websocket endpoint: admission and clean-up of connections

    What [connect] of [internal/realtime/http/handler.go] leaves in the guard
    and in the hub: a refused connection no slot and no client (others may have
    been told of a client that was registered first), an admitted one its
    client and its two connection slots, and closing it takes both back. The
    read and write loops run between the two. *)

From S2P Require Import Prelude GoText StreamContract Events Client ClientFacts ClientAccess.
From S2P Require Import VoiceState VoiceFacts StreamState StreamFacts.
From S2P Require Import Hub HubInv HubSpecs HubOps HubReach HubGrow MediaHub Publishers HubMedia.
From S2P Require Import HubSystem HubProps AntiAbuse AntiAbuseFacts Buckets WsHandler WsFacts WsProps WsConnection.

(** ** Slots *)

(** The connection counter of an address or of a user. *)
Definition slot_count {Limiter} (p : slot) (g : Guard Limiter) : Z :=
  match p with
  | SlotIP ip => default 0%Z (g_connectionsIP g !! ip)
  | SlotUser u => default 0%Z (g_connectionsUser g !! u)
  end.

Lemma slot_count_held {Limiter} cfg (g : Guard Limiter) p :
  guard_inv cfg g → slot_count p g = held p (g_handles g).
Proof. intros Hg. destruct p; [apply (gi_ip _ _ Hg)|apply (gi_user _ _ Hg)]. Qed.

(** The counters of the table [m] are determined by the open closures. *)
Lemma slots_ok_eq `{Countable K} (mk : K → slot) m m' hs hs' max :
  slots_ok mk m hs max → slots_ok mk m' hs' max → (∀ p, held p hs' = held p hs) → m' = m.
Proof.
  intros Hm Hm' Hh. apply map_eq. intros k. destruct (Hm k) as (H1&H2&_), (Hm' k) as (H3&H4&_).
  rewrite Hh in H3. destruct (m !! k) as [a|], (m' !! k) as [b|]; simpl in *; congruence.
Qed.

Section lifecycle.
Context `{MapOrder} {Limiter : Type}.
Context (NewLimiter : Rate → Z → Limiter) (AllowN : Limiter → Z → bool * Limiter).
Context (cfg : Config).
Implicit Types (k : Conn Limiter) (g : Guard Limiter).

Definition handles k : list handle := g_handles (cn_guard k).
Definition conn_hub k : Hub := w_hub (cn_ws k).

Record conn_ok k : Prop := {
  ck_guard : guard_inv cfg (cn_guard k);
  ck_sys : sys_inv (mkSystem (conn_hub k) (cn_counter k) ∅)
}.

Lemma wp_on_guard {A} (m : M (Guard Limiter) A) (Q : A → Conn Limiter → Prop) k :
  wp m (fun a g => Q a (k <| cn_guard := g |>)) (cn_guard k) → wp (on_guard m) Q k.
Proof. unfold on_guard, wp. by destruct (m (cn_guard k)) as [[a g]| |]. Qed.

Lemma wp_on_ws {A} (m : M Ws A) (Q : A → Conn Limiter → Prop) k :
  wp m (fun a w => Q a (k <| cn_ws := w |>)) (cn_ws k) → wp (on_ws m) Q k.
Proof. unfold on_ws, wp. by destruct (m (cn_ws k)) as [[a w]| |]. Qed.

Lemma wp_on_hub {A} (m : M Hub A) (Q : A → Ws → Prop) w :
  wp m (fun a h => Q a (w <| w_hub := h |>)) (w_hub w) → wp (on_hub m) Q w.
Proof. unfold on_hub, wp. by destruct (m (w_hub w)) as [[a h]| |]. Qed.

(** A hub operation of the endpoint. *)
Definition hub_moved k k' : Prop :=
  conn_ok k' ∧ cn_guard k' = cn_guard k ∧ cn_next k' = cn_next k ∧ sound (conn_hub k) (conn_hub k').

Lemma hub_moved_trans k1 k2 k3 : hub_moved k1 k2 → hub_moved k2 k3 → hub_moved k1 k3.
Proof.
  intros (?&?&?&Hs1) (?&?&?&Hs2). split_and!; [done|congruence..|]. exact (sound_trans _ _ _ Hs1 Hs2).
Qed.

Lemma hub_moved_refl k : conn_ok k → hub_moved k k.
Proof. intros Hk. split_and!; [done..|]. apply sound_refl, (yi_inv _ (ck_sys _ Hk)). Qed.

Lemma conn_hub_step k w :
  conn_ok k → sound (conn_hub k) (w_hub w) → hub_moved k (k <| cn_ws := w |>).
Proof.
  intros [Hg Hy] Hs. split_and!; [|done..]. split; [done|].
  by apply (sound_sys _ _ _ Hy Hs).
Qed.

Lemma wp_hub_step {A} (m : M Hub A) (P : A → Hub → Prop) k :
  conn_ok k → wp m (fun a h => sound (conn_hub k) h ∧ P a h) (conn_hub k) →
  wp (on_ws (on_hub m)) (fun a k' => hub_moved k k' ∧ P a (conn_hub k')) k.
Proof.
  intros Hk Hm. apply wp_on_ws, wp_on_hub. eapply wp_mono; [exact Hm|]. intros a h [Hs Hp].
  split; [|done]. by apply conn_hub_step.
Qed.

(** ** The steps of [connect] *)

Lemma release_slot_spec k i p :
  conn_ok k → handles k !! i = Some (mkHandle p false) →
  wp (release_slot (Some i)) (fun _ k' => conn_ok k' ∧ cn_ws k' = cn_ws k ∧
    handles k' = <[i := mkHandle p true]> (handles k)) k.
Proof.
  intros [Hg Hy] Hi. apply wp_on_guard.
  assert (∃ g', release i (cn_guard k) = Ok (tt, g') ∧
    g_handles g' = <[i := mkHandle p true]> (handles k)) as (g'&Hrun&Hh).
  { unfold release, mbind, M_bind, get_state. unfold handles in *. rewrite Hi. destruct p; eauto. }
  unfold wp. rewrite Hrun. split_and!; [|done..]. split; [|done].
  exact (guard_step_inv NewLimiter AllowN cfg _ _ Hg (step_release _ _ _ _ _ Hrun)).
Qed.

(** What acquiring a slot for [p] answers. *)
Definition acquired (p : slot) k (r : option nat) k' : Prop :=
  conn_ok k' ∧ cn_ws k' = cn_ws k ∧ cn_counter k' = cn_counter k ∧ cn_next k' = cn_next k ∧
  handles k' = handles k ++ match r with Some _ => [mkHandle p false] | None => [] end ∧
  ∀ i, r = Some i → i = length (handles k).

Lemma acquire_step p k (m : M (Guard Limiter) (option nat)) :
  conn_ok k → (∀ r g', m (cn_guard k) = Ok (r, g') → guard_step NewLimiter AllowN (cn_guard k) g') →
  (m (cn_guard k) = Ok (None, cn_guard k) ∨
   ∃ g', m (cn_guard k) = Ok (Some (length (handles k)), g') ∧
     g_handles g' = handles k ++ [mkHandle p false]) →
  wp (on_guard m) (acquired p k) k.
Proof.
  intros [Hg Hy] Hstep Hcase. apply wp_on_guard. unfold wp.
  destruct Hcase as [Hrun|(g'&Hrun&Hh)]; rewrite Hrun; (split_and!; [split; [|done]| | | | |]); try done.
  - by rewrite app_nil_r.
  - exact (guard_step_inv NewLimiter AllowN cfg _ _ Hg (Hstep _ _ Hrun)).
  - intros i [= <-]. done.
Qed.

Lemma acquire_ip_spec ip k : conn_ok k → wp (on_guard (AcquireWebSocketIP ip)) (acquired (SlotIP ip) k) k.
Proof.
  intros Hk. apply acquire_step; [done|apply step_acquire_ip|].
  unfold AcquireWebSocketIP, mbind, M_bind, get_state. case_match; [by left|right; eauto].
Qed.

Lemma acquire_user_spec u k : conn_ok k → wp (on_guard (AcquireWebSocketUser u)) (acquired (SlotUser u) k) k.
Proof.
  intros Hk. apply acquire_step; [done|apply step_acquire_user|].
  unfold AcquireWebSocketUser, mbind, M_bind, get_state. case_match; [by left|right; eauto].
Qed.

(** A client the hub knows by name but has not registered. *)
Definition unregistered (c : ClientRef) k : Prop :=
  cl_connectionID (client_at c (conn_hub k)) ≠ "" ∧ c ∉ h_clients (conn_hub k).

Lemma ident_moved c k k' :
  hub_moved k k' → client_ident (conn_hub k') c = client_ident (conn_hub k) c.
Proof. intros (_&_&_&Hs). apply (so_ident _ _ Hs). Qed.

(** Setting a capability of the client. *)
Lemma capability_spec c f k :
  conn_ok k → (∀ cl, same_links cl (f cl)) → (∀ cl, client_ok cl → client_ok (f cl)) →
  wp (on_ws (on_hub (update_client c f))) (fun _ k' => hub_moved k k' ∧
    h_clients (conn_hub k') ⊆ h_clients (conn_hub k)) k.
Proof.
  intros Hk Hl Hok. apply (wp_hub_step _ (fun _ h => h_clients h ⊆ h_clients (conn_hub k))); [done|].
  eapply wp_mono; [apply client_local_kept; [apply (yi_inv _ (ck_sys _ Hk))|done|done]|].
  intros [] h Hkept. split; [by apply kept_sound|apply (ag_clients _ _ (proj2 Hkept))].
Qed.

Lemma new_client_spec u key servers auth k :
  conn_ok k → (cn_counter k + 1 < 2 ^ 64)%N →
  cl_connectionID (client_at (cn_next k) (conn_hub k)) = "" →
  wp (new_client u key servers auth) (fun c k' => c = cn_next k ∧ conn_ok k' ∧
    cn_guard k' = cn_guard k ∧ user_of c (conn_hub k') = u ∧ unregistered c k' ∧
    h_clients (conn_hub k') ⊆ h_clients (conn_hub k)) k.
Proof.
  intros [Hg Hy] Hlt Hfree. pose proof (connect_sys _ u key servers _ Hy Hlt Hfree) as Hy1.
  set (c := cn_next k) in *. set (h1 := connect _ _ _ _ _ _) in Hy1.
  assert (client_at c h1 = NewClient (newConnectionID (cn_counter k + 1)) u key servers) as Hcl.
  { unfold h1. by rewrite connect_client, decide_True. }
  assert (c ∉ h_clients h1) as Hc1.
  { intros Hin. by destruct (yi_named _ Hy c); [left|]. }
  unfold new_client. wp_step. wp_step. wp_step. wp_step. wp_step. apply wp_on_ws, wp_on_hub. wp_step.
  set (k1 := _ <| cn_ws := _ |>). assert (conn_ok k1) as Hk1 by (by split).
  assert (conn_hub k1 = h1) as Eh by done.
  wp_step. eapply (wp_mono _ (fun _ k' => hub_moved k1 k' ∧ h_clients (conn_hub k') ⊆ h_clients h1)).
  { wp_step; [|by split; [apply hub_moved_refl|]].
    apply capability_spec; [done|by split|]. intros cl. by apply (client_step_ok cl), step_message_sync. }
  intros [] k2 [Hm2 Hs2]. wp_step.
  eapply (wp_mono _ (fun _ k' => hub_moved k2 k' ∧ h_clients (conn_hub k') ⊆ h_clients (conn_hub k2))).
  { wp_step; [|by split; [apply hub_moved_refl, Hm2|]].
    apply capability_spec; [apply Hm2|by split|]. intros cl. by apply (client_step_ok cl), step_multiple_streams. }
  intros [] k3 [Hm3 Hs3]. wp_step. pose proof (hub_moved_trans _ _ _ Hm2 Hm3) as Hm.
  pose proof (ident_moved c _ _ Hm) as Hid. rewrite Eh in Hid.
  split_and!; [done|apply Hm|by rewrite (proj1 (proj2 Hm))| |split|etrans; [exact Hs3|exact Hs2]].
  - change (user_of c (conn_hub k3) = u). rewrite (ident_user _ _ _ Hid). unfold user_of. by rewrite Hcl.
  - change (cl_connectionID (client_at c (conn_hub k3)) ≠ ""). rewrite (ident_conn _ _ _ Hid), Hcl.
    apply newConnectionID_nonempty.
  - set_solver.
Qed.

Lemma read_snapshot_spec c reads k :
  conn_ok k → admitted c (conn_hub k) →
  wp (on_ws (queueEvent c (new_event EventReadSnapshot (DReadSnapshot reads))))
    (fun _ k' => hub_moved k k' ∧ admitted c (conn_hub k') ∧
       h_clients (conn_hub k') = h_clients (conn_hub k)) k.
Proof.
  intros Hk Ha. apply wp_on_ws. eapply wp_mono.
  { apply queueEvent_quiet; [apply (yi_inv _ (ck_sys _ Hk))|done]. }
  intros e w [[Hi Hsh] _]. assert (sound (conn_hub k) (w_hub w)) as Hs.
  { apply kept_sound. split; [done|by apply same_shape_ages]. }
  split_and!; [by apply conn_hub_step|exact (admitted_sound _ _ _ Hs Ha)|apply (ss_clients _ _ Hsh)].
Qed.

Lemma unregister_conn_spec c k :
  conn_ok k → admitted c (conn_hub k) →
  wp (on_ws (on_hub (Unregister c))) (fun _ k' => hub_moved k k' ∧ c ∉ h_clients (conn_hub k') ∧
    servers_of c (conn_hub k') = ∅ ∧ cleaned c (conn_hub k') ∧
    h_clients (conn_hub k') ⊆ h_clients (conn_hub k)) k.
Proof.
  intros Hk [Hr _]. apply (wp_hub_step _ (fun _ h => c ∉ h_clients h ∧ servers_of c h = ∅ ∧ cleaned c h ∧
    h_clients h ⊆ h_clients (conn_hub k))); [done|].
  eapply wp_mono; [by apply (Unregister_spec ∅); [apply (yi_inv _ (ck_sys _ Hk))|]|].
  intros [] h (Hg&?&?&?). split_and!; [by apply kept_sound, good_kept|done..|apply (ev_clients _ _ (proj2 Hg))].
Qed.

Lemma register_client_spec {Raw} (hs : Handshake Raw) u token reads c k :
  conn_ok k → unregistered c k →
  wp (register_client hs u token reads c) (fun r k' => hub_moved k k' ∧
    match r with
    | None => hs_confirm hs token = AuthUser u ∧ admitted c (conn_hub k')
    | Some _ => h_clients (conn_hub k') ⊆ h_clients (conn_hub k)
    end) k.
Proof.
  intros Hk [Hname Hc]. unfold register_client. wp_step. eapply wp_mono.
  { apply (wp_hub_step _ (fun ok h => if ok : bool then ready c h ∧ h_clients h ⊆ {[c]} ∪ h_clients (conn_hub k)
      else h_clients h ⊆ h_clients (conn_hub k)));
      [done|]. apply Register_sound; [apply (yi_inv _ (ck_sys _ Hk))|by apply (yi_unique _ (ck_sys _ Hk))|done]. }
  intros ok k1 [Hm1 Hok]. destruct ok; cbn [negb]; [|wp_step; by split]. destruct Hok as [Hok Hcl1].
  assert (admitted c (conn_hub k1)) as Ha1.
  { split; [done|]. by rewrite (ident_conn _ _ _ (ident_moved c _ _ Hm1)). }
  wp_step. eapply (wp_mono _ (fun r k' => hub_moved k1 k' ∧ admitted c (conn_hub k') ∧
    h_clients (conn_hub k') = h_clients (conn_hub k1) ∧ (r = None → hs_confirm hs token = AuthUser u))).
  { pose proof (hub_moved_refl _ (proj1 Hm1)) as Hr1.
    destruct (hs_confirm hs token) as [u'|u'|u']; try (wp_step; by split_and!).
    destruct (Z.eqb_spec u' u) as [->|]; [|wp_step; by split_and!].
    destruct (hs_ready_written hs); cbn [negb]; [|wp_step; by split_and!].
    wp_step. eapply wp_mono; [by apply read_snapshot_spec; [apply Hm1|]|].
    intros err k2 (Hm2&Ha2&?). wp_step. by split_and!. }
  intros r k2 (Hm2&Ha2&Hcl2&Hr). pose proof (hub_moved_trans _ _ _ Hm1 Hm2) as Hm. destruct r as [r|].
  - wp_step. eapply wp_mono; [by apply unregister_conn_spec; [apply Hm2|]|].
    intros [] k3 (Hm3&?&_&_&?). wp_step. split; [exact (hub_moved_trans _ _ _ Hm Hm3)|]. set_solver.
  - wp_step. by split_and!; [|apply Hr|].
Qed.

(** The closures of a refused connection have all been called. *)
Definition spent k k' : Prop :=
  ∃ extra, handles k' = handles k ++ extra ∧ Forall (fun h => hd_fired h = true) extra.
Definition slot_of (protected : bool) (p : slot) : list handle :=
  if protected then [mkHandle p false] else [].

Lemma spent_refl k k' : handles k' = handles k → spent k k'.
Proof. intros E. exists []. by rewrite app_nil_r. Qed.

(** Releasing the slot acquired first, after others came and went. *)
Lemma release_first_spec protected p (slot : option nat) k0 k1 k :
  handles k1 = handles k0 ++ slot_of protected p →
  slot = (if protected then Some (length (handles k0)) else None) →
  conn_ok k → spent k1 k →
  wp (release_slot slot) (fun _ k' => conn_ok k' ∧ cn_ws k' = cn_ws k ∧ spent k0 k') k.
Proof.
  intros Hh1 -> Hk (extra&Hh&Hf). rewrite Hh1 in Hh. destruct protected; simpl in *.
  - rewrite <- app_assoc in Hh. eapply wp_mono.
    { apply (release_slot_spec k _ p); [done|]. rewrite Hh, lookup_app_r by lia. by rewrite Nat.sub_diag. }
    intros [] k' (Hk'&Hw&Hh'). split_and!; [done..|]. exists (mkHandle p true :: extra).
    rewrite Hh', Hh. split; [|by constructor].
    rewrite insert_app_r_alt by lia. by rewrite Nat.sub_diag.
  - wp_step. split_and!; [done..|]. exists extra. by rewrite Hh, app_nil_r.
Qed.

(** What [connect] has established once the user is known. *)
Definition opened {Raw} (hs : Handshake Raw) (token : string) (u : Z) (c : ClientRef) k' : Prop :=
  hs_confirm hs token = AuthUser u ∧ admitted c (conn_hub k') ∧ user_of c (conn_hub k') = u.

Definition allocatable k : Prop :=
  (cn_counter k + 1 < 2 ^ 64)%N ∧ cl_connectionID (client_at (cn_next k) (conn_hub k)) = "".

Lemma fresh_unregistered k : conn_ok k → allocatable k → cn_next k ∉ h_clients (conn_hub k).
Proof. intros Hk [_ Hf] Hin. by destruct (yi_named _ (ck_sys _ Hk) (cn_next k)); [left|]. Qed.

Lemma acquire_slot_spec (protected : bool) (p : slot) (m : M (Guard Limiter) (option nat)) k :
  conn_ok k → wp (on_guard m) (acquired p k) k →
  wp (if protected then on_guard m else mret None) (fun r k' => conn_ok k' ∧ cn_ws k' = cn_ws k ∧
    cn_counter k' = cn_counter k ∧ cn_next k' = cn_next k ∧
    if protected && bool_decide (r = None) then handles k' = handles k
    else handles k' = handles k ++ slot_of protected p ∧
      r = if protected then Some (length (handles k)) else None) k.
Proof.
  intros Hk Hm. destruct protected; simpl; [|wp_step; by rewrite app_nil_r].
  eapply wp_mono; [exact Hm|]. intros r k' (?&?&?&?&Hh&Hi). split_and!; try done.
  destruct r as [i|]; simpl in *; [by rewrite (Hi i eq_refl)|]. by rewrite app_nil_r in Hh.
Qed.

Lemma connect_user_spec {Raw} (hs : Handshake Raw) digest protected auth token u k :
  conn_ok k → allocatable k →
  wp (connect_user hs digest protected auth token u) (fun r k' => conn_ok k' ∧
    match r with
    | inl (c, slot) => c = cn_next k ∧ opened hs token u c k' ∧
        handles k' = handles k ++ slot_of protected (SlotUser u) ∧
        slot = if protected then Some (length (handles k)) else None
    | inr _ => h_clients (conn_hub k') ⊆ h_clients (conn_hub k) ∧ spent k k'
    end) k.
Proof.
  intros Hk Ha. unfold connect_user. wp_step.
  eapply wp_mono; [apply acquire_slot_spec; [done|by apply acquire_user_spec]|].
  intros slot k1 (Hk1&Hw1&Hc1&Hn1&Hcase).
  assert (conn_hub k1 = conn_hub k) as Eh by (unfold conn_hub; by rewrite Hw1).
  destruct (protected && _); [wp_step; split_and!; [done| |by apply spent_refl]|].
  { by rewrite Eh. }
  destruct Hcase as [Hh1 Hslot]. wp_step.
  eapply (wp_mono _ (fun r k' => conn_ok k' ∧ cn_guard k' = cn_guard k1 ∧
    match r with
    | inl c => c = cn_next k ∧ opened hs token u c k'
    | inr _ => h_clients (conn_hub k') ⊆ h_clients (conn_hub k)
    end)).
  { destruct (hs_memberships hs u) as [servers|], (hs_reads hs u) as [reads|];
      try (wp_step; split_and!; [done..|by rewrite Eh]).
    wp_step. eapply wp_mono; [apply new_client_spec; [done|rewrite Hc1; apply Ha|rewrite Hn1, Eh; apply Ha]|].
    rewrite Hn1. intros c k2 (->&Hk2&Hg2&Hu2&Hun2&Hcl2). wp_step.
    eapply wp_mono; [by apply register_client_spec|]. intros r k3 [Hm3 Hr]. wp_step.
    split_and!; [apply Hm3|by rewrite (proj1 (proj2 Hm3))|]. destruct r as [r|].
    { rewrite Eh in Hcl2. set_solver. }
    split; [done|]. split; [apply Hr|split; [apply Hr|]].
    by rewrite (ident_user _ _ _ (ident_moved _ _ _ Hm3)). }
  intros r k2 (Hk2&Hg2&Hr). assert (handles k2 = handles k1) as Hh2 by (unfold handles; by rewrite Hg2).
  destruct r as [c|e]; wp_step.
  - destruct Hr as [-> Ho]. split_and!; [done..|by rewrite Hh2|done].
  - eapply wp_mono; [apply (release_first_spec protected (SlotUser u) slot k k1); try done; by apply spent_refl|].
    intros [] k3 (Hk3&Hw3&Hs3). wp_step. split_and!; [done| |done]. unfold conn_hub. by rewrite Hw3.
Qed.

(** What a refusal leaves in the hub: no connection that was not there, and
    nothing at all before a user is known. *)
Definition turned_away {Raw} (hs : Handshake Raw) k k' : Prop :=
  h_clients (conn_hub k') ⊆ h_clients (conn_hub k) ∧
  ((∀ token u, hs_authenticate hs token ≠ AuthUser u) → conn_hub k' = conn_hub k).

(** The session the handshake proved. *)
Definition authenticated {Raw} (hs : Handshake Raw) (u : Z) (c : ClientRef) k' : Prop :=
  ∃ token, hs_authenticate hs token = AuthUser u ∧ opened hs token u c k'.

Definition admission {Raw} (hs : Handshake Raw) (protected : bool) k
    (r : ClientRef * option nat + Refusal) k' : Prop :=
  conn_ok k' ∧
  match r with
  | inl (c, slot) => ∃ u, c = cn_next k ∧ authenticated hs u c k' ∧
      handles k' = handles k ++ slot_of protected (SlotUser u) ∧
      slot = if protected then Some (length (handles k)) else None
  | inr _ => turned_away hs k k' ∧ spent k k'
  end.

Lemma connect_authenticate_spec {Raw} (hs : Handshake Raw) digest protected k :
  conn_ok k → allocatable k →
  wp (connect_authenticate hs digest protected) (admission hs protected k) k.
Proof.
  intros Hk Ha.
  assert (∀ r : Refusal, wp (mret (inr r)) (admission hs protected k) k) as Hno.
  { intros r. wp_step. split; [done|]. split; [by split|by apply spent_refl]. }
  unfold connect_authenticate. destruct (hs_first hs) as [event|]; [|apply Hno].
  destruct (negb _); [apply Hno|]. destruct (hs_decode _ _) as [auth|]; [|apply Hno].
  destruct (String.eqb _ ""); [apply Hno|].
  destruct (hs_authenticate _ _) as [u|u|u] eqn:Hauth; [|apply Hno..].
  eapply wp_mono; [by apply connect_user_spec|]. intros [[c slot]|r] k' [Hk' Hr].
  2:{ destruct Hr. split; [done|]. split; [split; [done|intros Hnobody; by destruct (Hnobody _ _ Hauth)]|done]. }
  destruct Hr as (->&Ho&Hh&Hs). split; [done|]. exists u. split_and!; try done. eexists; eauto.
Qed.

(** What [connect] has done when it serves the connection or returns. *)
Definition served_or_refused {Raw} (hs : Handshake Raw) (protected : bool) (ip : string) k
    (r : Session + Refusal) k' : Prop :=
  conn_ok k' ∧
  match r with
  | inl s => ∃ u, se_client s = cn_next k ∧ authenticated hs u (se_client s) k' ∧
      handles k' = handles k ++ slot_of protected (SlotIP ip) ++ slot_of protected (SlotUser u) ∧
      se_ip s = (if protected then Some (length (handles k)) else None) ∧
      se_user s = (if protected then Some (S (length (handles k))) else None)
  | inr _ => turned_away hs k k' ∧ spent k k'
  end.

Lemma connect_open_spec {Raw} (hs : Handshake Raw) digest protected ip k :
  conn_ok k → allocatable k →
  wp (connect_open hs digest protected ip) (served_or_refused hs protected ip k) k.
Proof.
  intros Hk Ha. unfold connect_open. wp_step.
  eapply wp_mono; [apply acquire_slot_spec; [done|by apply acquire_ip_spec]|].
  intros slot k1 (Hk1&Hw1&Hc1&Hn1&Hcase).
  assert (conn_hub k1 = conn_hub k) as Eh by (unfold conn_hub; by rewrite Hw1).
  destruct (protected && _).
  { wp_step. split; [done|]. split; [|by apply spent_refl]. split; by rewrite Eh. }
  destruct Hcase as [Hh1 Hslot]. wp_step. eapply (wp_mono _ (admission hs protected k1)).
  { destruct (hs_accepted hs).
    - apply connect_authenticate_spec; [done|]. split; [rewrite Hc1|rewrite Hn1, Eh]; apply Ha.
    - wp_step. split; [done|]. split; [by split|by apply spent_refl]. }
  intros r k2 [Hk2 Hr]. destruct r as [[c user]|e].
  - wp_step. destruct Hr as (u&->&Hauth&Hh2&Hs2). split; [done|]. exists u. cbn [se_client se_ip se_user].
    split_and!; [done..|by rewrite Hh2, Hh1, <- app_assoc|done|]. rewrite Hs2, Hh1, length_app.
    destruct protected; simpl; [f_equal; lia|done].
  - destruct Hr as [Hc2 Hs2]. wp_step.
    eapply wp_mono; [by apply (release_first_spec protected (SlotIP ip) slot k k1)|].
    intros [] k3 (Hk3&Hw3&Hs3). wp_step. split; [done|]. split; [|done].
    unfold turned_away, conn_hub in *. by rewrite Hw3, <- Eh.
Qed.

(** ** Counting *)

(** What a connection of [u] from [ip] adds to the counter of [p]. *)
Definition charge (protected : bool) (ip : string) (u : Z) (p : slot) : Z :=
  if protected then
    (if decide (SlotIP ip = p) then 1 else 0) + (if decide (SlotUser u = p) then 1 else 0)
  else 0.

Lemma held_app p hs hs' : held p (hs ++ hs') = (held p hs + held p hs')%Z.
Proof. unfold held. rewrite filter_app, length_app. lia. Qed.

Lemma held_spent p hs : Forall (fun h => hd_fired h = true) hs → held p hs = 0%Z.
Proof.
  induction 1 as [|h hs Hh _ IH]; [done|]. change (h :: hs) with ([h] ++ hs). rewrite held_app, IH.
  unfold held. rewrite filter_cons_False; [done|]. intros [_ E]. congruence.
Qed.

Lemma held_charge protected ip u p :
  held p (slot_of protected (SlotIP ip) ++ slot_of protected (SlotUser u)) = charge protected ip u p.
Proof.
  destruct protected; [|done]. unfold slot_of, charge. rewrite held_snoc.
  by rewrite (held_snoc p (SlotIP ip) [] : held p [_] = _).
Qed.

(** A served connection and the closures it still has to call. *)
Definition holds (protected : bool) (ip : string) (u : Z) (s : Session) k : Prop :=
  (se_ip s = None ∧ se_user s = None ∧ protected = false) ∨
  ∃ i j, i ≠ j ∧ se_ip s = Some i ∧ se_user s = Some j ∧ protected = true ∧
    handles k !! i = Some (mkHandle (SlotIP ip) false) ∧
    handles k !! j = Some (mkHandle (SlotUser u) false).

Lemma holds_open protected ip u s k k1 k2 :
  handles k1 = handles k ++ slot_of protected (SlotIP ip) ++ slot_of protected (SlotUser u) →
  se_ip s = (if protected then Some (length (handles k)) else None) →
  se_user s = (if protected then Some (S (length (handles k))) else None) →
  (∀ i, se_ip s = Some i ∨ se_user s = Some i → handles k2 !! i = handles k1 !! i) →
  holds protected ip u s k2.
Proof.
  intros Hh Hip Hus Hsame. destruct protected; [right|by left].
  exists (length (handles k)), (S (length (handles k))). split_and!; [lia|done..| |].
  - rewrite Hsame, Hh, lookup_app_r by auto. by rewrite Nat.sub_diag.
  - rewrite Hsame, Hh, lookup_app_r by (auto || lia). by rewrite Nat.sub_succ_l, Nat.sub_diag.
Qed.

Lemma release_both_spec protected ip u s k :
  conn_ok k → holds protected ip u s k →
  wp (release_slot (se_user s) ;; release_slot (se_ip s)) (fun _ k' => conn_ok k' ∧
    cn_ws k' = cn_ws k ∧
    ∀ p, held p (handles k') = (held p (handles k) - charge protected ip u p)%Z) k.
Proof.
  intros Hk [(->&->&->)|(i&j&Hij&->&->&->&Hi&Hj)]; wp_step.
  { simpl. wp_step. wp_step. split_and!; [done..|]. intros p. unfold charge. lia. }
  eapply wp_mono; [by apply (release_slot_spec k j (SlotUser u))|]. intros [] k1 (Hk1&Hw1&Hh1).
  assert (handles k1 !! i = Some (mkHandle (SlotIP ip) false)) as Hi1.
  { by rewrite Hh1, list_lookup_insert_ne. }
  eapply wp_mono; [by apply (release_slot_spec k1 i (SlotIP ip))|]. intros [] k2 (Hk2&Hw2&Hh2).
  split_and!; [done|congruence|]. intros p.
  rewrite Hh2, (held_fire p _ i _ Hi1 eq_refl : held p (<[i := mkHandle (SlotIP ip) true]> _) = _).
  rewrite Hh1, (held_fire p _ j _ Hj eq_refl : held p (<[j := mkHandle (SlotUser u) true]> _) = _).
  unfold charge. simpl. lia.
Qed.

Lemma connect_close_spec protected ip u s k :
  conn_ok k → admitted (se_client s) (conn_hub k) → holds protected ip u s k →
  wp (connect_close s) (fun _ k' => conn_ok k' ∧
    se_client s ∉ h_clients (conn_hub k') ∧ servers_of (se_client s) (conn_hub k') = ∅ ∧
    cleaned (se_client s) (conn_hub k') ∧
    ∀ p, held p (handles k') = (held p (handles k) - charge protected ip u p)%Z) k.
Proof.
  intros Hk Ha Hh. unfold connect_close. wp_step. eapply wp_mono.
  { apply (wp_hub_step _ (fun _ _ => True)); [done|].
    apply (wp_mono _ (fun _ h => kept (conn_hub k) h ∧ same_shape (conn_hub k) h)).
    - apply close_kept, (yi_inv _ (ck_sys _ Hk)).
    - intros [] h [Hkept _]. split; [by apply kept_sound|done]. }
  intros [] k1 [Hm1 _]. assert (admitted (se_client s) (conn_hub k1)) as Ha1.
  { eapply admitted_sound; [apply Hm1|done]. }
  wp_step. eapply wp_mono; [by apply unregister_conn_spec; [apply Hm1|]|].
  intros [] k2 (Hm2&Hc2&Hs2&Hcl2&_). pose proof (hub_moved_trans _ _ _ Hm1 Hm2) as Hm.
  assert (handles k2 = handles k) as Eh by (unfold handles; by rewrite (proj1 (proj2 Hm))).
  eapply wp_mono; [apply (release_both_spec protected ip u); [apply Hm|]|].
  { destruct Hh as [?|(i&j&?&?&?&?&?&?)]; [by left|right]. exists i, j. by rewrite Eh. }
  intros [] k3 (Hk3&Hw3&Hh3). unfold conn_hub in *. rewrite Hw3, Eh in *. by split_and!.
Qed.

(** ** The claims *)

Section claims.
Context {Raw : Type} (hs : Handshake Raw) (digest : string → string) (protected : bool) (ip : string).

(** The endpoint in a reachable state of the hub and of the guard. *)
Definition endpoint (y : System) g (w : Ws) (next : ClientRef) : Conn Limiter :=
  mkConn g (w <| w_hub := sy_hub y |>) (sy_counter y) next.

Definition endpoint_ok (y : System) g : Prop :=
  (1 <= cf_MaxRateEntries cfg)%Z ∧ rtc sys_step init_system y ∧
  rtc (guard_step NewLimiter AllowN) (New cfg) g.

Lemma endpoint_conn_ok y g w next : endpoint_ok y g → conn_ok (endpoint y g w next).
Proof.
  intros (Hmax&Hy&Hg). apply reachable_inv in Hy as [].
  split; [by eapply guard_reachable_inv|]. by split.
Qed.

(** C4: A websocket is served only for a user the authenticator confirmed
    twice, the second time after the client was registered with the hub, so
    that a session revoked in between cannot slip in; it is then the client
    of that user and the guard counts one connection more for the address and
    for the user, and for nobody else. After every other outcome of
    [connect] - limits, failed upgrade, bad first event, failed authentication,
    database errors, a full queue - the client is not in the hub, no other has
    been added to it, and both connection tables of the guard are as they were;
    where no user was authenticated the whole hub is as it was. (A client that
    was registered and refused afterwards was announced to the others, which
    may have filled their queues or dropped one whose queue was full already.)
    Either way [connect] returns and the hub is coherent. *)
Theorem connect_admission y g w next :
  endpoint_ok y g → (sy_counter y + 1 < 2 ^ 64)%N →
  cl_connectionID (client_at next (sy_hub y)) = "" →
  wp (connect_open hs digest protected ip) (fun r k' =>
    coherent (w_hub (cn_ws k')) ∧
    match r with
    | inl s => ∃ token u, hs_authenticate hs token = AuthUser u ∧ hs_confirm hs token = AuthUser u ∧
        user_of (se_client s) (w_hub (cn_ws k')) = u ∧
        ∀ p, slot_count p (cn_guard k') = (slot_count p g + charge protected ip u p)%Z
    | inr _ => next ∉ h_clients (w_hub (cn_ws k')) ∧
        h_clients (w_hub (cn_ws k')) ⊆ h_clients (sy_hub y) ∧
        ((∀ token u, hs_authenticate hs token ≠ AuthUser u) → w_hub (cn_ws k') = sy_hub y) ∧
        g_connectionsIP (cn_guard k') = g_connectionsIP g ∧
        g_connectionsUser (cn_guard k') = g_connectionsUser g
    end) (endpoint y g w next).
Proof.
  intros He Hlt Hfree. pose proof (endpoint_conn_ok y g w next He) as Hk.
  eapply wp_mono; [by apply connect_open_spec|]. intros r k' [Hk' Hr].
  split; [apply inv_coherent, (yi_inv _ (ck_sys _ Hk'))|]. destruct r as [s|e].
  - destruct Hr as (u&Hc&(token&Hauth&Hcf&_&Hu)&Hh&_). exists token, u. split_and!; try done. intros p.
    rewrite (slot_count_held cfg g p (ck_guard _ Hk)), (slot_count_held cfg _ p (ck_guard _ Hk')).
    fold (handles k'). rewrite Hh, held_app, held_charge. done.
  - destruct Hr as ([Hcl Hsame]&extra&Hh&Hf). assert (∀ p, held p (g_handles (cn_guard k')) = held p (g_handles g)) as Eh.
    { intros p. fold (handles k'). rewrite Hh, held_app, (held_spent p extra Hf). apply Z.add_0_r. }
    split_and!; [|exact Hcl|exact Hsame|..].
    + pose proof (fresh_unregistered _ Hk (conj Hlt Hfree)) as Hfresh. unfold conn_hub in *. set_solver.
    + exact (slots_ok_eq SlotIP _ _ _ _ _ (gi_ip _ _ (ck_guard _ Hk)) (gi_ip _ _ (ck_guard _ Hk')) Eh).
    + exact (slots_ok_eq SlotUser _ _ _ _ _ (gi_user _ _ (ck_guard _ Hk)) (gi_user _ _ (ck_guard _ Hk')) Eh).
Qed.

(** C5: Serving a websocket is a bracket. Whatever the rest of the program did
    to the hub and to the guard in between, as long as it left the two release
    closures of this connection alone, the clean-up of [connect] returns,
    leaves no trace of the client in the hub and gives back exactly the two
    connection slots that were taken when it was opened. *)
Theorem connect_bracket y g w next s k1 y2 g2 w2 next2 :
  endpoint_ok y g → (sy_counter y + 1 < 2 ^ 64)%N →
  cl_connectionID (client_at next (sy_hub y)) = "" →
  connect_open hs digest protected ip (endpoint y g w next) = Ok (inl s, k1) →
  endpoint_ok y2 g2 → se_client s ∈ sy_accepted y2 →
  (∀ i, se_ip s = Some i ∨ se_user s = Some i → g_handles g2 !! i = g_handles (cn_guard k1) !! i) →
  let u := user_of (se_client s) (w_hub (cn_ws k1)) in
  wp (connect_close s) (fun _ k' => coherent (w_hub (cn_ws k')) ∧
    se_client s ∉ h_clients (w_hub (cn_ws k')) ∧
    servers_of (se_client s) (w_hub (cn_ws k')) = ∅ ∧ cleaned (se_client s) (w_hub (cn_ws k')) ∧
    ∀ p, slot_count p (cn_guard k') = (slot_count p g2 - charge protected ip u p)%Z)
    (endpoint y2 g2 w2 next2).
Proof.
  intros He Hlt Hfree Hrun He2 Hacc Hsame u. pose proof (endpoint_conn_ok y g w next He) as Hk.
  pose proof (connect_open_spec hs digest protected ip _ Hk (conj Hlt Hfree)) as Hopen.
  apply (wp_result _ _ _ _ _ Hopen) in Hrun as (Hk1&u'&_&(token&_&_&_&Hu)&Hh&Hip&Hus).
  unfold conn_hub in Hu. fold u in Hu. subst u'. clear Hopen.
  pose proof (endpoint_conn_ok y2 g2 w2 next2 He2) as Hk2.
  eapply wp_mono; [apply (connect_close_spec protected ip u); [done| |]|].
  - by apply (yi_accepted _ (reachable_inv _ (proj1 (proj2 He2)))).
  - by apply (holds_open _ _ _ _ _ _ _ Hh Hip Hus).
  - intros [] k' (Hk'&Hc&Hs&Hcl&Hheld).
    split_and!; [apply inv_coherent, (yi_inv _ (ck_sys _ Hk'))|done..|]. intros p.
    rewrite (slot_count_held cfg g2 p (ck_guard _ Hk2)), (slot_count_held cfg _ p (ck_guard _ Hk')).
    apply Hheld.
Qed.
End claims.
End lifecycle.

(** ** The loops *)

Section loops.
Context `{MapOrder} `{!VoiceMedia} `{!StreamMedia} `{!VoiceMediaLaws _} `{!StreamMediaLaws _}.
Context (sv : Services) {Raw : Type} (de : Decoder Raw) {Limiter : Type}.
Context (Allow : Limiter → Z → bool * Limiter) (AllowN : Limiter → Z → Z → bool * Limiter).

(** The read loop handles any input to its end and keeps the hub coherent. *)
Lemma run_readLoop c reads : ∀ events relay,
  coherent_run c (readLoop sv de Allow AllowN c events relay reads).
Proof.
  induction reads as [|[now [event|]] reads IH]; intros events relay; cbn [readLoop]; [run_step| |run_step].
  apply run_bind; [by apply run_modify|]. intros _.
  destruct (match events with Some l => _ | None => _ end) as [ok events'].
  destruct (negb ok); [apply run_ret|].
  destruct (if (0 <? _)%Z then _ else _) as [ok' relay']. destruct (negb ok'); [apply run_ret|].
  apply run_bind; [apply run_handleIncomingEvent|]. intros [e|]; [apply run_ret|apply IH].
Qed.
End loops.

(** ** The session check of the write loop *)

(** The answers of the authenticator, in order. *)
Definition checks (turns : list WriteCase) : list AuthResult :=
  omap (fun t => match t with Ping a _ => Some a | _ => None end) turns.

(** The socket works and nobody closes the connection. *)
Definition undisturbed (t : WriteCase) : Prop :=
  match t with OutgoingReady written => written = true | Ping _ answered => answered = true | _ => False end.

Definition rejected (u : Z) (a : AuthResult) : Prop :=
  match a with AuthUnauthorized _ => True | AuthUser u' => u' ≠ u | AuthFailed _ => False end.
Definition failed_at (l : list AuthResult) (i : nat) : Prop := ∃ x, l !! i = Some (AuthFailed x).
Definition three_in_a_row (l : list AuthResult) : Prop :=
  ∃ i, failed_at l i ∧ failed_at l (S i) ∧ failed_at l (S (S i)).

Lemma three_reset n x u l :
  n < 3 → three_in_a_row (replicate n (AuthFailed x) ++ AuthUser u :: l) ↔ three_in_a_row l.
Proof.
  intros Hn. set (l' := _ ++ _).
  assert (∀ i, n < i → l' !! i = l !! (i - S n)) as Hafter.
  { intros i Hi. unfold l'. rewrite lookup_app_r; rewrite length_replicate; [|lia].
    by replace (i - n) with (S (i - S n)) by lia. }
  assert (¬ failed_at l' n) as Hat.
  { intros [y E]. unfold l' in E. rewrite lookup_app_r in E; rewrite length_replicate in *; [|lia].
    by rewrite Nat.sub_diag in E. }
  split; intros (i&H1&H2&H3).
  - destruct (decide (i <= n)) as [Hi|Hi].
    + exfalso. apply Hat. assert (n = i ∨ n = S i ∨ n = S (S i)) as [-> | [-> | ->]] by lia; done.
    + exists (i - S n). unfold failed_at in *. rewrite !Hafter in * by lia.
      by replace (S (i - S n)) with (S i - S n) by lia; replace (S (S i - S n)) with (S (S i) - S n) by lia.
  - exists (i + S n). unfold failed_at. rewrite !Hafter by lia.
    replace (i + S n - S n) with i by lia. replace (S (i + S n) - S n) with (S i) by lia.
    by replace (S (S (i + S n)) - S n) with (S (S i)) by lia.
Qed.

Lemma three_cons_same n x y l :
  three_in_a_row (replicate n (AuthFailed x) ++ AuthFailed y :: l) ↔
  three_in_a_row (replicate (S n) (AuthFailed x) ++ l).
Proof.
  rewrite replicate_S_end, <- app_assoc. simpl. unfold three_in_a_row, failed_at.
  assert (∀ i, (∃ z, (replicate n (AuthFailed x) ++ AuthFailed y :: l) !! i = Some (AuthFailed z)) ↔
    (∃ z, (replicate n (AuthFailed x) ++ AuthFailed x :: l) !! i = Some (AuthFailed z))) as Heq.
  { intros i. rewrite !lookup_app. destruct (replicate n _ !! i) as [a|]; [done|].
    destruct (i - length _); simpl; [naive_solver|done]. }
  by setoid_rewrite Heq.
Qed.

Section recheck.
Context `{MapOrder}.

Lemma pop_user c w :
  wp (on_hub (on_client c PopOutgoing)) (fun _ w' => user_of c (w_hub w') = user_of c (w_hub w)) w.
Proof.
  pose proof (pop_links (client_at c (w_hub w))) as Hl.
  unfold on_hub, on_client, wp in *. destruct (PopOutgoing _) as [[r cl]| |]; [|done..].
  unfold user_of. simpl. rewrite client_at_insert, decide_True by done. by rewrite (sl_user _ _ Hl).
Qed.

(** With [n] failed checks behind it. *)
Lemma write_turns_spec c turns : ∀ n w, n < 3 → Forall undisturbed turns →
  wp (write_turns c (Z.of_nat n) turns) (fun r _ =>
    (r.2 = None ↔ Forall (fun a => ¬ rejected (user_of c (w_hub w)) a) (checks turns) ∧
       ¬ three_in_a_row (replicate n (AuthFailed 0) ++ checks turns)) ∧
    ∀ e, r.2 = Some e →
      e = EndClosed StatusPolicyViolation "session expired or revoked" ∨
      e = EndClosed StatusTryAgainLater "session check temporarily unavailable") w.
Proof.
  induction turns as [|t turns IH]; intros n w Hn Hq; cbn [write_turns].
  { wp_step. simpl. split; [|done]. split; [|done]. intros _. split; [constructor|].
    rewrite app_nil_r. intros (i&_&_&[x Hx]). apply lookup_replicate in Hx. lia. }
  apply Forall_cons in Hq as [Ht Hq]. wp_step. destruct t as [| |written|a answered]; try done; simpl in Ht; subst.
  - unfold write_turn. wp_step. eapply wp_mono; [apply pop_user|]. intros popped w1 Hu.
    destruct popped; wp_step; wp_step; (eapply wp_mono; [by apply IH|]);
      rewrite Hu; intros [sent e] w2 Hr; wp_step; exact Hr.
  - unfold write_turn, client_user. wp_step. wp_step. fold (user_of c (w_hub w)).
    assert (checks (Ping a true :: turns) = a :: checks turns) as -> by done.
    destruct a as [u|u|u].
    + destruct (Z.eqb_spec u (user_of c (w_hub w))) as [->|Hne]; cbn [negb].
      * simpl. wp_step. wp_step. eapply wp_mono; [by apply (IH 0); [lia|]|]. intros [sent e] w2 [Hr He]. wp_step.
        simpl in *. split; [|done]. rewrite Hr, three_reset, Forall_cons by done. naive_solver.
      * wp_step. wp_step. simpl. rewrite Forall_cons. split; [naive_solver|]. intros e [= <-]. by left.
    + wp_step. wp_step. simpl. rewrite Forall_cons. split; [naive_solver|]. intros e [= <-]. by left.
    + destruct (Z.leb_spec 3 (Z.of_nat n + 1)) as [Hlt|Hlt]; wp_step; wp_step.
      * simpl. split; [|intros e [= <-]; by right]. split; [done|]. rewrite three_cons_same. intros [_ []].
        replace n with 2 by lia. exists 0. by split_and!; eexists.
      * replace (Z.of_nat n + 1)%Z with (Z.of_nat (S n)) by lia.
        eapply wp_mono; [apply (IH (S n)); [lia|done]|]. intros [sent e] w2 [Hr He]. wp_step.
        simpl in *. split; [|done]. rewrite Hr, three_cons_same, Forall_cons. naive_solver.
Qed.

(** While the socket works, the write loop keeps a connection open exactly
    as long as every session check was answered for the user of the connection
    or failed temporarily, never three times in a row: a revoked session, or a
    token that now belongs to somebody else, closes it at the next check, and
    so does the third consecutive failure; nothing else does, whatever is
    written in between. *)
Theorem session_recheck c turns w :
  Forall undisturbed turns →
  wp (writeLoopWithPings c turns) (fun r _ =>
    (r.2 = None ↔ Forall (fun a => ¬ rejected (user_of c (w_hub w)) a) (checks turns) ∧
       ¬ three_in_a_row (checks turns)) ∧
    ∀ e, r.2 = Some e →
      e = EndClosed StatusPolicyViolation "session expired or revoked" ∨
      e = EndClosed StatusTryAgainLater "session check temporarily unavailable") w.
Proof. intros Hq. apply (write_turns_spec c turns 0 w); [lia|done]. Qed.
End recheck.

(** ** Witnesses *)

(** User 9, whose session is valid, connects from 10.0.0.1. *)
Definition sample_handshake : Handshake AuthenticateData := {|
  hs_accepted := true;
  hs_first := Some (mkIncomingEvent "r1" EventAuthenticate (mkAuthenticateData " tok " true false));
  hs_decode := Some;
  hs_authenticate t := if String.eqb t "tok" then AuthUser 9 else AuthUnauthorized 0;
  hs_memberships u := Some [7%Z];
  hs_reads u := Some [];
  hs_confirm t := if String.eqb t "tok" then AuthUser 9 else AuthUnauthorized 0;
  hs_ready_written := true |}.

Definition sample_guard0 : Guard Bucket.t := New DefaultConfig.
Definition sample_ws : Ws := mkWs (sy_hub sample_system) ∅ 0 0.
Definition sample_opened : option (Session * Conn Bucket.t) :=
  match @connect_open key_order Bucket.t _ sample_handshake (fun t => t) true "10.0.0.1"
    (endpoint sample_system sample_guard0 sample_ws 9%positive) with
  | Ok (inl s, k) => Some (s, k)
  | _ => None
  end.
Definition sample_session : Session := mkSession 9%positive (Some 0) (Some 1).
Definition sample_conn : Conn Bucket.t :=
  default (endpoint sample_system sample_guard0 sample_ws 9%positive) (snd <$> sample_opened).

Lemma sample_endpoint_ok :
  @endpoint_ok key_order Bucket.t Bucket.NewLimiter Bucket.AllowN DefaultConfig sample_system sample_guard0.
Proof. split_and!; [vm_compute; discriminate|exact sample_reachable|apply rtc_refl]. Qed.

Lemma connect_admission_witness :
  wp (@connect_open key_order Bucket.t _ sample_handshake (fun t => t) true "10.0.0.1") (fun r k' =>
    coherent (w_hub (cn_ws k')) ∧
    match r with
    | inl s => ∃ token u, hs_authenticate sample_handshake token = AuthUser u ∧
        hs_confirm sample_handshake token = AuthUser u ∧
        user_of (se_client s) (w_hub (cn_ws k')) = u ∧
        ∀ p, slot_count p (cn_guard k') = (slot_count p sample_guard0 + charge true "10.0.0.1" u p)%Z
    | inr _ => 9%positive ∉ h_clients (w_hub (cn_ws k')) ∧
        h_clients (w_hub (cn_ws k')) ⊆ h_clients (sy_hub sample_system) ∧
        ((∀ token u, hs_authenticate sample_handshake token ≠ AuthUser u) →
           w_hub (cn_ws k') = sy_hub sample_system) ∧
        g_connectionsIP (cn_guard k') = g_connectionsIP sample_guard0 ∧
        g_connectionsUser (cn_guard k') = g_connectionsUser sample_guard0
    end) (endpoint sample_system sample_guard0 sample_ws 9%positive).
Proof.
  exact (@connect_admission key_order Bucket.t Bucket.NewLimiter Bucket.AllowN DefaultConfig _
    sample_handshake (fun t => t) true "10.0.0.1" sample_system sample_guard0 sample_ws 9%positive
    sample_endpoint_ok ltac:(vm_compute; reflexivity) ltac:(vm_compute; reflexivity)).
Defined.

Definition later_trace : list action :=
  sample_trace ++ [AConnect 9%positive 9 "tok" [7]%Z; ARegister 9%positive].
Definition later_system : System := default init_system (@HubProps.run key_order later_trace init_system).

Lemma later_reachable : rtc (@sys_step key_order) init_system later_system.
Proof. apply (run_reachable later_trace init_system). vm_compute. reflexivity. Qed.

Lemma sample_opens : @connect_open key_order Bucket.t _ sample_handshake (fun t => t) true "10.0.0.1"
  (endpoint sample_system sample_guard0 sample_ws 9%positive) = Ok (inl sample_session, sample_conn).
Proof. vm_compute. reflexivity. Qed.

Definition state_after {S A} (m : M S A) (s : S) : S := match m s with Ok (_, s') => s' | _ => s end.
Definition sample_guard1 : Guard Bucket.t := state_after (AcquireWebSocketIP "10.0.0.1") sample_guard0.
Definition later_guard : Guard Bucket.t := state_after (AcquireWebSocketUser 9) sample_guard1.

Lemma later_endpoint_ok :
  @endpoint_ok key_order Bucket.t Bucket.NewLimiter Bucket.AllowN DefaultConfig later_system later_guard.
Proof.
  split_and!; [vm_compute; discriminate|exact later_reachable|].
  apply (rtc_l _ _ sample_guard1).
  { apply (step_acquire_ip _ _ _ "10.0.0.1" (Some 0)). vm_compute. reflexivity. }
  apply (rtc_l _ _ later_guard); [|apply rtc_refl].
  apply (step_acquire_user _ _ _ 9 (Some 1)). vm_compute. reflexivity.
Qed.

Lemma connect_bracket_witness :
  wp (@connect_close key_order Bucket.t sample_session) (fun _ k' => coherent (w_hub (cn_ws k')) ∧
    9%positive ∉ h_clients (w_hub (cn_ws k')) ∧ servers_of 9%positive (w_hub (cn_ws k')) = ∅ ∧
    cleaned 9%positive (w_hub (cn_ws k')) ∧
    ∀ p, slot_count p (cn_guard k') = (slot_count p later_guard -
      charge true "10.0.0.1" (user_of 9%positive (w_hub (cn_ws sample_conn))) p)%Z)
    (endpoint later_system later_guard sample_ws 10%positive).
Proof.
  exact (@connect_bracket key_order Bucket.t Bucket.NewLimiter Bucket.AllowN DefaultConfig _
    sample_handshake (fun t => t) true "10.0.0.1" sample_system sample_guard0 sample_ws 9%positive
    sample_session sample_conn later_system later_guard sample_ws 10%positive
    sample_endpoint_ok ltac:(vm_compute; reflexivity) ltac:(vm_compute; reflexivity) sample_opens
    later_endpoint_ok ltac:(apply (bool_decide_unpack _); vm_compute; reflexivity)
    ltac:(intros i Hi; vm_compute in Hi; destruct Hi as [[= <-]|[= <-]]; vm_compute; reflexivity)).
Defined.

(** Two failures, a success and two failures keep the connection open. *)
Definition sample_turns : list WriteCase :=
  [Ping (AuthFailed 0) true; Ping (AuthFailed 0) true; OutgoingReady true; Ping (AuthUser 6) true;
   Ping (AuthFailed 0) true; Ping (AuthFailed 0) true].

Lemma session_recheck_witness :
  wp (writeLoopWithPings 3%positive sample_turns) (fun r _ =>
    (r.2 = None ↔ Forall (fun a => ¬ rejected (user_of 3%positive (w_hub sample_ws)) a) (checks sample_turns) ∧
       ¬ three_in_a_row (checks sample_turns)) ∧
    ∀ e, r.2 = Some e →
      e = EndClosed StatusPolicyViolation "session expired or revoked" ∨
      e = EndClosed StatusTryAgainLater "session check temporarily unavailable") sample_ws.
Proof.
  exact (session_recheck 3%positive sample_turns sample_ws
    ltac:(unfold sample_turns; repeat constructor)).
Defined.

Example sample_stays_open :
  match writeLoopWithPings 3%positive sample_turns sample_ws with
  | Ok ((_, None), _) => true
  | _ => false
  end = true.
Proof. vm_compute. reflexivity. Qed.
