(* ===== verification/Pagination.v ===== *)
(** * Keyset pagination of the community service

    Model of [internal/community/pagination.go] and of the listing in
    [internal/community/scheduled.go]: the parsing of page requests, the opaque
    cursors, and the two paged queries. The tables are lists of rows; an SQL
    query is the corresponding filter, sort and limit of them. *)

From stdpp Require Import sorting.
From S2P Require Import Prelude GoText.

(** ** Requests and cursors *)

(** The first value of a query parameter, if it is present. *)
Definition Query := string → option string.
Definition Has (q : Query) (name : string) : bool := bool_decide (is_Some (q name)).
Definition Get (q : Query) (name : string) : string := default "" (q name).

Inductive Error := ErrInvalid | ErrForbidden | ErrPayload.

Record pageRequest := mkPageRequest {
  pr_paged : bool; pr_limit : Z; pr_before : Z; pr_id : Z }.
#[global] Instance pageRequest_fields : Fields pageRequest := fun p =>
  mkPageRequest (pr_paged p) (pr_limit p) (pr_before p) (pr_id p).

Definition colon : Ascii.ascii := Ascii.ascii_of_nat 58.

(** [limit]. *)
Definition parse_limit (q : Query) (p : pageRequest) : pageRequest + Error :=
  if Has q "limit" then
    match Atoi (Get q "limit") with
    | Some n => if (n <? 1)%Z || (200 <? n)%Z then inr ErrInvalid else inl (p <| pr_limit := n |>)
    | None => inr ErrInvalid
    end
  else inl p.

(** A position: an activity and an identifier. *)
Definition parse_position (activity id : string) (p : pageRequest) : pageRequest + Error :=
  match ParseInt activity, ParseInt id with
  | Some a, Some i =>
      if (a <? 0)%Z || (i <? 1)%Z then inr ErrInvalid
      else inl (p <| pr_before := a |> <| pr_id := i |>)
  | _, _ => inr ErrInvalid
  end.

(** [before_id] with [before_activity], the form older clients send. *)
Definition parse_before_id (q : Query) (p : pageRequest) : pageRequest + Error :=
  if Has q "before_id" then parse_position (Get q "before_activity") (Get q "before_id") p else inl p.

(** [before], an opaque cursor. *)
Definition parse_before (q : Query) (p : pageRequest) : pageRequest + Error :=
  if Has q "before" then
    match DecodeString (Get q "before") with
    | None => inr ErrInvalid
    | Some raw =>
        if (64 <? String.length raw)%nat then inr ErrInvalid
        else match Cut raw colon with
          | None => inr ErrInvalid
          | Some (a, b) => parse_position a b p
          end
    end
  else inl p.

Definition andThen {A B E} (r : A + E) (f : A → B + E) : B + E :=
  match r with inl a => f a | inr e => inr e end.

Definition parsePage (q : Query) : pageRequest + Error :=
  let p := mkPageRequest (Has q "limit" || Has q "before") 200 0 0 in
  andThen (parse_limit q p) (fun p => andThen (parse_before_id q p) (parse_before q)).

Definition pageCursor (value id : Z) : string :=
  EncodeToString (FormatInt value +:+ ":" +:+ FormatInt id).

(** ** The keyset query *)

Section keyset.
Context {Row : Type} (at_ id_ : Row → Z).

(** [ORDER BY at DESC, id DESC]. *)
Definition sooner (x y : Row) : Prop := (at_ y < at_ x ∨ (at_ y = at_ x ∧ id_ y <= id_ x))%Z.
#[global] Instance sooner_dec x y : Decision (sooner x y).
Proof. unfold sooner. apply _. Defined.

(** [(?=0 OR at<? OR (at=? AND id<?))]. *)
Definition beyond (p : pageRequest) (y : Row) : Prop :=
  (pr_id p = 0 ∨ at_ y < pr_before p ∨ (at_ y = pr_before p ∧ id_ y < pr_id p))%Z.
#[global] Instance beyond_dec p y : Decision (beyond p y).
Proof. unfold beyond. apply _. Defined.

(** The whole query, with [LIMIT limit+1]. *)
Definition page_query (p : pageRequest) (rows : list Row) : list Row :=
  take (Z.to_nat (pr_limit p + 1)) (merge_sort sooner (filter (beyond p) rows)).

(** The answer: a plain list for clients that did not ask for pages, or a page
    with its cursor. *)
Inductive Answer (V : Type) :=
  | Plain (values : list V)
  | Paged (values : list V) (has_more : bool) (next_cursor : option string).
Arguments Plain {V}. Arguments Paged {V}.

(** [more], the truncation and [next_cursor], shared by the two handlers;
    [show] turns the row of a value into the value. *)
Definition answer {V} (p : pageRequest) (values : list (Row * V)) : Answer V :=
  let more := (pr_limit p <? Z.of_nat (length values))%Z in
  let values := if more then take (Z.to_nat (pr_limit p)) values else values in
  if negb (pr_paged p) then Plain values.*2
  else
    let next :=
      if more then
        match values !! Z.to_nat (pr_limit p - 1) with
        | Some (row, _) => Some (pageCursor (at_ row) (id_ row))
        | None => None
        end
      else None in
    Paged values.*2 more next.
End keyset.
Arguments Plain {V}. Arguments Paged {V}.

(** ** Conversations *)

(** The columns the listing reads. [cv_direct] is [direct_key IS NOT NULL] and
    [cv_saved] is [saved_owner_id IS NOT NULL]. *)
Record conversation_row := mkConversationRow {
  cv_id : Z; cv_name : string; cv_direct : bool; cv_saved : bool }.
Record member_row := mkMemberRow {
  mb_conversation : Z; mb_user : Z; mb_muted : bool; mb_last_read : Z }.
Record message_row := mkMessageRow { ms_id : Z; ms_conversation : Z; ms_author : Z }.
Record Person := mkPerson { pe_ID : Z; pe_Username : string }.

Record Tables := mkTables {
  tb_conversations : list conversation_row;
  tb_members : list member_row;
  tb_messages : list message_row;
  tb_users : list Person
}.

Record Conversation := mkConversation {
  co_LastMessageID : Z; co_ID : Z; co_Name : string; co_Direct : bool;
  co_Members : list Person; co_Unread : Z; co_Muted : bool; co_Saved : bool }.
#[global] Instance Conversation_fields : Fields Conversation := fun c =>
  mkConversation (co_LastMessageID c) (co_ID c) (co_Name c) (co_Direct c) (co_Members c)
    (co_Unread c) (co_Muted c) (co_Saved c).

(** A row of the common table expression [chats]. *)
Record chat := mkChat {
  ch_id : Z; ch_name : string; ch_direct : bool; ch_muted : bool; ch_saved : bool;
  ch_unread : Z; ch_activity : Z }.

Definition unread_count (t : Tables) (conversation last_read uid : Z) : Z :=
  Z.of_nat (length (filter (fun m => ms_conversation m = conversation ∧ (last_read < ms_id m)%Z ∧
    ms_author m ≠ uid) (tb_messages t))).

(** [COALESCE(max(id), 0)]. *)
Definition last_activity (t : Tables) (conversation : Z) : Z :=
  match ms_id <$> filter (fun m => ms_conversation m = conversation) (tb_messages t) with
  | [] => 0
  | i :: ids => foldr Z.max i ids
  end.

Definition chats (t : Tables) (uid : Z) : list chat :=
  c ← tb_conversations t;
  a ← filter (fun a => mb_conversation a = cv_id c ∧ mb_user a = uid) (tb_members t);
  mret (mkChat (cv_id c) (cv_name c) (cv_direct c) (mb_muted a) (cv_saved c)
    (unread_count t (cv_id c) (mb_last_read a) uid) (last_activity t (cv_id c))).

(** [ORDER BY a.conversation_id, u.id]. *)
Definition member_order (x y : Z * Person) : Prop :=
  (x.1 < y.1 ∨ (x.1 = y.1 ∧ pe_ID x.2 <= pe_ID y.2))%Z.
#[global] Instance member_order_dec x y : Decision (member_order x y).
Proof. unfold member_order. apply _. Defined.

(** The second query: the members of the listed conversations. *)
Definition members_query (t : Tables) (ids : list Z) : list (Z * Person) :=
  merge_sort member_order (
    a ← filter (fun a => mb_conversation a ∈ ids) (tb_members t);
    u ← filter (fun u => pe_ID u = mb_user a) (tb_users t);
    mret (mb_conversation a, u)).

(** The map [byID] from an identifier to the position of its value. *)
Definition by_id (values : list (chat * Conversation)) : gmap Z nat :=
  foldl (fun m '(i, v) => <[co_ID v.2 := i]> m) ∅ (imap pair values).

(** [byID[cid].Members = append(...)]; [None] is the nil dereference for an
    identifier that is not in the map. *)
Fixpoint add_members (byID : gmap Z nat) (rows : list (Z * Person))
    (values : list (chat * Conversation)) : option (list (chat * Conversation)) :=
  match rows with
  | [] => Some values
  | (cid, member) :: rows =>
      i ← byID !! cid;
      v ← values !! i;
      add_members byID rows (<[i := (v.1, v.2 <| co_Members ::= (.++ [member]) |>)]> values)
  end.

Definition show_chat (c : chat) : Conversation :=
  mkConversation (ch_activity c) (ch_id c) (ch_name c) (ch_direct c) [] (ch_unread c) (ch_muted c)
    (ch_saved c).

Definition listConversations (t : Tables) (uid id : Z) (p : pageRequest)
    : option (list (chat * Conversation)) :=
  let rows := page_query ch_activity ch_id p
    (filter (fun c => id = 0%Z ∨ ch_id c = id) (chats t uid)) in
  let values := (fun c => (c, show_chat c)) <$> rows in
  add_members (by_id values) (members_query t (ch_id <$> rows)) values.

(** The two handlers; the outer [option] is a panic. *)
Definition conversations (t : Tables) (q : Query) (uid : Z) : option (Answer Conversation + Error) :=
  match parsePage q with
  | inr e => Some (inr e)
  | inl p =>
      values ← listConversations t uid 0 p;
      Some (inl (answer ch_activity ch_id p values))
  end.

Definition conversation (t : Tables) (id uid : Z) : option (Conversation + Error) :=
  if (id <? 1)%Z then Some (inr ErrInvalid)
  else
    values ← listConversations t uid id (mkPageRequest false 1 0 0);
    Some (match values with [] => inr ErrForbidden | v :: _ => inl v.2 end).

(** ** Scheduled messages *)

Record scheduled_row := mkScheduledRow {
  sd_id : Z; sd_user : Z; sd_kind : string; sd_destination : Z; sd_payload : string;
  sd_send_at : Z; sd_status : string; sd_error : string; sd_attempts : Z; sd_next_attempt_at : Z }.

(** [Payload] is what [json.Unmarshal] makes of the stored text. *)
Record Scheduled (Payload : Type) := mkScheduled {
  sc_Attempts : Z; sc_NextAttemptAt : Z; sc_ID : Z; sc_Kind : string; sc_Destination : Z;
  sc_Payload : Payload; sc_SendAt : Z; sc_Status : string; sc_Error : string }.
Arguments mkScheduled {Payload}.

Section scheduled.
Context {Payload : Type} (unmarshal : string → option Payload).

Definition show_scheduled (r : scheduled_row) : option (scheduled_row * Scheduled Payload) :=
  payload ← unmarshal (sd_payload r);
  Some (r, mkScheduled (sd_attempts r) (sd_next_attempt_at r) (sd_id r) (sd_kind r)
    (sd_destination r) payload (sd_send_at r) (sd_status r) (sd_error r)).

Definition known_status (status : string) : bool :=
  bool_decide (status ∈ [""; "pending"; "sent"; "failed"; "cancelled"]).

(** The filters of the [WHERE] clause. *)
Definition wanted (uid : Z) (status kind : string) (destination : Z) (r : scheduled_row) : Prop :=
  sd_user r = uid ∧ (status = "" ∨ sd_status r = status) ∧
  (kind = "" ∨ (sd_kind r = kind ∧ sd_destination r = destination)).
#[global] Instance wanted_dec uid status kind destination r :
  Decision (wanted uid status kind destination r).
Proof. unfold wanted. apply _. Defined.

Definition parse_destination (q : Query) : Z + Error :=
  let kind := Get q "destination_kind" in
  let raw := Get q "destination_id" in
  if negb (String.eqb kind "") || negb (String.eqb raw "") then
    match ParseInt raw with
    | Some d =>
        if (d <=? 0)%Z || negb (String.eqb kind "channel" || String.eqb kind "conversation")
        then inr ErrInvalid else inl d
    | None => inr ErrInvalid
    end
  else inl 0%Z.

Definition scheduled (table : list scheduled_row) (q : Query) (uid : Z)
    : Answer (Scheduled Payload) + Error :=
  andThen (parsePage q) (fun p =>
    let status := Get q "status" in
    if negb (known_status status) then inr ErrInvalid
    else andThen (parse_destination q) (fun destination =>
      let rows := page_query sd_send_at sd_id p
        (filter (wanted uid status (Get q "destination_kind") destination) table) in
      match mapM show_scheduled rows with
      | None => inr ErrPayload
      | Some values => inl (answer sd_send_at sd_id p values)
      end)).
End scheduled.
