(* ===== verification/PaginationFacts.v ===== *)
(** * Keyset pagination: cursors round trip and pages are complete

    A cursor that [pageCursor] prints is read back by [parsePage] as the same
    position, and a client that follows the cursors sees every row once, in
    order. The second part is proved for any listing built on [page_query] and
    [answer], and instantiated for the conversations and for the scheduled
    messages. *)

From stdpp Require Import sorting.
From S2P Require Import Prelude GoText Pagination.

(** ** Cursors *)

(** The positions that fit a cursor. *)
Definition position (value id : Z) : Prop := (0 <= value < 2 ^ 63 ∧ 1 <= id < 2 ^ 63)%Z.

(** The query of a page: a limit and, after the first page, a cursor. *)
Definition page_of (limit : Z) (cursor : option string) (extra : Query) : Query := fun name =>
  if String.eqb name "limit" then Some (FormatInt limit)
  else if String.eqb name "before" then cursor
  else if String.eqb name "before_id" then None
  else extra name.

Lemma Atoi_FormatInt n : (1 <= n <= 200)%Z → Atoi (FormatInt n) = Some n.
Proof. intros Hn. apply ParseInt_FormatInt. lia. Qed.

Lemma parse_position_FormatInt v i p :
  position v i → parse_position (FormatInt v) (FormatInt i) p = inl (p <| pr_before := v |> <| pr_id := i |>).
Proof.
  intros [Hv Hi]. unfold parse_position. rewrite !ParseInt_FormatInt by lia.
  by rewrite (proj2 (Z.ltb_ge _ _)), (proj2 (Z.ltb_ge _ _)) by lia.
Qed.

Lemma string_length_app a b : String.length (a +:+ b) = String.length a + String.length b.
Proof. induction a as [|c a IH]; simpl; [done|by rewrite IH]. Qed.

Lemma decode_cursor v i :
  position v i → DecodeString (pageCursor v i) = Some (FormatInt v +:+ ":" +:+ FormatInt i) ∧
  Cut (FormatInt v +:+ ":" +:+ FormatInt i) colon = Some (FormatInt v, FormatInt i) ∧
  String.length (FormatInt v +:+ ":" +:+ FormatInt i) ≤ 64.
Proof.
  intros [Hv _]. split_and!; [apply DecodeString_EncodeToString| |].
  - apply Cut_app, FormatInt_no_colon. lia.
  - rewrite !string_length_app. pose proof (length_FormatInt v). pose proof (length_FormatInt i).
    simpl. lia.
Qed.

Lemma parse_limit_page limit cursor extra p :
  (1 <= limit <= 200)%Z →
  parse_limit (page_of limit cursor extra) p = inl (p <| pr_limit := limit |>).
Proof.
  intros Hl. unfold parse_limit.
  change (Get (page_of limit cursor extra) "limit") with (FormatInt limit).
  change (Has (page_of limit cursor extra) "limit") with true. rewrite Atoi_FormatInt by done.
  by rewrite (proj2 (Z.ltb_ge _ _)), (proj2 (Z.ltb_ge _ _)) by lia.
Qed.

Lemma parsePage_first limit extra :
  (1 <= limit <= 200)%Z → parsePage (page_of limit None extra) = inl (mkPageRequest true limit 0 0).
Proof. intros Hl. unfold parsePage. by rewrite parse_limit_page. Qed.

Lemma parsePage_cursor limit v i extra :
  (1 <= limit <= 200)%Z → position v i →
  parsePage (page_of limit (Some (pageCursor v i)) extra) = inl (mkPageRequest true limit v i).
Proof.
  intros Hl Hp. unfold parsePage. rewrite parse_limit_page by done.
  destruct (decode_cursor v i Hp) as (Hd&Hcut&Hlen). cbn [andThen].
  change (parse_before_id _ ?p) with (inl p : pageRequest + Error). cbn [andThen]. unfold parse_before.
  change (Get _ "before") with (pageCursor v i). rewrite Hd, Hcut.
  rewrite (proj2 (Nat.ltb_ge _ _)) by done. by rewrite parse_position_FormatInt.
Qed.

(** Cursors round trip: for every activity and identifier a row can have
    and every page size a client may ask for, the cursor printed for the row,
    sent back as [before], is accepted and read as exactly that position; two
    rows never share a cursor. *)
Theorem parsePage_pageCursor limit v i :
  (1 <= limit <= 200)%Z → position v i →
  (∀ extra, parsePage (page_of limit (Some (pageCursor v i)) extra) = inl (mkPageRequest true limit v i)) ∧
  ∀ v' i', position v' i' → pageCursor v' i' = pageCursor v i → v' = v ∧ i' = i.
Proof.
  intros Hl Hp. split; [intros extra; by apply parsePage_cursor|]. intros v' i' Hp' He.
  pose proof (parsePage_cursor limit v' i' (fun _ => None) Hl Hp') as H1. rewrite He in H1.
  rewrite parsePage_cursor in H1 by done. by injection H1.
Qed.

Lemma parsePage_pageCursor_witness :
  (∀ extra, parsePage (page_of 50 (Some (pageCursor 9000000000000000000 17)) extra) =
    inl (mkPageRequest true 50 9000000000000000000 17)) ∧
  ∀ v' i', position v' i' → pageCursor v' i' = pageCursor 9000000000000000000 17 →
    v' = 9000000000000000000%Z ∧ i' = 17%Z.
Proof.
  exact (parsePage_pageCursor 50 9000000000000000000 17 ltac:(lia) ltac:(unfold position; lia)).
Defined.

(** ** Pages of a sorted listing *)

Section keyset.
Context {Row : Type} (at_ id_ : Row → Z).
Notation sooner := (sooner at_ id_).
Notation sorted := (merge_sort sooner).

#[global] Instance sooner_trans : Transitive sooner.
Proof. intros x y z. unfold Pagination.sooner. lia. Qed.
#[global] Instance sooner_total : Total sooner.
Proof. intros x y. unfold Pagination.sooner. lia. Qed.

(** Rows have distinct identifiers and valid positions. *)
Record keyed (rows : list Row) : Prop := {
  kd_ids : NoDup (id_ <$> rows);
  kd_pos : Forall (fun r => position (at_ r) (id_ r)) rows
}.

Lemma keyed_inj rows x y : keyed rows → x ∈ rows → y ∈ rows → id_ x = id_ y → x = y.
Proof.
  intros [Hn _] [i Hi]%list_elem_of_lookup [j Hj]%list_elem_of_lookup He.
  assert (i = j) as ->; [|congruence].
  eapply (NoDup_lookup _ _ _ _ Hn); rewrite list_lookup_fmap; [by rewrite Hi|by rewrite Hj, He].
Qed.

Lemma keyed_sublist rows rows' : keyed rows → rows' ≡ₚ rows → keyed rows'.
Proof. intros [Hn Hp] Hs. split; by rewrite Hs. Qed.

Lemma filter_nothing {A} (P : A → Prop) `{∀ x, Decision (P x)} (l : list A) :
  (∀ x, x ∈ l → ¬ P x) → filter P l = [].
Proof.
  induction l as [|x l IH]; intros HP; [done|].
  rewrite filter_cons_False by (apply HP; set_solver). apply IH. set_solver.
Qed.

(** Rows in the listing order are determined by their set. *)
Lemma sorted_unique rows l :
  keyed rows → l ≡ₚ rows → StronglySorted sooner l → sorted rows = l.
Proof.
  intros Hk Hp Hl. apply (StronglySorted_unique_strong sooner).
  - intros x y Hx Hy H1 H2. rewrite merge_sort_Permutation in Hx. rewrite Hp in Hy.
    apply (keyed_inj rows); try done. unfold Pagination.sooner in *. lia.
  - apply StronglySorted_merge_sort; apply _.
  - done.
  - by rewrite merge_sort_Permutation.
Qed.

Lemma beyond_last p x y :
  pr_before p = at_ x → pr_id p = id_ x → (1 <= id_ x)%Z →
  beyond at_ id_ p y ↔ sooner x y ∧ (at_ x, id_ x) ≠ (at_ y, id_ y).
Proof.
  intros Hb Hi Hpos. unfold beyond, Pagination.sooner. rewrite Hb, Hi. split.
  - intros [?|[?|?]]; [lia|..]; (split; [lia|intros [= ? ?]; lia]).
  - intros [[?|[? ?]] Hne]; [lia|]. right; right. split; [done|].
    assert (id_ x ≠ id_ y) by (intros E; apply Hne; congruence). lia.
Qed.

(** The rows beyond a row of the listing are those that follow it. *)
Lemma beyond_suffix rows p pre x post :
  keyed rows → sorted rows = pre ++ x :: post → pr_before p = at_ x → pr_id p = id_ x →
  sorted (filter (beyond at_ id_ p) rows) = post.
Proof.
  intros Hk Hs Hb Hi. assert (keyed (pre ++ x :: post)) as Hk'.
  { rewrite <- Hs. apply (keyed_sublist rows); [done|apply merge_sort_Permutation]. }
  pose proof (StronglySorted_merge_sort sooner rows) as Hss. rewrite Hs in Hss.
  assert (position (at_ x) (id_ x)) as [_ [Hpos _]].
  { exact (proj1 (Forall_forall _ _) (kd_pos _ Hk') x ltac:(set_solver)). }
  assert (filter (beyond at_ id_ p) (pre ++ x :: post) = post) as Hf.
  { apply StronglySorted_app in Hss as (Hpre&_&Hxp). apply StronglySorted_cons in Hxp as [Hx _].
    rewrite filter_app, filter_nothing, filter_cons_False, filter_all; [done|..].
    - intros y Hy. apply (beyond_last p x); [done..|]. split; [by eapply Forall_forall in Hx|].
      intros [= Ha Hid]. pose proof (kd_ids _ Hk') as Hn. rewrite fmap_app, fmap_cons in Hn.
      apply NoDup_app in Hn as (_&_&Hn). apply NoDup_cons in Hn as [Hn _]. rewrite Hid in Hn.
      apply Hn. by apply list_elem_of_fmap_2.
    - rewrite (beyond_last p x) by done. by intros [_ ?].
    - intros y Hy. rewrite (beyond_last p x) by done. intros [Hxy Hne].
      assert (sooner y x) as Hyx by (apply Hpre; set_solver).
      apply Hne. unfold Pagination.sooner in *. f_equal; lia. }
  apply sorted_unique.
  - split; [|by apply Forall_filter_sub, Hk]. eapply sublist_NoDup; [apply Hk|].
    apply fmap_sublist, sublist_filter.
  - rewrite <- Hf, <- Hs. by rewrite merge_sort_Permutation.
  - apply StronglySorted_app in Hss as (_&_&Hxp). by apply StronglySorted_cons in Hxp as [_ ?].
Qed.

(** *** Following the cursors *)

(** A client that asks for pages until [has_more] is false. *)
Fixpoint crawl {V} (fetch : option string → option (Answer V)) (fuel : nat) (cursor : option string)
    : option (list V) :=
  match fuel with
  | O => None
  | S fuel =>
      match fetch cursor with
      | Some (Paged values more next) =>
          if more then rest ← crawl fetch fuel next; Some (values ++ rest) else Some values
      | _ => None
      end
  end.

Section crawling.
Context {V : Type} (limit : Z) (rows : list Row) (good : Row → V → Prop).
Context (fetch : option string → option (Answer V)).
Context (Hlimit : (1 <= limit <= 200)%Z) (Hrows : keyed rows).

(** [fetch] answers the page of [p] with good values. *)
Definition answers (cursor : option string) (p : pageRequest) : Prop :=
  ∃ values, fetch cursor = Some (answer at_ id_ p values) ∧
    values.*1 = page_query at_ id_ p rows ∧ Forall (fun rv => good rv.1 rv.2) values.
Context (Hfetch : answers None (mkPageRequest true limit 0 0)).
Context (Hnext : ∀ v i, position v i → answers (Some (pageCursor v i)) (mkPageRequest true limit v i)).

Lemma page_all : page_query at_ id_ (mkPageRequest true limit 0 0) rows =
  take (Z.to_nat (limit + 1)) (sorted rows).
Proof. unfold page_query. simpl. rewrite filter_all; [done|]. intros r _. by left. Qed.

(** The rest of the listing from a page request on. *)
Lemma crawl_from fuel : ∀ cursor p pre post,
  answers cursor p → pr_limit p = limit → pr_paged p = true → sorted rows = pre ++ post →
  page_query at_ id_ p rows = take (Z.to_nat (limit + 1)) post → length post < fuel →
  ∃ L, crawl fetch fuel cursor = Some L.*2 ∧ L.*1 = post ∧ Forall (fun rv => good rv.1 rv.2) L.
Proof.
  induction fuel as [|fuel IH]; intros cursor p pre post Hans Hpl Hpp Hs Hq Hf; [lia|].
  destruct Hans as (values&Hfe&Hv1&Hgood). cbn [crawl]. rewrite Hfe. unfold answer. rewrite Hpp, Hpl.
  rewrite Hq in Hv1. assert (length values = length (take (Z.to_nat (limit + 1)) post)) as Hlen
    by (by rewrite <- Hv1, length_fmap).
  rewrite length_take in Hlen. cbn [negb].
  destruct (Z.ltb_spec limit (Z.of_nat (length values))) as [Hmore|Hall].
  - set (n := Z.to_nat limit). assert (Z.to_nat (limit + 1) = S n) as En by lia.
    assert (Z.to_nat (limit - 1) = n - 1) as -> by lia. rewrite En in *.
    assert (n < length post) as Hn by lia. assert (0 < n) as Hn0 by lia.
    destruct (lookup_lt_is_Some_2 post (n - 1)) as [row Hrow]; [lia|].
    assert (∃ v, values !! (n - 1) = Some (row, v)) as [v Hv].
    { assert (values.*1 !! (n - 1) = Some row) as H1 by (rewrite Hv1, lookup_take_lt by lia; done).
      rewrite list_lookup_fmap in H1. destruct (values !! (n - 1)) as [[r v]|]; [|done].
      injection H1 as ->. eauto. }
    rewrite lookup_take_lt, Hv by lia.
    assert (sorted rows = (pre ++ take (n - 1) post) ++ row :: drop n post) as Hmid.
    { rewrite <- app_assoc, Hs. f_equal. rewrite <- (take_drop_middle post (n - 1) row Hrow) at 1.
      by replace (S (n - 1)) with n by lia. }
    assert (position (at_ row) (id_ row)) as Hpos.
    { apply (proj1 (Forall_forall _ _) (kd_pos _ Hrows)).
      rewrite <- (merge_sort_Permutation sooner rows), Hmid. set_solver. }
    destruct (IH (Some (pageCursor (at_ row) (id_ row))) (mkPageRequest true limit (at_ row) (id_ row))
      (pre ++ take n post) (drop n post)) as (L&HL&HL1&HLg); [by apply Hnext|done..| | | |].
    + by rewrite <- app_assoc, take_drop.
    + unfold page_query. rewrite (beyond_suffix rows _ _ row (drop n post) Hrows Hmid) by done.
      simpl. by rewrite En.
    + rewrite length_drop. lia.
    + exists (take n values ++ L). rewrite HL. split_and!.
      * simpl. by rewrite fmap_app.
      * rewrite fmap_app, HL1, fmap_take, Hv1, take_take.
        replace (n `min` S n) with n by lia. apply take_drop.
      * apply Forall_app. split; [by apply Forall_take|done].
  - exists values. split_and!; try done. rewrite Hv1. apply take_ge. lia.
Qed.

Lemma crawl_complete fuel :
  length rows < fuel →
  ∃ L, crawl fetch fuel None = Some L.*2 ∧ L.*1 = sorted rows ∧ Forall (fun rv => good rv.1 rv.2) L.
Proof.
  intros Hf. eapply (crawl_from _ _ _ [] (sorted rows)); [exact Hfetch|done..| |].
  - apply page_all.
  - by rewrite merge_sort_Permutation.
Qed.
End crawling.
End keyset.

(** ** Conversations *)

(** The constraints of the schema: primary keys, and identifiers that SQLite
    hands out from one upwards. *)
Record tables_ok (t : Tables) : Prop := {
  to_conversations : NoDup (cv_id <$> tb_conversations t);
  to_members : NoDup ((fun a => (mb_conversation a, mb_user a)) <$> tb_members t);
  to_ids : Forall (fun c => 1 <= cv_id c < 2 ^ 63)%Z (tb_conversations t);
  to_messages : Forall (fun m => 1 <= ms_id m < 2 ^ 63)%Z (tb_messages t)
}.

Lemma NoDup_bind_key {A B} (key : A → Z) (key' : B → Z) (f : A → list B) (l : list A) :
  NoDup (key <$> l) → (∀ x y, y ∈ f x → key' y = key x) → (∀ x, length (f x) ≤ 1) →
  NoDup (key' <$> (l ≫= f)).
Proof.
  intros Hn Hkey Hlen. induction l as [|x l IH]; [constructor|].
  apply NoDup_cons in Hn as [Hx Hn]. rewrite bind_cons, fmap_app. apply NoDup_app. split_and!.
  - specialize (Hlen x). destruct (f x) as [|y [|]]; simpl in *; [constructor|apply NoDup_singleton|lia].
  - intros k (y&->&Hy)%list_elem_of_fmap (y'&Hk&Hy')%list_elem_of_fmap.
    apply list_elem_of_bind in Hy' as (x'&Hy'&Hx'). apply Hx.
    rewrite <- (Hkey x y Hy), Hk, (Hkey x' y' Hy'). by apply list_elem_of_fmap_2.
  - by apply IH.
Qed.

Lemma one_membership t c uid :
  tables_ok t → length (filter (fun a => mb_conversation a = c ∧ mb_user a = uid) (tb_members t)) ≤ 1.
Proof.
  intros Ht. pose proof (to_members _ Ht) as Hn. induction (tb_members t) as [|a l IH]; [simpl; lia|].
  apply NoDup_cons in Hn as [Ha Hn]. rewrite filter_cons. case_decide as Hc; [|by apply IH].
  rewrite filter_nothing; [simpl; lia|]. intros b Hb Hbc. apply Ha.
  destruct Hc as [-> ->], Hbc as [<- <-]. by apply (list_elem_of_fmap_2 (fun a => (mb_conversation a, mb_user a))).
Qed.

Lemma chats_elem t uid c :
  c ∈ chats t uid → (∃ r, r ∈ tb_conversations t ∧ ch_id c = cv_id r) ∧ ch_activity c = last_activity t (ch_id c).
Proof.
  unfold chats. intros (r&Hc&Hr)%list_elem_of_bind. apply list_elem_of_bind in Hc as (a&Hc&_).
  apply list_elem_of_singleton in Hc as ->. simpl. eauto.
Qed.

Lemma foldr_max_bounds l x lo hi :
  (lo <= x < hi)%Z → Forall (fun y => lo <= y < hi)%Z l → (lo <= foldr Z.max x l < hi)%Z.
Proof. intros Hx. induction 1; simpl; [done|lia]. Qed.

Lemma last_activity_bounds t c : tables_ok t → (0 <= last_activity t c < 2 ^ 63)%Z.
Proof.
  intros Ht. unfold last_activity.
  assert (Forall (fun y => 1 <= y < 2 ^ 63)%Z
    (ms_id <$> filter (fun m => ms_conversation m = c) (tb_messages t))) as Hall.
  { apply Forall_fmap, Forall_filter_sub, (to_messages _ Ht). }
  destruct (ms_id <$> _) as [|i ids]; [lia|]. apply Forall_cons in Hall as [Hi Hall].
  pose proof (foldr_max_bounds ids i 1 (2 ^ 63) Hi Hall). lia.
Qed.

Lemma chats_keyed t uid : tables_ok t → keyed ch_activity ch_id (chats t uid).
Proof.
  intros Ht. split.
  - unfold chats. apply (NoDup_bind_key cv_id ch_id); [apply Ht| |].
    + intros c y (a&Hy&_)%list_elem_of_bind. by apply list_elem_of_singleton in Hy as ->.
    + intros c. pose proof (one_membership t (cv_id c) uid Ht).
      destruct (filter _ (tb_members t)) as [|a [|]]; simpl in *; lia.
  - apply Forall_forall. intros c Hc. apply chats_elem in Hc as [(r&Hr&->) ->].
    split; [apply last_activity_bounds, Ht|]. exact (proj1 (Forall_forall _ _) (to_ids _ Ht) r Hr).
Qed.

(** *** The members of the listed conversations *)

Lemma by_id_snoc l v : by_id (l ++ [v]) = <[co_ID v.2 := length l]> (by_id l).
Proof. unfold by_id. rewrite imap_app, foldl_app. simpl. by rewrite Nat.add_0_r. Qed.

Lemma by_id_spec l k i :
  NoDup ((fun v => co_ID v.2) <$> l) →
  by_id l !! k = Some i ↔ ∃ v, l !! i = Some v ∧ co_ID v.2 = k.
Proof.
  revert k i. induction l as [|v l IH] using rev_ind; intros k i Hn.
  { unfold by_id. simpl. rewrite lookup_empty. naive_solver. }
  rewrite fmap_app in Hn. apply NoDup_app in Hn as (Hn&Hv&_). rewrite by_id_snoc, lookup_insert.
  case_decide as Hk.
  - subst k. split.
    + intros [= <-]. exists v. by rewrite list_lookup_middle.
    + intros (v'&Hl&Hk'). destruct (decide (i < length l)) as [Hi|Hi].
      * rewrite lookup_app_l in Hl by done. exfalso. apply (Hv (co_ID v'.2)); [|set_solver].
        apply (list_elem_of_fmap_2 (fun v => co_ID v.2)). by eapply list_elem_of_lookup_2.
      * apply lookup_lt_Some in Hl. rewrite length_app in Hl. simpl in Hl. f_equal. lia.
  - rewrite IH by done. split; intros (v'&Hl&Hk'); exists v'; (split; [|done]).
    + by apply lookup_app_l_Some.
    + apply lookup_app_Some in Hl as [?|[_ Hl]]; [done|].
      apply list_lookup_singleton_Some in Hl as [_ <-]. done.
Qed.

Definition joined (v : chat * Conversation) (members : list Person) : chat * Conversation :=
  (v.1, v.2 <| co_Members ::= (.++ members) |>).

Lemma joined_nil v : joined v [] = v.
Proof. destruct v as [c []]. unfold joined, update_with. simpl. by rewrite app_nil_r. Qed.

Lemma joined_cons v m l : joined (joined v [m]) l = joined v (m :: l).
Proof. destruct v as [c []]. unfold joined, update_with. simpl. by rewrite <- app_assoc. Qed.

(** The rows of the second query that go to the value at [i]. *)
Definition rows_at (byID : gmap Z nat) (i : nat) (rows : list (Z * Person)) : list Person :=
  (filter (fun r => byID !! r.1 = Some i) rows).*2.

Lemma add_members_spec byID rows : ∀ values,
  (∀ r, r ∈ rows → ∃ i, byID !! r.1 = Some i ∧ i < length values) →
  ∃ values', add_members byID rows values = Some values' ∧
    ∀ i, values' !! i = (fun v => joined v (rows_at byID i rows)) <$> values !! i.
Proof.
  induction rows as [|[cid m] rows IH]; intros values Hok; simpl.
  { exists values. split; [done|]. intros i. destruct (values !! i) as [v|]; simpl; [|done].
    by rewrite joined_nil. }
  destruct (Hok (cid, m)) as (i&Hi&Hlt); [set_solver|]. simpl in Hi. rewrite Hi. simpl.
  destruct (lookup_lt_is_Some_2 _ _ Hlt) as [v Hv]. rewrite Hv. simpl.
  destruct (IH (<[i := (v.1, v.2 <| co_Members ::= (.++ [m]) |>)]> values)) as (values'&Hrun&Hall).
  { intros r Hr. rewrite length_insert. apply Hok. set_solver. }
  exists values'. split; [exact Hrun|]. intros j. rewrite Hall. unfold rows_at.
  destruct (decide (i = j)) as [<-|Hne].
  - rewrite list_lookup_insert_eq, Hv by done. rewrite filter_cons_True by done. simpl.
    f_equal. apply joined_cons.
  - rewrite list_lookup_insert_ne by done. rewrite filter_cons_False by (simpl; rewrite Hi; congruence). done.
Qed.

Lemma members_query_elem t ids cid u :
  (cid, u) ∈ members_query t ids ↔ cid ∈ ids ∧ u ∈ tb_users t ∧
    ∃ a, a ∈ tb_members t ∧ mb_conversation a = cid ∧ mb_user a = pe_ID u.
Proof.
  unfold members_query. rewrite merge_sort_Permutation, list_elem_of_bind. split.
  - intros (a&Hin&Ha). apply list_elem_of_filter in Ha as [Hids Ha].
    apply list_elem_of_bind in Hin as (u'&Hin&Hu). apply list_elem_of_filter in Hu as [Hu Hin'].
    apply list_elem_of_singleton in Hin as [= -> ->]. split_and!; [done..|]. by exists a.
  - intros (Hids&Hu&a&Ha&<-&Hau). exists a. split; [|by apply list_elem_of_filter].
    apply list_elem_of_bind. exists u. split; [by apply list_elem_of_singleton|].
    by apply list_elem_of_filter.
Qed.

(** The conversation [v] shown for the row [c]. *)
Definition shows (t : Tables) (c : chat) (v : Conversation) : Prop :=
  (∃ members, v = (show_chat c) <| co_Members := members |>) ∧
  ∀ u, u ∈ co_Members v ↔ u ∈ tb_users t ∧
    ∃ a, a ∈ tb_members t ∧ mb_conversation a = ch_id c ∧ mb_user a = pe_ID u.

Lemma rows_at_elem byID i rows u :
  u ∈ rows_at byID i rows ↔ ∃ cid, byID !! cid = Some i ∧ (cid, u) ∈ rows.
Proof.
  unfold rows_at. rewrite list_elem_of_fmap. split.
  - intros ([cid u']&->&[H1 H2]%list_elem_of_filter). eauto.
  - intros (cid&H1&H2). exists (cid, u). split; [done|]. by apply list_elem_of_filter.
Qed.

Lemma page_query_keyed {Row} (at_ id_ : Row → Z) p rows :
  keyed at_ id_ rows → NoDup (id_ <$> page_query at_ id_ p rows) ∧
    ∀ r, r ∈ page_query at_ id_ p rows → r ∈ rows.
Proof.
  intros Hk. unfold page_query. split.
  - eapply sublist_NoDup; [|apply fmap_sublist, sublist_take]. rewrite merge_sort_Permutation.
    eapply sublist_NoDup; [apply Hk|]. apply fmap_sublist, sublist_filter.
  - intros r (i&Hr&_)%elem_of_take. apply list_elem_of_lookup_2 in Hr. rewrite merge_sort_Permutation in Hr. by apply list_elem_of_filter in Hr as [_ ?].
Qed.

Lemma listConversations_spec t uid id p :
  tables_ok t →
  let rows := filter (fun c => id = 0%Z ∨ ch_id c = id) (chats t uid) in
  ∃ values, listConversations t uid id p = Some values ∧
    values.*1 = page_query ch_activity ch_id p rows ∧ Forall (fun cv => shows t cv.1 cv.2) values.
Proof.
  intros Ht rows. assert (keyed ch_activity ch_id rows) as Hk.
  { destruct (chats_keyed t uid Ht) as [Hn Hp]. split; [|by apply Forall_filter_sub].
    eapply sublist_NoDup; [exact Hn|]. apply fmap_sublist, sublist_filter. }
  destruct (page_query_keyed _ _ p rows Hk) as [Hnd _].
  unfold listConversations. fold rows. set (page := page_query _ _ p rows) in *.
  set (values := (fun c => (c, show_chat c)) <$> page).
  assert ((fun v => co_ID v.2) <$> values = ch_id <$> page) as Hids.
  { unfold values. by rewrite <- list_fmap_compose. }
  assert (∀ i c, page !! i = Some c → by_id values !! ch_id c = Some i) as Hby.
  { intros i c Hc. apply by_id_spec; [by rewrite Hids|]. exists (c, show_chat c). split; [|done].
    unfold values. by rewrite list_lookup_fmap, Hc. }
  destruct (add_members_spec (by_id values) (members_query t (ch_id <$> page)) values) as (values'&Hrun&Hall).
  { intros [cid u] (Hin&_)%members_query_elem. apply list_elem_of_fmap in Hin as (c&->&[i Hi]%list_elem_of_lookup).
    exists i. split; [by apply Hby|]. unfold values. rewrite length_fmap. by eapply lookup_lt_Some. }
  exists values'. split; [exact Hrun|]. split.
  - apply list_eq. intros i. rewrite list_lookup_fmap, Hall. unfold values. rewrite list_lookup_fmap.
    by destruct (page !! i).
  - apply Forall_lookup. intros i v Hv. rewrite Hall in Hv. unfold values in Hv. rewrite list_lookup_fmap in Hv.
    destruct (page !! i) as [c|] eqn:Hc; [|done]. injection Hv as <-. split; [by eexists|].
    intros u. simpl. rewrite rows_at_elem. split.
    + intros (cid&Hb&(Hin&Hu&a&Ha&Hca&Hau)%members_query_elem).
      apply by_id_spec in Hb as (v'&Hv'&Hcid); [|fold values; by rewrite Hids]. unfold values in Hv'.
      rewrite list_lookup_fmap, Hc in Hv'. injection Hv' as <-. simpl in Hcid. subst cid. naive_solver.
    + intros (Hu&a&Ha&Hca&Hau). exists (ch_id c). split; [by apply Hby|]. apply members_query_elem.
      split_and!; [|done|by exists a]. apply list_elem_of_fmap_2. by eapply list_elem_of_lookup_2.
Qed.

(** The pages of [GET conversations] as a client receives them. *)
Definition conversation_pages (t : Tables) (uid limit : Z) (extra : Query) (cursor : option string)
    : option (Answer Conversation) :=
  r ← conversations t (page_of limit cursor extra) uid;
  match r with inl a => Some a | inr _ => None end.

Lemma conversation_answers t uid limit extra cursor p :
  tables_ok t → parsePage (page_of limit cursor extra) = inl p →
  answers ch_activity ch_id (chats t uid) (shows t) (conversation_pages t uid limit extra) cursor p.
Proof.
  intros Ht Hp. destruct (listConversations_spec t uid 0 p Ht) as (values&Hrun&Hv&Hg).
  rewrite filter_all in Hv by (intros; by left). exists values.
  unfold conversation_pages, conversations. by rewrite Hp, Hrun.
Qed.

(** C31: Paging through the conversations is complete. A client that asks for
    pages of any admissible size and follows the cursors until [has_more] is
    false gets every conversation of the user exactly once, the most recently
    active first, each with the row's own values and with exactly its members;
    every page parses, no page fails, and no more pages are needed than there
    are conversations, plus one. *)
Theorem conversations_complete t uid limit extra :
  tables_ok t → (1 <= limit <= 200)%Z →
  ∃ L : list (chat * Conversation),
    crawl (conversation_pages t uid limit extra) (S (length (chats t uid))) None = Some L.*2 ∧
    L.*1 ≡ₚ chats t uid ∧ StronglySorted (sooner ch_activity ch_id) L.*1 ∧
    NoDup (co_ID <$> L.*2) ∧ Forall (fun cv => shows t cv.1 cv.2) L.
Proof.
  intros Ht Hl. pose proof (chats_keyed t uid Ht) as Hk.
  destruct (crawl_complete ch_activity ch_id limit (chats t uid) (shows t)
    (conversation_pages t uid limit extra) Hl Hk) with (fuel := S (length (chats t uid))) as (L&HL&H1&Hg).
  - by apply conversation_answers, parsePage_first.
  - intros v i Hp. by apply conversation_answers, parsePage_cursor.
  - lia.
  - exists L. assert (L.*1 ≡ₚ chats t uid) as Hperm by (rewrite H1; apply merge_sort_Permutation).
    split_and!; [done|done| | |done].
    + rewrite H1. apply StronglySorted_merge_sort; apply _.
    + assert (co_ID <$> L.*2 = ch_id <$> L.*1) as ->; [|rewrite Hperm; apply Hk].
      rewrite <- !list_fmap_compose. apply list_fmap_ext. intros i [c v] Hcv.
      destruct (proj1 (Forall_lookup _ _) Hg i _ Hcv) as [[members Hm] _]. simpl in *. by rewrite Hm.
Qed.

(** *** A concrete instance *)

Definition sample_tables : Tables := {|
  tb_conversations := [mkConversationRow 1 "a" false false; mkConversationRow 2 "" true false;
    mkConversationRow 3 "c" false false; mkConversationRow 4 "d" false true];
  tb_members := [mkMemberRow 1 7 false 0; mkMemberRow 2 7 true 10; mkMemberRow 2 8 false 0;
    mkMemberRow 3 8 false 0; mkMemberRow 4 7 false 0];
  tb_messages := [mkMessageRow 10 1 8; mkMessageRow 11 2 8; mkMessageRow 12 2 7; mkMessageRow 13 3 8];
  tb_users := [mkPerson 7 "ann"; mkPerson 8 "bob"] |}.

Lemma sample_tables_ok : tables_ok sample_tables.
Proof. split; try (apply (bool_decide_unpack _); vm_compute; exact I); repeat constructor; simpl; lia. Qed.

Lemma conversations_complete_witness :
  ∃ L : list (chat * Conversation),
    crawl (conversation_pages sample_tables 7 1 (fun _ => None)) 4 None = Some L.*2 ∧
    co_ID <$> L.*2 = [2; 1; 4]%Z ∧ (fun v => pe_ID <$> co_Members v) <$> L.*2 = [[7; 8]; [7]; [7]]%Z.
Proof.
  destruct (conversations_complete sample_tables 7 1 (fun _ => None) sample_tables_ok ltac:(lia))
    as (L&HL&_). change (S (length (chats sample_tables 7))) with 4 in HL. exists L. split; [done|].
  assert (crawl (conversation_pages sample_tables 7 1 (fun _ => None)) 4 None =
    Some (default [] (crawl (conversation_pages sample_tables 7 1 (fun _ => None)) 4 None))) as E
    by (vm_compute; reflexivity).
  rewrite E in HL. injection HL as <-. vm_compute. split; reflexivity.
Defined.

(** ** Scheduled messages *)

Section scheduled.
Context {Payload : Type} (unmarshal : string → option Payload).

Definition scheduled_pages (table : list scheduled_row) (uid limit : Z) (extra : Query)
    (cursor : option string) : option (Answer (Scheduled Payload)) :=
  match scheduled unmarshal table (page_of limit cursor extra) uid with inl a => Some a | inr _ => None end.

Definition shows_scheduled (r : scheduled_row) (v : Scheduled Payload) : Prop :=
  show_scheduled unmarshal r = Some (r, v).

Lemma mapM_show rows :
  Forall (fun r => is_Some (unmarshal (sd_payload r))) rows →
  ∃ values, mapM (show_scheduled unmarshal) rows = Some values ∧ values.*1 = rows ∧
    Forall (fun rv => shows_scheduled rv.1 rv.2) values.
Proof.
  induction 1 as [|r rows [payload Hp] _ (values&IH&H1&Hg)]; [by exists []|].
  assert (show_scheduled unmarshal r = Some (r, mkScheduled (sd_attempts r) (sd_next_attempt_at r)
    (sd_id r) (sd_kind r) (sd_destination r) payload (sd_send_at r) (sd_status r) (sd_error r))) as Hr.
  { unfold show_scheduled. by rewrite Hp. }
  eexists (_ :: values). simpl. rewrite Hr. simpl. rewrite IH. split_and!; [done|simpl; f_equal; exact H1|].
  by constructor.
Qed.

(** Paging through the scheduled messages is complete too, for every filter
    by status and destination: following the cursors enumerates exactly the
    messages of the user that match, the latest first, each once. *)
Theorem scheduled_complete table uid limit extra destination :
  keyed sd_send_at sd_id table → Forall (fun r => is_Some (unmarshal (sd_payload r))) table →
  (1 <= limit <= 200)%Z → known_status (Get extra "status") = true →
  parse_destination extra = inl destination →
  let rows := filter (wanted uid (Get extra "status") (Get extra "destination_kind") destination) table in
  ∃ L : list (scheduled_row * Scheduled Payload),
    crawl (scheduled_pages table uid limit extra) (S (length rows)) None = Some L.*2 ∧
    L.*1 ≡ₚ rows ∧ StronglySorted (sooner sd_send_at sd_id) L.*1 ∧
    Forall (fun rv => shows_scheduled rv.1 rv.2) L.
Proof.
  intros Hk Hdec Hl Hst Hdest rows. assert (keyed sd_send_at sd_id rows) as Hkr.
  { destruct Hk as [Hn Hp]. split; [|by apply Forall_filter_sub].
    eapply sublist_NoDup; [exact Hn|]. apply fmap_sublist, sublist_filter. }
  assert (∀ cursor p, parsePage (page_of limit cursor extra) = inl p →
    answers sd_send_at sd_id rows shows_scheduled (scheduled_pages table uid limit extra) cursor p) as Hans.
  { intros cursor p Hp. destruct (page_query_keyed _ _ p rows Hkr) as [_ Hsub].
    destruct (mapM_show (page_query sd_send_at sd_id p rows)) as (values&Hm&H1&Hg).
    { apply Forall_forall. intros r Hr%Hsub. apply list_elem_of_filter in Hr as [_ Hr].
      exact (proj1 (Forall_forall _ _) Hdec r Hr). }
    exists values. split_and!; [|done..]. unfold scheduled_pages, scheduled. rewrite Hp. cbn [andThen].
    change (Get (page_of limit cursor extra) "status") with (Get extra "status").
    change (parse_destination (page_of limit cursor extra)) with (parse_destination extra).
    change (Get (page_of limit cursor extra) "destination_kind") with (Get extra "destination_kind").
    rewrite Hst, Hdest. cbn [negb andThen]. fold rows. by rewrite Hm. }
  destruct (crawl_complete sd_send_at sd_id limit rows shows_scheduled
    (scheduled_pages table uid limit extra) Hl Hkr) with (fuel := S (length rows)) as (L&HL&H1&Hg).
  - by apply Hans, parsePage_first.
  - intros v i Hp. by apply Hans, parsePage_cursor.
  - lia.
  - exists L. split_and!; [done| | |done]; rewrite H1; [apply merge_sort_Permutation|].
    apply StronglySorted_merge_sort; apply _.
Qed.
End scheduled.

Definition sample_schedule : list scheduled_row := [
  mkScheduledRow 1 7 "channel" 4 "a" 500 "pending" "" 0 0; mkScheduledRow 2 7 "channel" 4 "b" 500 "sent" "" 1 0;
  mkScheduledRow 3 8 "channel" 4 "c" 900 "pending" "" 0 0; mkScheduledRow 4 7 "conversation" 9 "d" 600 "pending" "" 0 0].
Definition pending_only : Query := fun n => if String.eqb n "status" then Some "pending" else None.

Lemma scheduled_complete_witness :
  ∃ L : list (scheduled_row * Scheduled string),
    crawl (scheduled_pages Some sample_schedule 7 1 pending_only) 3 None = Some L.*2 ∧
    StronglySorted (sooner sd_send_at sd_id) L.*1 ∧
    Forall (fun rv => shows_scheduled Some rv.1 rv.2) L.
Proof.
  destruct (@scheduled_complete string Some sample_schedule 7 1 pending_only 0) as (L&HL&_&Hs&Hg).
  - split; [apply (bool_decide_unpack _); vm_compute; exact I|].
    repeat (apply Forall_cons; split; [unfold position; simpl; lia|]). constructor.
  - repeat constructor; eauto.
  - lia.
  - reflexivity.
  - reflexivity.
  - exists L. by split_and!.
Defined.
