(* ===== verification/Recovery.v ===== *)
(** * WebRTC recovery

    Model of [internal/webrtcrecovery/controller.go]. [Start] and [Stop] hold
    the mutex from end to end and are atomic; the goroutine of a recovery is a
    program counter that advances by the steps at which it looks at its cancel
    channel, calls a callback or takes the mutex. Channels are numbered, and
    the trace, newest first, records cancellations and callbacks. *)

From S2P Require Import Prelude.

Record Policy := mkPolicy { po_InitialDelay : Z; po_RetryDelay : Z; po_MaxAttempts : Z }.

Definition Second : Z := 1000000000.

Definition New (p : Policy) : Policy :=
  mkPolicy (if (po_InitialDelay p <? 0)%Z then 0 else po_InitialDelay p)
    (if (po_RetryDelay p <=? 0)%Z then Second else po_RetryDelay p)
    (if (po_MaxAttempts p <=? 0)%Z then 1 else po_MaxAttempts p).

(** Where a goroutine is: in the first [wait], at the head of the loop, about
    to call [attempt], in the [wait] after it, at the last [select], about to
    call [exhausted], about to take the mutex, returned. *)
Inductive pc :=
  | Delayed (delay : Z)
  | Head (index : Z)
  | Attempting (index : Z)
  | Retrying (index : Z)
  | Last
  | Exhausting
  | Clearing
  | Returned.

Inductive event := Cancelled (c : nat) | Attempt (c : nat) | Exhausted (c : nat).

Record Controller := mkController {
  ct_policy : Policy;
  ct_cancel : option nat;
  ct_closed : gset nat;
  ct_runs : gmap nat pc;
  ct_made : nat;
  ct_trace : list event
}.
#[global] Instance Controller_fields : Fields Controller := fun s =>
  mkController (ct_policy s) (ct_cancel s) (ct_closed s) (ct_runs s) (ct_made s) (ct_trace s).

Definition New_controller (p : Policy) : Controller := mkController (New p) None ∅ ∅ 0 [].

(** [close(c)], which panics on a closed channel. *)
Definition close_chan (c : nat) : M Controller unit := fun s =>
  if bool_decide (c ∈ ct_closed s) then Panic
  else Ok (tt, s <| ct_closed ::= union {[c]} |> <| ct_trace ::= cons (Cancelled c) |>).

(** [Start] with both callbacks set. *)
Definition Start (immediate : bool) : M Controller unit :=
  s ← get_state;
  match ct_cancel s, immediate with
  | Some _, false => mret tt
  | running, _ =>
      match running with Some c => close_chan c | None => mret tt end ;;
      modify (fun s' => s' <| ct_cancel := Some (ct_made s') |> <| ct_made ::= S |>
        <| ct_runs ::= <[ct_made s' := Delayed (if immediate then 0%Z else po_InitialDelay (ct_policy s'))]> |>)
  end.

Definition Stop : M Controller unit :=
  s ← get_state;
  match ct_cancel s with
  | Some c => close_chan c ;; modify (fun s => s <| ct_cancel := None |>)
  | None => mret tt
  end.

Definition goto (c : nat) (p : pc) : M Controller unit :=
  modify (fun s => s <| ct_runs ::= <[c := p]> |>).

(** [wait(cancel, delay)] followed by [next] if it answers true. [fired] is
    the choice of the [select] when the timer has expired; while neither the
    timer nor the channel is ready the goroutine stays where it is. *)
Definition wait_then (c : nat) (delay : Z) (fired : bool) (next : pc) : M Controller unit :=
  s ← get_state;
  let closed := bool_decide (c ∈ ct_closed s) in
  if (delay <=? 0)%Z then goto c (if closed then Returned else next)
  else if fired then goto c next
  else if closed then goto c Returned
  else mret tt.

(** A [select] with a default case. *)
Definition unless_cancelled (c : nat) (next : pc) : M Controller unit :=
  s ← get_state;
  goto c (if bool_decide (c ∈ ct_closed s) then Returned else next).

(** The loop condition. *)
Definition loop_head (p : Policy) (index : Z) : pc :=
  if (index <? po_MaxAttempts p)%Z then Head index else Last.

(** One step of the goroutine of channel [c]. *)
Definition run_step (c : nat) (fired : bool) : M Controller unit :=
  s ← get_state;
  match ct_runs s !! c with
  | None => mret tt
  | Some p =>
      match p with
      | Delayed delay => wait_then c delay fired (loop_head (ct_policy s) 0)
      | Head index => unless_cancelled c (Attempting index)
      | Attempting index =>
          modify (fun s => s <| ct_trace ::= cons (Attempt c) |>) ;; goto c (Retrying index)
      | Retrying index =>
          wait_then c (po_RetryDelay (ct_policy s)) fired (loop_head (ct_policy s) (index + 1))
      | Last => unless_cancelled c Exhausting
      | Exhausting => modify (fun s => s <| ct_trace ::= cons (Exhausted c) |>) ;; goto c Clearing
      | Clearing =>
          modify (fun s => if bool_decide (ct_cancel s = Some c) then s <| ct_cancel := None |> else s) ;;
          goto c Returned
      | Returned => mret tt
      end
  end.

(** Everything that can happen to a controller. *)
Inductive ctl_step (s : Controller) : Controller → Prop :=
  | ctl_start immediate s' : Start immediate s = Ok (tt, s') → ctl_step s s'
  | ctl_stop s' : Stop s = Ok (tt, s') → ctl_step s s'
  | ctl_run c fired s' : run_step c fired s = Ok (tt, s') → ctl_step s s'.

(** ** The trace of a goroutine *)

#[export] Instance event_eq_dec : EqDecision event.
Proof. solve_decision. Defined.

Definition count (e : event) (tr : list event) : Z := Z.of_nat (length (filter (.= e) tr)).

(** The callbacks of [c] since its cancellation, if it was cancelled. *)
Fixpoint late_calls (c : nat) (tr : list event) : option Z :=
  match tr with
  | [] => None
  | e :: tr =>
      if decide (e = Cancelled c) then Some 0%Z
      else if decide (e = Attempt c ∨ e = Exhausted c) then Z.succ <$> late_calls c tr
      else late_calls c tr
  end.

(** How many attempts a goroutine at [p] has made. *)
Definition progress (m : Z) (p : pc) (n x : Z) : Prop :=
  match p with
  | Delayed _ => n = 0 ∧ x = 0
  | Head i | Attempting i => n = i ∧ i < m ∧ x = 0
  | Retrying i => n = i + 1 ∧ i < m ∧ x = 0
  | Last | Exhausting => n = m ∧ x = 0
  | Clearing => n = m ∧ x = 1
  | Returned => n <= m ∧ 0 <= x <= 1 ∧ (x = 1 → n = m)
  end%Z.

Definition calling (p : pc) : bool := match p with Attempting _ | Exhausting => true | _ => false end.

Record run_ok (s : Controller) (c : nat) (p : pc) : Prop := {
  ro_made : c < ct_made s;
  ro_progress : progress (po_MaxAttempts (ct_policy s)) p (count (Attempt c) (ct_trace s))
    (count (Exhausted c) (ct_trace s));
  ro_live : p ≠ Returned → c ∉ ct_closed s → ct_cancel s = Some c;
  ro_late : ∀ n, late_calls c (ct_trace s) = Some n → (0 <= n <= if calling p then 0 else 1)%Z
}.

Record ctl_inv (s : Controller) : Prop := {
  ci_max : (1 <= po_MaxAttempts (ct_policy s))%Z;
  ci_retry : (0 < po_RetryDelay (ct_policy s))%Z;
  ci_runs : ∀ c p, ct_runs s !! c = Some p → run_ok s c p;
  ci_cancel : ∀ c, ct_cancel s = Some c → c ∉ ct_closed s ∧ c < ct_made s;
  ci_closed : ∀ c, c ∈ ct_closed s ↔ is_Some (late_calls c (ct_trace s));
  ci_fresh : ∀ c, ct_made s ≤ c → c ∉ ct_closed s ∧ count (Attempt c) (ct_trace s) = 0%Z ∧
    count (Exhausted c) (ct_trace s) = 0%Z
}.

Lemma count_cons e e' tr : count e (e' :: tr) = (count e tr + if decide (e' = e) then 1 else 0)%Z.
Proof. unfold count. rewrite filter_cons. case_decide; simpl; lia. Qed.

Lemma late_cancel c c' tr :
  late_calls c' (Cancelled c :: tr) = if decide (c = c') then Some 0%Z else late_calls c' tr.
Proof. simpl. repeat case_decide; naive_solver. Qed.

Lemma late_call c c' e tr :
  e = Attempt c ∨ e = Exhausted c →
  late_calls c' (e :: tr) = if decide (c = c') then Z.succ <$> late_calls c' tr else late_calls c' tr.
Proof. intros He. simpl. repeat case_decide; naive_solver. Qed.

#[local] Arguments late_calls : simpl never.
#[local] Arguments count : simpl never.

(** ** Every step keeps the invariant *)

Lemma inv_goto s c p :
  ctl_inv s → run_ok s c p → ctl_inv (s <| ct_runs ::= <[c := p]> |>).
Proof.
  intros Hi Hp. split; try apply Hi. intros c' p'. simpl. rewrite lookup_insert.
  case_decide; [|intros Hc; destruct (ci_runs _ Hi _ _ Hc); by split].
  subst. intros [= <-]. destruct Hp. by split.
Qed.

Definition cancelled (c : nat) (s : Controller) : Controller :=
  s <| ct_closed ::= union {[c]} |> <| ct_trace ::= cons (Cancelled c) |> <| ct_cancel := None |>.

Lemma inv_cancelled s c : ctl_inv s → ct_cancel s = Some c → ctl_inv (cancelled c s).
Proof.
  intros Hi Hc. split; simpl; try apply Hi; try done.
  - intros c' p Hp. destruct (ci_runs _ Hi _ _ Hp) as [Hm Hpr Hl Hla]. split; simpl; [done| | |].
    + by rewrite !count_cons, !decide_False, !Z.add_0_r by done.
    + intros Hne Hcl. assert (ct_cancel s = Some c') by (apply Hl; set_solver). set_solver.
    + intros n. rewrite late_cancel. case_decide; [|apply Hla]. intros [= <-]. destruct (calling p); lia.
  - intros c'. rewrite late_cancel. case_decide as E; [subst; naive_solver set_solver|].
    rewrite <- (ci_closed _ Hi). set_solver.
  - intros c' Hge. destruct (ci_fresh _ Hi c' Hge) as (?&?&?). destruct (ci_cancel _ Hi c Hc).
    rewrite !count_cons, !decide_False, !Z.add_0_r by done. split_and!; [set_solver by lia|done..].
Qed.

Definition started (delay : Z) (s : Controller) : Controller :=
  s <| ct_cancel := Some (ct_made s) |> <| ct_made ::= S |> <| ct_runs ::= <[ct_made s := Delayed delay]> |>.

Lemma inv_started s d : ctl_inv s → ct_cancel s = None → ctl_inv (started d s).
Proof.
  intros Hi Hc. destruct (ci_fresh _ Hi (ct_made s) (le_n _)) as (Hn&Ha&He).
  split; simpl; try apply Hi.
  - intros c p. rewrite lookup_insert. case_decide as E.
    + subst. intros [= <-]. split; simpl; [lia|done|done|]. intros n Hl.
      destruct Hn. apply (ci_closed _ Hi). by eexists.
    + intros Hp. destruct (ci_runs _ Hi _ _ Hp) as [Hm Hpr Hl Hla]. split; simpl; [lia|done| |done].
      intros Hne Hcl. specialize (Hl Hne Hcl). congruence.
  - intros c [= <-]. split; [done|lia].
  - intros c Hge. apply (ci_fresh _ Hi). lia.
Qed.

Lemma inv_call s c p p' e :
  ctl_inv s → ct_runs s !! c = Some p → calling p = true → calling p' = false → p' ≠ Returned →
  e = Attempt c ∨ e = Exhausted c →
  progress (po_MaxAttempts (ct_policy s)) p' (count (Attempt c) (e :: ct_trace s))
    (count (Exhausted c) (e :: ct_trace s)) →
  ctl_inv (s <| ct_trace ::= cons e |> <| ct_runs ::= <[c := p']> |>).
Proof.
  intros Hi Hp Hcp Hcp' Hret He Hpr. destruct (ci_runs _ Hi _ _ Hp) as [Hm Hpr0 Hl Hla].
  assert (∀ c', c ≠ c' → e ≠ Attempt c' ∧ e ≠ Exhausted c') as Hother by (intros c' Hne; destruct He; split; congruence).
  split; try apply Hi; simpl.
  - intros c' q. rewrite lookup_insert. case_decide as E.
    + subst. intros [= <-]. split; simpl; [done|done| |].
      * intros _. apply Hl. by destruct p.
      * intros n. rewrite (late_call c'), decide_True, Hcp' by done.
        destruct (late_calls c' (ct_trace s)) as [k|]; [|done]. intros [= <-].
        specialize (Hla k eq_refl). rewrite Hcp in Hla. lia.
    + intros Hq. destruct (ci_runs _ Hi _ _ Hq) as [Hm' Hpr' Hl' Hla']. destruct (Hother c' E).
      split; simpl; [done| |done|].
      * by rewrite !count_cons, !decide_False, !Z.add_0_r by done.
      * intros n. rewrite (late_call c), decide_False by done. apply Hla'.
  - intros c'. rewrite (late_call c) by done.
    rewrite (ci_closed _ Hi). case_decide; [|done]. subst. by rewrite fmap_is_Some.
  - intros c' Hge. destruct (ci_fresh _ Hi c' Hge) as (?&?&?). destruct (Hother c' ltac:(lia)).
    by rewrite !count_cons, !decide_False, !Z.add_0_r.
Qed.

Lemma run_move s c p p' :
  ctl_inv s → ct_runs s !! c = Some p → p ≠ Returned → calling p = false →
  (calling p' = true → c ∉ ct_closed s) →
  (∀ n x, progress (po_MaxAttempts (ct_policy s)) p n x → progress (po_MaxAttempts (ct_policy s)) p' n x) →
  ctl_inv (s <| ct_runs ::= <[c := p']> |>).
Proof.
  intros Hi Hp Hne Hcp Hopen Hpr. apply inv_goto; [done|]. destruct (ci_runs _ Hi _ _ Hp) as [Hm Hpr0 Hl Hla].
  split; [done|by apply Hpr|by intros _; apply Hl|]. intros n Hn. specialize (Hla n Hn). rewrite Hcp in Hla.
  destruct (calling p'); [|done]. destruct (Hopen eq_refl). apply (ci_closed _ Hi). by eexists.
Qed.

Lemma progress_returned m p n x : (1 <= m)%Z → progress m p n x → progress m Returned n x.
Proof. destruct p; simpl; lia. Qed.

Lemma unless_cancelled_inv s c p next :
  ctl_inv s → ct_runs s !! c = Some p → p ≠ Returned → calling p = false →
  (∀ n x, progress (po_MaxAttempts (ct_policy s)) p n x → progress (po_MaxAttempts (ct_policy s)) next n x) →
  wp (unless_cancelled c next) (fun _ s' => ctl_inv s') s.
Proof.
  intros Hi Hp Hne Hcp Hpr. unfold unless_cancelled, goto. wp_step. wp_step. wp_step.
  case_bool_decide as Hcl; (eapply run_move; [done..| |]).
  - done.
  - intros n x. apply progress_returned, Hi.
  - by intros _.
  - done.
Qed.

Lemma wait_then_inv s c delay fired p next :
  ctl_inv s → ct_runs s !! c = Some p → p ≠ Returned → calling p = false → calling next = false →
  (∀ n x, progress (po_MaxAttempts (ct_policy s)) p n x → progress (po_MaxAttempts (ct_policy s)) next n x) →
  wp (wait_then c delay fired next) (fun _ s' => ctl_inv s') s.
Proof.
  intros Hi Hp Hne Hcp Hcn Hpr.
  assert (ctl_inv (s <| ct_runs ::= <[c := next]> |>)) as Hgo by (eapply run_move; [done..|congruence|done]).
  assert (ctl_inv (s <| ct_runs ::= <[c := Returned]> |>)) as Hret.
  { eapply run_move; [done..|]. intros n x. apply progress_returned, Hi. }
  unfold wait_then, goto. wp_step. wp_step. destruct (delay <=? 0)%Z; [wp_step; by case_bool_decide|].
  destruct fired; [by wp_step|]. case_bool_decide; by wp_step.
Qed.

Lemma loop_head_progress p i n :
  (1 <= po_MaxAttempts p)%Z → (0 <= i <= po_MaxAttempts p)%Z → n = i →
  progress (po_MaxAttempts p) (loop_head p i) n 0 ∧ calling (loop_head p i) = false.
Proof. intros Hm Hi ->. unfold loop_head. destruct (Z.ltb_spec i (po_MaxAttempts p)); simpl; lia. Qed.

Lemma count_nonneg e tr : (0 <= count e tr)%Z.
Proof. unfold count. lia. Qed.

Lemma inv_cleared s c :
  ctl_inv s → ct_runs s !! c = Some Clearing →
  ctl_inv ((if bool_decide (ct_cancel s = Some c) then s <| ct_cancel := None |> else s)
    <| ct_runs ::= <[c := Returned]> |>).
Proof.
  intros Hi Hp. case_bool_decide as Hc.
  - destruct (ci_runs _ Hi _ _ Hp) as [Hm Hpr Hl Hla]. split; simpl; try apply Hi; [|done].
    intros c' q. rewrite lookup_insert. case_decide as E.
    + subst. intros [= <-]. split; simpl in *; [done|lia|done|done].
    + intros Hq. destruct (ci_runs _ Hi _ _ Hq) as [Hm' Hpr' Hl' Hla']. split; simpl; [done|done| |done].
      intros Hne Hcl. specialize (Hl' Hne Hcl). congruence.
  - eapply run_move; [done..|]. intros n x. apply progress_returned, Hi.
Qed.

Lemma run_step_inv s c fired : ctl_inv s → wp (run_step c fired) (fun _ s' => ctl_inv s') s.
Proof.
  intros Hi. pose proof (ci_max _ Hi) as Hm. unfold run_step. wp_step. wp_step.
  destruct (ct_runs s !! c) as [p|] eqn:Hp; [|by wp_step].
  pose proof (ro_progress _ _ _ (ci_runs _ Hi _ _ Hp)) as Hpr.
  destruct p as [delay|i|i|i| | | |].
  - eapply wait_then_inv; try done.
    + apply (loop_head_progress _ 0 0); lia.
    + intros n x [-> ->]. apply loop_head_progress; lia.
  - by eapply unless_cancelled_inv.
  - wp_step. wp_step. unfold goto. wp_step. eapply inv_call; try done; [by left|].
    rewrite !count_cons, decide_True, decide_False by done. simpl in *. lia.
  - simpl in Hpr. pose proof (count_nonneg (Attempt c) (ct_trace s)).
    eapply wait_then_inv; try done.
    + apply (loop_head_progress _ (i + 1) (i + 1)); lia.
    + intros n x (->&?&->). apply loop_head_progress; lia.
  - by eapply unless_cancelled_inv.
  - wp_step. wp_step. unfold goto. wp_step. eapply inv_call; try done; [by right|].
    rewrite !count_cons, decide_False, decide_True by done. simpl in *. lia.
  - wp_step. wp_step. unfold goto. wp_step. by apply inv_cleared.
  - by wp_step.
Qed.

Lemma Start_inv s immediate : ctl_inv s → wp (Start immediate) (fun _ s' => ctl_inv s') s.
Proof.
  intros Hi. unfold Start. wp_step. wp_step. destruct (ct_cancel s) as [c|] eqn:Hc.
  - destruct immediate; [|by wp_step]. wp_step. unfold close_chan, wp at 1.
    rewrite bool_decide_eq_false_2 by apply (ci_cancel _ Hi c Hc). wp_step.
    exact (inv_started _ 0 (inv_cancelled s c Hi Hc) eq_refl).
  - assert (ctl_inv (started (if immediate then 0%Z else po_InitialDelay (ct_policy s)) s)) as Hs
      by (by apply inv_started).
    destruct immediate; wp_step; wp_step; wp_step; exact Hs.
Qed.

Lemma Stop_inv s : ctl_inv s → wp Stop (fun _ s' => ctl_inv s' ∧ ct_cancel s' = None) s.
Proof.
  intros Hi. unfold Stop. wp_step. wp_step. destruct (ct_cancel s) as [c|] eqn:Hc; [|by wp_step].
  wp_step. unfold close_chan, wp at 1. rewrite bool_decide_eq_false_2 by apply (ci_cancel _ Hi c Hc).
  wp_step. split; [|done]. exact (inv_cancelled s c Hi Hc).
Qed.

Lemma controller_inv p : ctl_inv (New_controller p).
Proof.
  split; simpl; try done.
  - destruct (Z.leb_spec (po_MaxAttempts p) 0); lia.
  - destruct (Z.leb_spec (po_RetryDelay p) 0); [done|lia].
  - intros c. split; [set_solver|by intros []].
Qed.

Lemma ctl_step_inv s s' : ctl_inv s → ctl_step s s' → ctl_inv s'.
Proof.
  intros Hi [immediate s1 Hrun|s1 Hrun|c fired s1 Hrun].
  - exact (wp_result _ _ _ _ _ (Start_inv s immediate Hi) Hrun).
  - exact (proj1 (wp_result _ _ _ _ _ (Stop_inv s Hi) Hrun)).
  - exact (wp_result _ _ _ _ _ (run_step_inv s c fired Hi) Hrun).
Qed.

Lemma reachable_ctl p s : rtc ctl_step (New_controller p) s → ctl_inv s.
Proof. intros Hr. assert (Hi := controller_inv p). induction Hr; eauto using ctl_step_inv. Qed.

(** The policy never changes. *)
Lemma reachable_policy p s : rtc ctl_step (New_controller p) s → ct_policy s = New p.
Proof.
  intros Hr. change (New p) with (ct_policy (New_controller p)).
  induction Hr as [|s s1 s2 Hs _ IH]; [done|]. rewrite IH. destruct Hs as [b s1 Hrun|s1 Hrun|c f s1 Hrun];
    unfold Start, Stop, run_step, wait_then, unless_cancelled, goto, close_chan, modify, mbind, M_bind, mret, M_ret, get_state in Hrun;
    repeat case_match; simplify_eq; done.
Qed.

(** C36: However [Start], [Stop] and the goroutines interleave, a controller
    closes no channel twice, so [Start] and [Stop] never panic; at most one
    recovery is neither cancelled nor finished, and it is the one that [Stop]
    would cancel; no recovery attempts more than the normalised maximum, nor
    reports exhaustion twice or before all attempts were made; and once a
    recovery has been cancelled, by [Stop] or by an immediate [Start], at most
    one callback of it, already under way, still happens. *)
Theorem recovery_safe p s :
  rtc ctl_step (New_controller p) s →
  (∀ immediate, ∃ s', Start immediate s = Ok (tt, s')) ∧ (∃ s', Stop s = Ok (tt, s')) ∧
  (∀ c q, ct_runs s !! c = Some q → q ≠ Returned → c ∉ ct_closed s → ct_cancel s = Some c) ∧
  ∀ c q, ct_runs s !! c = Some q →
    (count (Attempt c) (ct_trace s) <= Z.max 1 (po_MaxAttempts p))%Z ∧
    (count (Exhausted c) (ct_trace s) <= 1)%Z ∧
    ((0 < count (Exhausted c) (ct_trace s))%Z → count (Attempt c) (ct_trace s) = Z.max 1 (po_MaxAttempts p)) ∧
    ∀ n, late_calls c (ct_trace s) = Some n → (n <= 1)%Z.
Proof.
  intros Hr. pose proof (reachable_ctl p s Hr) as Hi. split_and!.
  - intros b. destruct (proj1 (wp_run _ _ _) (Start_inv s b Hi)) as ([]&s'&Hs&_). eauto.
  - destruct (proj1 (wp_run _ _ _) (Stop_inv s Hi)) as ([]&s'&Hs&_). eauto.
  - intros c q Hq. apply (ro_live _ _ _ (ci_runs _ Hi _ _ Hq)).
  - intros c q Hq. destruct (ci_runs _ Hi _ _ Hq) as [_ Hpr _ Hla].
    rewrite (reachable_policy p s Hr) in Hpr. pose proof (ci_max _ Hi) as Hmax.
    rewrite (reachable_policy p s Hr) in Hmax.
    assert (po_MaxAttempts (New p) = Z.max 1 (po_MaxAttempts p)) as E.
    { simpl. destruct (Z.leb_spec (po_MaxAttempts p) 0); lia. }
    rewrite E in *. split_and!; [destruct q; simpl in Hpr; lia..|].
    intros n Hn. specialize (Hla n Hn). destruct (calling q); lia.
Qed.

(** ** An execution *)

(** Two attempts allowed: the recovery is restarted while its first attempt is
    under way, and the new one runs to exhaustion. *)
Definition sample_policy : Policy := mkPolicy 0 0 2.
Definition sample_steps : list (M Controller unit) :=
  [Start false; run_step 0 false; run_step 0 false; Start true; run_step 0 false; run_step 0 true;
   run_step 0 false; run_step 1 false; run_step 1 false; run_step 1 false; run_step 1 true;
   run_step 1 false; run_step 1 false; run_step 1 true; run_step 1 false; run_step 1 false].
Definition after (steps : list (M Controller unit)) (s : Controller) : Controller :=
  foldl (fun s m => match m s with Ok (_, s') => s' | _ => s end) s steps.
Definition sample_controller : Controller := after sample_steps (New_controller sample_policy).

Lemma after_reachable steps : ∀ s,
  Forall (fun m => m ∈ sample_steps) steps → rtc ctl_step s (after steps s).
Proof.
  induction steps as [|m steps IH]; intros s Hall; [apply rtc_refl|].
  apply Forall_cons in Hall as [Hm Hall]. simpl. destruct (m s) as [[[] s']| |] eqn:E; [|by apply IH..].
  eapply rtc_l; [|by apply IH]. unfold sample_steps in Hm. set_unfold in Hm.
  destruct_or!; subst m; first [by eapply ctl_start | by eapply ctl_run].
Qed.

Lemma sample_controller_reachable : rtc ctl_step (New_controller sample_policy) sample_controller.
Proof. apply after_reachable, Forall_forall. by intros m. Qed.

Lemma recovery_safe_witness :
  ct_trace sample_controller =
    [Exhausted 1; Attempt 1; Attempt 1; Attempt 0; Cancelled 0] ∧
  ∀ n, late_calls 0 (ct_trace sample_controller) = Some n → (n <= 1)%Z.
Proof.
  split; [vm_compute; reflexivity|].
  exact (proj2 (proj2 (proj2 (proj2 (proj2 (proj2 (recovery_safe sample_policy sample_controller
    sample_controller_reachable))) 0 Returned ltac:(vm_compute; reflexivity))))).
Defined.
