(* ===== verification/VoiceManager.v ===== *)
(** * The voice media manager

    Model of [internal/voice/manager.go], [room.go] and the bookkeeping of
    [session.go], with the deadline of [internal/mediahandshake]. Every block
    of code under one lock is a transformer of the manager; what a goroutine
    does after it has released the lock is a [task] in [mg_work], and any task
    may run next. Pion's [PeerConnection] is the class [Peer]: the functions
    answer [None] when the Go method returns an error, and the laws that are
    relied on are in [PeerLaws]. A sender is known by the identifier of its
    track, which is all the code compares. A session that is being synchronized
    holds its mutex throughout and is updated in one step. Packet forwarding,
    rate limits and keyframe requests are not part of the model; the recovery
    controller is, in [Recovery], and here its two callbacks may be called at
    any time. *)

From S2P Require Import Prelude GoText Events.

(** ** PeerConnection *)

Class Peer := {
  peer : Type;
  GetSenders : peer → list string;
  AddTrack : string → peer → option peer;
  RemoveTrack : string → peer → option peer;
  CreateOffer : bool → peer → option string;
  SetLocalDescription : string → peer → option peer;
  SetRemoteDescription : string → peer → option peer;
  RemoteDescription : peer → option string;
  stable : peer → bool;
  Connected : peer → bool;
  AddICECandidate_ : ICECandidateData → peer → option peer
}.

(** ** Data *)

Inductive Kind := Audio | Video.
#[export] Instance Kind_eq_dec : EqDecision Kind.
Proof. solve_decision. Defined.

Record roomTrack := mkRoomTrack { rt_owner : string; rt_kind : Kind }.

Record room := mkRoom {
  rm_id : Z;
  rm_sessions : gmap string nat;
  rm_tracks : gmap string roomTrack;
  rm_reservations : Z
}.
#[global] Instance room_fields : Fields room := fun r =>
  mkRoom (rm_id r) (rm_sessions r) (rm_tracks r) (rm_reservations r).

Definition newRoom (id : Z) : room := mkRoom id ∅ ∅ 0.

Definition MaxPendingICECandidates : nat := 64.

(** What [Join] was called with. *)
Record joinArgs := mkJoinArgs {
  ja_connectionID : string; ja_userID : Z; ja_serverID : Z; ja_channelID : Z;
  ja_selfMute : bool; ja_selfDeaf : bool }.
#[export] Instance joinArgs_eq_dec : EqDecision joinArgs.
Proof. solve_decision. Defined.

#[export] Instance ICECandidateData_eq_dec : EqDecision ICECandidateData.
Proof. solve_decision. Defined.

(** What a goroutine still has to do. *)
Inductive task :=
  | TReserve (a : joinArgs)
  | TJoin (a : joinArgs) (r : nat)
  | TRemoveRoom (channelID : Z) (r : nat)
  | TInitial (s : nat)
  | TClose (s : nat)
  | TSnapshot (r : nat)
  | TSync (s : nat)
  | TState (s : nat)
  | TOffer (s : nat) (sdp : string)
  | TAnswer (s : nat) (candidates : list ICECandidateData) (resync : bool)
  | TFail (s : nat) (reason : string).
#[export] Instance task_eq_dec : EqDecision task.
Proof. solve_decision. Defined.

(** What the sink is told. *)
Inductive signal := SentOffer (connectionID sdp : string) | Failure (connectionID reason : string).

Inductive Error :=
  | ErrConnectionIDRequired | ErrIdentifiers | ErrManagerClosed | ErrRoomFull | ErrSessionNotFound | ErrTooManyICECandidates
  | ErrSDPRequired | ErrCandidateRequired | ErrPeer.

(** The stages of the handshake deadline: waiting for the offer, for the
    answer, for the connection, finished. *)
Inductive stage := WaitOffer | WaitAnswer | WaitConnection | Finished.
#[export] Instance stage_eq_dec : EqDecision stage.
Proof. solve_decision. Defined.

Definition deadline_Offer (d : stage) : stage := if decide (d = WaitOffer) then WaitAnswer else d.
Definition deadline_Answer (d : stage) : stage := if decide (d = WaitAnswer) then WaitConnection else d.
Definition deadline_Stop (d : stage) : stage := Finished.
(** The stages in which a timer is armed, with what it reports. *)
Definition deadline_reason (armed : stage) : option string :=
  match armed with
  | WaitAnswer => Some "initial WebRTC answer timed out"
  | WaitConnection => Some "initial WebRTC connection timed out"
  | WaitOffer | Finished => None
  end.
(** The timer armed in [armed] fires: whether it expires the deadline. *)
Definition deadline_fire (armed d : stage) : bool * stage :=
  if decide (d = armed) then (true, Finished) else (false, d).

Section manager.
Context `{MapOrder} `{!Peer}.

(** [sn_offered] is the list of senders when the last offer was created and
    [sn_faulty] records that a call of the peer connection has failed; the
    code keeps neither. *)
Record session := mkSession {
  sn_connectionID : string; sn_userID : Z; sn_serverID : Z; sn_channelID : Z;
  sn_room : nat; sn_peer : peer;
  sn_selfMute : bool; sn_selfDeaf : bool; sn_closed : bool;
  sn_negotiationPending : bool; sn_iceRestartPending : bool;
  sn_pendingCandidates : list ICECandidateData;
  sn_handshake : stage;
  sn_offered : list string; sn_faulty : bool
}.
#[global] Instance session_fields : Fields session := fun s =>
  mkSession (sn_connectionID s) (sn_userID s) (sn_serverID s) (sn_channelID s) (sn_room s) (sn_peer s)
    (sn_selfMute s) (sn_selfDeaf s) (sn_closed s) (sn_negotiationPending s) (sn_iceRestartPending s)
    (sn_pendingCandidates s) (sn_handshake s) (sn_offered s) (sn_faulty s).

Record Manager := mkManager {
  mg_rooms : gmap Z nat;
  mg_sessions : gmap string nat;
  mg_closed : bool;
  mg_maxParticipants : Z;
  mg_roomHeap : gmap nat room;
  mg_heap : gmap nat session;
  mg_work : list task;
  mg_trace : list signal
}.
#[global] Instance Manager_fields : Fields Manager := fun m =>
  mkManager (mg_rooms m) (mg_sessions m) (mg_closed m) (mg_maxParticipants m) (mg_roomHeap m)
    (mg_heap m) (mg_work m) (mg_trace m).

Definition NewManager (maxParticipants : Z) : option Manager :=
  let n := if (maxParticipants =? 0)%Z then 32%Z else maxParticipants in
  if (n <? 2)%Z || (100 <? n)%Z then None
  else Some (mkManager ∅ ∅ false n ∅ ∅ [] []).

(** ** Access to the heaps *)

Definition push (ts : list task) : M Manager unit := modify (fun m => m <| mg_work ::= (ts ++.) |>).

(** Reading through a pointer; a dangling one panics. *)
Definition read_session (s : nat) : M Manager session :=
  m ← get_state; match mg_heap m !! s with Some v => mret v | None => panic end.
Definition read_room (r : nat) : M Manager room :=
  m ← get_state; match mg_roomHeap m !! r with Some v => mret v | None => panic end.
Definition put_session (s : nat) (v : session) : M Manager unit :=
  modify (fun m => m <| mg_heap ::= <[s := v]> |>).
Definition put_room (r : nat) (v : room) : M Manager unit :=
  modify (fun m => m <| mg_roomHeap ::= <[r := v]> |>).

Definition fresh_in {A} (h : gmap nat A) : nat := fresh (dom h).

(** [scheduleFail]: a goroutine that will call [failSession]. *)
Definition scheduleFail (s : nat) (reason : string) : M Manager unit := push [TFail s reason].

(** ** room.go *)

Definition room_empty (v : room) : bool :=
  bool_decide (rm_sessions v = ∅) && (rm_reservations v =? 0)%Z.

Definition room_reserve (maxParticipants : Z) (v : room) : option room :=
  if (maxParticipants <=? Z.of_nat (size (rm_sessions v)) + rm_reservations v)%Z then None
  else Some (v <| rm_reservations ::= Z.add 1 |>).

Definition room_cancelReservation (v : room) : room :=
  if (0 <? rm_reservations v)%Z then v <| rm_reservations ::= Z.pred |> else v.

Definition room_addSession (connectionID : string) (s : nat) (v : room) : room :=
  (room_cancelReservation v) <| rm_sessions ::= <[connectionID := s]> |>.

Definition room_removeSession (connectionID : string) (v : room) : room * bool :=
  let tracks := filter (fun t => rt_owner t.2 ≠ connectionID) (rm_tracks v) in
  (v <| rm_sessions ::= delete connectionID |> <| rm_tracks := tracks |>,
   existsb (fun t => String.eqb (rt_owner t) connectionID) (range_values (rm_tracks v))).

Definition room_addTrack (id : string) (t : roomTrack) (v : room) : room * bool :=
  if bool_decide (rm_sessions v !! rt_owner t = None) then (v, false)
  else if existsb (fun t' => String.eqb (rt_owner t') (rt_owner t) && bool_decide (rt_kind t' = rt_kind t))
            (range_values (rm_tracks v)) then (v, false)
  else (v <| rm_tracks ::= <[id := t]> |>, true).

Definition room_removeTrack (id owner : string) (v : room) : room * bool :=
  match rm_tracks v !! id with
  | Some t => if String.eqb (rt_owner t) owner then (v <| rm_tracks ::= delete id |>, true) else (v, false)
  | None => (v, false)
  end.

(** ** session.go: negotiation *)

Definition desired (v : session) (tracks : gmap string roomTrack) : gmap string roomTrack :=
  filter (fun t => rt_owner t.2 ≠ sn_connectionID v ∧ (sn_selfDeaf v = false ∨ rt_kind t.2 = Video)) tracks.

(** The two loops over senders and desired tracks. They stop at the first call
    that fails; the flag tells whether anything was changed. *)
Fixpoint remove_senders (wanted : gmap string roomTrack) (senders : list string) (p : peer)
    : peer * bool * option Error :=
  match senders with
  | [] => (p, false, None)
  | id :: rest =>
      if bool_decide (is_Some (wanted !! id)) then remove_senders wanted rest p
      else match RemoveTrack id p with
        | None => (p, false, Some ErrPeer)
        | Some p => let '(p, _, err) := remove_senders wanted rest p in (p, true, err)
        end
  end.

Fixpoint add_senders (existing : list string) (wanted : list string) (p : peer)
    : peer * bool * option Error :=
  match wanted with
  | [] => (p, false, None)
  | id :: rest =>
      if bool_decide (id ∈ existing) then add_senders existing rest p
      else match AddTrack id p with
        | None => (p, false, Some ErrPeer)
        | Some p => let '(p, _, err) := add_senders existing rest p in (p, true, err)
        end
  end.

Definition createOfferLocked (s : nat) (v : session) (restartICE : bool) : M Manager (option Error) :=
  match CreateOffer restartICE (sn_peer v) with
  | None => put_session s (v <| sn_faulty := true |>) ;; mret (Some ErrPeer)
  | Some sdp =>
      match SetLocalDescription sdp (sn_peer v) with
      | None => put_session s (v <| sn_faulty := true |>) ;; mret (Some ErrPeer)
      | Some p =>
          put_session s (v <| sn_peer := p |> <| sn_negotiationPending := false |>
            <| sn_iceRestartPending := false |> <| sn_handshake ::= deadline_Offer |>
            <| sn_offered := GetSenders p |>) ;;
          push [TOffer s sdp] ;;
          mret None
      end
  end.

Definition synchronizeTracks (s : nat) (forceOffer : bool) : M Manager (option Error) :=
  v ← read_session s;
  if sn_closed v then mret None
  else
    r ← read_room (sn_room v);
    let wanted := desired v (rm_tracks r) in
    let senders := GetSenders (sn_peer v) in
    let '(p, removed, err) := remove_senders wanted senders (sn_peer v) in
    let existing := filter (fun id => is_Some (wanted !! id)) senders in
    match err with
    | Some e => put_session s (v <| sn_peer := p |> <| sn_faulty := true |>) ;; mret (Some e)
    | None =>
        let '(p, added, err) := add_senders existing (range_keys wanted) p in
        match err with
        | Some e => put_session s (v <| sn_peer := p |> <| sn_faulty := true |>) ;; mret (Some e)
        | None =>
            let v := v <| sn_peer := p |> in
            if negb (removed || added) && negb forceOffer && negb (sn_negotiationPending v) &&
               negb (sn_iceRestartPending v)
            then put_session s v ;; mret None
            else if negb (stable p) then
              put_session s (v <| sn_negotiationPending := true |>) ;; mret None
            else createOfferLocked s v (sn_iceRestartPending v)
        end
    end.

Definition restartICE (s : nat) : M Manager (option Error) :=
  v ← read_session s;
  if sn_closed v then mret (Some ErrSessionNotFound)
  else if negb (stable (sn_peer v)) then
    put_session s (v <| sn_iceRestartPending := true |> <| sn_negotiationPending := true |>) ;; mret None
  else createOfferLocked s v true.

(** The lines of a session description. *)
Fixpoint lines (current : string) (text : string) : list string :=
  match text with
  | EmptyString => [current]
  | String c text =>
      if Ascii.eqb c (Ascii.ascii_of_nat 10) then current :: lines "" text
      else lines (current +:+ String c "") text
  end.

Definition candidateMatchesRemoteDescription (sdp : string) (usernameFragment : option string) : bool :=
  match usernameFragment with
  | None => true
  | Some fragment =>
      if String.eqb (TrimSpace fragment) "" then true
      else existsb (fun line =>
        match CutPrefix (TrimSpace line) "a=ice-ufrag:" with
        | Some value => String.eqb (TrimSpace value) (TrimSpace fragment)
        | None => false
        end) (lines "" sdp)
  end.

Definition addICECandidate (s : nat) (candidate : ICECandidateData) : M Manager (option Error) :=
  if String.eqb (ic_Candidate candidate) "" then mret (Some ErrCandidateRequired)
  else
    v ← read_session s;
    if sn_closed v then mret (Some ErrSessionNotFound)
    else match RemoteDescription (sn_peer v), stable (sn_peer v) with
      | None, _ | _, false =>
          if (MaxPendingICECandidates <=? length (sn_pendingCandidates v))%nat then
            mret (Some ErrTooManyICECandidates)
          else
            put_session s (v <| sn_pendingCandidates ::= (.++ [candidate]) |>) ;; mret None
      | Some sdp, true =>
          if negb (candidateMatchesRemoteDescription sdp (ic_UsernameFragment candidate)) then mret None
          else match AddICECandidate_ candidate (sn_peer v) with
            | Some p => put_session s (v <| sn_peer := p |>) ;; mret None
            | None => put_session s (v <| sn_faulty := true |>) ;; mret (Some ErrPeer)
            end
      end.

(** [acceptAnswer] up to the first unlock; the rest is [TAnswer]. *)
Definition acceptAnswer (s : nat) (sdp : string) : M Manager (option Error) :=
  if String.eqb sdp "" then mret (Some ErrSDPRequired)
  else
    v ← read_session s;
    if sn_closed v then mret (Some ErrSessionNotFound)
    else match SetRemoteDescription sdp (sn_peer v) with
      | None => mret (Some ErrPeer)
      | Some p =>
          put_session s (v <| sn_peer := p |> <| sn_pendingCandidates := [] |>
            <| sn_handshake ::= deadline_Answer |>) ;;
          push [TAnswer s (sn_pendingCandidates v) (sn_negotiationPending v || sn_iceRestartPending v)] ;;
          mret None
      end.

(** ** manager.go *)

(** [leave] up to the unlock; [TClose] and [TSnapshot] are what follows. *)
Definition leave (connectionID : string) (expected : option nat) : M Manager bool :=
  if String.eqb connectionID "" then mret false
  else
    m ← get_state;
    match mg_sessions m !! connectionID with
    | None => mret false
    | Some s =>
        if match expected with Some e => negb (e =? s)%nat | None => false end then mret false
        else
          modify (fun m => m <| mg_sessions ::= delete connectionID |>) ;;
          v ← read_session s;
          put_session s (v <| sn_closed := true |>) ;;
          r ← read_room (sn_room v);
          let '(r', trackRemoved) := room_removeSession connectionID r in
          put_room (sn_room v) r' ;;
          when (room_empty r' && bool_decide (mg_rooms m !! sn_channelID v = Some (sn_room v)))
            (modify (fun m => m <| mg_rooms ::= delete (sn_channelID v) |>)) ;;
          push (TClose s :: if trackRemoved && negb (room_empty r') then [TSnapshot (sn_room v)] else []) ;;
          mret true
    end.

Definition Leave (connectionID : string) : M Manager unit := leave connectionID None ;; mret tt.

Definition failSession (s : nat) (reason : string) : M Manager unit :=
  v ← read_session s;
  left ← leave (sn_connectionID v) (Some s);
  when left (modify (fun m => m <| mg_trace ::= cons (Failure (sn_connectionID v) reason) |>)).

Definition Join (a : joinArgs) : M Manager (option Error) :=
  if String.eqb (ja_connectionID a) "" then mret (Some ErrConnectionIDRequired)
  else if (ja_userID a <=? 0)%Z || (ja_serverID a <=? 0)%Z || (ja_channelID a <=? 0)%Z then
    mret (Some ErrIdentifiers)
  else Leave (ja_connectionID a) ;; push [TReserve a] ;; mret None.

(** The first critical section of [Join]. *)
Definition join_reserve (a : joinArgs) : M Manager (option Error) :=
  m ← get_state;
  if mg_closed m then mret (Some ErrManagerClosed)
  else
    r ← (match mg_rooms m !! ja_channelID a with
         | Some r => mret r
         | None =>
             let r := fresh_in (mg_roomHeap m) in
             put_room r (newRoom (ja_channelID a)) ;;
             modify (fun m => m <| mg_rooms ::= <[ja_channelID a := r]> |>) ;;
             mret r
         end);
    v ← read_room r;
    match room_reserve (mg_maxParticipants m) v with
    | None => mret (Some ErrRoomFull)
    | Some v => put_room r v ;; push [TJoin a r] ;; mret None
    end.

(** The deferred function, while [reservationActive]. *)
Definition cancel_reservation (a : joinArgs) (r : nat) : M Manager unit :=
  v ← read_room r;
  put_room r (room_cancelReservation v) ;;
  push [TRemoveRoom (ja_channelID a) r].

(** The second critical section, once the peer connection was made or not. *)
Definition join_commit (a : joinArgs) (r : nat) (made : option peer) : M Manager (option Error) :=
  m ← get_state;
  match made with
  | None => cancel_reservation a r ;; mret (Some ErrPeer)
  | Some p =>
      if mg_closed m then cancel_reservation a r ;; mret (Some ErrManagerClosed)
      else
        let s := fresh_in (mg_heap m) in
        put_session s (mkSession (ja_connectionID a) (ja_userID a) (ja_serverID a) (ja_channelID a) r p
          (ja_selfMute a) (ja_selfDeaf a) false false false [] WaitOffer [] false) ;;
        modify (fun m => m <| mg_sessions ::= <[ja_connectionID a := s]> |>) ;;
        v ← read_room r;
        put_room r (room_addSession (ja_connectionID a) s v) ;;
        push [TInitial s] ;;
        mret None
  end.

Definition removeRoomIfEmpty (channelID : Z) (r : nat) : M Manager unit :=
  v ← read_room r;
  m ← get_state;
  when (room_empty v && bool_decide (mg_rooms m !! channelID = Some r))
    (modify (fun m => m <| mg_rooms ::= delete channelID |>)).

Definition session_close (s : nat) : M Manager unit :=
  v ← read_session s;
  put_session s (v <| sn_closed := true |> <| sn_handshake ::= deadline_Stop |>).

Definition lookup_session (connectionID : string) : M Manager (option nat) :=
  gets (fun m => mg_sessions m !! connectionID).

Definition SetState (connectionID : string) (selfMute selfDeaf : bool) : M Manager (option Error) :=
  found ← lookup_session connectionID;
  match found with
  | None => mret (Some ErrSessionNotFound)
  | Some s =>
      v ← read_session s;
      put_session s (v <| sn_selfMute := selfMute |> <| sn_selfDeaf := selfDeaf |>) ;;
      when (negb (Bool.eqb (sn_selfDeaf v) selfDeaf)) (push [TState s]) ;;
      mret None
  end.

Definition AcceptAnswer (connectionID sdp : string) : M Manager (option Error) :=
  found ← lookup_session connectionID;
  match found with None => mret (Some ErrSessionNotFound) | Some s => acceptAnswer s sdp end.

Definition AddICECandidate (connectionID : string) (candidate : ICECandidateData)
    : M Manager (option Error) :=
  found ← lookup_session connectionID;
  match found with None => mret (Some ErrSessionNotFound) | Some s => addICECandidate s candidate end.

Definition manager_Close : M Manager unit :=
  m ← get_state;
  if mg_closed m then mret tt
  else
    modify (fun m => m <| mg_closed := true |> <| mg_sessions := ∅ |> <| mg_rooms := ∅ |>) ;;
    push (TClose <$> range_values (mg_sessions m)).

(** *** Tracks *)

Definition track_id (kind : Kind) (connectionID : string) : string :=
  match kind with Audio => "audio-" +:+ connectionID | Video => "camera-" +:+ connectionID end.

(** The start of [forwardAudio] and [forwardVideo], and their deferred end. *)
Definition start_forwarding (s : nat) (kind : Kind) : M Manager unit :=
  v ← read_session s;
  if sn_closed v then mret tt
  else
    r ← read_room (sn_room v);
    let '(r', added) := room_addTrack (track_id kind (sn_connectionID v))
      (mkRoomTrack (sn_connectionID v) kind) r in
    put_room (sn_room v) r' ;;
    when added (push [TSnapshot (sn_room v)]).

Definition stop_forwarding (s : nat) (kind : Kind) : M Manager unit :=
  v ← read_session s;
  r ← read_room (sn_room v);
  let '(r', removed) := room_removeTrack (track_id kind (sn_connectionID v)) (sn_connectionID v) r in
  put_room (sn_room v) r' ;;
  when removed (push [TSnapshot (sn_room v)]).

(** [exhausted] of the recovery, the expiry of the handshake timer and the
    closed state of the connection. *)
Definition recovery_exhausted (s : nat) : M Manager unit :=
  v ← read_session s;
  if sn_closed v || Connected (sn_peer v) then mret tt else failSession s "WebRTC recovery exhausted".

Definition handshake_fired (s : nat) (armed : stage) : M Manager unit :=
  match deadline_reason armed with
  | None => mret tt
  | Some reason =>
      v ← read_session s;
      let '(expired, d) := deadline_fire armed (sn_handshake v) in
      put_session s (v <| sn_handshake := d |>) ;;
      when expired (failSession s reason)
  end.

Definition connection_closed (s : nat) : M Manager unit :=
  v ← read_session s;
  when (negb (sn_closed v)) (scheduleFail s "WebRTC connection closed").

Definition connected (s : nat) : M Manager unit :=
  v ← read_session s;
  put_session s (v <| sn_handshake ::= deadline_Stop |>).

(** ** Running a task *)

Definition ignore {A} (m : M Manager A) : M Manager unit := m ;; mret tt.

(** [made] is the peer connection a join obtained, [accepted] the answer of
    the sink to an offer. *)
Definition run_task (t : task) (made : option peer) (accepted : bool) : M Manager unit :=
  match t with
  | TReserve a => ignore (join_reserve a)
  | TJoin a r => ignore (join_commit a r made)
  | TRemoveRoom channelID r => removeRoomIfEmpty channelID r
  | TInitial s =>
      err ← synchronizeTracks s true;
      match err with
      | Some _ => v ← read_session s; Leave (sn_connectionID v)
      | None => mret tt
      end
  | TClose s => session_close s
  | TSnapshot r => v ← read_room r; push (TSync <$> range_values (rm_sessions v))
  | TSync s =>
      err ← synchronizeTracks s false;
      match err with Some _ => scheduleFail s "WebRTC renegotiation failed" | None => mret tt end
  | TState s => ignore (synchronizeTracks s false)
  | TOffer s sdp =>
      v ← read_session s;
      modify (fun m => m <| mg_trace ::= cons (SentOffer (sn_connectionID v) sdp) |>) ;;
      when (negb accepted) (scheduleFail s "WebRTC signaling connection was lost")
  | TAnswer s (candidate :: rest) resync =>
      err ← addICECandidate s candidate;
      match err with Some _ => mret tt | None => push [TAnswer s rest resync] end
  | TAnswer s [] resync => when resync (ignore (synchronizeTracks s false))
  | TFail s reason => failSession s reason
  end.

(** Everything that can happen: a call from outside, an event of a peer
    connection, a failure that a callback reports (a candidate that cannot be
    sent, a bitrate that is exceeded, a panic), or any task that is waiting. *)
Inductive action :=
  | AJoin (a : joinArgs)
  | ALeave (connectionID : string)
  | ASetState (connectionID : string) (selfMute selfDeaf : bool)
  | AAnswer (connectionID sdp : string)
  | ACandidate (connectionID : string) (candidate : ICECandidateData)
  | AClose
  | AStart (s : nat) (kind : Kind)
  | AStop (s : nat) (kind : Kind)
  | ARestart (s : nat)
  | AExhausted (s : nat)
  | AFired (s : nat) (armed : stage)
  | AClosed (s : nat)
  | AConnected (s : nat)
  | AFail (s : nat) (reason : string)
  | ARun (i : nat) (made : option peer) (accepted : bool).

Definition act (a : action) : M Manager unit :=
  match a with
  | AJoin a => ignore (Join a)
  | ALeave c => Leave c
  | ASetState c x y => ignore (SetState c x y)
  | AAnswer c sdp => ignore (AcceptAnswer c sdp)
  | ACandidate c x => ignore (AddICECandidate c x)
  | AClose => manager_Close
  | AStart s k => start_forwarding s k
  | AStop s k => stop_forwarding s k
  | ARestart s => ignore (restartICE s)
  | AExhausted s => recovery_exhausted s
  | AFired s d => handshake_fired s d
  | AClosed s => connection_closed s
  | AConnected s => connected s
  | AFail s reason => scheduleFail s reason
  | ARun i made accepted =>
      m ← get_state;
      match mg_work m !! i with
      | None => mret tt
      | Some t => modify (fun m => m <| mg_work ::= delete i |>) ;; run_task t made accepted
      end
  end.
End manager.
