(* ===== verification/VoiceManagerInv.v ===== *)
(** * The voice media manager: the invariant of its indexes

    Sessions, rooms and reservations agree whatever the order in which the
    goroutines take the locks: the manager's index and the rooms list the same
    sessions, a room counts one reservation for every join under way and never
    exceeds the limit, and a registered room is in use or about to be
    removed. *)

From S2P Require Import Prelude GoText Events VoiceManager.

(** ** Tasks *)

Definition joins_in (r : nat) (t : task) : bool := match t with TJoin _ r' => (r' =? r)%nat | _ => false end.
Definition reserved (r : nat) (ts : list task) : Z := Z.of_nat (length (filter (fun t => joins_in r t = true) ts)).
Definition joining (t : task) : option string :=
  match t with TReserve a | TJoin a _ => Some (ja_connectionID a) | _ => None end.
Definition in_flight (ts : list task) : list string := omap joining ts.

(** A task that is not part of a join and removes no room. *)
Definition plain (t : task) : Prop :=
  match t with TReserve _ | TJoin _ _ | TRemoveRoom _ _ => False | _ => True end.

Definition task_session (t : task) : option nat :=
  match t with
  | TInitial s | TClose s | TSync s | TState s | TOffer s _ | TAnswer s _ _ | TFail s _ => Some s
  | _ => None
  end.
Definition task_room (t : task) : option nat :=
  match t with TRemoveRoom _ r | TSnapshot r | TJoin _ r => Some r | _ => None end.

Lemma reserved_cons r t ts : reserved r (t :: ts) = ((if joins_in r t then 1 else 0) + reserved r ts)%Z.
Proof. unfold reserved. rewrite filter_cons. destruct (joins_in r t); simpl; lia. Qed.

#[global] Instance reserved_perm r : Proper ((≡ₚ) ==> (=)) (reserved r).
Proof. intros ts ts' Hp. unfold reserved. by rewrite Hp. Qed.
#[global] Instance in_flight_perm : Proper ((≡ₚ) ==> (≡ₚ)) in_flight.
Proof. intros ts ts' Hp. unfold in_flight. by rewrite Hp. Qed.

Lemma plain_reserved r t : plain t → joins_in r t = false.
Proof. by destruct t. Qed.
Lemma plain_joining t : plain t → joining t = None.
Proof. by destruct t. Qed.

Section inv.
Context `{MapOrder} `{!Peer}.
Implicit Types (m : Manager).

Definition used (v : room) : Prop := rm_sessions v ≠ ∅ ∨ (0 < rm_reservations v)%Z.

(** The candidates that wait for an answer. *)
Definition named (c : ICECandidateData) : Prop := ic_Candidate c ≠ "".
Definition buffer_ok (v : session) : Prop :=
  (length (sn_pendingCandidates v) <= MaxPendingICECandidates)%nat ∧ Forall named (sn_pendingCandidates v).

Record session_ok m (s : nat) (v : session) : Prop := {
  so_conn : sn_connectionID v ≠ "";
  so_buffer : buffer_ok v;
  so_room : ∃ rv, mg_roomHeap m !! sn_room v = Some rv ∧ rm_id rv = sn_channelID v ∧
    (sn_closed v = false → rm_sessions rv !! sn_connectionID v = Some s)
}.

Record room_ok (ts : list task) m (r : nat) (rv : room) : Prop := {
  ro_capacity : (Z.of_nat (size (rm_sessions rv)) + rm_reservations rv <= mg_maxParticipants m)%Z;
  ro_reserved : rm_reservations rv = reserved r ts;
  ro_sessions : ∀ c s, rm_sessions rv !! c = Some s → ∃ v, mg_heap m !! s = Some v ∧
    sn_connectionID v = c ∧ sn_room v = r ∧ (mg_closed m = false → mg_sessions m !! c = Some s)
}.

Record task_ok m (t : task) : Prop := {
  tk_session : ∀ s, task_session t = Some s → is_Some (mg_heap m !! s);
  tk_room : ∀ r, task_room t = Some r → is_Some (mg_roomHeap m !! r);
  tk_join : ∀ c, joining t = Some c → c ≠ "" ∧ mg_sessions m !! c = None;
  tk_reservation : ∀ a r rv, t = TJoin a r → mg_roomHeap m !! r = Some rv → rm_id rv = ja_channelID a;
  tk_close : ∀ s, t = TClose s → ∀ c, mg_sessions m !! c ≠ Some s;
  tk_answer : ∀ s cs b, t = TAnswer s cs b → Forall named cs
}.

Record mgr_inv (ts : list task) m : Prop := {
  mi_max : (2 <= mg_maxParticipants m <= 100)%Z;
  mi_heap : ∀ s v, mg_heap m !! s = Some v → session_ok m s v;
  mi_rooms : ∀ r rv, mg_roomHeap m !! r = Some rv → room_ok ts m r rv;
  mi_index : ∀ c s, mg_sessions m !! c = Some s → mg_closed m = false ∧ ∃ v, mg_heap m !! s = Some v ∧
    sn_connectionID v = c ∧ sn_closed v = false;
  mi_registered : ∀ ch r, mg_rooms m !! ch = Some r → ∃ rv, mg_roomHeap m !! r = Some rv ∧
    rm_id rv = ch ∧ (used rv ∨ TRemoveRoom ch r ∈ ts);
  mi_occupied : mg_closed m = false → ∀ r rv, mg_roomHeap m !! r = Some rv → used rv →
    mg_rooms m !! rm_id rv = Some r;
  mi_tasks : ∀ t, t ∈ ts → task_ok m t;
  mi_flight : NoDup (in_flight ts)
}.

(** The state of affairs between two steps, with the tasks [ext] in hand. *)
Definition holding (ext : list task) m : Prop := mgr_inv (ext ++ mg_work m) m.

Lemma mgr_inv_perm ts ts' m : ts ≡ₚ ts' → mgr_inv ts m → mgr_inv ts' m.
Proof.
  intros Hp [H1 H2 H3 H4 H5 H6 H7 H8]. split; [done|done| |done| |done| |by rewrite <- Hp].
  - intros r rv Hr. destruct (H3 r rv Hr) as [Hc Hres Hs]. split; [done| |done]. by rewrite <- Hp.
  - intros ch r Hr. destruct (H5 ch r Hr) as (rv&?&?&Hu). exists rv. split_and!; [done..|].
    by rewrite <- Hp.
  - intros t. rewrite <- Hp. intros Ht. destruct (H7 t Ht). by split.
Qed.

(** Putting plain tasks on the list, or taking one off. *)
Lemma mgr_inv_plain ts t m : plain t → mgr_inv (t :: ts) m → mgr_inv ts m.
Proof.
  intros Hpl [H1 H2 H3 H4 H5 H6 H7 H8]. split; [done|done| |done| |done| |].
  - intros r rv Hr. destruct (H3 r rv Hr) as [Hc Hres Hs]. split; [done| |done].
    by rewrite reserved_cons, plain_reserved in Hres.
  - intros ch r Hr. destruct (H5 ch r Hr) as (rv&?&?&[Hu|Hin]); exists rv; (split_and!; [done..|]); [by left|].
    right. apply elem_of_cons in Hin as [<-|]; done.
  - intros t' Ht'. destruct (H7 t') as [? ? ? ? ? ?]; [set_solver|]. by split.
  - unfold in_flight in H8. simpl in H8. by rewrite plain_joining in H8.
Qed.

Definition fits m (t : task) : Prop :=
  plain t ∧ (∀ s, task_session t = Some s → is_Some (mg_heap m !! s)) ∧
  (∀ r, task_room t = Some r → is_Some (mg_roomHeap m !! r)) ∧
  (∀ s, t = TClose s → ∀ c, mg_sessions m !! c ≠ Some s) ∧
  (∀ s cs b, t = TAnswer s cs b → Forall named cs).

Lemma mgr_inv_push ts t m : fits m t → mgr_inv ts m → mgr_inv (t :: ts) m.
Proof.
  intros (Hpl&Hs&Hr&Hc&Ha) [H1 H2 H3 H4 H5 H6 H7 H8]. split; [done|done| |done| |done| |].
  - intros r rv Hrv. destruct (H3 r rv Hrv) as [Hcap Hres Hss]. split; [done| |done].
    by rewrite reserved_cons, plain_reserved.
  - intros ch r Hrr. destruct (H5 ch r Hrr) as (rv&?&?&[Hu|Hin]); exists rv; (split_and!; [done..|]); [by left|].
    right. set_solver.
  - intros t' [->|Ht']%elem_of_cons; [|destruct (H7 t' Ht'); by split].
    split; [done|done| | |done|done]; by destruct t.
  - unfold in_flight. simpl. by rewrite plain_joining.
Qed.

Lemma holding_push ext us m :
  Forall (fits m) us → holding ext m → holding ext (m <| mg_work ::= (us ++.) |>).
Proof.
  unfold holding. intros Hf Hi. assert (mgr_inv (us ++ ext ++ mg_work m) m) as Hi'.
  { induction Hf as [|t us Ht _ IH]; [done|]. simpl. by apply mgr_inv_push. }
  apply (mgr_inv_perm _ (ext ++ us ++ mg_work m)) in Hi'.
  - destruct Hi' as [H1 H2 H3 H4 H5 H6 H7 H8]. split; try done.
    + intros s v Hv. destruct (H2 s v Hv). by split.
    + intros r rv Hr. destruct (H3 r rv Hr). by split.
    + intros t Ht. destruct (H7 t Ht). by split.
  - rewrite !app_assoc. f_equiv. apply Permutation_app_comm.
Qed.
End inv.
