(* ===== verification/VoiceManagerKeep.v ===== *)
(** * The voice media manager: the indexes survive every transition

    For every way in which the code changes the manager, a lemma that the
    invariant of [VoiceManagerInv] holds again afterwards. *)

From S2P Require Import Prelude GoText Events VoiceManager VoiceManagerInv.

Section keep.
Context `{MapOrder} `{!Peer}.
Implicit Types (m : Manager) (v : session) (rv : room).

Lemma mgr_inv_same ts m m' :
  mg_rooms m' = mg_rooms m → mg_sessions m' = mg_sessions m → mg_closed m' = mg_closed m →
  mg_maxParticipants m' = mg_maxParticipants m → mg_roomHeap m' = mg_roomHeap m → mg_heap m' = mg_heap m →
  mgr_inv ts m → mgr_inv ts m'.
Proof.
  destruct m, m'; simpl; intros -> -> -> -> -> -> [H1 H2 H3 H4 H5 H6 H7 H8]. split; try done.
  - intros s v Hv. destruct (H2 s v Hv). by split.
  - intros r rv Hr. destruct (H3 r rv Hr). by split.
  - intros t Ht. destruct (H7 t Ht). by split.
Qed.

(** ** One session *)

Lemma mgr_inv_session ts s v v' m :
  mgr_inv ts m → mg_heap m !! s = Some v →
  sn_connectionID v' = sn_connectionID v → sn_channelID v' = sn_channelID v → sn_room v' = sn_room v →
  sn_closed v' = sn_closed v ∨ (sn_closed v' = true ∧ ∀ c, mg_sessions m !! c ≠ Some s) →
  (buffer_ok v → buffer_ok v') →
  mgr_inv ts (m <| mg_heap ::= <[s := v']> |>).
Proof.
  intros [H1 H2 H3 H4 H5 H6 H7 H8] Hv Hc Hch Hr Hcl Hb.
  assert (∀ s0, is_Some (mg_heap m !! s0) → is_Some (<[s := v']> (mg_heap m) !! s0)) as Hmono.
  { intros s0 Hs0. rewrite lookup_insert_is_Some. destruct (decide (s = s0)); [by left|by right]. }
  split; simpl; [done| | | |done|done| |done].
  - intros s0 v0 [[<- <-]|[? Hv0]]%lookup_insert_Some; [|destruct (H2 s0 v0 Hv0); by split].
    destruct (H2 s v Hv) as [Ha Hbuf (rv&Hrv&Hid&Hlive)]. split; [by rewrite Hc|by apply Hb|].
    exists rv. rewrite Hr, Hc, Hch. split_and!; [done..|]. intros Hcl'. apply Hlive.
    destruct Hcl as [<-|[? _]]; [done|congruence].
  - intros r rv Hrv. destruct (H3 r rv Hrv) as [Hcap Hres Hs]. split; [done..|].
    intros c s0 Hc0. destruct (Hs c s0 Hc0) as (v0&Hv0&<-&<-&Hi). simpl.
    destruct (decide (s = s0)) as [<-|Hne].
    + exists v'. rewrite lookup_insert_eq. simplify_eq. by rewrite Hc.
    + exists v0. by rewrite lookup_insert_ne.
  - intros c s0 Hs0. destruct (H4 c s0 Hs0) as (?&v0&Hv0&<-&Hcl0). split; [done|].
    destruct (decide (s = s0)) as [<-|Hne].
    + simplify_eq. exists v'. rewrite lookup_insert_eq. split_and!; [done..|].
      destruct Hcl as [->|[_ Hno]]; [done|by destruct (Hno _ Hs0)].
    + exists v0. by rewrite lookup_insert_ne.
  - intros t Ht. destruct (H7 t Ht). split; eauto.
Qed.

(** ** The tracks of a room *)

Lemma mgr_inv_tracks ts r rv tracks m :
  mgr_inv ts m → mg_roomHeap m !! r = Some rv →
  mgr_inv ts (m <| mg_roomHeap ::= <[r := rv <| rm_tracks := tracks |>]> |>).
Proof.
  intros [H1 H2 H3 H4 H5 H6 H7 H8] Hr. set (rv' := rv <| rm_tracks := tracks |>).
  assert (∀ r0 rv0, mg_roomHeap m !! r0 = Some rv0 → ∃ rv1, <[r := rv']> (mg_roomHeap m) !! r0 = Some rv1 ∧
    rm_id rv1 = rm_id rv0 ∧ rm_sessions rv1 = rm_sessions rv0 ∧ rm_reservations rv1 = rm_reservations rv0) as Hto.
  { intros r0 rv0 Hr0. destruct (decide (r = r0)) as [<-|Hne].
    - exists rv'. rewrite lookup_insert_eq. by simplify_eq.
    - exists rv0. by rewrite lookup_insert_ne. }
  assert (∀ r0 rv1, <[r := rv']> (mg_roomHeap m) !! r0 = Some rv1 → ∃ rv0, mg_roomHeap m !! r0 = Some rv0 ∧
    rm_id rv1 = rm_id rv0 ∧ rm_sessions rv1 = rm_sessions rv0 ∧ rm_reservations rv1 = rm_reservations rv0) as Hfrom.
  { intros r0 rv1 [[<- <-]|[? Hr0]]%lookup_insert_Some; [by exists rv|by exists rv1]. }
  split; simpl; [done| | |done| | | |done].
  - intros s v Hv. destruct (H2 s v Hv) as [Ha Hbuf (rv0&Hrv&Hid&Hlive)]. split; [done..|].
    destruct (Hto _ _ Hrv) as (rv1&?&?&Hs&?). exists rv1. split_and!; [done|congruence|by rewrite Hs].
  - intros r0 rv1 Hr1. destruct (Hfrom _ _ Hr1) as (rv0&Hr0&?&Hs&Hres). destruct (H3 r0 rv0 Hr0).
    split; simpl; rewrite ?Hs, ?Hres; done.
  - intros ch r0 Hr0. destruct (H5 ch r0 Hr0) as (rv0&Hrv&Hid&Hu). destruct (Hto _ _ Hrv) as (rv1&?&?&Hs&Hres).
    exists rv1. split_and!; [done|congruence|]. unfold used. by rewrite Hs, Hres.
  - intros Hcl r0 rv1 Hr1. destruct (Hfrom _ _ Hr1) as (rv0&Hr0&->&Hs&Hres). unfold used. rewrite Hs, Hres.
    by apply H6.
  - intros t Ht. destruct (H7 t Ht) as [Ha Hb Hc Hd He Hf]. split; [done| |done| |done|done].
    + intros r0 Hr0. destruct (Hb r0 Hr0) as [rv0 Hrv]. destruct (Hto _ _ Hrv) as (rv1&?&_). by exists rv1.
    + intros a r0 rv1 Heq Hr1. destruct (Hfrom _ _ Hr1) as (rv0&Hr0&->&_). by eapply Hd.
Qed.

(** ** Rooms that are no longer used *)

Lemma room_empty_used rv : room_empty rv = true → used rv → False.
Proof. unfold room_empty, used. rewrite andb_true_iff, bool_decide_eq_true, Z.eqb_eq. intros [? ?] [?|?]; [done|lia]. Qed.

Lemma room_used ts m r rv : mgr_inv ts m → mg_roomHeap m !! r = Some rv → room_empty rv = false → used rv.
Proof.
  intros Hi Hr. destruct (mi_rooms _ _ Hi _ _ Hr) as [_ Hres _]. unfold room_empty, used, reserved in *.
  rewrite andb_false_iff, bool_decide_eq_false, Z.eqb_neq. intros [?|?]; [by left|right; lia].
Qed.

Lemma mgr_inv_removeRoom ts ch r rv m :
  mgr_inv (TRemoveRoom ch r :: ts) m → mg_roomHeap m !! r = Some rv →
  mgr_inv ts (if room_empty rv && bool_decide (mg_rooms m !! ch = Some r)
    then m <| mg_rooms ::= delete ch |> else m).
Proof.
  intros Hi Hr. pose proof (room_used _ _ _ _ Hi Hr) as Hused. destruct Hi as [H1 H2 H3 H4 H5 H6 H7 H8].
  assert (∀ r0 rv0, mg_roomHeap m !! r0 = Some rv0 → room_ok ts m r0 rv0) as H3'.
  { intros r0 rv0 Hr0. destruct (H3 r0 rv0 Hr0). by split. }
  assert (∀ ch0 r0, mg_rooms m !! ch0 = Some r0 → (ch0, r0) ≠ (ch, r) ∨ used rv → ∃ rv0,
    mg_roomHeap m !! r0 = Some rv0 ∧ rm_id rv0 = ch0 ∧ (used rv0 ∨ TRemoveRoom ch0 r0 ∈ ts)) as H5'.
  { intros ch0 r0 Hr0 Hne. destruct (H5 ch0 r0 Hr0) as (rv0&?&?&Hu). exists rv0. split_and!; [done..|].
    destruct Hu as [?|Hin]; [by left|]. apply elem_of_cons in Hin as [Heq|?]; [|by right].
    injection Heq as -> ->. simplify_eq. destruct Hne; [done|by left]. }
  destruct (room_empty rv && _) eqn:Hcase.
  - apply andb_true_iff in Hcase as [Hemp Hreg%bool_decide_eq_true]. split; simpl; [done| | |done| | | |done].
    + intros s v Hv. destruct (H2 s v Hv). by split.
    + intros r0 rv0 Hr0. destruct (H3' r0 rv0 Hr0). by split.
    + intros ch0 r0 [Hne Hr0]%lookup_delete_Some. apply H5'; [done|left; congruence].
    + intros Hcl r0 rv0 Hr0 Hu. rewrite lookup_delete_ne; [by apply H6|]. intros ->.
      assert (r0 = r) as -> by (specialize (H6 Hcl r0 rv0 Hr0 Hu); congruence).
      simplify_eq. by apply (room_empty_used rv).
    + intros t Ht. destruct (H7 t) as [? ? ? ? ? ?]; [set_solver|]. by split.
  - split; [done|done|done|done| |done| |done].
    + intros ch0 r0 Hr0. apply H5'; [done|]. destruct (room_empty rv) eqn:Hemp; [left|right; by apply Hused].
      intros [= -> ->]. simpl in Hcase. by apply bool_decide_eq_false in Hcase.
    + intros t Ht. apply H7. set_solver.
Qed.

Lemma mgr_inv_unlist ts c s v rv m :
  mgr_inv ts m → mg_sessions m !! c = Some s → mg_heap m !! s = Some v → mg_roomHeap m !! sn_room v = Some rv →
  mgr_inv (TRemoveRoom (sn_channelID v) (sn_room v) :: ts)
    (m <| mg_sessions ::= delete c |> <| mg_heap ::= <[s := v <| sn_closed := true |>]> |>
       <| mg_roomHeap ::= <[sn_room v := rv <| rm_sessions ::= delete c |>]> |>).
Proof.
  intros [H1 H2 H3 H4 H5 H6 H7 H8] Hc Hv Hr. destruct (H4 c s Hc) as (Hopen&v0&Hv0&Hvc&Hlive).
  simplify_eq. destruct (H2 s v Hv) as [Hne Hbuf (rv0&Hrv0&Hid&Hin)]. simplify_eq. specialize (Hin Hlive).
  set (c := sn_connectionID v) in *. set (r := sn_room v) in *. set (rv' := rv <| rm_sessions ::= delete c |>).
  assert (∀ s0, is_Some (mg_heap m !! s0) → is_Some (<[s := v <| sn_closed := true |>]> (mg_heap m) !! s0)) as Hheap.
  { intros s0 ?. rewrite lookup_insert_is_Some. destruct (decide (s = s0)); [by left|by right]. }
  assert (∀ r0, is_Some (mg_roomHeap m !! r0) → is_Some (<[r := rv']> (mg_roomHeap m) !! r0)) as Hrooms.
  { intros r0 ?. rewrite lookup_insert_is_Some. destruct (decide (r = r0)); [by left|by right]. }
  split; simpl; [done| | | | | | |done].
  - intros s0 v1 [[<- <-]|[Hs0 Hv1]]%lookup_insert_Some.
    { split; [done..|]. exists rv'. split_and!; [apply lookup_insert_eq|done|done]. }
    destruct (H2 s0 v1 Hv1) as [? ? (rv1&Hrv1&Hid1&Hin1)]. split; [done..|].
    destruct (decide (sn_room v1 = r)) as [Hsame|Hdiff].
    + rewrite Hsame in *. simplify_eq. exists rv'. simpl. rewrite lookup_insert_eq. split_and!; [done..|].
      intros Hl. specialize (Hin1 Hl). subst rv'. simpl. rewrite lookup_delete_ne; [done|].
      intros Heq. rewrite <- Heq in Hin1. congruence.
    + exists rv1. simpl. by rewrite lookup_insert_ne.
  - intros r0 rv1 [[<- <-]|[Hr0 Hrv1]]%lookup_insert_Some.
    + destruct (H3 r rv Hr) as [Hcap Hres Hs]. split; simpl.
      * rewrite map_size_delete, Hin. simpl. lia.
      * done.
      * intros c0 s0 [Hc0 Hin0]%lookup_delete_Some. destruct (Hs c0 s0 Hin0) as (v0&Hv0&?&?&Hidx).
        exists v0. rewrite lookup_insert_ne by (intros ->; simplify_eq; done).
        by rewrite lookup_delete_ne.
    + destruct (H3 r0 rv1 Hrv1) as [Hcap Hres Hs]. split; simpl; [done..|].
      intros c0 s0 Hin0. destruct (Hs c0 s0 Hin0) as (v0&Hv0&?&?&Hidx). exists v0.
      assert (s ≠ s0) by (intros ->; simplify_eq; done).
      rewrite lookup_insert_ne by done. split_and!; [done..|]. intros _. rewrite lookup_delete_ne; [by apply Hidx|].
      intros <-. specialize (Hidx Hopen). congruence.
  - intros c0 s0 [Hc0 Hs0]%lookup_delete_Some. destruct (H4 c0 s0 Hs0) as (_&v0&Hv0&<-&?). split; [done|].
    exists v0. rewrite lookup_insert_ne by (intros ->; simplify_eq; done). done.
  - intros ch r0 Hr0. destruct (H5 ch r0 Hr0) as (rv1&Hrv1&Hid1&Hu). destruct (decide (r = r0)) as [<-|Hner].
    + simplify_eq. exists rv'. rewrite lookup_insert_eq. split_and!; [done..|]. right. rewrite Hid. left.
    + exists rv1. rewrite lookup_insert_ne by done. split_and!; [done..|]. destruct Hu; [by left|by right; right].
  - intros _ r0 rv1 [[<- <-]|[Hr0 Hrv1]]%lookup_insert_Some Hu; [|by apply H6].
    apply (H6 Hopen r rv Hr). destruct Hu as [Hu|?]; [left|by right]. intros Hemp. apply Hu. simpl. by rewrite Hemp, delete_empty.
  - intros t [->|Ht]%elem_of_cons.
    + split; try done. simpl. intros r0 [= <-]. rewrite lookup_insert_eq. done.
    + destruct (H7 t Ht) as [Ha Hb Hcj Hd He Hf]. split; simpl.
      * intros s0 Hs0. by apply Hheap, Ha.
      * intros r0 Hr0. by apply Hrooms, Hb.
      * intros c0 Hj. destruct (Hcj c0 Hj) as [? Hnone]. split; [done|]. rewrite lookup_delete_None. by right.
      * intros a r0 rv1 -> [[<- <-]|[? Hrv1]]%lookup_insert_Some; [exact (Hd a r rv eq_refl Hr)|by eapply Hd].
      * intros s0 -> c0 [_ Hs0]%lookup_delete_Some. by eapply He.
      * done.
Qed.

(** ** Reservations *)

Lemma mgr_inv_flight ts a m :
  ja_connectionID a ≠ "" → mg_sessions m !! ja_connectionID a = None → ja_connectionID a ∉ in_flight ts →
  mgr_inv ts m → mgr_inv (TReserve a :: ts) m.
Proof.
  intros Hne Hno Hfl [H1 H2 H3 H4 H5 H6 H7 H8]. split; [done|done| |done| |done| |].
  - intros r rv Hr. destruct (H3 r rv Hr). by split.
  - intros ch r Hr. destruct (H5 ch r Hr) as (rv&?&?&[?|?]); exists rv; (split_and!; [done..|]); [by left|].
    right. by right.
  - intros t [->|Ht]%elem_of_cons; [|by apply H7]. split; try done. simpl. by intros c [= <-].
  - by constructor.
Qed.

Lemma mgr_inv_unreserved ts a m : mgr_inv (TReserve a :: ts) m → mgr_inv ts m.
Proof.
  intros [H1 H2 H3 H4 H5 H6 H7 H8]. split; [done|done| |done| |done| |].
  - intros r rv Hr. destruct (H3 r rv Hr). by split.
  - intros ch r Hr. destruct (H5 ch r Hr) as (rv&?&?&[?|Hin]); exists rv; (split_and!; [done..|]); [by left|].
    right. by apply elem_of_cons in Hin as [?|?].
  - intros t Ht. apply H7. by right.
  - by apply NoDup_cons in H8 as [_ ?].
Qed.

Lemma reserved_none r ts m :
  (∀ t, t ∈ ts → task_ok m t) → mg_roomHeap m !! r = None → reserved r ts = 0%Z.
Proof.
  intros Ht Hr. induction ts as [|t ts IH]; [done|]. rewrite reserved_cons, IH by (intros; apply Ht; by right).
  destruct (joins_in r t) eqn:Hj; [|done]. destruct (Ht t) as [_ Hroom _ _ _ _]; [by left|].
  destruct t; try done. apply Nat.eqb_eq in Hj as ->. destruct (Hroom r) as [? ?]; [done|congruence].
Qed.

Lemma mgr_inv_newRoom ts ch r m :
  mgr_inv ts m → mg_rooms m !! ch = None → mg_roomHeap m !! r = None →
  mgr_inv (TRemoveRoom ch r :: ts) (m <| mg_roomHeap ::= <[r := newRoom ch]> |> <| mg_rooms ::= <[ch := r]> |>).
Proof.
  intros [H1 H2 H3 H4 H5 H6 H7 H8] Hch Hr. pose proof (reserved_none _ _ _ H7 Hr) as Hres0.
  assert (∀ r0 rv0, mg_roomHeap m !! r0 = Some rv0 → <[r := newRoom ch]> (mg_roomHeap m) !! r0 = Some rv0) as Hto.
  { intros r0 rv0 Hr0. rewrite lookup_insert_ne; [done|congruence]. }
  split; simpl; [done| | |done| | | |done].
  - intros s v Hv. destruct (H2 s v Hv) as [? ? (rv&Hrv&?&?)]. split; [done..|]. exists rv. split_and!; [|done..].
    by apply Hto.
  - intros r0 rv0 [[<- <-]|[? Hr0]]%lookup_insert_Some; [|destruct (H3 r0 rv0 Hr0); by split].
    split; simpl; [rewrite map_size_empty; lia|by rewrite reserved_cons, Hres0|done].
  - intros ch0 r0 [[<- <-]|[? Hr0]]%lookup_insert_Some.
    { exists (newRoom ch). rewrite lookup_insert_eq. split_and!; [done..|]. right. left. }
    destruct (H5 ch0 r0 Hr0) as (rv0&?&?&Hu). exists rv0. split_and!; [by apply Hto|done|].
    destruct Hu; [by left|right; by right].
  - intros Hcl r0 rv0 [[<- <-]|[? Hr0]]%lookup_insert_Some Hu; [by destruct Hu|].
    rewrite lookup_insert_ne; [by apply H6|]. intros ->. rewrite (H6 Hcl r0 rv0) in Hch; done.
  - intros t [->|Ht]%elem_of_cons.
    + split; try done. simpl. intros r0 [= <-]. rewrite lookup_insert_eq. done.
    + destruct (H7 t Ht) as [Ha Hb Hc Hd He Hf]. split; simpl; [done| |done| |done|done].
      * intros r0 Hr0. destruct (Hb r0 Hr0) as [rv0 ?]. exists rv0. by apply Hto.
      * intros a r0 rv0 Heq [[<- <-]|[? Hr0]]%lookup_insert_Some; [|by eapply Hd].
        destruct (Hb r) as [? ?]; [by rewrite Heq|congruence].
Qed.

(** A task [t] that changes the number of reservations of a room becomes [t']. *)
Lemma mgr_inv_reservations ts t t' r rv n m :
  mgr_inv (t :: ts) m → mg_roomHeap m !! r = Some rv →
  (Z.of_nat (size (rm_sessions rv)) + n <= mg_maxParticipants m)%Z → n = reserved r (t' :: ts) →
  (∀ r0, r0 ≠ r → joins_in r0 t = joins_in r0 t') → (∀ ch r0, t ≠ TRemoveRoom ch r0) →
  ((0 < n)%Z ∨ t' = TRemoveRoom (rm_id rv) r) →
  ((0 < n)%Z → mg_closed m = false → mg_rooms m !! rm_id rv = Some r) →
  task_ok m t' → NoDup (in_flight (t' :: ts)) →
  mgr_inv (t' :: ts) (m <| mg_roomHeap ::= <[r := rv <| rm_reservations := n |>]> |>).
Proof.
  intros [H1 H2 H3 H4 H5 H6 H7 H8] Hr Hcap Hn Hjoin Hnot Hown Hreg Hok Hfl.
  set (rv' := rv <| rm_reservations := n |>).
  assert (∀ r0, is_Some (mg_roomHeap m !! r0) → is_Some (<[r := rv']> (mg_roomHeap m) !! r0)) as Hrooms.
  { intros r0 ?. rewrite lookup_insert_is_Some. destruct (decide (r = r0)); [by left|by right]. }
  assert (∀ t0, task_ok m t0 → task_ok (m <| mg_roomHeap ::= <[r := rv']> |>) t0) as Htask.
  { intros t0 [Ha Hb Hc Hd He Hf]. split; simpl; [done|eauto|done| |done|done].
    intros a r0 rv0 Heq [[<- <-]|[? Hr0]]%lookup_insert_Some; [exact (Hd a r rv Heq Hr)|by eapply Hd]. }
  split; simpl; [done| | |done| | | |done].
  - intros s v Hv. destruct (H2 s v Hv) as [? ? (rv0&Hrv&?&?)]. split; [done..|]. simpl.
    destruct (decide (r = sn_room v)) as [->|?]; [|exists rv0; by rewrite lookup_insert_ne].
    exists rv'. rewrite lookup_insert_eq. simplify_eq. done.
  - intros r0 rv0 [[<- <-]|[? Hr0]]%lookup_insert_Some.
    + destruct (H3 r rv Hr). by split.
    + destruct (H3 r0 rv0 Hr0) as [? Hres ?]. split; [done| |done].
      rewrite Hres, !reserved_cons, Hjoin by done. done.
  - intros ch r0 Hr0. destruct (H5 ch r0 Hr0) as (rv0&Hrv0&Hid&Hu). destruct (decide (r = r0)) as [<-|?].
    + exists rv'. rewrite lookup_insert_eq. simplify_eq. split_and!; [done..|].
      destruct Hown as [?| ->]; [left; by right|right; left].
    + exists rv0. rewrite lookup_insert_ne by done. split_and!; [done..|].
      destruct Hu as [?|Hin]; [by left|]. right. apply elem_of_cons in Hin as [<-|?]; [by edestruct Hnot|by right].
  - intros Hcl r0 rv0 [[<- <-]|[? Hr0]]%lookup_insert_Some Hu; [|by apply H6].
    destruct Hu as [Hu|?]; [|by apply Hreg]. apply (H6 Hcl r rv Hr). by left.
  - intros t0 [->|Ht]%elem_of_cons; apply Htask; [done|]. apply H7. by right.
Qed.

Lemma reserved_nonneg r ts : (0 <= reserved r ts)%Z.
Proof. unfold reserved. lia. Qed.

Lemma mgr_inv_reserve ts a r rv rv' m :
  mgr_inv (TReserve a :: ts) m → mg_rooms m !! ja_channelID a = Some r → mg_roomHeap m !! r = Some rv →
  room_reserve (mg_maxParticipants m) rv = Some rv' →
  mgr_inv (TJoin a r :: ts) (m <| mg_roomHeap ::= <[r := rv']> |>).
Proof.
  intros Hi Hch Hr Hrs. unfold room_reserve in Hrs. destruct (Z.leb_spec (mg_maxParticipants m)
    (Z.of_nat (size (rm_sessions rv)) + rm_reservations rv)) as [?|Hlt]; [done|]. injection Hrs as <-.
  destruct (mi_rooms _ _ Hi _ _ Hr) as [_ Hres _]. pose proof (reserved_nonneg r ts).
  destruct (mi_registered _ _ Hi _ _ Hch) as (rv0&Hrv0&Hid&_). simplify_eq.
  destruct (mi_tasks _ _ Hi (TReserve a)) as [_ _ Hj _ _ _]; [left|].
  rewrite reserved_cons in Hres. simpl in Hres.
  apply (mgr_inv_reservations _ (TReserve a) _ _ _ (1 + rm_reservations rv)%Z); try done.
  - lia.
  - rewrite reserved_cons. simpl. rewrite Nat.eqb_refl. lia.
  - intros r0 Hne. simpl. symmetry. apply Nat.eqb_neq. congruence.
  - left. lia.
  - by rewrite Hid.
  - split; try done; simpl.
    + intros r0 [= <-]. by rewrite Hr.
    + intros a0 r0 rv0 [= <- <-] Hr0. simplify_eq. done.
  - exact (mi_flight _ _ Hi).
Qed.

Lemma mgr_inv_cancel ts a r rv m :
  mgr_inv (TJoin a r :: ts) m → mg_roomHeap m !! r = Some rv →
  mgr_inv (TRemoveRoom (ja_channelID a) r :: ts) (m <| mg_roomHeap ::= <[r := room_cancelReservation rv]> |>).
Proof.
  intros Hi Hr. destruct (mi_rooms _ _ Hi _ _ Hr) as [Hcap Hres _]. pose proof (reserved_nonneg r ts).
  destruct (mi_tasks _ _ Hi (TJoin a r)) as [_ _ _ Hid _ _]; [left|]. specialize (Hid a r rv eq_refl Hr).
  rewrite reserved_cons in Hres. simpl in Hres. rewrite Nat.eqb_refl in Hres. unfold room_cancelReservation.
  destruct (Z.ltb_spec 0 (rm_reservations rv)) as [Hpos|?]; [|lia].
  apply (mgr_inv_reservations _ (TJoin a r) _ _ _ (Z.pred (rm_reservations rv))); try done.
  - lia.
  - rewrite reserved_cons. simpl. lia.
  - intros r0 Hne. simpl. apply Nat.eqb_neq. congruence.
  - right. by rewrite Hid.
  - intros _ Hcl. apply (mi_occupied _ _ Hi Hcl _ _ Hr). by right.
  - split; try done. simpl. intros r0 [= <-]. by rewrite Hr.
  - pose proof (mi_flight _ _ Hi) as Hfl. by apply NoDup_cons in Hfl as [_ ?].
Qed.

(** ** Joining and closing *)

Lemma in_flight_joining c ts : c ∈ in_flight ts ↔ ∃ t, t ∈ ts ∧ joining t = Some c.
Proof. unfold in_flight. rewrite list_elem_of_omap. naive_solver. Qed.

Lemma mgr_inv_enlist ts c r rv s v m :
  mgr_inv (TRemoveRoom (sn_channelID v) r :: ts) m → mg_closed m = false → mg_roomHeap m !! r = Some rv →
  mg_rooms m !! sn_channelID v = Some r → rm_id rv = sn_channelID v → mg_heap m !! s = None →
  sn_connectionID v = c → sn_room v = r → buffer_ok v → sn_closed v = false →
  c ≠ "" → mg_sessions m !! c = None → c ∉ in_flight ts →
  (Z.of_nat (size (rm_sessions rv)) + rm_reservations rv < mg_maxParticipants m)%Z →
  mgr_inv ts (m <| mg_heap ::= <[s := v]> |> <| mg_sessions ::= <[c := s]> |>
    <| mg_roomHeap ::= <[r := rv <| rm_sessions ::= <[c := s]> |>]> |>).
Proof.
  intros [H1 H2 H3 H4 H5 H6 H7 H8] Hopen Hr Hreg Hid Hs Hvc Hvr Hbuf Hvcl Hne Hnone Hfl Hcap.
  set (rv' := rv <| rm_sessions ::= <[c := s]> |>).
  assert (∀ s0 v0, mg_heap m !! s0 = Some v0 → <[s := v]> (mg_heap m) !! s0 = Some v0) as Hheap.
  { intros s0 v0 Hv0. rewrite lookup_insert_ne; [done|congruence]. }
  assert (∀ c0 s0, mg_sessions m !! c0 = Some s0 → <[c := s]> (mg_sessions m) !! c0 = Some s0) as Hidx.
  { intros c0 s0 Hc0. rewrite lookup_insert_ne; [done|congruence]. }
  assert (used rv') as Hused by (left; apply insert_non_empty).
  split; simpl; [done| | | | | | |done].
  - intros s0 v0 [[<- <-]|[? Hv0]]%lookup_insert_Some.
    { split; [by rewrite Hvc|done|]. exists rv'. rewrite Hvr. split_and!; [apply lookup_insert_eq|done|].
      intros _. rewrite Hvc. apply lookup_insert_eq. }
    destruct (H2 s0 v0 Hv0) as [? ? (rv0&Hrv0&?&Hin)]. split; [done..|]. simpl.
    destruct (decide (r = sn_room v0)) as [->|?]; [|exists rv0; by rewrite lookup_insert_ne].
    simplify_eq. exists rv'. rewrite lookup_insert_eq. split_and!; [done..|]. intros Hl. specialize (Hin Hl).
    simpl. rewrite lookup_insert_ne; [done|]. intros Heq. destruct (H3 _ _ Hr) as [_ _ Hss].
    destruct (Hss _ _ Hin) as (?&?&_&_&Hx). specialize (Hx Hopen). rewrite <- Heq in Hx. congruence.
  - intros r0 rv0 [[<- <-]|[? Hr0]]%lookup_insert_Some.
    + destruct (H3 _ _ Hr) as [_ Hres Hss]. split; [|done|].
      * simpl. rewrite map_size_insert. destruct (rm_sessions rv !! c); simpl; lia.
      * simpl. intros c0 s0 [[<- <-]|[? Hc0]]%lookup_insert_Some.
        { exists v. rewrite !lookup_insert_eq. done. }
        destruct (Hss _ _ Hc0) as (v0&?&?&?&?). exists v0. split_and!; eauto.
    + destruct (H3 _ _ Hr0) as [? ? Hss]. split; [done..|]. simpl. intros c0 s0 Hc0.
      destruct (Hss _ _ Hc0) as (v0&?&?&?&?). exists v0. split_and!; eauto.
  - intros c0 s0 [[<- <-]|[? Hc0]]%lookup_insert_Some; (split; [done|]).
    + exists v. by rewrite lookup_insert_eq.
    + destruct (H4 _ _ Hc0) as (_&v0&?&?&?). exists v0. split_and!; eauto.
  - intros ch r0 Hr0. destruct (H5 _ _ Hr0) as (rv0&Hrv0&?&Hu). destruct (decide (r = r0)) as [<-|?].
    + exists rv'. rewrite lookup_insert_eq. simplify_eq. split_and!; [done..|]. by left.
    + exists rv0. rewrite lookup_insert_ne by done. split_and!; [done..|].
      destruct Hu as [?|Hin]; [by left|]. right. apply elem_of_cons in Hin as [?|?]; [congruence|done].
  - intros _ r0 rv0 [[<- <-]|[? Hr0]]%lookup_insert_Some Hu; [by simpl; rewrite Hid|by apply H6].
  - intros t Ht. destruct (H7 t) as [Ha Hb Hc Hd He Hf]; [by right|]. split; simpl; [| | | | |done].
    + intros s0 Hs0. destruct (Ha _ Hs0) as [v0 ?]. exists v0. by apply Hheap.
    + intros r0 Hr0. rewrite lookup_insert_is_Some. destruct (decide (r = r0)); [by left|right; eauto].
    + intros c0 Hj. destruct (Hc c0 Hj). split; [done|]. rewrite lookup_insert_ne; [done|]. intros <-.
      apply Hfl, in_flight_joining. by exists t.
    + intros a r0 rv0 Heq [[<- <-]|[? Hr0]]%lookup_insert_Some; [exact (Hd a r rv Heq Hr)|by eapply Hd].
    + intros s0 -> c0 [[<- <-]|[? Hc0]]%lookup_insert_Some; [|by eapply He].
      destruct (Ha s) as [? ?]; [done|congruence].
Qed.

Lemma mgr_inv_commit ts a r rv s v m :
  mgr_inv (TJoin a r :: ts) m → mg_closed m = false → mg_roomHeap m !! r = Some rv → mg_heap m !! s = None →
  sn_connectionID v = ja_connectionID a → sn_channelID v = ja_channelID a → sn_room v = r → buffer_ok v →
  sn_closed v = false →
  mgr_inv ts (m <| mg_heap ::= <[s := v]> |> <| mg_sessions ::= <[ja_connectionID a := s]> |>
    <| mg_roomHeap ::= <[r := room_addSession (ja_connectionID a) s rv]> |>).
Proof.
  intros Hi Hopen Hr Hs Hvc Hvch Hvr Hbuf Hvcl.
  destruct (mi_tasks _ _ Hi (TJoin a r)) as [_ _ Hj Hid _ _]; [left|].
  destruct (Hj _ eq_refl) as [Hne Hnone]. specialize (Hid a r rv eq_refl Hr).
  destruct (mi_rooms _ _ Hi _ _ Hr) as [Hcap Hres _]. rewrite reserved_cons in Hres. simpl in Hres.
  rewrite Nat.eqb_refl in Hres. pose proof (reserved_nonneg r ts).
  pose proof (mi_flight _ _ Hi) as Hfl. unfold in_flight in Hfl. simpl in Hfl.
  apply NoDup_cons in Hfl as [Hfl _]. fold (in_flight ts) in Hfl.
  assert (mg_rooms m !! ja_channelID a = Some r) as Hreg.
  { rewrite <- Hid. apply (mi_occupied _ _ Hi Hopen _ _ Hr). right. lia. }
  pose proof (mgr_inv_cancel _ _ _ _ _ Hi Hr) as Hi'. rewrite <- Hvch in Hi'.
  apply (mgr_inv_enlist _ (ja_connectionID a) _ (room_cancelReservation rv) s v) in Hi'; simpl; try done.
  - revert Hi'. apply mgr_inv_same; try done. simpl. by rewrite insert_insert_eq.
  - apply lookup_insert_eq.
  - by rewrite Hvch.
  - unfold room_cancelReservation. destruct (0 <? _)%Z; simpl; congruence.
  - unfold room_cancelReservation. destruct (Z.ltb_spec 0 (rm_reservations rv)); simpl; lia.
Qed.

Lemma mgr_inv_close ts m :
  mgr_inv ts m → mgr_inv ts (m <| mg_closed := true |> <| mg_sessions := ∅ |> <| mg_rooms := ∅ |>).
Proof.
  intros [H1 H2 H3 H4 H5 H6 H7 H8]. split; simpl; [done| | |done|done|done| |done].
  - intros s v Hv. destruct (H2 s v Hv). by split.
  - intros r rv Hr. destruct (H3 r rv Hr) as [? ? Hs]. split; [done..|].
    intros c s Hc. destruct (Hs c s Hc) as (v&?&?&?&_). by exists v.
  - intros t Ht. destruct (H7 t Ht) as [? ? Hj ? ? ?]. split; [done|done| |done|done|done].
    intros c Hc. split; [by apply Hj|done].
Qed.
End keep.
