(* ===== verification/VoiceManagerSync.v ===== *)
(** * The voice media manager: what negotiation does to a session

    [synchronizeTracks], [restartICE], [acceptAnswer] and [addICECandidate]
    touch one session and put tasks of that session on the list. Their effect
    is described once, for the two invariants that need it. *)

From S2P Require Import Prelude GoText Events VoiceManager VoiceManagerInv.

(** ** What is asked of a peer connection *)

Definition alike `{!Peer} (p p' : peer) : Prop :=
  stable p' = stable p ∧ RemoteDescription p' = RemoteDescription p.

(** The documented behaviour of a peer connection that makes the offers:
    adding and removing a track changes the senders and nothing else, a local
    offer leaves the stable state, an answer returns to it and is the remote
    description from then on, candidates change neither. *)
Class PeerLaws (P : Peer) : Prop := {
  pl_AddTrack id p p' : AddTrack id p = Some p' → GetSenders p' ≡ₚ id :: GetSenders p ∧ alike p p';
  pl_RemoveTrack id p p' : id ∈ GetSenders p → RemoveTrack id p = Some p' →
    GetSenders p ≡ₚ id :: GetSenders p' ∧ alike p p';
  pl_SetLocalDescription sdp p p' : SetLocalDescription sdp p = Some p' →
    GetSenders p' = GetSenders p ∧ RemoteDescription p' = RemoteDescription p ∧ stable p' = false;
  pl_SetRemoteDescription sdp p p' : SetRemoteDescription sdp p = Some p' →
    GetSenders p' = GetSenders p ∧ is_Some (RemoteDescription p') ∧ stable p' = true;
  pl_AddICECandidate c p p' : AddICECandidate_ c p = Some p' → GetSenders p' = GetSenders p ∧ alike p p'
}.

Section sync.
Context `{MapOrder} `{!Peer} `{!PeerLaws _}.
Implicit Types (m : Manager) (v : session) (p : peer).

Lemma alike_trans p1 p2 p3 : alike p1 p2 → alike p2 p3 → alike p1 p3.
Proof. unfold alike. intros [??] [??]. split; congruence. Qed.

Lemma remove_senders_spec wanted l : ∀ p rest p' changed,
  GetSenders p ≡ₚ l ++ rest → NoDup (l ++ rest) →
  remove_senders wanted l p = (p', changed, None) →
  GetSenders p' ≡ₚ filter (fun id => is_Some (wanted !! id)) l ++ rest ∧ alike p p' ∧
  (changed = false → p' = p).
Proof.
  induction l as [|id l IH]; intros p rest p' changed Hp Hn Hrun; simpl in Hrun.
  { simplify_eq. split_and!; [done..|]. done. }
  simpl in Hp, Hn. apply NoDup_cons in Hn as [Hid Hn]. rewrite filter_cons. case_bool_decide as Hw.
  - rewrite decide_True by done. simpl.
    destruct (IH p (id :: rest) p' changed) as (H1&H2&H3); [|
      apply NoDup_ListNoDup, (Permutation.Permutation_NoDup (Permutation_middle l rest id)), NoDup_ListNoDup;
      by constructor|done|].
    { rewrite Hp. apply Permutation_middle. }
    split_and!; [|done..]. rewrite H1. symmetry. apply Permutation_middle.
  - rewrite decide_False by done. destruct (RemoveTrack id p) as [p1|] eqn:Hr; [|done].
    destruct (remove_senders wanted l p1) as [[p2 c2] err] eqn:Hrec. simplify_eq.
    apply pl_RemoveTrack in Hr as [Hs1 Hst1]; [|rewrite Hp; set_solver].
    destruct (IH p1 rest p' c2) as (H1&H2&_); [|done|done|].
    + apply (Permutation_cons_inv (a := id)). by rewrite <- Hs1, Hp.
    + split_and!; [done|by eapply alike_trans|done].
Qed.

Lemma add_senders_spec existing wanted : ∀ p p' changed,
  add_senders existing wanted p = (p', changed, None) →
  GetSenders p' ≡ₚ filter (fun id => id ∉ existing) wanted ++ GetSenders p ∧ alike p p' ∧
  (changed = false → p' = p).
Proof.
  induction wanted as [|id l IH]; intros p p' changed Hrun; simpl in Hrun; [by simplify_eq|].
  rewrite filter_cons. case_bool_decide as Hex.
  - rewrite decide_False by tauto. by apply IH.
  - rewrite decide_True by done. destruct (AddTrack id p) as [p1|] eqn:Ha; [|done].
    destruct (add_senders existing l p1) as [[p2 c2] err] eqn:Hrec. simplify_eq.
    apply pl_AddTrack in Ha as [Hs1 Hst1]. destruct (IH p1 p' c2 Hrec) as (H1&H2&_).
    split_and!; [|by eapply alike_trans|done]. rewrite H1, Hs1. simpl. symmetry. apply Permutation_middle.
Qed.

(** The senders after both loops are the desired tracks. *)
Lemma senders_desired (wanted : gmap string roomTrack) (senders : list string) s1 s2 :
  NoDup senders → s1 ≡ₚ filter (fun id => is_Some (wanted !! id)) senders →
  s2 ≡ₚ filter (fun id => id ∉ filter (fun id => is_Some (wanted !! id)) senders) (range_keys wanted) ++ s1 →
  NoDup s2 ∧ ∀ id, id ∈ s2 ↔ is_Some (wanted !! id).
Proof.
  intros Hn H1 H2. rewrite H1 in H2. split.
  - rewrite H2. apply NoDup_app. split_and!.
    + by apply NoDup_filter, NoDup_range_keys.
    + intros id [Hid _]%list_elem_of_filter. done.
    + by apply NoDup_filter.
  - intros id. rewrite H2, elem_of_app, list_elem_of_filter, elem_of_range_keys.
    destruct (decide (id ∈ filter (fun id => is_Some (wanted !! id)) senders)) as [Hi|Hi]; [|tauto].
    pose proof Hi as [? _]%list_elem_of_filter. tauto.
Qed.

(** ** Effects on one session *)

(** Fields that place a session. *)
Definition same_place v v' : Prop :=
  sn_connectionID v' = sn_connectionID v ∧ sn_channelID v' = sn_channelID v ∧ sn_room v' = sn_room v ∧
  sn_selfDeaf v' = sn_selfDeaf v ∧ sn_closed v' = sn_closed v ∧
  (buffer_ok v → buffer_ok v').

(** The manager with session [s] replaced and the tasks [us] added. *)
Definition updated (s : nat) v' (us : list task) m : Manager :=
  m <| mg_heap ::= <[s := v']> |> <| mg_work ::= (us ++.) |>.

(** What a session puts on the list for itself. *)
Definition offer_of (s : nat) (t : task) : Prop := ∃ sdp, t = TOffer s sdp.
Definition offers (s : nat) (us : list task) : Prop := us = [] ∨ ∃ sdp, us = [TOffer s sdp].

Lemma offers_nil s : offers s [].
Proof. by left. Qed.
Lemma offers_Forall s us : offers s us → Forall (offer_of s) us.
Proof. intros [->|[sdp ->]]; [done|]. apply Forall_singleton. by exists sdp. Qed.
#[local] Hint Resolve offers_nil : core.

Lemma updated_id s v m : mg_heap m !! s = Some v → m = updated s v [] m.
Proof.
  intros Hv. destruct m as [a b c d e f g h]. simpl in Hv.
  trans (mkManager a b c d e (<[s := v]> f) g h); [by rewrite insert_id|done].
Qed.

Lemma wp_read_session s v (Q : session → Manager → Prop) m :
  mg_heap m !! s = Some v → Q v m → wp (read_session s) Q m.
Proof. intros Hv HQ. unfold read_session. wp_step. wp_step. by rewrite Hv. Qed.

Lemma wp_read_room r rv (Q : room → Manager → Prop) m :
  mg_roomHeap m !! r = Some rv → Q rv m → wp (read_room r) Q m.
Proof. intros Hv HQ. unfold read_room. wp_step. wp_step. by rewrite Hv. Qed.

Lemma wp_put_session s v' (Q : unit → Manager → Prop) m :
  Q tt (updated s v' [] m) → wp (put_session s v') Q m.
Proof. intros HQ. unfold put_session. wp_step. by destruct m. Qed.

(** The negotiation state after an offer was created from [p]. *)
Record offered_now v v' : Prop := {
  on_senders : GetSenders (sn_peer v') = sn_offered v';
  on_same : GetSenders (sn_peer v') = GetSenders (sn_peer v);
  on_remote : RemoteDescription (sn_peer v') = RemoteDescription (sn_peer v);
  on_unstable : stable (sn_peer v') = false;
  on_flags : sn_negotiationPending v' = false ∧ sn_iceRestartPending v' = false
}.

Lemma createOffer_spec s v restart m :
  wp (createOfferLocked s v restart) (fun err m' => ∃ v' us, m' = updated s v' us m ∧
    same_place v v' ∧ offers s us ∧
    (sn_faulty v' = true ∨ (err = None ∧ sn_faulty v' = sn_faulty v ∧ offered_now v v'))) m.
Proof.
  unfold createOfferLocked.
  assert (∀ e : Error, wp (put_session s (v <| sn_faulty := true |>) ;; mret (Some e)) (fun err m' => ∃ v' us,
    m' = updated s v' us m ∧ same_place v v' ∧ offers s us ∧
    (sn_faulty v' = true ∨ (err = None ∧ sn_faulty v' = sn_faulty v ∧ offered_now v v'))) m) as Hbad.
  { intros e. unfold put_session. wp_step. wp_step. wp_step. exists (v <| sn_faulty := true |>), [].
    split_and!; [by destruct m|done|auto|by left]. }
  destruct (CreateOffer restart (sn_peer v)) as [sdp|]; [|apply Hbad].
  destruct (SetLocalDescription sdp (sn_peer v)) as [p|] eqn:Hl; [|apply Hbad].
  apply pl_SetLocalDescription in Hl as (Hs&Hrd&Hst). unfold put_session, push.
  wp_step. wp_step. wp_step. wp_step. wp_step. eexists _, [TOffer s sdp]. split; [by destruct m|].
  split; [done|]. split; [right; by exists sdp|]. right. split; [done|]. split; [done|]. by split.
Qed.

(** ** synchronizeTracks *)

Record synced (force : bool) v v' (rv : room) : Prop := {
  sy_nodup : NoDup (GetSenders (sn_peer v'));
  sy_desired : ∀ id, id ∈ GetSenders (sn_peer v') ↔ is_Some (desired v (rm_tracks rv) !! id);
  sy_remote : RemoteDescription (sn_peer v') = RemoteDescription (sn_peer v);
  sy_flags :
    (force = false ∧ v' = v ∧ sn_negotiationPending v = false ∧ sn_iceRestartPending v = false) ∨
    (sn_negotiationPending v' = true ∧ stable (sn_peer v') = false) ∨
    (sn_negotiationPending v' = false ∧ sn_iceRestartPending v' = false ∧
     sn_offered v' = GetSenders (sn_peer v'))
}.

(** A call of the peer connection failed, or [P] holds. *)
Definition negotiated (s : nat) v m (P : session → Prop) (err : option Error) m' : Prop :=
  ∃ v' us, m' = updated s v' us m ∧ same_place v v' ∧ offers s us ∧
    (sn_closed v = true ∨ sn_faulty v' = true ∨ (err = None ∧ sn_faulty v' = sn_faulty v ∧ P v')).

Lemma wp_negotiated_put s v v' err m (P : session → Prop) :
  same_place v v' → (sn_faulty v' = true ∨ (err = None ∧ sn_faulty v' = sn_faulty v ∧ P v')) →
  wp (put_session s v' ;; mret err) (negotiated s v m P) m.
Proof. intros Hsp HP. wp_step. apply wp_put_session. wp_step. exists v', []. split; [done|]. split; [done|]. split; [auto|by right]. Qed.

Lemma sync_spec s force v rv m :
  mg_heap m !! s = Some v → mg_roomHeap m !! sn_room v = Some rv →
  wp (synchronizeTracks s force)
    (negotiated s v m (fun v' => NoDup (GetSenders (sn_peer v)) → synced force v v' rv)) m.
Proof.
  intros Hv Hr. unfold synchronizeTracks. wp_step. apply (wp_read_session _ _ _ _ Hv).
  destruct (sn_closed v) eqn:Hcl.
  { wp_step. exists v, []. split; [by apply updated_id|]. split; [done|]. split; [auto|by left]. }
  wp_step. apply (wp_read_room _ _ _ _ Hr).
  set (wanted := desired v (rm_tracks rv)).
  destruct (remove_senders _ _ _) as [[p1 removed] [e|]] eqn:Hrem.
  { apply wp_negotiated_put; [done|by left]. }
  destruct (add_senders _ _ _) as [[p2 added] [e|]] eqn:Hadd.
  { apply wp_negotiated_put; [done|by left]. }
  assert (NoDup (GetSenders (sn_peer v)) → (NoDup (GetSenders p2) ∧
    (∀ id, id ∈ GetSenders p2 ↔ is_Some (wanted !! id))) ∧ alike (sn_peer v) p2 ∧
    (removed || added = false → p2 = sn_peer v)) as Hloops.
  { intros Hn.
    destruct (remove_senders_spec wanted (GetSenders (sn_peer v)) (sn_peer v) [] p1 removed) as (H1&H2&H3);
      [by rewrite app_nil_r..|done|].
    destruct (add_senders_spec _ _ _ _ _ Hadd) as (H4&H5&H6). rewrite app_nil_r in *.
    split; [|split; [by eapply alike_trans|]].
    - eapply senders_desired; [exact Hn| |exact H4]. done.
    - intros [??]%orb_false_iff. rewrite H6, H3; done. }
  clear Hrem Hadd. simpl. destruct (_ && _) eqn:Hquiet; [|destruct (negb (stable p2)) eqn:Hst].
  - apply wp_negotiated_put; [done|right]. split_and!; [done..|]. intros Hn.
    destruct (Hloops Hn) as ((?&?)&[? ?]&Heq). rewrite !andb_true_iff, !negb_true_iff in Hquiet.
    destruct Hquiet as (((Hch&?)&?)&?). split; [done..|]. left. split_and!; [done| |done..].
    rewrite Heq by done. by destruct v.
  - apply wp_negotiated_put; [done|right]. split_and!; [done..|]. intros Hn.
    destruct (Hloops Hn) as ((?&?)&[? ?]&_). split; [done..|]. right; left. by apply negb_true_iff in Hst.
  - eapply wp_mono; [apply createOffer_spec|]. simpl. intros err m' (v'&us&->&Hsp&Hus&Hcase).
    exists v', us. split; [done|]. split; [done|]. split; [done|right].
    destruct Hcase as [?|(->&Hf&Hoff)]; [by left|right]. split_and!; [done..|]. intros Hn.
    destruct (Hloops Hn) as ((?&?)&[? ?]&_). destruct Hoff as [Ho1 Ho2 Ho3 Ho4 [? ?]]. simpl in *.
    split; [by rewrite Ho2|by rewrite Ho2|by rewrite Ho3|]. right; right. by rewrite Ho1.
Qed.

(** ** The other calls *)

Record restarted v v' : Prop := {
  rs_senders : GetSenders (sn_peer v') = GetSenders (sn_peer v);
  rs_remote : RemoteDescription (sn_peer v') = RemoteDescription (sn_peer v);
  rs_flags :
    (sn_negotiationPending v' = true ∧ stable (sn_peer v') = false) ∨
    (sn_negotiationPending v' = false ∧ sn_iceRestartPending v' = false ∧
     sn_offered v' = GetSenders (sn_peer v'))
}.

Lemma restartICE_spec s v m :
  mg_heap m !! s = Some v → wp (restartICE s) (negotiated s v m (restarted v)) m.
Proof.
  intros Hv. unfold restartICE. wp_step. apply (wp_read_session _ _ _ _ Hv).
  destruct (sn_closed v) eqn:Hcl.
  { wp_step. exists v, []. split; [by apply updated_id|]. split; [done|]. split; [auto|by left]. }
  destruct (negb _) eqn:Hst.
  - apply wp_negotiated_put; [done|right]. split_and!; [done..|]. split; [done..|]. left.
    by apply negb_true_iff in Hst.
  - eapply wp_mono; [apply createOffer_spec|]. intros err m' (v'&us&->&Hsp&Hus&Hcase).
    exists v', us. split; [done|]. split; [done|]. split; [done|right].
    destruct Hcase as [?|(->&Hf&[Ho1 Ho2 Ho3 Ho4 [? ?]])]; [by left|right]. split_and!; [done..|].
    split; [done..|]. by right.
Qed.

(** The negotiation is where it was. *)
Record untouched v v' : Prop := {
  ut_senders : GetSenders (sn_peer v') = GetSenders (sn_peer v);
  ut_alike : alike (sn_peer v) (sn_peer v');
  ut_pending : sn_negotiationPending v' = sn_negotiationPending v;
  ut_restart : sn_iceRestartPending v' = sn_iceRestartPending v;
  ut_offered : sn_offered v' = sn_offered v
}.

Lemma untouched_id v : untouched v v.
Proof. by split. Qed.

(** A named candidate is only refused by the peer connection, or because the
    buffer is full while no answer was applied. *)
Definition refusable (c : ICECandidateData) v (err : option Error) : Prop :=
  named c → err = None ∨ stable (sn_peer v) = false ∨ RemoteDescription (sn_peer v) = None.
Definition candidate_post (s : nat) (c : ICECandidateData) v m (err : option Error) m' : Prop :=
  ∃ v', m' = updated s v' [] m ∧ same_place v v' ∧
    (sn_closed v = true ∨ sn_faulty v' = true ∨
     (sn_faulty v' = sn_faulty v ∧ untouched v v' ∧ refusable c v err)).

Lemma wp_buffer s c v m :
  mg_heap m !! s = Some v → named c → RemoteDescription (sn_peer v) = None ∨ stable (sn_peer v) = false →
  wp (if (MaxPendingICECandidates <=? length (sn_pendingCandidates v))%nat then mret (Some ErrTooManyICECandidates)
      else put_session s (v <| sn_pendingCandidates ::= (.++ [c]) |>) ;; mret None)
    (candidate_post s c v m) m.
Proof.
  intros Hv Hc Hun. destruct (Nat.leb_spec MaxPendingICECandidates (length (sn_pendingCandidates v))) as [Hl|Hl].
  { wp_step. exists v. split; [by apply updated_id|]. split; [done|]. right; right.
    split; [done|]. split; [apply untouched_id|]. unfold refusable. tauto. }
  wp_step. apply wp_put_session. wp_step. eexists. split; [done|].
  split; [|right; right; split_and!; [done|done|by left]].
  split_and!; [done..|]. intros [Hb1 Hb2]. split; simpl; [rewrite length_app; simpl; lia|].
  apply Forall_app. by repeat constructor.
Qed.

Lemma addICECandidate_spec s c v m :
  mg_heap m !! s = Some v → wp (addICECandidate s c) (candidate_post s c v m) m.
Proof.
  intros Hv. assert (∀ err, refusable c v err ∨ sn_closed v = true → candidate_post s c v m err m) as Hsame.
  { intros err Herr. exists v. split; [by apply updated_id|]. split; [done|].
    destruct Herr; [right; right; split_and!; [done|apply untouched_id|done]|by left]. }
  unfold addICECandidate. destruct (String.eqb_spec (ic_Candidate c) "") as [He|He].
  { wp_step. apply Hsame. left. intros Hn. by destruct (Hn He). }
  wp_step. apply (wp_read_session _ _ _ _ Hv).
  destruct (sn_closed v) eqn:Hcl; [wp_step; apply Hsame; by right|].
  pose proof (wp_buffer s c v m Hv He) as Hbuf.
  destruct (RemoteDescription (sn_peer v)) as [sdp|]; [|by apply Hbuf; left].
  destruct (stable (sn_peer v)); [|by apply Hbuf; right].
  destruct (negb _); [wp_step; apply Hsame; left; intros ?; by left|].
  destruct (AddICECandidate_ c (sn_peer v)) as [p|] eqn:Hadd; wp_step; apply wp_put_session; wp_step;
    eexists; (split; [done|]); (split; [done|]); right; [right|by left].
  apply pl_AddICECandidate in Hadd as [? ?]. split_and!; [done|by split|by left].
Qed.

(** Either nothing happens or the answer is applied. *)
Record answered v v' : Prop := {
  an_senders : GetSenders (sn_peer v') = GetSenders (sn_peer v);
  an_remote : is_Some (RemoteDescription (sn_peer v'));
  an_pending : sn_negotiationPending v' = sn_negotiationPending v;
  an_restart : sn_iceRestartPending v' = sn_iceRestartPending v;
  an_offered : sn_offered v' = sn_offered v;
  an_faulty : sn_faulty v' = sn_faulty v
}.

Lemma acceptAnswer_spec s sdp v m :
  mg_heap m !! s = Some v →
  wp (acceptAnswer s sdp) (fun err m' => m' = m ∨ ∃ v', same_place v v' ∧ answered v v' ∧
    m' = updated s v' [TAnswer s (sn_pendingCandidates v)
      (sn_negotiationPending v || sn_iceRestartPending v)] m) m.
Proof.
  intros Hv. unfold acceptAnswer. destruct (String.eqb sdp ""); [wp_step; by left|].
  wp_step. apply (wp_read_session _ _ _ _ Hv). destruct (sn_closed v); [wp_step; by left|].
  destruct (SetRemoteDescription sdp (sn_peer v)) as [p|] eqn:Hp; [|wp_step; by left].
  apply pl_SetRemoteDescription in Hp as (?&?&?). wp_step. apply wp_put_session. wp_step. unfold push. wp_step. wp_step.
  right. eexists. split; [|split; [|done]]; [|by split].
  split_and!; [done..|]. intros _. split; [simpl; unfold MaxPendingICECandidates; lia|constructor].
Qed.
End sync.
