(* ===== verification/VoiceManagerMedia.v ===== *)
(** * The voice media manager: the invariant of the negotiations

    What every open session of which no call failed has been sent, what it
    still has to be sent, and which goroutine will do it. *)

From S2P Require Import Prelude GoText Events VoiceManager VoiceManagerInv VoiceManagerSync.

(** The tasks that will bring session [s] in room [r] up to date. *)
Definition relevant (s r : nat) (t : task) : bool :=
  match t with
  | TInitial s' | TSync s' | TState s' | TAnswer s' _ _ => (s' =? s)%nat
  | TSnapshot r' => (r' =? r)%nat
  | _ => false
  end.
Definition answering (s : nat) (t : task) : bool :=
  match t with TAnswer s' _ _ => (s' =? s)%nat | _ => false end.

(** Nothing that concerns session [s] gets lost between [ts] and [ts']. *)
Definition keeps (s r : nat) (ts ts' : list task) : Prop :=
  (∀ t, relevant s r t = true → t ∈ ts → t ∈ ts') ∧
  (∀ t, answering s t = true → t ∈ ts' → t ∈ ts).

Section media.
Context `{MapOrder} `{!Peer} `{!PeerLaws _}.
Implicit Types (m : Manager) (v : session) (rv : room).

Definition live v : Prop := sn_closed v = false ∧ sn_faulty v = false.

Definition stale (ts : list task) (s : nat) v : Prop :=
  TInitial s ∈ ts ∨ TSync s ∈ ts ∨ TState s ∈ ts ∨ TSnapshot (sn_room v) ∈ ts.

Definition up_to_date (tracks : gmap string roomTrack) v : Prop :=
  ∀ id, id ∈ GetSenders (sn_peer v) ↔ is_Some (desired v tracks !! id).

Record media_ok (ts : list task) (tracks : gmap string roomTrack) (s : nat) v : Prop := {
  md_nodup : NoDup (GetSenders (sn_peer v));
  md_restart : sn_iceRestartPending v = true → sn_negotiationPending v = true;
  md_pending : sn_negotiationPending v = true →
    stable (sn_peer v) = false ∨ ∃ cs, TAnswer s cs true ∈ ts;
  md_answer : ∀ cs b, TAnswer s cs b ∈ ts → is_Some (RemoteDescription (sn_peer v));
  md_offered : TInitial s ∈ ts ∨ sn_negotiationPending v = true ∨ sn_offered v = GetSenders (sn_peer v);
  md_senders : stale ts s v ∨ up_to_date tracks v
}.

Definition media (ts : list task) m : Prop := ∀ s v rv,
  mg_heap m !! s = Some v → mg_roomHeap m !! sn_room v = Some rv → live v → media_ok ts (rm_tracks rv) s v.

Lemma media_ok_keeps ts ts' tracks s v :
  keeps s (sn_room v) ts ts' → media_ok ts tracks s v → media_ok ts' tracks s v.
Proof.
  intros [Hk Ha] [H1 H2 H3 H4 H5 H6].
  assert (∀ t, t ∈ ts → relevant s (sn_room v) t = true → t ∈ ts') as Hk' by eauto.
  split; [done|done| | | |].
  - intros Hp. destruct (H3 Hp) as [?|[cs Hcs]]; [by left|right]. exists cs. apply Hk'; [done|apply Nat.eqb_refl].
  - intros cs b Hin. apply (H4 cs b), Ha; [apply Nat.eqb_refl|done].
  - destruct H5 as [Hin|?]; [left|by right]. apply Hk'; [done|apply Nat.eqb_refl].
  - destruct H6 as [Hst|?]; [left|by right]. unfold stale in *.
    destruct Hst as [?|[?|[?|?]]]; [left|right; left|right; right; left|right; right; right];
      (apply Hk'; [done|apply Nat.eqb_refl]).
Qed.

Lemma keeps_refl s r ts : keeps s r ts ts.
Proof. by split. Qed.

Lemma keeps_app s r us ts : Forall (fun t => answering s t = false) us → keeps s r ts (us ++ ts).
Proof.
  rewrite Forall_forall. intros Hus. split; intros t Ht; rewrite elem_of_app; [tauto|].
  intros [Hin|?]; [|done]. by rewrite Hus in Ht.
Qed.

Lemma keeps_drop s r t ts : relevant s r t = false → keeps s r (t :: ts) ts.
Proof.
  intros Hr. split; intros t' Ht'; rewrite elem_of_cons; [|tauto]. intros [->|?]; [congruence|done].
Qed.

Lemma keeps_trans s r ts ts' ts'' : keeps s r ts ts' → keeps s r ts' ts'' → keeps s r ts ts''.
Proof. unfold keeps. naive_solver. Qed.

(** The tasks change. *)
Lemma media_keeps ts ts' m : (∀ s r, keeps s r ts ts') → media ts m → media ts' m.
Proof. intros Hk Hm s v rv Hv Hr Hl. eapply media_ok_keeps; [apply Hk|]. by apply Hm. Qed.

#[global] Instance media_perm : Proper ((≡ₚ) ==> (=) ==> impl) media.
Proof.
  intros ts ts' Hp m m' <- Hm. eapply media_keeps; [|exact Hm]. intros s r. split; intros t _; by rewrite Hp.
Qed.

(** One session changes. *)
Lemma media_session ts ts' s v' m :
  media ts m → (∀ s' r, s' ≠ s → keeps s' r ts ts') →
  (∀ rv, mg_roomHeap m !! sn_room v' = Some rv → live v' → media_ok ts' (rm_tracks rv) s v') →
  media ts' (m <| mg_heap ::= <[s := v']> |>).
Proof.
  intros Hm Hk Hs s0 v0 rv Hv Hr Hl. simpl in *.
  apply lookup_insert_Some in Hv as [[<- <-]|[Hne Hv]]; [by apply Hs|].
  eapply media_ok_keeps; [apply Hk; congruence|]. by apply Hm.
Qed.

(** Rooms change, but not the tracks of the rooms that have sessions. *)
Lemma media_rooms ts m m' :
  mg_heap m' = mg_heap m →
  (∀ s v rv, mg_heap m !! s = Some v → mg_roomHeap m' !! sn_room v = Some rv → live v →
    ∃ rv0, mg_roomHeap m !! sn_room v = Some rv0 ∧ rm_tracks rv = rm_tracks rv0) →
  media ts m → media ts m'.
Proof.
  intros Hh Hr Hm s v rv Hv Hrv Hl. rewrite Hh in Hv. destruct (Hr s v rv Hv Hrv Hl) as (rv0&?&->). by apply Hm.
Qed.

(** The tracks of a room change and a snapshot follows. *)
Lemma media_tracks ts r rv rv' m :
  media ts m → mg_roomHeap m !! r = Some rv → media (TSnapshot r :: ts) (m <| mg_roomHeap ::= <[r := rv']> |>).
Proof.
  intros Hm Hrv s v rv1 Hv Hr Hl. simpl in *. assert (keeps s (sn_room v) ts (TSnapshot r :: ts)) as Hk.
  { apply (keeps_app _ _ [_]). by repeat constructor. }
  apply lookup_insert_Some in Hr as [[-> <-]|[Hne Hr]]; [|eapply media_ok_keeps; [done|by apply Hm]].
  destruct (media_ok_keeps _ _ _ _ _ Hk (Hm s v rv Hv Hrv Hl)). split; [done..|]. left. right; right; right. left.
Qed.

(** The snapshot is taken. *)
Lemma media_snapshot ts r rv m :
  mgr_inv (TSnapshot r :: ts) m → mg_roomHeap m !! r = Some rv → media (TSnapshot r :: ts) m →
  media ((TSync <$> range_values (rm_sessions rv)) ++ ts) m.
Proof.
  intros Hi Hr Hm s v rv0 Hv Hrv Hl. specialize (Hm s v rv0 Hv Hrv Hl).
  assert (Forall (fun t => answering s t = false) (TSync <$> range_values (rm_sessions rv))) as Hno.
  { apply Forall_fmap, Forall_true. done. }
  destruct (decide (sn_room v = r)) as [<-|Hne].
  - simplify_eq. assert (TSync s ∈ (TSync <$> range_values (rm_sessions rv)) ++ ts) as Hin.
    { apply elem_of_app. left. apply list_elem_of_fmap_2. apply elem_of_range_values. exists (sn_connectionID v).
      destruct (mi_heap _ _ Hi _ _ Hv) as [_ _ (rv1&?&_&Hl')]. simplify_eq. by apply Hl', Hl. }
    destruct Hm as [H1 H2 H3 H4 H5 H6]. split; [done|done| | | |left; right; by left].
    + intros Hp. destruct (H3 Hp) as [?|[cs Hcs]]; [by left|]. right. exists cs. set_solver.
    + intros cs b Hcs. apply (H4 cs b). apply elem_of_app in Hcs as [Hcs|?]; [|by right].
      apply list_elem_of_fmap in Hcs as (?&?&_). done.
    + destruct H5 as [Hin'|?]; [left; set_solver|by right].
  - eapply media_ok_keeps; [|done]. eapply keeps_trans; [|by apply keeps_app].
    apply keeps_drop. simpl. by apply Nat.eqb_neq.
Qed.

(** ** Negotiation *)

Lemma same_place_live v v' : same_place v v' → sn_faulty v' = sn_faulty v → live v' → live v.
Proof. unfold live. intros (?&?&?&?&?&?) ? [? ?]. split; congruence. Qed.

Lemma same_place_up_to_date tracks v v' :
  same_place v v' → GetSenders (sn_peer v') = GetSenders (sn_peer v) → up_to_date tracks v → up_to_date tracks v'.
Proof. intros (Hc&_&_&Hd&_) Hs Hu id. unfold desired. rewrite Hs, Hc, Hd. apply Hu. Qed.

Lemma offers_keep s s' r us ts : Forall (offer_of s) us → keeps s' r ts (us ++ ts).
Proof. intros Hus. apply keeps_app. eapply Forall_impl; [exact Hus|]. by intros t [sdp ->]. Qed.

(** The task in hand, which concerns session [s] only. *)
Definition of_session (s : nat) (t : task) : Prop := ∀ s' r, s' ≠ s → relevant s' r t = false.

Lemma media_synced ts t s force v v' us rv m :
  media (t :: ts) m → mg_heap m !! s = Some v → mg_roomHeap m !! sn_room v = Some rv →
  of_session s t → (t = TInitial s → force = true) →
  same_place v v' → Forall (offer_of s) us → 
  sn_closed v = true ∨ sn_faulty v' = true ∨ (sn_faulty v' = sn_faulty v ∧
    (NoDup (GetSenders (sn_peer v)) → synced force v v' rv)) →
  media (us ++ ts) (m <| mg_heap ::= <[s := v']> |>).
Proof.
  intros Hm Hv Hr Ht Hforce Hsp Hus Hcase. apply (media_session (t :: ts)); [done| |].
  { intros s' r Hne. eapply keeps_trans; [apply keeps_drop, Ht, Hne|by eapply offers_keep]. }
  intros rv0 Hr0 Hl. assert (rv0 = rv) as -> by (destruct Hsp as (_&_&Hroom&_); congruence).
  destruct Hcase as [Hcl|[Hf|[Hf Hsy]]].
  { destruct Hsp as (_&_&_&_&Heq&_), Hl. congruence. }
  { destruct Hl. congruence. }
  destruct (Hm s v rv Hv Hr (same_place_live _ _ Hsp Hf Hl)) as [H1 H2 H3 H4 H5 H6].
  destruct (Hsy H1) as [S1 S2 S3 S4]. split; [done| | | | |].
  - destruct S4 as [(_&->&_&->)|[[? _]|(_&->&_)]]; done.
  - destruct S4 as [(_&->&->&_)|[[_ ?]|(->&_)]]; try done. by left.
  - intros cs b Hin. rewrite S3. apply (H4 cs b). right.
    apply elem_of_app in Hin as [Hin|?]; [|done].
    rewrite Forall_forall in Hus. by destruct (Hus _ Hin).
  - destruct S4 as [(Hff&->&Hp&_)|[[? _]|(_&_&?)]]; [|by right; left|by right; right].
    destruct H5 as [Hin|[?|?]]; [|congruence|by right; right]. left.
    apply elem_of_cons in Hin as [<-|?]; [|set_solver]. by rewrite Hforce in Hff.
  - right. intros id. rewrite S2. destruct Hsp as (Hc&_&_&Hd&_). unfold desired. by rewrite Hc, Hd.
Qed.

Lemma media_restarted ts s v v' us m :
  media ts m → mg_heap m !! s = Some v → same_place v v' → Forall (offer_of s) us →
  sn_closed v = true ∨ sn_faulty v' = true ∨ (sn_faulty v' = sn_faulty v ∧ restarted v v') →
  media (us ++ ts) (m <| mg_heap ::= <[s := v']> |>).
Proof.
  intros Hm Hv Hsp Hus Hcase. apply (media_session ts); [done|intros; by eapply offers_keep|].
  intros rv Hr Hl. destruct Hcase as [Hcl|[Hf|[Hf [S1 S2 S3]]]].
  { destruct Hsp as (_&_&_&_&Heq&_), Hl. congruence. }
  { destruct Hl. congruence. }
  assert (sn_room v' = sn_room v) as Hroom by apply Hsp. rewrite Hroom in Hr.
  pose proof (Hm s v rv Hv Hr (same_place_live _ _ Hsp Hf Hl)) as Hok.
  apply (media_ok_keeps _ (us ++ ts)) in Hok as [H1 H2 H3 H4 H5 H6]; [|by eapply offers_keep].
  split; [by rewrite S1| | |by rewrite S2| |].
  - destruct S3 as [[? _]|(_&->&_)]; done.
  - destruct S3 as [[_ ?]|(->&_)]; [by left|done].
  - destruct S3 as [[? _]|(_&_&?)]; [by right; left|by right; right].
  - destruct H6 as [Hst|Hu]; [left|right; by eapply same_place_up_to_date].
    unfold stale in *. by rewrite Hroom.
Qed.

(** A session changed in fields that negotiation does not look at. *)
Lemma media_ok_untouched ts tracks s v v' :
  same_place v v' → untouched v v' → media_ok ts tracks s v → media_ok ts tracks s v'.
Proof.
  intros Hsp [S1 [S2 S3] S4 S5 S6] [H1 H2 H3 H4 H5 H6].
  split; rewrite ?S1, ?S2, ?S3, ?S4, ?S5, ?S6; try done.
  destruct H6 as [Hst|Hu]; [left|right; by eapply same_place_up_to_date].
  destruct Hsp as (_&_&Hroom&_). unfold stale in *. by rewrite Hroom.
Qed.

Lemma media_untouched ts s v v' m :
  media ts m → mg_heap m !! s = Some v → same_place v v' →
  sn_closed v = true ∨ sn_faulty v' = true ∨ (sn_faulty v' = sn_faulty v ∧ untouched v v') →
  media ts (m <| mg_heap ::= <[s := v']> |>).
Proof.
  intros Hm Hv Hsp Hcase. apply (media_session ts); [done|intros; apply keeps_refl|].
  intros rv Hr Hl. destruct Hcase as [Hcl|[Hf|[Hf Hun]]].
  { destruct Hsp as (_&_&_&_&Heq&_), Hl. congruence. }
  { destruct Hl. congruence. }
  eapply media_ok_untouched; [done..|]. apply Hm; [done| |by eapply same_place_live].
  by destruct Hsp as (_&_&<-&_).
Qed.

(** The next buffered candidate. *)
Lemma media_candidate ts s c cs b v v' err m :
  media (TAnswer s (c :: cs) b :: ts) m → mg_heap m !! s = Some v → same_place v v' → named c →
  sn_closed v = true ∨ sn_faulty v' = true ∨ (sn_faulty v' = sn_faulty v ∧ untouched v v' ∧ refusable c v err) →
  media (match err with None => TAnswer s cs b :: ts | Some _ => ts end) (m <| mg_heap ::= <[s := v']> |>).
Proof.
  intros Hm Hv Hsp Hc Hcase. apply (media_session (TAnswer s (c :: cs) b :: ts)); [done| |].
  { intros s' r Hne. assert (∀ cs', answering s' (TAnswer s cs' b) = false) by
      (intros; apply Nat.eqb_neq; congruence).
    eapply keeps_trans; [apply keeps_drop, Nat.eqb_neq; congruence|].
    destruct err; [apply keeps_refl|]. apply (keeps_app _ _ [_]). by repeat constructor. }
  intros rv Hr Hl. destruct Hcase as [Hcl|[Hf|(Hf&Hun&Href)]].
  { destruct Hsp as (_&_&_&_&Heq&_), Hl. congruence. }
  { destruct Hl. congruence. }
  eapply media_ok_untouched; [done..|]. assert (sn_room v' = sn_room v) as Hroom by apply Hsp. rewrite Hroom in Hr.
  destruct (Hm s v rv Hv Hr (same_place_live _ _ Hsp Hf Hl)) as [H1 H2 H3 H4 H5 H6].
  assert (is_Some (RemoteDescription (sn_peer v))) as Hrem by (eapply H4; left).
  assert (∀ t, t ∈ TAnswer s (c :: cs) b :: ts → (∀ cs' b', t ≠ TAnswer s cs' b') →
    t ∈ match err with None => TAnswer s cs b :: ts | Some _ => ts end) as Hk.
  { intros t [->|Hin]%elem_of_cons Hne; [by edestruct Hne|]. destruct err; [done|by right]. }
  split; [done|done| |done| |].
  - intros Hp. destruct (H3 Hp) as [?|[cs' Hin]]; [by left|].
    apply elem_of_cons in Hin as [[= -> <-]|Hin]; [|right; exists cs'; destruct err; [done|by right]].
    destruct (Href Hc) as [->|[?|Hno]]; [right; exists cs; left|by left|].
    rewrite Hno in Hrem. by destruct Hrem.
  - destruct H5 as [?|?]; [left; by apply Hk|by right].
  - destruct H6 as [Hst|?]; [left|by right]. unfold stale in *. by destruct Hst as [?|[?|[?|?]]]; eauto 6.
Qed.

(** Only a negotiation that is to be resumed depends on its task. *)
Lemma media_answer_done ts s cs m : media (TAnswer s cs false :: ts) m → media ts m.
Proof.
  intros Hm s0 v rv Hv Hr Hl. destruct (Hm s0 v rv Hv Hr Hl) as [H1 H2 H3 H4 H5 H6]. split; [done|done| | | |].
  - intros Hp. destruct (H3 Hp) as [?|[cs' Hin]]; [by left|]. right. exists cs'. by apply elem_of_cons in Hin as [?|?].
  - intros cs' b Hin. apply (H4 cs' b). by right.
  - destruct H5 as [Hin|?]; [left; by apply elem_of_cons in Hin as [?|?]|by right].
  - destruct H6 as [Hst|?]; [left; unfold stale in *; rewrite !elem_of_cons in Hst; naive_solver|by right].
Qed.

Lemma media_answered ts s v v' m :
  media ts m → mg_heap m !! s = Some v → same_place v v' → answered v v' →
  media (TAnswer s (sn_pendingCandidates v) (sn_negotiationPending v || sn_iceRestartPending v) :: ts)
    (m <| mg_heap ::= <[s := v']> |>).
Proof.
  intros Hm Hv Hsp [S1 S2 S3 S4 S5 S6]. set (t := TAnswer _ _ _). apply (media_session ts); [done| |].
  { intros s' r Hne. apply (keeps_app _ _ [_]). repeat constructor. apply Nat.eqb_neq. congruence. }
  intros rv Hr Hl. assert (sn_room v' = sn_room v) as Hroom by apply Hsp. rewrite Hroom in Hr.
  destruct (Hm s v rv Hv Hr (same_place_live _ _ Hsp S6 Hl)) as [H1 H2 H3 H4 H5 H6].
  split; rewrite ?S1, ?S3, ?S4, ?S5; [done|done| |done| |].
  - intros Hp. right. exists (sn_pendingCandidates v). subst t. rewrite Hp. left.
  - destruct H5 as [?|?]; [left; by right|by right].
  - destruct H6 as [Hst|Hu]; [left|right; by eapply same_place_up_to_date].
    unfold stale in *. rewrite Hroom. set_solver.
Qed.

(** ** Sessions that come and go *)

Lemma media_closed ts s v' m :
  media ts m → sn_closed v' = true → media ts (m <| mg_heap ::= <[s := v']> |>).
Proof.
  intros Hm Hcl. apply (media_session ts); [done|intros; apply keeps_refl|]. intros rv _ [? _]. congruence.
Qed.

Lemma media_created ts s v' m :
  media ts m → (∀ t, t ∈ ts → task_session t ≠ Some s) →
  GetSenders (sn_peer v') = [] → sn_negotiationPending v' = false → sn_iceRestartPending v' = false →
  media (TInitial s :: ts) (m <| mg_heap ::= <[s := v']> |>).
Proof.
  intros Hm Ht Hs Hp Hr. apply (media_session ts); [done| |].
  { intros s' r Hne. apply (keeps_app _ _ [_]). by repeat constructor. }
  intros rv _ _. split; rewrite ?Hs, ?Hp, ?Hr; [constructor|done|done| |left; left|left; left; left].
  intros cs b [?|Hin]%elem_of_cons; [done|]. by destruct (Ht _ Hin).
Qed.

Lemma media_deaf ts s v selfMute selfDeaf m :
  media ts m → mg_heap m !! s = Some v →
  media ((if Bool.eqb (sn_selfDeaf v) selfDeaf then [] else [TState s]) ++ ts)
    (m <| mg_heap ::= <[s := v <| sn_selfMute := selfMute |> <| sn_selfDeaf := selfDeaf |>]> |>).
Proof.
  intros Hm Hv. destruct (Bool.eqb_spec (sn_selfDeaf v) selfDeaf) as [<-|Hne].
  { eapply media_untouched; [done..|]. right; right. done. }
  apply (media_session ts); [done|intros; apply keeps_app; by repeat constructor|].
  intros rv Hr Hl. destruct (Hm s v rv Hv Hr Hl) as [H1 H2 H3 H4 H5 H6]. split; simpl; [done|done| | | |].
  - intros Hp. destruct (H3 Hp) as [?|[cs ?]]; [by left|]. right. exists cs. by right.
  - intros cs b [?|Hin]%elem_of_cons; [done|by eapply H4].
  - destruct H5 as [?|?]; [left; by right|by right].
  - left. right; right; left. left.
Qed.

(** [leave], with the room's session and tracks removed. *)
Lemma media_left ts c s v rv m m' :
  media ts m → mg_roomHeap m !! sn_room v = Some rv →
  mg_heap m' = <[s := v <| sn_closed := true |>]> (mg_heap m) →
  mg_roomHeap m' = <[sn_room v := (room_removeSession c rv).1]> (mg_roomHeap m) →
  (∀ s' v', mg_heap m' !! s' = Some v' → session_ok m' s' v') →
  media ((if (room_removeSession c rv).2 && negb (room_empty (room_removeSession c rv).1)
    then [TSnapshot (sn_room v)] else []) ++ ts) m'.
Proof.
  intros Hm Hr Hh Hrh Hok. set (v1 := v <| sn_closed := true |>) in *.
  apply (media_closed _ s v1) in Hm; [|done]. set (m1 := m <| mg_heap ::= <[s := v1]> |>) in *.
  destruct (_ && _) eqn:Hcase.
  - eapply (media_tracks _ (sn_room v) rv (room_removeSession c rv).1) in Hm; [|done].
    revert Hm. apply media_rooms; [done|]. intros s0 v0 rv0 _ Hr0 _. exists rv0. rewrite Hrh in Hr0. done.
  - revert Hm. apply media_rooms; [done|]. intros s0 v0 rv0 Hv0 Hr0 [Hl _]. rewrite Hrh in Hr0.
    apply lookup_insert_Some in Hr0 as [[Heq <-]|[? ?]]; [|by exists rv0]. exists rv. split; [by rewrite <- Heq|].
    apply andb_false_iff in Hcase as [Hno|Hemp%negb_false_iff].
    + apply map_filter_id. intros id t Ht Howner. simpl in Hno.
      assert (existsb (λ t, String.eqb (rt_owner t) c) (range_values (rm_tracks rv)) = true); [|congruence].
      apply existsb_exists. exists t. split; [|by apply String.eqb_eq].
      apply list_elem_of_In, elem_of_range_values. by exists id.
    + assert (mg_heap m' !! s0 = Some v0) as Hv' by (by rewrite Hh).
      destruct (Hok _ _ Hv') as [_ _ (rv1&Hr1&_&Hin)]. specialize (Hin Hl).
      rewrite Hrh, <- Heq, lookup_insert_eq in Hr1. injection Hr1 as <-.
      unfold room_empty in Hemp. apply andb_true_iff in Hemp as [Hemp%bool_decide_eq_true _].
      simpl in Hemp, Hin. by rewrite Hemp in Hin.
Qed.
End media.
