(* ===== verification/VoiceManagerRun.v ===== *)
(** * The voice media manager: every step keeps the invariants

    The operations and the tasks, run in the monad: none of them panics, and
    the indexes and the negotiations are in order again when they are done. *)

From S2P Require Import Prelude GoText Events VoiceManager VoiceManagerInv VoiceManagerKeep VoiceManagerSync VoiceManagerMedia.

Section run.
Context `{MapOrder} `{!Peer} `{!PeerLaws _}.
Implicit Types (m : Manager) (v : session) (rv : room) (ext : list task).

(** The invariants, while the tasks [ext] have been taken off the list. *)
Definition running ext m : Prop := holding ext m ∧ media (ext ++ mg_work m) m.

Lemma running_plain t ext m : plain t → (∀ s r, relevant s r t = false) → running (t :: ext) m → running ext m.
Proof.
  intros Hpl Hrel [Hh Hm]. split; [by eapply mgr_inv_plain|].
  eapply media_keeps; [|exact Hm]. intros s r. apply keeps_drop, Hrel.
Qed.

Lemma holding_plain t ext m : plain t → holding (t :: ext) m → holding ext m.
Proof. apply mgr_inv_plain. Qed.

Lemma running_session ext m s v : holding ext m → mg_heap m !! s = Some v →
  ∃ rv, mg_roomHeap m !! sn_room v = Some rv.
Proof. intros Hh Hv. destruct (mi_heap _ _ Hh _ _ Hv) as [_ _ (rv&?&_)]. by exists rv. Qed.

Lemma app_middle {A} (us ext w : list A) : us ++ ext ++ w ≡ₚ ext ++ us ++ w.
Proof. rewrite !app_assoc. f_equiv. apply Permutation_app_comm. Qed.

(** Tasks are added. *)
Lemma running_push ext us m :
  Forall (fits m) us → (∀ s, Forall (fun t => answering s t = false) us) → running ext m →
  running ext (m <| mg_work ::= (us ++.) |>).
Proof.
  intros Hf Ha [Hh Hm]. split; [by apply holding_push|]. simpl. rewrite <- app_middle.
  apply (media_rooms _ m); [done|by eauto|]. eapply media_keeps; [|exact Hm]. intros s r. by apply keeps_app.
Qed.

(** A session is replaced and tasks for it are added. *)
Lemma running_updated ext s v v' us m :
  holding ext m → mg_heap m !! s = Some v → same_place v v' →
  Forall (fun t => plain t ∧ task_session t = Some s ∧ (∀ s', t ≠ TClose s') ∧
    ∀ s' cs b, t = TAnswer s' cs b → Forall named cs) us →
  media (us ++ ext ++ mg_work m) (m <| mg_heap ::= <[s := v']> |>) → running ext (updated s v' us m).
Proof.
  intros Hh Hv (Hc&Hch&Hr&_&Hcl&Hb) Hus Hm. split.
  - unfold updated. apply holding_push.
    + eapply Forall_impl; [exact Hus|]. intros t (Hpl&Ht&Hno&Hna). split_and!; [done| | | |done].
      * rewrite Ht. intros s' [= <-]. simpl. by rewrite lookup_insert_eq.
      * intros r Htr. destruct t; done.
      * intros s' ->. by edestruct Hno.
    + eapply mgr_inv_session; [done..| |done]. by left.
  - simpl. rewrite <- app_middle. revert Hm. apply media_rooms; [done|]. intros s0 v0 rv0 ? ? ?. by exists rv0.
Qed.

Lemma offers_fit s us : Forall (offer_of s) us →
  Forall (fun t => plain t ∧ task_session t = Some s ∧ (∀ s', t ≠ TClose s') ∧
    ∀ s' cs b, t = TAnswer s' cs b → Forall named cs) us.
Proof. intros Hus. eapply Forall_impl; [exact Hus|]. by intros t [sdp ->]. Qed.

(** ** Negotiation *)

Lemma own_task s t : task_session t = Some s → plain t ∧ of_session s t.
Proof.
  destruct t; simpl; intros [= ->]; (split; [done|]); intros s' r Hne; simpl; try done; apply Nat.eqb_neq; congruence.
Qed.

Lemma run_sync ext t s force v m :
  running (t :: ext) m → task_session t = Some s → (t = TInitial s → force = true) →
  mg_heap m !! s = Some v →
  wp (synchronizeTracks s force) (fun _ m' => running ext m' ∧ ∃ v', mg_heap m' !! s = Some v' ∧ same_place v v') m.
Proof.
  intros [Hh Hm] [Hpl Hof]%own_task Hin Hv. destruct (running_session _ _ _ _ Hh Hv) as [rv Hr].
  eapply wp_mono; [by eapply sync_spec|]. intros err m' (v'&us&->&Hsp&Hus%offers_Forall&Hcase). split.
  - eapply running_updated; [by eapply holding_plain|done|done|by apply offers_fit|].
    eapply (media_synced _ t); [done..|]. destruct Hcase as [?|[?|(?&?&?)]]; eauto.
  - exists v'. split; [simpl; by rewrite lookup_insert_eq|done].
Qed.

Lemma run_restart ext s m :
  running ext m → is_Some (mg_heap m !! s) → wp (restartICE s) (fun _ => running ext) m.
Proof.
  intros [Hh Hm] [v Hv]. eapply wp_mono; [by apply restartICE_spec|]. intros err m' (v'&us&->&Hsp&Hus%offers_Forall&Hcase).
  eapply running_updated; [done..|by apply offers_fit|].
  eapply media_restarted; [done..|]. destruct Hcase as [?|[?|(?&?&?)]]; eauto.
Qed.

Lemma run_candidate ext s c m :
  running ext m → is_Some (mg_heap m !! s) → wp (addICECandidate s c) (fun _ => running ext) m.
Proof.
  intros [Hh Hm] [v Hv]. eapply wp_mono; [by apply addICECandidate_spec|]. intros err m' (v'&->&Hsp&Hcase).
  eapply running_updated; [done..|]. eapply media_untouched; [done..|]. destruct Hcase as [?|[?|(?&?&?)]]; eauto.
Qed.

Lemma run_answer ext s sdp m :
  running ext m → is_Some (mg_heap m !! s) → wp (acceptAnswer s sdp) (fun _ => running ext) m.
Proof.
  intros [Hh Hm] [v Hv]. eapply wp_mono; [by apply acceptAnswer_spec|]. intros err m' [->|(v'&Hsp&Han&->)]; [done|].
  eapply running_updated; [done..| |by eapply media_answered].
  repeat constructor; try done. intros s' cs b [= <- <- _]. apply (mi_heap _ _ Hh _ _ Hv).
Qed.

(** The task that goes through the candidates. *)
Lemma run_buffered ext s c cs b m :
  running (TAnswer s (c :: cs) b :: ext) m →
  wp (run_task (TAnswer s (c :: cs) b) None false) (fun _ => running ext) m.
Proof.
  intros [Hh Hm]. destruct (mi_tasks _ _ Hh (TAnswer s (c :: cs) b)) as [Hs _ _ _ _ Hna]; [left|].
  destruct (Hs s eq_refl) as [v Hv]. specialize (Hna _ _ _ eq_refl). apply Forall_cons in Hna as [Hc Hcs].
  simpl. wp_step. eapply wp_mono; [by apply addICECandidate_spec|]. intros err m' (v'&->&Hsp&Hcase).
  pose proof (media_candidate _ _ _ _ _ _ _ err _ Hm Hv Hsp Hc Hcase) as Hm'.
  apply holding_plain in Hh; [|done].
  assert (∀ us, Forall (fun t => plain t ∧ task_session t = Some s ∧ (∀ s', t ≠ TClose s') ∧
    ∀ s' cs b, t = TAnswer s' cs b → Forall named cs) us →
    media (us ++ ext ++ mg_work m) (m <| mg_heap ::= <[s := v']> |>) → running ext (updated s v' us m)) as Hrun.
  { intros us Hus. by eapply running_updated. }
  destruct err; [wp_step; apply (Hrun []); [done|exact Hm']|].
  unfold push. wp_step. apply (Hrun [TAnswer s cs b]); [|exact Hm'].
  repeat constructor; try done. by intros s' cs' b' [= <- <- _].
Qed.

Lemma wp_ignored {A} (f : M Manager A) (Q : Manager → Prop) m :
  wp f (fun _ => Q) m → wp (ignore f) (fun _ => Q) m.
Proof. intros Hf. unfold ignore. wp_step. eapply wp_mono; [exact Hf|]. intros a m' ?. by wp_step. Qed.

(** ** Leaving *)

(** The manager after [leave] has released the lock. *)
Definition after_leave (c : string) (s : nat) v rv m : Manager :=
  let rv' := (room_removeSession c rv).1 in
  let m3 := m <| mg_sessions ::= delete c |> <| mg_heap ::= <[s := v <| sn_closed := true |>]> |>
       <| mg_roomHeap ::= <[sn_room v := rv']> |> in
  if room_empty rv' && bool_decide (mg_rooms m !! sn_channelID v = Some (sn_room v))
  then m3 <| mg_rooms ::= delete (sn_channelID v) |> else m3.

Lemma after_leave_inv ts c s v rv m :
  mgr_inv ts m → mg_sessions m !! c = Some s → mg_heap m !! s = Some v → mg_roomHeap m !! sn_room v = Some rv →
  mgr_inv ts (after_leave c s v rv m).
Proof.
  intros Hi Hc Hv Hr. pose proof (mgr_inv_unlist _ _ _ _ _ _ Hi Hc Hv Hr) as H1.
  apply (mgr_inv_tracks _ (sn_room v) (rv <| rm_sessions ::= delete c |>) (rm_tracks (room_removeSession c rv).1)) in H1;
    [|apply lookup_insert_eq].
  apply (mgr_inv_same _ _ (m <| mg_sessions ::= delete c |> <| mg_heap ::= <[s := v <| sn_closed := true |>]> |>
       <| mg_roomHeap ::= <[sn_room v := (room_removeSession c rv).1]> |>)) in H1;
    [|done..|simpl; by rewrite insert_insert_eq|done].
  apply (mgr_inv_removeRoom _ _ _ (room_removeSession c rv).1) in H1; [|apply lookup_insert_eq]. exact H1.
Qed.

Lemma after_leave_fields c s v rv m :
  mg_heap (after_leave c s v rv m) = <[s := v <| sn_closed := true |>]> (mg_heap m) ∧
  mg_roomHeap (after_leave c s v rv m) = <[sn_room v := (room_removeSession c rv).1]> (mg_roomHeap m) ∧
  mg_sessions (after_leave c s v rv m) = delete c (mg_sessions m) ∧
  mg_work (after_leave c s v rv m) = mg_work m.
Proof. unfold after_leave. by destruct (_ && _). Qed.

Lemma wp_leave c s v rv m (Q : bool → Manager → Prop) e :
  c ≠ "" → mg_sessions m !! c = Some s → mg_heap m !! s = Some v → mg_roomHeap m !! sn_room v = Some rv →
  e = None ∨ e = Some s →
  Q true ((after_leave c s v rv m) <| mg_work ::=
    ((TClose s :: if (room_removeSession c rv).2 && negb (room_empty (room_removeSession c rv).1)
      then [TSnapshot (sn_room v)] else []) ++.) |>) →
  wp (leave c e) Q m.
Proof.
  intros Hne Hc Hv Hr He HQ. unfold leave. rewrite (proj2 (String.eqb_neq c "")) by done. wp_step. wp_step.
  rewrite Hc. assert (match e with Some e => negb (e =? s)%nat | None => false end = false) as ->.
  { destruct He as [->| ->]; [done|]. by rewrite Nat.eqb_refl. }
  wp_step. wp_step. wp_step. apply (wp_read_session _ v); [done|].
  wp_step. unfold put_session at 1. wp_step. wp_step. apply (wp_read_room _ rv); [done|].
  destruct (room_removeSession c rv) as [rv' removed] eqn:Hrm. wp_step. unfold put_room. wp_step.
  unfold after_leave in HQ. rewrite Hrm in HQ. simpl in HQ. wp_step. wp_step.
  all: match goal with Hx : room_empty _ && _ = _ |- _ => rewrite Hx in HQ end.
  - wp_step. unfold push. wp_step. wp_step. wp_step. exact HQ.
  - unfold push. wp_step. wp_step. wp_step. exact HQ.
Qed.

Definition left_ok ext (c : string) (e : option nat) m m' : Prop :=
  running ext m' ∧ (e = None → c ≠ "" → mg_sessions m' !! c = None) ∧
  in_flight (mg_work m') = in_flight (mg_work m) ∧
  (m' = m ∨ (size (mg_sessions m') < size (mg_sessions m))%nat ∧
     ∀ f : task → nat, (∀ s, f (TClose s) = 0%nat) → (∀ r, f (TSnapshot r) = 0%nat) →
       sum_list_with f (mg_work m') = sum_list_with f (mg_work m)).

Lemma run_leave ext c e m : running ext m → wp (leave c e) (fun _ => left_ok ext c e m) m.
Proof.
  intros [Hh Hm]. destruct (decide (c = "")) as [->|Hne].
  { unfold leave. simpl. wp_step. split_and!; [done..|by left]. }
  destruct (mg_sessions m !! c) as [s|] eqn:Hc; cycle 1.
  { unfold leave. rewrite (proj2 (String.eqb_neq c "")) by done. wp_step. wp_step. rewrite Hc. wp_step. split_and!; [done..|by left]. }
  destruct (decide (e = None ∨ e = Some s)) as [He|He]; cycle 1.
  { unfold leave. rewrite (proj2 (String.eqb_neq c "")) by done. wp_step. wp_step. rewrite Hc.
    destruct e as [s'|]; [|naive_solver]. rewrite (proj2 (Nat.eqb_neq s' s)) by naive_solver. simpl. wp_step. split_and!; [done..|by left]. }
  destruct (mi_index _ _ Hh _ _ Hc) as (_&v&Hv&Hvc&_). destruct (running_session _ _ _ _ Hh Hv) as [rv Hr].
  pose proof (after_leave_inv _ _ _ _ _ _ Hh Hc Hv Hr) as Hi'.
  destruct (after_leave_fields c s v rv m) as (F1&F2&F3&F4).
  eapply wp_leave; [done..|]. set (m1 := after_leave c s v rv m) in *.
  pose proof (media_left _ c s v rv m m1 Hm Hr F1 F2 (mi_heap _ _ Hi')) as Hm'.
  rewrite <- F4 in Hi', Hm'. split_and!.
  - assert (Forall (fits m1) (TClose s :: if (room_removeSession c rv).2 && negb (room_empty (room_removeSession c rv).1)
      then [TSnapshot (sn_room v)] else [])) as Hfits.
    { constructor; [split_and!; try done|].
      - intros s' [= <-]. by rewrite F1, lookup_insert_eq.
      - intros s' [= <-] c'. rewrite F3. intros [? Hc']%lookup_delete_Some.
        destruct (mi_index _ _ Hh _ _ Hc') as (_&v'&?&?&_). congruence.
      - destruct (_ && _); repeat constructor; try done. intros r [= <-]. by rewrite F2, lookup_insert_eq. }
    split; [by apply holding_push|]. simpl in *.
    assert (∀ us w, ext ++ TClose s :: us ++ w ≡ₚ TClose s :: us ++ ext ++ w) as ->.
    { intros us w. rewrite <- Permutation_middle. f_equiv. symmetry. apply app_middle. }
    apply (media_rooms _ m1); [done|by eauto|]. eapply media_keeps; [|exact Hm'].
    intros s' r'. apply (keeps_app _ _ [_]). by repeat constructor.
  - intros _ _. simpl. rewrite F3. apply lookup_delete_eq.
  - simpl. unfold in_flight. simpl. rewrite F4. by destruct (_ && _).
  - right. simpl. rewrite F3, F4, map_size_delete, Hc. split.
    + assert (size (mg_sessions m) ≠ 0%nat); [|simpl; lia]. rewrite map_size_ne_0_lookup. eauto.
    + intros f Hf1 Hf2. rewrite Hf1. by destruct (_ && _); simpl; rewrite ?Hf2.
Qed.

Lemma run_Leave ext c m : running ext m → wp (Leave c) (fun _ => left_ok ext c None m) m.
Proof. intros Hr. unfold Leave. wp_step. eapply wp_mono; [by apply run_leave|]. intros ? m' ?. by wp_step. Qed.

Lemma running_trace ext f m : running ext m → running ext (m <| mg_trace ::= f |>).
Proof.
  intros [Hh Hm]. split; [revert Hh; by apply mgr_inv_same|]. revert Hm. apply media_rooms; [done|]. by eauto.
Qed.

Lemma run_fail ext s reason m :
  running ext m → is_Some (mg_heap m !! s) → wp (failSession s reason) (fun _ => running ext) m.
Proof.
  intros Hr [v Hv]. unfold failSession. wp_step. apply (wp_read_session _ _ _ _ Hv). wp_step.
  eapply wp_mono; [by apply run_leave|]. intros left m' (Hr'&_). wp_step; [|done]. wp_step. by apply running_trace.
Qed.

(** ** Joining *)

(** Tasks that negotiation does not depend on. *)
Definition aside (t : task) : Prop := ∀ s r, relevant s r t = false ∧ answering s t = false.

Lemma media_swap t t' ts m : aside t → aside t' → media (t :: ts) m → media (t' :: ts) m.
Proof.
  intros Ht Ht'. apply media_keeps. intros s r. eapply keeps_trans; [apply keeps_drop, Ht|].
  apply (keeps_app _ _ [_]). constructor; [by apply (Ht' s r)|constructor].
Qed.

Lemma media_drop t ts m : aside t → media (t :: ts) m → media ts m.
Proof. intros Ht. apply media_keeps. intros s r. apply keeps_drop, Ht. Qed.

(** A room is added or replaced by one with the same tracks. *)
Lemma media_room ts ts' r rv' m :
  mgr_inv ts m → (∀ rv, mg_roomHeap m !! r = Some rv → rm_tracks rv' = rm_tracks rv) →
  media ts' m → media ts' (m <| mg_roomHeap ::= <[r := rv']> |>).
Proof.
  intros Hi Ht. apply media_rooms; [done|]. intros s v rv Hv Hr _. simpl in Hr.
  destruct (mi_heap _ _ Hi _ _ Hv) as [_ _ (rv0&Hrv0&_)]. exists rv0. split; [done|].
  apply lookup_insert_Some in Hr as [[-> <-]|[? ?]]; [by apply Ht|by simplify_eq].
Qed.

Lemma media_same ts m m' : mg_heap m' = mg_heap m → mg_roomHeap m' = mg_roomHeap m → media ts m → media ts m'.
Proof. intros Hh Hr. apply media_rooms; [done|]. rewrite Hr. eauto. Qed.

(** Running with a task in hand replaced. *)
Lemma running_replace ext t' m : mgr_inv (t' :: ext ++ mg_work m) m → media (t' :: ext ++ mg_work m) m →
  running ext (m <| mg_work ::= (cons t') |>).
Proof.
  intros Hi Hm. split.
  - eapply mgr_inv_perm; [apply (app_middle [t'])|]. simpl. revert Hi. by apply mgr_inv_same.
  - apply (media_perm _ _ (app_middle [t'] ext (mg_work m)) _ _ eq_refl). revert Hm. by apply media_same.
Qed.

Lemma run_Join ext a m :
  running ext m → ja_connectionID a ∉ in_flight (ext ++ mg_work m) → wp (Join a) (fun _ => running ext) m.
Proof.
  intros Hr Hfl. unfold Join. destruct (String.eqb_spec (ja_connectionID a) "") as [|Hne]; [by wp_step|].
  destruct (_ || _); [by wp_step|]. wp_step. eapply wp_mono; [by apply run_Leave|].
  intros _ m' ([Hh Hm]&Hnone&Hwork&_). wp_step. unfold push. wp_step. wp_step. apply running_replace.
  - apply mgr_inv_flight; [done|by apply Hnone| |done].
    unfold in_flight in *. rewrite omap_app in Hfl |- *. by rewrite Hwork.
  - eapply media_keeps; [|exact Hm]. intros s r. apply (keeps_app _ _ [_]). by repeat constructor.
Qed.

Lemma reserve_tracks n rv rv' : room_reserve n rv = Some rv' → rm_tracks rv' = rm_tracks rv.
Proof. unfold room_reserve. destruct (_ <=? _)%Z; [done|]. by intros [= <-]. Qed.

Lemma run_reserve ext a m : running (TReserve a :: ext) m → wp (join_reserve a) (fun _ => running ext) m.
Proof.
  intros [Hh Hm]. unfold holding in Hh. simpl in Hh, Hm. unfold join_reserve. wp_step. wp_step.
  destruct (mg_closed m) eqn:Hcl.
  { wp_step. split; [by eapply mgr_inv_unreserved|by eapply media_drop; [|exact Hm]]. }
  wp_step. destruct (mg_rooms m !! ja_channelID a) as [r|] eqn:Hch.
  - wp_step. destruct (mi_registered _ _ Hh _ _ Hch) as (rv&Hr&_). wp_step. apply (wp_read_room _ _ _ _ Hr).
    destruct (room_reserve _ rv) as [rv'|] eqn:Hrs.
    + wp_step. unfold put_room. wp_step. unfold push. wp_step. wp_step. wp_step. apply running_replace.
      * by eapply mgr_inv_reserve.
      * eapply media_room; [exact Hh| |by eapply media_swap; [| |exact Hm]].
        intros rv0 ?. simplify_eq. by eapply reserve_tracks.
    + wp_step. split; [by eapply mgr_inv_unreserved|by eapply media_drop; [|exact Hm]].
  - set (r := fresh_in (mg_roomHeap m)). assert (mg_roomHeap m !! r = None) as Hr.
    { apply not_elem_of_dom. apply is_fresh. }
    wp_step. unfold put_room at 1. wp_step. wp_step. wp_step. wp_step. wp_step.
    set (m1 := m <| mg_roomHeap ::= <[r := newRoom (ja_channelID a)]> |> <| mg_rooms ::= <[ja_channelID a := r]> |>).
    pose proof (mgr_inv_newRoom _ (ja_channelID a) r _ Hh Hch Hr) as Hi1. fold m1 in Hi1.
    assert (media (TReserve a :: ext ++ mg_work m1) m1) as Hm1.
    { apply (media_same _ (m <| mg_roomHeap ::= <[r := newRoom (ja_channelID a)]> |>)); [done..|].
      eapply media_room; [exact Hh| |exact Hm]. intros rv ?. congruence. }
    assert (mg_roomHeap m1 !! r = Some (newRoom (ja_channelID a))) as Hr1 by apply lookup_insert_eq.
    apply (wp_read_room _ _ _ _ Hr1). pose proof (mi_max _ _ Hh) as Hmax.
    assert (room_reserve (mg_maxParticipants m) (newRoom (ja_channelID a)) =
      Some ((newRoom (ja_channelID a)) <| rm_reservations ::= Z.add 1 |>)) as Hrs.
    { unfold room_reserve. simpl. rewrite map_size_empty. destruct (Z.leb_spec (mg_maxParticipants m) (Z.of_nat 0 + 0)); [lia|done]. }
    rewrite Hrs. wp_step. unfold put_room. wp_step. unfold push. wp_step. wp_step. wp_step. apply running_replace.
    + eapply (mgr_inv_perm _ (TReserve a :: TRemoveRoom (ja_channelID a) r :: ext ++ mg_work m1)) in Hi1;
        [|by constructor].
      eapply mgr_inv_reserve in Hi1; [|apply lookup_insert_eq|exact Hr1|exact Hrs].
      eapply mgr_inv_perm in Hi1; [|apply Permutation_swap].
      eapply mgr_inv_removeRoom in Hi1; [|apply lookup_insert_eq]. simpl in Hi1. exact Hi1.
    + eapply media_room; [exact Hi1| |by eapply media_swap; [| |exact Hm1]]. intros rv Hrv. by simplify_eq.
Qed.

Lemma run_cancel ext a r m :
  running (TJoin a r :: ext) m → wp (cancel_reservation a r) (fun _ => running ext) m.
Proof.
  intros [Hh Hm]. unfold holding in Hh. simpl in Hh, Hm.
  destruct (mi_tasks _ _ Hh (TJoin a r)) as [_ Hrm _ _ _ _]; [left|]. destruct (Hrm r eq_refl) as [rv Hr].
  unfold cancel_reservation. wp_step. apply (wp_read_room _ _ _ _ Hr). wp_step. unfold put_room. wp_step.
  unfold push. wp_step. apply running_replace; [by apply mgr_inv_cancel|].
  eapply media_room; [exact Hh| |by eapply media_swap; [| |exact Hm]].
  intros rv0 ?. simplify_eq. unfold room_cancelReservation. by destruct (_ <? _)%Z.
Qed.

Lemma run_commit ext a r made m :
  running (TJoin a r :: ext) m → (∀ p, made = Some p → GetSenders p = []) →
  wp (join_commit a r made) (fun _ => running ext) m.
Proof.
  intros Hrun Hmade. unfold join_commit. wp_step. wp_step. 
  assert (∀ e : Error, wp (cancel_reservation a r ;; mret (Some e)) (fun _ => running ext) m) as Hcancel.
  { intros e. wp_step. eapply wp_mono; [by apply run_cancel|]. intros ? m' ?. by wp_step. }
  destruct made as [p|]; [|done]. destruct (mg_closed m) eqn:Hcl; [done|]. destruct Hrun as [Hh Hm].
  unfold holding in Hh. simpl in Hh, Hm.
  destruct (mi_tasks _ _ Hh (TJoin a r)) as [_ Hrm _ _ _ _]; [left|]. destruct (Hrm r eq_refl) as [rv Hr].
  set (s := fresh_in (mg_heap m)). assert (mg_heap m !! s = None) as Hs.
  { apply not_elem_of_dom. apply is_fresh. }
  wp_step. unfold put_session. wp_step. wp_step. wp_step. wp_step. apply (wp_read_room _ rv); [done|].
  wp_step. unfold put_room. wp_step. unfold push. wp_step. wp_step. wp_step. apply running_replace.
  - apply mgr_inv_push.
    + split_and!; try done. intros s' [= <-]. simpl. by rewrite lookup_insert_eq.
    + eapply mgr_inv_commit; [exact Hh|done..| |done].
      split; [simpl; unfold MaxPendingICECandidates; lia|constructor].
  - set (v := mkSession _ _ _ _ _ _ _ _ _ _ _ _ _ _ _).
    apply (media_same _ (m <| mg_roomHeap ::= <[r := room_addSession (ja_connectionID a) s rv]> |>
      <| mg_heap ::= <[s := v]> |>)); [done..|].
    apply media_created; [|intros t Ht Hts|by apply Hmade|done..].
    + eapply media_room; [exact Hh| |by eapply media_drop; [|exact Hm]]. intros rv0 ?. simplify_eq.
      unfold room_addSession, room_cancelReservation. by destruct (_ <? _)%Z.
    + destruct (mi_tasks _ _ Hh t) as [Hses _ _ _ _ _]; [by right|]. destruct (Hses _ Hts). congruence.
Qed.

(** ** Tasks *)

Lemma run_removeRoom ext ch r m :
  running (TRemoveRoom ch r :: ext) m → wp (removeRoomIfEmpty ch r) (fun _ => running ext) m.
Proof.
  intros [Hh Hm]. unfold holding in Hh. simpl in Hh, Hm.
  destruct (mi_tasks _ _ Hh (TRemoveRoom ch r)) as [_ Hrm _ _ _ _]; [left|]. destruct (Hrm r eq_refl) as [rv Hr].
  pose proof (mgr_inv_removeRoom _ _ _ _ _ Hh Hr) as Hi. apply media_drop in Hm; [|done].
  unfold removeRoomIfEmpty. wp_step. apply (wp_read_room _ _ _ _ Hr). wp_step. wp_step.
  destruct (_ && _); simpl; [wp_step|wp_step]; (split; [exact Hi|]); [|done]. revert Hm. by apply media_same.
Qed.

Lemma run_close ext s m : running (TClose s :: ext) m → wp (session_close s) (fun _ => running ext) m.
Proof.
  intros [Hh Hm]. unfold holding in Hh. simpl in Hh, Hm.
  destruct (mi_tasks _ _ Hh (TClose s)) as [Hs _ _ _ Hcl _]; [left|]. destruct (Hs s eq_refl) as [v Hv].
  unfold session_close. wp_step. apply (wp_read_session _ _ _ _ Hv). unfold put_session. wp_step. split.
  - eapply mgr_inv_session; [by eapply mgr_inv_plain; [|exact Hh]|done..| |done]. right. split; [done|]. by apply Hcl.
  - apply media_closed; [|done]. by eapply media_drop; [|exact Hm].
Qed.

Lemma run_snapshot ext r m :
  running (TSnapshot r :: ext) m →
  wp (v ← read_room r; push (TSync <$> range_values (rm_sessions v))) (fun _ => running ext) m.
Proof.
  intros [Hh Hm]. pose proof (holding_plain (TSnapshot r) ext m I Hh) as Hh'. unfold holding in Hh. simpl in Hh, Hm.
  destruct (mi_tasks _ _ Hh (TSnapshot r)) as [_ Hrm _ _ _ _]; [left|]. destruct (Hrm r eq_refl) as [rv Hr].
  wp_step. apply (wp_read_room _ _ _ _ Hr). unfold push. wp_step. split.
  - apply holding_push; [|done]. apply Forall_fmap, Forall_forall. intros s [c Hc]%elem_of_range_values.
    destruct (mi_rooms _ _ Hh _ _ Hr) as [_ _ Hss]. destruct (Hss c s Hc) as (v&Hv&_).
    split_and!; try done. intros s' [= <-]. by rewrite Hv.
  - apply (media_perm _ _ (app_middle _ ext (mg_work m)) _ _ eq_refl).
    apply (media_same _ m); [done..|]. by apply (media_snapshot _ r).
Qed.

Lemma run_push ext t m :
  fits m t → (∀ s, answering s t = false) → running ext m → wp (push [t]) (fun _ => running ext) m.
Proof.
  intros Hf Ha Hr. unfold push. wp_step. apply (running_push _ [t]); [by apply Forall_singleton| |done].
  intros s. by apply Forall_singleton.
Qed.

Lemma fits_fail m s reason : is_Some (mg_heap m !! s) → fits m (TFail s reason).
Proof. intros Hs. split_and!; try done. by intros s' [= <-]. Qed.

Lemma run_scheduleFail ext s reason m :
  running ext m → is_Some (mg_heap m !! s) → wp (scheduleFail s reason) (fun _ => running ext) m.
Proof. intros Hr Hs. apply run_push; [by apply fits_fail|done..]. Qed.

Lemma run_task_ok ext t made accepted m :
  running (t :: ext) m → (∀ p, made = Some p → GetSenders p = []) →
  wp (run_task t made accepted) (fun _ => running ext) m.
Proof.
  intros Hr Hmade. pose proof Hr as [Hh _]. destruct (mi_tasks _ _ Hh t) as [Hs _ _ _ _ _]; [left|].
  destruct t as [a|a r|ch r|s|s|r|s|s|s sdp|s cs b|s reason]; simpl;
    try (destruct (Hs s eq_refl) as [v Hv]).
  - by apply wp_ignored, run_reserve.
  - by apply wp_ignored, run_commit.
  - by apply run_removeRoom.
  - wp_step. eapply wp_mono; [by eapply (run_sync ext (TInitial s))|]. intros err m' [Hr' (v'&Hv'&_)].
    destruct err; [|by wp_step]. wp_step. apply (wp_read_session _ _ _ _ Hv').
    eapply wp_mono; [by apply run_Leave|]. by intros _ m'' [? _].
  - by apply run_close.
  - by apply run_snapshot.
  - wp_step. eapply wp_mono; [by eapply (run_sync ext (TSync s))|]. intros err m' [Hr' (v'&Hv'&_)].
    destruct err; [|by wp_step]. apply run_scheduleFail; [done|by rewrite Hv'].
  - apply wp_ignored. eapply wp_mono; [by eapply (run_sync ext (TState s))|]. by intros err m' [Hr' _].
  - apply running_plain in Hr; [|done..]. wp_step. apply (wp_read_session _ _ _ _ Hv). wp_step. wp_step.
    wp_step; [|by apply running_trace]. apply run_scheduleFail; [by apply running_trace|simpl; by rewrite Hv].
  - destruct cs as [|c cs]; [|by apply run_buffered]. destruct b; simpl.
    + apply wp_ignored. eapply wp_mono; [by eapply (run_sync ext (TAnswer s [] true))|]. by intros err m' [Hr' _].
    + wp_step. destruct Hr as [_ Hm]. split; [by apply (holding_plain (TAnswer s [] false))|].
      by apply (media_answer_done _ s []).
  - apply running_plain in Hr; [|done..]. apply run_fail; [done|]. by rewrite Hv.
Qed.

(** ** Calls and callbacks *)

(** [track_id] does not matter: the tracks of a room change and its sessions
    are synchronized. *)
Lemma run_tracks ext r rv tracks changed m :
  running ext m → mg_roomHeap m !! r = Some rv → (changed = false → tracks = rm_tracks rv) →
  wp (put_room r (rv <| rm_tracks := tracks |>) ;; when changed (push [TSnapshot r])) (fun _ => running ext) m.
Proof.
  intros [Hh Hm] Hr Hch. wp_step. unfold put_room, push. wp_step.
  pose proof (mgr_inv_tracks _ _ _ tracks _ Hh Hr) as Hi. wp_step.
  - wp_step. apply running_replace; [|by eapply media_tracks].
    apply mgr_inv_push; [|exact Hi]. split_and!; try done. intros r' [= <-]. simpl. by rewrite lookup_insert_eq.
  - split; [exact Hi|]. eapply media_room; [exact Hh| |exact Hm]. intros rv0 ?. simplify_eq. simpl. by apply Hch.
Qed.

Lemma run_forwarding ext s kind m :
  running ext m → is_Some (mg_heap m !! s) → wp (start_forwarding s kind) (fun _ => running ext) m.
Proof.
  intros Hr [v Hv]. pose proof Hr as [Hh _]. destruct (running_session _ _ _ _ Hh Hv) as [rv Hrv].
  unfold start_forwarding. wp_step. apply (wp_read_session _ _ _ _ Hv). destruct (sn_closed v); [by wp_step|].
  wp_step. apply (wp_read_room _ _ _ _ Hrv). unfold room_addTrack.
  assert (rv = rv <| rm_tracks := rm_tracks rv |>) as Hsame by by destruct rv.
  destruct (bool_decide _); [|destruct (existsb _ _)]; [rewrite Hsame..|]; by apply run_tracks.
Qed.

Lemma run_stop ext s kind m :
  running ext m → is_Some (mg_heap m !! s) → wp (stop_forwarding s kind) (fun _ => running ext) m.
Proof.
  intros Hr [v Hv]. pose proof Hr as [Hh _]. destruct (running_session _ _ _ _ Hh Hv) as [rv Hrv].
  unfold stop_forwarding. wp_step. apply (wp_read_session _ _ _ _ Hv).
  wp_step. apply (wp_read_room _ _ _ _ Hrv). unfold room_removeTrack.
  assert (rv = rv <| rm_tracks := rm_tracks rv |>) as Hsame by by destruct rv.
  destruct (rm_tracks rv !! _) as [t|]; [destruct (String.eqb _ _)|]; [by apply run_tracks|rewrite Hsame..];
    by apply run_tracks.
Qed.

(** A session is replaced by one that looks the same to negotiation. *)
Lemma running_put ext s v v' m :
  running ext m → mg_heap m !! s = Some v → same_place v v' → sn_faulty v' = sn_faulty v → untouched v v' →
  running ext (updated s v' [] m).
Proof.
  intros [Hh Hm] Hv Hsp Hf Hun. eapply running_updated; [done..|]. eapply media_untouched; eauto.
Qed.

Lemma run_SetState ext c selfMute selfDeaf m :
  running ext m → wp (SetState c selfMute selfDeaf) (fun _ => running ext) m.
Proof.
  intros [Hh Hm]. unfold SetState, lookup_session. wp_step. wp_step.
  destruct (mg_sessions m !! c) as [s|] eqn:Hc; [|by wp_step].
  destruct (mi_index _ _ Hh _ _ Hc) as (_&v&Hv&_&_). wp_step. apply (wp_read_session _ _ _ _ Hv).
  wp_step. unfold put_session, push. wp_step. wp_step.
  pose proof (media_deaf _ _ _ selfMute selfDeaf _ Hm Hv) as Hm'.
  eapply (mgr_inv_session _ s v (v <| sn_selfMute := selfMute |> <| sn_selfDeaf := selfDeaf |>)) in Hh as Hi;
    [|done|done|done|done|by left|done].
  destruct (Bool.eqb _ _); simpl in *; wp_step.
  - wp_step. by split.
  - wp_step. apply running_replace; [|done].
    apply mgr_inv_push; [|exact Hi]. split_and!; try done. intros s' [= <-]. simpl. by rewrite lookup_insert_eq.
Qed.

Lemma run_found {A} ext c (f : nat → M Manager A) (none : A) m :
  running ext m → (∀ s, is_Some (mg_heap m !! s) → wp (f s) (fun _ => running ext) m) →
  wp (found ← lookup_session c; match found with None => mret none | Some s => f s end) (fun _ => running ext) m.
Proof.
  intros Hr Hf. unfold lookup_session. wp_step. wp_step.
  destruct (mg_sessions m !! c) as [s|] eqn:Hc; [|by wp_step]. apply Hf.
  destruct Hr as [Hh _]. destruct (mi_index _ _ Hh _ _ Hc) as (_&v&Hv&_). by rewrite Hv.
Qed.

Lemma run_Close ext m : running ext m → wp manager_Close (fun _ => running ext) m.
Proof.
  intros [Hh Hm]. unfold manager_Close. wp_step. wp_step. destruct (mg_closed m) eqn:Hcl; [by wp_step|].
  wp_step. wp_step. unfold push. wp_step. apply running_push.
  - apply Forall_fmap, Forall_forall. intros s [c Hc]%elem_of_range_values.
    destruct (mi_index _ _ Hh _ _ Hc) as (_&v&Hv&_). split_and!; try done. intros s' [= <-]. simpl. by rewrite Hv.
  - intros s. by apply Forall_fmap, Forall_true.
  - split; [by apply mgr_inv_close|]. revert Hm. by apply media_same.
Qed.

Lemma run_exhausted ext s m :
  running ext m → is_Some (mg_heap m !! s) → wp (recovery_exhausted s) (fun _ => running ext) m.
Proof.
  intros Hr [v Hv]. unfold recovery_exhausted. wp_step. apply (wp_read_session _ _ _ _ Hv).
  destruct (_ || _); [by wp_step|]. apply run_fail; [done|]. by rewrite Hv.
Qed.

Lemma run_fired ext s armed m :
  running ext m → is_Some (mg_heap m !! s) → wp (handshake_fired s armed) (fun _ => running ext) m.
Proof.
  intros Hr [v Hv]. unfold handshake_fired. destruct (deadline_reason armed); [|by wp_step].
  wp_step. apply (wp_read_session _ _ _ _ Hv). destruct (deadline_fire _ _) as [expired d]. wp_step.
  apply wp_put_session. assert (running ext (updated s (v <| sn_handshake := d |>) [] m)) as Hr'.
  { by eapply running_put. }
  wp_step; [|done]. apply run_fail; [done|]. simpl. by rewrite lookup_insert_eq.
Qed.

Lemma run_closed ext s m :
  running ext m → is_Some (mg_heap m !! s) → wp (connection_closed s) (fun _ => running ext) m.
Proof.
  intros Hr [v Hv]. unfold connection_closed. wp_step. apply (wp_read_session _ _ _ _ Hv). wp_step; [|done].
  apply run_scheduleFail; [done|by rewrite Hv].
Qed.

Lemma run_connected ext s m :
  running ext m → is_Some (mg_heap m !! s) → wp (connected s) (fun _ => running ext) m.
Proof.
  intros Hr [v Hv]. unfold connected. wp_step. apply (wp_read_session _ _ _ _ Hv). apply wp_put_session.
  by eapply running_put.
Qed.
End run.
