(* ===== verification/VoiceManagerWork.v ===== *)
(** * The voice media manager: the goroutines come to an end

    Every task that runs makes the work that is left smaller, in the
    lexicographic order of joins under way, sessions, snapshots to take and
    the remaining effort. *)

From Stdlib Require Import Relation_Operators Inclusion Lexicographic_Product.
From S2P Require Import Prelude GoText Events VoiceManager VoiceManagerInv VoiceManagerKeep VoiceManagerSync VoiceManagerMedia VoiceManagerRun.

Definition join_steps (t : task) : nat := match t with TReserve _ => 2 | TJoin _ _ => 1 | _ => 0 end.
Definition snapshots (t : task) : nat := match t with TSnapshot _ => 1 | _ => 0 end.
Definition effort (t : task) : nat :=
  match t with
  | TInitial _ | TSync _ | TState _ => 4 | TAnswer _ cs _ => 4 + length cs | TOffer _ _ => 2
  | TClose _ | TRemoveRoom _ _ | TFail _ _ => 1 | _ => 0
  end.

Definition amount : Type := nat * (nat * (nat * nat)).
Definition left_over (ts : list task) (sessions : nat) : amount :=
  (sum_list_with join_steps ts, (sessions, (sum_list_with snapshots ts, sum_list_with effort ts))).

Definition less (a b : amount) : Prop :=
  a.1 < b.1 ∨ (a.1 = b.1 ∧ (a.2.1 < b.2.1 ∨ (a.2.1 = b.2.1 ∧
    (a.2.2.1 < b.2.2.1 ∨ (a.2.2.1 = b.2.2.1 ∧ a.2.2.2 < b.2.2.2))))).

Lemma less_wf : well_founded less.
Proof.
  assert (well_founded (slexprod nat _ lt (slexprod nat _ lt (slexprod nat nat lt lt)))) as Hwf.
  { repeat apply wf_slexprod; apply lt_wf. }
  refine (wf_incl _ _ _ _ Hwf). intros [a1 [a2 [a3 a4]]] [b1 [b2 [b3 b4]]]. unfold less; simpl.
  intros [?|(->&[?|(->&[?|(->&?)])])].
  - by apply left_slex.
  - by apply right_slex, left_slex.
  - by apply right_slex, right_slex, left_slex.
  - by apply right_slex, right_slex, right_slex.
Qed.

Section work.
Context `{MapOrder} `{!Peer} `{!PeerLaws _}.
Implicit Types (m : Manager) (v : session) (rv : room).

Definition remaining m : amount := left_over (mg_work m) (size (mg_sessions m)).
Definition remaining_with (t : task) m : amount := left_over (t :: mg_work m) (size (mg_sessions m)).

(** A task is done and adds [us]. *)
Lemma less_tasks t us m m' :
  mg_work m' = us ++ mg_work m → mg_sessions m' = mg_sessions m →
  less (sum_list_with join_steps us, (0, (sum_list_with snapshots us, sum_list_with effort us)))
    (join_steps t, (0, (snapshots t, effort t))) →
  less (remaining m') (remaining_with t m).
Proof.
  intros Hw Hs. unfold less, remaining, remaining_with, left_over. simpl. rewrite Hw, Hs, !sum_list_with_app. lia.
Qed.

(** The same, and a session may have left. *)
Lemma less_leave ext c e t us m m1 m' :
  left_ok ext c e m1 m' → mg_work m1 = us ++ mg_work m → mg_sessions m1 = mg_sessions m →
  join_steps t = 0 → sum_list_with join_steps us = 0 →
  less (0, (0, (sum_list_with snapshots us, sum_list_with effort us))) (0, (0, (snapshots t, effort t))) →
  less (remaining m') (remaining_with t m).
Proof.
  intros (_&_&_&Hcase) Hw Hs Ht Hus Hl. destruct Hcase as [->|[Hsz Hf]].
  { eapply less_tasks; [done..|]. by rewrite Ht, Hus. }
  unfold less, remaining, remaining_with, left_over. simpl.
  rewrite Ht, (Hf join_steps), Hw, sum_list_with_app, Hus, <- Hs by done. lia.
Qed.

Lemma less_offers s us t m m' :
  offers s us → mg_work m' = us ++ mg_work m → mg_sessions m' = mg_sessions m →
  join_steps t = 0 → snapshots t = 0 → 2 < effort t → less (remaining m') (remaining_with t m).
Proof.
  intros Hus Hw Hs Hj Hsn He. eapply less_tasks; [done..|]. rewrite Hj, Hsn. unfold less.
  destruct Hus as [->|[sdp ->]]; simpl; lia.
Qed.

(** Reading what a task refers to. *)
Lemma task_heap t m : holding [t] m → (∀ s, task_session t = Some s → is_Some (mg_heap m !! s)) ∧
  (∀ r, task_room t = Some r → is_Some (mg_roomHeap m !! r)).
Proof. intros Hh. destruct (mi_tasks _ _ Hh t) as [Hs Hr _ _ _ _]; [left|]. by split. Qed.

Lemma fail_less s reason m :
  running [TFail s reason] m → wp (failSession s reason) (fun _ m' => less (remaining m') (remaining_with (TFail s reason) m)) m.
Proof.
  intros Hr. pose proof Hr as [Hh _]. destruct (proj1 (task_heap _ _ Hh) s eq_refl) as [v Hv].
  unfold failSession. wp_step. apply (wp_read_session _ _ _ _ Hv). wp_step.
  eapply wp_mono; [by apply run_leave|]. intros left m' Hl.
  assert (less (remaining m') (remaining_with (TFail s reason) m)) as Hless.
  { eapply (less_leave _ _ _ _ []); [exact Hl|done..|]. unfold less. simpl. lia. }
  wp_step; [|done]. by wp_step.
Qed.

(** [synchronizeTracks] adds at most an offer. *)
Lemma sync_work t s force m :
  running [t] m → task_session t = Some s → (t = TInitial s → force = true) →
  wp (synchronizeTracks s force) (fun _ m' => (running [] m' ∧ is_Some (mg_heap m' !! s)) ∧
    ∃ us, offers s us ∧ mg_work m' = us ++ mg_work m ∧ mg_sessions m' = mg_sessions m) m.
Proof.
  intros Hr Ht Hf. pose proof Hr as [Hh _]. destruct (proj1 (task_heap _ _ Hh) s Ht) as [v Hv].
  destruct (running_session _ _ _ _ Hh Hv) as [rv Hrv]. apply wp_and.
  - eapply wp_mono; [by eapply run_sync|]. intros _ m' [? (v'&Hv'&_)]. split; [done|by rewrite Hv'].
  - eapply wp_mono; [by eapply sync_spec|]. intros err m' (v'&us&->&_&Hus&_). by exists us.
Qed.

Lemma sync_less t s force m :
  running [t] m → task_session t = Some s → (t = TInitial s → force = true) → 2 < effort t →
  wp (synchronizeTracks s force) (fun _ m' => less (remaining m') (remaining_with t m)) m.
Proof.
  intros Hr Ht Hf He. eapply wp_mono; [by eapply (sync_work t)|]. intros _ m' (_&us&Hus&?&?).
  eapply less_offers; [done..| | |done]; by destruct t.
Qed.

Lemma reserve_less a m :
  running [TReserve a] m → wp (join_reserve a) (fun _ m' => less (remaining m') (remaining_with (TReserve a) m)) m.
Proof.
  intros [Hh _]. unfold join_reserve. wp_step. wp_step. destruct (mg_closed m).
  { wp_step. apply (less_tasks _ []); [done..|]. unfold less. simpl. lia. }
  assert (∀ r rv m1, mg_roomHeap m1 !! r = Some rv → mg_work m1 = mg_work m → mg_sessions m1 = mg_sessions m →
    wp (v ← read_room r; match room_reserve (mg_maxParticipants m) v with
      | None => mret (Some ErrRoomFull) | Some v => put_room r v ;; push [TJoin a r] ;; mret None end)
    (fun _ m' => less (remaining m') (remaining_with (TReserve a) m)) m1) as Hrest.
  { intros r rv m1 Hr Hw Hs. wp_step. apply (wp_read_room _ _ _ _ Hr). destruct (room_reserve _ rv).
    - wp_step. unfold put_room, push. wp_step. wp_step. wp_step. wp_step. apply (less_tasks _ [TJoin a r]); [by simpl; rewrite Hw|done|].
      unfold less. simpl. lia.
    - wp_step. apply (less_tasks _ []); [done..|]. unfold less. simpl. lia. }
  wp_step. destruct (mg_rooms m !! ja_channelID a) as [r|] eqn:Hch.
  - wp_step. destruct (mi_registered _ _ Hh _ _ Hch) as (rv&Hr&_). by apply (Hrest r rv).
  - wp_step. unfold put_room at 1. wp_step. wp_step. wp_step. wp_step. eapply Hrest; [apply lookup_insert_eq|done..].
Qed.

Lemma commit_less a r made m :
  running [TJoin a r] m →
  wp (join_commit a r made) (fun _ m' => less (remaining m') (remaining_with (TJoin a r) m)) m.
Proof.
  intros [Hh _]. destruct (proj2 (task_heap _ _ Hh) r eq_refl) as [rv Hr].
  assert (wp (cancel_reservation a r) (fun _ m' => less (remaining m') (remaining_with (TJoin a r) m)) m) as Hcancel.
  { unfold cancel_reservation. wp_step. apply (wp_read_room _ _ _ _ Hr). wp_step. unfold put_room, push.
    wp_step. wp_step. eapply (less_tasks _ [_]); [done..|]. unfold less. simpl. lia. }
  unfold join_commit. wp_step. wp_step. 
  assert (∀ e : Error, wp (cancel_reservation a r ;; mret (Some e))
    (fun _ m' => less (remaining m') (remaining_with (TJoin a r) m)) m) as Hfail.
  { intros e. wp_step. eapply wp_mono; [exact Hcancel|]. intros ? m' ?. by wp_step. }
  destruct made as [p|]; [|done]. destruct (mg_closed m); [done|].
  wp_step. unfold put_session. wp_step. wp_step. wp_step. wp_step. apply (wp_read_room _ rv); [done|].
  wp_step. unfold put_room, push. wp_step. wp_step. wp_step. wp_step. unfold less, remaining, remaining_with, left_over. simpl. lia.
Qed.

Lemma buffered_less s c cs b m :
  running [TAnswer s (c :: cs) b] m →
  wp (run_task (TAnswer s (c :: cs) b) None false)
    (fun _ m' => less (remaining m') (remaining_with (TAnswer s (c :: cs) b) m)) m.
Proof.
  intros [Hh _]. destruct (proj1 (task_heap _ _ Hh) s eq_refl) as [v Hv]. simpl. wp_step.
  eapply wp_mono; [by apply addICECandidate_spec|]. intros err m' (v'&->&_). unfold scheduleFail, push.
  destruct err; wp_step; [apply (less_tasks _ [])|eapply (less_tasks _ [_])]; try done; unfold less; simpl; lia.
Qed.

Lemma snapshots_done ss :
  sum_list_with join_steps (TSync <$> ss) = 0 ∧ sum_list_with snapshots (TSync <$> ss) = 0.
Proof. by induction ss. Qed.

Lemma run_less t made accepted m :
  running [t] m → wp (run_task t made accepted) (fun _ m' => less (remaining m') (remaining_with t m)) m.
Proof.
  intros Hr. pose proof Hr as [Hh Hm]. destruct (task_heap _ _ Hh) as [Hs Hrm].
  destruct t as [a|a r|ch r|s|s|r|s|s|s sdp|s cs b|s reason]; simpl;
    try (destruct (Hs s eq_refl) as [v Hv]); try (destruct (Hrm r eq_refl) as [rv Hrv]).
  - by apply wp_ignored, reserve_less.
  - by apply wp_ignored, commit_less.
  - unfold removeRoomIfEmpty. wp_step. apply (wp_read_room _ _ _ _ Hrv). wp_step. wp_step.
    wp_step; [wp_step|]; (apply (less_tasks _ []); [done..|]; unfold less; simpl; lia).
  - wp_step. eapply wp_mono; [by eapply (sync_work (TInitial s))|]. intros err m1 ([Hr1 [v1 Hv1]]&us&Hus&?&?).
    destruct err; [|wp_step; eapply less_offers; [done..|simpl; lia]].
    wp_step. apply (wp_read_session _ _ _ _ Hv1). eapply wp_mono; [by apply run_Leave|]. intros u m' Hl.
    apply (less_leave _ _ _ _ us m _ _ Hl); try done; destruct Hus as [->|[sdp ->]]; try done; unfold less; simpl; lia.
  - unfold session_close. wp_step. apply (wp_read_session _ _ _ _ Hv). unfold put_session. wp_step.
    apply (less_tasks _ []); [done..|]; unfold less; simpl; lia.
  - wp_step. apply (wp_read_room _ _ _ _ Hrv). unfold scheduleFail, push. wp_step.
    eapply less_tasks; [done..|]. destruct (snapshots_done (range_values (rm_sessions rv))) as [-> ->].
    unfold less. simpl. lia.
  - wp_step. eapply wp_mono; [by eapply (sync_work (TSync s))|]. intros err m1 (_&us&Hus&Hw&Hss).
    destruct err; [|wp_step; eapply less_offers; [done..|simpl; lia]].
    unfold scheduleFail, push. wp_step. eapply (less_tasks _ (_ :: us)); [simpl; by rewrite Hw|done|].
    destruct Hus as [->|[sdp ->]]; unfold less; simpl; lia.
  - apply wp_ignored, (sync_less (TState s)); [done..|simpl; lia].
  - wp_step. apply (wp_read_session _ _ _ _ Hv). wp_step. wp_step. unfold scheduleFail, push.
    wp_step; [wp_step; eapply (less_tasks _ [_])|apply (less_tasks _ [])]; try done; unfold less; simpl; lia.
  - destruct cs as [|c cs]; [|by apply buffered_less]. destruct b; simpl.
    + apply wp_ignored, (sync_less (TAnswer s [] true)); [done..|simpl; lia].
    + wp_step. apply (less_tasks _ []); [done..|]; unfold less; simpl; lia.
  - by apply fail_less.
Qed.
End work.
