(* ===== verification/VoiceManagerProps.v ===== *)
(** * The voice media manager: what holds in every reachable state

    The manager is driven by calls, by callbacks of the peer connections and
    by the tasks that are waiting, in any order. *)

From S2P Require Import Prelude GoText Events VoiceManager VoiceManagerInv VoiceManagerKeep VoiceManagerSync VoiceManagerMedia VoiceManagerRun VoiceManagerWork.

Section props.
Context `{MapOrder} `{!Peer} `{!PeerLaws _}.
Implicit Types (m : Manager) (v : session) (rv : room).

(** [Join] is not called twice at a time for a connection (its caller is the
    loop that reads from the connection), callbacks come from sessions that
    exist, and a new peer connection sends nothing. *)
Definition new_peer (made : option peer) : Prop :=
  match made with Some p => GetSenders p = [] | None => True end.
Definition allowed (a : action) m : Prop :=
  match a with
  | AJoin a => ja_connectionID a ∉ in_flight (mg_work m)
  | AStart s _ | AStop s _ | ARestart s | AExhausted s | AFired s _ | AClosed s | AConnected s | AFail s _ =>
      is_Some (mg_heap m !! s)
  | ARun _ made _ => new_peer made
  | ALeave _ | ASetState _ _ _ | AAnswer _ _ | ACandidate _ _ | AClose => True
  end.
#[global] Instance allowed_dec a m : Decision (allowed a m).
Proof. destruct a as [| | | | | | | | | | | | | |? [] ?]; simpl; apply _. Defined.

Inductive step m : Manager → Prop :=
  | step_act a m' : allowed a m → act a m = Ok (tt, m') → step m m'.

(** A waiting task runs. *)
Inductive work_step m : Manager → Prop :=
  | work_run i made accepted m' : (i < length (mg_work m))%nat → new_peer made →
      act (ARun i made accepted) m = Ok (tt, m') → work_step m m'.

Lemma new_running n m : NewManager n = Some m → running [] m.
Proof.
  unfold NewManager. set (k := if (n =? 0)%Z then 32%Z else n). destruct (_ || _) eqn:Hk; [done|].
  apply orb_false_iff in Hk as [?%Z.ltb_ge ?%Z.ltb_ge]. intros [= <-]. split; [|done].
  split; simpl; try done; [by intros t ?%elem_of_nil|constructor].
Qed.

(** A task taken off the list is in hand. *)
Lemma running_take i t m :
  running [] m → mg_work m !! i = Some t → running [t] (m <| mg_work ::= delete i |>).
Proof.
  intros [Hh Hm] Hi. apply delete_Permutation in Hi as Hp. split.
  - apply (mgr_inv_perm (mg_work m)); [done|]. revert Hh. by apply mgr_inv_same.
  - apply (media_perm _ _ Hp _ _ eq_refl). revert Hm. by apply media_same.
Qed.

Lemma act_ok a m : running [] m → allowed a m → wp (act a) (fun _ => running []) m.
Proof.
  intros Hr Ha. destruct a as [a|c|c x y|c sdp|c x| |s k|s k|s|s|s d|s|s|s reason|i made accepted]; simpl in *.
  - apply wp_ignored. by apply run_Join.
  - eapply wp_mono; [by apply run_Leave|]. by intros ? m' [? _].
  - by apply wp_ignored, run_SetState.
  - apply wp_ignored, run_found; [done|]. intros s Hs. by apply run_answer.
  - apply wp_ignored, run_found; [done|]. intros s Hs. by apply run_candidate.
  - by apply run_Close.
  - by apply run_forwarding.
  - by apply run_stop.
  - by apply wp_ignored, run_restart.
  - by apply run_exhausted.
  - by apply run_fired.
  - by apply run_closed.
  - by apply run_connected.
  - by apply run_scheduleFail.
  - wp_step. wp_step. destruct (mg_work m !! i) as [t|] eqn:Hi; [|by wp_step]. wp_step. wp_step.
    apply run_task_ok; [by apply running_take|]. intros p ->. done.
Qed.

Lemma step_running m m' : running [] m → step m m' → running [] m'.
Proof. intros Hr [a m'' Ha Hact]. by eapply (wp_result _ _ _ _ _ (act_ok _ _ Hr Ha)). Qed.

Lemma reachable_running n m0 m : NewManager n = Some m0 → rtc step m0 m → running [] m.
Proof.
  intros Hn Hs. apply new_running in Hn. induction Hs as [|m0 m1 m Hs _ IH]; [done|]. by apply IH, (step_running m0).
Qed.

Lemma work_step_step m m' : work_step m m' → step m m'.
Proof. intros [i made accepted m'' Hi Hp Hact]. exact (step_act m (ARun i made accepted) m'' Hp Hact). Qed.

Lemma work_running m m' : running [] m → rtc work_step m m' → running [] m'.
Proof.
  intros Hr Hs. induction Hs as [|m m1 m' Hs _ IH]; [done|]. by eapply IH, step_running, work_step_step.
Qed.

(** ** Work *)

Lemma work_less m m' : running [] m → work_step m m' → less (remaining m') (remaining m).
Proof.
  intros Hr [i made accepted m'' Hi _ Hact]. apply lookup_lt_is_Some in Hi as [t Hi].
  simpl in Hact. unfold mbind, M_bind, get_state, gets in Hact. simpl in Hact. rewrite Hi in Hact.
  unfold mbind, M_bind, modify in Hact. simpl in Hact.
  pose proof (wp_result _ _ _ _ _ (run_less t made accepted _ (running_take _ _ _ Hr Hi)) Hact) as Hl.
  apply delete_Permutation in Hi. unfold remaining, remaining_with, left_over in *. simpl in Hl.
  by rewrite Hi.
Qed.

Lemma work_acc m : running [] m → Acc (fun m' m => work_step m m') m.
Proof.
  remember (remaining m) as a eqn:Ha. revert m Ha. induction (less_wf a) as [a _ IH]. intros m -> Hr.
  constructor. intros m' Hs. eapply IH; [by apply work_less|done|]. by eapply step_running, work_step_step.
Qed.

Lemma work_progress m : running [] m → mg_work m ≠ [] → ∃ m', work_step m m'.
Proof.
  intros Hr Hw. destruct (proj1 (wp_run _ _ _) (act_ok (ARun 0 None true) m Hr I)) as ([]&m'&Hact&_).
  exists m'. apply (work_run m 0 None true); [|done|exact Hact]. destruct (mg_work m); [done|simpl; lia].
Qed.

(** ** The claims *)

(** C29: whatever the order of calls, callbacks and goroutines, no voice room
    ever holds more sessions and reservations than its limit, which is between
    2 and 100; while the manager is open a connection is indexed exactly when
    its session is open, and then its room lists it and is the one registered
    for the channel; at most 64 candidates wait in a session; and when no
    goroutine is left, no reservation is left and every registered room has a
    session. *)
Theorem voice_rooms_bounded n m0 m :
  NewManager n = Some m0 → rtc step m0 m →
  (2 <= mg_maxParticipants m <= 100)%Z ∧
  (∀ r rv, mg_roomHeap m !! r = Some rv →
    (Z.of_nat (size (rm_sessions rv)) + rm_reservations rv <= mg_maxParticipants m)%Z) ∧
  (mg_closed m = false → ∀ c s, mg_sessions m !! c = Some s ↔ ∃ v rv, mg_heap m !! s = Some v ∧
    sn_connectionID v = c ∧ sn_closed v = false ∧ mg_rooms m !! sn_channelID v = Some (sn_room v) ∧
    mg_roomHeap m !! sn_room v = Some rv ∧ rm_sessions rv !! c = Some s) ∧
  (∀ s v, mg_heap m !! s = Some v → (length (sn_pendingCandidates v) <= 64)%nat) ∧
  (mg_work m = [] → ∀ ch r, mg_rooms m !! ch = Some r → ∃ rv, mg_roomHeap m !! r = Some rv ∧
    rm_id rv = ch ∧ rm_sessions rv ≠ ∅ ∧ rm_reservations rv = 0%Z).
Proof.
  intros Hn Hs. destruct (reachable_running _ _ _ Hn Hs) as [Hi _]. unfold holding in Hi. simpl in Hi. split_and!.
  - apply (mi_max _ _ Hi).
  - apply (mi_max _ _ Hi).
  - intros r rv Hr. apply (mi_rooms _ _ Hi _ _ Hr).
  - intros Hopen c s. split.
    + intros Hc. destruct (mi_index _ _ Hi _ _ Hc) as (_&v&Hv&<-&Hcl).
      destruct (mi_heap _ _ Hi _ _ Hv) as [_ _ (rv&Hr&Hid&Hin)]. specialize (Hin Hcl).
      exists v, rv. split_and!; [done..| |done|done]. rewrite <- Hid. apply (mi_occupied _ _ Hi Hopen _ _ Hr).
      left. intros Hemp. by rewrite Hemp in Hin.
    + intros (v&rv&Hv&<-&_&_&Hr&Hin). destruct (mi_rooms _ _ Hi _ _ Hr) as [_ _ Hss].
      destruct (Hss _ _ Hin) as (?&_&_&_&Hx). by apply Hx.
  - intros s v Hv. apply (mi_heap _ _ Hi _ _ Hv).
  - intros Hw ch r Hr. destruct (mi_registered _ _ Hi _ _ Hr) as (rv&Hrv&Hid&Hu). exists rv.
    destruct (mi_rooms _ _ Hi _ _ Hrv) as [_ Hres _]. rewrite Hw in Hu, Hres. change (reserved r []) with 0%Z in Hres.
    split_and!; [done..| |done]. destruct Hu as [[?|?]|?%elem_of_nil]; [done|lia|done].
Qed.

(** C30: from every reachable state the waiting goroutines come to an end
    however they are scheduled and one of them can always run; and once none
    is left, every open session of which no call failed sends exactly the
    tracks its room and its deafness ask for, by identifier and each once, and
    its client has been offered exactly those or an answer is outstanding after which it
    will be. *)
Theorem voice_media_settles n m0 m :
  NewManager n = Some m0 → rtc step m0 m →
  Acc (fun m2 m1 => work_step m1 m2) m ∧
  ∀ m', rtc work_step m m' →
    (mg_work m' ≠ [] → ∃ m'', work_step m' m'') ∧
    (mg_work m' = [] → ∀ s v rv, mg_heap m' !! s = Some v → mg_roomHeap m' !! sn_room v = Some rv → live v →
      NoDup (GetSenders (sn_peer v)) ∧
      (∀ id, id ∈ GetSenders (sn_peer v) ↔ is_Some (desired v (rm_tracks rv) !! id)) ∧
      (sn_offered v = GetSenders (sn_peer v) ∨
       sn_negotiationPending v = true ∧ stable (sn_peer v) = false)).
Proof.
  intros Hn Hs. pose proof (reachable_running _ _ _ Hn Hs) as Hr. split; [by apply work_acc|].
  intros m' Hs'. pose proof (work_running _ _ Hr Hs') as Hr'. split; [by apply work_progress|].
  intros Hw s v rv Hv Hrv Hl. destruct Hr' as [_ Hm]. destruct (Hm s v rv Hv Hrv Hl) as [H1 _ H3 _ H5 H6].
  simpl in H3, H5, H6. rewrite Hw in H3, H5, H6. split; [done|]. split.
  - destruct H6 as [Hst|?]; [|done]. unfold stale in Hst. by rewrite !elem_of_nil in Hst; naive_solver.
  - destruct H5 as [?%elem_of_nil|[Hp|?]]; [done| |by left]. right. split; [done|].
    destruct (H3 Hp) as [?|[cs ?%elem_of_nil]]; done.
Qed.

(** ** Scripts *)

Fixpoint script (l : list action) m : option Manager :=
  match l with
  | [] => Some m
  | a :: l =>
      if decide (allowed a m) then match act a m with Ok (_, m) => script l m | _ => None end else None
  end.

(** The first task in the list runs, [k] times. *)
Fixpoint drain (k : nat) (made : option peer) m : option Manager :=
  match k with
  | O => Some m
  | S k =>
      match mg_work m, act (ARun 0 made true) m with
      | _ :: _, Ok (_, m) => drain k made m
      | _, _ => None
      end
  end.

Lemma drain_steps k made m m' : new_peer made → drain k made m = Some m' → rtc work_step m m'.
Proof.
  intros Hp. revert m. induction k as [|k IH]; intros m; [simpl; intros [= <-]; apply rtc_refl|].
  cbn [drain]. destruct (mg_work m) as [|t ts] eqn:Hw; [done|].
  destruct (act (ARun 0 made true) m) as [[[] m1]| |] eqn:Hact; [|done..].
  intros Hd. eapply rtc_l; [|by apply IH]. apply (work_run m 0 made true); [rewrite Hw; simpl; lia|done|done].
Qed.

Lemma script_steps l m m' : script l m = Some m' → rtc step m m'.
Proof.
  revert m. induction l as [|a l IH]; simpl; intros m Hs; [by injection Hs as <-; apply rtc_refl|].
  destruct (decide (allowed a m)) as [Ha|]; [|done]. destruct (act a m) as [[[] m1]| |] eqn:Hact; [|done..].
  eapply rtc_l; [by econstructor|by apply IH].
Qed.
End props.

(** ** A peer connection *)

Record plainPeer := mkPlainPeer { pp_senders : list string; pp_stable : bool; pp_remote : option string }.

Fixpoint remove_one (id : string) (l : list string) : option (list string) :=
  match l with
  | [] => None
  | x :: l => if String.eqb x id then Some l else cons x <$> remove_one id l
  end.

Lemma remove_one_perm id l k : remove_one id l = Some k → l ≡ₚ id :: k.
Proof.
  revert k. induction l as [|x l IH]; simpl; intros k Hk; [done|]. destruct (String.eqb_spec x id) as [->|?].
  - by injection Hk as <-.
  - destruct (remove_one id l) as [k'|]; [|done]. injection Hk as <-. rewrite (IH k') by done. constructor.
Qed.

(** It refuses the candidate [bad]. *)
Definition plain_peer : Peer := {|
  peer := plainPeer;
  GetSenders := pp_senders;
  AddTrack id p := Some (mkPlainPeer (id :: pp_senders p) (pp_stable p) (pp_remote p));
  RemoveTrack id p := senders ← remove_one id (pp_senders p); Some (mkPlainPeer senders (pp_stable p) (pp_remote p));
  CreateOffer restart p := Some (if restart then "restart" else "offer");
  SetLocalDescription sdp p := Some (mkPlainPeer (pp_senders p) false (pp_remote p));
  SetRemoteDescription sdp p := Some (mkPlainPeer (pp_senders p) true (Some sdp));
  RemoteDescription := pp_remote;
  stable := pp_stable;
  Connected p := false;
  AddICECandidate_ c p := if String.eqb (ic_Candidate c) "bad" then None else Some p
|}.

#[local] Existing Instance plain_peer.
#[local] Existing Instance key_order.

#[local] Instance plain_peer_laws : PeerLaws plain_peer.
Proof.
  split; simpl; unfold alike; simpl.
  - by intros id p p' [= <-].
  - intros id p p' _ Hr. destruct (remove_one id (pp_senders p)) as [l|] eqn:Hl; [|done].
    injection Hr as <-. split; [|done]. by apply remove_one_perm.
  - by intros sdp p p' [= <-].
  - by intros sdp p p' [= <-].
  - intros c p p'. destruct (String.eqb _ _); [done|]. by intros [= <-].
Qed.

Definition fresh_peer : option peer := Some (mkPlainPeer [] true None).
Definition join_as (c : string) : joinArgs := mkJoinArgs c 1 1 7 false false.
Definition run_first : action := ARun 0 fresh_peer true.
Definition candidate (text : string) : ICECandidateData := mkICECandidateData text None None None.

(** Two users join a channel and answer, and the first one speaks. *)
Definition meeting : list action :=
  [AJoin (join_as "a"); run_first; run_first; run_first; run_first; AAnswer "a" "sdp"; run_first;
   AJoin (join_as "b"); run_first; run_first; run_first; run_first; AAnswer "b" "sdp"; run_first;
   AStart 0 Audio; run_first].

Definition opened : Manager := mkManager ∅ ∅ false 32 ∅ ∅ [] [].
Definition met : Manager := default opened (script meeting opened).
Definition settled : Manager := default opened (drain 3 fresh_peer met).

Lemma voice_rooms_bounded_witness :
  size (mg_sessions met) = 2 ∧ ∀ r rv, mg_roomHeap met !! r = Some rv →
    (Z.of_nat (size (rm_sessions rv)) + rm_reservations rv <= mg_maxParticipants met)%Z.
Proof.
  split; [vm_compute; reflexivity|].
  assert (rtc step opened met) as Hs by (apply (script_steps meeting); vm_compute; reflexivity).
  apply (voice_rooms_bounded 0 opened met eq_refl Hs).
Defined.

Lemma voice_media_settles_witness :
  (GetSenders ∘ sn_peer <$> mg_heap settled !! 1) = Some ["audio-a"] ∧ mg_work settled = [] ∧
  ∀ s v rv, mg_heap settled !! s = Some v → mg_roomHeap settled !! sn_room v = Some rv → live v →
      NoDup (GetSenders (sn_peer v)) ∧
      (∀ id, id ∈ GetSenders (sn_peer v) ↔ is_Some (desired v (rm_tracks rv) !! id)) ∧
      (sn_offered v = GetSenders (sn_peer v) ∨
       sn_negotiationPending v = true ∧ stable (sn_peer v) = false).
Proof.
  assert (rtc step opened met) as Hs by (apply (script_steps meeting); vm_compute; reflexivity).
  assert (rtc work_step met settled) as Hd by (apply (drain_steps 3 fresh_peer); vm_compute; reflexivity).
  split; [vm_compute; reflexivity|]. split; [vm_compute; reflexivity|].
  apply (proj2 (voice_media_settles 0 opened met eq_refl Hs) settled Hd). vm_compute; reflexivity.
Defined.

(** A candidate of the client is refused when the answer is applied: the
    answer handler returns before it resumes the negotiation that was pending.
    Nothing is left to run, the connection is stable, and the track that was
    added meanwhile has not been offered. *)
Example refused_candidate_drops_negotiation :
  (m ← script (AJoin (join_as "a") :: replicate 4 run_first ++ AAnswer "a" "sdp" :: run_first ::
     AJoin (join_as "b") :: replicate 4 run_first ++ ACandidate "b" (candidate "bad") ::
     AStart 0 Audio :: replicate 3 run_first ++ AAnswer "b" "sdp" :: [run_first]) opened;
   v ← mg_heap m !! 1; Some (mg_work m, sn_negotiationPending v, stable (sn_peer v),
     GetSenders (sn_peer v), sn_offered v)) = Some ([], true, true, ["audio-a"], []).
Proof. vm_compute. reflexivity. Qed.
