(* ===== verification/Tables.v ===== *)
(** * Tables

    A table of the database is a finite map from its primary key to its rows.
    The statements the repositories run over one table, the violations of the
    schema's constraints, and what is known of them. *)

From S2P Require Import Prelude GoText.

(** ** Statements over one table *)

Section tables.
Context `{MapOrder, Countable K} {V : Type}.

(** A row of [SELECT ... WHERE P]; which one is unspecified. *)
Definition find_row (P : K → V → bool) (m : gmap K V) : option (K * V) :=
  head (filter (fun kv => P kv.1 kv.2 = true) (range_entries m)).
Definition row_exists (P : K → V → bool) (m : gmap K V) : bool :=
  existsb (fun kv => P kv.1 kv.2) (map_to_list m).
(** [DELETE FROM ... WHERE P] and [UPDATE ... SET f WHERE P]. *)
Definition delete_where (P : K → V → bool) (m : gmap K V) : gmap K V :=
  filter (fun kv => P kv.1 kv.2 = false) m.
Definition update_where (P : K → V → bool) (f : V → V) (m : gmap K V) : gmap K V :=
  map_imap (fun k v => Some (if P k v then f v else v)) m.
(** The keys of the rows a statement or a trigger visits one by one, in an
    unspecified order. *)
Definition keys_where (P : K → V → bool) (m : gmap K V) : list K :=
  (filter (fun kv => P kv.1 kv.2 = true) (range_entries m)).*1.
End tables.

(** ** Constraints *)

Inductive Constraint := NotUnique | CheckFailed | ForeignKey | PrimaryKey | TriggerAbort.
#[export] Instance Constraint_eq_dec : EqDecision Constraint.
Proof. solve_decision. Defined.

Definition has_key {V} (m : gmap Z V) (k : Z) : bool := bool_decide (is_Some (m !! k)).

(** SQL [trim]: spaces only. *)
Fixpoint drop_spaces (s : list Ascii.ascii) : list Ascii.ascii :=
  match s with
  | c :: s' => if Ascii.eqb c (Ascii.ascii_of_nat 32) then drop_spaces s' else s
  | [] => []
  end.
Definition sql_trim (s : string) : string :=
  String.string_of_list_ascii (rev (drop_spaces (rev (drop_spaces (String.list_ascii_of_string s))))).
Definition length_between (lo hi : nat) (s : string) : bool :=
  (lo <=? RuneCountInString s) && (RuneCountInString s <=? hi).

(** ** Facts *)

Section statements.
Context `{MapOrder, Countable K} {V : Type}.
Implicit Types (P : K → V → bool) (m : gmap K V).

Lemma find_row_Some P m k v : find_row P m = Some (k, v) → m !! k = Some v ∧ P k v = true.
Proof.
  intros Hf%head_Some_elem_of%list_elem_of_filter. destruct Hf as [? Hin].
  by apply elem_of_range_entries in Hin.
Qed.

Lemma find_row_None P m k v : find_row P m = None → m !! k = Some v → P k v = false.
Proof.
  unfold find_row. rewrite head_None. intros Hf Hk. destruct (P k v) eqn:HP; [|done]. exfalso.
  assert ((k, v) ∈ filter (fun kv => P kv.1 kv.2 = true) (range_entries m)) as Hin.
  { apply list_elem_of_filter. by rewrite elem_of_range_entries. }
  rewrite Hf in Hin. by apply not_elem_of_nil in Hin.
Qed.

(** A row that satisfies the condition is found, and no other one. *)
Lemma find_row_unique P m k v :
  m !! k = Some v → P k v = true → (∀ k' v', m !! k' = Some v' → P k' v' = true → k' = k) →
  find_row P m = Some (k, v).
Proof.
  intros Hk HP Hu. destruct (find_row P m) as [[k' v']|] eqn:Hf.
  - apply find_row_Some in Hf as [Hk' HP']. pose proof (Hu _ _ Hk' HP') as ->. congruence.
  - by rewrite (find_row_None _ _ _ _ Hf Hk) in HP.
Qed.

Lemma row_exists_true P m : row_exists P m = true ↔ ∃ k v, m !! k = Some v ∧ P k v = true.
Proof.
  unfold row_exists. rewrite existsb_exists. split.
  - intros [[k v] [Hin HP]]. apply list_elem_of_In, elem_of_map_to_list in Hin. eauto.
  - intros (k&v&Hk&HP). exists (k, v). by rewrite <- list_elem_of_In, elem_of_map_to_list.
Qed.
Lemma row_exists_false P m k v : row_exists P m = false → m !! k = Some v → P k v = false.
Proof.
  intros Hf Hk. destruct (P k v) eqn:HP; [|done]. rewrite <- not_true_iff_false, row_exists_true in Hf.
  exfalso. eauto.
Qed.

Lemma lookup_delete_where P m k :
  delete_where P m !! k = (v ← m !! k; if P k v then None else Some v).
Proof.
  unfold delete_where. rewrite map_lookup_filter. destruct (m !! k) as [v|]; simpl; [|done].
  destruct (P k v); by case_guard.
Qed.
Lemma delete_where_Some P m k v : delete_where P m !! k = Some v ↔ m !! k = Some v ∧ P k v = false.
Proof. unfold delete_where. by rewrite map_lookup_filter_Some. Qed.

Lemma lookup_update_where P f m k :
  update_where P f m !! k = (fun v => if P k v then f v else v) <$> m !! k.
Proof. unfold update_where. rewrite map_lookup_imap. by destruct (m !! k). Qed.
Lemma update_where_Some P f m k v :
  update_where P f m !! k = Some v → ∃ w, m !! k = Some w ∧ v = if P k w then f w else w.
Proof. rewrite lookup_update_where. destruct (m !! k) as [w|]; simpl; [|done]. intros [= <-]. eauto. Qed.

Lemma elem_of_keys_where P m k : k ∈ keys_where P m ↔ ∃ v, m !! k = Some v ∧ P k v = true.
Proof.
  unfold keys_where. rewrite list_elem_of_fmap. split.
  - intros ([k' v]&->&[HP Hin]%list_elem_of_filter). apply elem_of_range_entries in Hin. eauto.
  - intros (v&Hk&HP). exists (k, v). by rewrite list_elem_of_filter, elem_of_range_entries.
Qed.

(** No two rows share a value under [f]. *)
Definition unique_by {A} (f : V → option A) m : Prop :=
  ∀ i j x y a, m !! i = Some x → m !! j = Some y → f x = Some a → f y = Some a → i = j.

Lemma unique_by_sub {A} (f : V → option A) m m' :
  unique_by f m →
  (∀ i y, m' !! i = Some y → ∃ x, m !! i = Some x ∧ (f y = f x ∨ f y = None)) → unique_by f m'.
Proof.
  intros Hu Hsub i j x y a Hi Hj Hx Hy.
  destruct (Hsub _ _ Hi) as (x0&Hi0&[Ex|Ex]); [|congruence].
  destruct (Hsub _ _ Hj) as (y0&Hj0&[Ey|Ey]); [|congruence].
  eapply (Hu i j x0 y0 a); congruence.
Qed.

Lemma unique_by_insert {A} (f : V → option A) m i x :
  unique_by f m → (∀ j y a, m !! j = Some y → j ≠ i → f x = Some a → f y ≠ Some a) →
  unique_by f (<[i := x]> m).
Proof.
  intros Hu Hnew j k y z a Hj Hk Hy Hz. rewrite lookup_insert_Some in Hj, Hk.
  destruct Hj as [[<- <-]|[Hij Hj]], Hk as [[<- <-]|[Hik Hk]]; [done| | |eauto].
  - by destruct (Hnew k z a).
  - by destruct (Hnew j y a).
Qed.
End statements.

Lemma has_key_spec {V} (m : gmap Z V) k : has_key m k = true ↔ is_Some (m !! k).
Proof. unfold has_key. by rewrite bool_decide_eq_true. Qed.
