(* ===== verification/Posts.v ===== *)
(** * The tables of messages

    The messages of the channels and the tables that hang off them, with the
    triggers and foreign key actions of the migrations written out: every
    statement that touches a message also writes the journal
    [message_changes] and the cursor of its channel, from which clients
    synchronise. [now] is the time the statement stamps its rows with. Rows are
    visited in an unspecified order. *)

From S2P Require Import Prelude GoText Events Tables.

(** ** Rows *)

Record message_row := mkMessageRow {
  ms_channel_id : Z; ms_author : Z; ms_content : string; ms_created_at : Z; ms_edited_at : option Z;
  ms_revision : Z; ms_reply_to : option Z; ms_reply_original : option Z;
  ms_forward : option ForwardReference; ms_thread_root : option Z }.
#[global] Instance message_row_fields : Fields message_row := fun r =>
  mkMessageRow (ms_channel_id r) (ms_author r) (ms_content r) (ms_created_at r) (ms_edited_at r)
    (ms_revision r) (ms_reply_to r) (ms_reply_original r) (ms_forward r) (ms_thread_root r).

(** One entry of the journal; its key is the sequence number. *)
Record change_row := mkChange { cg_channel_id : Z; cg_message_id : Z; cg_created_at : Z }.
(** [message_sync_state] of a channel. *)
Record sync_row := mkSync { sy_cursor : Z; sy_floor : Z }.

Inductive RequestKind := KindMessage | KindReply | KindForward.
#[export] Instance RequestKind_eq_dec : EqDecision RequestKind.
Proof. solve_decision. Defined.
Record send_key_row := mkSendKey {
  sk_content_hash : string; sk_message_id : option Z; sk_request_kind : RequestKind }.
#[global] Instance send_key_fields : Fields send_key_row := fun r =>
  mkSendKey (sk_content_hash r) (sk_message_id r) (sk_request_kind r).

Record pin_row := mkPin { pn_pinned_by : Z; pn_pinned_at : Z }.
Record reaction_row := mkReactionRow { rc_channel_id : Z; rc_server_id : Z }.
Record notice_row := mkNotice { nt_server_id : Z; nt_read_at : option Z }.
Record poll_row := mkPollRow {
  pq_message_id : Z; pq_question : string; pq_multiple : bool; pq_anonymous : bool; pq_closes_at : Z;
  pq_revision : Z }.
Record option_row := mkOptionRow { op_poll_id : Z; op_label : string }.
Record attachment_row := mkAttachmentRow {
  am_channel_id : option Z; am_owner : Z; am_message_id : option Z; am_filename : string;
  am_mime_type : string; am_size_bytes : Z; am_width : option Z; am_height : option Z;
  am_deleted_at : option Z }.
#[global] Instance attachment_row_fields : Fields attachment_row := fun r =>
  mkAttachmentRow (am_channel_id r) (am_owner r) (am_message_id r) (am_filename r) (am_mime_type r)
    (am_size_bytes r) (am_width r) (am_height r) (am_deleted_at r).
(** A message of a private conversation, as far as it can be forwarded. *)
Record direct_row := mkDirect {
  dm_conversation_id : Z; dm_author : Z; dm_content : string; dm_created_at : Z;
  dm_forward : option ForwardReference }.

(** The keys of [ps_send_keys] are (channel, author, client message id), of
    [ps_reactions] (message, emoji, user), of [ps_notices]
    (channel, user, message), of [ps_votes] (poll, option, user) and of
    [ps_conversation_members] (conversation, user). *)
Record Posts := mkPosts {
  ps_messages : gmap Z message_row;
  ps_message_seq : Z;
  ps_changes : gmap Z change_row;
  ps_change_seq : Z;
  ps_sync : gmap Z sync_row;
  ps_send_keys : gmap (Z * Z * string) send_key_row;
  ps_pins : gmap Z pin_row;
  ps_reactions : gmap (Z * string * Z) reaction_row;
  ps_notices : gmap (Z * Z * Z) notice_row;
  ps_polls : gmap Z poll_row;
  ps_poll_seq : Z;
  ps_options : gmap Z option_row;
  ps_option_seq : Z;
  ps_votes : gset (Z * Z * Z);
  ps_attachments : gmap string attachment_row;
  ps_direct : gmap Z direct_row;
  ps_conversation_members : gset (Z * Z)
}.
#[global] Instance Posts_fields : Fields Posts := fun p =>
  mkPosts (ps_messages p) (ps_message_seq p) (ps_changes p) (ps_change_seq p) (ps_sync p)
    (ps_send_keys p) (ps_pins p) (ps_reactions p) (ps_notices p) (ps_polls p) (ps_poll_seq p)
    (ps_options p) (ps_option_seq p) (ps_votes p) (ps_attachments p) (ps_direct p)
    (ps_conversation_members p).

Definition empty_posts : Posts := mkPosts ∅ 0 ∅ 0 ∅ ∅ ∅ ∅ ∅ ∅ 0 ∅ 0 ∅ ∅ ∅ ∅.

Section posts.
Context `{MapOrder}.

(** ** The journal *)

(** The body of the triggers [messages_sync_insert], [messages_sync_update] and
    [messages_sync_delete]. *)
Definition log_change (now ch id : Z) (p : Posts) : Posts :=
  let seq := (ps_change_seq p + 1)%Z in
  p <| ps_changes ::= <[seq := mkChange ch id now]> |> <| ps_change_seq := seq |>
    <| ps_sync ::= <[ch := mkSync seq (from_option sy_floor 0%Z (ps_sync p !! ch))]> |>.

(** [UPDATE messages SET ... revision=revision+1 WHERE id=?], run by a
    statement or by a trigger, with [messages_sync_update]. *)
Definition revise (now : Z) (f : message_row → message_row) (id : Z) (p : Posts) : Posts :=
  match ps_messages p !! id with
  | Some m =>
      log_change now (ms_channel_id m) id
        (p <| ps_messages ::= <[id := (f m) <| ms_revision ::= Z.succ |>]> |>)
  | None => p
  end.
Definition bump (now : Z) : Z → Posts → Posts := revise now (fun m => m).

Definition each {A} (f : A → Posts → Posts) (l : list A) (p : Posts) : Posts :=
  foldl (fun p a => f a p) p l.

Definition replies_to (id : Z) (_ : Z) (m : message_row) : bool := bool_decide (ms_reply_to m = Some id).
Definition comments_on (id : Z) (_ : Z) (m : message_row) : bool := bool_decide (ms_thread_root m = Some id).

(** ** Statements on messages *)

(** [INSERT INTO messages]; [text] says whether the channel is stored as a text
    channel. The triggers [messages_reply_scope] and [message_thread_scope] run
    before, [message_comment_insert] and [messages_sync_insert] after. *)
Definition insert_message (now ch author : Z) (text : bool) (content : string) (reply : option Z)
    (forward : option ForwardReference) (root : option Z) (p : Posts) : Constraint + (Z * Posts) :=
  let in_channel id := match ps_messages p !! id with Some m => (ms_channel_id m =? ch)%Z | None => false end in
  if match reply with Some id => negb (in_channel id) | None => false end then inl TriggerAbort
  else if match root with
          | Some id => negb (in_channel id && text &&
              bool_decide ((ps_messages p !! id ≫= ms_thread_root) = None))
          | None => false end then inl TriggerAbort
  else if negb (length_between 1 5120 (sql_trim content)) then inl CheckFailed
  else
    let id := (ps_message_seq p + 1)%Z in
    let p := p <| ps_messages ::= <[id := mkMessageRow ch author content now None 1 reply reply forward root]> |>
               <| ps_message_seq := id |> in
    let p := match root with Some r => bump now r p | None => p end in
    inr (id, log_change now ch id p).

(** [UPDATE messages SET content=?, edited_at=unixepoch(), revision=revision+1]
    of one row, with [messages_reply_edited]. *)
Definition edit_message (now id : Z) (content : string) (p : Posts) : Constraint + Posts :=
  match ps_messages p !! id with
  | Some m =>
      if negb (length_between 1 5120 (sql_trim content)) then inl CheckFailed
      else
        let p := p <| ps_messages ::= <[id := m <| ms_content := content |> <| ms_edited_at := Some now |>
                        <| ms_revision ::= Z.succ |>]> |> in
        let p := if String.eqb (ms_content m) content then p
                 else each (bump now) (keys_where (replies_to id) (ps_messages p)) p in
        inr (log_change now (ms_channel_id m) id p)
  | None => inr p
  end.

(** What goes with the row of a message: pins, reactions, notifications and
    polls are deleted, send keys and attachments lose their reference. *)
Definition drop_message (id : Z) (p : Posts) : Posts :=
  let of_poll poll := match ps_polls p !! poll with Some q => (pq_message_id q =? id)%Z | None => false end in
  p <| ps_messages ::= delete id |>
    <| ps_pins ::= delete id |>
    <| ps_reactions ::= delete_where (fun k _ => (k.1.1 =? id)%Z) |>
    <| ps_notices ::= delete_where (fun k _ => (k.2 =? id)%Z) |>
    <| ps_polls ::= delete_where (fun poll _ => of_poll poll) |>
    <| ps_options ::= delete_where (fun _ o => of_poll (op_poll_id o)) |>
    <| ps_votes ::= filter (fun v => of_poll v.1.1 = false) |>
    <| ps_send_keys ::= update_where (fun _ k => bool_decide (sk_message_id k = Some id))
         (fun k => k <| sk_message_id := None |>) |>
    <| ps_attachments ::= update_where (fun _ a => bool_decide (am_message_id a = Some id))
         (fun a => a <| am_message_id := None |>) |>.

(** One row: [messages_sync_delete] writes the journal while the channel
    exists ([live]); the comments of the thread go with it ([comments]);
    replies are set to NULL, which [messages_reply_deleted] counts as a
    revision; [message_comment_delete] revises the thread root. *)
Definition delete_row (comments : Z → Posts → Posts) (live : bool) (now id : Z) (p : Posts) : Posts :=
  match ps_messages p !! id with
  | Some m =>
      let p := if live then log_change now (ms_channel_id m) id p else p in
      let p := comments id (drop_message id p) in
      let p := each (revise now (fun m => m <| ms_reply_to := None |>))
                 (keys_where (replies_to id) (ps_messages p)) p in
      match ms_thread_root m with Some r => bump now r p | None => p end
  | None => p
  end.

(** [DELETE FROM messages WHERE id=?]. Comments have no comments. *)
Definition delete_message (live : bool) (now : Z) : Z → Posts → Posts :=
  delete_row (fun id p =>
    each (delete_row (fun _ p => p) live now) (keys_where (comments_on id) (ps_messages p)) p) live now.

(** ** Reactions *)

(** [INSERT INTO message_reactions ... ON CONFLICT DO NOTHING] and the number
    of rows inserted; [message_reaction_scope] runs before. *)
Definition insert_reaction (now id ch s u : Z) (emoji : string) (p : Posts) : Constraint + (nat * Posts) :=
  if match ps_messages p !! id with Some m => negb (ms_channel_id m =? ch)%Z | None => true end
  then inl TriggerAbort
  else if negb (length_between 1 16 emoji) then inl CheckFailed
  else match ps_reactions p !! (id, emoji, u) with
  | Some _ => inr (0, p)
  | None => inr (1, bump now id (p <| ps_reactions ::= <[(id, emoji, u) := mkReactionRow ch s]> |>))
  end.

(** [DELETE FROM message_reactions WHERE P] and the number of rows deleted. *)
Definition delete_reactions (now : Z) (P : Z * string * Z → reaction_row → bool) (p : Posts) : nat * Posts :=
  let keys := keys_where P (ps_reactions p) in
  (length keys,
   each (fun k p => bump now k.1.1 (p <| ps_reactions ::= delete k |>)) keys p).

(** ** Rows that go with a channel or a member *)

(** The cascade of a deleted channel. The reactions go first, then the journal
    and the other tables, the messages last; the channel is gone, so nothing
    removes what their triggers still write to the journal, and the statement
    fails when a row of it is left. *)
Definition delete_channel_posts (now ch : Z) (p : Posts) : Constraint + Posts :=
  let p := (delete_reactions now (fun _ r => (rc_channel_id r =? ch)%Z) p).2 in
  let p := p <| ps_changes ::= delete_where (fun _ c => (cg_channel_id c =? ch)%Z) |>
             <| ps_sync ::= delete ch |>
             <| ps_send_keys ::= delete_where (fun k _ => (k.1.1 =? ch)%Z) |>
             <| ps_notices ::= delete_where (fun k _ => (k.1.1 =? ch)%Z) |>
             <| ps_attachments ::= delete_where (fun _ a => bool_decide (am_channel_id a = Some ch)) |> in
  let p := each (delete_message false now) (keys_where (fun _ m => (ms_channel_id m =? ch)%Z) (ps_messages p)) p in
  if row_exists (fun _ c => (cg_channel_id c =? ch)%Z) (ps_changes p) then inl ForeignKey else inr p.

(** The cascade of deleted memberships. *)
Definition delete_member_posts (now : Z) (P : Z * Z → bool) (p : Posts) : Posts :=
  let p := (delete_reactions now (fun k r => P (rc_server_id r, k.2)) p).2 in
  p <| ps_notices ::= delete_where (fun k n => P (nt_server_id n, k.1.2)) |>.
End posts.
