(* ===== verification/Store.v ===== *)
(** * The community database

    The tables behind accounts, servers, memberships and invitations, as the
    migrations declare them, and the transactions in which the repositories
    use them. A table is a finite map from its primary key to its rows; an
    AUTOINCREMENT key comes from a counter that only grows. A transaction
    [Tx E A] reads and writes the tables and may stop with an error of type
    [E], upon which [atomically] rolls it back; write transactions are
    exclusive ([_txlock=immediate] in internal/storage/sqlite.go), so each one
    is a single step. Constraints of the schema are checked where the source
    inserts or updates. The clock [unixepoch()] is read once per statement:
    its readings are arguments. I/O failures of the database are not modelled.
    [db_inv] is the well-formedness of the tables the constraints and the
    repositories maintain together; this file proves that each kind of
    statement keeps it. *)

From S2P Require Import Prelude GoText Events Tables Posts.

(** ** Rows *)

Inductive Role := RoleOwner | RoleAdmin | RoleMember.
#[export] Instance Role_eq_dec : EqDecision Role.
Proof. solve_decision. Defined.
#[export] Instance Role_countable : Countable Role.
Proof.
  refine (inj_countable' (fun r => match r with RoleOwner => 0 | RoleAdmin => 1 | RoleMember => 2 end)
    (fun n => match n with 0 => RoleOwner | 1 => RoleAdmin | _ => RoleMember end) _).
  by intros [].
Defined.

Inductive Status := StatusPending | StatusAccepted | StatusDeclined | StatusCanceled | StatusExpired.
#[export] Instance Status_eq_dec : EqDecision Status.
Proof. solve_decision. Defined.

Record user_row := mkUser {
  us_username : string; us_username_key : option string; us_password_hash : string;
  us_created_at : Z; us_deleted_at : option Z }.
#[global] Instance user_fields : Fields user_row := fun r =>
  mkUser (us_username r) (us_username_key r) (us_password_hash r) (us_created_at r) (us_deleted_at r).

Record session_row := mkSessionRow {
  ss_user_id : Z; ss_token_hash : string; ss_expires_at : Z; ss_created_at : Z;
  ss_last_used_at : option Z; ss_user_agent : option string; ss_client_ip : option string }.
#[global] Instance session_row_fields : Fields session_row := fun r =>
  mkSessionRow (ss_user_id r) (ss_token_hash r) (ss_expires_at r) (ss_created_at r)
    (ss_last_used_at r) (ss_user_agent r) (ss_client_ip r).

Record server_row := mkServer { sv_name : string; sv_created_by : Z; sv_created_at : Z }.
#[global] Instance server_fields : Fields server_row := fun r =>
  mkServer (sv_name r) (sv_created_by r) (sv_created_at r).

Record member_row := mkMember { mb_role : Role; mb_joined_at : Z; mb_timeout_until : option Z }.
#[global] Instance member_fields : Fields member_row := fun r =>
  mkMember (mb_role r) (mb_joined_at r) (mb_timeout_until r).

Record ban_row := mkBan { bn_banned_by : Z; bn_created_at : Z; bn_reason : string }.

Record invite_row := mkInvite {
  iv_server_id : Z; iv_inviter : Z; iv_invitee : Z; iv_status : Status;
  iv_expires_at : Z; iv_responded_at : option Z; iv_created_at : Z }.
#[global] Instance invite_fields : Fields invite_row := fun r =>
  mkInvite (iv_server_id r) (iv_inviter r) (iv_invitee r) (iv_status r) (iv_expires_at r)
    (iv_responded_at r) (iv_created_at r).

Record link_row := mkLink {
  lk_server_id : Z; lk_created_by : Z; lk_token_hash : string; lk_expires_at : Z;
  lk_max_uses : option Z; lk_use_count : Z; lk_revoked_at : option Z; lk_created_at : Z;
  lk_allow_registration : bool }.
#[global] Instance link_fields : Fields link_row := fun r =>
  mkLink (lk_server_id r) (lk_created_by r) (lk_token_hash r) (lk_expires_at r) (lk_max_uses r)
    (lk_use_count r) (lk_revoked_at r) (lk_created_at r) (lk_allow_registration r).

Record profile_row := mkProfile {
  pf_about : string; pf_country_code : option string; pf_last_seen_at : option Z }.

Inductive ScheduleStatus := SchedulePending | ScheduleSent | ScheduleFailed | ScheduleCancelled.
#[export] Instance ScheduleStatus_eq_dec : EqDecision ScheduleStatus.
Proof. solve_decision. Defined.
Record schedule_row := mkSchedule { sc_user_id : Z; sc_status : ScheduleStatus; sc_error : string }.

(** The details of an audit record: the Go value that is encoded as JSON. *)
Inductive Details :=
  | NoDetails
  | RoleDetails (role : Role)
  | ReasonDetails (reason : string)
  | UntilDetails (until : option Z)
  | AccessDetails (restricted : bool) (users : list Z) (roles : list string)
  | NewsDetails (publishers : list Z) (comments : bool)
  | RoleInfoDetails (name color : string) (permissions : Z)
  | RoleIDsDetails (ids : list Z)
  | MessageDetails (channel author : Z).

(** One row of [admin_audit]. *)
Record audit_row := mkAudit {
  au_server_id : Z; au_actor : Z; au_actor_name : string; au_action : string;
  au_target_type : string; au_target_id : Z; au_target_name : string; au_details : Details }.

(** [ch_voice] is [kind = 'voice']; the other stored kind is ['text']. *)
Record channel_row := mkChannelRow {
  ch_server_id : Z; ch_name : string; ch_voice : bool; ch_news : bool; ch_position : Z;
  ch_created_by : Z; ch_created_at : Z; ch_restricted : bool; ch_comments : bool; ch_slowmode : Z;
  ch_e2ee_required : bool }.
#[global] Instance channel_fields : Fields channel_row := fun r =>
  mkChannelRow (ch_server_id r) (ch_name r) (ch_voice r) (ch_news r) (ch_position r) (ch_created_by r)
    (ch_created_at r) (ch_restricted r) (ch_comments r) (ch_slowmode r) (ch_e2ee_required r).
Record role_row := mkRoleRow { rl_server_id : Z; rl_name : string; rl_color : string; rl_permissions : Z }.
Record read_row := mkRead { rd_last_read : Z; rd_updated_at : Z }.

(** The tables, then the last keys handed out. [db_reads] is keyed by
    (channel, user); [db_member_roles] has the rows (server, user, role) of
    [member_roles], [db_user_grants] and [db_publishers] the rows
    (channel, server, user), [db_role_grants] and [db_custom_grants] the rows
    (channel, role) of the three kinds of grants and of [channel_publishers];
    [db_avatars] is the etag per user and [db_diagnostics] the user of each
    diagnostic event. *)
Record DB := mkDB {
  db_instance : string * Z;
  db_users : gmap Z user_row;
  db_sessions : gmap Z session_row;
  db_servers : gmap Z server_row;
  db_members : gmap (Z * Z) member_row;
  db_bans : gmap Z ban_row;
  db_invites : gmap Z invite_row;
  db_links : gmap Z link_row;
  db_profiles : gmap Z profile_row;
  db_avatars : gmap Z string;
  db_diagnostics : gmap Z Z;
  db_channels : gmap Z channel_row;
  db_roles : gmap Z role_row;
  db_member_roles : gset (Z * Z * Z);
  db_user_grants : gset (Z * Z * Z);
  db_role_grants : gset (Z * Role);
  db_custom_grants : gset (Z * Z);
  db_publishers : gset (Z * Z * Z);
  db_reads : gmap (Z * Z) read_row;
  db_posts : Posts;
  db_scheduled : gmap Z schedule_row;
  db_audit : list audit_row;
  db_user_seq : Z; db_session_seq : Z; db_server_seq : Z; db_invite_seq : Z; db_link_seq : Z;
  db_channel_seq : Z; db_role_seq : Z
}.
#[global] Instance DB_fields : Fields DB := fun d =>
  mkDB (db_instance d) (db_users d) (db_sessions d) (db_servers d) (db_members d) (db_bans d)
    (db_invites d) (db_links d) (db_profiles d) (db_avatars d) (db_diagnostics d) (db_channels d)
    (db_roles d) (db_member_roles d) (db_user_grants d) (db_role_grants d) (db_custom_grants d)
    (db_publishers d) (db_reads d) (db_posts d) (db_scheduled d) (db_audit d)
    (db_user_seq d) (db_session_seq d) (db_server_seq d) (db_invite_seq d) (db_link_seq d)
    (db_channel_seq d) (db_role_seq d).

(** The database the migrations leave; [instance] is the row of
    [instance_settings] they insert. *)
Definition empty_db (instance : string * Z) : DB :=
  mkDB instance ∅ ∅ ∅ ∅ ∅ ∅ ∅ ∅ ∅ ∅ ∅ ∅ ∅ ∅ ∅ ∅ ∅ ∅ empty_posts ∅ [] 0 0 0 0 0 0 0.

(** ** Transactions *)

Definition Tx (E A : Type) : Type := DB → E + (A * DB).

#[export] Instance Tx_ret {E} : MRet (Tx E) := fun A a d => inr (a, d).
#[export] Instance Tx_bind {E} : MBind (Tx E) := fun A B f t d =>
  match t d with inl e => inl e | inr (a, d') => f a d' end.

Definition fail {E A} (e : E) : Tx E A := fun _ => inl e.
Definition query {E A} (f : DB → A) : Tx E A := fun d => inr (f d, d).
Definition exec {E} (f : DB → DB) : Tx E unit := fun d => inr (tt, f d).
(** [DELETE ... RETURNING] and the like. *)
Definition returning {E A} (f : DB → A * DB) : Tx E A := fun d => inr (f d).
Definition require {E} (b : bool) (e : E) : Tx E unit := if b then mret tt else fail e.
(** [QueryRow(...).Scan(...)] with the error for [sql.ErrNoRows]. *)
Definition row {E A} (e : E) (f : DB → option A) : Tx E A := fun d =>
  match f d with Some a => inr (a, d) | None => inl e end.

(** A transaction that ends by committing; an error on the way rolls back. *)
Definition atomically {E A} (t : Tx E A) (d : DB) : (E + A) * DB :=
  match t d with inl e => (inl e, d) | inr (a, d') => (inr a, d') end.
(** A transaction that may also commit and then answer an error. *)
Definition atomically_or {E A} (t : Tx E (E + A)) (d : DB) : (E + A) * DB :=
  match t d with inl e => (inl e, d) | inr (r, d') => (r, d') end.

(** ** Constraints *)

(** An [INSERT] whose violated constraint [on] turns into an error. *)
Definition insert_row {E A} (on : Constraint → E) (f : DB → Constraint + (A * DB)) : Tx E A := fun d =>
  match f d with inl c => inl (on c) | inr r => inr r end.

Definition insert_user (username key hash : string) (now : Z) (d : DB) : Constraint + (Z * DB) :=
  if negb (length_between 3 32 username) then inl CheckFailed
  else if row_exists (fun _ u => String.eqb (us_username u) username) (db_users d)
       || row_exists (fun _ u => bool_decide (us_username_key u = Some key)) (db_users d)
  then inl NotUnique
  else
    let id := (db_user_seq d + 1)%Z in
    inr (id, d <| db_users ::= <[id := mkUser username (Some key) hash now None]> |>
               <| db_user_seq := id |>).

Definition insert_session (u : Z) (hash : string) (expires : Z) (agent ip : option string) (now : Z)
    (d : DB) : Constraint + (Z * DB) :=
  if negb (String.length hash =? 32) then inl CheckFailed
  else if row_exists (fun _ s => String.eqb (ss_token_hash s) hash) (db_sessions d) then inl NotUnique
  else if negb (has_key (db_users d) u) then inl ForeignKey
  else
    let id := (db_session_seq d + 1)%Z in
    inr (id, d <| db_sessions ::= <[id := mkSessionRow u hash expires now None agent ip]> |>
               <| db_session_seq := id |>).

(** The trigger [prevent_multiple_servers] runs before the insertion. *)
Definition insert_server (name : string) (createdBy now : Z) (d : DB) : Constraint + (Z * DB) :=
  if row_exists (fun _ _ => true) (db_servers d) then inl TriggerAbort
  else if negb (length_between 1 64 (sql_trim name)) then inl CheckFailed
  else if negb (has_key (db_users d) createdBy) then inl ForeignKey
  else
    let id := (db_server_seq d + 1)%Z in
    inr (id, d <| db_servers ::= <[id := mkServer name createdBy now]> |> <| db_server_seq := id |>).

Definition insert_member (s u : Z) (role : Role) (now : Z) (d : DB) : Constraint + (Z * DB) :=
  if bool_decide (is_Some (db_members d !! (s, u))) then inl PrimaryKey
  else if negb (has_key (db_servers d) s && has_key (db_users d) u) then inl ForeignKey
  else inr (now, d <| db_members ::= <[(s, u) := mkMember role now None]> |>).

(** The same with [ON CONFLICT (server_id, user_id) DO NOTHING]. *)
Definition insert_member_or_nothing (s u : Z) (role : Role) (now : Z) (d : DB) : Constraint + (unit * DB) :=
  if bool_decide (is_Some (db_members d !! (s, u))) then inr (tt, d)
  else match insert_member s u role now d with inl c => inl c | inr (_, d') => inr (tt, d') end.

Definition insert_ban (u by_user : Z) (reason : string) (now : Z) (d : DB) : Constraint + (unit * DB) :=
  if bool_decide (u = by_user) then inl CheckFailed
  else if has_key (db_bans d) u then inl PrimaryKey
  else if negb (has_key (db_users d) u && has_key (db_users d) by_user) then inl ForeignKey
  else inr (tt, d <| db_bans ::= <[u := mkBan by_user now reason]> |>).

(** The partial unique index covers pending invitations only. *)
Definition pending_for (s u : Z) (v : invite_row) : bool :=
  (iv_server_id v =? s)%Z && (iv_invitee v =? u)%Z && bool_decide (iv_status v = StatusPending).

Definition insert_invite (s inviter invitee : Z) (expires now : Z) (d : DB) : Constraint + (Z * DB) :=
  if (inviter =? invitee)%Z then inl CheckFailed
  else if row_exists (fun _ => pending_for s invitee) (db_invites d) then inl NotUnique
  else if negb (has_key (db_servers d) s && has_key (db_users d) inviter && has_key (db_users d) invitee)
  then inl ForeignKey
  else
    let id := (db_invite_seq d + 1)%Z in
    inr (id, d <| db_invites ::= <[id := mkInvite s inviter invitee StatusPending expires None now]> |>
               <| db_invite_seq := id |>).

Definition insert_link (s createdBy : Z) (hash : string) (expires : Z) (maxUses : option Z) (reg : bool)
    (now : Z) (d : DB) : Constraint + (Z * DB) :=
  if negb (String.length hash =? 32) || negb (match maxUses with Some m => (0 <? m)%Z | None => true end)
  then inl CheckFailed
  else if row_exists (fun _ l => String.eqb (lk_token_hash l) hash) (db_links d) then inl NotUnique
  else if negb (has_key (db_servers d) s && has_key (db_users d) createdBy) then inl ForeignKey
  else
    let id := (db_link_seq d + 1)%Z in
    inr (id, d <| db_links ::= <[id := mkLink s createdBy hash expires maxUses 0 None now reg]> |>
               <| db_link_seq := id |>).

(** Rows that hang off a member or a server go with it ([ON DELETE CASCADE]). *)
Section cascades.
Context `{MapOrder}.

Definition delete_members (now : Z) (P : Z * Z → bool) (d : DB) : DB :=
  d <| db_members ::= delete_where (fun k _ => P k) |>
    <| db_member_roles ::= filter (fun r => P (r.1.1, r.1.2) = false) |>
    <| db_user_grants ::= filter (fun g => P (g.1.2, g.2) = false) |>
    <| db_publishers ::= filter (fun g => P (g.1.2, g.2) = false) |>
    <| db_posts ::= delete_member_posts now P |>.

(** [DELETE FROM channels WHERE id=?] *)
Definition delete_channel (now ch : Z) (d : DB) : Constraint + DB :=
  match delete_channel_posts now ch (db_posts d) with
  | inl c => inl c
  | inr posts =>
      inr (d <| db_channels ::= delete ch |>
             <| db_user_grants ::= filter (fun g => g.1.1 ≠ ch) |>
             <| db_role_grants ::= filter (fun g => g.1 ≠ ch) |>
             <| db_custom_grants ::= filter (fun g => g.1 ≠ ch) |>
             <| db_publishers ::= filter (fun g => g.1.1 ≠ ch) |>
             <| db_reads ::= delete_where (fun k _ => (k.1 =? ch)%Z) |>
             <| db_posts := posts |>)
  end.

(** [DELETE FROM server_roles WHERE id=?] *)
Definition delete_role (role : Z) (d : DB) : DB :=
  d <| db_roles ::= delete role |>
    <| db_member_roles ::= filter (fun r => r.2 ≠ role) |>
    <| db_custom_grants ::= filter (fun g => g.2 ≠ role) |>.

Definition delete_server (now s : Z) (d : DB) : Constraint + DB :=
  let channels := keys_where (fun _ c => (ch_server_id c =? s)%Z) (db_channels d) in
  match foldl (fun r ch => match r with inl c => inl c | inr d => delete_channel now ch d end)
          (inr (delete_members now (fun k => (k.1 =? s)%Z) d)) channels with
  | inl c => inl c
  | inr d =>
      inr ((foldl (fun d role => delete_role role d) d (keys_where (fun _ r => (rl_server_id r =? s)%Z) (db_roles d)))
        <| db_servers ::= delete s |>
        <| db_invites ::= delete_where (fun _ v => (iv_server_id v =? s)%Z) |>
        <| db_links ::= delete_where (fun _ l => (lk_server_id l =? s)%Z) |>
        <| db_audit ::= filter (fun a => au_server_id a ≠ s) |>)
  end.
End cascades.

(** The trigger [community_account_cleanup], on the tables modelled here. *)
Definition community_account_cleanup (u : Z) (d : DB) : DB :=
  d <| db_scheduled ::= delete_where (fun _ m => (sc_user_id m =? u)%Z) |>
    <| db_posts ::= fun p => p <| ps_votes ::= filter (fun v => v.2 ≠ u) |> |>.

(** ** audit.go *)

(** [Record]; [norows] is the bare [sql.ErrNoRows] it returns. Without an actor
    row the [INSERT ... SELECT] inserts nothing. *)
Definition audit_Record {E} (norows : E) (on : Constraint → E) (serverID actorID : Z)
    (action targetType : string) (targetID : Z) (targetName : string) (details : Details) : Tx E unit :=
  targetName ←
    (if String.eqb targetName "" && String.eqb targetType "user" then
       row norows (fun d => us_username <$> db_users d !! targetID)
     else mret targetName);
  targetName ←
    (if String.eqb targetName "" && (String.eqb targetType "channel" || String.eqb targetType "role") then
       if String.eqb targetType "role" then
         row norows (fun d => r ← db_roles d !! targetID;
           if decide (rl_server_id r = serverID) then Some (rl_name r) else None)
       else
         row norows (fun d => c ← db_channels d !! targetID;
           if decide (ch_server_id c = serverID) then Some (ch_name c) else None)
     else mret targetName);
  insert_row on (fun d =>
    match db_users d !! actorID with
    | None => inr (tt, d)
    | Some actor =>
        if negb (has_key (db_servers d) serverID) then inl ForeignKey
        else inr (tt, d <| db_audit ::= fun log => log ++ [mkAudit serverID actorID (us_username actor)
                              action targetType targetID targetName details] |>)
    end).
