(* ===== verification/Accounts.v ===== *)
(** * Accounts and sessions

    [internal/account]: the session, user and registration repositories
    ([sqlite/]) and the service over them, [internal/adminreset] and
    [internal/instancebootstrap]. A repository call is one transaction of
    [Store]. A service call may issue several: [others] is whatever other
    requests did to the database between two of them. What a service asks of
    the hub once its transaction is committed is the list of requests it
    returns. *)

From S2P Require Import Prelude GoText Events HubSystem Tables Posts Store.

Inductive AccountError :=
  | ErrUsernameInvalid | ErrUsernameCharacters | ErrPasswordTooShort | ErrPasswordTooLong
  | ErrPasswordsDoNotMatch | ErrRegistrationInviteInvalid | ErrUsernameTaken | ErrUnauthorized
  | ErrLoginUsernameRequired | ErrLoginPasswordRequired | ErrInvalidCredentials
  | ErrWrongCurrentPassword | ErrSessionNotFound
  (** [sql.ErrNoRows], a violated constraint, an argument error and failures of
      the random source or of bcrypt, all wrapped. *)
  | ErrAccountNoRows | ErrAccountConstraint (c : Constraint) | ErrCleanupBatch
  | ErrRandomSource | ErrHashPassword.
#[export] Instance AccountError_eq_dec : EqDecision AccountError.
Proof. solve_decision. Defined.

Record UserInfo := mkUserInfo { ui_ID : Z; ui_Username : string; ui_CreatedAt : Z }.
Record User := mkUserRecord {
  usr_ID : Z; usr_Username : string; usr_CreatedAt : Z; usr_PasswordHash : string }.
Record SessionInfo := mkSessionInfo { si_Token : string; si_ExpiresAt : Z }.
Record LoginResult := mkLoginResult { lr_User : UserInfo; lr_Session : SessionInfo }.
Record SessionRecord := mkSessionRecord {
  sr_ID : Z; sr_TokenHash : string; sr_CreatedAt : Z; sr_LastUsedAt : option Z; sr_ExpiresAt : Z;
  sr_UserAgent : string; sr_ClientIP : string }.
Record SessionView := mkSessionView {
  sw_ID : Z; sw_CreatedAt : Z; sw_LastUsedAt : option Z; sw_ExpiresAt : Z; sw_UserAgent : string;
  sw_ClientIP : string; sw_Current : bool }.
Record RegisterInput := mkRegisterInput {
  ri_Username : string; ri_Password : string; ri_PasswordConfirm : string; ri_InviteToken : string }.
#[global] Instance RegisterInput_fields : Fields RegisterInput := fun r =>
  mkRegisterInput (ri_Username r) (ri_Password r) (ri_PasswordConfirm r) (ri_InviteToken r).
Record LoginInput := mkLoginInput { li_Username : string; li_Password : string }.
#[global] Instance LoginInput_fields : Fields LoginInput := fun r =>
  mkLoginInput (li_Username r) (li_Password r).
Record ChangePasswordInput := mkChangePasswordInput {
  cp_CurrentPassword : string; cp_NewPassword : string; cp_NewConfirm : string }.

(** [ClientMeta]: the user agent is cut to 200 bytes. *)
Record ClientMeta := mkClientMeta { cm_UserAgent : string; cm_IP : string }.
Definition WithClientMeta (meta : ClientMeta) : ClientMeta :=
  mkClientMeta (if (200 <? String.length (cm_UserAgent meta))
                then String.substring 0 200 (cm_UserAgent meta) else cm_UserAgent meta) (cm_IP meta).

Definition dummyPasswordHash : string :=
  "$2a$10$N9qo8uLOickgx2ZMRZoMyeIjZAgcfl7p92ldGxad68LJZdL17lhWy".
(** Thirty days, in seconds. *)
Definition sessionLifetime : Z := 30 * 24 * 3600.
Definition sessionTokenSize : nat := 32.

(** The text and cryptography the code takes from other libraries. *)
Class Platform := {
  sha256 : string → string;
  (** [bcrypt.CompareHashAndPassword(hash, password) == nil] *)
  bcrypt_matches : string → string → bool;
  NFC : string → string;
  NFKC : string → string;
  ToLower : string → string;
  IsLetter : Z → bool;
  IsDigit : Z → bool;
  (** [unicode.IsNumber], the class [\p{N}] *)
  IsNumber : Z → bool
}.

Section accounts.
Context `{MapOrder, Platform}.

(** ** username.go, token.go *)

Definition UsernameKey (display : string) : string := ToLower (NFKC display).

Fixpoint username_chars (previousSpace : bool) (rs : list Z) : bool :=
  match rs with
  | [] => true
  | r :: rs' =>
      if (r =? 32)%Z then (if previousSpace then false else username_chars true rs')
      else if IsLetter r || IsDigit r || (r =? 95)%Z || (r =? 46)%Z || (r =? 45)%Z
      then username_chars false rs' else false
  end.

Definition NormalizeUsername (raw : string) : AccountError + (string * string) :=
  let display := NFC (TrimSpace raw) in
  let length := RuneCountInString display in
  if (length <? 3) || (32 <? length) then inl ErrUsernameInvalid
  else if username_chars false (runes display) then inr (display, UsernameKey display)
  else inl ErrUsernameCharacters.

(** [random] are the bytes read, [None] a failing source. *)
Definition generateSessionToken (random : option string) : AccountError + (string * string) :=
  match random with
  | None => inl ErrRandomSource
  | Some bytes => let token := EncodeToString bytes in inr (token, sha256 token)
  end.
Definition hashSessionToken (token : string) : string := sha256 token.

(** ** What the service asks of the hub (realtime/hub.go) *)

Definition RevokeSession (token : string) : list service_request :=
  [SvRevokeSession (sha256 (TrimSpace token))].
Definition RevokeSessionHash (hash : string) : list service_request :=
  if String.length hash =? 32 then [SvRevokeSession hash] else [].

(** ** sqlite/session_repository.go *)

(** [users.deleted_at IS NULL AND NOT EXISTS (... user_bans ...)] *)
Definition active_user (d : DB) (u : Z) : bool :=
  match db_users d !! u with
  | Some r => bool_decide (us_deleted_at r = None) && negb (has_key (db_bans d) u)
  | None => false
  end.

Definition by_token (hash : string) (_ : Z) (s : session_row) : bool := String.eqb (ss_token_hash s) hash.
Definition expires_before (a b : Z * session_row) : Prop :=
  (ss_expires_at a.2 < ss_expires_at b.2 ∨ ss_expires_at a.2 = ss_expires_at b.2 ∧ a.1 <= b.1)%Z.
#[export] Instance expires_before_dec a b : Decision (expires_before a b).
Proof. unfold expires_before. apply _. Defined.

Definition DeleteExpired (now limit : Z) (d : DB) : (AccountError + Z) * DB :=
  if (limit <? 1)%Z || (1000 <? limit)%Z then (inl ErrCleanupBatch, d)
  else
    let expired := filter (fun s => (ss_expires_at s.2 <= now)%Z) (map_to_list (db_sessions d)) in
    let batch := (take (Z.to_nat limit) (merge_sort expires_before expired)).*1 in
    (inr (Z.of_nat (length batch)),
     d <| db_sessions ::= delete_where (fun id _ => bool_decide (id ∈ batch)) |>).

Definition session_Create (userID : Z) (tokenHash : string) (expiresAt : Z) (meta : ClientMeta) (now : Z)
    (d : DB) : (AccountError + unit) * DB :=
  atomically (insert_row ErrAccountConstraint
    (insert_session userID tokenHash expiresAt (Some (cm_UserAgent meta)) (Some (cm_IP meta)) now) ;;
    mret tt) d.

Definition DeleteByTokenHash (tokenHash : string) (d : DB) : DB :=
  d <| db_sessions ::= delete_where (by_token tokenHash) |>.

Definition live_session (tokenHash : string) (now : Z) (d : DB) (id : Z) (s : session_row) : bool :=
  by_token tokenHash id s && (now <? ss_expires_at s)%Z && active_user d (ss_user_id s).

Definition FindActiveUserIDByTokenHash (tokenHash : string) (now : Z) (d : DB) : AccountError + Z :=
  match find_row (live_session tokenHash now d) (db_sessions d) with
  | Some (_, s) => inr (ss_user_id s)
  | None => inl ErrAccountNoRows
  end.

Definition Rotate (oldTokenHash newTokenHash : string) (newExpiresAt now : Z) (d : DB)
    : (AccountError + unit) * DB :=
  match find_row (live_session oldTokenHash now d) (db_sessions d) with
  | None => (inl ErrAccountNoRows, d)
  | Some (id, s) =>
      if negb (String.length newTokenHash =? 32) then (inl (ErrAccountConstraint CheckFailed), d)
      else if row_exists (fun k v => by_token newTokenHash k v && negb (k =? id)%Z) (db_sessions d)
      then (inl (ErrAccountConstraint NotUnique), d)
      else (inr tt, d <| db_sessions ::= <[id := s <| ss_token_hash := newTokenHash |>
               <| ss_expires_at := newExpiresAt |> <| ss_created_at := now |>]> |>)
  end.

Definition stale (now : Z) (last : option Z) : bool :=
  match last with Some l => (l <? now - 300)%Z | None => true end.

(** The read, then the conditional write as a statement of its own. *)
Definition Touch (others : DB → DB) (tokenHash : string) (now : Z) (d : DB) : DB :=
  match find_row (by_token tokenHash) (db_sessions d) with
  | None => d
  | Some (_, s) =>
      if stale now (ss_last_used_at s) then
        (others d) <| db_sessions ::= update_where
            (fun id v => by_token tokenHash id v && stale now (ss_last_used_at v))
            (fun v => v <| ss_last_used_at := Some now |>) |>
      else d
  end.

Definition newest_first (a b : Z * session_row) : Prop := (b.1 <= a.1)%Z.
#[export] Instance newest_first_dec a b : Decision (newest_first a b).
Proof. unfold newest_first. apply _. Defined.

Definition ListByUser (userID now : Z) (d : DB) : list SessionRecord :=
  (fun e : Z * session_row => mkSessionRecord e.1 (ss_token_hash e.2) (ss_created_at e.2)
     (ss_last_used_at e.2) (ss_expires_at e.2) (default "" (ss_user_agent e.2))
     (default "" (ss_client_ip e.2))) <$>
  merge_sort newest_first
    (filter (fun e => ss_user_id e.2 = userID ∧ (now < ss_expires_at e.2)%Z) (map_to_list (db_sessions d))).

Definition DeleteByID (userID sessionID : Z) (d : DB) : (AccountError + string) * DB :=
  match db_sessions d !! sessionID with
  | Some s =>
      if decide (ss_user_id s = userID)
      then (inr (ss_token_hash s), d <| db_sessions ::= delete sessionID |>)
      else (inl ErrSessionNotFound, d)
  | None => (inl ErrSessionNotFound, d)
  end.

Definition other_session (userID : Z) (keepHash : string) (_ : Z) (s : session_row) : bool :=
  (ss_user_id s =? userID)%Z && negb (String.eqb (ss_token_hash s) keepHash).

(** [DELETE ... RETURNING token_hash], in an unspecified order. *)
Definition delete_others (userID : Z) (keepHash : string) (d : DB) : list string * DB :=
  (ss_token_hash <$> (filter (fun e => other_session userID keepHash e.1 e.2 = true)
                        (range_entries (db_sessions d))).*2,
   d <| db_sessions ::= delete_where (other_session userID keepHash) |>).

Definition DeleteOthers (userID : Z) (keepHash : string) (d : DB) : list string * DB :=
  delete_others userID keepHash d.

Definition ReplacePasswordAndRevokeOthers (userID : Z) (expectedHash passwordHash keepHash : string)
    (d : DB) : (AccountError + list string) * DB :=
  atomically (
    changed ← query (fun d => match db_users d !! userID with
      | Some u => bool_decide (us_password_hash u = expectedHash ∧ us_deleted_at u = None)
      | None => false end);
    require changed ErrWrongCurrentPassword ;;
    exec (fun d => d <| db_users ::= alter (fun u => u <| us_password_hash := passwordHash |>) userID |>) ;;
    returning (delete_others userID keepHash)) d.

(** ** sqlite/user_repository.go *)

Definition user_Create (username passwordHash : string) (now : Z) (d : DB) : (AccountError + UserInfo) * DB :=
  atomically (id ← insert_row ErrAccountConstraint (insert_user username (UsernameKey username) passwordHash now);
              mret (mkUserInfo id username now)) d.

Definition user_of_row (id : Z) (r : user_row) : User :=
  mkUserRecord id (us_username r) (us_created_at r) (us_password_hash r).

Definition findExact (username : string) (d : DB) : AccountError + User :=
  match find_row (fun id u => String.eqb (us_username u) username && active_user d id) (db_users d) with
  | Some (id, u) => inr (user_of_row id u)
  | None => inl ErrAccountNoRows
  end.

Definition FindByID (userID : Z) (d : DB) : AccountError + User :=
  match db_users d !! userID with
  | Some u => if decide (us_deleted_at u = None) then inr (user_of_row userID u) else inl ErrAccountNoRows
  | None => inl ErrAccountNoRows
  end.

Definition UpdatePasswordHash (userID : Z) (passwordHash : string) (d : DB) : DB :=
  d <| db_users ::= alter (fun u =>
         if decide (us_deleted_at u = None) then u <| us_password_hash := passwordHash |> else u) userID |>.

Definition FindByUsername (others : DB → DB) (username : string) (d : DB) : AccountError + User :=
  match findExact username d with
  | inr user => inr user
  | inl _ =>
      let d := others d in
      match find_row (fun id u => bool_decide (us_username_key u = Some (UsernameKey username)) &&
                                  active_user d id) (db_users d) with
      | Some (id, u) => inr (user_of_row id u)
      | None => inl ErrAccountNoRows
      end
  end.

(** ** sqlite/invite_registration.go *)

Definition registration_link (inviteTokenHash : string) (now : Z) (_ : Z) (l : link_row) : bool :=
  String.eqb (lk_token_hash l) inviteTokenHash && lk_allow_registration l &&
  bool_decide (lk_revoked_at l = None) && (now <? lk_expires_at l)%Z &&
  match lk_max_uses l with Some m => (lk_use_count l <? m)%Z | None => false end.

Definition ValidateRegistrationInvite (inviteTokenHash : string) (now : Z) (d : DB) : AccountError + unit :=
  match find_row (registration_link inviteTokenHash now) (db_links d) with
  | Some _ => inr tt
  | None => inl ErrRegistrationInviteInvalid
  end.

(** The [UPDATE ... SET use_count = use_count + 1 ... RETURNING server_id] both
    kinds of redemption start with. *)
Definition consume_link {E} (e : E) (P : DB → Z → link_row → bool) : Tx E Z := fun d =>
  match find_row (P d) (db_links d) with
  | Some (id, l) => inr (lk_server_id l, d <| db_links ::= <[id := l <| lk_use_count ::= Z.succ |>]> |>)
  | None => inl e
  end.

(** [sqliteError.Code() == SQLITE_CONSTRAINT_UNIQUE] *)
Definition username_taken (c : Constraint) : AccountError :=
  match c with NotUnique => ErrUsernameTaken | _ => ErrAccountConstraint c end.

(** The clock is read by the four statements in turn. *)
Definition RegisterWithInvite (username passwordHash inviteTokenHash sessionTokenHash : string)
    (sessionExpiresAt now1 now2 now3 now4 : Z) (d : DB)
    : (AccountError + (UserInfo * Z * ServerMemberData)) * DB :=
  atomically (
    serverID ← consume_link ErrRegistrationInviteInvalid (fun _ => registration_link inviteTokenHash now1);
    match NormalizeUsername username with
    | inl e => fail e
    | inr (displayName, usernameKey) =>
        id ← insert_row username_taken (insert_user displayName usernameKey passwordHash now2);
        joinedAt ← insert_row ErrAccountConstraint (insert_member serverID id RoleMember now3);
        insert_row ErrAccountConstraint
          (insert_session id sessionTokenHash sessionExpiresAt None None now4) ;;
        mret (mkUserInfo id displayName now2, serverID,
              mkServerMemberData id displayName now2 "member" joinedAt "" None None None)
    end) d.

(** ** sqlite/username_keys.go *)

Definition set_username_key (p : Z * string) (d : DB) : DB :=
  let key := UsernameKey p.2 in
  match db_users d !! p.1 with
  | Some u =>
      if bool_decide (us_username_key u = None) &&
         negb (row_exists (fun id o => bool_decide (us_username_key o = Some key) && negb (id =? p.1)%Z)
                 (db_users d))
      then d <| db_users ::= <[p.1 := u <| us_username_key := Some key |>]> |> else d
  | None => d
  end.

Definition BackfillUsernameKeys (d : DB) : DB :=
  let todo := (fun e : Z * user_row => (e.1, us_username e.2)) <$>
    filter (fun e => us_username_key e.2 = None) (range_entries (db_users d)) in
  foldl (fun d p => set_username_key p d) d todo.

(** ** register.go, login.go *)

Definition register_Normalize (input : RegisterInput) : RegisterInput :=
  input <| ri_Username ::= TrimSpace |> <| ri_InviteToken ::= TrimSpace |>.

Definition register_Validate (input : RegisterInput) : option AccountError :=
  match NormalizeUsername (ri_Username input) with
  | inl e => Some e
  | inr _ =>
      if String.length (ri_Password input) <? 8 then Some ErrPasswordTooShort
      else if 72 <? String.length (ri_Password input) then Some ErrPasswordTooLong
      else if negb (String.eqb (ri_Password input) (ri_PasswordConfirm input))
      then Some ErrPasswordsDoNotMatch
      else match DecodeString (ri_InviteToken input) with
        | Some decoded =>
            if String.length decoded =? sessionTokenSize then None else Some ErrRegistrationInviteInvalid
        | None => Some ErrRegistrationInviteInvalid
        end
  end.

Definition login_Normalize (input : LoginInput) : LoginInput := input <| li_Username ::= TrimSpace |>.
Definition login_Validate (input : LoginInput) : option AccountError :=
  if String.eqb (li_Username input) "" then Some ErrLoginUsernameRequired
  else if String.eqb (li_Password input) "" then Some ErrLoginPasswordRequired
  else None.

(** ** service.go *)

Definition Outcome (E A : Type) : Type := (E + A) * list service_request * DB.

Definition generateSession (user : UserInfo) (random : option string) (meta : ClientMeta) (now : Z)
    (d : DB) : (AccountError + (string * Z)) * DB :=
  match generateSessionToken random with
  | inl e => (inl e, d)
  | inr (token, tokenHash) =>
      let expiresAt := (now + sessionLifetime)%Z in
      match session_Create (ui_ID user) tokenHash expiresAt meta now d with
      | (inl e, d) => (inl e, d)
      | (inr _, d) => (inr (token, expiresAt), d)
      end
  end.

(** [hash] is what [bcrypt.GenerateFromPassword] returned, [None] its error. *)
Definition Register (others : DB → DB) (input : RegisterInput) (hash random : option string)
    (now0 now1 now2 now3 now4 : Z) (d : DB) : Outcome AccountError LoginResult :=
  let input := register_Normalize input in
  match register_Validate input with
  | Some e => (inl e, [], d)
  | None =>
      let inviteTokenHash := hashSessionToken (ri_InviteToken input) in
      match ValidateRegistrationInvite inviteTokenHash now0 d with
      | inl e => (inl e, [], d)
      | inr _ =>
          match hash with
          | None => (inl ErrHashPassword, [], d)
          | Some passwordHash =>
              match generateSessionToken random with
              | inl e => (inl e, [], d)
              | inr (token, tokenHash) =>
                  let expiresAt := (now0 + sessionLifetime)%Z in
                  match RegisterWithInvite (ri_Username input) passwordHash inviteTokenHash tokenHash
                          expiresAt now1 now2 now3 now4 (others d) with
                  | (inl e, d) => (inl e, [], d)
                  | (inr (user, serverID, member), d) =>
                      (inr (mkLoginResult user (mkSessionInfo token expiresAt)),
                       [SvMemberJoined serverID member; SvAddUser (ui_ID user) serverID], d)
                  end
              end
          end
      end
  end.

Definition Logout (token : string) (d : DB) : Outcome AccountError unit :=
  let token := TrimSpace token in
  if String.eqb token "" then (inl ErrUnauthorized, [], d)
  else (inr tt, RevokeSession token, DeleteByTokenHash (hashSessionToken token) d).

Definition Login (others1 others2 : DB → DB) (input : LoginInput) (random : option string)
    (meta : ClientMeta) (now : Z) (d : DB) : (AccountError + LoginResult) * DB :=
  let input := login_Normalize input in
  match login_Validate input with
  | Some e => (inl e, d)
  | None =>
      match FindByUsername others1 (li_Username input) d with
      | inl _ => (inl ErrInvalidCredentials, others1 d)
      | inr user =>
          if bcrypt_matches (usr_PasswordHash user) (li_Password input) then
            let userInfo := mkUserInfo (usr_ID user) (usr_Username user) (usr_CreatedAt user) in
            match generateSession userInfo random meta now (others2 (others1 d)) with
            | (inl e, d) => (inl e, d)
            | (inr (token, expiresAt), d) => (inr (mkLoginResult userInfo (mkSessionInfo token expiresAt)), d)
            end
          else (inl ErrInvalidCredentials, others1 d)
      end
  end.

Definition Authenticate (others1 others2 : DB → DB) (token : string) (now1 now2 : Z) (d : DB)
    : (AccountError + Z) * DB :=
  let token := TrimSpace token in
  if String.eqb token "" then (inl ErrUnauthorized, d)
  else
    let tokenHash := hashSessionToken token in
    match FindActiveUserIDByTokenHash tokenHash now1 d with
    | inl _ => (inl ErrUnauthorized, d)
    | inr userID => (inr userID, Touch others2 tokenHash now2 (others1 d))
    end.

Definition Refresh (currentToken : string) (random : option string) (now1 now2 : Z) (d : DB)
    : Outcome AccountError SessionInfo :=
  let currentToken := TrimSpace currentToken in
  if String.eqb currentToken "" then (inl ErrUnauthorized, [], d)
  else
    match generateSessionToken random with
    | inl e => (inl e, [], d)
    | inr (newToken, newTokenHash) =>
        let newExpiresAt := (now1 + sessionLifetime)%Z in
        match Rotate (hashSessionToken currentToken) newTokenHash newExpiresAt now2 d with
        | (inl ErrAccountNoRows, d) => (inl ErrUnauthorized, [], d)
        | (inl e, d) => (inl e, [], d)
        | (inr _, d) => (inr (mkSessionInfo newToken newExpiresAt), RevokeSession currentToken, d)
        end
    end.

(** ** sessions.go *)

Definition verifyPassword (userID : Z) (password : string) (d : DB) : AccountError + User :=
  match FindByID userID d with
  | inl e => inl e
  | inr user => if bcrypt_matches (usr_PasswordHash user) password then inr user else inl ErrWrongCurrentPassword
  end.
Definition VerifyPassword (userID : Z) (password : string) (d : DB) : AccountError + unit :=
  match verifyPassword userID password d with inl e => inl e | inr _ => inr tt end.

Definition ChangePassword (others : DB → DB) (userID : Z) (currentToken : string)
    (input : ChangePasswordInput) (hash : option string) (d : DB) : Outcome AccountError unit :=
  if String.length (cp_NewPassword input) <? 8 then (inl ErrPasswordTooShort, [], d)
  else if 72 <? String.length (cp_NewPassword input) then (inl ErrPasswordTooLong, [], d)
  else if negb (String.eqb (cp_NewPassword input) (cp_NewConfirm input))
  then (inl ErrPasswordsDoNotMatch, [], d)
  else
    match verifyPassword userID (cp_CurrentPassword input) d with
    | inl e => (inl e, [], d)
    | inr user =>
        match hash with
        | None => (inl ErrHashPassword, [], d)
        | Some passwordHash =>
            match ReplacePasswordAndRevokeOthers userID (usr_PasswordHash user) passwordHash
                    (hashSessionToken (TrimSpace currentToken)) (others d) with
            | (inl e, d) => (inl e, [], d)
            | (inr hashes, d) => (inr tt, flat_map RevokeSessionHash hashes, d)
            end
        end
    end.

Definition ListSessions (userID : Z) (currentToken : string) (now : Z) (d : DB) : list SessionView :=
  let current := hashSessionToken (TrimSpace currentToken) in
  (fun r => mkSessionView (sr_ID r) (sr_CreatedAt r) (sr_LastUsedAt r) (sr_ExpiresAt r) (sr_UserAgent r)
              (sr_ClientIP r) (String.eqb (sr_TokenHash r) current)) <$> ListByUser userID now d.

Definition RevokeSessionByID (userID sessionID : Z) (d : DB) : Outcome AccountError unit :=
  match DeleteByID userID sessionID d with
  | (inl e, d) => (inl e, [], d)
  | (inr hash, d) => (inr tt, RevokeSessionHash hash, d)
  end.

Definition revokeOthers (userID : Z) (keep : string) (d : DB) : list service_request * DB :=
  let '(hashes, d) := DeleteOthers userID keep d in (flat_map RevokeSessionHash hashes, d).
Definition RevokeOtherSessions (userID : Z) (currentToken : string) (d : DB) : list service_request * DB :=
  revokeOthers userID (hashSessionToken (TrimSpace currentToken)) d.

(** ** adminreset.go *)

Definition passwordLength : nat := 20.
Definition passwordAlphabet : string := "abcdefghijkmnpqrstuvwxyzABCDEFGHJKLMNPQRSTUVWXYZ23456789".

(** [draws] are the numbers drawn below the length of the alphabet. *)
Definition admin_generatePassword (draws : list nat) : string :=
  String.string_of_list_ascii
    ((fun n => default Ascii.zero (String.get n passwordAlphabet)) <$> take passwordLength draws).

(** [None] is [ErrUserNotFound]. *)
Definition ResetPassword (username hash : string) (d : DB) : option Z * DB :=
  match find_row (fun _ u => String.eqb (us_username u) username && bool_decide (us_deleted_at u = None))
          (db_users d) with
  | None => (None, d)
  | Some (userID, _) =>
      (Some userID,
       d <| db_users ::= alter (fun u => u <| us_password_hash := hash |>) userID |>
         <| db_sessions ::= delete_where (fun _ s => (ss_user_id s =? userID)%Z) |>)
  end.
End accounts.
