(* ===== verification/Members.v ===== *)
(** * Servers and members

    [internal/server]: the repository ([sqlite/repository.go],
    [sqlite/manage_members.go]) and the service over it, and
    [internal/instancebootstrap], which creates the one server of an instance
    with its owner. Conventions as in [Accounts]. *)

From S2P Require Import Prelude GoText Events HubSystem Tables Posts Store Accounts.

Inductive ServerError :=
  | ErrNameRequired | ErrNameTooLong | ErrAlreadyExists | ErrNotFound | ErrMembershipNotFound
  | ErrOwnerCannotLeave | ErrLastServerDelete | ErrMembersForbidden | ErrMemberNotFound
  | ErrManageMembersForbidden | ErrRoleInvalid | ErrOwnerRoleImmutable | ErrCannotChangeOwnRole
  | ErrOwnerCannotBeBanned | ErrCannotBanSelf | ErrTimeoutInvalid | ErrBanNotFound | ErrBanReasonTooLong
  | ErrServerNoRows | ErrServerConstraint (c : Constraint).
#[export] Instance ServerError_eq_dec : EqDecision ServerError.
Proof. solve_decision. Defined.

Record Instance_ := mkInstance { in_ID : string; in_Name : string; in_Initialized : bool; in_CreatedAt : Z }.
Record Server := mkServerInfo { srv_ID : Z; srv_Name : string; srv_CreatedBy : Z; srv_CreatedAt : Z }.
Record JoinedServer := mkJoinedServer {
  js_ID : Z; js_Name : string; js_CreatedBy : Z; js_CreatedAt : Z; js_Role : Role; js_JoinedAt : Z }.
Record Ban := mkBanInfo {
  ban_UserID : Z; ban_Username : string; ban_BannedBy : Z; ban_Reason : string; ban_CreatedAt : Z }.

Definition role_name (r : Role) : string :=
  match r with RoleOwner => "owner" | RoleAdmin => "admin" | RoleMember => "member" end.

Section members.
Context `{MapOrder, Platform}.

(** ** sqlite/repository.go *)

Definition min_key {V} (m : gmap Z V) : option Z :=
  foldr (fun k r => match r with Some n => Some (Z.min k n) | None => Some k end) None (map_to_list m).*1.

Definition GetInstance (d : DB) : Instance_ :=
  let server := k ← min_key (db_servers d); db_servers d !! k in
  mkInstance (db_instance d).1 (from_option sv_name "" server) (bool_decide (is_Some server)) (db_instance d).2.

Definition server_of_row (id : Z) (r : server_row) : Server :=
  mkServerInfo id (sv_name r) (sv_created_by r) (sv_created_at r).

(** [INSERT ... SELECT ... WHERE NOT EXISTS (SELECT 1 FROM servers)] *)
Definition server_Create (name : string) (createdBy now1 now2 : Z) (d : DB) : (ServerError + Server) * DB :=
  atomically (
    taken ← query (fun d => row_exists (fun _ _ => true) (db_servers d));
    require (negb taken) ErrAlreadyExists ;;
    id ← insert_row ErrServerConstraint (insert_server name createdBy now1);
    insert_row ErrServerConstraint (insert_member id createdBy RoleOwner now2) ;;
    mret (mkServerInfo id name createdBy now1)) d.

Definition has_role (s u : Z) (roles : list Role) (d : DB) : bool :=
  match db_members d !! (s, u) with Some m => bool_decide (mb_role m ∈ roles) | None => false end.

Definition server_Update (serverID userID : Z) (name : string) (d : DB) : (ServerError + Server) * DB :=
  match db_servers d !! serverID with
  | Some r =>
      if has_role serverID userID [RoleOwner] d then
        if length_between 1 64 (sql_trim name)
        then let r' := r <| sv_name := name |> in
             (inr (server_of_row serverID r'), d <| db_servers ::= <[serverID := r']> |>)
        else (inl (ErrServerConstraint CheckFailed), d)
      else (inl ErrNotFound, d)
  | None => (inl ErrNotFound, d)
  end.

(** The deletion, then, when nothing was deleted, a second statement for the
    reason. *)
Definition server_Delete (others : DB → DB) (serverID userID now : Z) (d : DB) : (ServerError + unit) * DB :=
  if has_key (db_servers d) serverID && (1 <? size (db_servers d)) && has_role serverID userID [RoleOwner] d
  then match delete_server now serverID d with
       | inl c => (inl (ErrServerConstraint c), d)
       | inr d' => (inr tt, d')
       end
  else
    let d := others d in
    if has_role serverID userID [RoleOwner] d && (size (db_servers d) <=? 1)
    then (inl ErrLastServerDelete, d) else (inl ErrNotFound, d).

Definition delete_reads (userID serverID : Z) (d : DB) : DB :=
  d <| db_reads ::= delete_where (fun k _ => (k.2 =? userID)%Z &&
         match db_channels d !! k.1 with Some c => (ch_server_id c =? serverID)%Z | None => false end) |>.

Definition delete_owned_invitations (userID : Z) (d : DB) : DB :=
  d <| db_links ::= delete_where (fun _ l => (lk_created_by l =? userID)%Z) |>
    <| db_invites ::= delete_where (fun _ v => (iv_inviter v =? userID)%Z || (iv_invitee v =? userID)%Z) |>.
Definition delete_sessions_of (userID : Z) (d : DB) : DB :=
  d <| db_sessions ::= delete_where (fun _ s => (ss_user_id s =? userID)%Z) |>.

(** The statements of [deleteOwnedDataQuery] *)
Definition delete_owned_data (userID now : Z) (d : DB) : DB :=
  delete_members now (fun k => (k.2 =? userID)%Z)
    (delete_sessions_of userID
       ((delete_owned_invitations userID d)
          <| db_profiles ::= delete userID |>
          <| db_avatars ::= delete userID |>
          <| db_diagnostics ::= delete_where (fun _ u => (u =? userID)%Z) |>)).

(** ['Удалённый #' || lower(hex(randomblob(10)))]: [hex] are its digits. *)
Definition deleted_username (hex : string) : string := "Удалённый #" +:+ hex.

Definition anonymize (userID : Z) (hex : string) (now : Z) : Tx ServerError unit := fun d =>
  match db_users d !! userID with
  | Some u =>
      if decide (us_deleted_at u = None) then
        if negb (length_between 3 32 (deleted_username hex)) || (now <? 0)%Z
        then inl (ErrServerConstraint CheckFailed)
        else if row_exists (fun id o => String.eqb (us_username o) (deleted_username hex) && negb (id =? userID)%Z)
                  (db_users d)
        then inl (ErrServerConstraint NotUnique)
        else inr (tt, community_account_cleanup userID
               (d <| db_users ::= <[userID := u <| us_username := deleted_username hex |>
                       <| us_username_key := None |> <| us_password_hash := "" |>
                       <| us_deleted_at := Some now |>]> |>))
      else inl ErrMembershipNotFound
  | None => inl ErrMembershipNotFound
  end.

Definition server_DeleteAccount (userID : Z) (hex : string) (now : Z) (d : DB) : (ServerError + Z) * DB :=
  atomically (
    m ← row ErrMembershipNotFound (fun d => find_row (fun k _ => (k.2 =? userID)%Z) (db_members d));
    let serverID := m.1.1 in
    if decide (mb_role m.2 = RoleOwner) then fail ErrOwnerCannotLeave
    else
      exec (delete_reads userID serverID) ;;
      exec (delete_owned_data userID now) ;;
      anonymize userID hex now ;;
      mret serverID) d.

Definition joined_before (a b : JoinedServer) : Prop :=
  (js_JoinedAt a < js_JoinedAt b ∨ js_JoinedAt a = js_JoinedAt b ∧ js_ID a <= js_ID b)%Z.
#[export] Instance joined_before_dec a b : Decision (joined_before a b).
Proof. unfold joined_before. apply _. Defined.

(** The row of [server_members JOIN servers]. *)
Definition joined_server (d : DB) (k : Z * Z) (m : member_row) : option JoinedServer :=
  r ← db_servers d !! k.1;
  Some (mkJoinedServer k.1 (sv_name r) (sv_created_by r) (sv_created_at r) (mb_role m) (mb_joined_at m)).

Definition ListByUserID (userID : Z) (d : DB) : list JoinedServer :=
  merge_sort joined_before
    (omap (fun e : Z * Z * member_row => if decide (e.1.2 = userID) then joined_server d e.1 e.2 else None)
       (map_to_list (db_members d))).

(** The row of [server_members JOIN users LEFT JOIN user_profiles]. *)
Definition server_member (d : DB) (k : Z * Z) (m : member_row) : option ServerMemberData :=
  u ← db_users d !! k.2;
  let p := db_profiles d !! k.2 in
  Some (mkServerMemberData k.2 (us_username u) (us_created_at u) (role_name (mb_role m)) (mb_joined_at m)
          (from_option pf_about "" p) (p ≫= pf_country_code) (p ≫= pf_last_seen_at) (db_avatars d !! k.2)).

Definition role_rank (r : string) : Z :=
  if String.eqb r "owner" then 0 else if String.eqb r "admin" then 1 else 2.
Definition listed_before (a b : ServerMemberData) : Prop :=
  (role_rank (sm_Role a) < role_rank (sm_Role b) ∨
   role_rank (sm_Role a) = role_rank (sm_Role b) ∧
   (String.ltb (sm_Username a) (sm_Username b) = true ∨
    sm_Username a = sm_Username b ∧ sm_UserID a <= sm_UserID b))%Z.
#[export] Instance listed_before_dec a b : Decision (listed_before a b).
Proof. unfold listed_before. apply _. Defined.

Definition ListMembers (serverID requesterUserID : Z) (d : DB) : ServerError + list ServerMemberData :=
  if bool_decide (is_Some (db_members d !! (serverID, requesterUserID))) then
    inr (merge_sort listed_before
      (omap (fun e : Z * Z * member_row => if decide (e.1.1 = serverID) then server_member d e.1 e.2 else None)
         (map_to_list (db_members d))))
  else inl ErrMembersForbidden.

(** ** sqlite/manage_members.go *)

Definition findMemberRole (serverID userID : Z) : Tx ServerError Role :=
  row ErrMemberNotFound (fun d => mb_role <$> db_members d !! (serverID, userID)).
(** [findMemberRole] with [ErrMemberNotFound] turned into a refusal. *)
Definition findRequesterRole (serverID userID : Z) : Tx ServerError Role :=
  row ErrManageMembersForbidden (fun d => mb_role <$> db_members d !! (serverID, userID)).
Definition findServerMember (serverID userID : Z) : Tx ServerError ServerMemberData :=
  row ErrMemberNotFound (fun d => m ← db_members d !! (serverID, userID); server_member d (serverID, userID) m).

Definition record_audit (serverID actorID : Z) (action : string) (targetID : Z) (name : string)
    (details : Details) : Tx ServerError unit :=
  audit_Record ErrServerNoRows ErrServerConstraint serverID actorID action "user" targetID name details.

Definition set_role (serverID userID : Z) (old new : Role) (d : DB) : DB :=
  d <| db_members ::= update_where (fun k m => bool_decide (k = (serverID, userID)) && bool_decide (mb_role m = old))
         (fun m => m <| mb_role := new |>) |>.

(** The update repeats the role just read, so it affects exactly one row. *)
Definition repo_UpdateMemberRole (serverID requesterUserID targetUserID : Z) (role : Role) (d : DB)
    : (ServerError + (ServerMemberData * bool)) * DB :=
  atomically (
    requesterRole ← findRequesterRole serverID requesterUserID;
    require (bool_decide (requesterRole = RoleOwner)) ErrManageMembersForbidden ;;
    require (negb (requesterUserID =? targetUserID)%Z) ErrCannotChangeOwnRole ;;
    targetRole ← findMemberRole serverID targetUserID;
    require (negb (bool_decide (targetRole = RoleOwner))) ErrOwnerRoleImmutable ;;
    if decide (targetRole = role) then
      member ← findServerMember serverID targetUserID;
      mret (member, false)
    else
      exec (set_role serverID targetUserID targetRole role) ;;
      member ← findServerMember serverID targetUserID;
      record_audit serverID requesterUserID "member.permissions" targetUserID (sm_Username member)
        (RoleDetails role) ;;
      mret (member, true)) d.

(** Who may act on whom: owners on anyone else, admins on plain members. *)
Definition outranks (requester target : Role) : bool :=
  bool_decide (requester = RoleOwner) || (bool_decide (requester = RoleAdmin) && bool_decide (target = RoleMember)).

(** The checks [BanMemberWithReason] and [SetMemberTimeout] share. *)
Definition authorize_moderation (serverID requesterUserID targetUserID : Z) : Tx ServerError unit :=
  requesterRole ← findRequesterRole serverID requesterUserID;
  require (negb (requesterUserID =? targetUserID)%Z) ErrCannotBanSelf ;;
  targetRole ← findMemberRole serverID targetUserID;
  require (negb (bool_decide (targetRole = RoleOwner))) ErrOwnerCannotBeBanned ;;
  require (outranks requesterRole targetRole) ErrManageMembersForbidden.

Definition cancel_scheduled (userID : Z) (statuses : list ScheduleStatus) (error : string) (d : DB) : DB :=
  d <| db_scheduled ::= update_where
         (fun _ m => (sc_user_id m =? userID)%Z && bool_decide (sc_status m ∈ statuses))
         (fun m => mkSchedule (sc_user_id m) ScheduleCancelled error) |>.

(** The statements of [revokeQuery] *)
Definition revoke_account (userID now : Z) (d : DB) : DB :=
  delete_members now (fun k => (k.2 =? userID)%Z)
    (delete_owned_invitations userID
       (delete_sessions_of userID (cancel_scheduled userID [SchedulePending] "Автор заблокирован" d))).

Definition repo_BanMemberWithReason (serverID requesterUserID targetUserID : Z) (reason : string) (now : Z)
    (d : DB) : (ServerError + unit) * DB :=
  atomically (
    authorize_moderation serverID requesterUserID targetUserID ;;
    exec (delete_reads targetUserID serverID) ;;
    insert_row ErrServerConstraint (insert_ban targetUserID requesterUserID reason now) ;;
    exec (revoke_account targetUserID now) ;;
    record_audit serverID requesterUserID "member.banned" targetUserID ""
      (if String.eqb reason "" then NoDetails else ReasonDetails reason) ;;
    exec (cancel_scheduled targetUserID [SchedulePending; ScheduleFailed] "")) d.

Definition repo_BanMember (serverID requesterUserID targetUserID now : Z) (d : DB) : (ServerError + unit) * DB :=
  repo_BanMemberWithReason serverID requesterUserID targetUserID "" now d.

Definition banned_later (a b : Ban) : Prop :=
  (ban_CreatedAt b < ban_CreatedAt a ∨ ban_CreatedAt a = ban_CreatedAt b ∧ ban_UserID b <= ban_UserID a)%Z.
#[export] Instance banned_later_dec a b : Decision (banned_later a b).
Proof. unfold banned_later. apply _. Defined.

(** The role is read by one statement and the bans by another. *)
Definition repo_ListBans (others : DB → DB) (serverID requesterUserID : Z) (d : DB) : ServerError + list Ban :=
  if has_role serverID requesterUserID [RoleOwner; RoleAdmin] d then
    let d := others d in
    inr (take 500 (merge_sort banned_later
      (omap (fun e : Z * ban_row => u ← db_users d !! e.1;
               Some (mkBanInfo e.1 (us_username u) (bn_banned_by e.2) (bn_reason e.2) (bn_created_at e.2)))
         (map_to_list (db_bans d)))))
  else inl ErrManageMembersForbidden.

Definition repo_Unban (serverID requesterUserID targetUserID : Z) (d : DB) : (ServerError + unit) * DB :=
  atomically (
    requesterRole ← findRequesterRole serverID requesterUserID;
    bannedBy ← row ErrBanNotFound (fun d => bn_banned_by <$> db_bans d !! targetUserID);
    require (bool_decide (requesterRole = RoleOwner) ||
             (bool_decide (requesterRole = RoleAdmin) && (bannedBy =? requesterUserID)%Z))
      ErrManageMembersForbidden ;;
    exec (fun d => d <| db_bans ::= delete targetUserID |>) ;;
    record_audit serverID requesterUserID "member.unbanned" targetUserID "" NoDetails) d.

Definition repo_SetMemberTimeout (serverID requesterUserID targetUserID : Z) (until : option Z) (d : DB)
    : (ServerError + unit) * DB :=
  atomically (
    authorize_moderation serverID requesterUserID targetUserID ;;
    exec (fun d => d <| db_members ::= alter (fun m => m <| mb_timeout_until := until |>)
                                         (serverID, targetUserID) |>) ;;
    record_audit serverID requesterUserID "member.timeout" targetUserID "" (UntilDetails until)) d.

(** ** create.go, service.go *)

Definition create_Normalize (name : string) : string := TrimSpace name.
Definition create_Validate (name : string) : option ServerError :=
  if String.eqb name "" then Some ErrNameRequired
  else if 64 <? RuneCountInString name then Some ErrNameTooLong
  else None.

Definition service_Create (createdBy : Z) (name : string) (now1 now2 : Z) (d : DB) : Outcome ServerError Server :=
  if (createdBy <=? 0)%Z then (inl ErrNotFound, [], d)
  else
    let name := create_Normalize name in
    match create_Validate name with
    | Some e => (inl e, [], d)
    | None =>
        match server_Create name createdBy now1 now2 d with
        | (inl e, d) => (inl e, [], d)
        | (inr server, d) => (inr server, [SvAddUser createdBy (srv_ID server)], d)
        end
    end.

Definition service_Update (serverID userID : Z) (name : string) (d : DB) : (ServerError + Server) * DB :=
  if (serverID <=? 0)%Z then (inl ErrNotFound, d)
  else
    let name := create_Normalize name in
    match create_Validate name with
    | Some e => (inl e, d)
    | None => server_Update serverID userID name d
    end.

Definition service_Delete (others : DB → DB) (serverID userID now : Z) (d : DB) : Outcome ServerError unit :=
  if (serverID <=? 0)%Z then (inl ErrNotFound, [], d)
  else match server_Delete others serverID userID now d with
    | (inl e, d) => (inl e, [], d)
    | (inr _, d) => (inr tt, [SvRevokeServer serverID], d)
    end.

Definition service_DeleteAccount (userID : Z) (hex : string) (now : Z) (d : DB) : Outcome ServerError unit :=
  if (userID <=? 0)%Z then (inl ErrMembershipNotFound, [], d)
  else match server_DeleteAccount userID hex now d with
    | (inl e, d) => (inl e, [], d)
    | (inr serverID, d) => (inr tt, [SvRevokeUser userID serverID], d)
    end.

Definition service_ListMembers (serverID requesterUserID : Z) (d : DB) : ServerError + list ServerMemberData :=
  if (serverID <=? 0)%Z || (requesterUserID <=? 0)%Z then inl ErrMembersForbidden
  else ListMembers serverID requesterUserID d.

(** [UpdateMemberRoleInput.Validate] *)
Definition role_Validate (role : string) : ServerError + Role :=
  if String.eqb role "admin" then inr RoleAdmin
  else if String.eqb role "member" then inr RoleMember else inl ErrRoleInvalid.

(** The order of the identifier checks the member operations share. *)
Definition check_ids (serverID requesterUserID targetUserID : Z) : option ServerError :=
  if (serverID <=? 0)%Z || (requesterUserID <=? 0)%Z then Some ErrManageMembersForbidden
  else if (targetUserID <=? 0)%Z then Some ErrMemberNotFound else None.

Definition service_UpdateMemberRole (serverID requesterUserID targetUserID : Z) (role : string) (d : DB)
    : Outcome ServerError ServerMemberData :=
  match check_ids serverID requesterUserID targetUserID with
  | Some e => (inl e, [], d)
  | None =>
      match role_Validate role with
      | inl e => (inl e, [], d)
      | inr role =>
          match repo_UpdateMemberRole serverID requesterUserID targetUserID role d with
          | (inl e, d) => (inl e, [], d)
          | (inr (member, changed), d) =>
              (inr member, if changed : bool then [SvMemberRole serverID member] else [], d)
          end
      end
  end.

Definition maxBanReasonRunes : nat := 500.

Definition service_BanMember (serverID requesterUserID targetUserID now : Z) (d : DB)
    : Outcome ServerError unit :=
  match check_ids serverID requesterUserID targetUserID with
  | Some e => (inl e, [], d)
  | None =>
      match repo_BanMember serverID requesterUserID targetUserID now d with
      | (inl e, d) => (inl e, [], d)
      | (inr _, d) => (inr tt, [SvRevokeUser targetUserID serverID], d)
      end
  end.

Definition service_BanMemberWithReason (serverID requesterUserID targetUserID : Z) (reason : string) (now : Z)
    (d : DB) : Outcome ServerError unit :=
  let reason := TrimSpace reason in
  if maxBanReasonRunes <? RuneCountInString reason then (inl ErrBanReasonTooLong, [], d)
  else
    match check_ids serverID requesterUserID targetUserID with
    | Some e => (inl e, [], d)
    | None =>
        match repo_BanMemberWithReason serverID requesterUserID targetUserID reason now d with
        | (inl e, d) => (inl e, [], d)
        | (inr _, d) => (inr tt, [SvRevokeUser targetUserID serverID], d)
        end
    end.

Definition service_ListBans (others : DB → DB) (serverID requesterUserID : Z) (d : DB) : ServerError + list Ban :=
  repo_ListBans others serverID requesterUserID d.
Definition service_Unban (serverID requesterUserID targetUserID : Z) (d : DB) : (ServerError + unit) * DB :=
  repo_Unban serverID requesterUserID targetUserID d.

(** Twenty-eight days. The two readings of the clock are in nanoseconds. *)
Definition maxTimeout : Z := 28 * 24 * 3600 * 10 ^ 9.

Definition service_SetMemberTimeout (serverID requesterUserID targetUserID : Z) (until : option Z)
    (now1 now2 : Z) (d : DB) : Outcome ServerError unit :=
  if match until with
     | Some at_ => (at_ * 10 ^ 9 <=? now1)%Z || (now2 + maxTimeout <? at_ * 10 ^ 9)%Z
     | None => false end
  then (inl ErrTimeoutInvalid, [], d)
  else
    match check_ids serverID requesterUserID targetUserID with
    | Some e => (inl e, [], d)
    | None =>
        match repo_SetMemberTimeout serverID requesterUserID targetUserID until d with
        | (inl e, d) => (inl e, [], d)
        | (inr _, d) => (inr tt, [SvRefreshRoles serverID], d)
        end
    end.

(** ** instancebootstrap/bootstrap.go *)

Record Config := mkConfig { cf_Username : string; cf_Password : string; cf_InstanceName : string }.
Record Result := mkResult {
  rs_Created : bool; rs_Username : string; rs_Password : string; rs_PasswordGenerated : bool }.

Inductive BootstrapError :=
  | ErrInvalidInstance (servers : nat) | ErrOwners (owners : nat) | ErrUsersExist (users : nat)
  | ErrBootstrapUsername (e : AccountError) | ErrInstanceName | ErrRandom | ErrPasswordLength
  | ErrBootstrapHash | ErrBootstrapConstraint (c : Constraint).

Definition owner_count (d : DB) : nat :=
  length (filter (fun e : Z * Z * member_row =>
      mb_role e.2 = RoleOwner ∧ has_key (db_servers d) e.1.1 = true ∧ active_user d e.1.2 = true)
    (map_to_list (db_members d))).

Definition validateOwner : Tx BootstrapError unit := fun d =>
  if owner_count d =? 1 then inr (tt, d) else inl (ErrOwners (owner_count d)).

Definition Validate (others : DB → DB) (d : DB) : option BootstrapError :=
  if negb (size (db_servers d) =? 1) then Some (ErrInvalidInstance (size (db_servers d)))
  else match validateOwner (others d) with inl e => Some e | inr _ => None end.

Definition bootstrap_generatePassword (random : option string) : BootstrapError + string :=
  match random with Some bytes => inr (EncodeToString bytes) | None => inl ErrRandom end.

Definition or_default (s fallback : string) : string := if String.eqb s "" then fallback else s.

(** [random] feeds [generatePassword]; [hash] is the result of bcrypt. *)
Definition Ensure (config : Config) (random hash : option string) (now1 now2 now3 : Z) (d : DB)
    : (BootstrapError + Result) * DB :=
  atomically (
    serverCount ← query (fun d => size (db_servers d));
    require (serverCount <=? 1) (ErrInvalidInstance serverCount) ;;
    if serverCount =? 1 then validateOwner ;; mret (mkResult false "" "" false)
    else
      userCount ← query (fun d => size (db_users d));
      require (userCount =? 0) (ErrUsersExist userCount) ;;
      let username := or_default (TrimSpace (cf_Username config)) "owner" in
      let instanceName := or_default (TrimSpace (cf_InstanceName config)) "Voxhold" in
      match NormalizeUsername username with
      | inl e => fail (ErrBootstrapUsername e)
      | inr (displayName, usernameKey) =>
          require (length_between 1 64 instanceName) ErrInstanceName ;;
          let generated := String.eqb (cf_Password config) "" in
          match (if generated then bootstrap_generatePassword random else inr (cf_Password config)) with
          | inl e => fail e
          | inr password =>
              require (negb ((String.length password <? 8) || (72 <? String.length password))) ErrPasswordLength ;;
              match hash with
              | None => fail ErrBootstrapHash
              | Some passwordHash =>
                  userID ← insert_row ErrBootstrapConstraint (insert_user displayName usernameKey passwordHash now1);
                  serverID ← insert_row ErrBootstrapConstraint (insert_server instanceName userID now2);
                  insert_row ErrBootstrapConstraint (insert_member serverID userID RoleOwner now3) ;;
                  mret (mkResult true displayName password generated)
              end
          end
      end) d.
End members.
