(* ===== verification/Invites.v ===== *)
(** * Invitations

    [internal/invite]: direct invitations ([sqlite/repository.go]), invite
    links ([sqlite/link_repository.go], [sqlite/manage_links.go]) and the
    service over them. Conventions as in [Accounts]. *)

From S2P Require Import Prelude GoText Events HubSystem Tables Posts Store Accounts Members.

Inductive InviteError :=
  | ErrInviteUsernameInvalid | ErrCannotInviteSelf | ErrUserNotFound | ErrAlreadyMember
  | ErrInviteAlreadyPending | ErrForbidden | ErrInviteNotFound | ErrInviteNotPending | ErrInviteExpired
  | ErrLinkInvalid | ErrLinkLifetimeInvalid | ErrRegistrationLinkTooLong | ErrLinkMaxUsesInvalid
  | ErrRegistrationLimitNeeded | ErrLinkNotFound | ErrLinkPaginationInvalid
  | ErrInviteNoRows | ErrInviteConstraint (c : Constraint) | ErrInviteRandom.
#[export] Instance InviteError_eq_dec : EqDecision InviteError.
Proof. solve_decision. Defined.

Record Invite := mkInviteInfo {
  inv_ID : Z; inv_ServerID : Z; inv_ServerName : string; inv_InviterUserID : Z; inv_InviterUsername : string;
  inv_InviteeUserID : Z; inv_Status : Status; inv_ExpiresAt : Z; inv_RespondedAt : option Z; inv_CreatedAt : Z }.
Record IncomingInvite := mkIncomingInvite {
  ic_ID : Z; ic_ServerID : Z; ic_ServerName : string; ic_InviterUserID : Z; ic_InviterUsername : string;
  ic_Status : Status; ic_ExpiresAt : Z; ic_CreatedAt : Z }.
Record InviteLink := mkInviteLink {
  il_ID : Z; il_ServerID : Z; il_ServerName : string; il_CreatedBy : Z; il_CreatorUsername : string;
  il_Token : string; il_ExpiresAt : Z; il_MaxUses : option Z; il_UseCount : Z; il_AllowRegistration : bool;
  il_CreatedAt : Z }.
#[global] Instance InviteLink_fields : Fields InviteLink := fun r =>
  mkInviteLink (il_ID r) (il_ServerID r) (il_ServerName r) (il_CreatedBy r) (il_CreatorUsername r) (il_Token r)
    (il_ExpiresAt r) (il_MaxUses r) (il_UseCount r) (il_AllowRegistration r) (il_CreatedAt r).
Record LinkPreview := mkLinkPreview {
  lp_ServerID : Z; lp_ServerName : string; lp_CreatorUsername : string; lp_ExpiresAt : Z;
  lp_MaxUses : option Z; lp_UseCount : Z; lp_AllowRegistration : bool }.
Record LinkPage := mkLinkPage { pg_Links : list InviteLink; pg_NextBeforeID : option Z; pg_HasMore : bool }.

(** Durations are in nanoseconds. *)
Definition second : Z := 10 ^ 9.
Definition MinLinkLifetime : Z := 5 * 60 * second.
Definition MaxLinkLifetime : Z := 30 * 24 * 3600 * second.
Definition MaxRegistrationLinkLifetime : Z := 24 * 3600 * second.
Definition MaxLinkUses : Z := 1000.
(** Seven days, in seconds. *)
Definition directInviteLifetime : Z := 7 * 24 * 3600.

Record CreateLinkInput := mkCreateLinkInput {
  cl_Lifetime : Z; cl_MaxUses : option Z; cl_AllowRegistration : bool }.

Section invites.
Context `{MapOrder, Platform}.

(** ** sqlite/repository.go *)

(** [Scan] of a row that was just written: its absence is [sql.ErrNoRows]. *)
Definition selectJoinedServer (serverID userID : Z) : Tx InviteError JoinedServer :=
  row ErrInviteNoRows (fun d => m ← db_members d !! (serverID, userID); joined_server d (serverID, userID) m).
Definition selectAcceptedMember (serverID userID : Z) : Tx InviteError ServerMemberData :=
  row ErrInviteNoRows (fun d => m ← db_members d !! (serverID, userID); server_member d (serverID, userID) m).

Definition status_update (P : Z → invite_row → bool) (f : invite_row → invite_row) (d : DB) : DB :=
  d <| db_invites ::= update_where P f |>.

Definition pending_unique (c : Constraint) : InviteError :=
  match c with NotUnique => ErrInviteAlreadyPending | _ => ErrInviteConstraint c end.

Definition repo_CreateDirect (serverID inviterUserID : Z) (inviteeUsername : string) (expiresAt now1 now2 : Z)
    (d : DB) : (InviteError + Invite) * DB :=
  atomically (
    names ← row ErrForbidden (fun d =>
      if has_role serverID inviterUserID [RoleOwner; RoleAdmin] d then
        s ← db_servers d !! serverID; u ← db_users d !! inviterUserID; Some (sv_name s, us_username u)
      else None);
    invitee ← row ErrUserNotFound (fun d =>
      find_row (fun id u => String.eqb (us_username u) inviteeUsername && active_user d id) (db_users d));
    let inviteeUserID := invitee.1 in
    require (negb (inviterUserID =? inviteeUserID)%Z) ErrCannotInviteSelf ;;
    alreadyMember ← query (fun d => bool_decide (is_Some (db_members d !! (serverID, inviteeUserID))));
    require (negb alreadyMember) ErrAlreadyMember ;;
    exec (status_update (fun _ v => pending_for serverID inviteeUserID v && (iv_expires_at v <=? now1)%Z)
            (fun v => v <| iv_status := StatusExpired |>)) ;;
    id ← insert_row pending_unique (insert_invite serverID inviterUserID inviteeUserID expiresAt now2);
    mret (mkInviteInfo id serverID names.1 inviterUserID names.2 inviteeUserID StatusPending expiresAt None now2)) d.

Definition received_later (a b : IncomingInvite) : Prop :=
  (ic_CreatedAt b < ic_CreatedAt a ∨ ic_CreatedAt a = ic_CreatedAt b ∧ ic_ID b <= ic_ID a)%Z.
#[export] Instance received_later_dec a b : Decision (received_later a b).
Proof. unfold received_later. apply _. Defined.

Definition repo_ListIncoming (inviteeUserID now : Z) (d : DB) : list IncomingInvite :=
  merge_sort received_later
    (omap (fun e : Z * invite_row =>
       let v := e.2 in
       if bool_decide (iv_invitee v = inviteeUserID) && bool_decide (iv_status v = StatusPending) &&
          (now <? iv_expires_at v)%Z then
         s ← db_servers d !! iv_server_id v; u ← db_users d !! iv_inviter v;
         Some (mkIncomingInvite e.1 (iv_server_id v) (sv_name s) (iv_inviter v) (us_username u) (iv_status v)
                 (iv_expires_at v) (iv_created_at v))
       else None) (map_to_list (db_invites d))).

(** The invitation [id] of the user, still pending and not expired. *)
Definition answerable (inviteID inviteeUserID now : Z) (d : DB) : option invite_row :=
  v ← db_invites d !! inviteID;
  if bool_decide (iv_invitee v = inviteeUserID) && bool_decide (iv_status v = StatusPending) &&
     (now <? iv_expires_at v)%Z then Some v else None.

(** [UPDATE ... SET status, responded_at ... RETURNING server_id] *)
Definition respond (inviteID : Z) (v : invite_row) (status : Status) (now : Z) (d : DB) : DB :=
  d <| db_invites ::= <[inviteID := v <| iv_status := status |> <| iv_responded_at := Some now |>]> |>.

(** Why the update matched no row; an expired invitation is marked as such and
    that is committed. *)
Definition unanswerable {A} (inviteID inviteeUserID now : Z) : Tx InviteError (InviteError + A) :=
  state ← row ErrInviteNotFound (fun d => v ← db_invites d !! inviteID;
    if decide (iv_invitee v = inviteeUserID) then Some (iv_status v, (iv_expires_at v <=? now)%Z) else None);
  if decide (state.1 = StatusExpired) then fail ErrInviteExpired
  else if decide (state.1 ≠ StatusPending) then fail ErrInviteNotPending
  else if state.2 : bool then
    exec (status_update (fun id v => (id =? inviteID)%Z && bool_decide (iv_status v = StatusPending))
            (fun v => v <| iv_status := StatusExpired |>)) ;;
    mret (inl ErrInviteExpired)
  else fail ErrInviteNotPending.

Definition repo_Accept (inviteID inviteeUserID now1 now2 now3 : Z) (d : DB)
    : (InviteError + (JoinedServer * ServerMemberData)) * DB :=
  atomically_or (
    accepted ← query (answerable inviteID inviteeUserID now1);
    match accepted with
    | None => unanswerable inviteID inviteeUserID now2
    | Some v =>
        let serverID := iv_server_id v in
        exec (respond inviteID v StatusAccepted now1) ;;
        insert_row ErrInviteConstraint (insert_member_or_nothing serverID inviteeUserID RoleMember now3) ;;
        member ← selectAcceptedMember serverID inviteeUserID;
        joined ← selectJoinedServer serverID inviteeUserID;
        mret (inr (joined, member))
    end) d.

Definition repo_Decline (inviteID inviteeUserID now1 now2 : Z) (d : DB) : (InviteError + unit) * DB :=
  atomically_or (
    declined ← query (answerable inviteID inviteeUserID now1);
    match declined with
    | None => unanswerable inviteID inviteeUserID now2
    | Some v => exec (respond inviteID v StatusDeclined now1) ;; mret (inr tt)
    end) d.

(** ** sqlite/link_repository.go *)

Definition link_of_row (d : DB) (id : Z) (l : link_row) : option InviteLink :=
  s ← db_servers d !! lk_server_id l; u ← db_users d !! lk_created_by l;
  Some (mkInviteLink id (lk_server_id l) (sv_name s) (lk_created_by l) (us_username u) "" (lk_expires_at l)
          (lk_max_uses l) (lk_use_count l) (lk_allow_registration l) (lk_created_at l)).

(** [INSERT ... SELECT ... FROM server_members WHERE ... RETURNING] *)
Definition repo_CreateLink (serverID creatorUserID : Z) (tokenHash : string) (expiresAt : Z)
    (maxUses : option Z) (allowRegistration : bool) (now : Z) (d : DB) : (InviteError + InviteLink) * DB :=
  atomically (
    allowed ← query (has_role serverID creatorUserID [RoleOwner; RoleAdmin]);
    require allowed ErrForbidden ;;
    id ← insert_row ErrInviteConstraint
           (insert_link serverID creatorUserID tokenHash expiresAt maxUses allowRegistration now);
    row ErrInviteNoRows (fun d => l ← db_links d !! id; link_of_row d id l)) d.

Definition usable (now : Z) (l : link_row) : bool :=
  bool_decide (lk_revoked_at l = None) && (now <? lk_expires_at l)%Z &&
  match lk_max_uses l with Some m => (lk_use_count l <? m)%Z | None => true end.

Definition by_link_token (tokenHash : string) (l : link_row) : bool := String.eqb (lk_token_hash l) tokenHash.

Definition repo_ResolveLink (tokenHash : string) (now : Z) (d : DB) : InviteError + LinkPreview :=
  match find_row (fun _ l => by_link_token tokenHash l && usable now l) (db_links d) with
  | Some (id, l) =>
      match link_of_row d id l with
      | Some i => inr (mkLinkPreview (il_ServerID i) (il_ServerName i) (il_CreatorUsername i) (il_ExpiresAt i)
                         (il_MaxUses i) (il_UseCount i) (il_AllowRegistration i))
      | None => inl ErrLinkInvalid
      end
  | None => inl ErrLinkInvalid
  end.

(** The guard of [consumeQuery] *)
Definition joinable (tokenHash : string) (userID now : Z) (d : DB) (_ : Z) (l : link_row) : bool :=
  by_link_token tokenHash l && usable now l &&
  negb (bool_decide (is_Some (db_members d !! (lk_server_id l, userID)))).

Definition repo_AcceptLink (tokenHash : string) (userID now1 now2 : Z) (d : DB)
    : (InviteError + (JoinedServer * ServerMemberData * bool)) * DB :=
  atomically (
    consumed ← query (fun d => bool_decide (is_Some (find_row (joinable tokenHash userID now1 d) (db_links d))));
    if consumed : bool then
      serverID ← consume_link ErrLinkInvalid (joinable tokenHash userID now1);
      insert_row ErrInviteConstraint (insert_member_or_nothing serverID userID RoleMember now2) ;;
      member ← selectAcceptedMember serverID userID;
      joined ← selectJoinedServer serverID userID;
      mret (joined, member, false)
    else
      link ← row ErrLinkInvalid (fun d => find_row (fun _ l => by_link_token tokenHash l &&
               bool_decide (is_Some (db_members d !! (lk_server_id l, userID)))) (db_links d));
      let serverID := lk_server_id link.2 in
      member ← selectAcceptedMember serverID userID;
      joined ← selectJoinedServer serverID userID;
      mret (joined, member, true)) d.

(** ** sqlite/manage_links.go *)

Definition requireLinkManager (serverID userID : Z) : Tx InviteError unit :=
  allowed ← query (has_role serverID userID [RoleOwner; RoleAdmin]);
  require allowed ErrForbidden.

Definition link_newest_first (a b : Z * link_row) : Prop := (b.1 <= a.1)%Z.
#[export] Instance link_newest_first_dec a b : Decision (link_newest_first a b).
Proof. unfold link_newest_first. apply _. Defined.

Definition repo_ListActiveLinks (serverID userID : Z) (beforeID : option Z) (limit now : Z) (d : DB)
    : InviteError + list InviteLink :=
  match requireLinkManager serverID userID d with
  | inl e => inl e
  | inr _ =>
      let cursor := default (2 ^ 63 - 1)%Z beforeID in
      inr (take (Z.to_nat limit)
        (omap (fun e => link_of_row d e.1 e.2)
          (merge_sort link_newest_first
            (filter (fun e => lk_server_id e.2 = serverID ∧ (e.1 < cursor)%Z ∧ usable now e.2 = true)
               (map_to_list (db_links d))))))
  end.

Definition repo_RevokeLink (serverID linkID userID now : Z) (d : DB) : (InviteError + unit) * DB :=
  atomically (
    requireLinkManager serverID userID ;;
    link ← row ErrLinkNotFound (fun d => l ← db_links d !! linkID;
      if decide (lk_server_id l = serverID) then Some l else None);
    exec (fun d => d <| db_links ::=
      <[linkID := link <| lk_revoked_at := Some (default now (lk_revoked_at link)) |>]> |>)) d.

(** ** link.go, create.go, link_token.go *)

Definition link_Validate (input : CreateLinkInput) : option InviteError :=
  if (cl_Lifetime input <? MinLinkLifetime)%Z || (MaxLinkLifetime <? cl_Lifetime input)%Z
  then Some ErrLinkLifetimeInvalid
  else if cl_AllowRegistration input && (MaxRegistrationLinkLifetime <? cl_Lifetime input)%Z
  then Some ErrRegistrationLinkTooLong
  else if match cl_MaxUses input with Some m => (m <? 1)%Z || (MaxLinkUses <? m)%Z | None => false end
  then Some ErrLinkMaxUsesInvalid
  else if cl_AllowRegistration input && bool_decide (cl_MaxUses input = None)
  then Some ErrRegistrationLimitNeeded
  else None.

Definition direct_Validate (username : string) : option InviteError :=
  if (RuneCountInString username <? 3) || (32 <? RuneCountInString username)
  then Some ErrInviteUsernameInvalid else None.

Definition generateLinkToken (random : option string) : InviteError + (string * string) :=
  match random with
  | None => inl ErrInviteRandom
  | Some bytes => let token := EncodeToString bytes in inr (token, sha256 token)
  end.
Definition hashLinkToken (token : string) : string := sha256 token.

(** ** service.go, manage_links.go. [now_ns] is [time.Now()] in nanoseconds. *)

Definition service_CreateLink (serverID creatorUserID : Z) (input : CreateLinkInput) (random : option string)
    (now_ns now : Z) (d : DB) : (InviteError + InviteLink) * DB :=
  if (serverID <=? 0)%Z || (creatorUserID <=? 0)%Z then (inl ErrForbidden, d)
  else match link_Validate input with
    | Some e => (inl e, d)
    | None =>
        match generateLinkToken random with
        | inl e => (inl e, d)
        | inr (token, tokenHash) =>
            match repo_CreateLink serverID creatorUserID tokenHash ((now_ns + cl_Lifetime input) / second)
                    (cl_MaxUses input) (cl_AllowRegistration input) now d with
            | (inl e, d) => (inl e, d)
            | (inr link, d) => (inr (link <| il_Token := token |>), d)
            end
        end
    end.

Definition service_ResolveLink (token : string) (now : Z) (d : DB) : InviteError + LinkPreview :=
  let token := TrimSpace token in
  if String.eqb token "" then inl ErrLinkInvalid else repo_ResolveLink (hashLinkToken token) now d.

Definition service_AcceptLink (token : string) (userID now1 now2 : Z) (d : DB)
    : Outcome InviteError (JoinedServer * bool) :=
  let token := TrimSpace token in
  if String.eqb token "" || (userID <=? 0)%Z then (inl ErrLinkInvalid, [], d)
  else match repo_AcceptLink (hashLinkToken token) userID now1 now2 d with
    | (inl e, d) => (inl e, [], d)
    | (inr (joinedServer, member, alreadyMember), d) =>
        (inr (joinedServer, alreadyMember),
         if alreadyMember : bool then []
         else [SvMemberJoined (js_ID joinedServer) member; SvAddUser userID (js_ID joinedServer)], d)
    end.

Definition status_name (s : Status) : string :=
  match s with
  | StatusPending => "pending" | StatusAccepted => "accepted" | StatusDeclined => "declined"
  | StatusCanceled => "canceled" | StatusExpired => "expired"
  end.

(** [PublishInvitationReceived] of realtime/invitation_events.go *)
Definition invitation_received (i : Invite) : service_request :=
  SvPublishToUser (inv_InviteeUserID i) (new_event EventInvitationReceived (DInvitationReceived
    (mkInvitationReceivedData (inv_ID i) (inv_ServerID i) (inv_ServerName i) (inv_InviterUserID i)
       (inv_InviterUsername i) (inv_InviteeUserID i) (status_name (inv_Status i)) (inv_ExpiresAt i)
       (inv_CreatedAt i)))).

Definition service_CreateDirect (serverID inviterUserID : Z) (username : string) (now now1 now2 : Z) (d : DB)
    : Outcome InviteError Invite :=
  if (serverID <=? 0)%Z || (inviterUserID <=? 0)%Z then (inl ErrForbidden, [], d)
  else
    let username := TrimSpace username in
    match direct_Validate username with
    | Some e => (inl e, [], d)
    | None =>
        match repo_CreateDirect serverID inviterUserID username (now + directInviteLifetime) now1 now2 d with
        | (inl e, d) => (inl e, [], d)
        | (inr created, d) => (inr created, [invitation_received created], d)
        end
    end.

Definition service_ListIncoming (inviteeUserID now : Z) (d : DB) : InviteError + list IncomingInvite :=
  if (inviteeUserID <=? 0)%Z then inl ErrForbidden else inr (repo_ListIncoming inviteeUserID now d).

Definition service_Accept (inviteID inviteeUserID now1 now2 now3 : Z) (d : DB)
    : Outcome InviteError JoinedServer :=
  if (inviteID <=? 0)%Z || (inviteeUserID <=? 0)%Z then (inl ErrInviteNotFound, [], d)
  else match repo_Accept inviteID inviteeUserID now1 now2 now3 d with
    | (inl e, d) => (inl e, [], d)
    | (inr (joinedServer, member), d) =>
        (inr joinedServer,
         [SvMemberJoined (js_ID joinedServer) member; SvAddUser inviteeUserID (js_ID joinedServer)], d)
    end.

Definition service_Decline (inviteID inviteeUserID now1 now2 : Z) (d : DB) : (InviteError + unit) * DB :=
  if (inviteID <=? 0)%Z || (inviteeUserID <=? 0)%Z then (inl ErrInviteNotFound, d)
  else repo_Decline inviteID inviteeUserID now1 now2 d.

Definition service_ListActiveLinks (serverID userID : Z) (beforeID : option Z) (limit now : Z) (d : DB)
    : InviteError + LinkPage :=
  if (serverID <=? 0)%Z || (userID <=? 0)%Z then inl ErrForbidden
  else
    let limit := if (limit =? 0)%Z then 50%Z else limit in
    if (limit <? 1)%Z || (100 <? limit)%Z || match beforeID with Some b => (b <=? 0)%Z | None => false end
    then inl ErrLinkPaginationInvalid
    else match repo_ListActiveLinks serverID userID beforeID (limit + 1) now d with
      | inl e => inl e
      | inr links =>
          if (Z.to_nat limit <? length links)
          then let page := take (Z.to_nat limit) links in
               inr (mkLinkPage page (il_ID <$> last page) true)
          else inr (mkLinkPage links None false)
      end.

Definition service_RevokeLink (serverID linkID userID now : Z) (d : DB) : (InviteError + unit) * DB :=
  if (serverID <=? 0)%Z || (userID <=? 0)%Z then (inl ErrForbidden, d)
  else if (linkID <=? 0)%Z then (inl ErrLinkNotFound, d)
  else repo_RevokeLink serverID linkID userID now d.
End invites.
