(* ===== verification/StoreInv.v ===== *)
(** * Well-formedness of the community database

    Facts about the statements of [Store] and the invariant [db_inv] of the
    tables behind accounts, servers and invitations: keys come from their
    counters, names and token hashes are unique, references resolve, link
    counters stay within their limit, and the instance has exactly one server
    whose creator is its one owner, neither deleted nor banned. Every kind of
    change the repositories make to a table keeps it. *)

From S2P Require Import Prelude GoText Tables Posts Store Accounts Members.

(** ** The invariant, table by table *)

Notation users := (gmap Z user_row).
Notation servers := (gmap Z server_row).

Record users_ok (us : users) (last : Z) : Prop := {
  uo_names : unique_by (fun u => Some (us_username u)) us;
  uo_keys : unique_by us_username_key us;
  uo_seq : ∀ i u, us !! i = Some u → (0 < i <= last)%Z;
  uo_last : (0 <= last)%Z
}.

Record sessions_ok (us : users) (ss : gmap Z session_row) (last : Z) : Prop := {
  so_tokens : unique_by (fun s => Some (ss_token_hash s)) ss;
  so_rows : ∀ i s, ss !! i = Some s →
    (0 < i <= last)%Z ∧ String.length (ss_token_hash s) = 32 ∧ is_Some (us !! ss_user_id s);
  so_last : (0 <= last)%Z
}.

Definition members_ok (us : users) (sv : servers) (ms : gmap (Z * Z) member_row) : Prop :=
  ∀ s u m, ms !! (s, u) = Some m → is_Some (sv !! s) ∧ is_Some (us !! u).

Definition bans_ok (us : users) (bs : gmap Z ban_row) : Prop :=
  ∀ u b, bs !! u = Some b → is_Some (us !! u) ∧ is_Some (us !! bn_banned_by b) ∧ bn_banned_by b ≠ u.

Definition pending_key (v : invite_row) : option (Z * Z) :=
  if decide (iv_status v = StatusPending) then Some (iv_server_id v, iv_invitee v) else None.
Record invites_ok (us : users) (sv : servers) (vs : gmap Z invite_row) (last : Z) : Prop := {
  io_pending : unique_by pending_key vs;
  io_rows : ∀ i v, vs !! i = Some v → (0 < i <= last)%Z ∧ iv_inviter v ≠ iv_invitee v ∧
    is_Some (sv !! iv_server_id v) ∧ is_Some (us !! iv_inviter v) ∧ is_Some (us !! iv_invitee v);
  io_last : (0 <= last)%Z
}.

(** Uses never exceed the limit, and a link that lets strangers register has
    one. *)
Definition uses_ok (l : link_row) : Prop :=
  (0 <= lk_use_count l)%Z ∧ (∀ m, lk_max_uses l = Some m → 0 < m ∧ lk_use_count l <= m)%Z ∧
  (lk_allow_registration l = true → is_Some (lk_max_uses l)).
Record links_ok (us : users) (sv : servers) (ls : gmap Z link_row) (last : Z) : Prop := {
  lo_tokens : unique_by (fun l => Some (lk_token_hash l)) ls;
  lo_rows : ∀ i l, ls !! i = Some l → (0 < i <= last)%Z ∧ uses_ok l ∧ String.length (lk_token_hash l) = 32 ∧
    is_Some (sv !! lk_server_id l) ∧ is_Some (us !! lk_created_by l);
  lo_last : (0 <= last)%Z
}.

Definition active_in (us : users) (bs : gmap Z ban_row) (u : Z) : Prop :=
  (∃ r, us !! u = Some r ∧ us_deleted_at r = None) ∧ bs !! u = None.

(** One server; its creator is its owner, and the only one. *)
Definition owner_ok (us : users) (bs : gmap Z ban_row) (sv : servers) (ms : gmap (Z * Z) member_row) : Prop :=
  ∃ s r, sv = {[s := r]} ∧ active_in us bs (sv_created_by r) ∧
    ∀ u, (mb_role <$> ms !! (s, u) = Some RoleOwner ↔ u = sv_created_by r).

Record db_inv (d : DB) : Prop := {
  di_users : users_ok (db_users d) (db_user_seq d);
  di_sessions : sessions_ok (db_users d) (db_sessions d) (db_session_seq d);
  di_members : members_ok (db_users d) (db_servers d) (db_members d);
  di_bans : bans_ok (db_users d) (db_bans d);
  di_invites : invites_ok (db_users d) (db_servers d) (db_invites d) (db_invite_seq d);
  di_links : links_ok (db_users d) (db_servers d) (db_links d) (db_link_seq d);
  di_owner : owner_ok (db_users d) (db_bans d) (db_servers d) (db_members d);
  di_server_seq : ∀ s, is_Some (db_servers d !! s) → (0 < s <= db_server_seq d)%Z
}.

Lemma active_user_spec d u : active_user d u = true ↔ active_in (db_users d) (db_bans d) u.
Proof.
  unfold active_user, active_in, has_key. destruct (db_users d !! u) as [r|]; [|naive_solver].
  rewrite andb_true_iff, negb_true_iff, bool_decide_eq_true, bool_decide_eq_false, <- eq_None_not_Some.
  naive_solver.
Qed.

(** ** Changes to the users *)

(** Users are never removed; each keeps the ones before it. *)
Definition grows {V} (m m' : gmap Z V) : Prop := ∀ k, is_Some (m !! k) → is_Some (m' !! k).

Lemma grows_refl {V} (m : gmap Z V) : grows m m.
Proof. by intros k. Qed.
Lemma grows_insert {V} (m : gmap Z V) i x : grows m (<[i := x]> m).
Proof. intros k Hk. rewrite lookup_insert. case_decide; eauto. Qed.
Lemma grows_alter {V} (m : gmap Z V) i f : grows m (alter f i m).
Proof. intros k Hk. rewrite lookup_alter. case_decide as E; [subst; by rewrite fmap_is_Some|done]. Qed.
#[export] Hint Resolve grows_refl grows_insert grows_alter : voxhold.

Lemma sessions_ok_grow us us' ss q : grows us us' → sessions_ok us ss q → sessions_ok us' ss q.
Proof. intros Hg [Ht Hr ?]. split; [done| |done]. intros i s Hi. destruct (Hr i s Hi) as (?&?&?). eauto. Qed.
Lemma members_ok_grow us us' sv sv' ms :
  grows us us' → grows sv sv' → members_ok us sv ms → members_ok us' sv' ms.
Proof. intros Hg Hg' Hm s u m Hs. destruct (Hm s u m Hs). eauto. Qed.
Lemma bans_ok_grow us us' bs : grows us us' → bans_ok us bs → bans_ok us' bs.
Proof. intros Hg Hb u b Hu. destruct (Hb u b Hu) as (?&?&?). eauto. Qed.
Lemma invites_ok_grow us us' sv sv' vs q :
  grows us us' → grows sv sv' → invites_ok us sv vs q → invites_ok us' sv' vs q.
Proof. intros Hg Hg' [Hp Hr ?]. split; [done| |done]. intros i v Hi. destruct (Hr i v Hi) as (?&?&?&?&?). eauto 10. Qed.
Lemma links_ok_grow us us' sv sv' ls q :
  grows us us' → grows sv sv' → links_ok us sv ls q → links_ok us' sv' ls q.
Proof. intros Hg Hg' [Hp Hr ?]. split; [done| |done]. intros i v Hi. destruct (Hr i v Hi) as (?&?&?&?&?). eauto 10. Qed.
#[export] Hint Resolve sessions_ok_grow members_ok_grow bans_ok_grow invites_ok_grow links_ok_grow : voxhold.

(** The tables the invariant reads. *)
Definition same_core (d d' : DB) : Prop :=
  db_users d' = db_users d ∧ db_sessions d' = db_sessions d ∧ db_servers d' = db_servers d ∧
  db_members d' = db_members d ∧ db_bans d' = db_bans d ∧ db_invites d' = db_invites d ∧
  db_links d' = db_links d ∧ db_user_seq d' = db_user_seq d ∧ db_session_seq d' = db_session_seq d ∧
  db_server_seq d' = db_server_seq d ∧ db_invite_seq d' = db_invite_seq d ∧ db_link_seq d' = db_link_seq d.

#[export] Instance same_core_equiv : Equivalence same_core.
Proof. split; unfold same_core; [by intros d|intros d d' ?; naive_solver|]. intros d1 d2 d3 ??. destruct_and!. split_and!; congruence. Qed.

Lemma db_inv_core d d' : same_core d d' → db_inv d → db_inv d'.
Proof.
  intros (Eu&Es&Esv&Em&Eb&Ei&El&Q1&Q2&Q3&Q4&Q5) [].
  split; rewrite ?Eu, ?Es, ?Esv, ?Em, ?Eb, ?Ei, ?El, ?Q1, ?Q2, ?Q3, ?Q4, ?Q5; assumption.
Qed.
#[export] Instance db_inv_proper : Proper (same_core ==> iff) db_inv.
Proof. intros d d' Hc. split; apply db_inv_core; [done|by symmetry]. Qed.

(** ** Changes to one table *)

Section users.
Implicit Types (us : users).

Lemma users_ok_sub us us' q :
  users_ok us q →
  (∀ i y, us' !! i = Some y → ∃ x, us !! i = Some x ∧ us_username y = us_username x ∧
     (us_username_key y = us_username_key x ∨ us_username_key y = None)) → users_ok us' q.
Proof.
  intros [Hn Hk Hs ?] Hsub. split; [| | |done].
  - eapply unique_by_sub; [exact Hn|]. intros i y Hi. destruct (Hsub i y Hi) as (x&?&E&_).
    exists x. rewrite E. eauto.
  - eapply unique_by_sub; [exact Hk|]. intros i y Hi. destruct (Hsub i y Hi) as (x&?&_&?). eauto.
  - intros i y Hi. destruct (Hsub i y Hi) as (x&?&_). eauto.
Qed.

Lemma users_ok_alter us q u f :
  (∀ r, us_username (f r) = us_username r ∧ us_username_key (f r) = us_username_key r) →
  users_ok us q → users_ok (alter f u us) q.
Proof.
  intros Hf Hus. eapply users_ok_sub; [done|]. intros i y Hi. rewrite lookup_alter in Hi.
  case_decide as E; [|exists y; split_and!; [done..|by left]]. subst. apply fmap_Some in Hi as (x&Hx&->). exists x.
  destruct (Hf x). split_and!; [done..|by left].
Qed.

Lemma active_alter us bs u f v :
  (∀ r, us_deleted_at (f r) = us_deleted_at r) → active_in us bs v → active_in (alter f u us) bs v.
Proof.
  intros Hf [(r&Hr&Hd) Hb]. split; [|done]. rewrite lookup_alter. case_decide as E; [|eauto].
  subst. rewrite Hr. exists (f r). by rewrite Hf.
Qed.
Lemma active_insert_new us bs u r v : us !! u = None → active_in us bs v → active_in (<[u := r]> us) bs v.
Proof.
  intros Hu [(r'&Hr'&Hd) Hb]. split; [|done]. rewrite lookup_insert_ne by congruence. eauto.
Qed.

Lemma users_ok_fresh us q : users_ok us q → us !! (q + 1)%Z = None.
Proof. intros [_ _ Hs _]. destruct (us !! (q + 1)%Z) eqn:E; [|done]. apply Hs in E. lia. Qed.

(** *** [insert_user] *)
Lemma insert_user_spec name key hash now d id d' :
  insert_user name key hash now d = inr (id, d') → users_ok (db_users d) (db_user_seq d) →
  id = (db_user_seq d + 1)%Z ∧ db_users d !! id = None ∧
  d' = d <| db_users ::= <[id := mkUser name (Some key) hash now None]> |> <| db_user_seq := id |> ∧
  users_ok (<[id := mkUser name (Some key) hash now None]> (db_users d)) id ∧
  ∀ i u, db_users d !! i = Some u → us_username u ≠ name ∧ us_username_key u ≠ Some key.
Proof.
  unfold insert_user. intros Hins Hus. case_match; [done|].
  destruct (row_exists _ _) eqn:Hn; [done|]. destruct (row_exists (fun _ u => bool_decide _) _) eqn:Hk; [done|].
  injection Hins as <- <-. simpl. split_and!; [done|by apply users_ok_fresh|done| |].
  2:{ intros i u Hi. apply (row_exists_false _ _ i u) in Hn, Hk; [|done..].
      rewrite String.eqb_neq in Hn. by rewrite bool_decide_eq_false in Hk. }
  destruct Hus as [Un Uk Us Ul]. split; [| | |lia].
  - apply unique_by_insert; [done|]. intros j y a Hj _ [= <-] [= Hy]. simpl in *.
    apply (row_exists_false _ _ j y) in Hn; [|done]. by rewrite String.eqb_neq in Hn.
  - apply unique_by_insert; [done|]. intros j y a Hj _ [= <-] Hy. simpl in *.
    apply (row_exists_false _ _ j y) in Hk; [|done]. by rewrite bool_decide_eq_false in Hk.
  - intros i u. rewrite lookup_insert_Some. intros [[<- <-]|[_ Hi%Us]]; lia.
Qed.
End users.

Section sessions.
Implicit Types (ss : gmap Z session_row).

Lemma sessions_ok_sub us ss ss' q :
  sessions_ok us ss q →
  (∀ i y, ss' !! i = Some y → ∃ x, ss !! i = Some x ∧ ss_token_hash y = ss_token_hash x ∧
     ss_user_id y = ss_user_id x) → sessions_ok us ss' q.
Proof.
  intros [Ht Hr ?] Hsub. split; [| |done].
  - eapply unique_by_sub; [exact Ht|]. intros i y Hi. destruct (Hsub i y Hi) as (x&?&->&_). eauto.
  - intros i y Hi. destruct (Hsub i y Hi) as (x&Hx&->&->). eauto.
Qed.
Lemma sessions_ok_delete us ss q P : sessions_ok us ss q → sessions_ok us (delete_where P ss) q.
Proof. intros Hs. eapply sessions_ok_sub; [done|]. intros i y [? _]%delete_where_Some. eauto. Qed.

Lemma insert_session_spec u hash exp agent ip now d id d' :
  insert_session u hash exp agent ip now d = inr (id, d') →
  sessions_ok (db_users d) (db_sessions d) (db_session_seq d) →
  is_Some (db_users d !! u) ∧ id = (db_session_seq d + 1)%Z ∧
  d' = d <| db_sessions ::= <[id := mkSessionRow u hash exp now None agent ip]> |> <| db_session_seq := id |> ∧
  (∀ i s, db_sessions d !! i = Some s → ss_token_hash s ≠ hash) ∧
  sessions_ok (db_users d) (<[id := mkSessionRow u hash exp now None agent ip]> (db_sessions d)) id.
Proof.
  unfold insert_session. intros Hins [Ut Ur Ul].
  destruct (String.length hash =? 32) eqn:Hlen; [|done]. apply Nat.eqb_eq in Hlen. simpl in Hins.
  destruct (row_exists _ _) eqn:He; [done|]. destruct (has_key _ _) eqn:Hu; [|done].
  apply has_key_spec in Hu. injection Hins as <- <-.
  assert (∀ i s, db_sessions d !! i = Some s → ss_token_hash s ≠ hash) as Hnew.
  { intros i s Hi. apply (row_exists_false _ _ i s) in He; [|done]. by apply String.eqb_neq. }
  split_and!; [done..|]. split; [| |lia].
  - apply unique_by_insert; [done|]. intros j y a Hj _ [= <-] [= Hy]. by apply (Hnew j y).
  - intros i s. rewrite lookup_insert_Some. intros [[<- <-]|[_ Hi]]; [simpl; split_and!; [lia..|done]|].
    destruct (Ur i s Hi) as (?&?&?). split_and!; [lia..|done].
Qed.
End sessions.

Section members.
Implicit Types (ms : gmap (Z * Z) member_row).

Lemma members_ok_sub us sv ms ms' :
  members_ok us sv ms → (∀ k y, ms' !! k = Some y → is_Some (ms !! k)) → members_ok us sv ms'.
Proof. intros Hm Hsub s u m Hk. destruct (Hsub _ _ Hk) as [x Hx]. eauto. Qed.

(** Membership changes that keep who is the owner. *)
Lemma owner_ok_members us bs sv ms ms' :
  owner_ok us bs sv ms →
  (∀ s u r, sv !! s = Some r →
     mb_role <$> ms' !! (s, u) = Some RoleOwner ↔ mb_role <$> ms !! (s, u) = Some RoleOwner) →
  owner_ok us bs sv ms'.
Proof.
  intros (s&r&->&Ha&Hr) Hiff. exists s, r. split_and!; [done..|]. intros u.
  rewrite (Hiff s u r); [apply Hr|apply lookup_singleton_eq].
Qed.

(** The owner of the server is its creator. *)
Lemma owner_is_creator us bs sv ms s r u :
  owner_ok us bs sv ms → sv !! s = Some r →
  mb_role <$> ms !! (s, u) = Some RoleOwner ↔ u = sv_created_by r.
Proof. intros (s'&r'&->&_&Hr) [<- <-]%lookup_singleton_Some. apply Hr. Qed.

Lemma insert_member_spec s u role now d a d' :
  insert_member s u role now d = inr (a, d') →
  a = now ∧ db_members d !! (s, u) = None ∧ is_Some (db_servers d !! s) ∧ is_Some (db_users d !! u) ∧
  d' = d <| db_members ::= <[(s, u) := mkMember role now None]> |>.
Proof.
  unfold insert_member. case_bool_decide as Hm; [done|]. destruct (has_key _ s) eqn:Hs; [|done].
  destruct (has_key _ u) eqn:Hu; [|done]. simpl. intros [= <- <-]. apply has_key_spec in Hs. apply has_key_spec in Hu.
  by rewrite <- eq_None_not_Some in Hm.
Qed.
End members.

Section invitations.
Lemma invites_ok_sub us sv (vs vs' : gmap Z invite_row) q :
  invites_ok us sv vs q →
  (∀ i y, vs' !! i = Some y → ∃ x, vs !! i = Some x ∧ iv_server_id y = iv_server_id x ∧
     iv_inviter y = iv_inviter x ∧ iv_invitee y = iv_invitee x ∧
     (iv_status y = iv_status x ∨ iv_status y ≠ StatusPending)) → invites_ok us sv vs' q.
Proof.
  intros [Hp Hr ?] Hsub. split; [| |done].
  - eapply unique_by_sub; [exact Hp|]. intros i y Hi. destruct (Hsub i y Hi) as (x&?&Es&_&Ei&Hst).
    exists x. split; [done|]. unfold pending_key. rewrite Es, Ei. destruct Hst as [->|Hst]; [by left|].
    right. by rewrite decide_False.
  - intros i y Hi. destruct (Hsub i y Hi) as (x&Hx&->&->&->&_). eauto.
Qed.

Lemma insert_invite_spec s inviter invitee exp now d id d' :
  insert_invite s inviter invitee exp now d = inr (id, d') →
  invites_ok (db_users d) (db_servers d) (db_invites d) (db_invite_seq d) →
  id = (db_invite_seq d + 1)%Z ∧
  d' = d <| db_invites ::= <[id := mkInvite s inviter invitee StatusPending exp None now]> |>
         <| db_invite_seq := id |> ∧
  invites_ok (db_users d) (db_servers d)
    (<[id := mkInvite s inviter invitee StatusPending exp None now]> (db_invites d)) id.
Proof.
  unfold insert_invite. intros Hins [Up Ur Ul]. destruct (inviter =? invitee)%Z eqn:Hne; [done|].
  apply Z.eqb_neq in Hne. destruct (row_exists _ _) eqn:He; [done|].
  destruct (has_key _ s) eqn:Hs; [|done]. destruct (has_key _ inviter) eqn:Hi; [|done].
  destruct (has_key _ invitee) eqn:Hj; [|done]. apply has_key_spec in Hs. apply has_key_spec in Hi. apply has_key_spec in Hj. simpl in Hins.
  injection Hins as <- <-. split_and!; [done..|]. split; [| |lia].
  - apply unique_by_insert; [done|]. intros j y a Hj' _ [= <-] Hy.
    apply (row_exists_false _ _ j y) in He; [|done]. unfold pending_key, pending_for in *.
    case_decide as Hst; [|done]. injection Hy as Es Ei. rewrite Es, Ei, !Z.eqb_refl in He. simpl in He.
    by rewrite bool_decide_eq_false in He.
  - intros i v. rewrite lookup_insert_Some. intros [[<- <-]|[_ Hv]]; [simpl; split_and!; [lia..|done|done|done]|].
    destruct (Ur i v Hv) as (?&?). split; [lia|done].
Qed.

Lemma links_ok_sub us sv (ls ls' : gmap Z link_row) q :
  links_ok us sv ls q →
  (∀ i y, ls' !! i = Some y → ∃ x, ls !! i = Some x ∧ lk_server_id y = lk_server_id x ∧
     lk_created_by y = lk_created_by x ∧ lk_token_hash y = lk_token_hash x ∧ uses_ok y) →
  links_ok us sv ls' q.
Proof.
  intros [Ht Hr ?] Hsub. split; [| |done].
  - eapply unique_by_sub; [exact Ht|]. intros i y Hi. destruct (Hsub i y Hi) as (x&?&_&_&->&_). eauto.
  - intros i y Hi. destruct (Hsub i y Hi) as (x&Hx&->&->&->&Hu). destruct (Hr i x Hx) as (?&_&?&?&?). eauto 10.
Qed.
Lemma links_ok_delete us sv ls q P : links_ok us sv ls q → links_ok us sv (delete_where P ls) q.
Proof.
  intros Hl. eapply links_ok_sub; [done|]. intros i y [Hi _]%delete_where_Some.
  exists y. destruct (lo_rows _ _ _ _ Hl i y Hi) as (_&?&_). eauto 10.
Qed.

Lemma insert_link_spec s u hash exp mu reg now d id d' :
  insert_link s u hash exp mu reg now d = inr (id, d') → (reg = true → is_Some mu) →
  links_ok (db_users d) (db_servers d) (db_links d) (db_link_seq d) →
  id = (db_link_seq d + 1)%Z ∧
  d' = d <| db_links ::= <[id := mkLink s u hash exp mu 0 None now reg]> |> <| db_link_seq := id |> ∧
  links_ok (db_users d) (db_servers d) (<[id := mkLink s u hash exp mu 0 None now reg]> (db_links d)) id.
Proof.
  unfold insert_link. intros Hins Hreg [Ut Ur Ul].
  destruct (String.length hash =? 32) eqn:Hlen; [|done]. apply Nat.eqb_eq in Hlen. simpl in Hins.
  destruct (match mu with Some m => (0 <? m)%Z | None => true end) eqn:Hmu; [|done]. simpl in Hins.
  destruct (row_exists _ _) eqn:He; [done|].
  destruct (has_key _ s) eqn:Hs; [|done]. destruct (has_key _ u) eqn:Hi; [|done].
  apply has_key_spec in Hs. apply has_key_spec in Hi. simpl in Hins. injection Hins as <- <-. split_and!; [done..|].
  split; [| |lia].
  - apply unique_by_insert; [done|]. intros j y a Hj' _ [= <-] [= Hy]. simpl in Hy.
    apply (row_exists_false _ _ j y) in He; [|done]. by apply String.eqb_neq in He.
  - intros i v. rewrite lookup_insert_Some. intros [[<- <-]|[_ Hv]].
    + simpl. split_and!; [lia..| |done|done|done]. split_and!; simpl; [lia| |done].
      intros m ->. apply Z.ltb_lt in Hmu. lia.
    + destruct (Ur i v Hv) as (?&?). split; [lia|done].
Qed.
End invitations.

(** ** Runs of transactions *)

Section runs.
Context {E : Type}.

Lemma tx_bind_inr {A B} (t : Tx E A) (f : A → Tx E B) d b d' :
  (t ≫= f) d = inr (b, d') → ∃ a d1, t d = inr (a, d1) ∧ f a d1 = inr (b, d').
Proof. unfold mbind, Tx_bind. destruct (t d) as [|[a d1]]; [done|]. eauto. Qed.
Lemma returning_inr {A} (f : DB → A * DB) d x : returning (E := E) f d = inr x → f d = x.
Proof. unfold returning. generalize (f d). by intros p [= ->]. Qed.
Lemma query_inr {A} (f : DB → A) d a d' : query (E := E) f d = inr (a, d') → a = f d ∧ d' = d.
Proof. unfold query. by intros [= -> ->]. Qed.
Lemma exec_inr (f : DB → DB) d a d' : exec (E := E) f d = inr (a, d') → d' = f d.
Proof. unfold exec. by intros [= _ ->]. Qed.
Lemma ret_inr {A} (x : A) d a d' : (mret x : Tx E A) d = inr (a, d') → a = x ∧ d' = d.
Proof. unfold mret, Tx_ret. by intros [= -> ->]. Qed.
Lemma require_inr b (e : E) d a d' : require b e d = inr (a, d') → b = true ∧ d' = d.
Proof. unfold require. destruct b; [|done]. by intros [= _ <-]. Qed.
Lemma row_inr {A} (e : E) (f : DB → option A) d x : row e f d = inr x → f d = Some x.1 ∧ x.2 = d.
Proof. unfold row. destruct (f d); [|done]. by intros [= <-]. Qed.
Lemma insert_row_inr {A} (on : Constraint → E) (f : DB → Constraint + (A * DB)) d x :
  insert_row on f d = inr x → f d = inr x.
Proof. unfold insert_row. destruct (f d); [done|]. by intros [= <-]. Qed.

Lemma atomically_keeps {A} (P : DB → Prop) (t : Tx E A) d :
  P d → (∀ a d', t d = inr (a, d') → P d') → P (atomically t d).2.
Proof. intros Hd Ht. unfold atomically. destruct (t d) as [|[a d']] eqn:Hr; eauto. Qed.
Lemma atomically_or_keeps {A} (P : DB → Prop) (t : Tx E (E + A)) d :
  P d → (∀ a d', t d = inr (a, d') → P d') → P (atomically_or t d).2.
Proof. intros Hd Ht. unfold atomically_or. destruct (t d) as [|[a d']] eqn:Hr; eauto. Qed.
Lemma atomically_inr {A} (t : Tx E A) d a d' : atomically t d = (inr a, d') → t d = inr (a, d').
Proof. unfold atomically. destruct (t d) as [|[??]]; [done|]. by intros [= <- <-]. Qed.
Lemma atomically_inl {A} (t : Tx E A) d e d' : atomically t d = (inl e, d') → d' = d.
Proof. unfold atomically. destruct (t d) as [|[??]]; [|done]. by intros [= _ <-]. Qed.
Lemma atomically_or_inr {A} (t : Tx E (E + A)) d a d' :
  atomically_or t d = (inr a, d') → t d = inr (inr a, d').
Proof. unfold atomically_or. destruct (t d) as [|[??]]; [done|]. by intros [= -> <-]. Qed.
Lemma atomically_or_inl {A} (t : Tx E (E + A)) d e d' :
  atomically_or t d = (inl e, d') → d' = d ∨ t d = inr (inl e, d').
Proof. unfold atomically_or. destruct (t d) as [|[??]]; intros [= -> <-]; eauto. Qed.
End runs.

(** Follow a run of a transaction that did not fail. *)
Ltac tx_step :=
  match goal with
  | H : mbind _ _ _ = inr _ |- _ =>
      let x := fresh "x" in let d := fresh "d" in let H' := fresh "Hrun" in
      apply tx_bind_inr in H as (x & d & H' & H); cbv beta zeta in H
  | H : query _ _ = inr (_, _) |- _ => apply query_inr in H as [? ?]; subst
  | H : exec _ _ = inr (_, _) |- _ => apply exec_inr in H; subst
  | H : returning _ _ = inr _ |- _ => apply returning_inr in H
  | H : mret _ _ = inr (_, _) |- _ => apply ret_inr in H as [? ?]; subst
  | H : fail _ _ = inr _ |- _ => discriminate H
  | H : require _ _ _ = inr (_, _) |- _ =>
      let Hb := fresh "Hreq" in apply require_inr in H as [Hb H]; subst
  | H : row _ _ _ = inr (_, _) |- _ =>
      let Hb := fresh "Hrow" in apply row_inr in H as [Hb H]; simpl in Hb, H; subst
  | H : insert_row _ _ _ = inr _ |- _ => apply insert_row_inr in H
  | H : (if decide ?P then _ else _) _ = inr _ |- _ =>
      let Hd := fresh "Hd" in destruct (decide P) as [Hd|Hd]
  | H : (if ?b then _ else _) _ = inr _ |- _ => destruct b eqn:?
  | H : (match ?b with _ => _ end) _ = inr _ |- _ => destruct b eqn:?
  | H : inl _ = inr _ |- _ => discriminate H
  end.
Ltac tx_run := repeat tx_step.
