(* ===== verification/StoreKeep.v ===== *)
(** * Every repository call keeps the database well formed

    One lemma per writing operation of [Accounts], [Members] and [Invites]. *)

From S2P Require Import Prelude GoText Tables Posts Store Accounts Members Invites StoreInv.

(** Open the invariant and keep what the step did not touch. *)
Ltac keep Hi := destruct Hi; split; simpl; try assumption; eauto with voxhold.

Lemma users_grow_step d us q :
  db_inv d → users_ok us q → grows (db_users d) us →
  (∀ u, active_in (db_users d) (db_bans d) u → (∃ s r, db_servers d !! s = Some r ∧ sv_created_by r = u) →
     active_in us (db_bans d) u) →
  db_inv (d <| db_users := us |> <| db_user_seq := q |>).
Proof.
  intros Hi Hus Hg Ha. keep Hi. destruct di_owner as (s&r&Hsv&Hact&Hr). exists s, r. split_and!; [done| |done].
  apply Ha; [done|]. exists s, r. by rewrite Hsv, lookup_singleton_eq.
Qed.

Section accounts.
Context `{MapOrder, Platform}.

Lemma sessions_inv d ss q :
  db_inv d → sessions_ok (db_users d) ss q → db_inv (d <| db_sessions := ss |> <| db_session_seq := q |>).
Proof. intros Hi Hs. keep Hi. Qed.
Lemma delete_sessions_inv d P : db_inv d → db_inv (d <| db_sessions ::= delete_where P |>).
Proof. intros Hi. keep Hi. by apply sessions_ok_delete. Qed.

Lemma DeleteExpired_inv now limit d : db_inv d → db_inv (DeleteExpired now limit d).2.
Proof. intros Hi. unfold DeleteExpired. case_match; simpl; [done|]. by apply delete_sessions_inv. Qed.

Lemma insert_session_inv u hash exp agent ip now d id d' :
  db_inv d → insert_session u hash exp agent ip now d = inr (id, d') → db_inv d'.
Proof.
  intros Hi Hins. apply insert_session_spec in Hins as (_&_&->&_&Hs); [|apply Hi].
  by apply sessions_inv.
Qed.

Lemma session_Create_inv u hash exp meta now d : db_inv d → db_inv (session_Create u hash exp meta now d).2.
Proof.
  intros Hi. apply (atomically_keeps db_inv); [done|]. intros [] d' Hr. tx_run. by eapply insert_session_inv.
Qed.

Lemma live_session_row hash now d id s :
  find_row (live_session hash now d) (db_sessions d) = Some (id, s) →
  db_sessions d !! id = Some s ∧ ss_token_hash s = hash ∧ (now < ss_expires_at s)%Z ∧
  active_in (db_users d) (db_bans d) (ss_user_id s).
Proof.
  intros [Hs Hl]%find_row_Some. unfold live_session, by_token in Hl.
  rewrite !andb_true_iff, String.eqb_eq, Z.ltb_lt, active_user_spec in Hl. naive_solver.
Qed.

Lemma Rotate_inv old new exp now d : db_inv d → db_inv (Rotate old new exp now d).2.
Proof.
  intros Hi. unfold Rotate. destruct (find_row _ _) as [[id s]|] eqn:Hf; [|done].
  apply live_session_row in Hf as (Hs&_&_&_). destruct (String.length new =? 32) eqn:Hl; [|done].
  apply Nat.eqb_eq in Hl. simpl. destruct (row_exists _ _) eqn:He; [done|]. simpl. keep Hi.
  destruct di_sessions as [Ht Hr ?]. split; [| |done].
  - apply unique_by_insert; [done|]. intros j y a Hj Hne [= <-] [= Hy]. simpl in Hy.
    apply (row_exists_false _ _ j y) in He; [|done]. unfold by_token in He.
    rewrite Hy, String.eqb_refl in He. simpl in He. apply negb_false_iff, Z.eqb_eq in He. done.
  - intros i y. rewrite lookup_insert_Some. intros [[<- <-]|[_ Hy]]; [|eauto].
    destruct (Hr _ _ Hs) as (?&_&?). by simpl.
Qed.

Lemma touch_inv hash now d :
  db_inv d → db_inv (d <| db_sessions ::= update_where
      (fun id v => by_token hash id v && stale now (ss_last_used_at v))
      (fun v => v <| ss_last_used_at := Some now |>) |>).
Proof.
  intros Hi. keep Hi. eapply sessions_ok_sub; [done|]. intros i y (w&Hw&->)%update_where_Some.
  exists w. by destruct (_ && _).
Qed.

Lemma DeleteByID_inv u id d : db_inv d → db_inv (DeleteByID u id d).2.
Proof.
  intros Hi. unfold DeleteByID. repeat case_match; simpl; try done. keep Hi.
  eapply sessions_ok_sub; [done|]. intros i y [_ Hy]%lookup_delete_Some. eauto.
Qed.

Lemma delete_others_inv u keep d : db_inv d → db_inv (delete_others u keep d).2.
Proof. intros Hi. by apply delete_sessions_inv. Qed.

(** A change of one user's row that keeps its name, key and deletion mark. *)
Lemma alter_user_inv d u f :
  db_inv d →
  (∀ r, us_username (f r) = us_username r ∧ us_username_key (f r) = us_username_key r ∧
        us_deleted_at (f r) = us_deleted_at r) →
  db_inv (d <| db_users ::= alter f u |>).
Proof.
  intros Hi Hf. apply (users_grow_step d _ (db_user_seq d)); [done| |apply grows_alter|].
  - apply users_ok_alter; [intros r; destruct (Hf r) as (?&?&?); done|apply Hi].
  - intros v Hv _. apply active_alter; [apply Hf|done].
Qed.

Lemma ReplacePassword_inv u old new keep d :
  db_inv d → db_inv (ReplacePasswordAndRevokeOthers u old new keep d).2.
Proof.
  intros Hi. apply (atomically_keeps db_inv); [done|]. intros hs d' Hr. tx_run.
  apply (f_equal snd) in Hr. simpl in Hr. subst d'.
  apply (delete_others_inv u keep), alter_user_inv; [done|]. by intros r.
Qed.

Lemma UpdatePasswordHash_inv u h d : db_inv d → db_inv (UpdatePasswordHash u h d).
Proof. intros Hi. apply alter_user_inv; [done|]. intros r. by case_decide. Qed.

Lemma insert_user_inv name key hash now d id d' :
  db_inv d → insert_user name key hash now d = inr (id, d') → db_inv d'.
Proof.
  intros Hi Hins. apply insert_user_spec in Hins as (_&Hnone&->&Hus&_); [|apply Hi].
  apply users_grow_step; [done..|apply grows_insert|]. intros v Hv _. by apply active_insert_new.
Qed.

Lemma user_Create_inv name hash now d : db_inv d → db_inv (user_Create name hash now d).2.
Proof. intros Hi. apply (atomically_keeps db_inv); [done|]. intros a d' Hr. tx_run. by eapply insert_user_inv. Qed.

(** A new plain member of the instance. *)
Lemma insert_member_inv s u role now d a d' :
  db_inv d → role ≠ RoleOwner → insert_member s u role now d = inr (a, d') → db_inv d'.
Proof.
  intros Hi Hrole Hins. apply insert_member_spec in Hins as (_&Hnone&Hs&Hu&->). keep Hi.
  - intros s' u' m. rewrite lookup_insert_Some. intros [[[= <- <-] _]|[_ Hm]]; eauto.
  - eapply owner_ok_members; [done|]. intros s' u' r' _. rewrite lookup_insert. case_decide as E; [|done].
    injection E as <- <-. rewrite Hnone. simpl. split; congruence.
Qed.
Lemma insert_member_or_nothing_inv s u role now d a d' :
  db_inv d → role ≠ RoleOwner → insert_member_or_nothing s u role now d = inr (a, d') → db_inv d'.
Proof.
  intros Hi Hrole. unfold insert_member_or_nothing. case_bool_decide; [by intros [= _ <-]|].
  destruct (insert_member _ _ _ _ _) as [|[b d1]] eqn:Hins; [done|]. intros [= _ <-].
  by eapply insert_member_inv.
Qed.

(** One more use of a link that has one left. *)
Lemma use_link_inv d id l :
  db_inv d → db_links d !! id = Some l → (∀ m, lk_max_uses l = Some m → lk_use_count l < m)%Z →
  db_inv (d <| db_links ::= <[id := l <| lk_use_count ::= Z.succ |>]> |>).
Proof.
  intros Hi Hl Hm. keep Hi. eapply links_ok_sub; [done|]. intros i y Hy.
  rewrite lookup_insert_Some in Hy. destruct (lo_rows _ _ _ _ di_links id l Hl) as (_&(Hu0&Hu1&Hu2)&_).
  destruct Hy as [[<- <-]|[_ Hy]].
  - exists l. simpl. split_and!; [done..|]. split_and!; simpl; [lia| |done].
    intros m Hmax. specialize (Hm m Hmax). specialize (Hu1 m Hmax). lia.
  - exists y. destruct (lo_rows _ _ _ _ di_links i y Hy) as (_&?&_). eauto 10.
Qed.

Lemma RegisterWithInvite_inv name hash ih sh exp n1 n2 n3 n4 d :
  db_inv d → db_inv (RegisterWithInvite name hash ih sh exp n1 n2 n3 n4 d).2.
Proof.
  intros Hi. apply (atomically_keeps db_inv); [done|]. intros a d' Hr.
  tx_step. unfold consume_link in Hrun. destruct (find_row _ _) as [[id l]|] eqn:Hf; [|done].
  injection Hrun as <- <-. apply find_row_Some in Hf as [Hl Hreg].
  tx_run. eapply insert_session_inv; [|done]. eapply (insert_member_inv _ _ RoleMember); [|done..].
  eapply insert_user_inv; [|done]. apply use_link_inv; [done..|]. intros m Hm.
  unfold registration_link in Hreg. rewrite Hm, !andb_true_iff in Hreg. destruct Hreg as [_ Hlt].
  by apply Z.ltb_lt.
Qed.

Lemma set_username_key_inv p d : db_inv d → db_inv (set_username_key p d).
Proof.
  intros Hi. unfold set_username_key. destruct (db_users d !! p.1) as [u|] eqn:Hu; [|done].
  destruct (bool_decide _ && _) eqn:Hg; [|done]. apply andb_true_iff in Hg as [_ Hg].
  apply negb_true_iff in Hg. set (u' := u <| us_username_key := _ |>).
  refine (users_grow_step d (<[p.1 := u']> (db_users d)) (db_user_seq d) Hi _ (grows_insert _ _ _) _).
  - destruct (di_users _ Hi) as [Un Uk Us Ul]. split; [| | |done].
    + eapply unique_by_sub; [exact Un|]. intros i y. rewrite lookup_insert_Some.
      intros [[<- <-]|[_ Hy]]; eauto.
    + apply unique_by_insert; [done|]. intros j y a Hj Hne [= <-] Hy.
      apply (row_exists_false _ _ j y) in Hg; [|done]. simpl in Hg.
      rewrite bool_decide_true in Hg by exact Hy. by apply negb_false_iff, Z.eqb_eq in Hg.
    + intros i y. rewrite lookup_insert_Some. intros [[<- _]|[_ Hy]]; eauto.
  - intros v [(r&Hr&Hd) Hb] _. split; [|done]. rewrite lookup_insert. case_decide as E; [|eauto].
    subst. eexists. split; [done|]. simpl. congruence.
Qed.

Lemma Backfill_inv d : db_inv d → db_inv (BackfillUsernameKeys d).
Proof.
  unfold BackfillUsernameKeys. generalize (fmap (M := list) (fun e : Z * user_row => (e.1, us_username e.2))
    (filter (fun e => us_username_key e.2 = None) (range_entries (db_users d)))). intros todo.
  revert d. induction todo as [|p todo IH]; intros d Hi; simpl; [done|].
  by apply IH, set_username_key_inv.
Qed.

Lemma ResetPassword_inv name hash d : db_inv d → db_inv (ResetPassword name hash d).2.
Proof.
  intros Hi. unfold ResetPassword. destruct (find_row _ _) as [[u r]|]; [|done]. simpl.
  apply (delete_sessions_inv (d <| db_users ::= alter _ u |>)), alter_user_inv; [done|]. by intros r'.
Qed.
End accounts.

Section members.
Context `{MapOrder, Platform}.

Definition not_creator (d : DB) (u : Z) : Prop :=
  ∀ s r, db_servers d !! s = Some r → sv_created_by r ≠ u.

Lemma servers_taken d : db_inv d → row_exists (fun _ _ => true) (db_servers d) = true.
Proof.
  intros Hi. destruct (di_owner _ Hi) as (s&r&Hsv&_). apply row_exists_true. exists s, r.
  by rewrite Hsv, lookup_singleton_eq.
Qed.
Lemma one_server d : db_inv d → size (db_servers d) = 1.
Proof. intros Hi. destruct (di_owner _ Hi) as (s&r&->&_). apply map_size_singleton. Qed.

(** A member that is not the owner did not create the server. *)
Lemma plain_member_not_creator d s u m :
  db_inv d → db_members d !! (s, u) = Some m → mb_role m ≠ RoleOwner → not_creator d u.
Proof.
  intros Hi Hm Hrole s' r Hs' Hc. destruct (di_members _ Hi s u m Hm) as [[r0 Hs] _].
  assert (s' = s) as ->.
  { destruct (di_owner _ Hi) as (s0&r1&Hsv&_). rewrite Hsv in Hs, Hs'.
    apply lookup_singleton_Some in Hs as [-> _], Hs' as [-> _]. done. }
  apply Hrole. apply (owner_is_creator _ _ _ _ _ _ u (di_owner _ Hi)) in Hs' as [_ Ho].
  specialize (Ho (eq_sym Hc)). rewrite Hm in Ho. by injection Ho.
Qed.

Lemma not_creator_core d d' u : db_servers d' = db_servers d → not_creator d u → not_creator d' u.
Proof. unfold not_creator. by intros ->. Qed.

(** The one server exists already, so creating another fails and the last one
    is never deleted. *)
Lemma server_Create_noop name u n1 n2 d :
  db_inv d → server_Create name u n1 n2 d = (inl ErrAlreadyExists, d).
Proof.
  intros Hi. unfold server_Create, atomically, query, mbind, Tx_bind, require.
  by rewrite (servers_taken d Hi).
Qed.
Lemma server_Delete_noop s u now d : db_inv d → (server_Delete id s u now d).2 = d.
Proof.
  intros Hi. unfold server_Delete. rewrite (one_server d Hi), andb_false_r. simpl. by case_match.
Qed.

Lemma server_Update_inv s u name d : db_inv d → db_inv (server_Update s u name d).2.
Proof.
  intros Hi. unfold server_Update. destruct (db_servers d !! s) as [r|] eqn:Hs; [|done].
  repeat case_match; simpl; try done.
  assert (grows (db_servers d) (<[s := r <| sv_name := name |>]> (db_servers d))) by apply grows_insert.
  keep Hi.
  - destruct di_owner as (s0&r0&Hsv&Ha&Hr). rewrite Hsv in *.
    apply lookup_singleton_Some in Hs as [-> ->]. exists s, (r <| sv_name := name |>).
    rewrite insert_singleton_eq. by split_and!.
  - intros s' Hs'. apply di_server_seq. rewrite lookup_insert in Hs'. case_decide; [subst; eauto|done].
Qed.

Lemma delete_reads_core u s d : same_core d (delete_reads u s d).
Proof. by unfold same_core. Qed.
Lemma cancel_core u st e d : same_core d (cancel_scheduled u st e d).
Proof. by unfold same_core. Qed.

Lemma delete_members_inv u now d :
  db_inv d → not_creator d u → db_inv (delete_members now (fun k => (k.2 =? u)%Z) d).
Proof.
  intros Hi Hu. pose proof (di_owner _ Hi) as Ho. keep Hi.
  - eapply members_ok_sub; [done|]. intros k y [? _]%delete_where_Some. eauto.
  - eapply owner_ok_members; [done|]. intros s v r Hs. rewrite lookup_delete_where.
    destruct (db_members d !! (s, v)) as [m|] eqn:Hm; [simpl|done]. destruct (v =? u)%Z eqn:E; [|done].
    split; [done|]. intros Hown. exfalso. apply Z.eqb_eq in E as ->. apply (Hu s r Hs).
    symmetry. apply (owner_is_creator _ _ _ _ _ _ u Ho Hs). by rewrite Hm.
Qed.

Lemma delete_owned_invitations_inv u d : db_inv d → db_inv (delete_owned_invitations u d).
Proof.
  intros Hi. keep Hi; [|by apply links_ok_delete].
  eapply invites_ok_sub; [done|]. intros i y [? _]%delete_where_Some. eauto 10.
Qed.

Lemma delete_owned_data_inv u now d : db_inv d → not_creator d u → db_inv (delete_owned_data u now d).
Proof.
  intros Hi Hu. apply delete_members_inv; [|done]. apply delete_sessions_inv.
  eapply db_inv_core; [|apply (delete_owned_invitations_inv u), Hi]. by unfold same_core.
Qed.

Lemma anonymize_inv u hex now d x d' :
  db_inv d → not_creator d u → anonymize u hex now d = inr (x, d') → db_inv d'.
Proof.
  intros Hi Hu. unfold anonymize. destruct (db_users d !! u) as [r|] eqn:Hr; [|done].
  case_decide; [|done]. case_match; [done|]. destruct (row_exists _ _) eqn:He; [done|].
  intros [= _ <-]. eapply db_inv_core; [|refine (users_grow_step d (<[u := _]> (db_users d)) (db_user_seq d) Hi _ (grows_insert _ _ _) _)].
  - by unfold same_core.
  - destruct (di_users _ Hi) as [Un Uk Us Ul]. split; [| | |done].
    + apply unique_by_insert; [done|]. intros j y a Hj Hne [= <-] [= Hy]. simpl in Hy.
      apply (row_exists_false _ _ j y) in He; [|done]. simpl in He.
      rewrite Hy, String.eqb_refl in He. by apply negb_false_iff, Z.eqb_eq in He.
    + apply unique_by_insert; [done|]. by intros j y a Hj Hne [=].
    + intros i y. rewrite lookup_insert_Some. intros [[<- _]|[_ Hy]]; eauto.
  - intros v [(r'&Hr'&Hd) Hb] (s&sr&Hs&<-). split; [|done]. rewrite lookup_insert_ne; [eauto|].
    intros ->. by apply (Hu s sr).
Qed.

Lemma DeleteAccount_inv u hex now d : db_inv d → db_inv (server_DeleteAccount u hex now d).2.
Proof.
  intros Hi. apply (atomically_keeps db_inv); [done|]. intros a d' Hr. tx_run.
  destruct x as [[s v] m]. apply find_row_Some in Hrow as [Hm E]. simpl in *. apply Z.eqb_eq in E as ->.
  pose proof (plain_member_not_creator d s u m Hi Hm Hd) as Hu.
  eapply anonymize_inv; [| |done]; [|done]. apply delete_owned_data_inv; [|done].
  eapply db_inv_core; [apply delete_reads_core|exact Hi].
Qed.

Lemma audit_run {E} (nr : E) on s a act ty ti tn det d x d' :
  audit_Record nr on s a act ty ti tn det d = inr (x, d') →
  same_core d d' ∧ db_scheduled d' = db_scheduled d.
Proof.
  intros Hr. unfold audit_Record in Hr. tx_run; repeat case_match; simplify_eq; by unfold same_core.
Qed.
Lemma audit_core s a act ti tn det d x d' :
  record_audit s a act ti tn det d = inr (x, d') → same_core d d'.
Proof. intros Hr. by apply audit_run in Hr as [? _]. Qed.
Lemma audit_scheduled s a act ti tn det d x d' :
  record_audit s a act ti tn det d = inr (x, d') → db_scheduled d' = db_scheduled d.
Proof. intros Hr. by apply audit_run in Hr as [_ ?]. Qed.

Lemma authorize_run s v u d x d' :
  authorize_moderation s v u d = inr (x, d') →
  d' = d ∧ v ≠ u ∧ ∃ mv mu, db_members d !! (s, v) = Some mv ∧ db_members d !! (s, u) = Some mu ∧
    mb_role mu ≠ RoleOwner ∧ outranks (mb_role mv) (mb_role mu) = true.
Proof.
  intros Hr. unfold authorize_moderation, findRequesterRole, findMemberRole in Hr. tx_run.
  repeat match goal with
    | Hx : mb_role <$> _ = Some _ |- _ => apply fmap_Some in Hx as (?&?&->)
    | Hx : negb _ = true |- _ => apply negb_true_iff in Hx
    | Hx : (_ =? _)%Z = false |- _ => apply Z.eqb_neq in Hx
    | Hx : bool_decide _ = false |- _ => apply bool_decide_eq_false in Hx
    end. eauto 10.
Qed.

Lemma insert_ban_spec u v reason now d x d' :
  insert_ban u v reason now d = inr (x, d') →
  u ≠ v ∧ db_bans d !! u = None ∧ is_Some (db_users d !! u) ∧ is_Some (db_users d !! v) ∧
  d' = d <| db_bans ::= <[u := mkBan v now reason]> |>.
Proof.
  unfold insert_ban. case_bool_decide; [done|]. destruct (has_key (db_bans d) u) eqn:Hb; [done|].
  destruct (has_key (db_users d) u) eqn:Hu; [|done]. destruct (has_key (db_users d) v) eqn:Hv; [|done]. intros [= _ <-].
  apply has_key_spec in Hu. apply has_key_spec in Hv. split_and!; try done.
  apply eq_None_not_Some. intros Hs%has_key_spec. congruence.
Qed.

Lemma insert_ban_inv u v reason now d x d' :
  db_inv d → not_creator d u → insert_ban u v reason now d = inr (x, d') → db_inv d'.
Proof.
  intros Hi Hu Hins. apply insert_ban_spec in Hins as (Hne&_&Hsu&Hsv&->). keep Hi.
  - intros w b. rewrite lookup_insert_Some. intros [[<- <-]|[_ Hb]]; [|eauto].
    simpl. split_and!; congruence.
  - destruct di_owner as (s&r&Hs&[Ha Hb]&Hr). exists s, r. split_and!; [done| |done].
    split; [done|]. rewrite lookup_insert_ne; [done|]. intros ->. apply (Hu s r); [|done].
    by rewrite Hs, lookup_singleton_eq.
Qed.

Lemma revoke_account_inv u now d : db_inv d → not_creator d u → db_inv (revoke_account u now d).
Proof.
  intros Hi Hu. apply delete_members_inv; [|done]. apply delete_owned_invitations_inv, delete_sessions_inv.
  eapply db_inv_core; [apply cancel_core|exact Hi].
Qed.

Lemma Ban_run s v u reason now d a d' :
  repo_BanMemberWithReason s v u reason now d = (inr a, d') →
  ∃ mv mu d1, v ≠ u ∧ db_members d !! (s, v) = Some mv ∧ db_members d !! (s, u) = Some mu ∧
    mb_role mu ≠ RoleOwner ∧ outranks (mb_role mv) (mb_role mu) = true ∧
    insert_ban u v reason now (delete_reads u s d) = inr (tt, d1) ∧
    same_core (revoke_account u now d1) d' ∧
    db_scheduled d' = db_scheduled (cancel_scheduled u [SchedulePending; ScheduleFailed] "" (revoke_account u now d1)).
Proof.
  intros Hr%atomically_inr. tx_run. apply authorize_run in Hrun as (->&?&mv&mu&?&?&?&?).
  destruct x1. exists mv, mu, d2. pose proof (audit_core _ _ _ _ _ _ _ _ _ Hrun3) as Hc.
  do 6 (split; [done|]). split.
  - etrans; [exact Hc|apply cancel_core].
  - unfold cancel_scheduled. simpl. by rewrite (audit_scheduled _ _ _ _ _ _ _ _ _ Hrun3).
Qed.

Lemma Ban_inv s v u reason now d : db_inv d → db_inv (repo_BanMemberWithReason s v u reason now d).2.
Proof.
  intros Hi. destruct (repo_BanMemberWithReason _ _ _ _ _ _) as [[e|a] d'] eqn:Hr; simpl.
  { by apply atomically_inl in Hr as ->. }
  apply Ban_run in Hr as (mv&mu&d1&_&_&Hm&Hrole&_&Hb&Hc&_). eapply db_inv_core; [exact Hc|].
  pose proof (plain_member_not_creator d s u mu Hi Hm Hrole) as Hu.
  pose proof (db_inv_core _ _ (delete_reads_core u s d) Hi) as Hi'.
  pose proof (insert_ban_spec _ _ _ _ _ _ _ Hb) as (_&_&_&_&E). apply revoke_account_inv.
  - exact (insert_ban_inv _ _ _ _ _ _ _ Hi' Hu Hb).
  - by rewrite E.
Qed.

Lemma Unban_inv s v u d : db_inv d → db_inv (repo_Unban s v u d).2.
Proof.
  intros Hi. apply (atomically_keeps db_inv); [done|]. intros a d' Hr. unfold findRequesterRole in Hr. tx_run.
  apply audit_core in Hr. eapply db_inv_core; [done|]. keep Hi.
  - intros w b [_ Hb]%lookup_delete_Some. eauto.
  - destruct di_owner as (s0&r&Hs&[Ha Hb]&Ho). exists s0, r. split_and!; [done| |done].
    split; [done|]. apply lookup_delete_None. by right.
Qed.

(** A change of one member's row that neither makes nor unmakes an owner. *)
Lemma update_members_inv P f d :
  db_inv d → (∀ k m, P k m = true → mb_role (f m) = RoleOwner ↔ mb_role m = RoleOwner) →
  db_inv (d <| db_members ::= update_where P f |>).
Proof.
  intros Hi Hf. keep Hi.
  - eapply members_ok_sub; [done|]. intros k y (w&?&_)%update_where_Some. eauto.
  - eapply owner_ok_members; [done|]. intros s u r _. rewrite lookup_update_where.
    destruct (db_members d !! (s, u)) as [m|]; [simpl|done]. destruct (P (s, u) m) eqn:HP; [|done].
    specialize (Hf _ _ HP). rewrite !(inj_iff Some). exact Hf.
Qed.

Lemma UpdateRole_inv s v u role d : db_inv d → role ≠ RoleOwner → db_inv (repo_UpdateMemberRole s v u role d).2.
Proof.
  intros Hi Hrole. apply (atomically_keeps db_inv); [done|]. intros a d' Hr.
  unfold findRequesterRole, findMemberRole, findServerMember in Hr. tx_run; [done|].
  match goal with Ha : record_audit _ _ _ _ _ _ _ = inr _ |- _ => apply audit_core in Ha end.
  eapply db_inv_core; [done|]. apply update_members_inv; [done|]. intros k m [_ Hm]%andb_true_iff.
  apply bool_decide_eq_true in Hm. simpl. match goal with Hx : negb (bool_decide _) = true |- _ => apply negb_true_iff, bool_decide_eq_false in Hx end. split; congruence.
Qed.

Lemma alter_update {K V} `{Countable K} (f : V → V) (k : K) (m : gmap K V) :
  alter f k m = update_where (fun k' _ => bool_decide (k' = k)) f m.
Proof.
  apply map_eq. intros i. rewrite lookup_update_where, lookup_alter.
  case_decide; case_bool_decide; subst; try done. by destruct (m !! i).
Qed.

Lemma SetTimeout_inv s v u until d : db_inv d → db_inv (repo_SetMemberTimeout s v u until d).2.
Proof.
  intros Hi. apply (atomically_keeps db_inv); [done|]. intros a d' Hr. tx_run.
  apply authorize_run in Hrun as (->&_). apply audit_core in Hr. eapply db_inv_core; [done|].
  pose proof (update_members_inv (fun k _ => bool_decide (k = (s, u))) (fun m => m <| mb_timeout_until := until |>) d Hi)
    as Hk. unfold update_with in *. simpl in *. rewrite alter_update. by apply Hk.
Qed.
End members.

Section invites.
Context `{MapOrder, Platform}.

(** Invitations that only leave the pending state. *)
Lemma status_update_inv P f d :
  db_inv d →
  (∀ v, iv_server_id (f v) = iv_server_id v ∧ iv_inviter (f v) = iv_inviter v ∧ iv_invitee (f v) = iv_invitee v ∧
        iv_status (f v) ≠ StatusPending) →
  db_inv (status_update P f d).
Proof.
  intros Hi Hf. keep Hi. eapply invites_ok_sub; [done|]. intros i y (w&Hw&->)%update_where_Some.
  exists w. split; [done|]. destruct (P i w); [destruct (Hf w) as (->&->&->&?)|]; eauto 10.
Qed.

Lemma respond_inv id v st now d :
  db_inv d → db_invites d !! id = Some v → st ≠ StatusPending → db_inv (respond id v st now d).
Proof.
  intros Hi Hv Hst. keep Hi. eapply invites_ok_sub; [done|]. intros i y. rewrite lookup_insert_Some.
  intros [[<- <-]|[_ Hy]]; [exists v|exists y]; simpl; eauto 10.
Qed.

Lemma CreateDirect_inv s u name exp n1 n2 d : db_inv d → db_inv (repo_CreateDirect s u name exp n1 n2 d).2.
Proof.
  intros Hi. apply (atomically_keeps db_inv); [done|]. intros a d' Hr. tx_run.
  match goal with Hx : insert_invite _ _ _ _ _ ?d1 = inr _ |- _ =>
    assert (db_inv d1) as Hi1 by (by apply status_update_inv);
    apply insert_invite_spec in Hx as (_&->&Hv); [|apply Hi1] end.
  keep Hi1.
Qed.

Lemma answerable_row id u now d v :
  answerable id u now d = Some v →
  db_invites d !! id = Some v ∧ iv_invitee v = u ∧ iv_status v = StatusPending ∧ (now < iv_expires_at v)%Z.
Proof.
  unfold answerable. intros (w&Hw&Hg)%bind_Some. destruct (_ && _ && _) eqn:E; [|done]. injection Hg as ->.
  rewrite !andb_true_iff, !bool_decide_eq_true, Z.ltb_lt in E. naive_solver.
Qed.

Lemma unanswerable_inv {A} id u now d (a : InviteError + A) d' :
  db_inv d → unanswerable id u now d = inr (a, d') → db_inv d' ∧ ∃ e, a = inl e.
Proof.
  intros Hi Hr. unfold unanswerable in Hr. tx_run. split; [|eauto]. by apply status_update_inv.
Qed.

Lemma Accept_inv id u n1 n2 n3 d : db_inv d → db_inv (repo_Accept id u n1 n2 n3 d).2.
Proof.
  intros Hi. apply (atomically_or_keeps db_inv); [done|]. intros a d' Hr.
  unfold selectAcceptedMember, selectJoinedServer in Hr. tx_run.
  - match goal with Hx : answerable _ _ _ _ = Some _ |- _ => apply answerable_row in Hx as (Hv&_) end.
    eapply (insert_member_or_nothing_inv _ _ RoleMember); [|done..]. by apply respond_inv.
  - by eapply unanswerable_inv.
Qed.

Lemma Decline_inv id u n1 n2 d : db_inv d → db_inv (repo_Decline id u n1 n2 d).2.
Proof.
  intros Hi. apply (atomically_or_keeps db_inv); [done|]. intros a d' Hr. tx_run.
  - match goal with Hx : answerable _ _ _ _ = Some _ |- _ => apply answerable_row in Hx as (Hv&_) end.
    by apply respond_inv.
  - by eapply unanswerable_inv.
Qed.

Lemma CreateLink_inv s u hash exp mu reg now d :
  db_inv d → (reg = true → is_Some mu) → db_inv (repo_CreateLink s u hash exp mu reg now d).2.
Proof.
  intros Hi Hreg. apply (atomically_keeps db_inv); [done|]. intros a d' Hr. tx_run.
  match goal with Hx : insert_link _ _ _ _ _ _ _ _ = inr _ |- _ =>
    apply insert_link_spec in Hx as (_&->&Hv); [|done|apply Hi] end.
  keep Hi.
Qed.

Lemma usable_spec now l :
  usable now l = true ↔ lk_revoked_at l = None ∧ (now < lk_expires_at l)%Z ∧
    ∀ m, lk_max_uses l = Some m → (lk_use_count l < m)%Z.
Proof.
  unfold usable. rewrite !andb_true_iff, bool_decide_eq_true, Z.ltb_lt.
  destruct (lk_max_uses l) as [m|]; rewrite ?Z.ltb_lt; naive_solver.
Qed.

Lemma joinable_row hash u now d id l :
  joinable hash u now d id l = true ↔ lk_token_hash l = hash ∧ usable now l = true ∧
    db_members d !! (lk_server_id l, u) = None.
Proof.
  unfold joinable, by_link_token.
  rewrite !andb_true_iff, String.eqb_eq, negb_true_iff, bool_decide_eq_false, <- eq_None_not_Some. naive_solver.
Qed.

Lemma AcceptLink_inv hash u n1 n2 d : db_inv d → db_inv (repo_AcceptLink hash u n1 n2 d).2.
Proof.
  intros Hi. apply (atomically_keeps db_inv); [done|]. intros a d' Hr.
  unfold selectAcceptedMember, selectJoinedServer in Hr. tx_run; [|done].
  unfold consume_link in Hrun. destruct (find_row _ _) as [[id l]|] eqn:Hf; [|done].
  injection Hrun as <- <-. apply find_row_Some in Hf as [Hl (_&(_&_&Hmax)%usable_spec&_)%joinable_row].
  eapply (insert_member_or_nothing_inv _ _ RoleMember); [|done..]. by apply use_link_inv.
Qed.

Lemma RevokeLink_inv s id u now d : db_inv d → db_inv (repo_RevokeLink s id u now d).2.
Proof.
  intros Hi. apply (atomically_keeps db_inv); [done|]. intros a d' Hr. unfold requireLinkManager in Hr. tx_run.
  match goal with Hx : (_ ≫= _) = Some _ |- _ => apply bind_Some in Hx as (l&Hl&Hg) end. case_decide; [|done].
  injection Hg as <-. keep Hi. eapply links_ok_sub; [done|]. intros i y. rewrite lookup_insert_Some.
  intros [[<- <-]|[_ Hy]]; [exists l|exists y].
  - destruct (lo_rows _ _ _ _ di_links id l Hl) as (_&Hu&_). simpl. split_and!; try done; apply Hu.
  - destruct (lo_rows _ _ _ _ di_links i y Hy) as (_&?&_). eauto 10.
Qed.
End invites.
