(* ===== verification/StoreSystem.v ===== *)
(** * The database as a system

    Every write any component makes to the tables of accounts, servers and
    invitations is a [call]; [run_call] executes it. A program run is a sequence
    of calls in any order: requests interleave freely between their
    transactions, since nothing relates the arguments of one call to an earlier
    one. The invariant of [StoreInv] holds throughout, once the bootstrap has
    created the instance. *)

From S2P Require Import Prelude GoText Tables Posts Store Accounts Members Invites StoreInv StoreKeep.

Inductive call :=
  | CDeleteExpired (now limit : Z)
  | CSessionCreate (u : Z) (hash : string) (exp : Z) (meta : ClientMeta) (now : Z)
  | CDeleteByTokenHash (hash : string)
  | CRotate (old new : string) (exp now : Z)
  | CTouch (hash : string) (now : Z)
  | CDeleteByID (u id : Z)
  | CDeleteOthers (u : Z) (keep : string)
  | CReplacePassword (u : Z) (old new keep : string)
  | CUpdatePasswordHash (u : Z) (hash : string)
  | CUserCreate (name hash : string) (now : Z)
  | CRegister (name hash invite token : string) (exp n1 n2 n3 n4 : Z)
  | CBackfill
  | CResetPassword (name hash : string)
  | CServerCreate (name : string) (u n1 n2 : Z)
  | CServerUpdate (s u : Z) (name : string)
  | CServerDelete (s u now : Z)
  | CDeleteAccount (u : Z) (hex : string) (now : Z)
  | CUpdateRole (s v u : Z) (role : string)
  | CBan (s v u : Z) (reason : string) (now : Z)
  | CUnban (s v u : Z)
  | CTimeout (s v u : Z) (until : option Z)
  | CCreateDirect (s u : Z) (name : string) (exp n1 n2 : Z)
  | CAccept (id u n1 n2 n3 : Z)
  | CDecline (id u n1 n2 : Z)
  | CCreateLink (s u : Z) (hash : string) (exp : Z) (input : CreateLinkInput) (now : Z)
  | CAcceptLink (hash : string) (u n1 n2 : Z)
  | CRevokeLink (s id u now : Z)
  | CEnsure (config : Config) (random hash : option string) (n1 n2 n3 : Z)
  (** Any write to the other tables, by the components that own them. *)
  | COther (f : DB → DB).

(** What the caller learns, as far as it matters here: that it was refused, or
    that [user] has used the link with token hash [token]. *)
Inductive answer := Refused | Done | Redeemed (token : string) (user : Z).

Definition answer_of {E A} (r : E + A) : answer := match r with inl _ => Refused | inr _ => Done end.
Definition answered {E A} (p : (E + A) * DB) : answer * DB := (answer_of p.1, p.2).

(** The tables of [db_inv] as they are in [d], the others as in [d']. *)
Definition keep_core (d d' : DB) : DB :=
  d' <| db_users := db_users d |> <| db_sessions := db_sessions d |> <| db_servers := db_servers d |>
     <| db_members := db_members d |> <| db_bans := db_bans d |> <| db_invites := db_invites d |>
     <| db_links := db_links d |> <| db_user_seq := db_user_seq d |> <| db_session_seq := db_session_seq d |>
     <| db_server_seq := db_server_seq d |> <| db_invite_seq := db_invite_seq d |>
     <| db_link_seq := db_link_seq d |>.

Section system.
Context `{MapOrder, Platform}.

Definition run_call (c : call) (d : DB) : answer * DB :=
  match c with
  | CDeleteExpired now limit => answered (DeleteExpired now limit d)
  | CSessionCreate u h e m now => answered (session_Create u h e m now d)
  | CDeleteByTokenHash h => (Done, DeleteByTokenHash h d)
  | CRotate o n e now => answered (Rotate o n e now d)
  | CTouch h now => (Done, Touch id h now d)
  | CDeleteByID u i => answered (DeleteByID u i d)
  | CDeleteOthers u k => (Done, (DeleteOthers u k d).2)
  | CReplacePassword u o n k => answered (ReplacePasswordAndRevokeOthers u o n k d)
  | CUpdatePasswordHash u h => (Done, UpdatePasswordHash u h d)
  | CUserCreate n h now => answered (user_Create n h now d)
  | CRegister n h i t e n1 n2 n3 n4 =>
      match RegisterWithInvite n h i t e n1 n2 n3 n4 d with
      | (inl _, d) => (Refused, d)
      | (inr (user, _, _), d) => (Redeemed i (ui_ID user), d)
      end
  | CBackfill => (Done, BackfillUsernameKeys d)
  | CResetPassword n h => (Done, (ResetPassword n h d).2)
  | CServerCreate n u n1 n2 => answered (server_Create n u n1 n2 d)
  | CServerUpdate s u n => answered (server_Update s u n d)
  | CServerDelete s u now => answered (server_Delete id s u now d)
  | CDeleteAccount u hex now => answered (server_DeleteAccount u hex now d)
  | CUpdateRole s v u role =>
      match role_Validate role with
      | inl _ => (Refused, d)
      | inr role => answered (repo_UpdateMemberRole s v u role d)
      end
  | CBan s v u reason now => answered (repo_BanMemberWithReason s v u reason now d)
  | CUnban s v u => answered (repo_Unban s v u d)
  | CTimeout s v u until => answered (repo_SetMemberTimeout s v u until d)
  | CCreateDirect s u n e n1 n2 => answered (repo_CreateDirect s u n e n1 n2 d)
  | CAccept i u n1 n2 n3 => answered (repo_Accept i u n1 n2 n3 d)
  | CDecline i u n1 n2 => answered (repo_Decline i u n1 n2 d)
  | CCreateLink s u h e input now =>
      match link_Validate input with
      | Some _ => (Refused, d)
      | None => answered (repo_CreateLink s u h e (cl_MaxUses input) (cl_AllowRegistration input) now d)
      end
  | CAcceptLink h u n1 n2 =>
      match repo_AcceptLink h u n1 n2 d with
      | (inl _, d) => (Refused, d)
      | (inr (_, _, true), d) => (Done, d)
      | (inr (_, _, false), d) => (Redeemed h u, d)
      end
  | CRevokeLink s i u now => answered (repo_RevokeLink s i u now d)
  | CEnsure cf r h n1 n2 n3 => answered (Ensure cf r h n1 n2 n3 d)
  | COther f => (Done, keep_core d (f d))
  end.

Fixpoint run_calls (cs : list call) (d : DB) : list answer * DB :=
  match cs with
  | [] => ([], d)
  | c :: cs => let '(a, d) := run_call c d in let '(l, d) := run_calls cs d in (a :: l, d)
  end.

Lemma keep_core_same d d' : same_core d (keep_core d d').
Proof. by unfold same_core. Qed.

Lemma role_Validate_plain role r : role_Validate role = inr r → r ≠ RoleOwner.
Proof. unfold role_Validate. repeat case_match; intros [=]; by subst. Qed.

Lemma link_Validate_limited input :
  link_Validate input = None → cl_AllowRegistration input = true → is_Some (cl_MaxUses input).
Proof.
  unfold link_Validate. intros Hv Hr. rewrite Hr in Hv. by repeat case_match.
Qed.

Lemma Touch_inv hash now d : db_inv d → db_inv (Touch id hash now d).
Proof. intros Hi. unfold Touch. repeat case_match; try done. by apply touch_inv. Qed.

(** Once there is a server, the bootstrap only checks the owner. *)
Lemma Ensure_noop cf r h n1 n2 n3 d : db_inv d → (Ensure cf r h n1 n2 n3 d).2 = d.
Proof.
  intros Hi. unfold Ensure, atomically. unfold mbind at 1, Tx_bind at 1. unfold query at 1.
  rewrite (one_server d Hi). simpl. unfold mbind, Tx_bind, validateOwner. simpl. by destruct (_ =? 1).
Qed.

Lemma run_call_inv c d : db_inv d → db_inv (run_call c d).2.
Proof.
  intros Hi. destruct c; simpl.
  all: try (by eauto using DeleteExpired_inv, session_Create_inv, delete_sessions_inv, Rotate_inv, Touch_inv,
    DeleteByID_inv, delete_others_inv, ReplacePassword_inv, UpdatePasswordHash_inv, user_Create_inv,
    Backfill_inv, ResetPassword_inv, server_Update_inv, DeleteAccount_inv, Ban_inv, Unban_inv, SetTimeout_inv,
    CreateDirect_inv, Accept_inv, Decline_inv, RevokeLink_inv).
  - pose proof (RegisterWithInvite_inv name hash invite token exp n1 n2 n3 n4 d Hi) as Hr.
    by destruct (RegisterWithInvite _ _ _ _ _ _ _ _ _ _) as [[?|[[??]?]] d'].
  - by rewrite server_Create_noop.
  - by rewrite server_Delete_noop.
  - destruct (role_Validate role) eqn:Hr; [done|]. by apply UpdateRole_inv; [|eapply role_Validate_plain].
  - destruct (link_Validate input) eqn:Hr; [done|]. by apply CreateLink_inv; [|apply link_Validate_limited].
  - pose proof (AcceptLink_inv hash u n1 n2 d Hi) as Hr.
    by destruct (repo_AcceptLink _ _ _ _ _) as [[?|[[??][]]] d'].
  - by rewrite Ensure_noop.
  - eapply db_inv_core; [apply keep_core_same|done].
Qed.

Lemma run_calls_inv cs d : db_inv d → db_inv (run_calls cs d).2.
Proof.
  revert d. induction cs as [|c cs IH]; intros d Hi; simpl; [done|].
  pose proof (run_call_inv c d Hi) as H1. destruct (run_call c d) as [a d1]. simpl in H1.
  specialize (IH d1 H1). by destruct (run_calls cs d1).
Qed.

(** ** The bootstrap of an empty database *)

Lemma users_ok_empty : users_ok ∅ 0.
Proof. by split; [intros ?????|intros ?????|intros ??|]; rewrite ?lookup_empty. Qed.

Lemma Ensure_establishes inst cf r h n1 n2 n3 res d :
  Ensure cf r h n1 n2 n3 (empty_db inst) = (inr res, d) →
  db_inv d ∧ rs_Created res = true ∧ ∃ s u row, db_servers d = {[s := row]} ∧ sv_created_by row = u ∧
    (∃ acc, db_users d = {[u := acc]} ∧ us_username acc = rs_Username res) ∧
    (∃ m, db_members d = {[(s, u) := m]}) ∧ db_sessions d = ∅ ∧ db_links d = ∅ ∧ db_invites d = ∅.
Proof.
  intros Hr%atomically_inr. tx_run; [by simpl in *|]. simpl in *.
  match goal with Hx : insert_user _ _ _ _ _ = inr _ |- _ =>
    apply insert_user_spec in Hx as (->&_&->&Hus&_); [|apply users_ok_empty] end. simpl in *.
  match goal with Hx : insert_server _ _ _ _ = inr _ |- _ => rename Hx into Hsv end.
  unfold insert_server in Hsv. simpl in Hsv. do 3 (case_match; [done|]). injection Hsv as <- <-.
  match goal with Hx : insert_member _ _ _ _ _ = inr _ |- _ =>
    apply insert_member_spec in Hx as (_&_&Hs&Hu&->) end. simpl in *. split.
  2:{ split; [done|]. do 3 eexists. split_and!; [done..| | |done|done|done]; eauto. }
  split; simpl; try done.
  - intros s' u m Hm. rewrite insert_empty, lookup_singleton_Some in Hm. by destruct Hm as [[= <- <-] _].
  - eexists _, _. split; [apply insert_empty|]. split; simpl.
    + split; [|done]. eexists. by rewrite lookup_insert_eq.
    + intros u. rewrite insert_empty. destruct (decide (u = 0 + 1)%Z) as [->|Hne].
      * by rewrite lookup_singleton_eq.
      * rewrite lookup_singleton_ne by congruence. done.
  - intros s'. rewrite insert_empty. intros [y [<- _]%lookup_singleton_Some]. lia.
Qed.
End system.
