(* ===== verification/StoreFrames.v ===== *)
(** * Which tables a repository call writes

    For each table of the invariant, the calls that may change it; every other
    call leaves it as it was. *)

From S2P Require Import Prelude GoText Tables Posts Store Accounts Members Invites StoreInv StoreKeep StoreSystem.

(** Follow a call and compare one table before and after. *)
Ltac frame_run :=
  repeat match goal with
  | H : record_audit _ _ _ _ _ _ _ = inr _ |- _ => apply audit_core in H as (?&?&?&?&?&?&?&?&?&?&?&?); simpl in *
  | H : authorize_moderation _ _ _ _ = inr _ |- _ => apply authorize_run in H as (?&_); simpl in *
  | H : findRequesterRole _ _ _ = inr _ |- _ => unfold findRequesterRole in H
  | H : findMemberRole _ _ _ = inr _ |- _ => unfold findMemberRole in H
  | H : findServerMember _ _ _ = inr _ |- _ => unfold findServerMember in H
  | H : selectAcceptedMember _ _ _ = inr _ |- _ => unfold selectAcceptedMember in H
  | H : selectJoinedServer _ _ _ = inr _ |- _ => unfold selectJoinedServer in H
  | H : requireLinkManager _ _ _ = inr _ |- _ => unfold requireLinkManager in H
  | H : unanswerable _ _ _ _ = inr _ |- _ => unfold unanswerable in H
  | H : insert_session _ _ _ _ _ _ _ = inr _ |- _ => unfold insert_session in H
  | H : insert_user _ _ _ _ _ = inr _ |- _ => unfold insert_user in H
  | H : insert_member _ _ _ _ _ = inr _ |- _ => apply insert_member_spec in H as (_&_&_&_&->)
  | H : insert_member_or_nothing _ _ _ _ _ = inr _ |- _ => unfold insert_member_or_nothing in H
  | H : insert_invite _ _ _ _ _ _ = inr _ |- _ => unfold insert_invite in H
  | H : insert_link _ _ _ _ _ _ _ _ = inr _ |- _ => unfold insert_link in H
  | H : insert_ban _ _ _ _ _ = inr _ |- _ => apply insert_ban_spec in H as (_&_&_&_&->)
  | H : anonymize _ _ _ _ = inr _ |- _ => unfold anonymize in H
  | H : consume_link _ _ _ = inr _ |- _ => unfold consume_link in H
  | H : delete_others _ _ _ = (_, _) |- _ => unfold delete_others in H
  | H : (_, _) = (_, _) |- _ => injection H as ? ?; subst
  | H : inr _ = inr _ |- _ => injection H as ? ?; subst
  | H : inl _ = inr _ |- _ => discriminate H
  | _ => tx_step
  | H : (if ?b then _ else _) = inr _ |- _ => destruct b
  | H : (match ?b with _ => _ end) = inr _ |- _ => destruct b eqn:?
  end; simpl in *; subst; try congruence.

Section frames.
Context `{MapOrder, Platform}.
Implicit Types (c : call) (d : DB).

Lemma Backfill_frame {A} (f : DB → A) d :
  (∀ d u r, f (d <| db_users ::= <[u := r]> |>) = f d) → f (BackfillUsernameKeys d) = f d.
Proof.
  intros Hf. unfold BackfillUsernameKeys. generalize (fmap (M := list) (fun e : Z * user_row => (e.1, us_username e.2))
    (filter (fun e => us_username_key e.2 = None) (range_entries (db_users d)))). intros todo.
  revert d. induction todo as [|p todo IH]; intros d; simpl; [done|].
  rewrite IH. unfold set_username_key. repeat case_match; by rewrite ?Hf.
Qed.

Lemma run_register n h i t e n1 n2 n3 n4 d :
  (run_call (CRegister n h i t e n1 n2 n3 n4) d).2 = (RegisterWithInvite n h i t e n1 n2 n3 n4 d).2.
Proof. simpl. by destruct (RegisterWithInvite _ _ _ _ _ _ _ _ _ _) as [[?|[[??]?]] ?]. Qed.
Lemma run_accept_link h u n1 n2 d :
  (run_call (CAcceptLink h u n1 n2) d).2 = (repo_AcceptLink h u n1 n2 d).2.
Proof. simpl. by destruct (repo_AcceptLink _ _ _ _ _) as [[?|[[??][]]] ?]. Qed.

(** One table [f] across a call that does not write it. *)
Ltac frame_solve f d Hi :=
  first
  [ done
  | by rewrite (server_Create_noop _ _ _ _ d Hi)
  | by rewrite (server_Delete_noop _ _ _ d Hi)
  | by rewrite (Ensure_noop _ _ _ _ _ _ d Hi)
  | apply (atomically_keeps (fun d' => f d' = f d)); [done|]; intros a d' Hr; frame_run; done
  | apply (atomically_or_keeps (fun d' => f d' = f d)); [done|]; intros a d' Hr; frame_run; done
  | by apply (Backfill_frame f)
  | unfold DeleteExpired, Rotate, Touch, DeleteByID, ResetPassword, server_Update;
    repeat case_match; simplify_eq; done ].

Ltac frame_call f d Hi Hw :=
  lazymatch goal with c : call |- _ => destruct c end;
  try discriminate Hw; clear Hw; rewrite ?run_register, ?run_accept_link; simpl;
  try lazymatch goal with |- context [match role_Validate ?r with _ => _ end] => destruct (role_Validate r) end;
  try lazymatch goal with |- context [match link_Validate ?r with _ => _ end] => destruct (link_Validate r) end;
  simpl; frame_solve f d Hi.

Definition writes_links c : bool :=
  match c with
  | CRegister _ _ _ _ _ _ _ _ _ | CDeleteAccount _ _ _ | CBan _ _ _ _ _
  | CCreateLink _ _ _ _ _ _ | CAcceptLink _ _ _ _ | CRevokeLink _ _ _ _ => true
  | _ => false
  end.
Lemma links_frame c d : db_inv d → writes_links c = false → db_links (run_call c d).2 = db_links d.
Proof. intros Hi Hw. frame_call db_links d Hi Hw. Qed.

Definition creates_link c : bool := match c with CCreateLink _ _ _ _ _ _ => true | _ => false end.
Lemma link_seq_frame c d : db_inv d → creates_link c = false → db_link_seq (run_call c d).2 = db_link_seq d.
Proof. intros Hi Hw. frame_call db_link_seq d Hi Hw. Qed.

Definition writes_members c : bool :=
  match c with
  | CRegister _ _ _ _ _ _ _ _ _ | CDeleteAccount _ _ _ | CUpdateRole _ _ _ _ | CBan _ _ _ _ _
  | CTimeout _ _ _ _ | CAccept _ _ _ _ _ | CAcceptLink _ _ _ _ => true
  | _ => false
  end.
Lemma members_frame c d : db_inv d → writes_members c = false → db_members (run_call c d).2 = db_members d.
Proof. intros Hi Hw. frame_call db_members d Hi Hw. Qed.

Lemma servers_frame c d :
  db_inv d → match c with CServerUpdate _ _ _ => true | _ => false end = false →
  db_servers (run_call c d).2 = db_servers d.
Proof. intros Hi Hw. frame_call db_servers d Hi Hw. Qed.

Definition writes_bans c : bool :=
  match c with CBan _ _ _ _ _ | CUnban _ _ _ => true | _ => false end.
Lemma bans_frame c d : db_inv d → writes_bans c = false → db_bans (run_call c d).2 = db_bans d.
Proof. intros Hi Hw. frame_call db_bans d Hi Hw. Qed.

Definition writes_users c : bool :=
  match c with
  | CReplacePassword _ _ _ _ | CUpdatePasswordHash _ _ | CUserCreate _ _ _ | CRegister _ _ _ _ _ _ _ _ _
  | CBackfill | CResetPassword _ _ | CDeleteAccount _ _ _ => true
  | _ => false
  end.
Lemma users_frame c d : db_inv d → writes_users c = false → db_users (run_call c d).2 = db_users d.
Proof. intros Hi Hw. frame_call db_users d Hi Hw. Qed.

Definition writes_invites c : bool :=
  match c with
  | CDeleteAccount _ _ _ | CBan _ _ _ _ _ | CCreateDirect _ _ _ _ _ _ | CAccept _ _ _ _ _
  | CDecline _ _ _ _ => true
  | _ => false
  end.
Lemma invites_frame c d : db_inv d → writes_invites c = false → db_invites (run_call c d).2 = db_invites d.
Proof. intros Hi Hw. frame_call db_invites d Hi Hw. Qed.

(** Calls that may add a session or change one's token or user. *)
Definition writes_sessions c : bool :=
  match c with
  | CDeleteExpired _ _ | CSessionCreate _ _ _ _ _ | CDeleteByTokenHash _ | CRotate _ _ _ _ | CTouch _ _
  | CDeleteByID _ _ | CDeleteOthers _ _ | CReplacePassword _ _ _ _ | CRegister _ _ _ _ _ _ _ _ _
  | CResetPassword _ _ | CDeleteAccount _ _ _ | CBan _ _ _ _ _ => true
  | _ => false
  end.
Lemma sessions_frame c d : db_inv d → writes_sessions c = false → db_sessions (run_call c d).2 = db_sessions d.
Proof. intros Hi Hw. frame_call db_sessions d Hi Hw. Qed.
End frames.
