(* ===== verification/StoreRuns.v ===== *)
(** * What the successful calls do

    The effect of each call that admits, promotes, removes or signs out a user,
    table by table, as equations on the database after it. *)

From S2P Require Import Prelude GoText Events HubSystem Tables Posts Store Accounts Members Invites StoreInv StoreKeep StoreSystem StoreFrames.

Section runs.
Context `{MapOrder, Platform}.

(** A link through which a stranger may register now. *)
Lemma registration_link_spec hash now id l :
  registration_link hash now id l = true ↔ lk_token_hash l = hash ∧ lk_allow_registration l = true ∧
    usable now l = true ∧ is_Some (lk_max_uses l).
Proof.
  unfold registration_link. rewrite usable_spec, !andb_true_iff, String.eqb_eq, bool_decide_eq_true, Z.ltb_lt.
  destruct (lk_max_uses l) as [m|]; rewrite ?Z.ltb_lt; [naive_solver|]. split; [naive_solver|].
  intros (_&_&_&[? [=]]).
Qed.

Lemma Register_run n h i t e n1 n2 n3 n4 d info s member d' :
  db_inv d → RegisterWithInvite n h i t e n1 n2 n3 n4 d = (inr (info, s, member), d') →
  ∃ id l name key, db_links d !! id = Some l ∧ registration_link i n1 id l = true ∧ s = lk_server_id l ∧
    NormalizeUsername n = inr (name, key) ∧
    let u := (db_user_seq d + 1)%Z in
    ui_ID info = u ∧ db_users d !! u = None ∧
    db_users d' = <[u := mkUser name (Some key) h n2 None]> (db_users d) ∧
    db_links d' = <[id := l <| lk_use_count ::= Z.succ |>]> (db_links d) ∧
    db_members d !! (s, u) = None ∧
    db_members d' = <[(s, u) := mkMember RoleMember n3 None]> (db_members d) ∧
    (∃ sid, db_sessions d' = <[sid := mkSessionRow u t e n4 None None None]> (db_sessions d)) ∧
    db_bans d' = db_bans d.
Proof.
  intros Hi Hr%atomically_inr. tx_step. unfold consume_link in Hrun.
  destruct (find_row _ _) as [[id l]|] eqn:Hf; [|done]. injection Hrun as <- <-.
  apply find_row_Some in Hf as [Hl Hreg]. destruct (NormalizeUsername n) as [|[name key]] eqn:Hn; [tx_run|].
  tx_run. simplify_eq. match goal with Hx : insert_user _ _ _ _ ?d1 = inr _ |- _ =>
    apply insert_user_spec in Hx as (->&Hnone&->&_&_); [|apply Hi] end. simpl in *.
  match goal with Hx : insert_member _ _ _ _ _ = inr _ |- _ => apply insert_member_spec in Hx as (_&Hm&_&_&->) end.
  simpl in *. match goal with Hx : insert_session _ _ _ _ _ _ _ = inr _ |- _ => rename Hx into Hs end.
  unfold insert_session in Hs. do 3 (case_match; [done|]). injection Hs as _ <-.
  exists id, l, name, key. simpl. split_and!; try done. eauto.
Qed.

Lemma AcceptLink_joins hash u n1 n2 d j member d' :
  repo_AcceptLink hash u n1 n2 d = (inr (j, member, false), d') →
  ∃ id l, db_links d !! id = Some l ∧ lk_token_hash l = hash ∧ usable n1 l = true ∧
    db_members d !! (lk_server_id l, u) = None ∧
    db_links d' = <[id := l <| lk_use_count ::= Z.succ |>]> (db_links d) ∧
    db_members d' = <[(lk_server_id l, u) := mkMember RoleMember n2 None]> (db_members d).
Proof.
  intros Hr%atomically_inr. unfold selectAcceptedMember, selectJoinedServer in Hr. tx_run; [|simplify_eq].
  unfold consume_link in Hrun. destruct (find_row _ _) as [[id l]|] eqn:Hf; [|done]. injection Hrun as <- <-.
  apply find_row_Some in Hf as [Hl (Hh&Hu&Hm)%joinable_row]. exists id, l.
  match goal with Hx : insert_member_or_nothing _ _ _ _ _ = inr _ |- _ => rename Hx into Hins end.
  unfold insert_member_or_nothing in Hins. simpl in Hins. rewrite Hm in Hins. simpl in Hins.
  destruct (insert_member _ _ _ _ _) as [|[??]] eqn:Hx; [done|]. injection Hins as _ <-.
  by apply insert_member_spec in Hx as (_&_&_&_&->).
Qed.

Lemma AcceptLink_already hash u n1 n2 d j member d' :
  repo_AcceptLink hash u n1 n2 d = (inr (j, member, true), d') → d' = d.
Proof.
  intros Hr%atomically_inr. unfold selectAcceptedMember, selectJoinedServer in Hr. tx_run; by simplify_eq.
Qed.

Lemma Accept_run id u n1 n2 n3 d r d' :
  repo_Accept id u n1 n2 n3 d = (inr r, d') →
  ∃ v, db_invites d !! id = Some v ∧ iv_invitee v = u ∧ iv_status v = StatusPending ∧ (n1 < iv_expires_at v)%Z ∧
    db_invites d' = <[id := v <| iv_status := StatusAccepted |> <| iv_responded_at := Some n1 |>]> (db_invites d) ∧
    db_members d' = match db_members d !! (iv_server_id v, u) with
      | Some _ => db_members d
      | None => <[(iv_server_id v, u) := mkMember RoleMember n3 None]> (db_members d) end.
Proof.
  intros Hr%atomically_or_inr. unfold selectAcceptedMember, selectJoinedServer in Hr. tx_run.
  2:{ unfold unanswerable in Hr. tx_run. simplify_eq. }
  match goal with Hx : answerable _ _ _ _ = Some ?w |- _ => apply answerable_row in Hx as (Hv&<-&Hst&Hexp); exists w end.
  do 4 (split; [done|]).
  match goal with Hx : insert_member_or_nothing _ _ _ _ _ = inr _ |- _ => rename Hx into Hins end.
  unfold insert_member_or_nothing in Hins. simpl in Hins.
  destruct (db_members d !! _) as [m|] eqn:Hm; simpl in Hins.
  - injection Hins as _ <-. done.
  - destruct (insert_member _ _ _ _ _) as [|[??]] eqn:Hx; [done|]. injection Hins as _ <-.
    by apply insert_member_spec in Hx as (_&_&_&_&->).
Qed.

Lemma Accept_refused id u n1 n2 n3 d e d' :
  repo_Accept id u n1 n2 n3 d = (inl e, d') → db_members d' = db_members d.
Proof.
  intros [->|Hr]%atomically_or_inl; [done|]. unfold selectAcceptedMember, selectJoinedServer in Hr.
  tx_run; simplify_eq. unfold unanswerable in Hr. tx_run. done.
Qed.

Lemma anonymize_spec u hex now d x d' :
  anonymize u hex now d = inr (x, d') →
  ∃ r, db_users d !! u = Some r ∧ us_deleted_at r = None ∧
    d' = community_account_cleanup u (d <| db_users ::=
      <[u := mkUser (deleted_username hex) None "" (us_created_at r) (Some now)]> |>).
Proof.
  unfold anonymize. destruct (db_users d !! u) as [r|]; [|done]. case_decide; [|done].
  destruct (_ || _); [done|]. destruct (row_exists _ _); [done|]. intros [= _ <-]. exists r. done.
Qed.

Lemma owned_data_tables u now d :
  db_users (delete_owned_data u now d) = db_users d ∧ db_bans (delete_owned_data u now d) = db_bans d ∧
  db_scheduled (delete_owned_data u now d) = db_scheduled d ∧
  db_members (delete_owned_data u now d) = delete_where (fun k _ => (k.2 =? u)%Z) (db_members d) ∧
  db_sessions (delete_owned_data u now d) = delete_where (fun _ s => (ss_user_id s =? u)%Z) (db_sessions d) ∧
  db_links (delete_owned_data u now d) = delete_where (fun _ l => (lk_created_by l =? u)%Z) (db_links d) ∧
  db_invites (delete_owned_data u now d) =
    delete_where (fun _ v => (iv_inviter v =? u)%Z || (iv_invitee v =? u)%Z) (db_invites d).
Proof. unfold delete_owned_data. simpl. by split_and!. Qed.

Lemma DeleteAccount_run u hex now d s d' :
  server_DeleteAccount u hex now d = (inr s, d') →
  ∃ m r, db_members d !! (s, u) = Some m ∧ mb_role m ≠ RoleOwner ∧
    db_users d !! u = Some r ∧ us_deleted_at r = None ∧
    db_users d' = <[u := mkUser (deleted_username hex) None "" (us_created_at r) (Some now)]> (db_users d) ∧
    db_members d' = delete_where (fun k _ => (k.2 =? u)%Z) (db_members d) ∧
    db_sessions d' = delete_where (fun _ s => (ss_user_id s =? u)%Z) (db_sessions d) ∧
    db_links d' = delete_where (fun _ l => (lk_created_by l =? u)%Z) (db_links d) ∧
    db_invites d' = delete_where (fun _ v => (iv_inviter v =? u)%Z || (iv_invitee v =? u)%Z) (db_invites d) ∧
    db_scheduled d' = delete_where (fun _ m => (sc_user_id m =? u)%Z) (db_scheduled d) ∧
    db_bans d' = db_bans d.
Proof.
  intros Hr%atomically_inr. tx_run. destruct x as [[s' v] m]. apply find_row_Some in Hrow as [Hm E].
  cbn [fst snd] in *. apply Z.eqb_eq in E as ->. exists m.
  match goal with Hx : anonymize _ _ _ _ = inr _ |- _ => apply anonymize_spec in Hx as (r&Hu&Hdel&->) end.
  pose proof (owned_data_tables u now (delete_reads u s' d)) as (E1&E2&E3&E4&E5&E6&E7).
  pose proof (delete_reads_core u s' d) as (F1&F2&_&F4&F5&F6&F7&_).
  revert Hu E1 E2 E3 E4 E5 E6 E7. generalize (delete_owned_data u now (delete_reads u s' d)). intros d1.
  rewrite F1, F2, F4, F5, F6, F7. intros Hu E1 E2 E3 E4 E5 E6 E7. rewrite E1 in Hu. exists r.
  unfold community_account_cleanup. simpl. rewrite E1, E2, E3, E4, E5, E6, E7. by split_and!.
Qed.

(** What a ban leaves in each table. *)
Lemma Ban_tables s v u reason now d d' :
  repo_BanMemberWithReason s v u reason now d = (inr tt, d') →
  ∃ mv mu, v ≠ u ∧ db_members d !! (s, v) = Some mv ∧ db_members d !! (s, u) = Some mu ∧
    mb_role mu ≠ RoleOwner ∧ outranks (mb_role mv) (mb_role mu) = true ∧
    db_bans d !! u = None ∧ db_bans d' = <[u := mkBan v now reason]> (db_bans d) ∧
    db_users d' = db_users d ∧
    db_members d' = delete_where (fun k _ => (k.2 =? u)%Z) (db_members d) ∧
    db_sessions d' = delete_where (fun _ s => (ss_user_id s =? u)%Z) (db_sessions d) ∧
    db_links d' = delete_where (fun _ l => (lk_created_by l =? u)%Z) (db_links d) ∧
    db_invites d' = delete_where (fun _ v => (iv_inviter v =? u)%Z || (iv_invitee v =? u)%Z) (db_invites d) ∧
    ∀ i m, db_scheduled d' !! i = Some m → sc_user_id m = u →
      sc_status m = ScheduleCancelled ∨ sc_status m = ScheduleSent.
Proof.
  intros (mv&mu&d1&Hne&Hv&Hu&Hr&Ho&Hb&Hc&Hs)%Ban_run. exists mv, mu.
  apply insert_ban_spec in Hb as (_&Hb&_&_&->). destruct Hc as (Eu&Es&_&Em&Eb&Ei&El&_).
  split_and!; try done. intros i m Hi Hm. rewrite Hs in Hi. clear - Hi Hm.
  unfold cancel_scheduled at 1 in Hi. simpl in Hi. apply update_where_Some in Hi as (w&_&->).
  destruct (_ && _) eqn:E; [by left|]. rewrite Hm, Z.eqb_refl in E. simpl in E.
  apply bool_decide_eq_false in E. destruct (sc_status w); [set_solver|by right|set_solver|by left].
Qed.

Lemma UpdateRole_run s v u role d r d' :
  repo_UpdateMemberRole s v u role d = (inr r, d') →
  ∃ mv mu, v ≠ u ∧ db_members d !! (s, v) = Some mv ∧ mb_role mv = RoleOwner ∧
    db_members d !! (s, u) = Some mu ∧ mb_role mu ≠ RoleOwner ∧
    db_members d' = <[(s, u) := mu <| mb_role := role |>]> (db_members d).
Proof.
  intros Hr%atomically_inr. unfold findRequesterRole, findMemberRole, findServerMember in Hr. tx_run.
  all: repeat match goal with
    | Hx : mb_role <$> _ = Some _ |- _ => apply fmap_Some in Hx as (?&?&?); subst
    | Hx : negb _ = true |- _ => apply negb_true_iff in Hx
    | Hx : (_ =? _)%Z = false |- _ => apply Z.eqb_neq in Hx
    | Hx : bool_decide _ = false |- _ => apply bool_decide_eq_false in Hx
    | Hx : bool_decide _ = true |- _ => apply bool_decide_eq_true in Hx
    | Hx : record_audit _ _ _ _ _ _ _ = inr _ |- _ => apply audit_core in Hx as (_&_&_&?&_)
    end; do 2 eexists; split_and!; try done.
  - symmetry. apply insert_id. match goal with Hx : _ !! (s, u) = Some ?w |- _ => by destruct w end.
  - match goal with Hx : db_members _ = db_members (set_role _ _ _ _ _) |- _ => rewrite Hx end. apply map_eq. intros k. simpl.
    rewrite lookup_update_where, lookup_insert. case_decide as E; subst.
    + rewrite bool_decide_true by done. match goal with Hx : db_members d !! (s, u) = _ |- _ => rewrite Hx end.
      simpl. by rewrite bool_decide_true.
    + rewrite bool_decide_false by done. simpl. by destruct (db_members d !! k).
Qed.
End runs.
