(* ===== verification/StoreProps.v ===== *)
(** * Properties of the community database

    The invariant along every run, exact counting of link uses, who can change
    whose role, and what remains of an account that was banned or deleted. *)

From S2P Require Import Prelude GoText Events HubSystem Tables Posts Store Accounts Members Invites StoreInv StoreKeep StoreSystem StoreFrames StoreRuns.

Section links.
Context `{MapOrder, Platform}.
Implicit Types (c : call) (d : DB) (a : answer) (l : link_row).

(** [a] reports a use of the link with token hash [hash]. *)
Definition redeems (hash : string) a : bool :=
  match a with Redeemed h _ => String.eqb h hash | _ => false end.
Definition uses (hash : string) (answers : list answer) : Z :=
  Z.of_nat (length (List.filter (redeems hash) answers)).

(** What one call may do to the links: delete some, count one use of a usable
    link for a user it admits, create one under a new key, or revoke one. *)
Inductive link_change d : answer → DB → Prop :=
  | LinksShrink a d' :
      (∀ i l, db_links d' !! i = Some l → db_links d !! i = Some l) → (∀ h, redeems h a = false) →
      db_link_seq d' = db_link_seq d → link_change d a d'
  | LinkUsed id l u now d' :
      db_links d !! id = Some l → usable now l = true →
      db_members d !! (lk_server_id l, u) = None →
      mb_role <$> db_members d' !! (lk_server_id l, u) = Some RoleMember →
      db_links d' = <[id := l <| lk_use_count ::= Z.succ |>]> (db_links d) →
      db_link_seq d' = db_link_seq d → link_change d (Redeemed (lk_token_hash l) u) d'
  | LinkCreated l d' :
      is_Some (db_members d !! (lk_server_id l, lk_created_by l)) →
      db_links d' = <[(db_link_seq d + 1)%Z := l]> (db_links d) →
      db_link_seq d' = (db_link_seq d + 1)%Z → link_change d Done d'
  | LinkRevoked id l t d' :
      db_links d !! id = Some l → (∀ t', lk_revoked_at l = Some t' → t' = t) →
      db_links d' = <[id := l <| lk_revoked_at := Some t |>]> (db_links d) →
      db_link_seq d' = db_link_seq d → link_change d Done d'.

Lemma answered_plain {E A} (p : (E + A) * DB) hash : redeems hash (answered p).1 = false.
Proof. by destruct p as [[] ?]. Qed.

(** Calls that never report a use of a link. *)
Lemma plain_answer c d hash : writes_links c = false → redeems hash (run_call c d).1 = false.
Proof.
  destruct c; intros Hw; try discriminate Hw; simpl; try done; try apply answered_plain.
  destruct (role_Validate _); [done|apply answered_plain].
Qed.

Lemma links_shrink d d' a P :
  db_links d' = delete_where P (db_links d) → (∀ h, redeems h a = false) → db_link_seq d' = db_link_seq d →
  link_change d a d'.
Proof. intros E Ha Hs. constructor; [|done..]. intros i l. rewrite E. by intros [? _]%delete_where_Some. Qed.

Lemma links_refused d : link_change d Refused d.
Proof. by constructor. Qed.
Hint Resolve links_refused : core.

Lemma link_change_call c d a d' : db_inv d → run_call c d = (a, d') → link_change d a d'.
Proof.
  intros Hi Hr. pose proof (link_seq_frame c d Hi) as Hseq. destruct (writes_links c) eqn:Hw.
  2:{ pose proof (links_frame c d Hi Hw) as E. pose proof (fun h => plain_answer c d h Hw) as Ha.
      assert (creates_link c = false) as Hc by (by destruct c). specialize (Hseq Hc).
      rewrite Hr in E, Ha, Hseq. simpl in *. constructor; [|done..]. by rewrite E. }
  destruct c; try discriminate Hw; cbn [creates_link run_call] in Hr, Hseq; unfold answered in Hr.
  - destruct (RegisterWithInvite _ _ _ _ _ _ _ _ _ _) as [[e|[[info s] m]] d1] eqn:E; simplify_eq/=.
    { by apply atomically_inl in E as ->. }
    apply Register_run in E as (id&l&_&_&Hl&Hreg&->&_&->&_&_&El&Hm&Em&_); [|done].
    apply registration_link_spec in Hreg as (<-&_&Hu&_). eapply LinkUsed; try done; [|by apply Hseq].
    by rewrite Em, lookup_insert_eq.
  - destruct (server_DeleteAccount _ _ _ _) as [[e|s] d1] eqn:E; simplify_eq/=.
    { by apply atomically_inl in E as ->. }
    apply DeleteAccount_run in E as (_&_&_&_&_&_&_&_&_&El&_). eapply links_shrink; [done..|by apply Hseq].
  - destruct (repo_BanMemberWithReason _ _ _ _ _ _) as [[e|[]] d1] eqn:E; simplify_eq/=.
    { by apply atomically_inl in E as ->. }
    apply Ban_tables in E as (_&_&_&_&_&_&_&_&_&_&_&_&El&_). eapply links_shrink; [done..|by apply Hseq].
  - destruct (link_Validate _) eqn:Hv; simplify_eq/=; [done|].
    destruct (repo_CreateLink _ _ _ _ _ _ _ _) as [[e|x] d1] eqn:E; simplify_eq/=.
    { by apply atomically_inl in E as ->. }
    apply atomically_inr in E. tx_run. match goal with Hx : insert_link _ _ _ _ _ _ _ _ = inr _ |- _ =>
      apply insert_link_spec in Hx as (->&->&_); [|by apply link_Validate_limited|apply Hi] end.
    eapply LinkCreated; try done. simpl. unfold has_role in *.
    match goal with |- is_Some ?x => by destruct x end.
  - destruct (repo_AcceptLink _ _ _ _ _) as [[e|[[j m][]]] d1] eqn:E; simplify_eq/=.
    + by apply atomically_inl in E as ->.
    + apply AcceptLink_already in E as ->. by constructor.
    + apply AcceptLink_joins in E as (id&l&Hl&<-&Hu&Hm&El&Em). eapply LinkUsed; try done; [|by apply Hseq].
      by rewrite Em, lookup_insert_eq.
  - destruct (repo_RevokeLink _ _ _ _ _) as [[e|[]] d1] eqn:E; simplify_eq/=.
    { by apply atomically_inl in E as ->. }
    apply atomically_inr in E. unfold requireLinkManager in E. tx_run.
    match goal with Hx : (_ ≫= _) = Some _ |- _ => apply bind_Some in Hx as (w&Hw'&Hg) end. case_decide; [|done].
    injection Hg as <-. eapply LinkRevoked; try done. by intros t' ->.
Qed.

(** A link that is gone stays gone: keys are not handed out twice. *)
Lemma link_gone c d i :
  db_inv d → (i <= db_link_seq d)%Z → db_links d !! i = None →
  (i <= db_link_seq (run_call c d).2)%Z ∧ db_links (run_call c d).2 !! i = None.
Proof.
  intros Hi Hs Hl. destruct (run_call c d) as [a d'] eqn:Hr.
  destruct (link_change_call c d a d' Hi Hr) as [a d' Hsub _ E|id l u now d' Hid _ _ _ El E|l d' _ El E|id l t d' Hid _ El E];
    simpl; rewrite E, ?El.
  - split; [done|]. apply eq_None_not_Some. intros [x Hx%Hsub]. congruence.
  - rewrite lookup_insert_ne by congruence. done.
  - rewrite lookup_insert_ne by lia. split; [lia|done].
  - rewrite lookup_insert_ne by congruence. done.
Qed.

Lemma link_gone_run cs : ∀ d i,
  db_inv d → (i <= db_link_seq d)%Z → db_links d !! i = None → db_links (run_calls cs d).2 !! i = None.
Proof.
  induction cs as [|c cs IH]; intros d i Hi Hs Hl; simpl; [done|].
  pose proof (run_call_inv c d Hi) as Hi1. destruct (link_gone c d i Hi Hs Hl) as [Hs1 Hl1].
  destruct (run_call c d) as [a d1]. simpl in *. specialize (IH d1 i Hi1 Hs1 Hl1). by destruct (run_calls cs d1).
Qed.

Lemma link_step c d a d' i l l' :
  db_inv d → run_call c d = (a, d') → db_links d !! i = Some l → db_links d' !! i = Some l' →
  lk_use_count l' = (lk_use_count l + if redeems (lk_token_hash l) a then 1 else 0)%Z ∧
  lk_token_hash l' = lk_token_hash l ∧ lk_max_uses l' = lk_max_uses l ∧ lk_server_id l' = lk_server_id l.
Proof.
  intros Hi Hr Hl Hl'.
  destruct (link_change_call c d a d' Hi Hr) as [a d' Hsub Ha _|id l0 u now d' Hid _ _ _ El _|l0 d' _ El _|id l0 t d' Hid _ El _].
  - apply Hsub in Hl'. simplify_eq. rewrite Ha. split_and!; try done. lia.
  - rewrite El, lookup_insert in Hl'. simpl. case_decide as Ei; simplify_eq/=.
    + rewrite String.eqb_refl. split_and!; try done; lia.
    + rewrite (proj2 (String.eqb_neq _ _)); [split_and!; try done; lia|]. intros Et. apply Ei.
      eapply (lo_tokens _ _ _ _ (di_links _ Hi)); eauto. by rewrite Et.
  - rewrite El, lookup_insert_ne in Hl'.
    { simplify_eq/=. split_and!; try done; lia. }
    destruct (lo_rows _ _ _ _ (di_links _ Hi) _ _ Hl) as (?&_). lia.
  - rewrite El, lookup_insert in Hl'. simpl. case_decide; simplify_eq/=; split_and!; try done; lia.
Qed.

Lemma uses_cons hash a (rest : list answer) :
  uses hash (a :: rest) = ((if redeems hash a then 1 else 0) + uses hash rest)%Z.
Proof. unfold uses. simpl. destruct (redeems hash a); simpl; lia. Qed.

Lemma link_uses_run cs : ∀ d i l l',
  db_inv d → db_links d !! i = Some l → db_links (run_calls cs d).2 !! i = Some l' →
  lk_use_count l' = (lk_use_count l + uses (lk_token_hash l) (run_calls cs d).1)%Z ∧ lk_max_uses l' = lk_max_uses l.
Proof.
  induction cs as [|c cs IH]; intros d i l l' Hi Hl; simpl.
  { intros ?. simplify_eq/=. unfold uses. simpl. split; [lia|done]. }
  pose proof (run_call_inv c d Hi) as Hi1. destruct (run_call c d) as [a d1] eqn:Hr. simpl in Hi1.
  destruct (db_links d1 !! i) as [l1|] eqn:Hl1.
  - specialize (IH d1 i l1 l' Hi1 Hl1). destruct (run_calls cs d1) as [as1 d2]. simpl in *. intros Hl2.
    destruct (IH Hl2) as [-> ->]. rewrite uses_cons.
    destruct (link_step c d a d1 i l l1 Hi Hr Hl Hl1) as (->&->&->&_). split; [lia|done].
  - pose proof (lo_rows _ _ _ _ (di_links _ Hi) i l Hl) as (Hb&_).
    destruct (link_change_call c d a d1 Hi Hr) as [a d1 Hsub _ E|? ? ? ? d1 ? _ _ _ _ E|? d1 _ _ E|? ? ? d1 _ _ _ E].
    all: pose proof (link_gone_run cs d1 i Hi1 ltac:(lia) Hl1) as Hn;
      destruct (run_calls cs d1) as [as1 d2]; simpl in *; congruence.
Qed.
End links.

(** ** Runs of an instance *)

(** The database right after the bootstrap, and any state after it. *)
Definition started `{MapOrder, Platform} (d : DB) : Prop :=
  ∃ inst cf r h n1 n2 n3 res, Ensure cf r h n1 n2 n3 (empty_db inst) = (inr res, d).
Definition reachable_db `{MapOrder, Platform} (d : DB) : Prop :=
  ∃ d0 cs, started d0 ∧ d = (run_calls cs d0).2.

Definition role_of (s u : Z) (d : DB) : option Role := mb_role <$> db_members d !! (s, u).

(** The order of the roles: the owner above everybody, an admin above plain
    members. *)
Definition ranks_above (r r' : Role) : Prop :=
  r = RoleOwner ∧ r' ≠ RoleOwner ∨ r = RoleAdmin ∧ r' = RoleMember.

Lemma outranks_spec r r' : r' ≠ RoleOwner ∧ outranks r r' = true ↔ ranks_above r r'.
Proof. unfold ranks_above. destruct r, r'; compute; naive_solver. Qed.

(** The ways in which the role of user [u] on server [s] may change. *)
Inductive role_change `{MapOrder, Platform} (d : DB) (s u : Z) : call → option Role → option Role → Prop :=
  | Invited id v n1 n2 n3 :
      db_invites d !! id = Some v → iv_server_id v = s → iv_invitee v = u → iv_status v = StatusPending →
      (n1 < iv_expires_at v)%Z → role_change d s u (CAccept id u n1 n2 n3) None (Some RoleMember)
  | Linked id l n1 n2 :
      db_links d !! id = Some l → lk_server_id l = s → usable n1 l = true →
      role_change d s u (CAcceptLink (lk_token_hash l) u n1 n2) None (Some RoleMember)
  | Registered id l name hash token exp n1 n2 n3 n4 :
      db_links d !! id = Some l → lk_server_id l = s → usable n1 l = true → lk_allow_registration l = true →
      db_users d !! u = None →
      role_change d s u (CRegister name hash (lk_token_hash l) token exp n1 n2 n3 n4) None (Some RoleMember)
  | Assigned v role r r' :
      role_of s v d = Some RoleOwner → v ≠ u → r ≠ RoleOwner → r' ≠ RoleOwner →
      role_change d s u (CUpdateRole s v u role) (Some r) (Some r')
  | Banned v reason now r rv :
      role_of s v d = Some rv → ranks_above rv r → v ≠ u →
      role_change d s u (CBan s v u reason now) (Some r) None
  | Left hex now r : r ≠ RoleOwner → role_change d s u (CDeleteAccount u hex now) (Some r) None.

Section roles.
Context `{MapOrder, Platform}.
Implicit Types (c : call) (d : DB).

(** There is one server, so a member of any server is a member of that one. *)
Lemma same_server d s s' u u' m m' :
  db_inv d → db_members d !! (s, u) = Some m → db_members d !! (s', u') = Some m' → s = s'.
Proof.
  intros Hi Hm Hm'. destruct (di_members _ Hi _ _ _ Hm) as [[r Hs] _].
  destruct (di_members _ Hi _ _ _ Hm') as [[r' Hs'] _]. destruct (di_owner _ Hi) as (s0&r0&E&_).
  rewrite E in Hs, Hs'. apply lookup_singleton_Some in Hs as [<- _]. by apply lookup_singleton_Some in Hs' as [<- _].
Qed.

(** Removing the memberships of [v] takes the role of a plain member away and
    nobody else's. *)
Lemma role_removed d d' s s0 u v m :
  db_inv d → db_members d' = delete_where (fun k _ => (k.2 =? v)%Z) (db_members d) →
  db_members d !! (s0, v) = Some m →
  role_of s u d' = role_of s u d ∨ s = s0 ∧ u = v ∧ role_of s u d = Some (mb_role m) ∧ role_of s u d' = None.
Proof.
  intros Hi E Hm. unfold role_of. rewrite E, lookup_delete_where.
  destruct (db_members d !! (s, u)) as [m'|] eqn:Hm'; [simpl|by left].
  destruct (u =? v)%Z eqn:Ev; [right|by left]. apply Z.eqb_eq in Ev as ->.
  pose proof (same_server _ _ _ _ _ _ _ Hi Hm' Hm) as ->. simplify_eq. done.
Qed.

Lemma role_inserted d d' s s0 u v m :
  db_members d' = <[(s0, v) := m]> (db_members d) →
  role_of s u d' = role_of s u d ∨ s = s0 ∧ u = v ∧ role_of s u d' = Some (mb_role m).
Proof.
  intros E. unfold role_of. rewrite E, lookup_insert. case_decide as Ek; [|by left].
  injection Ek as -> ->. by right.
Qed.

Lemma role_change_call c d a d' s u :
  db_inv d → run_call c d = (a, d') →
  role_of s u d' = role_of s u d ∨ role_change d s u c (role_of s u d) (role_of s u d').
Proof.
  intros Hi Hr. destruct (writes_members c) eqn:Hw.
  2:{ left. pose proof (members_frame c d Hi Hw) as E. rewrite Hr in E. simpl in E. unfold role_of. by rewrite E. }
  destruct c; try discriminate Hw; cbn [run_call] in Hr; unfold answered in Hr.
  - destruct (RegisterWithInvite _ _ _ _ _ _ _ _ _ _) as [[e|[[info s0] m]] d1] eqn:E; simplify_eq/=.
    { apply atomically_inl in E as ->. by left. }
    apply Register_run in E as (id&l&_&_&Hl&Hreg&->&_&_&Hu&_&_&Hm&Em&_); [|done].
    apply registration_link_spec in Hreg as (<-&Hal&Hus&_).
    destruct (role_inserted d _ s _ u _ _ Em) as [?|(->&->&->)]; [by left|right].
    unfold role_of. rewrite Hm. by econstructor.
  - destruct (server_DeleteAccount _ _ _ _) as [[e|s0] d1] eqn:E; simplify_eq/=.
    { apply atomically_inl in E as ->. by left. }
    apply DeleteAccount_run in E as (m&_&Hm&Hrole&_&_&_&Em&_).
    destruct (role_removed d _ s s0 u _ m Hi Em Hm) as [?|(->&->&->&->)]; [by left|right]. by constructor.
  - destruct (role_Validate role) as [|r0] eqn:Hv; simplify_eq/=; [by left|].
    destruct (repo_UpdateMemberRole _ _ _ _ _) as [[e|x] d1] eqn:E; simplify_eq/=.
    { apply atomically_inl in E as ->. by left. }
    apply UpdateRole_run in E as (mv&mu&Hne&Hv'&Ho&Hu&Hr0&Em).
    destruct (role_inserted d _ s _ u _ _ Em) as [?|(->&->&->)]; [by left|right].
    unfold role_of. rewrite Hu. simpl. constructor; try done; [|by eapply role_Validate_plain].
    unfold role_of. by rewrite Hv', <- Ho.
  - destruct (repo_BanMemberWithReason _ _ _ _ _ _) as [[e|[]] d1] eqn:E; simplify_eq/=.
    { apply atomically_inl in E as ->. by left. }
    apply Ban_tables in E as (mv&mu&Hne&Hv&Hu&Hrole&Ho&_&_&_&Em&_).
    destruct (role_removed d _ s _ u _ mu Hi Em Hu) as [?|(->&->&->&->)]; [by left|right].
    econstructor; try done; [unfold role_of; by rewrite Hv|by apply outranks_spec].
  - left. destruct (repo_SetMemberTimeout _ _ _ _ _) as [[e|[]] d1] eqn:E; simplify_eq/=.
    { by apply atomically_inl in E as ->. }
    apply atomically_inr in E. tx_run. apply authorize_run in Hrun as (->&_).
    apply audit_core in E as (_&_&_&Em&_). unfold role_of. rewrite Em. simpl. rewrite lookup_alter.
    case_decide as Ek; [|done]. injection Ek as -> ->. by destruct (db_members d !! (s, u)).
  - destruct (repo_Accept _ _ _ _ _ _) as [[e|x] d1] eqn:E; simplify_eq/=.
    { left. unfold role_of. by rewrite (Accept_refused _ _ _ _ _ _ _ _ E). }
    apply Accept_run in E as (v&Hv&<-&Hst&Hexp&_&Em). destruct (db_members d !! _) as [m|] eqn:Hm.
    { left. unfold role_of. by rewrite Em. }
    destruct (role_inserted d _ s _ u _ _ Em) as [?|(->&->&->)]; [by left|right].
    unfold role_of. rewrite Hm. by econstructor.
  - destruct (repo_AcceptLink _ _ _ _ _) as [[e|[[j m][]]] d1] eqn:E; simplify_eq/=.
    + apply atomically_inl in E as ->. by left.
    + apply AcceptLink_already in E as ->. by left.
    + apply AcceptLink_joins in E as (id&l&Hl&<-&Hu&Hm&_&Em).
      destruct (role_inserted d _ s _ u _ _ Em) as [?|(->&->&->)]; [by left|right].
      unfold role_of. rewrite Hm. by econstructor.
Qed.

Lemma reachable_db_inv d : reachable_db d → db_inv d.
Proof.
  intros (d0&cs&(inst&cf&r&h&n1&n2&n3&res&Hs)&->). apply run_calls_inv.
  by apply Ensure_establishes in Hs as [? _].
Qed.
End roles.

(** ** Accounts that were banned or deleted *)

(** [u] is signed in somewhere, is a member, or has an invitation or a link. *)
Definition has_access (d : DB) (u : Z) : Prop :=
  (∃ i s, db_sessions d !! i = Some s ∧ ss_user_id s = u) ∨
  (∃ s, is_Some (db_members d !! (s, u))) ∨
  (∃ i l, db_links d !! i = Some l ∧ lk_created_by l = u) ∨
  (∃ i v, db_invites d !! i = Some v ∧ (iv_inviter v = u ∨ iv_invitee v = u)).

(** Whoever has access is neither deleted nor banned. *)
Definition only_active (d : DB) : Prop := ∀ u, has_access d u → active_user d u = true.

(** The request was authenticated before; its user is still active when a
    session is created or a link is used. *)
Definition still_active (c : call) (d : DB) : Prop :=
  match c with
  | CSessionCreate u _ _ _ _ | CAcceptLink _ u _ _ => active_user d u = true
  | _ => True
  end.

Section access.
Context `{MapOrder, Platform}.
Implicit Types (c : call) (d : DB).

Lemma active_same d d' u :
  db_users d' = db_users d → db_bans d' = db_bans d → active_user d' u = active_user d u.
Proof. unfold active_user. by intros -> ->. Qed.

(** Deleting everything that mentions [v] leaves [v] without access. *)
Lemma cleared d d' v :
  db_members d' = delete_where (fun k _ => (k.2 =? v)%Z) (db_members d) →
  db_sessions d' = delete_where (fun _ s => (ss_user_id s =? v)%Z) (db_sessions d) →
  db_links d' = delete_where (fun _ l => (lk_created_by l =? v)%Z) (db_links d) →
  db_invites d' = delete_where (fun _ i => (iv_inviter i =? v)%Z || (iv_invitee i =? v)%Z) (db_invites d) →
  ¬ has_access d' v.
Proof.
  intros Em Es El Ei. unfold has_access. rewrite Em, Es, El, Ei.
  intros [(i&s&Hx&<-)|[(s&[m Hx])|[(i&l&Hx&<-)|(i&w&Hx&[<-|<-])]]];
    apply delete_where_Some in Hx as [_ Hx]; simpl in Hx; by rewrite Z.eqb_refl, ?orb_true_r in Hx.
Qed.

Lemma active_alter_user d d' f v u :
  db_users d' = alter f v (db_users d) → db_bans d' = db_bans d →
  (∀ r, us_deleted_at (f r) = us_deleted_at r) → active_user d' u = active_user d u.
Proof.
  intros Eu Eb Hf. unfold active_user. rewrite Eu, Eb, lookup_alter. case_decide as E; [|done].
  subst. destruct (db_users d !! u); simpl; [|done]. by rewrite Hf.
Qed.

Lemma Backfill_active d u : active_user (BackfillUsernameKeys d) u = active_user d u.
Proof.
  unfold BackfillUsernameKeys. generalize (fmap (M := list) (fun e : Z * user_row => (e.1, us_username e.2))
    (filter (fun e => us_username_key e.2 = None) (range_entries (db_users d)))). intros todo.
  revert d. induction todo as [|p todo IH]; intros d; simpl; [done|]. rewrite IH.
  unfold set_username_key. destruct (db_users d !! p.1) as [r|] eqn:Hr; [|done]. case_match; [|done].
  unfold active_user. simpl. rewrite lookup_insert. case_decide as E; [|done]. subst. by rewrite Hr.
Qed.

(** Only a ban or a deletion takes an account out of use, and both clear it. *)
Lemma active_kept c d u :
  db_inv d → active_user d u = true →
  active_user (run_call c d).2 u = true ∨ ¬ has_access (run_call c d).2 u.
Proof.
  intros Hi Ha. destruct (writes_users c) eqn:Hu.
  - assert (writes_bans c = false) as Hb by (by destruct c). pose proof (bans_frame c d Hi Hb) as Eb.
    destruct c; try discriminate Hu; simpl in *.
    + left. destruct (ReplacePasswordAndRevokeOthers _ _ _ _ _) as [[e|hs] d1] eqn:E; simpl.
      { by apply atomically_inl in E as ->. }
      apply atomically_inr in E. tx_run. unfold delete_others in E. injection E as _ <-. simpl.
      by erewrite active_alter_user.
    + left. rewrite <- Ha. eapply active_alter_user; [reflexivity..|]. intros r. cbv beta. by case_decide.
    + left. destruct (user_Create _ _ _ _) as [[e|i] d1] eqn:E; simpl.
      { by apply atomically_inl in E as ->. }
      apply atomically_inr in E. tx_run. match goal with Hx : insert_user _ _ _ _ _ = inr _ |- _ =>
        apply insert_user_spec in Hx as (->&Hn&->&_); [|apply Hi] end.
      apply active_user_spec in Ha. apply active_user_spec. simpl. by apply active_insert_new.
    + left. destruct (RegisterWithInvite _ _ _ _ _ _ _ _ _ _) as [[e|[[info s0] m]] d1] eqn:E; simpl in *.
      { by apply atomically_inl in E as ->. }
      apply Register_run in E as (?&?&?&?&_&_&_&_&_&Hn&Eu&_&_&_&_&Eb'); [|done].
      apply active_user_spec in Ha. apply active_user_spec. rewrite Eu, Eb'. by apply active_insert_new.
    + left. rewrite <- Ha. apply (Backfill_active d u).
    + left. unfold ResetPassword. destruct (find_row _ _) as [[v r]|]; simpl; [|done].
      by erewrite active_alter_user.
    + destruct (server_DeleteAccount _ _ _ _) as [[e|s] d1] eqn:E; simpl in *.
      { apply atomically_inl in E as ->. by left. }
      apply DeleteAccount_run in E as (m&r&_&_&_&_&Eu&Em&Es&El&Ei&_).
      destruct (decide (u = u0)) as [->|Hne].
      * right. by eapply cleared.
      * left. rewrite <- Ha. unfold active_user. by rewrite Eu, Eb, lookup_insert_ne.
  - pose proof (users_frame c d Hi Hu) as Eu. destruct (writes_bans c) eqn:Hb.
    2:{ left. by rewrite (active_same d _ u Eu (bans_frame c d Hi Hb)). }
    destruct c; try discriminate Hb; simpl in *.
    + destruct (repo_BanMemberWithReason _ _ _ _ _ _) as [[e|[]] d1] eqn:E; simpl in *.
      { apply atomically_inl in E as ->. by left. }
      apply Ban_tables in E as (mv&mu&Hne&Hv&Hu0&Hrole&Ho&_&Eb&_&Em&Es&El&Ei&_).
      destruct (decide (u = u0)) as [->|Hne'].
      * right. by eapply cleared.
      * left. rewrite <- Ha. unfold active_user, has_key. by rewrite Eu, Eb, lookup_insert_ne.
    + left. destruct (repo_Unban _ _ _ _) as [[e|[]] d1] eqn:E; simpl in *.
      { by apply atomically_inl in E as ->. }
      apply atomically_inr in E. unfold findRequesterRole in E. tx_run. apply audit_core in E as (_&_&_&_&Eb&_).
      apply active_user_spec in Ha as [Ha Hn]. apply active_user_spec. split; [by rewrite Eu|].
      rewrite Eb. simpl. apply lookup_delete_None. by right.
Qed.

Lemma new_user_active d d' u r :
  db_inv d → db_users d !! u = None → db_users d' !! u = Some r → us_deleted_at r = None →
  db_bans d' = db_bans d → active_user d' u = true.
Proof.
  intros Hi Hn Hr Hd Eb. apply active_user_spec. split; [eauto|]. rewrite Eb.
  destruct (db_bans d !! u) eqn:E; [|done]. apply (di_bans _ Hi) in E as ([? ?]&_). congruence.
Qed.

Lemma session_access c d i s :
  db_inv d → still_active c d → db_sessions (run_call c d).2 !! i = Some s →
  active_user (run_call c d).2 (ss_user_id s) = true ∨ has_access d (ss_user_id s).
Proof.
  intros Hi Ha Hs. destruct (writes_sessions c) eqn:Hw.
  2:{ right. left. rewrite (sessions_frame c d Hi Hw) in Hs. eauto. }
  assert (∀ m P, m !! i = Some s → m = delete_where P (db_sessions d) → has_access d (ss_user_id s)) as Hdel.
  { intros m P Hm ->. apply delete_where_Some in Hm as [? _]. left. eauto. }
  destruct c; try discriminate Hw; simpl in *.
  - right. unfold DeleteExpired in Hs. case_match; simpl in Hs; [left; eauto|]. eapply Hdel; [exact Hs|first [exact Es|reflexivity]].
  - destruct (session_Create _ _ _ _ _ _) as [[e|[]] d1] eqn:E; simpl in *.
    { apply atomically_inl in E as ->. right. left. eauto. }
    apply atomically_inr in E. tx_run. match goal with Hx : insert_session _ _ _ _ _ _ _ = inr _ |- _ =>
      apply insert_session_spec in Hx as (_&_&->&_); [|apply Hi] end.
    simpl in Hs. rewrite lookup_insert_Some in Hs. destruct Hs as [[_ <-]|[_ Hs]]; [left|right; left; eauto].
    simpl. by rewrite (active_same d).
  - right. eapply Hdel; [exact Hs|first [exact Es|reflexivity]].
  - right. unfold Rotate in Hs. destruct (find_row _ _) as [[id y]|] eqn:Hf; simpl in Hs; [|left; eauto].
    apply live_session_row in Hf as (Hy&_). repeat (case_match; simpl in Hs; [left; eauto|]).
    rewrite lookup_insert_Some in Hs. destruct Hs as [[_ <-]|[_ Hs]]; simpl; left; eauto.
  - right. unfold Touch in Hs. destruct (find_row _ _) as [[id y]|] eqn:Hf; simpl in Hs; [|left; eauto].
    case_match; simpl in Hs; [|left; eauto]. apply update_where_Some in Hs as (w&Hw'&->).
    left. exists i, w. split; [done|]. by destruct (_ && _).
  - right. unfold DeleteByID in Hs. repeat (case_match; simpl in Hs; try (left; eauto; fail)).
    apply lookup_delete_Some in Hs as [_ ?]. left. eauto.
  - right. eapply Hdel; [exact Hs|first [exact Es|reflexivity]].
  - right. destruct (ReplacePasswordAndRevokeOthers _ _ _ _ _) as [[e|hs] d1] eqn:E; simpl in *.
    { apply atomically_inl in E as ->. left. eauto. }
    apply atomically_inr in E. tx_run. unfold delete_others in E. injection E as _ <-. eapply Hdel; [exact Hs|first [exact Es|reflexivity]].
  - destruct (RegisterWithInvite _ _ _ _ _ _ _ _ _ _) as [[e|[[info s0] m]] d1] eqn:E; simpl in *.
    { apply atomically_inl in E as ->. right. left. eauto. }
    apply Register_run in E as (?&?&?&?&_&_&_&_&_&Hn&Eu&_&_&_&[sid Es]&Eb); [|done].
    rewrite Es, lookup_insert_Some in Hs. destruct Hs as [[_ <-]|[_ Hs]]; [left|right; left; eauto].
    eapply new_user_active; [done|exact Hn|by rewrite Eu, lookup_insert_eq|done..].
  - right. unfold ResetPassword in Hs. destruct (find_row _ _) as [[v r]|]; simpl in Hs; [|left; eauto]. eapply Hdel; [exact Hs|first [exact Es|reflexivity]].
  - right. destruct (server_DeleteAccount _ _ _ _) as [[e|s0] d1] eqn:E; simpl in *.
    { apply atomically_inl in E as ->. left. eauto. }
    apply DeleteAccount_run in E as (?&?&_&_&_&_&_&_&Es&_). eapply Hdel; [exact Hs|first [exact Es|reflexivity]].
  - right. destruct (repo_BanMemberWithReason _ _ _ _ _ _) as [[e|[]] d1] eqn:E; simpl in *.
    { apply atomically_inl in E as ->. left. eauto. }
    apply Ban_tables in E as (?&?&_&_&_&_&_&_&_&_&_&Es&_). eapply Hdel; [exact Hs|first [exact Es|reflexivity]].
Qed.

Lemma member_access c d s u :
  db_inv d → still_active c d → is_Some (db_members (run_call c d).2 !! (s, u)) →
  active_user (run_call c d).2 u = true ∨ has_access d u.
Proof.
  intros Hi Ha Hm. destruct (run_call c d) as [a d'] eqn:Hr. simpl in Hm.
  assert (is_Some (db_members d !! (s, u)) → has_access d u) as Hold by (right; left; eauto).
  assert (∀ d1, role_of s u d' = role_of s u d1 → is_Some (db_members d1 !! (s, u))) as Hsame.
  { unfold role_of. destruct Hm as [x ->]. intros d1 E. by destruct (db_members d1 !! (s, u)). }
  assert (role_of s u d' ≠ None) as Hd' by (unfold role_of; by destruct Hm as [x ->]).
  destruct (role_change_call c d a d' s u Hi Hr) as [E|Hc]; [auto|].
  assert (role_of s u d ≠ None → has_access d u) as Hold'.
  { unfold role_of. by destruct (db_members d !! (s, u)); [intros _; apply Hold|]. }
  inversion Hc as [id v n1 n2 n3 Hv _ <- _ _|id l n1 n2 Hl _ _|id l name hash token exp n1 n2 n3 n4 _ _ _ _ Hn| | |];
    subst; try congruence.
  - right. do 3 right. eauto 10.
  - left. simpl in Ha. rewrite <- Ha.
    pose proof (users_frame (CAcceptLink (lk_token_hash l) u n1 n2) d Hi eq_refl) as Eu.
    pose proof (bans_frame (CAcceptLink (lk_token_hash l) u n1 n2) d Hi eq_refl) as Eb.
    rewrite Hr in Eu, Eb. by apply active_same.
  - cbn [run_call] in Hr.
    destruct (RegisterWithInvite _ _ _ _ _ _ _ _ _ _) as [[e|[[info s0] m]] d1] eqn:E; simplify_eq/=.
    { apply atomically_inl in E as ->. auto. }
    apply Register_run in E as (?&?&?&?&_&_&_&_&_&Hn'&Eu&_&_&Em&_&Eb); [|done].
    destruct (role_inserted d _ s _ u _ _ Em) as [E|(->&->&_)]; [congruence|left].
    eapply new_user_active; [done|exact Hn'|by rewrite Eu, lookup_insert_eq|done..].
  - right. apply Hold'. congruence.
Qed.

Lemma link_access c d i l :
  db_inv d → db_links (run_call c d).2 !! i = Some l → has_access d (lk_created_by l).
Proof.
  intros Hi Hl. destruct (run_call c d) as [a d'] eqn:Hr. simpl in Hl.
  assert (∀ l0, db_links d !! i = Some l0 → has_access d (lk_created_by l0)) as Hold.
  { intros l0 Hl0. right. right. left. eauto. }
  destruct (link_change_call c d a d' Hi Hr) as [a d' Hsub _ _|id l0 u now d' Hid _ _ _ El _|l0 d' Hm El _|id l0 t d' Hid _ El _].
  - auto.
  - rewrite El, lookup_insert_Some in Hl. destruct Hl as [[<- <-]|[_ Hl]]; [|auto]. exact (Hold _ Hid).
  - rewrite El, lookup_insert_Some in Hl. destruct Hl as [[_ <-]|[_ Hl]]; [|auto]. right. left. eauto.
  - rewrite El, lookup_insert_Some in Hl. destruct Hl as [[<- <-]|[_ Hl]]; [|auto]. exact (Hold _ Hid).
Qed.

Lemma invite_access c d i v w :
  db_inv d → db_invites (run_call c d).2 !! i = Some v → w = iv_inviter v ∨ w = iv_invitee v →
  active_user (run_call c d).2 w = true ∨ has_access d w.
Proof.
  intros Hi Hv Hw. destruct (writes_invites c) eqn:Hwr.
  2:{ right. do 3 right. rewrite (invites_frame c d Hi Hwr) in Hv. exists i, v. naive_solver. }
  assert (∀ x, db_invites d !! i = Some x → iv_inviter x = iv_inviter v → iv_invitee x = iv_invitee v →
    has_access d w) as Hold.
  { intros x Hx E1 E2. do 3 right. exists i, x. rewrite E1, E2. naive_solver. }
  destruct c; try discriminate Hwr; simpl in *.
  - right. destruct (server_DeleteAccount _ _ _ _) as [[e|s0] d1] eqn:E; simpl in *.
    { apply atomically_inl in E as ->. by eapply Hold. }
    apply DeleteAccount_run in E as (?&?&_&_&_&_&_&_&_&_&Ei&_). rewrite Ei in Hv.
    apply delete_where_Some in Hv as [Hv _]. by eapply Hold.
  - right. destruct (repo_BanMemberWithReason _ _ _ _ _ _) as [[e|[]] d1] eqn:E; simpl in *.
    { apply atomically_inl in E as ->. by eapply Hold. }
    apply Ban_tables in E as (?&?&_&_&_&_&_&_&_&_&_&_&_&Ei&_). rewrite Ei in Hv.
    apply delete_where_Some in Hv as [Hv _]. by eapply Hold.
  - destruct (repo_CreateDirect _ _ _ _ _ _ _) as [[e|x] d1] eqn:E; simpl in *.
    { apply atomically_inl in E as ->. right. by eapply Hold. }
    apply atomically_inr in E. tx_run.
    match goal with Hx : insert_invite _ _ _ _ _ ?d2 = inr _ |- _ =>
      assert (db_inv d2) as Hi2 by (by apply status_update_inv);
      apply insert_invite_spec in Hx as (->&->&_); [|apply Hi2] end.
    simpl in Hv. rewrite lookup_insert_Some in Hv. destruct Hv as [[_ <-]|[_ Hv]]; simpl in *.
    + destruct Hw as [->| ->].
      * right. right. left. match goal with Hx : (if has_role _ _ _ d then _ else _) = Some _ |- _ => rename Hx into Hr' end.
        destruct (has_role _ _ _ d) eqn:Hrole; [|done]. unfold has_role in Hrole. exists s.
        match goal with |- is_Some ?y => by destruct y end.
      * left. match goal with Hx : find_row _ _ = Some ?y |- _ => destruct y as [id0 r0]; apply find_row_Some in Hx as [_ Hg] end.
        apply andb_true_iff in Hg as [_ Hg]. by rewrite <- Hg.
    + right. apply update_where_Some in Hv as (y&Hy&->). by eapply (Hold y); destruct (_ && _).
  - right. destruct (repo_Accept _ _ _ _ _ _) as [[e|x] d1] eqn:E; simpl in *.
    + apply atomically_or_inl in E as [->|E]; [by eapply Hold|].
      unfold selectAcceptedMember, selectJoinedServer in E. tx_run; simplify_eq. unfold unanswerable in E. tx_run.
      simpl in Hv. apply update_where_Some in Hv as (y&Hy&->). by eapply (Hold y); destruct (_ && _).
    + apply Accept_run in E as (v0&Hv0&<-&_&_&Ei&_). rewrite Ei, lookup_insert_Some in Hv.
      destruct Hv as [[<- <-]|[_ Hv]]; by eapply Hold.
  - right. destruct (repo_Decline _ _ _ _ _) as [[e|[]] d1] eqn:E; simpl in *.
    + apply atomically_or_inl in E as [->|E]; [by eapply Hold|].
      tx_run; simplify_eq. unfold unanswerable in E. tx_run.
      simpl in Hv. apply update_where_Some in Hv as (y&Hy&->). by eapply (Hold y); destruct (_ && _).
    + apply atomically_or_inr in E. tx_run.
      * match goal with Hx : answerable _ _ _ _ = Some ?y |- _ => apply answerable_row in Hx as (Hv0&_) end.
        simpl in Hv. rewrite lookup_insert_Some in Hv. destruct Hv as [[<- <-]|[_ Hv]]; by eapply Hold.
      * unfold unanswerable in E. tx_run. simplify_eq.
Qed.

(** Access is only granted to active accounts. *)
Lemma only_active_call c d :
  db_inv d → still_active c d → only_active d → only_active (run_call c d).2.
Proof.
  intros Hi Hs Ha u Hacc.
  assert (active_user (run_call c d).2 u = true ∨ has_access d u) as [?|Hold]; [|done|].
  { destruct Hacc as [(i&s&Hx&<-)|[(s&Hx)|[(i&l&Hx&<-)|(i&v&Hx&Hv)]]].
    - by eapply session_access.
    - by eapply member_access.
    - right. by eapply link_access.
    - eapply invite_access; [done..|]. naive_solver. }
  destruct (active_kept c d u Hi (Ha u Hold)) as [?|Hn]; [done|]. by destruct Hn.
Qed.
End access.
