(* ===== verification/Community.v ===== *)
(** * Accounts, servers and invitations: the claims

    What the services promise over every run of the database of [StoreSystem],
    and, where they act on live connections, over every state of the hub. *)

From S2P Require Import Prelude GoText Events Client VoiceState StreamState Hub HubInv HubSpecs HubOps HubReach HubSystem HubProps.
From S2P Require Import Tables Posts Store Accounts Members Invites StoreInv StoreKeep StoreSystem StoreFrames StoreRuns StoreProps.

(** ** Tokens are not changed by [strings.TrimSpace] *)

(** Printable ASCII other than the space. *)
Fixpoint plain (s : string) : bool :=
  match s with
  | EmptyString => true
  | String c s' => (33 <=? byte_of c)%Z && (byte_of c <=? 126)%Z && plain s'
  end.

Lemma plain_rune c s : plain (String c s) = true →
  decode_rune (String c s) = (byte_of c, 1) ∧ IsSpace (byte_of c) = false ∧ plain s = true.
Proof.
  simpl. rewrite !andb_true_iff, !Z.leb_le. intros [[H1 H2] H3].
  rewrite (proj2 (Z.ltb_lt _ _)) by lia. split; [done|split; [|done]]. unfold IsSpace.
  rewrite <- not_true_iff_false, !orb_true_iff, !andb_true_iff, !Z.eqb_eq, !Z.leb_le. lia.
Qed.

Lemma plain_trim_right s : plain s = true → trim_right 0 s = s.
Proof.
  induction s as [|c s IH]; intros Hp; [done|]. apply plain_rune in Hp as (Hd&Hsp&Hp).
  cbn [trim_right]. unfold runes. cbn [runes_from]. rewrite Hd. cbn [forallb snd]. rewrite Hsp. simpl.
  by rewrite IH.
Qed.
Lemma plain_TrimSpace s : plain s = true → TrimSpace s = s.
Proof.
  intros Hp. unfold TrimSpace. destruct s as [|c s]; [done|].
  pose proof (plain_rune _ _ Hp) as (Hd&Hsp&_). cbn [trim_left]. rewrite Hd, Hsp. by apply plain_trim_right.
Qed.

Lemma plain_b64_char v s : (0 <= v < 64)%Z → plain s = true → plain (String (b64_char v) s) = true.
Proof.
  intros Hv Hs. simpl. rewrite Hs, andb_true_r.
  cut (Forall (fun n => ((33 <=? byte_of (b64_char (Z.of_nat n))) &&
    (byte_of (b64_char (Z.of_nat n)) <=? 126))%Z = true) (seq 0 64)).
  - intros HF. rewrite Forall_forall in HF. specialize (HF (Z.to_nat v)).
    rewrite Z2Nat.id in HF by lia. apply HF, elem_of_seq. lia.
  - repeat constructor.
Qed.
Lemma plain_token bytes : plain (EncodeToString bytes) = true.
Proof.
  induction bytes as [|a|a b|a b c s IH] using string_ind3; [done|..]; cbn [EncodeToString];
    repeat (apply plain_b64_char; [apply mod64_bounds|]); done.
Qed.
Lemma token_nonempty bytes : bytes ≠ "" → EncodeToString bytes ≠ "".
Proof. by destruct bytes as [|a [|b [|c s]]]. Qed.

(** ** Sessions *)

Section sessions.
Context `{MapOrder, Platform}.
Implicit Types (d : DB).

(** A token authenticates its user exactly when its session is stored, has not
    expired and belongs to an active account. *)
Lemma FindActive_exact hash now d u :
  db_inv d →
  FindActiveUserIDByTokenHash hash now d = inr u ↔
  ∃ i s, db_sessions d !! i = Some s ∧ ss_token_hash s = hash ∧ (now < ss_expires_at s)%Z ∧
    ss_user_id s = u ∧ active_user d u = true.
Proof.
  intros Hi. unfold FindActiveUserIDByTokenHash. split.
  - destruct (find_row _ _) as [[i s]|] eqn:Hf; [|done]. intros [= <-].
    apply live_session_row in Hf as (Hs&?&?&Ha). exists i, s. by rewrite active_user_spec.
  - intros (i&s&Hs&<-&Hexp&<-&Ha). rewrite (find_row_unique _ _ i s); [done|done| |].
    + unfold live_session, by_token. rewrite String.eqb_refl, Ha. by rewrite (proj2 (Z.ltb_lt _ _)).
    + intros j s' Hj Hl. unfold live_session, by_token in Hl. rewrite !andb_true_iff, String.eqb_eq in Hl.
      eapply (so_tokens _ _ _ (di_sessions _ Hi)); [exact Hj|exact Hs|reflexivity|]. f_equal. symmetry. apply Hl.
Qed.

Lemma Authenticate_exact o1 o2 token t1 t2 d u :
  db_inv d →
  (Authenticate o1 o2 token t1 t2 d).1 = inr u ↔
  TrimSpace token ≠ "" ∧ ∃ i s, db_sessions d !! i = Some s ∧
    ss_token_hash s = sha256 (TrimSpace token) ∧ (t1 < ss_expires_at s)%Z ∧ ss_user_id s = u ∧
    active_user d u = true.
Proof.
  intros Hi. rewrite <- (FindActive_exact (sha256 (TrimSpace token)) t1 d u Hi). unfold Authenticate, hashSessionToken.
  destruct (String.eqb (TrimSpace token) "") eqn:E.
  - apply String.eqb_eq in E. split; [done|]. by intros [? _].
  - apply String.eqb_neq in E. destruct (FindActiveUserIDByTokenHash _ _ _); simpl;
      (split; [intros ?|intros [_ ?]]); by simplify_eq.
Qed.

(** The account [FindByUsername] returns is active. *)
Lemma FindByUsername_active username d user :
  FindByUsername id username d = inr user →
  ∃ r, db_users d !! usr_ID user = Some r ∧ us_password_hash r = usr_PasswordHash user ∧
    active_user d (usr_ID user) = true.
Proof.
  unfold FindByUsername, findExact. destruct (find_row _ _) as [[i r]|] eqn:Hf.
  - intros [= <-]. apply find_row_Some in Hf as [Hr [_ Ha]%andb_true_iff]. eauto.
  - simpl. clear Hf. destruct (find_row _ _) as [[i r]|] eqn:Hf; [|done].
    intros [= <-]. apply find_row_Some in Hf as [Hr [_ Ha]%andb_true_iff]. eauto.
Qed.

(** A login during which other requests, [others], run between the check of
    the password and the creation of the session. *)
Lemma login_overtaken others d input bytes meta now res d' :
  db_inv (others d) → Login id others input (Some bytes) meta now d = (inr res, d') →
  let token := EncodeToString bytes in
  let u := ui_ID (lr_User res) in
  si_Token (lr_Session res) = token ∧
  (∃ r, db_users d !! u = Some r ∧ bcrypt_matches (us_password_hash r) (li_Password input) = true) ∧
  active_user d u = true ∧ db_users d' = db_users (others d) ∧ db_bans d' = db_bans (others d) ∧ db_inv d' ∧
  ∃ sid, db_sessions d' !! sid = Some (mkSessionRow u (sha256 token) (now + sessionLifetime) now None
           (Some (cm_UserAgent meta)) (Some (cm_IP meta))).
Proof.
  intros Hi. unfold Login. destruct (login_Validate _); [done|]. simpl.
  destruct (FindByUsername _ _ _) as [|user] eqn:Hf; [done|].
  destruct (bcrypt_matches _ _) eqn:Hpw; [|done].
  apply FindByUsername_active in Hf as (r&Hr&Hh&Ha). unfold generateSession. simpl.
  pose proof (session_Create_inv (usr_ID user) (sha256 (EncodeToString bytes)) (now + sessionLifetime) meta now
    (others d) Hi) as Hi'.
  destruct (session_Create _ _ _ _ _ _) as [[e|[]] d1] eqn:Hc; [done|]. intros [= <- <-]. simpl in *.
  apply atomically_inr in Hc. tx_run. match goal with Hx : insert_session _ _ _ _ _ _ _ = inr _ |- _ =>
    apply insert_session_spec in Hx as (_&->&->&_&_); [|apply Hi] end.
  split_and!; [done|exists r; split; [done|by rewrite Hh]|done..|].
  eexists. apply lookup_insert_eq.
Qed.

Lemma login_run d input bytes meta now res d' :
  db_inv d → Login id id input (Some bytes) meta now d = (inr res, d') →
  let token := EncodeToString bytes in
  let u := ui_ID (lr_User res) in
  si_Token (lr_Session res) = token ∧
  (∃ r, db_users d !! u = Some r ∧ bcrypt_matches (us_password_hash r) (li_Password input) = true) ∧
  active_user d' u = true ∧ db_inv d' ∧
  ∃ sid, db_sessions d' !! sid = Some (mkSessionRow u (sha256 token) (now + sessionLifetime) now None
           (Some (cm_UserAgent meta)) (Some (cm_IP meta))).
Proof.
  intros Hi Hl. apply (login_overtaken id) in Hl as (?&?&Ha&Eu&Eb&?&?); [|done].
  split_and!; try done. by rewrite (active_same d).
Qed.
End sessions.

(** ** Reachable databases *)

Section runs.
Context `{MapOrder, Platform}.
Implicit Types (d : DB).

Lemma servers_kept c d s r :
  db_inv d → db_servers d = {[s := r]} →
  ∃ r', db_servers (run_call c d).2 = {[s := r']} ∧ sv_created_by r' = sv_created_by r.
Proof.
  intros Hi E. destruct (match c with CServerUpdate _ _ _ => true | _ => false end) eqn:Hc.
  2:{ exists r. by rewrite servers_frame. }
  destruct c; try discriminate Hc. simpl. unfold server_Update. rewrite E.
  destruct (decide (s = s0)) as [<-|Hne]; [|rewrite lookup_singleton_ne by done; simpl; eauto].
  rewrite lookup_singleton_eq. repeat case_match; simpl; eauto.
  exists (r <| sv_name := name |>). split; [|done]. by rewrite E, insert_singleton_eq.
Qed.

Lemma servers_kept_run cs : ∀ d s r,
  db_inv d → db_servers d = {[s := r]} →
  ∃ r', db_servers (run_calls cs d).2 = {[s := r']} ∧ sv_created_by r' = sv_created_by r.
Proof.
  induction cs as [|c cs IH]; intros d s r Hi E; simpl; [eauto|].
  destruct (servers_kept c d s r Hi E) as (r1&E1&C1). pose proof (run_call_inv c d Hi) as Hi1.
  destruct (run_call c d) as [a d1]. simpl in *. destruct (IH d1 s r1 Hi1 E1) as (r2&E2&C2).
  destruct (run_calls cs d1). simpl in *. exists r2. split; [done|congruence].
Qed.
End runs.

(** ** Moderation *)

Section moderation.
Context `{MapOrder, Platform}.
Implicit Types (d : DB).

(** Who may ban or time out whom. *)
Definition may_moderate (s v u : Z) (d : DB) : Prop :=
  v ≠ u ∧ ∃ rv ru, role_of s v d = Some rv ∧ role_of s u d = Some ru ∧ ranks_above rv ru.

Lemma tx_bind_run {E A B} (t : Tx E A) (f : A → Tx E B) d a d1 : t d = inr (a, d1) → (t ≫= f) d = f a d1.
Proof. intros Ht. unfold mbind, Tx_bind. by rewrite Ht. Qed.

Lemma authorize_ok s v u d : may_moderate s v u d → authorize_moderation s v u d = inr (tt, d).
Proof.
  intros (Hne&rv&ru&Hv&Hu&[Hr Ho]%outranks_spec). unfold authorize_moderation, findRequesterRole, findMemberRole, row, role_of in *.
  unfold mbind, Tx_bind, require, mret, Tx_ret. simpl. rewrite Hv. apply Z.eqb_neq in Hne. rewrite Hne. simpl.
  rewrite Hu. rewrite bool_decide_false by done. simpl. by rewrite Ho.
Qed.

Lemma audit_ok s a act u det d :
  is_Some (db_users d !! u) → is_Some (db_users d !! a) → is_Some (db_servers d !! s) →
  ∃ d', record_audit s a act u "" det d = inr (tt, d').
Proof.
  intros [r Hr] [ra Hra] Hs. unfold record_audit, audit_Record.
  assert (has_key (db_servers d) s = true) as Hk by (by apply has_key_spec).
  eexists. rewrite (tx_bind_run _ _ d (us_username r) d); [|unfold row; simpl; by rewrite Hr].
  rewrite (tx_bind_run _ _ d (us_username r) d); [|by rewrite andb_false_r].
  unfold insert_row. rewrite Hra, Hk. reflexivity.
Qed.

Lemma insert_ban_ok u v reason now d :
  u ≠ v → db_bans d !! u = None → is_Some (db_users d !! u) → is_Some (db_users d !! v) →
  insert_ban u v reason now d = inr (tt, d <| db_bans ::= <[u := mkBan v now reason]> |>).
Proof.
  intros Hne Hb Hu Hv. unfold insert_ban. rewrite bool_decide_false by done.
  assert (has_key (db_bans d) u = false) as ->.
  { apply not_true_iff_false. rewrite has_key_spec, Hb. by intros []. }
  apply has_key_spec in Hu, Hv. by rewrite Hu, Hv.
Qed.

Lemma ban_exact s v u reason now d :
  db_inv d →
  (∃ d', repo_BanMemberWithReason s v u reason now d = (inr tt, d')) ↔
  may_moderate s v u d ∧ db_bans d !! u = None.
Proof.
  intros Hi. split.
  - intros [d' (mv&mu&Hne&Hv&Hu&Hr&Ho&Hb&_)%Ban_tables]. split; [|done]. split; [done|].
    exists (mb_role mv), (mb_role mu). unfold role_of. rewrite Hv, Hu, <- outranks_spec. done.
  - intros [Hm Hb]. pose proof (authorize_ok s v u d Hm) as Hau. destruct Hm as (Hne&rv&ru&Hv&Hu&[Hr Ho]%outranks_spec).
    unfold role_of in Hv, Hu. apply fmap_Some in Hv as (mv&Hv&->), Hu as (mu&Hu&->).
    destruct (di_members _ Hi _ _ _ Hv) as [Hs Huv]. destruct (di_members _ Hi _ _ _ Hu) as [_ Huu].
    pose proof (insert_ban_ok u v reason now (delete_reads u s d) (not_eq_sym Hne) Hb Huu Huv) as Hins.
    set (d1 := (delete_reads u s d) <| db_bans ::= _ |>) in Hins.
    destruct (audit_ok s v "member.banned" u (if String.eqb reason "" then NoDetails else ReasonDetails reason)
      (revoke_account u now d1) Huu Huv Hs) as [d2 Hd2].
    eexists. unfold repo_BanMemberWithReason, atomically.
    rewrite (tx_bind_run _ _ _ _ _ Hau). rewrite (tx_bind_run _ _ d tt (delete_reads u s d)) by done.
    rewrite (tx_bind_run _ _ _ tt d1) by (unfold insert_row; by rewrite Hins).
    rewrite (tx_bind_run _ _ d1 tt (revoke_account u now d1)) by done.
    rewrite (tx_bind_run _ _ _ tt d2) by exact Hd2. reflexivity.
Qed.

(** Nothing authenticates as an account that is not active. *)
Lemma inactive_unauthenticated d u token t1 t2 :
  db_inv d → active_user d u = false → (Authenticate id id token t1 t2 d).1 ≠ inr u.
Proof. intros Hi Ha Hr. apply Authenticate_exact in Hr as (_&i&s&_&_&_&_&Hx); [congruence|done]. Qed.

(** A usable link admits everybody who is no member, active or not. *)
Lemma AcceptLink_ok i l u n1 n2 d :
  db_inv d → db_links d !! i = Some l → usable n1 l = true →
  db_members d !! (lk_server_id l, u) = None → is_Some (db_users d !! u) →
  ∃ j m d', repo_AcceptLink (lk_token_hash l) u n1 n2 d = (inr (j, m, false), d') ∧
    role_of (lk_server_id l) u d' = Some RoleMember ∧ db_users d' = db_users d ∧ db_bans d' = db_bans d.
Proof.
  intros Hi Hl Hus Hm [r Hr]. destruct (lo_rows _ _ _ _ (di_links _ Hi) i l Hl) as (_&_&_&[sv Hsv]&_).
  assert (joinable (lk_token_hash l) u n1 d i l = true) as Hj by (by apply joinable_row).
  destruct (find_row (joinable (lk_token_hash l) u n1 d) (db_links d)) as [[i' l']|] eqn:Hf.
  2:{ by rewrite (find_row_None _ _ _ _ Hf Hl) in Hj. }
  assert (i' = i ∧ l' = l) as [-> ->].
  { apply find_row_Some in Hf as [Hl' (E&_)%joinable_row].
    assert (i' = i) as -> by (by apply (lo_tokens _ _ _ _ (di_links _ Hi) i' i l' l (lk_token_hash l)); simpl; congruence).
    split; congruence. }
  set (d1 := d <| db_links ::= <[i := l <| lk_use_count ::= Z.succ |>]> |>).
  set (d2 := d1 <| db_members ::= <[(lk_server_id l, u) := mkMember RoleMember n2 None]> |>).
  assert (db_members d2 !! (lk_server_id l, u) = Some (mkMember RoleMember n2 None)) as Hm2 by apply lookup_insert_eq.
  assert (insert_member_or_nothing (lk_server_id l) u RoleMember n2 d1 = inr (tt, d2)) as Hins.
  { unfold insert_member_or_nothing, insert_member. change (db_members d1) with (db_members d). rewrite Hm.
    change (db_servers d1) with (db_servers d). change (db_users d1) with (db_users d).
    assert (has_key (db_servers d) (lk_server_id l) = true) as -> by (apply has_key_spec; eauto).
    by assert (has_key (db_users d) u = true) as -> by (apply has_key_spec; eauto). }
  unfold repo_AcceptLink, atomically.
  rewrite (tx_bind_run _ _ d true d) by (unfold query; by rewrite Hf). cbv iota.
  rewrite (tx_bind_run _ _ d (lk_server_id l) d1) by (unfold consume_link; by rewrite Hf).
  rewrite (tx_bind_run _ _ d1 tt d2) by (unfold insert_row; by rewrite Hins).
  assert (∃ m, selectAcceptedMember (lk_server_id l) u d2 = inr (m, d2)) as [m Hsel].
  { unfold selectAcceptedMember, row. rewrite Hm2. simpl. unfold server_member. simpl. rewrite Hr. eauto. }
  assert (∃ j, selectJoinedServer (lk_server_id l) u d2 = inr (j, d2)) as [j Hjoin].
  { unfold selectJoinedServer, row. rewrite Hm2. simpl. unfold joined_server. simpl. rewrite Hsv. eauto. }
  rewrite (tx_bind_run _ _ d2 m d2 Hsel), (tx_bind_run _ _ d2 j d2 Hjoin).
  exists j, m, d2. split_and!; [done| |done..]. unfold role_of. by rewrite Hm2.
Qed.

Lemma service_ban_run s v u reason now d effects d' :
  service_BanMemberWithReason s v u reason now d = (inr tt, effects, d') →
  (0 < s)%Z ∧ (0 < u)%Z ∧ effects = [SvRevokeUser u s] ∧
  repo_BanMemberWithReason s v u (TrimSpace reason) now d = (inr tt, d').
Proof.
  unfold service_BanMemberWithReason, check_ids. case_match; [done|].
  destruct (s <=? 0)%Z eqn:Hs; [done|]. destruct (v <=? 0)%Z; [done|]. simpl.
  destruct (u <=? 0)%Z eqn:Hu; [done|]. apply Z.leb_gt in Hs, Hu.
  destruct (repo_BanMemberWithReason _ _ _ _ _ _) as [[e|[]] d1]; [done|]. by intros [= <- <-].
Qed.
End moderation.

(** ** Effects on live connections *)

Section effects.
Context `{MapOrder, Platform}.

Definition run_effects (effects : list service_request) : M Hub unit := for_each effects exec_service.

(** Revoking a list of session keys closes every connection that has one. *)
Lemma revoke_keys_spec keys h :
  inv h →
  wp (run_effects (SvRevokeSession <$> keys)) (fun _ h' => kept h h' ∧
    ∀ c, c ∈ h_clients h' → cl_sessionKey (client_at c h') ∉ keys) h.
Proof.
  unfold run_effects. revert h. induction keys as [|k keys IH]; intros h Hi; simpl.
  { wp_step. split; [by apply kept_refl|]. intros c _. apply not_elem_of_nil. }
  wp_step. eapply wp_mono; [by apply revokeSessionKey_spec|]. intros [] h1 [[Hi1 Hag1] Hk1].
  eapply wp_mono; [by apply IH|]. intros [] h2 [[Hi2 Hag2] Hk2]. split.
  - exact (kept_trans _ _ _ (conj Hi1 Hag1) (conj Hi2 Hag2)).
  - intros c Hc. rewrite not_elem_of_cons. split; [|by apply Hk2].
    rewrite (ag_session _ _ Hag2). apply Hk1. by apply (ag_clients _ _ Hag2).
Qed.

Lemma revoke_hashes hashes :
  Forall (fun h => String.length h = 32) hashes → flat_map RevokeSessionHash hashes = SvRevokeSession <$> hashes.
Proof.
  induction 1 as [|h hs Hh _ IH]; [done|]. simpl. unfold RevokeSessionHash at 1. rewrite Hh. simpl. by rewrite IH.
Qed.

(** The hashes of the deleted sessions, each once. *)
Lemma deleted_hashes u keep d :
  unique_by (fun s => Some (ss_token_hash s)) (db_sessions d) →
  let hashes := (delete_others u keep d).1 in
  NoDup hashes ∧ ∀ k, k ∈ hashes ↔ ∃ i s, db_sessions d !! i = Some s ∧ ss_user_id s = u ∧
    ss_token_hash s = k ∧ k ≠ keep.
Proof.
  intros Hu hashes. unfold hashes, delete_others. simpl. set (l := filter _ _).
  assert (∀ e, e ∈ l ↔ db_sessions d !! e.1 = Some e.2 ∧ ss_user_id e.2 = u ∧ ss_token_hash e.2 ≠ keep) as Hl.
  { intros [i s]. unfold l. rewrite list_elem_of_filter, elem_of_range_entries. unfold other_session. simpl.
    rewrite andb_true_iff, Z.eqb_eq, negb_true_iff, String.eqb_neq. tauto. }
  split.
  - rewrite <- list_fmap_compose. apply NoDup_fmap_2_strong.
    + intros [i s] [j s'] [Hs _]%Hl [Hs' _]%Hl E. simpl in *.
      assert (i = j) as -> by (eapply (Hu i j); [done..|done|by rewrite E]). congruence.
    + apply NoDup_filter. unfold range_entries. rewrite visit_perm. apply NoDup_map_to_list.
  - intros k. rewrite list_elem_of_fmap. split.
    + intros (s&->&Hs). apply list_elem_of_fmap in Hs as ([i s']&->&(?&?&?)%Hl). by exists i, s'.
    + intros (i&s&Hs&Hus&<-&Hne). exists s. split; [done|]. apply list_elem_of_fmap. exists (i, s).
      split; [done|]. by apply Hl.
Qed.

Lemma change_password_inv others u token input hash effects d d' :
  db_inv (others d) → ChangePassword others u token input hash d = (inr tt, effects, d') → db_inv d'.
Proof.
  intros Hi. unfold ChangePassword. do 3 (case_match; [done|]).
  destruct (verifyPassword _ _ _) as [|user]; [done|]. destruct hash as [new|]; [|done].
  pose proof (ReplacePassword_inv u (usr_PasswordHash user) new (hashSessionToken (TrimSpace token)) (others d) Hi) as Hr.
  destruct (ReplacePasswordAndRevokeOthers _ _ _ _ _) as [[e|hashes] d1]; [done|]. by intros [= _ <-].
Qed.

Lemma change_password_run others u token input hash effects d d' :
  db_inv (others d) → ChangePassword others u token input hash d = (inr tt, effects, d') →
  ∃ r new, hash = Some new ∧ db_users d !! u = Some r ∧
    bcrypt_matches (us_password_hash r) (cp_CurrentPassword input) = true ∧
    us_password_hash <$> db_users (others d) !! u = Some (us_password_hash r) ∧
    us_password_hash <$> db_users d' !! u = Some new ∧
    (∀ w, active_user d' w = active_user (others d) w) ∧
    (∀ i s, db_sessions d' !! i = Some s ↔ db_sessions (others d) !! i = Some s ∧
       (ss_user_id s = u → ss_token_hash s = sha256 (TrimSpace token))) ∧
    ∃ hashes, effects = SvRevokeSession <$> hashes ∧ NoDup hashes ∧
      ∀ k, k ∈ hashes ↔ ∃ i s, db_sessions (others d) !! i = Some s ∧ ss_user_id s = u ∧
        ss_token_hash s = k ∧ k ≠ sha256 (TrimSpace token).
Proof.
  intros Hi. unfold ChangePassword. do 3 (case_match; [done|]).
  destruct (verifyPassword _ _ _) as [|user] eqn:Hv; [done|]. destruct hash as [new|]; [|done].
  destruct (ReplacePasswordAndRevokeOthers _ _ _ _ _) as [[e|hashes] d1] eqn:Hr; [done|].
  intros [= <- <-]. unfold verifyPassword, FindByID in Hv.
  destruct (db_users d !! u) as [r|] eqn:Hu; [|done]. case_decide; [|done]. simpl in Hv.
  destruct (bcrypt_matches _ _) eqn:Hb; [|done]. injection Hv as <-. exists r, new. simpl in Hr.
  apply atomically_inr in Hr. tx_run. destruct (db_users (others d) !! u) as [r'|] eqn:Hu'; [|done].
  apply bool_decide_eq_true in Hreq as [E _]. unfold delete_others in Hr. injection Hr as <- <-.
  split_and!; try done; simpl.
  - by rewrite E.
  - by rewrite lookup_alter_eq, Hu'.
  - intros w. unfold active_user. simpl. rewrite lookup_alter. case_decide; [subst w|done]. by rewrite Hu'.
  - intros i s. rewrite delete_where_Some. unfold other_session, hashSessionToken.
    rewrite andb_false_iff, Z.eqb_neq, negb_false_iff, String.eqb_eq. split; [naive_solver|].
    intros [? Hx]. split; [done|]. destruct (decide (ss_user_id s = u)); eauto.
  - eexists. split; [apply revoke_hashes|].
    + apply Forall_forall. intros x. rewrite list_elem_of_fmap. intros (s&->&Hs).
      apply list_elem_of_fmap in Hs as ([i s']&->&Hs). apply list_elem_of_filter in Hs as [_ Hs].
      apply elem_of_range_entries in Hs. by apply (so_rows _ _ _ (di_sessions _ Hi)) in Hs as (_&?&_).
    + apply deleted_hashes, (di_sessions _ Hi).
Qed.
End effects.
