(* ===== verification/CommunityProps.v ===== *)
(** * Accounts, servers and invitations: the theorems

    Theorems over every run of the database, their instances on a concrete
    instance with four accounts, and the two requests that regain access when
    they overtake a ban or a change of password. *)

From S2P Require Import Prelude GoText Events Client VoiceState StreamState Hub HubInv HubSpecs HubOps HubReach HubSystem HubProps.
From S2P Require Import Tables Posts Store Accounts Members Invites StoreInv StoreKeep StoreSystem StoreFrames StoreRuns StoreProps Community.

Section theorems.
Context `{MapOrder, Platform}.
Implicit Types (d : DB) (c : call).

(** C6: once the bootstrap has created the instance, whatever requests follow
    and however their transactions interleave, the database stays well formed
    (unique names, keys and token hashes, references that resolve, link
    counters within their limits, at most one pending invitation per user),
    there is exactly one server, the same as at the start, and its founder is
    its one owner, neither banned nor deleted. *)
Theorem community_wf d0 cs :
  started d0 →
  let d := (run_calls cs d0).2 in
  db_inv d ∧ ∃ s r0 r, db_servers d0 = {[s := r0]} ∧ db_servers d = {[s := r]} ∧
    sv_created_by r = sv_created_by r0 ∧ active_user d (sv_created_by r0) = true ∧
    ∀ u, role_of s u d = Some RoleOwner ↔ u = sv_created_by r0.
Proof.
  intros (inst&cf&rd&h&n1&n2&n3&res&Hs). apply Ensure_establishes in Hs as (Hi&_&s&u&r0&E0&_&_).
  pose proof (run_calls_inv cs d0 Hi) as Hi'. split; [done|].
  destruct (servers_kept_run cs d0 s r0 Hi E0) as (r&E&C). exists s, r0, r. split_and!; try done.
  - destruct (di_owner _ Hi') as (s'&r'&E'&Ha&_). rewrite E in E'. apply map_singleton_inj in E' as [<- <-].
    rewrite <- C. by apply active_user_spec.
  - intros v. rewrite <- C. unfold role_of. apply (owner_is_creator _ _ _ _ _ _ _ (di_owner _ Hi')).
    by rewrite E, lookup_singleton_eq.
Qed.

(** C7: the use counter of an invite link is exact. Over any further run it
    grows by the number of users admitted with its token, never beyond its
    limit; and whoever is admitted was not a member before, becomes a plain
    member of the link's server, and uses a link that was not revoked. *)
Theorem link_uses_exact d cs i l :
  reachable_db d → db_links d !! i = Some l →
  (∀ l', db_links (run_calls cs d).2 !! i = Some l' →
     lk_use_count l' = (lk_use_count l + uses (lk_token_hash l) (run_calls cs d).1)%Z ∧
     ∀ m, lk_max_uses l = Some m → (lk_use_count l' <= m)%Z) ∧
  (∀ c u d', run_call c d = (Redeemed (lk_token_hash l) u, d') →
     role_of (lk_server_id l) u d = None ∧ role_of (lk_server_id l) u d' = Some RoleMember ∧
     lk_revoked_at l = None).
Proof.
  intros Hi%reachable_db_inv Hl. split.
  - intros l' Hl'. destruct (link_uses_run cs d i l l' Hi Hl Hl') as [Hu Hm]. split; [done|].
    intros m Hmax. pose proof (run_calls_inv cs d Hi) as Hi'.
    destruct (lo_rows _ _ _ _ (di_links _ Hi') i l' Hl') as (_&(_&Hle&_)&_). apply Hle. by rewrite Hm.
  - intros c u d' Hr. pose proof (link_change_call c d _ d' Hi Hr) as Hc.
    inversion Hc as [? ? _ Hno|id l0 ? now ? Hid Hus Hn Hrole|? ? ? ? ?|]; subst.
    { specialize (Hno (lk_token_hash l)). simpl in Hno. by rewrite String.eqb_refl in Hno. }
    assert (id = i) as ->.
    { eapply (lo_tokens _ _ _ _ (di_links _ Hi)); [exact Hid|exact Hl|reflexivity|]. simpl. congruence. }
    assert (l0 = l) as -> by congruence. apply usable_spec in Hus as (?&_). unfold role_of. by rewrite Hn.
Qed.

(** C8: no escalation of privileges. Whatever a call does, the role of a user
    on the server stays as it was or changes in one of six ways: a pending
    invitation of that user is accepted, a usable link is used, a new account
    registers through a registration link (always as a plain member); the owner
    makes a member an admin or an admin a member; a moderator who outranks the
    user bans them; the user deletes their own account. The owner's role never
    changes. *)
Theorem privilege_changes d c a d' s u :
  reachable_db d → run_call c d = (a, d') →
  role_of s u d' = role_of s u d ∨ role_change d s u c (role_of s u d) (role_of s u d').
Proof. intros Hi%reachable_db_inv. by apply role_change_call. Qed.

(** A ban succeeds exactly for a requester who outranks the target, and
    only once. *)
Theorem moderation_exact d s v u reason now :
  reachable_db d →
  (∃ d', repo_BanMemberWithReason s v u reason now d = (inr tt, d')) ↔
  may_moderate s v u d ∧ db_bans d !! u = None.
Proof. intros Hi%reachable_db_inv. by apply ban_exact. Qed.

(** C9: after a ban the account has no session, membership, invitation or link
    and no message waiting to be sent, no token authenticates it, nobody else's
    role changed, and once the hub has handled the request the service sends
    it, none of the user's connections is a member of the server, subscribed to
    its channels or in its voice channels. *)
Theorem ban_complete d y s v u reason now effects d' :
  reachable_db d → rtc sys_step init_system y →
  service_BanMemberWithReason s v u reason now d = (inr tt, effects, d') →
  may_moderate s v u d ∧ active_user d' u = false ∧ ¬ has_access d' u ∧
  (∀ token t1 t2, (Authenticate id id token t1 t2 d').1 ≠ inr u) ∧
  (∀ i m, db_scheduled d' !! i = Some m → sc_user_id m = u →
     sc_status m = ScheduleCancelled ∨ sc_status m = ScheduleSent) ∧
  (∀ w, w ≠ u → role_of s w d' = role_of s w d) ∧
  wp (run_effects effects) (fun _ h' => ∀ k, k ∈ h_clients h' → user_of k h' = u →
    s ∉ servers_of k h' ∧ (∀ ch, subs_of k h' !! ch ≠ Some s) ∧
    ∀ p, vs_byClient (h_voice h') !! k = Some p → vp_ServerID p ≠ s) (sy_hub y).
Proof.
  intros Hi%reachable_db_inv Hy (Hs&Hu&->&Hb)%service_ban_run.
  pose proof (Ban_inv s v u (TrimSpace reason) now d Hi) as Hi'. rewrite Hb in Hi'. simpl in Hi'.
  pose proof (proj1 (ban_exact s v u (TrimSpace reason) now d Hi) (ex_intro _ d' Hb)) as [Hm _].
  apply Ban_tables in Hb as (mv&mu&_&_&_&_&_&_&Eb&Eu&Em&Es&El&Ei&Hsc).
  assert (active_user d' u = false) as Ha.
  { apply not_true_iff_false. rewrite active_user_spec. intros [_ Hn]. by rewrite Eb, lookup_insert_eq in Hn. }
  split_and!; try done.
  - by eapply cleared.
  - intros token t1 t2. by apply inactive_unauthenticated.
  - intros w Hw. unfold role_of. rewrite Em, lookup_delete_where. simpl.
    rewrite (proj2 (Z.eqb_neq w u) Hw). by destruct (db_members d !! (s, w)).
  - unfold run_effects. simpl. wp_step.
    eapply wp_mono; [apply RevokeUserFromServer_spec; [apply (yi_inv _ (reachable_inv y Hy))|done..]|].
    intros [] h' [_ Hout]. wp_step. exact Hout.
Qed.

(** C10: a successful change of password verified the stored password, replaced
    that very hash, and deletes exactly the other sessions of the user: the
    current one and everybody else's are as they were. What the service sends
    to the hub is one revocation for each deleted session and nothing else, in
    particular none for a session that remains; once the hub has handled them
    no connection uses a session that was signed out. All of this whatever
    other requests did to the database between the check of the password and
    the change. *)
Theorem password_change_complete d y others u token input hash effects d' :
  reachable_db (others d) → rtc sys_step init_system y →
  ChangePassword others u token input hash d = (inr tt, effects, d') →
  (∃ r new, hash = Some new ∧ db_users d !! u = Some r ∧
     bcrypt_matches (us_password_hash r) (cp_CurrentPassword input) = true ∧
     us_password_hash <$> db_users (others d) !! u = Some (us_password_hash r) ∧
     us_password_hash <$> db_users d' !! u = Some new) ∧
  (∀ i s, db_sessions d' !! i = Some s ↔ db_sessions (others d) !! i = Some s ∧
     (ss_user_id s = u → ss_token_hash s = sha256 (TrimSpace token))) ∧
  (∃ hashes, effects = SvRevokeSession <$> hashes ∧ NoDup hashes ∧
     (∀ k, k ∈ hashes ↔ ∃ i s, db_sessions (others d) !! i = Some s ∧ db_sessions d' !! i = None ∧
        ss_token_hash s = k) ∧
     ∀ i s, db_sessions d' !! i = Some s → ss_token_hash s ∉ hashes) ∧
  wp (run_effects effects) (fun _ h' => ∀ k i s, k ∈ h_clients h' →
    db_sessions (others d) !! i = Some s → ss_user_id s = u → ss_token_hash s ≠ sha256 (TrimSpace token) →
    cl_sessionKey (client_at k h') ≠ ss_token_hash s) (sy_hub y).
Proof.
  intros Hi%reachable_db_inv Hy Hc.
  apply change_password_run in Hc as (r&new&?&?&?&?&?&_&Hs&hashes&->&Hnd&Hall); [|done].
  split_and!; [eauto 10|done|exists hashes; split_and!; [done..| |]|].
  - intros k. rewrite Hall. split; intros (i&s&Hi1&Hi2&Hi3).
    + exists i, s. split_and!; [done| |naive_solver]. apply eq_None_not_Some.
      intros [s' [Hs' Hk]%Hs]. naive_solver.
    + subst k. exists i, s. assert (¬ (ss_user_id s = u → ss_token_hash s = sha256 (TrimSpace token))) as Hd.
      { intros Hd. assert (db_sessions d' !! i = Some s) by (by apply Hs). congruence. }
      destruct (decide (ss_user_id s = u)) as [Hu|Hu]; [|by destruct Hd; intros ?].
      split_and!; try done. intros E. apply Hd. by intros _.
  - intros i s [Hi1 Hk]%Hs (j&s'&Hj&Hu&E&Hne)%Hall.
    assert (i = j) as -> by (by apply (so_tokens _ _ _ (di_sessions _ Hi) i j s s' (ss_token_hash s)); simpl; congruence).
    naive_solver.
  - eapply wp_mono; [apply revoke_keys_spec, (yi_inv _ (reachable_inv y Hy))|].
    intros [] h' [_ Hk] k i s Hin Hsi Hu Hne E. apply (Hk k Hin). rewrite E. apply Hall. by exists i, s.
Qed.

(** C11: a login that succeeds was given the password of an active account; the
    token it returns authenticates that account before it expires and nobody
    from then on, and after a logout with the token nothing authenticates
    with it. *)
Theorem login_roundtrip d input bytes meta now res d' :
  reachable_db d → bytes ≠ "" → Login id id input (Some bytes) meta now d = (inr res, d') →
  let token := si_Token (lr_Session res) in
  (∃ r, db_users d !! ui_ID (lr_User res) = Some r ∧
     bcrypt_matches (us_password_hash r) (li_Password input) = true) ∧
  (∀ t1 t2 o1 o2, (t1 < now + sessionLifetime)%Z →
     (Authenticate o1 o2 token t1 t2 d').1 = inr (ui_ID (lr_User res))) ∧
  (∀ t1 t2 o1 o2 u, (now + sessionLifetime <= t1)%Z → (Authenticate o1 o2 token t1 t2 d').1 ≠ inr u) ∧
  (∀ t1 t2 u effects d'', Logout token d' = (inr tt, effects, d'') →
     (Authenticate id id token t1 t2 d'').1 ≠ inr u ∧ effects = [SvRevokeSession (sha256 token)]).
Proof.
  intros Hi%reachable_db_inv Hb Hl. apply login_run in Hl as (->&Hpw&Ha&Hi'&sid&Hs); [|done].
  pose proof (plain_TrimSpace _ (plain_token bytes)) as Ht. pose proof (token_nonempty bytes Hb) as Hne.
  split_and!; [done|..].
  - intros t1 t2 o1 o2 Hexp. apply Authenticate_exact; [done|]. rewrite Ht. split; [done|].
    eexists sid, _. split; [exact Hs|]. by split_and!.
  - intros t1 t2 o1 o2 u Hexp (_&i&s&Hi2&Hh&Ht1&_)%Authenticate_exact; [|done]. rewrite Ht in Hh.
    assert (i = sid) as -> by (apply (so_tokens _ _ _ (di_sessions _ Hi') i sid s _ (ss_token_hash s) Hi2 Hs);
      simpl; congruence).
    simplify_eq. simpl in Ht1. lia.
  - intros t1 t2 u effects d''. unfold Logout. rewrite Ht. rewrite (proj2 (String.eqb_neq _ _)) by done.
    intros [= <- <-]. split; [|unfold RevokeSession; by rewrite Ht]. intros Hx.
    assert (db_inv (DeleteByTokenHash (hashSessionToken (EncodeToString bytes)) d')) as Hi''
      by (by apply delete_sessions_inv).
    apply Authenticate_exact in Hx as (_&i&s&Hsi&Hh&_); [|done]. simpl in Hsi.
    apply delete_where_Some in Hsi as [_ Hx]. unfold by_token, hashSessionToken in Hx. rewrite Ht in Hh.
    by rewrite Hh, String.eqb_refl in Hx.
Qed.

(** A run in which every new session and every link is used while its user is
    still active. *)
Fixpoint timely (cs : list call) (d : DB) : Prop :=
  match cs with
  | [] => True
  | c :: cs => still_active c d ∧ timely cs (run_call c d).2
  end.

Lemma only_active_run cs : ∀ d, db_inv d → only_active d → timely cs d → only_active (run_calls cs d).2.
Proof.
  induction cs as [|c cs IH]; intros d Hi Ha Ht; simpl; [done|]. destruct Ht as [Hst Ht].
  pose proof (run_call_inv c d Hi) as Hi1. pose proof (only_active_call c d Hi Hst Ha) as Ha1.
  destruct (run_call c d) as [a d1]. simpl in *. specialize (IH d1 Hi1 Ha1 Ht). by destruct (run_calls cs d1).
Qed.

(** C37: if no request that creates a session or uses a link is overtaken by a
    ban or deletion of its user, then at every moment whoever is signed in, is
    a member, or has an invitation or a link is neither banned nor deleted. *)
Theorem access_only_active d0 cs : started d0 → timely cs d0 → only_active (run_calls cs d0).2.
Proof.
  intros (inst&cf&rd&h&n1&n2&n3&res&Hs).
  apply Ensure_establishes in Hs as (Hi&_&s&u&r&Hsv&Hc&_&[m Em]&Es&El&Ei).
  apply only_active_run; [done|]. intros w Hw. unfold has_access in Hw. rewrite Em, Es, El, Ei in Hw.
  destruct Hw as [(?&?&[=]&_)|[(s'&[x [[= <- <-] _]%lookup_singleton_Some])|[(?&?&[=]&_)|(?&?&[=]&_)]]].
  apply active_user_spec. destruct (di_owner _ Hi) as (s'&r'&E'&Ha&_). rewrite Hsv in E'.
  apply map_singleton_inj in E' as [<- <-]. by rewrite Hc in Ha.
Qed.
(** C39: both ways in which a request that is overtaken keeps access open, in
    general. A usable link of a server makes whoever was just banned there a
    plain member again when a request that was authenticated before the ban
    uses it after it: the database does not ask whether the account is active.
    The account stays banned and unauthenticated, and no moderator can ban it
    again to remove the membership. And a login that checked the old password
    before a change of password, and stores its session after it, succeeds
    with a token that authenticates the account until it expires, although
    the change signed out every other session and the password it was given is
    not the one of the account any more. *)
Theorem late_requests_regain_access :
  (∀ d s v u reason now d1 i l n1 n2, reachable_db d →
     repo_BanMemberWithReason s v u reason now d = (inr tt, d1) →
     db_links d1 !! i = Some l → lk_server_id l = s → usable n1 l = true →
     ∃ j m d2, repo_AcceptLink (lk_token_hash l) u n1 n2 d1 = (inr (j, m, false), d2) ∧
       role_of s u d2 = Some RoleMember ∧ active_user d2 u = false ∧
       (∀ token t1 t2, (Authenticate id id token t1 t2 d2).1 ≠ inr u) ∧
       ∀ v' reason' now' d3, repo_BanMemberWithReason s v' u reason' now' d2 ≠ (inr tt, d3)) ∧
  (∀ d u current input new effects d1 login bytes meta now res d2, reachable_db d → bytes ≠ "" →
     ChangePassword id u current input (Some new) d = (inr tt, effects, d1) →
     Login id (fun d => (ChangePassword id u current input (Some new) d).2) login (Some bytes) meta now d =
       (inr res, d2) →
     ui_ID (lr_User res) = u →
     (∃ r, db_users d !! u = Some r ∧ bcrypt_matches (us_password_hash r) (li_Password login) = true) ∧
     us_password_hash <$> db_users d2 !! u = Some new ∧
     ∀ t1 t2, (t1 < now + sessionLifetime)%Z →
       (Authenticate id id (si_Token (lr_Session res)) t1 t2 d2).1 = inr u).
Proof.
  split.
  - intros d s v u reason now d1 i l n1 n2 Hi%reachable_db_inv Hb Hl <- Hus.
    pose proof (Ban_inv (lk_server_id l) v u reason now d Hi) as Hi1. rewrite Hb in Hi1. simpl in Hi1.
    apply Ban_tables in Hb as (mv&mu&_&_&Hu&_&_&_&Eb&Eu&Em&_).
    assert (db_members d1 !! (lk_server_id l, u) = None) as Hm.
    { rewrite Em, lookup_delete_where, Hu. simpl. by rewrite Z.eqb_refl. }
    assert (is_Some (db_users d1 !! u)) as Hr by (rewrite Eu; apply (di_members _ Hi _ _ _ Hu)).
    destruct (AcceptLink_ok i l u n1 n2 d1 Hi1 Hl Hus Hm Hr) as (j&m&d2&Hrun&Hrole&Eu2&Eb2).
    pose proof (AcceptLink_inv (lk_token_hash l) u n1 n2 d1 Hi1) as Hi2. rewrite Hrun in Hi2. simpl in Hi2.
    assert (db_bans d2 !! u = Some (mkBan v now reason)) as Hban by (by rewrite Eb2, Eb, lookup_insert_eq).
    assert (active_user d2 u = false) as Ha.
    { apply not_true_iff_false. rewrite active_user_spec. intros [_ Hn]. by rewrite Hban in Hn. }
    exists j, m, d2. split_and!; [done..| |].
    + intros token t1 t2. by apply inactive_unauthenticated.
    + intros v' reason' now' d3 Hb2. assert (db_bans d2 !! u = None); [|congruence].
      apply (ban_exact (lk_server_id l) v' u reason' now' d2 Hi2). eauto.
  - intros d u current input new effects d1 login bytes meta now res d2 Hi%reachable_db_inv Hne Hc Hl Hu.
    assert (db_inv d1) as Hi1 by (by apply (change_password_inv id u current input (Some new) effects d)).
    apply (login_overtaken (fun d => (ChangePassword id u current input (Some new) d).2)) in Hl
      as (Ht&Hpw&Ha&Eu&Eb&Hi2&sid&Hs); [|by rewrite Hc]. rewrite Hc, Hu in *. simpl in *.
    apply change_password_run in Hc as (r&new'&[= <-]&_&_&_&Hh&Hact&_); [|done].
    split; [done|]. split; [by rewrite Eu|]. intros t1 t2 Hexp. rewrite Ht.
    pose proof (plain_TrimSpace _ (plain_token bytes)) as Htrim.
    apply Authenticate_exact; [done|]. rewrite Htrim. split; [by apply token_nonempty|].
    eexists sid, _. split; [exact Hs|]. split_and!; try done. by rewrite (active_same d1), Hact.
Qed.
End theorems.

(** ** A concrete instance *)

(** Stand-ins for the cryptography and the Unicode tables. *)
Definition toy : Platform := {|
  sha256 := fun s => String.substring 0 32 (s +:+ "................................");
  bcrypt_matches := fun hash password => String.eqb hash ("bcrypt:" +:+ password);
  NFC := fun s => s;
  NFKC := fun s => s;
  ToLower := fun s => s;
  IsLetter := fun r => (97 <=? r)%Z && (r <=? 122)%Z;
  IsDigit := fun r => (48 <=? r)%Z && (r <=? 57)%Z;
  IsNumber := fun r => (48 <=? r)%Z && (r <=? 57)%Z
|}.
#[local] Existing Instance key_order.
#[local] Existing Instance toy.

Definition sample_config : Config := mkConfig " anna " "password1" "Hold".
Definition sample_start : DB :=
  (Ensure sample_config None (Some "bcrypt:password1") 100 100 100 (empty_db ("instance", 99%Z))).2.

(** The owner 1 makes a link for three registrations; 2 and 3 register. *)
Definition sample_link : string := sha256 "link".
Definition sample_calls : list call :=
  [CCreateLink 1 1 sample_link 10000 (mkCreateLinkInput MinLinkLifetime (Some 3%Z) true) 101;
   CRegister "boris" "bcrypt:boris-password" sample_link (sha256 "b-token") 100000 110 110 110 110;
   CRegister "vera" "bcrypt:vera-password" sample_link (sha256 "v-token") 100000 120 120 120 120].
Definition sample_db : DB := (run_calls sample_calls sample_start).2.

Lemma sample_started : started sample_start.
Proof.
  exists ("instance", 99%Z), sample_config, None, (Some "bcrypt:password1"), 100%Z, 100%Z, 100%Z,
    (mkResult true "anna" "password1" false).
  rewrite (surjective_pairing (Ensure _ _ _ _ _ _ _)). by unfold sample_start; f_equal.
Qed.
Lemma sample_reachable_db : reachable_db sample_db.
Proof. exists sample_start, sample_calls. split; [apply sample_started|done]. Qed.

Lemma outcome_eq {E A} (p : Outcome E A) r es : p.1.1 = r → p.1.2 = es → p = (r, es, p.2).
Proof. destruct p as [[??]?]. simpl. by intros -> ->. Qed.
Lemma answer_eq {A} (p : A * DB) a : p.1 = a → p = (a, p.2).
Proof. destruct p. simpl. by intros ->. Qed.

Lemma community_wf_witness :
  db_inv sample_db ∧ ∃ s, role_of s 1 sample_db = Some RoleOwner ∧ role_of s 2 sample_db ≠ Some RoleOwner.
Proof.
  destruct (community_wf sample_start sample_calls sample_started) as (Hi&s&r0&r&E0&_&_&_&Hr).
  split; [exact Hi|]. exists s.
  assert (db_servers sample_start = {[1%Z := mkServer "Hold" 1 100]}) as E1 by (vm_compute; reflexivity).
  rewrite E1 in E0. apply map_singleton_inj in E0 as [<- <-]. split; [by apply Hr|]. intros Hx%Hr. discriminate Hx.
Defined.

Definition sample_link_row : link_row := mkLink 1 1 sample_link 10000 (Some 3%Z) 2 None 101 true.
(** A fourth account takes the last use; a fifth is refused. *)
Definition more_calls : list call :=
  [CRegister "gleb" "bcrypt:gleb-password" sample_link (sha256 "g-token") 100000 130 130 130 130;
   CRegister "dina" "bcrypt:dina-password" sample_link (sha256 "d-token") 100000 130 130 130 130].

Lemma link_uses_exact_witness :
  (∀ l', db_links (run_calls more_calls sample_db).2 !! 1%Z = Some l' → lk_use_count l' = 3%Z) ∧
  (run_calls more_calls sample_db).1 = [Redeemed sample_link 4; Refused].
Proof.
  assert ((run_calls more_calls sample_db).1 = [Redeemed sample_link 4; Refused]) as E by (vm_compute; reflexivity).
  split; [|exact E]. intros l' Hl'.
  destruct (link_uses_exact sample_db more_calls 1 sample_link_row sample_reachable_db) as [Hu _].
  - vm_compute. reflexivity.
  - destruct (Hu l' Hl') as [-> _]. rewrite E. vm_compute. reflexivity.
Defined.

Lemma privilege_changes_witness :
  let d' := (run_call (CUpdateRole 1 1 2 "admin") sample_db).2 in
  role_of 1 2 d' = role_of 1 2 sample_db ∨
  role_change sample_db 1 2 (CUpdateRole 1 1 2 "admin") (role_of 1 2 sample_db) (role_of 1 2 d').
Proof.
  exact (privilege_changes sample_db (CUpdateRole 1 1 2 "admin") Done _ 1 2 sample_reachable_db
    (answer_eq _ _ ltac:(vm_compute; reflexivity))).
Defined.

Lemma moderation_exact_witness :
  ∃ d', repo_BanMemberWithReason 1 1 2 "spam" 200 sample_db = (inr tt, d').
Proof.
  apply (moderation_exact sample_db 1 1 2 "spam" 200 sample_reachable_db). split; [|vm_compute; reflexivity].
  split; [lia|]. exists RoleOwner, RoleMember. split_and!; [vm_compute; reflexivity..|]. by left.
Defined.

Definition sample_ban : Outcome ServerError unit := service_BanMemberWithReason 1 1 2 " spam " 200 sample_db.

Lemma ban_complete_witness :
  active_user sample_ban.2 2 = false ∧ ¬ has_access sample_ban.2 2.
Proof.
  destruct (ban_complete sample_db sample_system 1 1 2 " spam " 200 [SvRevokeUser 2 1] sample_ban.2) as (_&Ha&Hn&_).
  - apply sample_reachable_db.
  - apply sample_reachable.
  - apply outcome_eq; vm_compute; reflexivity.
  - exact (conj Ha Hn).
Defined.

Definition sample_change : Outcome AccountError unit :=
  ChangePassword id 2 "b-token" (mkChangePasswordInput "boris-password" "new-password" "new-password")
    (Some "bcrypt:new-password") (run_call (CSessionCreate 2 (sha256 "phone") 90000 (mkClientMeta "" "") 150) sample_db).2.

Lemma password_change_complete_witness :
  wp (run_effects [SvRevokeSession (sha256 "phone")]) (fun _ h' => ∀ k, k ∈ h_clients h' →
    cl_sessionKey (client_at k h') ≠ sha256 "phone") (sy_hub sample_system).
Proof.
  set (d := (run_call (CSessionCreate 2 (sha256 "phone") 90000 (mkClientMeta "" "") 150) sample_db).2).
  destruct (password_change_complete d sample_system id 2 "b-token"
    (mkChangePasswordInput "boris-password" "new-password" "new-password") (Some "bcrypt:new-password")
    [SvRevokeSession (sha256 "phone")] sample_change.2) as (_&_&_&Hw).
  - exists sample_start, (sample_calls ++ [CSessionCreate 2 (sha256 "phone") 90000 (mkClientMeta "" "") 150]).
    split; [apply sample_started|vm_compute; reflexivity].
  - apply sample_reachable.
  - apply outcome_eq; vm_compute; reflexivity.
  - eapply wp_mono; [exact Hw|]. intros [] h' Hh k Hk.
    apply (Hh k 3%Z (mkSessionRow 2 (sha256 "phone") 90000 150 None (Some "") (Some "")) Hk).
    + vm_compute. reflexivity.
    + reflexivity.
    + vm_compute. discriminate.
Defined.

Definition sample_bytes : string := "0123456789abcdef0123456789abcdef".
Definition sample_login : (AccountError + LoginResult) * DB :=
  Login id id (mkLoginInput " vera" "vera-password") (Some sample_bytes) (mkClientMeta "agent" "ip") 300 sample_db.

Lemma login_roundtrip_witness :
  (Authenticate id id (EncodeToString sample_bytes) 400 400 sample_login.2).1 = inr 3%Z.
Proof.
  destruct (login_roundtrip sample_db (mkLoginInput " vera" "vera-password") sample_bytes (mkClientMeta "agent" "ip")
    300 (mkLoginResult (mkUserInfo 3 "vera" 120) (mkSessionInfo (EncodeToString sample_bytes) (300 + sessionLifetime)))
    sample_login.2 sample_reachable_db) as (_&Ha&_).
  - discriminate.
  - apply answer_eq. vm_compute. reflexivity.
  - apply Ha. vm_compute. reflexivity.
Defined.

Lemma access_only_active_witness : only_active sample_db.
Proof. apply (access_only_active sample_start sample_calls sample_started). by repeat split. Defined.

(** ** Requests overtaken by a ban or a change of password *)

Definition banned_db : DB := (repo_BanMemberWithReason 1 1 2 "spam" 200 sample_db).2.

(** The login of user 2 looks the account up, the user changes the password,
    then the login stores its session. *)
Definition overtaking_change : Outcome AccountError unit :=
  ChangePassword id 2 "b-token" (mkChangePasswordInput "boris-password" "new-password" "new-password")
    (Some "bcrypt:new-password") sample_db.
Definition overtaken_login : (AccountError + LoginResult) * DB :=
  Login id (fun d => (ChangePassword id 2 "b-token"
      (mkChangePasswordInput "boris-password" "new-password" "new-password") (Some "bcrypt:new-password") d).2)
    (mkLoginInput "boris" "boris-password") (Some sample_bytes) (mkClientMeta "agent" "ip") 300 sample_db.

Lemma banned_ok : (repo_BanMemberWithReason 1 1 2 "spam" 200 sample_db).1 = inr tt.
Proof. vm_compute. reflexivity. Qed.
Lemma banned_run : repo_BanMemberWithReason 1 1 2 "spam" 200 sample_db = (inr tt, banned_db).
Proof. exact (answer_eq (repo_BanMemberWithReason 1 1 2 "spam" 200 sample_db) (inr tt) banned_ok). Qed.

Lemma late_requests_regain_access_witness :
  (∃ j m d2, repo_AcceptLink sample_link 2 210 210 banned_db = (inr (j, m, false), d2) ∧
     role_of 1 2 d2 = Some RoleMember ∧ active_user d2 2 = false) ∧
  (Authenticate id id (EncodeToString sample_bytes) 400 400 overtaken_login.2).1 = inr 2%Z.
Proof.
  split.
  - destruct (proj1 late_requests_regain_access sample_db 1%Z 1%Z 2%Z "spam" 200%Z banned_db 1%Z
      (mkLink 1 1 sample_link 10000 (Some 3%Z) 2 None 101 true) 210%Z 210%Z sample_reachable_db banned_run)
      as (j&m&d2&Hrun&Hrole&Ha&_).
    + vm_compute. reflexivity.
    + reflexivity.
    + vm_compute. reflexivity.
    + exact (ex_intro _ j (ex_intro _ m (ex_intro _ d2 (conj Hrun (conj Hrole Ha))))).
  - refine (proj2 (proj2 (proj2 late_requests_regain_access sample_db 2%Z "b-token"
      (mkChangePasswordInput "boris-password" "new-password" "new-password") "bcrypt:new-password"
      overtaking_change.1.2 overtaking_change.2 (mkLoginInput "boris" "boris-password") sample_bytes
      (mkClientMeta "agent" "ip") 300%Z
      (mkLoginResult (mkUserInfo 2 "boris" 110) (mkSessionInfo (EncodeToString sample_bytes) (300 + sessionLifetime)))
      overtaken_login.2 sample_reachable_db _ _ _ _)) 400%Z 400%Z _).
    + discriminate.
    + apply outcome_eq; vm_compute; reflexivity.
    + apply answer_eq. vm_compute. reflexivity.
    + reflexivity.
    + vm_compute. reflexivity.
Defined.
