(* ===== verification/Channels.v ===== *)
(** * Channels and permissions

    The views [member_permissions] and [channel_accessible_members] of the
    migrations, [internal/permissions], and [internal/channel]: the repository
    ([sqlite/]) and the service over it. Conventions as in [Accounts]; [now]
    is the clock the views compare a member's timeout with. *)

From S2P Require Import Prelude GoText Events Publishers HubSystem Tables Posts Store Accounts Members.

(** ** permissions.go *)

Definition Read : Z := 1.
Definition Publish_ : Z := 2.
Definition Voice : Z := 4.
Definition Stream : Z := 8.
Definition ManageMessages : Z := 16.

(** [max(r.permissions & 1)+...+max(r.permissions & 16)] over some rows, 0 when
    there are none. *)
Definition max_bit (bit : Z) (bits : list Z) : Z := foldr (fun p m => Z.max (Z.land p bit) m) 0%Z bits.
Definition role_bits (bits : list Z) : Z :=
  (max_bit 1 bits + max_bit 2 bits + max_bit 4 bits + max_bit 8 bits + max_bit 16 bits)%Z.

Definition manages (r : Role) : bool := bool_decide (r = RoleOwner ∨ r = RoleAdmin).

(** The custom roles of a member. *)
Definition assigned (d : DB) (s u : Z) : list Z :=
  omap (fun r : Z * Z * Z => if decide (r.1 = (s, u)) then Some r.2 else None) (elements (db_member_roles d)).

Definition base_permissions (d : DB) (s u : Z) (role : Role) : Z :=
  if manages role then 31
  else if decide (assigned d s u = []) then 15
  else role_bits (omap (fun r => rl_permissions <$> db_roles d !! r) (assigned d s u)).

Definition timed_out (now : Z) (m : member_row) : bool :=
  match mb_timeout_until m with Some t => (now <? t)%Z | None => false end.

(** The view [member_permissions]. *)
Definition member_permissions (d : DB) (now s u : Z) : option Z :=
  m ← db_members d !! (s, u);
  let base := base_permissions d s u (mb_role m) in
  Some (if timed_out now m then Z.land base 17 else base).

Definition Allowed (d : DB) (now s u bit : Z) : bool :=
  match member_permissions d now s u with Some p => negb (Z.land p bit =? 0)%Z | None => false end.

(** The view [channel_accessible_members], as rows (channel, server, user). *)
Definition granted (d : DB) (ch : Z) (c : channel_row) (u : Z) (role : Role) : bool :=
  negb (ch_restricted c) || manages role ||
  bool_decide (set_Exists (fun g : Z * Z * Z => g.1.1 = ch ∧ g.2 = u) (db_user_grants d)) ||
  bool_decide ((ch, role) ∈ db_role_grants d) ||
  existsb (fun r => bool_decide ((ch, r) ∈ db_custom_grants d)) (assigned d (ch_server_id c) u).

Definition channel_accessible_members (d : DB) (now : Z) : list (Z * Z * Z) :=
  c ← map_to_list (db_channels d);
  omap (fun m : Z * Z * member_row =>
    if decide (m.1.1 = ch_server_id c.2) then
      if Allowed d now m.1.1 m.1.2 Read && granted d c.1 c.2 m.1.2 (mb_role m.2)
      then Some (c.1, m.1.1, m.1.2) else None
    else None) (map_to_list (db_members d)).

Definition is_accessible (d : DB) (now ch u : Z) : bool :=
  existsb (fun r => (r.1.1 =? ch)%Z && (r.2 =? u)%Z) (channel_accessible_members d now).

(** ** channel.go, create.go, update.go *)

Inductive ChannelError :=
  | ErrChannelNameRequired | ErrChannelNameTooLong | ErrKindInvalid | ErrVoiceRequired | ErrChannelForbidden
  | ErrNameAlreadyExists | ErrChannelNotFound | ErrAccessInvalid | ErrSlowmodeInvalid
  | ErrChannelNoRows | ErrChannelConstraint (c : Constraint).
#[export] Instance ChannelError_eq_dec : EqDecision ChannelError.
Proof. solve_decision. Defined.

Definition KindText : string := "text".
Definition KindVoice : string := "voice".
Definition KindNews : string := "news".
Definition IsValid (k : string) : bool := String.eqb k KindText || String.eqb k KindVoice || String.eqb k KindNews.

(** [Channel]: the fields that are published, then those of the listing. *)
Record ChannelInfo := mkChannelInfo {
  ci_Channel : Channel; ci_Permissions : Z; ci_LastMessageID : Z; ci_UnreadCount : Z;
  ci_CanPublish : bool; ci_E2EERequired : bool }.

Definition name_Validate (name : string) : option ChannelError :=
  if String.eqb name "" then Some ErrChannelNameRequired
  else if 64 <? RuneCountInString name then Some ErrChannelNameTooLong else None.

(** [CASE WHEN is_news=1 THEN 'news' ELSE kind END] *)
Definition stored_kind (c : channel_row) : string := if ch_voice c then KindVoice else KindText.
Definition public_kind (c : channel_row) : string := if ch_news c then KindNews else stored_kind c.

Definition channel_of_row (id : Z) (c : channel_row) : Channel :=
  {| chn_ID := id; chn_ServerID := ch_server_id c; chn_Name := ch_name c; chn_Kind := public_kind c;
     chn_Position := ch_position c; chn_CreatedBy := ch_created_by c; chn_CreatedAt := ch_created_at c;
     chn_AccessRestricted := ch_restricted c; chn_CommentsEnabled := ch_comments c |}.

Section channels.
Context `{MapOrder, Platform}.

Definition channel_Normalize (name kind : string) : string * string :=
  (TrimSpace name, ToLower (TrimSpace kind)).
Definition channel_Validate (name kind : string) : option ChannelError :=
  match name_Validate name with
  | Some e => Some e
  | None => if IsValid kind then None else Some ErrKindInvalid
  end.

(** ** sqlite/repository.go *)

Definition channel_audit (s actor : Z) (action : string) (ch : Z) (name : string) (details : Details)
    : Tx ChannelError unit :=
  audit_Record ErrChannelNoRows ErrChannelConstraint s actor action "channel" ch name details.

(** [COALESCE(MAX(position)+1, 0)] over the channels of the server. *)
Definition next_position (s : Z) (d : DB) : Z :=
  foldr (fun c n => if (ch_server_id c =? s)%Z then Z.max (ch_position c + 1) n else n) 0%Z
    (map_to_list (db_channels d)).*2.

Definition name_taken (s : Z) (name : string) (except : Z) (d : DB) : bool :=
  row_exists (fun id c => (ch_server_id c =? s)%Z && String.eqb (ch_name c) name && negb (id =? except)%Z)
    (db_channels d).

Definition insert_channel (s : Z) (name : string) (voice news : bool) (u now : Z) (d : DB)
    : Constraint + (Z * DB) :=
  if negb (length_between 1 64 (sql_trim name)) then inl CheckFailed
  else if name_taken s name 0 d then inl NotUnique
  else if negb (has_key (db_servers d) s && has_key (db_users d) u) then inl ForeignKey
  else
    let id := (db_channel_seq d + 1)%Z in
    inr (id, d <| db_channels ::= <[id := mkChannelRow s name voice news (next_position s d) u now false false 0 false]> |>
               <| db_channel_seq := id |>).

Definition name_conflict (c : Constraint) : ChannelError :=
  if decide (c = NotUnique) then ErrNameAlreadyExists else ErrChannelConstraint c.

Definition channel_Create (serverID userID : Z) (name kind : string) (now : Z) (d : DB)
    : (ChannelError + ChannelInfo) * DB :=
  let isNews := String.eqb kind KindNews in
  let storageKind := if isNews then KindText else kind in
  atomically (
    allowed ← query (has_role serverID userID [RoleOwner; RoleAdmin]);
    require allowed ErrChannelForbidden ;;
    id ← insert_row name_conflict (insert_channel serverID name (String.eqb storageKind KindVoice) isNews userID now);
    c ← row ErrChannelNoRows (fun d => db_channels d !! id);
    channel_audit serverID userID "channel.created" id (ch_name c) NoDetails ;;
    mret (mkChannelInfo (channel_of_row id c) 0 0 0 true false)) d.

(** The last message that is not a reply in a thread. *)
Definition last_message_id (ch : Z) (p : Posts) : Z :=
  foldr (fun e n => if (ms_channel_id e.2 =? ch)%Z && bool_decide (ms_thread_root e.2 = None)
                    then Z.max e.1 n else n) 0%Z (map_to_list (ps_messages p)).

Definition unread_count (ch u : Z) (d : DB) : Z :=
  let read := from_option rd_last_read 0%Z (db_reads d !! (ch, u)) in
  Z.of_nat (length (filter (fun e : Z * Z * Z * notice_row =>
    e.1.1 = (ch, u) ∧ nt_read_at e.2 = None ∧ (read < e.1.2)%Z) (map_to_list (ps_notices (db_posts d))))).

Definition publishes (ch u : Z) (d : DB) : bool :=
  bool_decide (set_Exists (fun g : Z * Z * Z => g.1.1 = ch ∧ g.2 = u) (db_publishers d)).

Definition channel_info (u now id : Z) (c : channel_row) (d : DB) : ChannelInfo :=
  mkChannelInfo (channel_of_row id c) (default 0%Z (member_permissions d now (ch_server_id c) u))
    (last_message_id id (db_posts d)) (unread_count id u d)
    (Allowed d now (ch_server_id c) u Publish_ &&
     (negb (ch_news c) || has_role (ch_server_id c) u [RoleOwner; RoleAdmin] d || publishes id u d))
    (ch_e2ee_required c).

Definition shown_before (a b : Z * channel_row) : Prop :=
  (ch_position a.2 < ch_position b.2 ∨ ch_position a.2 = ch_position b.2 ∧ a.1 <= b.1)%Z.
#[export] Instance shown_before_dec a b : Decision (shown_before a b).
Proof. unfold shown_before. apply _. Defined.

Definition channel_ListByServerID (serverID userID now : Z) (d : DB) : ChannelError + list ChannelInfo :=
  if bool_decide (is_Some (db_members d !! (serverID, userID))) then
    inr ((fun e => channel_info userID now e.1 e.2 d) <$> merge_sort shown_before
      (filter (fun e : Z * channel_row => ch_server_id e.2 = serverID ∧ is_accessible d now e.1 userID = true)
         (map_to_list (db_channels d))))
  else inl ErrChannelForbidden.

(** The channel of that server, if there is one. *)
Definition find_channel (serverID channelID : Z) (d : DB) : option channel_row :=
  c ← db_channels d !! channelID; if (ch_server_id c =? serverID)%Z then Some c else None.

Definition missing_or_forbidden (serverID channelID : Z) (d : DB) : ChannelError :=
  match find_channel serverID channelID d with Some _ => ErrChannelForbidden | None => ErrChannelNotFound end.

(** The row a statement guarded by the role of the requester matches. *)
Definition managed (serverID channelID userID : Z) (d : DB) : option channel_row :=
  if has_role serverID userID [RoleOwner; RoleAdmin] d then find_channel serverID channelID d else None.

Definition rename_channel (ch : Z) (name : string) (c : channel_row) (d : DB) : Constraint + (channel_row * DB) :=
  if negb (length_between 1 64 (sql_trim name)) then inl CheckFailed
  else if name_taken (ch_server_id c) name ch d then inl NotUnique
  else let c := c <| ch_name := name |> in inr (c, d <| db_channels ::= <[ch := c]> |>).

Definition channel_Update (serverID channelID userID : Z) (name : string) (d : DB)
    : (ChannelError + ChannelInfo) * DB :=
  atomically (
    found ← query (managed serverID channelID userID);
    match found with
    | None => e ← query (missing_or_forbidden serverID channelID); fail e
    | Some c =>
        c ← insert_row name_conflict (rename_channel channelID name c);
        channel_audit serverID userID "channel.updated" channelID (ch_name c) NoDetails ;;
        mret (mkChannelInfo (channel_of_row channelID c) 0 0 0 false false)
    end) d.

Definition channel_Delete (serverID channelID userID now : Z) (d : DB) : (ChannelError + ChannelInfo) * DB :=
  atomically (
    found ← query (managed serverID channelID userID);
    match found with
    | None => e ← query (missing_or_forbidden serverID channelID); fail e
    | Some c =>
        insert_row ErrChannelConstraint (fun d =>
          match delete_channel now channelID d with inl e => inl e | inr d' => inr (tt, d') end) ;;
        channel_audit serverID userID "channel.deleted" channelID (ch_name c) NoDetails ;;
        mret (mkChannelInfo (channel_of_row channelID c) 0 0 0 false false)
    end) d.

Definition checkAccess (serverID channelID userID now : Z) (d : DB) : option ChannelError :=
  if bool_decide (find_channel serverID channelID d = None) then Some ErrChannelNotFound
  else if is_accessible d now channelID userID then None else Some ErrChannelForbidden.

Definition repo_CheckVoiceAccess (others : DB → DB) (serverID channelID userID now1 now2 : Z) (d : DB)
    : option ChannelError :=
  match find_channel serverID channelID d with
  | None => Some ErrChannelNotFound
  | Some c =>
      if negb (is_accessible d now1 channelID userID) then Some ErrChannelForbidden
      else if negb (String.eqb (public_kind c) KindVoice) then Some ErrVoiceRequired
      else if Allowed (others d) now2 serverID userID Voice then None else Some ErrChannelForbidden
  end.

Definition repo_CheckStreamAccess (others others' : DB → DB) (serverID channelID userID now1 now2 now3 : Z) (d : DB)
    : option ChannelError :=
  match repo_CheckVoiceAccess others serverID channelID userID now1 now2 d with
  | Some e => Some e
  | None => if Allowed (others' (others d)) now3 serverID userID Stream then None else Some ErrChannelForbidden
  end.

(** ** sqlite/members.go *)

Definition repo_ListMemberIDs (serverID channelID userID now : Z) (d : DB) : ChannelError + list Z :=
  match checkAccess serverID channelID userID now d with
  | Some e => inl e
  | None =>
      inr (merge_sort Z.le
        (omap (fun r : Z * Z * Z => if decide (r.1 = (channelID, serverID)) then Some r.2 else None)
           (channel_accessible_members d now)))
  end.

(** ** sqlite/access.go *)

Record Access := mkAccess { ac_Restricted : bool; ac_UserIDs : list Z; ac_Roles : list string }.

Definition requireManager (serverID channelID userID : Z) : Tx ChannelError channel_row :=
  c ← row ErrChannelNotFound (find_channel serverID channelID);
  allowed ← query (has_role serverID userID [RoleOwner; RoleAdmin]);
  require allowed ErrChannelForbidden ;;
  mret c.

(** The role a stored name denotes. *)
Definition role_named (name : string) : option Role :=
  if String.eqb name "owner" then Some RoleOwner
  else if String.eqb name "admin" then Some RoleAdmin
  else if String.eqb name "member" then Some RoleMember else None.

Definition string_le (a b : string) : Prop := String.leb a b = true.
#[export] Instance string_le_dec a b : Decision (string_le a b).
Proof. unfold string_le. apply _. Defined.

Definition grant_users (ch : Z) (rows : gset (Z * Z * Z)) : list Z :=
  merge_sort Z.le (omap (fun g : Z * Z * Z => if decide (g.1.1 = ch) then Some g.2 else None) (elements rows)).

Definition readAccess (ch : Z) (d : DB) : option Access :=
  c ← db_channels d !! ch;
  Some (mkAccess (ch_restricted c) (grant_users ch (db_user_grants d))
    (merge_sort string_le
       (omap (fun g : Z * Role => if decide (g.1 = ch) then Some (role_name g.2) else None)
          (elements (db_role_grants d))))).

Definition repo_GetAccess (serverID channelID userID : Z) (d : DB) : ChannelError + Access :=
  (atomically (requireManager serverID channelID userID ;; row ErrChannelNoRows (readAccess channelID)) d).1.

(** [SELECT COUNT(...) FROM server_members WHERE server_id=? AND user_id IN (...)] *)
Definition count_members (s : Z) (ids : list Z) (d : DB) : nat :=
  length (filter (fun e : Z * Z * member_row => e.1.1 = s ∧ e.1.2 ∈ ids) (map_to_list (db_members d))).

(** The grants or publishers of a channel, replaced by [ids]. *)
Definition replace_users (ch s : Z) (ids : list Z) (rows : gset (Z * Z * Z)) : gset (Z * Z * Z) :=
  list_to_set ((fun u => (ch, s, u)) <$> ids) ∪ filter (fun g => g.1.1 ≠ ch) rows.

Definition insert_role_grant (ch : Z) (name : string) (d : DB) : Constraint + (unit * DB) :=
  match role_named name with
  | None => inl CheckFailed
  | Some r =>
      if bool_decide ((ch, r) ∈ db_role_grants d) then inl PrimaryKey
      else inr (tt, d <| db_role_grants ::= union {[(ch, r)]} |>)
  end.

Fixpoint insert_role_grants (ch : Z) (names : list string) : Tx ChannelError unit :=
  match names with
  | [] => mret tt
  | name :: names => insert_row ErrChannelConstraint (insert_role_grant ch name) ;; insert_role_grants ch names
  end.

(** The multi-row insert of user grants; the members were counted before. *)
Definition insert_user_grants (ch s : Z) (ids : list Z) (d : DB) : Constraint + (unit * DB) :=
  if bool_decide (NoDup ids) then inr (tt, d <| db_user_grants ::= replace_users ch s ids |>) else inl PrimaryKey.

Definition repo_SetAccess (serverID channelID userID : Z) (value : Access) (d : DB)
    : (ChannelError + Access) * DB :=
  atomically (
    c ← requireManager serverID channelID userID;
    require (length (ac_UserIDs value) <=? 1000) ErrAccessInvalid ;;
    count ← query (count_members serverID (ac_UserIDs value));
    require (bool_decide (ac_UserIDs value = []) || (count =? length (ac_UserIDs value))) ErrAccessInvalid ;;
    exec (fun d => d <| db_channels ::= <[channelID := c <| ch_restricted := ac_Restricted value |>]> |>
                     <| db_role_grants ::= filter (fun g => g.1 ≠ channelID) |>) ;;
    insert_row ErrChannelConstraint (insert_user_grants channelID serverID (ac_UserIDs value)) ;;
    insert_role_grants channelID (ac_Roles value) ;;
    result ← row ErrChannelNoRows (readAccess channelID);
    channel_audit serverID userID "channel.permissions" channelID ""
      (AccessDetails (ac_Restricted value) (ac_UserIDs value) (ac_Roles value)) ;;
    mret result) d.

Definition AccessibleChannelIDs (userID now : Z) (d : DB) : gset Z :=
  list_to_set (omap (fun r : Z * Z * Z => if decide (r.2 = userID) then Some r.1.1 else None)
    (channel_accessible_members d now)).

(** The slices [unique[start:min(start+500, len)]]. *)
Fixpoint batches (fuel : nat) (ids : list Z) : list (list Z) :=
  match fuel, ids with
  | 0, _ | _, [] => []
  | S fuel, _ => take 500 ids :: batches fuel (drop 500 ids)
  end.

(** One query of the loop: its rows are added to the policies. *)
Definition load_batch (now : Z) (d : DB) (result : gmap Z (gset Z)) (ids : list Z) : gmap Z (gset Z) :=
  foldl (fun result (r : Z * Z * Z) =>
      if bool_decide (r.2 ∈ ids) then <[r.2 := {[r.1.1]} ∪ default ∅ (result !! r.2)]> result else result)
    result (channel_accessible_members d now).

Definition AccessibleChannelIDsForUsers (now : Z) (d : DB) (userIDs : list Z) : gmap Z (gset Z) :=
  let unique := foldl (fun ids u => if bool_decide (u ∈ ids) then ids else ids ++ [u]) [] userIDs in
  foldl (load_batch now d) (list_to_map ((fun u => (u, ∅)) <$> unique)) (batches (length unique) unique).

(** ** sqlite/news.go, sqlite/slowmode.go *)

Record NewsSettings := mkNewsSettings { nw_PublisherIDs : list Z; nw_CommentsEnabled : bool }.

Definition readNews (ch : Z) : Tx ChannelError NewsSettings :=
  c ← row ErrChannelNoRows (fun d => db_channels d !! ch);
  require (ch_news c) ErrAccessInvalid ;;
  publishers ← query (fun d => grant_users ch (db_publishers d));
  mret (mkNewsSettings publishers (ch_comments c)).

Definition repo_GetNews (serverID channelID userID : Z) (d : DB) : ChannelError + NewsSettings :=
  (atomically (requireManager serverID channelID userID ;; readNews channelID) d).1.

(** The insert of the publishers: no duplicates, all of them members. *)
Definition insert_publishers (ch s : Z) (ids : list Z) (d : DB) : Constraint + (unit * DB) :=
  if bool_decide (NoDup ids) then inr (tt, d <| db_publishers ::= replace_users ch s ids |>) else inl PrimaryKey.

Definition repo_SetNews (serverID channelID userID : Z) (value : NewsSettings) (d : DB)
    : (ChannelError + NewsSettings) * DB :=
  atomically (
    c ← requireManager serverID channelID userID;
    readNews channelID ;;
    require (length (nw_PublisherIDs value) <=? 1000) ErrAccessInvalid ;;
    count ← query (count_members serverID (nw_PublisherIDs value));
    require (count =? length (nw_PublisherIDs value)) ErrAccessInvalid ;;
    exec (fun d => d <| db_channels ::= <[channelID := c <| ch_comments := nw_CommentsEnabled value |>]> |>) ;;
    insert_row ErrChannelConstraint (insert_publishers channelID serverID (nw_PublisherIDs value)) ;;
    value ← readNews channelID;
    channel_audit serverID userID "channel.permissions" channelID ""
      (NewsDetails (nw_PublisherIDs value) (nw_CommentsEnabled value)) ;;
    mret value) d.

Definition repo_GetSlowmode (serverID channelID userID : Z) (d : DB) : ChannelError + Z :=
  match find_channel serverID channelID d with
  | Some c => if bool_decide (is_Some (db_members d !! (ch_server_id c, userID)))
              then inr (ch_slowmode c) else inl ErrChannelNotFound
  | None => inl ErrChannelNotFound
  end.

Definition repo_SetSlowmode (serverID channelID userID seconds : Z) (d : DB) : (ChannelError + unit) * DB :=
  atomically (
    c ← requireManager serverID channelID userID;
    require ((0 <=? seconds)%Z && (seconds <=? 21600)%Z) (ErrChannelConstraint CheckFailed) ;;
    exec (fun d => d <| db_channels ::= <[channelID := c <| ch_slowmode := seconds |>]> |>)) d.

(** ** service.go, access.go, news.go, slowmode.go *)

Definition check_channel_ids (serverID channelID userID : Z) : option ChannelError :=
  if (serverID <=? 0)%Z || (channelID <=? 0)%Z then Some ErrChannelNotFound
  else if (userID <=? 0)%Z then Some ErrChannelForbidden else None.

Definition channels_ListMemberIDs (serverID channelID userID now : Z) (d : DB) : ChannelError + list Z :=
  match check_channel_ids serverID channelID userID with
  | Some e => inl e
  | None => repo_ListMemberIDs serverID channelID userID now d
  end.

Definition channels_Create (serverID userID : Z) (name kind : string) (now : Z) (d : DB)
    : Outcome ChannelError ChannelInfo :=
  if (serverID <=? 0)%Z || (userID <=? 0)%Z then (inl ErrChannelForbidden, [], d)
  else
    let '(name, kind) := channel_Normalize name kind in
    match channel_Validate name kind with
    | Some e => (inl e, [], d)
    | None =>
        match channel_Create serverID userID name kind now d with
        | (inl e, d) => (inl e, [], d)
        | (inr info, d) => (inr info, [SvChannelCreated (ci_Channel info)], d)
        end
    end.

Definition channels_ListByServerID (serverID userID now : Z) (d : DB) : ChannelError + list ChannelInfo :=
  if (serverID <=? 0)%Z || (userID <=? 0)%Z then inl ErrChannelForbidden
  else channel_ListByServerID serverID userID now d.

Definition channels_Update (serverID channelID userID : Z) (name : string) (d : DB)
    : Outcome ChannelError ChannelInfo :=
  match check_channel_ids serverID channelID userID with
  | Some e => (inl e, [], d)
  | None =>
      let name := TrimSpace name in
      match name_Validate name with
      | Some e => (inl e, [], d)
      | None =>
          match channel_Update serverID channelID userID name d with
          | (inl e, d) => (inl e, [], d)
          | (inr info, d) => (inr info, [SvChannelUpdated (ci_Channel info)], d)
          end
      end
  end.

Definition channels_Delete (serverID channelID userID now : Z) (d : DB) : Outcome ChannelError unit :=
  match check_channel_ids serverID channelID userID with
  | Some e => (inl e, [], d)
  | None =>
      match channel_Delete serverID channelID userID now d with
      | (inl e, d) => (inl e, [], d)
      | (inr info, d) => (inr tt, [SvChannelDeleted (ci_Channel info)], d)
      end
  end.

Definition channels_CheckAccess (serverID channelID userID now : Z) (d : DB) : option ChannelError :=
  match check_channel_ids serverID channelID userID with
  | Some e => Some e
  | None => checkAccess serverID channelID userID now d
  end.
Definition channels_CheckVoiceAccess (others : DB → DB) (serverID channelID userID now1 now2 : Z) (d : DB)
    : option ChannelError :=
  match check_channel_ids serverID channelID userID with
  | Some e => Some e
  | None => repo_CheckVoiceAccess others serverID channelID userID now1 now2 d
  end.

(** [slices.Compact] *)
Fixpoint Compact {A} `{EqDecision A} (l : list A) : list A :=
  match l with
  | a :: (b :: _) as l' => if decide (a = b) then Compact l' else a :: Compact l'
  | _ => l
  end.

Definition access_valid (input : Access) : bool :=
  (length (ac_UserIDs input) <=? 1000) && (length (ac_Roles input) <=? 3) &&
  forallb (fun u => (0 <? u)%Z) (ac_UserIDs input) &&
  forallb (fun r => bool_decide (is_Some (role_named r))) (ac_Roles input).

Definition channels_SetAccess (serverID channelID userID : Z) (input : Access) (d : DB)
    : Outcome ChannelError Access :=
  if access_valid input then
    let input := mkAccess (ac_Restricted input) (Compact (merge_sort Z.le (ac_UserIDs input)))
                   (Compact (merge_sort string_le (ac_Roles input))) in
    match repo_SetAccess serverID channelID userID input d with
    | (inl e, d) => (inl e, [], d)
    | (inr value, d) => (inr value, [SvRefreshAccess serverID], d)
    end
  else (inl ErrAccessInvalid, [], d).

Definition channels_SetNews (serverID channelID userID : Z) (input : NewsSettings) (d : DB)
    : Outcome ChannelError NewsSettings :=
  if (length (nw_PublisherIDs input) <=? 1000) && forallb (fun u => (0 <? u)%Z) (nw_PublisherIDs input) then
    let input := mkNewsSettings (Compact (merge_sort Z.le (nw_PublisherIDs input))) (nw_CommentsEnabled input) in
    match repo_SetNews serverID channelID userID input d with
    | (inl e, d) => (inl e, [], d)
    | (inr value, d) => (inr value, [SvRefreshAccess serverID], d)
    end
  else (inl ErrAccessInvalid, [], d).

Definition MaxSlowmodeSeconds : Z := 21600.
Definition channels_SetSlowmode (serverID channelID userID seconds : Z) (d : DB) : (ChannelError + unit) * DB :=
  if (seconds <? 0)%Z || (MaxSlowmodeSeconds <? seconds)%Z then (inl ErrSlowmodeInvalid, d)
  else repo_SetSlowmode serverID channelID userID seconds d.
End channels.
