(* ===== verification/Roles.v ===== *)
(** * Custom roles

    [internal/community/roles.go]: the roles of a server, who has them and
    which restricted channels they open. The endpoints take their decoded
    input; a change is followed by [RefreshRolePermissions] of the hub. *)

From S2P Require Import Prelude GoText Events HubSystem Tables Posts Store Accounts Members Channels.

Inductive CommunityError :=
  | ErrAccessDenied | ErrInvalid | ErrConflict | ErrCommunityNoRows | ErrCommunityConstraint (c : Constraint).
#[export] Instance CommunityError_eq_dec : EqDecision CommunityError.
Proof. solve_decision. Defined.

Record CustomRole := mkCustomRole {
  cu_ID : Z; cu_Name : string; cu_Color : string; cu_Permissions : Z; cu_UserIDs : list Z }.

Definition is_hex (c : Ascii.ascii) : bool :=
  let b := byte_of c in
  ((48 <=? b)%Z && (b <=? 57)%Z) || ((65 <=? b)%Z && (b <=? 70)%Z) || ((97 <=? b)%Z && (b <=? 102)%Z).
(** [^#[0-9a-fA-F]{6}$] *)
Definition colorPattern (s : string) : bool :=
  match String.list_ascii_of_string s with
  | c :: digits => Ascii.eqb c (Ascii.ascii_of_nat 35) && (length digits =? 6) && forallb is_hex digits
  | [] => false
  end.

Section roles.
Context `{MapOrder}.

Definition owner (serverID userID : Z) : Tx CommunityError unit :=
  yes ← query (has_role serverID userID [RoleOwner]);
  require yes ErrAccessDenied.

Definition rolesChanged (serverID : Z) : list service_request := [SvRefreshRoles serverID].

Definition community_audit (s actor : Z) (action target : string) (id : Z) (name : string) (details : Details)
    : Tx CommunityError unit :=
  audit_Record ErrCommunityNoRows ErrCommunityConstraint s actor action target id name details.

(** The result of a transaction with what follows its commit. *)
Definition committed {A} (effects : list service_request) (p : (CommunityError + A) * DB)
    : Outcome CommunityError A :=
  match p with
  | (inl e, d) => (inl e, [], d)
  | (inr a, d) => (inr a, effects, d)
  end.

Definition by_id (a b : Z * role_row) : Prop := (a.1 <= b.1)%Z.
#[export] Instance by_id_dec a b : Decision (by_id a b).
Proof. unfold by_id. apply _. Defined.

Definition server_roles (serverID : Z) (d : DB) : list (Z * role_row) :=
  merge_sort by_id (filter (fun e => rl_server_id e.2 = serverID) (map_to_list (db_roles d))).

Definition roles (serverID userID : Z) (d : DB) : CommunityError + list CustomRole :=
  if bool_decide (is_Some (db_members d !! (serverID, userID))) then
    inr ((fun e => mkCustomRole e.1 (rl_name e.2) (rl_color e.2) (rl_permissions e.2)
      (omap (fun r : Z * Z * Z => if decide (r.2 = e.1) then Some r.1.2 else None) (elements (db_member_roles d))))
      <$> server_roles serverID d)
  else inl ErrAccessDenied.

Definition insert_role (s : Z) (name color : string) (permissions : Z) (d : DB) : Constraint + (Z * DB) :=
  if negb (length_between 1 64 name) || negb ((0 <=? permissions)%Z && (permissions <=? 31)%Z) then inl CheckFailed
  else if row_exists (fun _ r => (rl_server_id r =? s)%Z && String.eqb (rl_name r) name) (db_roles d)
  then inl NotUnique
  else if negb (has_key (db_servers d) s) then inl ForeignKey
  else
    let id := (db_role_seq d + 1)%Z in
    inr (id, d <| db_roles ::= <[id := mkRoleRow s name color permissions]> |> <| db_role_seq := id |>).

Definition update_role (id s : Z) (name color : string) (permissions : Z) : Tx CommunityError Z :=
  row ErrCommunityNoRows (fun d => r ← db_roles d !! id; if (rl_server_id r =? s)%Z then Some r else None) ;;
  exec (fun d => d <| db_roles ::= <[id := mkRoleRow s name color permissions]> |>) ;;
  mret id.

Definition role_input_valid (name color : string) (permissions : Z) : bool :=
  negb (String.eqb name "") && (RuneCountInString name <=? 64) &&
  (0 <=? permissions)%Z && (permissions <=? 31)%Z && colorPattern color.

Definition saveRole (serverID roleID userID : Z) (name color : string) (permissions : Z) (d : DB)
    : Outcome CommunityError CustomRole :=
  let name := TrimSpace name in
  if role_input_valid name color permissions then
    committed (rolesChanged serverID) (atomically (
      owner serverID userID ;;
      count ← query (fun d => length (server_roles serverID d));
      require (negb ((roleID =? 0)%Z && (100 <=? count))) ErrInvalid ;;
      duplicate ← query (fun d => row_exists (fun id r =>
        (rl_server_id r =? serverID)%Z && String.eqb (rl_name r) name && negb (id =? roleID)%Z) (db_roles d));
      require (negb duplicate) ErrConflict ;;
      id ← (if (roleID =? 0)%Z
            then insert_row ErrCommunityConstraint (insert_role serverID name color permissions)
            else update_role roleID serverID name color permissions);
      community_audit serverID userID "role.updated" "role" id name (RoleInfoDetails name color permissions) ;;
      mret (mkCustomRole id name color permissions [])) d)
  else (inl ErrInvalid, [], d).

(** Deleting a role that is not there is answered without a change. *)
Definition deleteRole (serverID roleID userID : Z) (d : DB) : Outcome CommunityError unit :=
  match atomically (
    owner serverID userID ;;
    found ← query (fun d => r ← db_roles d !! roleID; if (rl_server_id r =? serverID)%Z then Some r else None);
    match found with
    | None => mret false
    | Some r =>
        exec (delete_role roleID) ;;
        community_audit serverID userID "role.deleted" "role" roleID (rl_name r) NoDetails ;;
        mret true
    end) d with
  | (inl e, d) => (inl e, [], d)
  | (inr changed, d) => (inr tt, if changed : bool then rolesChanged serverID else [], d)
  end.

Definition role_exists (s id : Z) (d : DB) : bool :=
  match db_roles d !! id with Some r => (rl_server_id r =? s)%Z | None => false end.

(** The loop of [assignRoles]. *)
Fixpoint assign_each (s u : Z) (seen : list Z) (ids : list Z) : Tx CommunityError unit :=
  match ids with
  | [] => mret tt
  | id :: ids =>
      require (negb ((id <=? 0)%Z || bool_decide (id ∈ seen))) ErrInvalid ;;
      exists_ ← query (role_exists s id);
      require exists_ ErrInvalid ;;
      exec (fun d => d <| db_member_roles ::= union {[(s, u, id)]} |>) ;;
      assign_each s u (id :: seen) ids
  end.

Definition assignRoles (serverID target userID : Z) (roleIDs : list Z) (d : DB) : Outcome CommunityError unit :=
  if 100 <? length roleIDs then (inl ErrInvalid, [], d)
  else committed (rolesChanged serverID) (atomically (
    owner serverID userID ;;
    m ← row ErrCommunityNoRows (fun d => db_members d !! (serverID, target));
    require (negb (bool_decide (mb_role m = RoleOwner))) ErrAccessDenied ;;
    exec (fun d => d <| db_member_roles ::= filter (fun r : Z * Z * Z => r.1 ≠ (serverID, target)) |>) ;;
    assign_each serverID target [] roleIDs ;;
    community_audit serverID userID "member.permissions" "user" target "" (RoleIDsDetails roleIDs)) d).

(** What a member with only this role would see: id, name, kind, permissions
    and whether they may publish. *)
Definition previewRole (serverID roleID userID : Z) (d : DB)
    : CommunityError + list (Z * string * string * Z * bool) :=
  (atomically (
    owner serverID userID ;;
    r ← row ErrCommunityNoRows (fun d => r ← db_roles d !! roleID; if (rl_server_id r =? serverID)%Z then Some r else None);
    let bits := rl_permissions r in
    query (fun d => (fun e : Z * channel_row =>
        (e.1, ch_name e.2, public_kind e.2, bits,
         negb (Z.land bits 2 =? 0)%Z && negb (String.eqb (public_kind e.2) KindNews))) <$>
      merge_sort shown_before (filter (fun e : Z * channel_row =>
        ch_server_id e.2 = serverID ∧ Z.land bits 1 ≠ 0%Z ∧
        (ch_restricted e.2 = false ∨ (e.1, RoleMember) ∈ db_role_grants d ∨ (e.1, roleID) ∈ db_custom_grants d))
        (map_to_list (db_channels d))))) d).1.

Fixpoint grant_each (s ch : Z) (ids : list Z) : Tx CommunityError unit :=
  match ids with
  | [] => mret tt
  | id :: ids =>
      valid ← query (role_exists s id);
      require valid ErrInvalid ;;
      exec (fun d => d <| db_custom_grants ::= union {[(ch, id)]} |>) ;;
      grant_each s ch ids
  end.

Definition require_channel (s ch : Z) : Tx CommunityError unit :=
  found ← query (find_channel s ch);
  require (bool_decide (is_Some found)) ErrInvalid.

(** [roleGrants] answering GET, then PUT. *)
Definition getRoleGrants (serverID channelID userID : Z) (d : DB) : CommunityError + list Z :=
  (atomically (
    owner serverID userID ;;
    require_channel serverID channelID ;;
    query (fun d => merge_sort Z.le
      (omap (fun g : Z * Z => if decide (g.1 = channelID) then Some g.2 else None) (elements (db_custom_grants d))))) d).1.

Definition setRoleGrants (serverID channelID userID : Z) (roleIDs : list Z) (d : DB)
    : Outcome CommunityError (list Z) :=
  if 100 <? length roleIDs then (inl ErrInvalid, [], d)
  else committed (rolesChanged serverID) (atomically (
    owner serverID userID ;;
    require_channel serverID channelID ;;
    exec (fun d => d <| db_custom_grants ::= filter (fun g => g.1 ≠ channelID) |>) ;;
    grant_each serverID channelID roleIDs ;;
    community_audit serverID userID "channel.permissions" "channel" channelID "" (RoleIDsDetails roleIDs) ;;
    mret roleIDs) d).
End roles.
