(* ===== verification/ReadState.v ===== *)
(** * Read positions

    [internal/readstate]: how far each member has read each channel. *)

From S2P Require Import Prelude GoText Events Publishers HubSystem Tables Posts Store Accounts Members Channels.

Inductive ReadError :=
  | ErrReadForbidden | ErrReadChannelNotFound | ErrReadTextChannelRequired | ErrReadMessageNotFound
  | ErrMessageIDInvalid | ErrReadNoRows | ErrReadConstraint (c : Constraint).
#[export] Instance ReadError_eq_dec : EqDecision ReadError.
Proof. solve_decision. Defined.

(** [MarkInput.Validate] *)
Definition mark_Validate (lastRead : Z) : option ReadError :=
  if (lastRead <=? 0)%Z then Some ErrMessageIDInvalid else None.

(** ** sqlite/repository.go *)

(** Text and voice are the only kinds a channel is stored with. *)
Definition requireMessageChannelMember (serverID channelID userID now : Z) : Tx ReadError channel_row :=
  c ← row ErrReadChannelNotFound (find_channel serverID channelID);
  member ← query (fun d => existsb (fun r => bool_decide (r = (channelID, serverID, userID)))
    (channel_accessible_members d now));
  require member ErrReadForbidden ;;
  require (String.eqb (stored_kind c) KindText || String.eqb (stored_kind c) KindVoice) ErrReadTextChannelRequired ;;
  mret c.

Definition read_of_row (serverID : Z) (k : Z * Z) (r : read_row) : ChannelReadData :=
  mkChannelReadData serverID k.1 k.2 (rd_last_read r) (rd_updated_at r).

(** The triggers on [channel_reads]: what was read needs no notification. *)
Definition clear_notices (ch u last : Z) (d : DB) : DB :=
  d <| db_posts ::= fun p => p <| ps_notices ::= delete_where (fun k _ =>
         (k.1.1 =? ch)%Z && (k.1.2 =? u)%Z && (k.2 <=? last)%Z) |> |>.

(** The upsert; [None] when the stored position is not behind. *)
Definition upsert_read (ch u last now : Z) (d : DB) : Constraint + (option read_row * DB) :=
  let write := let r := mkRead last now in
    inr (Some r, clear_notices ch u last (d <| db_reads ::= <[(ch, u) := r]> |>)) in
  match db_reads d !! (ch, u) with
  | Some r => if (rd_last_read r <? last)%Z then write else inr (None, d)
  | None =>
      if (last <=? 0)%Z then inl CheckFailed
      else if negb (has_key (db_channels d) ch && has_key (db_users d) u) then inl ForeignKey
      else write
  end.

Definition selectChannelRead (serverID ch u : Z) : Tx ReadError ChannelReadData :=
  row ErrReadNoRows (fun d => read_of_row serverID (ch, u) <$> db_reads d !! (ch, u)).

Definition read_Mark (serverID channelID userID lastRead now1 now2 : Z) (d : DB)
    : (ReadError + (ChannelReadData * bool)) * DB :=
  atomically (
    requireMessageChannelMember serverID channelID userID now1 ;;
    exists_ ← query (fun d => match ps_messages (db_posts d) !! lastRead with
      | Some m => (ms_channel_id m =? channelID)%Z | None => false end);
    require exists_ ErrReadMessageNotFound ;;
    written ← insert_row ErrReadConstraint (upsert_read channelID userID lastRead now2);
    match written with
    | Some r => mret (read_of_row serverID (channelID, userID) r, true)
    | None => read ← selectChannelRead serverID channelID userID; mret (read, false)
    end) d.

Definition read_before (a b : ChannelReadData) : Prop :=
  (cr_ServerID a < cr_ServerID b ∨ cr_ServerID a = cr_ServerID b ∧
   (cr_ChannelID a < cr_ChannelID b ∨ cr_ChannelID a = cr_ChannelID b ∧ cr_UserID a <= cr_UserID b))%Z.
#[export] Instance read_before_dec a b : Decision (read_before a b).
Proof. unfold read_before. apply _. Defined.

(** The positions [P] selects among those of members who may read the channel. *)
Definition queryChannelReads (P : Z * Z → Z → bool) (now : Z) (d : DB) : list ChannelReadData :=
  merge_sort read_before (omap (fun e : Z * Z * read_row =>
      c ← db_channels d !! e.1.1;
      if P e.1 (ch_server_id c) && bool_decide (is_Some (db_members d !! (ch_server_id c, e.1.2))) &&
         is_accessible d now e.1.1 e.1.2
      then Some (read_of_row (ch_server_id c) e.1 e.2) else None)
    (map_to_list (db_reads d))).

Definition read_ListByUserID (userID now : Z) (d : DB) : list ChannelReadData :=
  queryChannelReads (fun k _ => (k.2 =? userID)%Z) now d.

Definition read_ListByChannelID (serverID channelID requesterUserID now1 now2 : Z) (d : DB)
    : ReadError + list ChannelReadData :=
  (atomically (
    requireMessageChannelMember serverID channelID requesterUserID now1 ;;
    query (queryChannelReads (fun k s => (k.1 =? channelID)%Z && (s =? serverID)%Z) now2)) d).1.

(** ** service.go *)

Definition check_read_ids (serverID channelID userID : Z) : option ReadError :=
  if (serverID <=? 0)%Z || (channelID <=? 0)%Z then Some ErrReadChannelNotFound
  else if (userID <=? 0)%Z then Some ErrReadForbidden else None.

(** [PublishChannelRead] of a changed position, as a request to the hub. *)
Definition channel_read (read : ChannelReadData) : service_request :=
  SvPublishToChannelAndUser (cr_ChannelID read) (cr_UserID read)
    (new_event EventChannelRead (DChannelRead (newChannelReadData read))).

Definition reads_Mark (serverID channelID userID lastRead now1 now2 : Z) (d : DB)
    : Outcome ReadError ChannelReadData :=
  match check_read_ids serverID channelID userID with
  | Some e => (inl e, [], d)
  | None =>
      match mark_Validate lastRead with
      | Some e => (inl e, [], d)
      | None =>
          match read_Mark serverID channelID userID lastRead now1 now2 d with
          | (inl e, d) => (inl e, [], d)
          | (inr (read, changed), d) => (inr read, if changed : bool then [channel_read read] else [], d)
          end
      end
  end.

Definition reads_ListByUserID (userID now : Z) (d : DB) : ReadError + list ChannelReadData :=
  if (userID <=? 0)%Z then inl ErrReadForbidden else inr (read_ListByUserID userID now d).

Definition reads_ListByChannelID (serverID channelID userID now1 now2 : Z) (d : DB)
    : ReadError + list ChannelReadData :=
  match check_read_ids serverID channelID userID with
  | Some e => inl e
  | None => read_ListByChannelID serverID channelID userID now1 now2 d
  end.
