(* ===== verification/Mentions.v ===== *)
(** * Mentions

    [internal/mentions]: the tokens [<@id>], [<@&role>] and [@name] of a
    message, outside of code between backticks. *)

From S2P Require Import Prelude GoText Events HubSystem Tables Posts Store Accounts.

Record Targets := mkTargets { tg_Users : gset Z; tg_Names : gset string; tg_Roles : gset string }.
#[global] Instance Targets_fields : Fields Targets := fun t =>
  mkTargets (tg_Users t) (tg_Names t) (tg_Roles t).

Definition backtick : Ascii.ascii := Ascii.ascii_of_nat 96.

Fixpoint str_drop (n : nat) (s : string) : string :=
  match n, s with
  | 0, _ => s
  | S n, String _ s => str_drop n s
  | S _, EmptyString => ""
  end.

(** The number of backticks [s] starts with. *)
Fixpoint ticks (s : string) : nat :=
  match s with
  | String c s => if Ascii.eqb c backtick then S (ticks s) else 0
  | EmptyString => 0
  end.

(** [strings.Index] of a run of [n] backticks. *)
Fixpoint index_ticks (n : nat) (s : string) : option nat :=
  if n <=? ticks s then Some 0
  else match s with
  | EmptyString => None
  | String _ s => S <$> index_ticks n s
  end.

(** The intervals of bytes in code, from position [pos] on. *)
Fixpoint code_spans (fuel pos : nat) (s : string) : list (nat * nat) :=
  match fuel with
  | 0 => []
  | S fuel =>
      match s with
      | EmptyString => []
      | String c s' =>
          if negb (Ascii.eqb c backtick) then code_spans fuel (S pos) s'
          else
            let n := ticks s in
            let rest := str_drop n s in
            match index_ticks n rest with
            | None => code_spans fuel (pos + n) rest
            | Some e => (pos, pos + n + e + n) :: code_spans fuel (pos + n + e + n) (str_drop (e + n) rest)
            end
      end
  end.

Definition in_code (spans : list (nat * nat)) (pos : nat) : bool :=
  existsb (fun i => (i.1 <=? pos) && (pos <? i.2)) spans.

(** The longest run of digits. *)
Fixpoint digits_of (s : string) : string :=
  match s with
  | String c s => if (48 <=? byte_of c)%Z && (byte_of c <=? 57)%Z then String c (digits_of s) else ""
  | EmptyString => ""
  end.

Inductive mention := MUser (digits : string) | MRole (role : string) | MName (name : string).

Section mentions.
Context `{Platform}.

Definition name_rune (r : Z) : bool := IsLetter r || IsNumber r || (r =? 95)%Z || (r =? 45)%Z.

(** The longest run of runes of a name, in bytes. *)
Fixpoint name_of (skip : nat) (s : string) : string :=
  match s with
  | EmptyString => ""
  | String c s' =>
      match skip with
      | S skip => String c (name_of skip s')
      | 0 => let '(r, width) := decode_rune s in
             if name_rune r then String c (name_of (width - 1) s') else ""
      end
  end.

(** The match of [pattern] at the start of [s], and its length. *)
Definition match_mention (s : string) : option (mention * nat) :=
  match CutPrefix s "<@" with
  | Some rest =>
      let ds := digits_of rest in
      if (1 <=? String.length ds) && (String.length ds <=? 19) &&
         String.prefix ">" (str_drop (String.length ds) rest)
      then Some (MUser ds, 3 + String.length ds)
      else if String.prefix "&owner>" rest then Some (MRole "owner", 9)
      else if String.prefix "&admin>" rest then Some (MRole "admin", 9)
      else if String.prefix "&member>" rest then Some (MRole "member", 10)
      else None
  | None =>
      match CutPrefix s "@" with
      | Some rest =>
          let name := name_of 0 rest in
          if String.eqb name "" then None else Some (MName name, S (String.length name))
      | None => None
      end
  end.

(** What may not stand before a mention. *)
Definition glued (previous : option Z) : bool :=
  match previous with
  | None => false
  | Some r => (r =? 92)%Z || (r =? 47)%Z || (r =? 46)%Z || (r =? 64)%Z || (r =? 95)%Z || (r =? 45)%Z ||
              IsLetter r || IsNumber r
  end.

Definition add_mention (m : mention) (t : Targets) : Targets :=
  match m with
  | MUser ds => match ParseInt ds with
      | Some id => if (0 <? id)%Z then t <| tg_Users ::= union {[id]} |> else t
      | None => t end
  | MRole r => t <| tg_Roles ::= union {[r]} |>
  | MName n => if RuneCountInString n <=? 32 then t <| tg_Names ::= union {[n]} |> else t
  end.

(** The scan for matches; [previous] is the rune before [s]. *)
Fixpoint scan (fuel pos : nat) (spans : list (nat * nat)) (previous : option Z) (s : string) (t : Targets) : Targets :=
  match fuel with
  | 0 => t
  | S fuel =>
      match s with
      | EmptyString => t
      | _ =>
          match match_mention s with
          | Some (m, n) =>
              let t := if in_code spans pos || glued previous then t else add_mention m t in
              scan fuel (pos + n) spans (last (runes (String.substring 0 n s))) (str_drop n s) t
          | None =>
              let '(r, width) := decode_rune s in
              scan fuel (pos + width) spans (Some r) (str_drop width s) t
          end
      end
  end.

Definition Parse (content : string) : Targets :=
  scan (S (String.length content)) 0 (code_spans (S (String.length content)) 0 content) None content
    (mkTargets ∅ ∅ ∅).
End mentions.

Definition Matches (t : Targets) (userID : Z) (username role : string) : bool :=
  bool_decide (userID ∈ tg_Users t) || bool_decide (role ∈ tg_Roles t) || bool_decide (username ∈ tg_Names t).
