(* ===== verification/Messages.v ===== *)
(** * Messages: the repository

    [internal/message/sqlite] (all but the full-text search) with the inputs
    of [internal/message] and its polls. A repository call is one transaction;
    its arguments [now...] are the readings of the clock in the order of the
    code, [nanos] one in nanoseconds. What a page shows of a message
    ([hydrateInteractions]) is computed by [hydrate]. *)

From S2P Require Import Prelude GoText GoJson Events Publishers HubSystem Tables Posts Store Accounts Members Channels Mentions.

Inductive MessageError :=
  | ErrContentInvalid | ErrContentRequired | ErrContentTooLong | ErrMsgForbidden | ErrMsgChannelNotFound
  | ErrTextChannelRequired | ErrMessageNotFound | ErrEditForbidden | ErrDeleteForbidden | ErrPinForbidden
  | ErrReplyInvalid | ErrReactionInvalid | ErrReactionLimit | ErrForwardEdit | ErrForwardInvalid
  | ErrClientMessageIDInvalid | ErrIdempotencyConflict | ErrPollInvalid | ErrPageLimitInvalid
  | ErrBeforeIDInvalid | ErrContextLimitInvalid | ErrSlowmode (retryAfter : Z)
  | ErrMsgNoRows | ErrMsgConstraint (c : Constraint).
#[export] Instance MessageError_eq_dec : EqDecision MessageError.
Proof. solve_decision. Defined.

Record PollInput := mkPollInput {
  pi_Question : string; pi_Options : list string; pi_Multiple : bool; pi_Anonymous : bool; pi_ClosesAt : Z }.
Record MessageInput := mkMessageInput {
  mi_Poll : option PollInput; mi_AttachmentIDs : list string; mi_ThreadRootID : option Z;
  mi_Content : string; mi_ClientMessageID : string; mi_ReplyToMessageID : option Z }.
#[global] Instance MessageInput_fields : Fields MessageInput := fun i =>
  mkMessageInput (mi_Poll i) (mi_AttachmentIDs i) (mi_ThreadRootID i) (mi_Content i) (mi_ClientMessageID i)
    (mi_ReplyToMessageID i).
Record ForwardInput := mkForwardInput {
  fi_SourceConversationID : Z; fi_AttachmentIDs : list string; fi_SourceServerID : Z;
  fi_SourceChannelID : Z; fi_SourceMessageID : Z; fi_ClientMessageID : string }.

(** A message with what only the HTTP answers carry. *)
Record FullMessage := mkFullMessage {
  fm_Message : Message; fm_Reactions : list Reaction; fm_ReactionsRevision : Z }.
#[global] Instance Message_fields : Fields Message := fun m =>
  mkMessage (msg_Poll m) (msg_Attachments m) (msg_Replayed m) (msg_ClientMessageID m) (msg_ID m)
    (msg_ChannelID m) (msg_Author m) (msg_Content m) (msg_CreatedAt m) (msg_EditedAt m) (msg_Revision m)
    (msg_Reply m) (msg_Forward m) (msg_ThreadRootID m) (msg_CommentCount m).

(** A statement on the tables of messages. *)
Definition on_posts {A} (f : Posts → Constraint + (A * Posts)) : Tx MessageError A :=
  insert_row ErrMsgConstraint (fun d =>
    match f (db_posts d) with inl c => inl c | inr (a, p) => inr (a, d <| db_posts := p |>) end).
Definition posts_exec (f : Posts → Posts) : Tx MessageError unit :=
  exec (fun d => d <| db_posts ::= f |>).

Section messages.
Context `{MapOrder, Platform}.

(** ** poll.go *)

(** The loop over the options: trimmed, not empty, not repeated. *)
Fixpoint poll_options (seen : list string) (options : list string) : option (list string) :=
  match options with
  | [] => Some []
  | v :: options =>
      let v := TrimSpace v in
      if String.eqb v "" || (120 <? RuneCountInString v) || bool_decide (ToLower v ∈ seen) then None
      else rest ← poll_options (ToLower v :: seen) options; Some (v :: rest)
  end.

(** [Validate] also trims what it accepts. *)
Definition poll_Validate (now : Z) (p : PollInput) : MessageError + PollInput :=
  let question := TrimSpace (pi_Question p) in
  if (RuneCountInString question <? 1) || (300 <? RuneCountInString question) ||
     (length (pi_Options p) <? 2) || (10 <? length (pi_Options p)) || (pi_ClosesAt p <=? now)%Z
  then inl ErrPollInvalid
  else match poll_options [] (pi_Options p) with
  | None => inl ErrPollInvalid
  | Some options => inr (mkPollInput question options (pi_Multiple p) (pi_Anonymous p) (pi_ClosesAt p))
  end.

Definition insert_poll (id : Z) (p : PollInput) (ps : Posts) : Posts :=
  let poll := (ps_poll_seq ps + 1)%Z in
  let ps := ps <| ps_polls ::= <[poll := mkPollRow id (pi_Question p) (pi_Multiple p) (pi_Anonymous p)
                                  (pi_ClosesAt p) 1]> |> <| ps_poll_seq := poll |> in
  foldl (fun ps label => let o := (ps_option_seq ps + 1)%Z in
    ps <| ps_options ::= <[o := mkOptionRow poll label]> |> <| ps_option_seq := o |>) ps (pi_Options p).

Definition StorePoll (now id : Z) (input : option PollInput) : Tx MessageError unit :=
  match input with
  | None => mret tt
  | Some p => match poll_Validate now p with inl e => fail e | inr p => posts_exec (insert_poll id p) end
  end.

Definition author_of (d : DB) (u : Z) : option MessageAuthorData :=
  mkMessageAuthorData u ∘ us_username <$> db_users d !! u.

Definition poll_option (d : DB) (u : Z) (anonymous : bool) (o : Z) (r : option_row) : PollOption :=
  let voters := omap (fun v : Z * Z * Z => if decide (v.1.2 = o) then Some v.2 else None)
                  (elements (ps_votes (db_posts d))) in
  mkPollOption o (op_label r) (Z.of_nat (length voters)) (bool_decide (u ∈ voters))
    (if anonymous then [] else omap (author_of d) voters).

Definition option_before (a b : Z * option_row) : Prop := (a.1 <= b.1)%Z.
#[export] Instance option_before_dec a b : Decision (option_before a b).
Proof. unfold option_before. apply _. Defined.

(** [LoadPolls] for one message of a channel. *)
Definition LoadPoll (d : DB) (u id : Z) : option Poll :=
  q ← find_row (fun _ q => (pq_message_id q =? id)%Z) (ps_polls (db_posts d));
  Some (mkPoll q.1 (pq_question q.2) (pq_multiple q.2) (pq_anonymous q.2) (pq_closes_at q.2) (pq_revision q.2)
    ((fun o => poll_option d u (pq_anonymous q.2) o.1 o.2) <$> merge_sort option_before
       (filter (fun o : Z * option_row => op_poll_id o.2 = q.1) (map_to_list (ps_options (db_posts d)))))).

(** ** sqlite/attachments.go, sqlite/interactions.go: pages *)

Definition attachment_before (a b : string * attachment_row) : Prop := string_le a.1 b.1.
#[export] Instance attachment_before_dec a b : Decision (attachment_before a b).
Proof. unfold attachment_before. apply _. Defined.

Definition hydrateAttachments (d : DB) (id : Z) : list Attachment :=
  (fun a : string * attachment_row =>
     mkAttachment a.1 (am_filename a.2) (am_mime_type a.2) (am_size_bytes a.2) (default 0%Z (am_width a.2))
       (default 0%Z (am_height a.2)) (bool_decide (is_Some (am_deleted_at a.2)))) <$>
  merge_sort attachment_before
    (filter (fun a : string * attachment_row => am_message_id a.2 = Some id)
       (map_to_list (ps_attachments (db_posts d)))).

(** The emoji on a message, each once, in order. *)
Definition emojis_on (id : Z) (p : Posts) : list string :=
  merge_sort string_le (remove_dups
    (omap (fun k : Z * string * Z => if decide (k.1.1 = id) then Some k.1.2 else None) (map_to_list (ps_reactions p)).*1)).
Definition reactors (id : Z) (emoji : string) (p : Posts) : list Z :=
  omap (fun k : Z * string * Z => if decide (k.1 = (id, emoji)) then Some k.2 else None) (map_to_list (ps_reactions p)).*1.
Definition reactions_on (u id : Z) (p : Posts) : list Reaction :=
  (fun e => mkReaction e (Z.of_nat (length (reactors id e p))) (bool_decide (u ∈ reactors id e p))) <$> emojis_on id p.

Definition comment_count (id : Z) (p : Posts) : Z :=
  Z.of_nat (length (filter (fun e : Z * message_row => ms_thread_root e.2 = Some id) (map_to_list (ps_messages p)))).

(** The reference to the message this one replies to. A target that is gone,
    or whose author is, leaves the zero values. *)
Definition reply_reference (d : DB) (m : message_row) : option ReplyReference :=
  original ← ms_reply_original m;
  let target := id ← ms_reply_to m; t ← ps_messages (db_posts d) !! id;
                if (ms_channel_id t =? ms_channel_id m)%Z then Some t else None in
  Some match target with
  | Some t => mkReplyReference original
      (mkMessageAuthorData (ms_author t) (from_option us_username "" (db_users d !! ms_author t)))
      (ms_content t) (ms_revision t) false
  | None => mkReplyReference original (mkMessageAuthorData 0 "") "" 0 true
  end.

(** [hydrateInteractions] for one message. *)
Definition hydrate (u : Z) (d : DB) (value : Message) : FullMessage :=
  let id := msg_ID value in
  let value := value <| msg_Poll := LoadPoll d u id |> <| msg_Attachments := hydrateAttachments d id |> in
  match ps_messages (db_posts d) !! id with
  | Some m =>
      mkFullMessage (value <| msg_ThreadRootID := ms_thread_root m |>
          <| msg_CommentCount := comment_count id (db_posts d) |> <| msg_Reply := reply_reference d m |>
          <| msg_Forward := ms_forward m |>)
        (reactions_on u id (db_posts d)) (ms_revision m)
  | None => mkFullMessage value [] 0
  end.

(** The columns every query of a message scans. *)
Definition message_of_row (d : DB) (id : Z) (m : message_row) : option Message :=
  a ← author_of d (ms_author m);
  Some {| msg_Poll := None; msg_Attachments := []; msg_Replayed := false; msg_ClientMessageID := "";
          msg_ID := id; msg_ChannelID := ms_channel_id m; msg_Author := a; msg_Content := ms_content m;
          msg_CreatedAt := ms_created_at m; msg_EditedAt := ms_edited_at m; msg_Revision := ms_revision m;
          msg_Reply := None; msg_Forward := None; msg_ThreadRootID := None; msg_CommentCount := 0 |}.

Definition newest (a b : Z * message_row) : Prop := (b.1 <= a.1)%Z.
#[export] Instance newest_dec a b : Decision (newest a b).
Proof. unfold newest. apply _. Defined.
Definition oldest (a b : Z * message_row) : Prop := (a.1 <= b.1)%Z.
#[export] Instance oldest_dec a b : Decision (oldest a b).
Proof. unfold oldest. apply _. Defined.

(** [SELECT ... WHERE P ORDER BY id ... LIMIT n] *)
Definition rows_newest (n : nat) (P : Z → message_row → bool) (d : DB) : list Message :=
  take n (omap (fun e => message_of_row d e.1 e.2) (merge_sort newest
    (filter (fun e : Z * message_row => P e.1 e.2 = true) (map_to_list (ps_messages (db_posts d)))))).
Definition rows_oldest (n : nat) (P : Z → message_row → bool) (d : DB) : list Message :=
  take n (omap (fun e => message_of_row d e.1 e.2) (merge_sort oldest
    (filter (fun e : Z * message_row => P e.1 e.2 = true) (map_to_list (ps_messages (db_posts d)))))).

(** ** sqlite/repository.go: the checks *)

Definition requireServerMemberWithRole (s u : Z) : Tx MessageError (string * Role) :=
  row ErrMsgForbidden (fun d => m ← db_members d !! (s, u); x ← db_users d !! u; Some (us_username x, mb_role m)).
Definition requireServerMember (s u : Z) : Tx MessageError string :=
  x ← requireServerMemberWithRole s u; mret x.1.

Definition requireMessageChannel (s ch u now : Z) : Tx MessageError channel_row :=
  c ← row ErrMsgChannelNotFound (find_channel s ch);
  allowed ← query (fun d => is_accessible d now ch u);
  require allowed ErrMsgForbidden ;;
  require (String.eqb (stored_kind c) KindText || String.eqb (stored_kind c) KindVoice) ErrTextChannelRequired ;;
  mret c.

Definition findMessage (ch id : Z) : Tx MessageError Message :=
  row ErrMessageNotFound (fun d => m ← ps_messages (db_posts d) !! id;
    if (ms_channel_id m =? ch)%Z
    then value ← message_of_row d id m; Some (value <| msg_ThreadRootID := ms_thread_root m |>)
    else None).

Definition requireInteraction (s ch id u now : Z) : Tx MessageError Message :=
  requireServerMember s u ;; requireMessageChannel s ch u now ;; findMessage ch id.

(** ** sqlite/news.go *)

Definition requireNewsWrite (ch u : Z) (reply : option Z) : Tx MessageError (option Z) :=
  c ← row ErrMsgNoRows (fun d => db_channels d !! ch);
  publisher ← query (fun d => has_role (ch_server_id c) u [RoleOwner; RoleAdmin] d || publishes ch u d);
  if negb (ch_news c) then mret None
  else match reply with
  | None => require publisher ErrMsgForbidden ;; mret None
  | Some id =>
      require (ch_comments c) ErrMsgForbidden ;;
      root ← row ErrReplyInvalid (fun d => m ← ps_messages (db_posts d) !! id;
        if (ms_channel_id m =? ch)%Z then Some (default id (ms_thread_root m)) else None);
      mret (Some root)
  end.

(** ** sqlite/slowmode.go *)

(** The creation time of the latest message of the user in the channel. *)
Definition last_sent (ch u : Z) (p : Posts) : option Z :=
  e ← head (merge_sort newest (filter (fun e : Z * message_row => ms_channel_id e.2 = ch ∧ ms_author e.2 = u)
    (map_to_list (ps_messages p)))); Some (ms_created_at e.2).

(** How long to wait, in nanoseconds. *)
Definition checkSlowmode (s ch u nanos : Z) (d : DB) : Z :=
  match find_channel s ch d with
  | None => 0
  | Some c =>
      if (ch_slowmode c =? 0)%Z || has_role (ch_server_id c) u [RoleOwner; RoleAdmin] d then 0
      else match last_sent ch u (db_posts d) with
      | None => 0
      | Some last => Z.max 0 ((last + ch_slowmode c) * 10 ^ 9 - nanos)
      end
  end.

(** ** sqlite/referenced.go *)

Definition poll_json (p : PollInput) : json :=
  JObject [("question", JString (pi_Question p)); ("options", JArray (JString <$> pi_Options p));
           ("multiple", JBool (pi_Multiple p)); ("anonymous", JBool (pi_Anonymous p)); ("closes_at", JInt (pi_ClosesAt p))].

Definition requestHash (input : MessageInput) (forward : option ForwardInput) : RequestKind * string :=
  let ids := JArray (JString <$> mi_AttachmentIDs input) in
  let attached := negb (bool_decide (mi_AttachmentIDs input = [])) in
  let '(kind, source) :=
    match forward with
    | Some f =>
        let source := Marshal (if (0 <? fi_SourceConversationID f)%Z
          then JArray [JString "conversation"; JInt (fi_SourceConversationID f); JInt (fi_SourceMessageID f)]
          else JArray [JInt (fi_SourceServerID f); JInt (fi_SourceChannelID f); JInt (fi_SourceMessageID f)]) in
        (KindForward, if attached then Marshal (JArray [JString source; ids]) else source)
    | None =>
        match mi_ReplyToMessageID input with
        | Some id => (KindReply, Marshal (JArray [JString (mi_Content input); JInt id]))
        | None => (KindMessage, mi_Content input)
        end
    end in
  let '(kind, source) :=
    match mi_ThreadRootID input with
    | Some root => (KindReply, Marshal (JObject [("content", JString (mi_Content input));
        ("reply", JOption (mi_ReplyToMessageID input)); ("root", JInt root); ("type", JString "thread")]))
    | None => (kind, source)
    end in
  let '(kind, source) :=
    if attached && bool_decide (forward = None) then
      (KindReply, Marshal (JObject [("content", JString (mi_Content input)); ("ids", ids);
        ("reply", JOption (mi_ReplyToMessageID input)); ("root", JOption (mi_ThreadRootID input));
        ("type", JString "attachment")]))
    else (kind, source) in
  let '(kind, source) :=
    match mi_Poll input with
    | Some p => (KindReply, Marshal (JArray [JString source; poll_json p]))
    | None => (kind, source)
    end in
  (kind, hex (sha256 source)).

(** The names of the users mentioned who are members of the source server. *)
Definition mention_names (s : Z) (content : string) (d : DB) : list (Z * string) :=
  omap (fun u => x ← db_users d !! u;
      if bool_decide (is_Some (db_members d !! (s, u))) then Some (u, us_username x) else None)
    (elements (tg_Users (Parse content))).

Definition forwardSnapshot (u : Z) (f : ForwardInput) (now : Z) : Tx MessageError (string * ForwardReference) :=
  if (0 <? fi_SourceConversationID f)%Z then
    row ErrMsgForbidden (fun d =>
      m ← ps_direct (db_posts d) !! fi_SourceMessageID f;
      a ← author_of d (dm_author m);
      if (dm_conversation_id m =? fi_SourceConversationID f)%Z &&
         bool_decide ((dm_conversation_id m, u) ∈ ps_conversation_members (db_posts d))
      then Some (dm_content m, default (mkForwardReference a (dm_created_at m) []) (dm_forward m)) else None)
  else
    value ← requireInteraction (fi_SourceServerID f) (fi_SourceChannelID f) (fi_SourceMessageID f) u now;
    stored ← query (fun d => ps_messages (db_posts d) !! msg_ID value ≫= ms_forward);
    names ← query (mention_names (fi_SourceServerID f) (msg_Content value));
    mret (msg_Content value, default (mkForwardReference (msg_Author value) (msg_CreatedAt value) names) stored).

(** ** sqlite/repository.go: writing *)

(** A send key that was used before: the original message, or why there is
    none. *)
Definition replay (ch u : Z) (key hash : string) (kind : RequestKind) (k : send_key_row) : Tx MessageError FullMessage :=
  require (String.eqb (sk_content_hash k) hash && bool_decide (sk_request_kind k = kind)) ErrIdempotencyConflict ;;
  match sk_message_id k with
  | None => fail ErrMessageNotFound
  | Some id =>
      value ← findMessage ch id;
      full ← query (fun d => hydrate u d value);
      mret (mkFullMessage ((fm_Message full) <| msg_ClientMessageID := key |> <| msg_Replayed := true |>)
              (fm_Reactions full) (fm_ReactionsRevision full))
  end.

(** The thread a message asks for, after the one its news channel imposes. *)
Definition thread_root (ch : Z) (input : MessageInput) (root : option Z) : Tx MessageError (option Z) :=
  match mi_ThreadRootID input with
  | None => mret root
  | Some id =>
      row ErrReplyInvalid (fun d => m ← ps_messages (db_posts d) !! id; c ← db_channels d !! ch;
        if (ms_channel_id m =? ch)%Z && bool_decide (ms_thread_root m = None) && negb (ch_voice c) &&
           (negb (ch_news c) || ch_comments c) then Some tt else None) ;;
      match mi_ReplyToMessageID input with
      | None => mret (Some id)
      | Some reply =>
          valid ← query (fun d => match ps_messages (db_posts d) !! reply with
            | Some m => (ms_channel_id m =? ch)%Z && ((reply =? id)%Z || bool_decide (ms_thread_root m = Some id))
            | None => false end);
          require valid ErrReplyInvalid ;;
          mret (Some id)
      end
  end.

Definition reply_target (ch : Z) (input : MessageInput) : Tx MessageError (option ReplyReference) :=
  match mi_ReplyToMessageID input with
  | None => mret None
  | Some id =>
      target ← row ErrReplyInvalid (fun d => match findMessage ch id d with inr (m, _) => Some m | inl _ => None end);
      mret (Some (mkReplyReference (msg_ID target) (msg_Author target) (msg_Content target) (msg_Revision target) false))
  end.

(** The loop that attaches uploaded files; each must be the author's, unused
    and of this channel. *)
Fixpoint attach (ch u id : Z) (ids : list string) : Tx MessageError unit :=
  match ids with
  | [] => mret tt
  | a :: ids =>
      r ← row ErrReplyInvalid (fun d => r ← ps_attachments (db_posts d) !! a;
        if bool_decide (am_channel_id r = Some ch ∧ am_owner r = u ∧ am_message_id r = None ∧ am_deleted_at r = None)
        then Some r else None);
      posts_exec (fun p => p <| ps_attachments ::= <[a := r <| am_message_id := Some id |>]> |>) ;;
      attach ch u id ids
  end.

Definition insert_send_key (ch u : Z) (key hash : string) (id : Z) (kind : RequestKind) (p : Posts)
    : Constraint + (unit * Posts) :=
  if negb (length_between 1 64 key && length_between 64 64 hash) then inl CheckFailed
  else match ps_send_keys p !! (ch, u, key) with
  | Some _ => inl PrimaryKey
  | None => inr (tt, p <| ps_send_keys ::= <[(ch, u, key) := mkSendKey hash (Some id) kind]> |>)
  end.

(** What happens once a message may be sent. *)
Definition store_message (ch author : Z) (username : string) (input : MessageInput) (forward : option ForwardInput)
    (root : option Z) (hash : string) (kind : RequestKind) (now5 now6 now7 : Z) : Tx MessageError FullMessage :=
  reply ← reply_target ch input;
  forwarded ← (match forward with
    | None => mret None
    | Some f => x ← forwardSnapshot author f now5; mret (Some x)
    end);
  let content := match forwarded with Some x => x.1 | None => mi_Content input end in
  text ← query (fun d => match db_channels d !! ch with Some c => negb (ch_voice c) | None => false end);
  id ← on_posts (insert_message now6 ch author text content (rr_MessageID <$> reply) (snd <$> forwarded) root);
  StorePoll now7 id (mi_Poll input) ;;
  poll ← query (fun d => match mi_Poll input with Some _ => LoadPoll d author id | None => None end);
  attach ch author id (mi_AttachmentIDs input) ;;
  attachments ← query (fun d => if bool_decide (mi_AttachmentIDs input = []) then [] else hydrateAttachments d id);
  (if String.eqb (mi_ClientMessageID input) "" then mret tt
   else on_posts (insert_send_key ch author (mi_ClientMessageID input) hash id kind)) ;;
  mret (mkFullMessage {| msg_Poll := poll; msg_Attachments := attachments; msg_Replayed := false;
      msg_ClientMessageID := mi_ClientMessageID input; msg_ID := id; msg_ChannelID := ch;
      msg_Author := mkMessageAuthorData author username; msg_Content := content; msg_CreatedAt := now6;
      msg_EditedAt := None; msg_Revision := 1; msg_Reply := reply; msg_Forward := snd <$> forwarded;
      msg_ThreadRootID := root; msg_CommentCount := 0 |} [] 1).

Definition CreateReferenced (s ch author : Z) (input : MessageInput) (forward : option ForwardInput)
    (now1 now2 nanos now5 now6 now7 : Z) (d : DB) : (MessageError + FullMessage) * DB :=
  let '(kind, hash) := requestHash input forward in
  atomically (
    username ← requireServerMember s author;
    requireMessageChannel s ch author now1 ;;
    used ← query (fun d => if String.eqb (mi_ClientMessageID input) "" then None
                           else ps_send_keys (db_posts d) !! (ch, author, mi_ClientMessageID input));
    match used with
    | Some k => replay ch author (mi_ClientMessageID input) hash kind k
    | None =>
        root ← requireNewsWrite ch author (mi_ReplyToMessageID input);
        allowed ← query (fun d => Allowed d now2 s author Publish_);
        require allowed ErrMsgForbidden ;;
        wait ← query (checkSlowmode s ch author nanos);
        require (wait <=? 0)%Z (ErrSlowmode wait) ;;
        root ← thread_root ch input root;
        store_message ch author username input forward root hash kind now5 now6 now7
    end) d.

Definition message_only (content key : string) : MessageInput := mkMessageInput None [] None content key None.

Definition CreateIdempotent (s ch author : Z) (content key : string) (now1 now2 nanos now6 : Z) (d : DB)
    : (MessageError + FullMessage) * DB :=
  CreateReferenced s ch author (message_only content key) None now1 now2 nanos now6 now6 now6 d.

Definition repo_ListByChannelID (s ch u : Z) (before : option Z) (limit : nat) (now : Z) (d : DB)
    : MessageError + list FullMessage :=
  (atomically (
    requireServerMember s u ;; requireMessageChannel s ch u now ;;
    query (fun d => hydrate u d <$> rows_newest limit (fun id m => (ms_channel_id m =? ch)%Z &&
      bool_decide (ms_thread_root m = None) && (id <? default (2 ^ 63 - 1) before)%Z) d)) d).1.

Definition repo_Update (s ch id u : Z) (content : string) (now1 now2 now3 : Z) (d : DB)
    : (MessageError + FullMessage) * DB :=
  atomically (
    username ← requireServerMember s u;
    requireMessageChannel s ch u now1 ;;
    allowed ← query (fun d => Allowed d now2 s u Publish_);
    require allowed ErrMsgForbidden ;;
    found ← query (fun d => m ← ps_messages (db_posts d) !! id; if (ms_channel_id m =? ch)%Z then Some m else None);
    (if bool_decide ((found ≫= ms_thread_root) = None) then requireNewsWrite ch u None ;; mret tt else mret tt) ;;
    require (bool_decide ((found ≫= ms_forward) = None)) ErrForwardEdit ;;
    match found with
    | None => fail ErrMessageNotFound
    | Some m =>
        if negb (ms_author m =? u)%Z then findMessage ch id ;; fail ErrEditForbidden
        else
          on_posts (fun p => match edit_message now3 id content p with inl c => inl c | inr p => inr (tt, p) end) ;;
          query (fun d => hydrate u d {| msg_Poll := None; msg_Attachments := []; msg_Replayed := false;
            msg_ClientMessageID := ""; msg_ID := id; msg_ChannelID := ch;
            msg_Author := mkMessageAuthorData u username; msg_Content := content; msg_CreatedAt := ms_created_at m;
            msg_EditedAt := Some now3; msg_Revision := Z.succ (ms_revision m); msg_Reply := None;
            msg_Forward := None; msg_ThreadRootID := None; msg_CommentCount := 0 |})
    end) d.

(** Owners and admins, and whoever has the permission. *)
Definition moderates (s u now : Z) (role : Role) (d : DB) : bool :=
  manages role || Allowed d now s u ManageMessages.

Definition message_audit (s actor id ch author : Z) : Tx MessageError unit :=
  audit_Record ErrMsgNoRows ErrMsgConstraint s actor "message.deleted" "message" id "" (MessageDetails ch author).

Definition repo_Delete (s ch id u now1 now2 now3 : Z) (d : DB) : (MessageError + Message) * DB :=
  atomically (
    x ← requireServerMemberWithRole s u;
    requireMessageChannel s ch u now1 ;;
    value ← findMessage ch id;
    canModerate ← query (moderates s u now2 x.2);
    require ((ma_UserID (msg_Author value) =? u)%Z || canModerate) ErrDeleteForbidden ;;
    posts_exec (delete_message true now3 id) ;;
    (if negb (ma_UserID (msg_Author value) =? u)%Z || canModerate
     then message_audit s u id ch (ma_UserID (msg_Author value)) else mret tt) ;;
    mret value) d.

Definition pinned (d : DB) (id : Z) (value : Message) : option PinnedMessage :=
  r ← ps_pins (db_posts d) !! id; a ← author_of d (pn_pinned_by r);
  Some (mkPinnedMessage value a (pn_pinned_at r)).

Definition repo_Pin (s ch id u now1 now2 now3 : Z) (d : DB) : (MessageError + (PinnedMessage * bool)) * DB :=
  atomically (
    x ← requireServerMemberWithRole s u;
    allowed ← query (moderates s u now1 x.2);
    require allowed ErrPinForbidden ;;
    requireMessageChannel s ch u now2 ;;
    value ← findMessage ch id;
    created ← query (fun d => bool_decide (ps_pins (db_posts d) !! id = None));
    (if created : bool then posts_exec (fun p => p <| ps_pins ::= <[id := mkPin u now3]> |>) else mret tt) ;;
    pin ← row ErrMsgNoRows (fun d => pinned d id value);
    full ← query (fun d => hydrate u d value);
    mret (mkPinnedMessage (fm_Message full) (pm_PinnedBy pin) (pm_PinnedAt pin), created)) d.

Definition repo_Unpin (s ch id u now1 now2 : Z) (d : DB) : (MessageError + bool) * DB :=
  atomically (
    x ← requireServerMemberWithRole s u;
    allowed ← query (moderates s u now1 x.2);
    require allowed ErrPinForbidden ;;
    requireMessageChannel s ch u now2 ;;
    findMessage ch id ;;
    deleted ← query (fun d => bool_decide (is_Some (ps_pins (db_posts d) !! id)));
    posts_exec (fun p => p <| ps_pins ::= delete id |>) ;;
    mret deleted) d.

Definition pinned_before (a b : PinnedMessage) : Prop :=
  (pm_PinnedAt b < pm_PinnedAt a ∨ pm_PinnedAt a = pm_PinnedAt b ∧ msg_ID (pm_Message b) <= msg_ID (pm_Message a))%Z.
#[export] Instance pinned_before_dec a b : Decision (pinned_before a b).
Proof. unfold pinned_before. apply _. Defined.

Definition repo_ListPinned (s ch u now : Z) (d : DB) : MessageError + list PinnedMessage :=
  (atomically (
    requireServerMember s u ;; requireMessageChannel s ch u now ;;
    query (fun d => (fun p => mkPinnedMessage (fm_Message (hydrate u d (pm_Message p))) (pm_PinnedBy p) (pm_PinnedAt p)) <$>
      merge_sort pinned_before (omap (fun e : Z * message_row =>
        if (ms_channel_id e.2 =? ch)%Z then value ← message_of_row d e.1 e.2; pinned d e.1 value else None)
        (map_to_list (ps_messages (db_posts d)))))) d).1.

(** ** sqlite/news.go: threads *)

Definition GetPost (s ch u id now : Z) (d : DB) : MessageError + FullMessage :=
  (atomically (
    requireMessageChannel s ch u now ;;
    value ← findMessage ch id;
    query (fun d => hydrate u d value)) d).1.

Definition repo_ListComments (s ch u post : Z) (before : option Z) (limit : nat) (now : Z) (d : DB)
    : MessageError + list FullMessage :=
  (atomically (
    c ← requireMessageChannel s ch u now;
    valid ← query (fun d => match ps_messages (db_posts d) !! post with
      | Some m => (ms_channel_id m =? ch)%Z && negb (ch_voice c) && bool_decide (ms_thread_root m = None)
      | None => false end);
    require valid ErrMessageNotFound ;;
    query (fun d => hydrate u d <$> rows_newest limit (fun id m => (ms_channel_id m =? ch)%Z &&
      bool_decide (ms_thread_root m = Some post) && (id <? default (2 ^ 63 - 1) before)%Z) d)) d).1.

(** ** sqlite/interactions.go *)

Definition reaction_state (ch id : Z) (d : DB) : option ReactionState :=
  m ← ps_messages (db_posts d) !! id;
  Some (mkReactionState ch id (ms_revision m)
    (foldr (fun k : Z * string * Z => index_add k.1.2 k.2) ∅
       (filter (fun k : Z * string * Z => k.1.1 = id) (map_to_list (ps_reactions (db_posts d))).*1))).

Definition repo_SetReaction (s ch id u : Z) (emoji : string) (active : bool) (now1 now2 now3 : Z) (d : DB)
    : (MessageError + (ReactionState * bool)) * DB :=
  if negb (existsb (String.eqb emoji) ReactionEmoji) then (inl ErrReactionInvalid, d)
  else atomically (
    requireInteraction s ch id u now1 ;;
    affected ← (if active then
        timedOut ← query (fun d => match db_members d !! (s, u) with Some m => timed_out now2 m | None => false end);
        require (negb timedOut) ErrMsgForbidden ;;
        present ← query (fun d => emojis_on id (db_posts d));
        require (bool_decide (emoji ∈ present) || (length present <? 20)) ErrReactionLimit ;;
        on_posts (insert_reaction now3 id ch s u emoji)
      else on_posts (fun p => inr (delete_reactions now3 (fun k _ => bool_decide (k = (id, emoji, u))) p)));
    state ← row ErrMsgNoRows (reaction_state ch id);
    mret (state, negb (affected =? 0))) d.

Definition repo_ListReactors (s ch id u : Z) (emoji : string) (after : Z) (limit : nat) (now : Z) (d : DB)
    : MessageError + (list MessageAuthorData * bool * option Z) :=
  (atomically (
    requireInteraction s ch id u now ;;
    users ← query (fun d => take (S limit) (omap (author_of d)
      (merge_sort Z.le (filter (fun v => (after < v)%Z) (reactors id emoji (db_posts d))))));
    let hasMore := limit <? length users in
    let users := if hasMore then take limit users else users in
    mret (users, hasMore, if hasMore then ma_UserID <$> last users else None)) d).1.

(** ** sqlite/search.go: context *)

Definition repo_GetContext (s ch id u : Z) (before after : nat) (now : Z) (d : DB)
    : MessageError + (list FullMessage * Z * nat) :=
  (atomically (
    requireServerMember s u ;; requireMessageChannel s ch u now ;;
    target ← findMessage ch id;
    older ← query (rows_newest before (fun i m => (ms_channel_id m =? ch)%Z && (i <? id)%Z));
    newer ← query (rows_oldest after (fun i m => (ms_channel_id m =? ch)%Z && (id <? i)%Z));
    query (fun d => (hydrate u d <$> rev older ++ [target] ++ newer, id, length older))) d).1.

(** ** sqlite/sync.go *)

Definition syncPageSize : nat := 200.

Record SyncPage := mkSyncPage {
  sp_Messages : list FullMessage; sp_DeletedIDs : list Z; sp_Cursor : Z; sp_Reset : bool;
  sp_HasMore : bool; sp_HasOlder : bool }.

Definition change_before (a b : Z * change_row) : Prop := (a.1 <= b.1)%Z.
#[export] Instance change_before_dec a b : Decision (change_before a b).
Proof. unfold change_before. apply _. Defined.

(** The entries of the journal of a channel after a position. *)
Definition changes_after (ch after : Z) (p : Posts) : list (Z * change_row) :=
  merge_sort change_before (filter (fun e : Z * change_row => cg_channel_id e.2 = ch ∧ (after < e.1)%Z)
    (map_to_list (ps_changes p))).

(** The message of an entry as a page reports it; the author's name is empty
    when there is no such user. *)
Definition synced_message (ch : Z) (d : DB) (id : Z) : option Message :=
  m ← ps_messages (db_posts d) !! id;
  Some {| msg_Poll := None; msg_Attachments := []; msg_Replayed := false; msg_ClientMessageID := "";
          msg_ID := id; msg_ChannelID := ch;
          msg_Author := mkMessageAuthorData (ms_author m) (from_option us_username "" (db_users d !! ms_author m));
          msg_Content := ms_content m; msg_CreatedAt := ms_created_at m; msg_EditedAt := ms_edited_at m;
          msg_Revision := ms_revision m; msg_Reply := None; msg_Forward := None; msg_ThreadRootID := None;
          msg_CommentCount := 0 |}.

(** The newest fifty messages, when the journal does not reach back far enough. *)
Definition reset_page (ch u cursor : Z) (d : DB) : SyncPage :=
  let top := rows_newest 51 (fun _ m => (ms_channel_id m =? ch)%Z && bool_decide (ms_thread_root m = None)) d in
  mkSyncPage (hydrate u d <$> rev (take 50 top)) [] cursor true false (50 <? length top).

Definition changes_page (ch u after cursor : Z) (d : DB) : SyncPage :=
  let rows := take (S syncPageSize) (changes_after ch after (db_posts d)) in
  let hasMore := syncPageSize <? length rows in
  let page := take syncPageSize rows in
  mkSyncPage (hydrate u d <$> omap (fun e => synced_message ch d (cg_message_id e.2)) page)
    (omap (fun e => match ps_messages (db_posts d) !! cg_message_id e.2 with
       | Some _ => None | None => Some (cg_message_id e.2) end) page)
    (if hasMore then from_option fst after (last page) else cursor) false hasMore false.

Definition sync_page (ch u : Z) (after : option Z) (d : DB) : SyncPage :=
  let state := default (mkSync 0 0) (ps_sync (db_posts d) !! ch) in
  match after with
  | Some after =>
      if (after <? sy_floor state)%Z || (sy_cursor state <? after)%Z then reset_page ch u (sy_cursor state) d
      else changes_page ch u after (sy_cursor state) d
  | None => reset_page ch u (sy_cursor state) d
  end.

Definition repo_Sync (s ch u : Z) (after : option Z) (now : Z) (d : DB) : MessageError + SyncPage :=
  (atomically (
    requireServerMember s u ;; requireMessageChannel s ch u now ;;
    query (sync_page ch u after)) d).1.

(** The rows of one batch of pruning: older than a day, or far behind. *)
Definition prunable (cutoff : Z) (p : Posts) : list (Z * change_row) :=
  let newest := foldr Z.max 0%Z (map_to_list (ps_changes p)).*1 in
  take 500 (merge_sort change_before (filter (fun e : Z * change_row =>
    (cg_created_at e.2 < cutoff ∨ e.1 <= newest - 100000)%Z) (map_to_list (ps_changes p)))).

(** One channel of the batch: its floor rises and the journal up to it goes. *)
Definition prune_channel (ch floor : Z) (p : Posts) : Posts :=
  p <| ps_sync ::= alter (fun s => mkSync (sy_cursor s) (Z.max (sy_floor s) floor)) ch |>
    <| ps_changes ::= delete_where (fun seq c => (cg_channel_id c =? ch)%Z && (seq <=? floor)%Z) |>.

Definition pruneChangeBatch (cutoff : Z) (p : Posts) : nat * Posts :=
  let rows := prunable cutoff p in
  let floors : gmap Z Z := foldl (fun floors e =>
    <[cg_channel_id e.2 := Z.max (default 0%Z (floors !! cg_channel_id e.2)) e.1]> floors) ∅ rows in
  (length rows, foldl (fun p e => prune_channel e.1 e.2 p) p (range_entries floors)).

(** At most 200 batches; [others] are the requests between two of them. *)
Fixpoint prune_batches (n : nat) (others : Posts → Posts) (cutoff : Z) (p : Posts) : Posts :=
  match n with
  | 0 => p
  | S n =>
      let '(count, p) := pruneChangeBatch cutoff p in
      if count <? 500 then p else prune_batches n others cutoff (others p)
  end.
Definition PruneChanges : (Posts → Posts) → Z → Posts → Posts := prune_batches 200.
End messages.
