(* ===== verification/MessageService.v ===== *)
(** * Messages: the service

    [internal/message]: validation of the inputs, paging, and the events a
    committed change is announced with, as requests to the hub. *)

From S2P Require Import Prelude GoText GoJson Events Publishers HubSystem Tables Posts Store Accounts Members Channels Mentions Messages.

(** ** create.go, update.go, pagination.go *)

Definition MaxContentLength : nat := 5120.

Definition contains_nul (s : string) : bool :=
  existsb (fun c => Ascii.eqb c (Ascii.ascii_of_nat 0)) (String.list_ascii_of_string s).

(** Letters and digits of ASCII, [-] and [_]. *)
Definition key_char (c : Ascii.ascii) : bool :=
  let b := byte_of c in
  ((97 <=? b) && (b <=? 122) || (65 <=? b) && (b <=? 90) || (48 <=? b) && (b <=? 57) || (b =? 45) || (b =? 95))%Z.

Definition paperclip : string := "📎".

Section service.
Context `{MapOrder, Platform}.

Definition message_Normalize (i : MessageInput) : MessageInput :=
  let content := TrimSpace (mi_Content i) in
  let content := if String.eqb content "" then from_option pi_Question content (mi_Poll i) else content in
  let content := if String.eqb content "" && negb (bool_decide (mi_AttachmentIDs i = [])) then paperclip else content in
  i <| mi_Content := content |>.

(** The validation of the poll trims it in place. *)
Definition message_Validate (now : Z) (i : MessageInput) : MessageError + MessageInput :=
  if contains_nul (mi_Content i) then inl ErrContentInvalid
  else match (match mi_Poll i with
              | Some p => match poll_Validate now p with inl e => inl e | inr p => inr (Some p) end
              | None => inr None end) with
  | inl e => inl e
  | inr poll =>
      if from_option (fun r => r <=? 0)%Z false (mi_ThreadRootID i) || (10 <? length (mi_AttachmentIDs i)) ||
         from_option (fun r => r <=? 0)%Z false (mi_ReplyToMessageID i)
      then inl ErrReplyInvalid
      else if (64 <? String.length (mi_ClientMessageID i)) ||
              negb (forallb key_char (String.list_ascii_of_string (mi_ClientMessageID i)))
      then inl ErrClientMessageIDInvalid
      else if String.eqb (mi_Content i) "" && bool_decide (mi_AttachmentIDs i = []) then inl ErrContentRequired
      else if MaxContentLength <? RuneCountInString (mi_Content i) then inl ErrContentTooLong
      else inr (i <| mi_Poll := poll |>)
  end.

Definition content_Validate (content : string) : option MessageError :=
  if contains_nul content then Some ErrContentInvalid
  else if String.eqb content "" then Some ErrContentRequired
  else if MaxContentLength <? RuneCountInString content then Some ErrContentTooLong else None.

Definition DefaultPageLimit : Z := 50.
Definition MaxPageLimit : Z := 100.
Definition page_Normalize (limit : Z) : Z :=
  let limit := if (limit =? 0)%Z then DefaultPageLimit else limit in
  if (MaxPageLimit <? limit)%Z then MaxPageLimit else limit.
Definition page_Validate (before : option Z) (limit : Z) : option MessageError :=
  if (limit <=? 0)%Z then Some ErrPageLimitInvalid
  else if from_option (fun b => b <=? 0)%Z false before then Some ErrBeforeIDInvalid else None.

(** ** service.go *)

Definition check_message_ids (s ch u : Z) : option MessageError :=
  if (s <=? 0)%Z || (ch <=? 0)%Z then Some ErrMsgChannelNotFound
  else if (u <=? 0)%Z then Some ErrMsgForbidden else None.
Definition check_target_ids (s ch id : Z) : option MessageError :=
  if (s <=? 0)%Z || (ch <=? 0)%Z || (id <=? 0)%Z then Some ErrMessageNotFound else None.

(** The events of [MessageEventPublisher] (its listener aside). *)
Definition created_effect (value : Message) : list service_request :=
  if msg_Replayed value then []
  else [SvPublish (msg_ChannelID value) (new_event EventMessageCreated (DMessageCreated (created_data value)))].
Definition updated_effect (value : Message) : list service_request :=
  [SvPublish (msg_ChannelID value) (new_event EventMessageUpdated (DMessageCreated (newMessageData value)))].
Definition deleted_effect (value : Message) : list service_request :=
  [SvPublish (msg_ChannelID value) (new_event EventMessageDeleted
     (DMessageDeleted (mkMessageDeletedData (msg_ChannelID value) (msg_ID value))))].
Definition pinned_effect (value : PinnedMessage) : list service_request :=
  let m := pm_Message value in
  [SvPublish (msg_ChannelID m) (new_event EventMessagePinned (DMessagePinned
     (mkMessagePinnedData (msg_ChannelID m) (msg_ID m) (newMessageData m) (pm_PinnedBy value) (pm_PinnedAt value))))].

Definition publishActivity (s : Z) (value : Message) : list service_request :=
  if msg_Replayed value || bool_decide (is_Some (msg_ThreadRootID value)) then []
  else [SvPublishToServer s (new_event EventChannelActivity (DChannelActivity
          (mkChannelActivityData s (msg_ChannelID value) (msg_ID value) (ma_UserID (msg_Author value)))))].

(** ** comments.go *)

Definition publishCommentRoot (s ch u now : Z) (value : Message) (d : DB) : list service_request :=
  if msg_Replayed value then []
  else match msg_ThreadRootID value with
  | None => []
  | Some root => match GetPost s ch u root now d with
      | inr full => updated_effect (fm_Message full)
      | inl _ => [] end
  end.

(** [others] is what other requests do to the database after the commit. *)
Definition messages_Create (others : DB → DB) (s ch author : Z) (input : MessageInput)
    (now0 now1 now2 nanos now6 now7 now8 : Z) (d : DB) : Outcome MessageError FullMessage :=
  match check_message_ids s ch author with
  | Some e => (inl e, [], d)
  | None =>
      match message_Validate now0 (message_Normalize input) with
      | inl e => (inl e, [], d)
      | inr input =>
          let plain := bool_decide (mi_Poll input = None) && bool_decide (mi_ReplyToMessageID input = None) &&
            bool_decide (mi_ThreadRootID input = None) && bool_decide (mi_AttachmentIDs input = []) in
          match (if plain then CreateIdempotent s ch author (mi_Content input) (mi_ClientMessageID input) now1 now2 nanos now6 d
                 else CreateReferenced s ch author input None now1 now2 nanos now6 now6 now7 d) with
          | (inl e, d) => (inl e, [], d)
          | (inr full, d) =>
              let value := fm_Message full in
              let d' := others d in
              (inr full, created_effect value ++ publishActivity s value ++ publishCommentRoot s ch author now8 value d', d')
          end
      end
  end.

(** A page of messages, the next cursor and whether there are more. *)
Record Page := mkPage { pg_Messages : list FullMessage; pg_NextBeforeID : option Z; pg_HasMore : bool }.

(** The repository is asked for one message more than the page holds. *)
Definition page_of (limit : nat) (values : list FullMessage) : Page :=
  let hasMore := limit <? length values in
  let values := rev (if hasMore then take limit values else values) in
  mkPage values (if hasMore then (fun v => msg_ID (fm_Message v)) <$> head values else None) hasMore.

Definition messages_ListByChannelID (s ch u : Z) (before : option Z) (limit now : Z) (d : DB) : MessageError + Page :=
  match check_message_ids s ch u with
  | Some e => inl e
  | None =>
      let limit := page_Normalize limit in
      match page_Validate before limit with
      | Some e => inl e
      | None => match repo_ListByChannelID s ch u before (S (Z.to_nat limit)) now d with
          | inl e => inl e
          | inr values => inr (page_of (Z.to_nat limit) values)
          end
      end
  end.

Definition messages_ListComments (s ch post u : Z) (before : option Z) (limit now : Z) (d : DB) : MessageError + Page :=
  match check_target_ids s ch post with
  | Some e => inl e
  | None =>
      if (u <=? 0)%Z then inl ErrMsgForbidden
      else
        let limit := page_Normalize limit in
        match page_Validate before limit with
        | Some e => inl e
        | None => match repo_ListComments s ch u post before (S (Z.to_nat limit)) now d with
            | inl e => inl e
            | inr values => inr (page_of (Z.to_nat limit) values)
            end
        end
  end.

Definition messages_Update (s ch id u : Z) (content : string) (now1 now2 now3 : Z) (d : DB)
    : Outcome MessageError FullMessage :=
  match check_target_ids s ch id with
  | Some e => (inl e, [], d)
  | None =>
      if (u <=? 0)%Z then (inl ErrMsgForbidden, [], d)
      else
        let content := TrimSpace content in
        match content_Validate content with
        | Some e => (inl e, [], d)
        | None => match repo_Update s ch id u content now1 now2 now3 d with
            | (inl e, d) => (inl e, [], d)
            | (inr full, d) => (inr full, updated_effect (fm_Message full), d)
            end
        end
  end.

Definition messages_Delete (others : DB → DB) (s ch id u now1 now2 now3 now4 : Z) (d : DB)
    : Outcome MessageError unit :=
  match check_target_ids s ch id with
  | Some e => (inl e, [], d)
  | None =>
      if (u <=? 0)%Z then (inl ErrMsgForbidden, [], d)
      else match repo_Delete s ch id u now1 now2 now3 d with
      | (inl e, d) => (inl e, [], d)
      | (inr value, d) =>
          let d' := others d in
          (inr tt, deleted_effect value ++ publishCommentRoot s ch u now4 value d', d')
      end
  end.

Definition messages_Pin (s ch id u now1 now2 now3 : Z) (d : DB) : Outcome MessageError PinnedMessage :=
  match check_target_ids s ch id with
  | Some e => (inl e, [], d)
  | None => match repo_Pin s ch id u now1 now2 now3 d with
      | (inl e, d) => (inl e, [], d)
      | (inr (value, created), d) => (inr value, if created : bool then pinned_effect value else [], d)
      end
  end.

Definition messages_Unpin (s ch id u now1 now2 : Z) (d : DB) : Outcome MessageError unit :=
  match check_target_ids s ch id with
  | Some e => (inl e, [], d)
  | None => match repo_Unpin s ch id u now1 now2 d with
      | (inl e, d) => (inl e, [], d)
      | (inr deleted, d) => (inr tt, if deleted : bool then [SvPublish ch (unpinned_event ch id)] else [], d)
      end
  end.

Definition messages_ListPinned (s ch u now : Z) (d : DB) : MessageError + list PinnedMessage :=
  match check_message_ids s ch u with
  | Some e => inl e
  | None => repo_ListPinned s ch u now d
  end.

(** ** interactions.go, sync.go, search_service.go *)

Definition messages_Forward (s ch u : Z) (input : ForwardInput) (now0 now1 now2 nanos now5 now6 : Z) (d : DB)
    : Outcome MessageError FullMessage :=
  match check_message_ids s ch u with
  | Some e => (inl e, [], d)
  | None =>
      if ((fi_SourceConversationID input <=? 0)%Z &&
          ((fi_SourceServerID input <=? 0)%Z || (fi_SourceChannelID input <=? 0)%Z)) ||
         (fi_SourceMessageID input <=? 0)%Z
      then (inl ErrForwardInvalid, [], d)
      else
        match message_Validate now0 (mkMessageInput None (fi_AttachmentIDs input) None "forward"
                (fi_ClientMessageID input) None) with
        | inl e => (inl e, [], d)
        | inr _ =>
            match CreateReferenced s ch u (mkMessageInput None (fi_AttachmentIDs input) None ""
                    (fi_ClientMessageID input) None) (Some input) now1 now2 nanos now5 now6 now6 d with
            | (inl e, d) => (inl e, [], d)
            | (inr full, d) =>
                let value := fm_Message full in (inr full, created_effect value ++ publishActivity s value, d)
            end
        end
  end.

Definition messages_SetReaction (s ch id u : Z) (emoji : string) (active : bool) (now1 now2 now3 : Z) (d : DB)
    : Outcome MessageError ReactionsData :=
  if negb (existsb (String.eqb emoji) ReactionEmoji) then (inl ErrReactionInvalid, [], d)
  else match repo_SetReaction s ch id u emoji active now1 now2 now3 d with
  | (inl e, d) => (inl e, [], d)
  | (inr (state, changed), d) => (inr (ForUser state u), if changed : bool then [SvReactions state] else [], d)
  end.

Definition messages_ListReactors (s ch id u : Z) (emoji : string) (after limit now : Z) (d : DB)
    : MessageError + (list MessageAuthorData * bool * option Z) :=
  if negb (existsb (String.eqb emoji) ReactionEmoji) then inl ErrReactionInvalid
  else repo_ListReactors s ch id u emoji (Z.max 0 after) (Z.to_nat (Z.min 100 (Z.max 1 limit))) now d.

Definition messages_Sync (s ch u : Z) (after : option Z) (now : Z) (d : DB) : MessageError + SyncPage :=
  match check_message_ids s ch u with
  | Some e => inl e
  | None => repo_Sync s ch u after now d
  end.

(** [ContextInput.Normalize] and [Validate] *)
Definition context_limit (n : Z) : Z :=
  let n := if (n =? 0)%Z then 25%Z else n in if (50 <? n)%Z then 50%Z else n.

Definition messages_GetContext (s ch id u before after now : Z) (d : DB)
    : MessageError + (list FullMessage * Z * nat) :=
  match check_target_ids s ch id with
  | Some e => inl e
  | None =>
      if (u <=? 0)%Z then inl ErrMsgForbidden
      else
        let before := context_limit before in let after := context_limit after in
        if (before <=? 0)%Z || (after <=? 0)%Z then inl ErrContextLimitInvalid
        else repo_GetContext s ch id u (Z.to_nat before) (Z.to_nat after) now d
  end.
End service.
