(* ===== verification/ChannelFacts.v ===== *)
(** * Who may read a channel

    One reading of the two views of the schema, [permitted] and [reads], and
    the proof that every query of the repositories that decides about access
    agrees with it: the checks of one channel, the listings of channels and of
    members, the policy of one connection and the batched policies with which
    the hub is refreshed. *)

From S2P Require Import Prelude GoText Events Publishers HubSystem Tables Posts Store Accounts Members StoreInv StoreProps Channels ReadState Mentions Messages.

(** ** The reference *)

(** What the role and the custom roles of a member allow. *)
Definition role_allows (d : DB) (s u : Z) (m : member_row) (bit : Z) : Prop :=
  manages (mb_role m) = true ∨
  ((∀ r, (s, u, r) ∉ db_member_roles d) ∧ bit ≠ ManageMessages) ∨
  (∃ r x, (s, u, r) ∈ db_member_roles d ∧ db_roles d !! r = Some x ∧ Z.land (rl_permissions x) bit ≠ 0%Z).

(** A timeout takes everything but reading and moderating away. *)
Definition permitted (d : DB) (now s u bit : Z) : Prop :=
  ∃ m, db_members d !! (s, u) = Some m ∧ role_allows d s u m bit ∧
    (timed_out now m = false ∨ bit = Read ∨ bit = ManageMessages).

Definition bits : list Z := [Read; Publish_; Voice; Stream; ManageMessages].

(** Who sees a channel: members with the permission to read, all of them when
    it is open, else managers and those granted it by name, by role or by one
    of their custom roles. *)
Definition reads (d : DB) (now ch u : Z) : Prop :=
  ∃ c m, db_channels d !! ch = Some c ∧ db_members d !! (ch_server_id c, u) = Some m ∧
    permitted d now (ch_server_id c) u Read ∧
    (ch_restricted c = false ∨ manages (mb_role m) = true ∨
     (∃ s, (ch, s, u) ∈ db_user_grants d) ∨ (ch, mb_role m) ∈ db_role_grants d ∨
     ∃ r, (ch_server_id c, u, r) ∈ db_member_roles d ∧ (ch, r) ∈ db_custom_grants d).

(** ** Bits *)

Lemma land_bit p i : (0 <= i)%Z → Z.land p (2 ^ i) = (if Z.testbit p i then 2 ^ i else 0)%Z.
Proof.
  intros Hi. apply Z.bits_inj'. intros n Hn. rewrite Z.land_spec, Z.pow2_bits_eqb by done.
  destruct (Z.eqb_spec i n) as [->|Hne].
  - rewrite andb_true_r. destruct (Z.testbit p n) eqn:E; [by rewrite Z.pow2_bits_true|by rewrite Z.bits_0].
  - rewrite andb_false_r. destruct (Z.testbit p i); [by rewrite Z.pow2_bits_false|by rewrite Z.bits_0].
Qed.

(** The largest of one bit over some rows is the bit of one of them. *)
Lemma max_bit_spec i l : (0 <= i)%Z →
  max_bit (2 ^ i) l = (if existsb (fun p => Z.testbit p i) l then 2 ^ i else 0)%Z.
Proof.
  intros Hi. assert (0 < 2 ^ i)%Z by by apply Z.pow_pos_nonneg. unfold max_bit.
  induction l as [|p l IH]; simpl; [done|]. rewrite IH, land_bit by done.
  destruct (Z.testbit p i), (existsb _ l); simpl; lia.
Qed.

Lemma role_bits_any l bit : bit ∈ bits →
  Z.land (role_bits l) bit ≠ 0%Z ↔ ∃ p, p ∈ l ∧ Z.land p bit ≠ 0%Z.
Proof.
  intros Hbit.
  assert (∃ i, bit = (2 ^ i)%Z ∧ (i = 0 ∨ i = 1 ∨ i = 2 ∨ i = 3 ∨ i = 4)%Z) as (i&->&Hi).
  { assert (bit = 1 ∨ bit = 2 ∨ bit = 4 ∨ bit = 8 ∨ bit = 16)%Z as [->|[->|[->|[->| ->]]]] by set_solver.
    - exists 0%Z. split; [done|lia].
    - exists 1%Z. split; [done|lia].
    - exists 2%Z. split; [done|lia].
    - exists 3%Z. split; [done|lia].
    - exists 4%Z. split; [done|lia]. }
  assert (Z.land (role_bits l) (2 ^ i) ≠ 0%Z ↔ existsb (fun p => Z.testbit p i) l = true) as ->.
  { unfold role_bits. rewrite (max_bit_spec 0), (max_bit_spec 1), (max_bit_spec 2), (max_bit_spec 3), (max_bit_spec 4) by done.
    change (2 ^ 0)%Z with 1%Z. change (2 ^ 1)%Z with 2%Z. change (2 ^ 2)%Z with 4%Z.
    change (2 ^ 3)%Z with 8%Z. change (2 ^ 4)%Z with 16%Z.
    destruct (existsb (fun p => Z.testbit p 0) l) eqn:E0, (existsb (fun p => Z.testbit p 1) l) eqn:E1,
      (existsb (fun p => Z.testbit p 2) l) eqn:E2, (existsb (fun p => Z.testbit p 3) l) eqn:E3,
      (existsb (fun p => Z.testbit p 4) l) eqn:E4;
      destruct Hi as [->|[->|[->|[->| ->]]]]; rewrite ?E0, ?E1, ?E2, ?E3, ?E4; done. }
  assert (0 <= i)%Z by lia. rewrite existsb_exists. split.
  - intros (p&Hp%list_elem_of_In&Hb). exists p. split; [done|]. rewrite land_bit, Hb by done.
    assert (0 < 2 ^ i)%Z by by apply Z.pow_pos_nonneg. lia.
  - intros (p&Hp%list_elem_of_In&Hb). exists p. split; [done|]. rewrite land_bit in Hb by done.
    by destruct (Z.testbit p i).
Qed.

(** ** The views *)

Lemma elem_of_assigned d s u r : r ∈ assigned d s u ↔ (s, u, r) ∈ db_member_roles d.
Proof.
  unfold assigned. rewrite list_elem_of_omap. split.
  - intros ([[s' u'] r']&Hin%elem_of_elements&Hr). case_decide; simplify_eq/=. done.
  - intros Hin. exists (s, u, r). rewrite elem_of_elements. split; [done|]. by rewrite decide_True.
Qed.

Lemma assigned_nil d s u : assigned d s u = [] ↔ ∀ r, (s, u, r) ∉ db_member_roles d.
Proof.
  setoid_rewrite <- elem_of_assigned. destruct (assigned d s u) as [|r l]; [set_solver|].
  split; [done|]. intros Hn. destruct (Hn r). by left.
Qed.

Lemma base_allows d s u m bit : bit ∈ bits →
  Z.land (base_permissions d s u (mb_role m)) bit ≠ 0%Z ↔ role_allows d s u m bit.
Proof.
  intros Hbit. unfold base_permissions, role_allows. destruct (manages (mb_role m)).
  - split; [by left|]. intros _. unfold bits in Hbit. set_unfold in Hbit.
    by destruct Hbit as [->|[->|[->|[->|[->|[]]]]]].
  - case_decide as Hnil.
    + pose proof Hnil as Hno. rewrite assigned_nil in Hno. split.
      * intros Hb. right. left. split; [done|]. intros ->. by apply Hb.
      * intros [?|[[_ Hb]|(r&x&Hr&_)]]; [done| |by destruct (Hno r)].
        unfold bits in Hbit. set_unfold in Hbit. by destruct Hbit as [->|[->|[->|[->|[->|[]]]]]].
    + rewrite role_bits_any by done. setoid_rewrite list_elem_of_omap. split.
      * intros (p&(r&Hr%elem_of_assigned&Hp)&Hb). right. right.
        apply fmap_Some in Hp as (x&Hx&->). eauto.
      * intros [?|[[Hno _]|(r&x&Hr&Hx&Hb)]]; [done|by rewrite <- assigned_nil in Hno|].
        exists (rl_permissions x). split; [|done]. exists r. by rewrite elem_of_assigned, Hx.
Qed.

Lemma Allowed_spec d now s u bit : bit ∈ bits → Allowed d now s u bit = true ↔ permitted d now s u bit.
Proof.
  intros Hbit. unfold Allowed, member_permissions, permitted.
  destruct (db_members d !! (s, u)) as [m|]; simpl; [|split; [done|by intros (m&?&_)]].
  rewrite negb_true_iff, Z.eqb_neq.
  assert (Z.land (if timed_out now m then Z.land (base_permissions d s u (mb_role m)) 17
                  else base_permissions d s u (mb_role m)) bit ≠ 0%Z ↔
          Z.land (base_permissions d s u (mb_role m)) bit ≠ 0%Z ∧
          (timed_out now m = false ∨ bit = Read ∨ bit = ManageMessages)) as ->.
  { destruct (timed_out now m); [|by split; [split; [|left]|intros [? _]]].
    rewrite <- Z.land_assoc. unfold bits in Hbit. set_unfold in Hbit.
    unfold Read, Publish_, Voice, Stream, ManageMessages in *.
    destruct Hbit as [->|[->|[->|[->|[->|[]]]]]]; simpl; rewrite ?Z.land_0_r; intuition (done || lia). }
  rewrite base_allows by done. split.
  - intros [Ha Ht]. by exists m.
  - intros (m'&[= <-]&Ha&Ht). done.
Qed.

Lemma granted_spec d ch c u role :
  granted d ch c u role = true ↔
  ch_restricted c = false ∨ manages role = true ∨ (∃ s, (ch, s, u) ∈ db_user_grants d) ∨
  (ch, role) ∈ db_role_grants d ∨
  ∃ r, (ch_server_id c, u, r) ∈ db_member_roles d ∧ (ch, r) ∈ db_custom_grants d.
Proof.
  unfold granted. rewrite !orb_true_iff, !bool_decide_eq_true, negb_true_iff, existsb_exists.
  assert (set_Exists (fun g : Z * Z * Z => g.1.1 = ch ∧ g.2 = u) (db_user_grants d) ↔
          ∃ s, (ch, s, u) ∈ db_user_grants d) as ->.
  { unfold set_Exists. split.
    - intros ([[ch' s] u']&Hg&[<- <-]). by exists s.
    - intros (s&Hg). by exists (ch, s, u). }
  assert ((∃ r, In r (assigned d (ch_server_id c) u) ∧ bool_decide ((ch, r) ∈ db_custom_grants d) = true) ↔
          ∃ r, (ch_server_id c, u, r) ∈ db_member_roles d ∧ (ch, r) ∈ db_custom_grants d) as ->.
  { setoid_rewrite <- list_elem_of_In. setoid_rewrite elem_of_assigned. by setoid_rewrite bool_decide_eq_true. }
  tauto.
Qed.

Lemma Read_bit : Read ∈ bits.
Proof. by left. Qed.

(** A row of [channel_accessible_members]. *)
Lemma elem_of_accessible d now ch s u :
  (ch, s, u) ∈ channel_accessible_members d now ↔
  reads d now ch u ∧ ∃ c, db_channels d !! ch = Some c ∧ ch_server_id c = s.
Proof.
  unfold channel_accessible_members. rewrite list_elem_of_bind. split.
  - intros ([ch' c]&(m&Hm&Hr)%list_elem_of_omap&Hc%elem_of_map_to_list). destruct m as [[s' u'] m].
    apply elem_of_map_to_list in Hm. simpl in Hr. case_decide as Hs; [|done].
    destruct (Allowed d now s' u' Read) eqn:Ha; [|done].
    destruct (granted d ch' c u' (mb_role m)) eqn:Hg; [|done]. simplify_eq/=.
    apply Allowed_spec in Ha; [|exact Read_bit]. apply granted_spec in Hg. unfold reads. eauto 10.
  - intros [(c&m&Hc&Hm&Ha&Hg) (c'&Hc'&<-)]. simplify_eq. exists (ch, c).
    split; [|by apply elem_of_map_to_list]. apply list_elem_of_omap. exists (ch_server_id c, u, m).
    split; [by apply elem_of_map_to_list|]. simpl. rewrite decide_True by done.
    apply Allowed_spec in Ha; [|exact Read_bit]. apply granted_spec in Hg. by rewrite Ha, Hg.
Qed.

Lemma is_accessible_spec d now ch u : is_accessible d now ch u = true ↔ reads d now ch u.
Proof.
  unfold is_accessible. rewrite existsb_exists. split.
  - intros ([[ch' s] u']&Hin%list_elem_of_In&[Hch%Z.eqb_eq Hu%Z.eqb_eq]%andb_true_iff).
    simpl in Hch, Hu. subst. by apply elem_of_accessible in Hin as [? _].
  - intros Hr. pose proof Hr as (c&m&Hc&_). exists (ch, ch_server_id c, u).
    rewrite <- list_elem_of_In, elem_of_accessible. simpl. rewrite !Z.eqb_refl. eauto.
Qed.
#[export] Instance reads_dec d now ch u : Decision (reads d now ch u).
Proof. refine (cast_if (decide (is_accessible d now ch u = true))); by rewrite <- is_accessible_spec. Defined.

(** ** The queries *)

Section queries.
Context `{MapOrder, Platform}.

(** The channel is one of that server and the user may read it. *)
Definition opens (d : DB) (now s ch u : Z) : Prop := is_Some (find_channel s ch d) ∧ reads d now ch u.

Lemma find_channel_Some s ch d c : find_channel s ch d = Some c ↔ db_channels d !! ch = Some c ∧ ch_server_id c = s.
Proof.
  unfold find_channel. destruct (db_channels d !! ch) as [c'|]; simpl; [|naive_solver].
  destruct (Z.eqb_spec (ch_server_id c') s); naive_solver.
Qed.

Lemma opens_row d now s ch u : opens d now s ch u ↔ (ch, s, u) ∈ channel_accessible_members d now.
Proof.
  rewrite elem_of_accessible. unfold opens. split.
  - intros [[c Hc%find_channel_Some] Hr]. eauto.
  - intros [Hr (c&Hc)]. split; [exists c; by apply find_channel_Some|done].
Qed.

Lemma checkAccess_opens d now s ch u : checkAccess s ch u now d = None ↔ opens d now s ch u.
Proof.
  unfold checkAccess, opens. case_bool_decide as Hf.
  - rewrite Hf. split; [done|]. by intros [[??] _].
  - apply not_eq_None_Some in Hf. rewrite <- is_accessible_spec.
    destruct (is_accessible d now ch u); naive_solver.
Qed.

Lemma requireMessageChannel_opens d now s ch u :
  is_Some (match requireMessageChannel s ch u now d with inr x => Some x | inl _ => None end) ↔ opens d now s ch u.
Proof.
  unfold requireMessageChannel, opens, row, query, require, fail, mbind, Tx_bind, mret, Tx_ret.
  destruct (find_channel s ch d) as [c|] eqn:Hc; [|naive_solver]. rewrite <- is_accessible_spec.
  destruct (is_accessible d now ch u); [|naive_solver].
  unfold stored_kind. destruct (ch_voice c); simpl; naive_solver.
Qed.

Lemma requireMessageChannelMember_opens d now s ch u :
  is_Some (match requireMessageChannelMember s ch u now d with inr x => Some x | inl _ => None end) ↔
  opens d now s ch u.
Proof.
  unfold requireMessageChannelMember, row, query, require, fail, mbind, Tx_bind, mret, Tx_ret.
  destruct (find_channel s ch d) as [c|] eqn:Hc; [|unfold opens; rewrite Hc; naive_solver].
  rewrite opens_row. destruct (existsb _ _) eqn:He.
  - apply existsb_exists in He as (r&Hin%list_elem_of_In&Hr). apply bool_decide_eq_true in Hr as ->.
    unfold stored_kind. destruct (ch_voice c); simpl; naive_solver.
  - split; [naive_solver|]. intros Hin. exfalso.
    assert (existsb (fun r => bool_decide (r = (ch, s, u))) (channel_accessible_members d now) = true); [|congruence].
    apply existsb_exists. exists (ch, s, u). by rewrite <- list_elem_of_In, bool_decide_eq_true.
Qed.

(** The listing of channels is for members, and shows just the readable ones. *)
Lemma ListByServerID_opens d now s u l ch :
  channel_ListByServerID s u now d = inr l →
  ch ∈ (fun i => chn_ID (ci_Channel i)) <$> l ↔ opens d now s ch u.
Proof.
  unfold channel_ListByServerID. case_bool_decide; [|done]. intros [= <-].
  rewrite <- list_fmap_compose, list_elem_of_fmap. unfold opens. setoid_rewrite <- is_accessible_spec. split.
  - intros ([id c]&->&Hin). rewrite merge_sort_Permutation, list_elem_of_filter, elem_of_map_to_list in Hin.
    simpl in *. destruct Hin as [[Hs Ha] Hc]. split; [exists c; by apply find_channel_Some|done].
  - intros [[c [Hc Hs]%find_channel_Some] Ha]. exists (ch, c). split; [done|].
    by rewrite merge_sort_Permutation, list_elem_of_filter, elem_of_map_to_list.
Qed.

Lemma reads_member d now s ch u : opens d now s ch u → is_Some (db_members d !! (s, u)).
Proof.
  intros [[c [Hc <-]%find_channel_Some] (c'&m&Hc'&Hm&_)]. simplify_eq. eauto.
Qed.

Lemma ListMemberIDs_opens d now s ch u l v :
  repo_ListMemberIDs s ch u now d = inr l → v ∈ l ↔ opens d now s ch v.
Proof.
  unfold repo_ListMemberIDs. destruct (checkAccess _ _ _ _ _); [done|]. intros [= <-].
  rewrite merge_sort_Permutation, list_elem_of_omap, opens_row. split.
  - intros ([[ch' s'] v']&Hin&Hr). case_decide; simplify_eq/=. done.
  - intros Hin. exists (ch, s, v). split; [done|]. by rewrite decide_True.
Qed.

Lemma AccessibleChannelIDs_reads d now u ch : ch ∈ AccessibleChannelIDs u now d ↔ reads d now ch u.
Proof.
  unfold AccessibleChannelIDs. rewrite elem_of_list_to_set, list_elem_of_omap. split.
  - intros ([[ch' s] u']&Hin&Hr). case_decide; simplify_eq/=. by apply elem_of_accessible in Hin as [? _].
  - intros Hr. pose proof Hr as (c&m&Hc&_). exists (ch, ch_server_id c, u).
    rewrite elem_of_accessible. split; [eauto|]. by rewrite decide_True.
Qed.

(** *** The policies of many users, in batches of 500 *)

Definition dedup (userIDs : list Z) : list Z :=
  foldl (fun ids u => if bool_decide (u ∈ ids) then ids else ids ++ [u]) [] userIDs.

Lemma elem_of_dedup l u : u ∈ dedup l ↔ u ∈ l.
Proof.
  apply elem_of_collect_distinct.
Qed.

Lemma batches_concat fuel l u : length l <= fuel → (∃ b, b ∈ batches fuel l ∧ u ∈ b) ↔ u ∈ l.
Proof.
  revert l. induction fuel as [|fuel IH]; intros l Hl.
  { destruct l; [|simpl in Hl; lia]. simpl. set_solver. }
  destruct l as [|v l]; [simpl; set_solver|]. change (batches (S fuel) (v :: l)) with
    (take 500 (v :: l) :: batches fuel (drop 500 (v :: l))).
  assert (u ∈ v :: l ↔ u ∈ take 500 (v :: l) ∨ u ∈ drop 500 (v :: l)) as ->
    by by rewrite <- elem_of_app, take_drop.
  rewrite <- (IH (drop 500 (v :: l))); [|rewrite length_drop; cbn [length] in *; lia].
  generalize (take 500 (v :: l)), (drop 500 (v :: l)). set_solver.
Qed.

Definition user_rows (u : Z) (rows : list (Z * Z * Z)) : gset Z :=
  list_to_set (omap (fun r : Z * Z * Z => if decide (r.2 = u) then Some r.1.1 else None) rows).

Lemma user_rows_cons u r rows :
  user_rows u (r :: rows) = (if decide (r.2 = u) then {[r.1.1]} ∪ user_rows u rows else user_rows u rows).
Proof. unfold user_rows. simpl. by case_decide. Qed.

Lemma load_batch_lookup now d result ids u :
  load_batch now d result ids !! u =
    (if bool_decide (u ∈ ids) then
       match result !! u with
       | Some seen => Some (AccessibleChannelIDs u now d ∪ seen)
       | None => if bool_decide (user_rows u (channel_accessible_members d now) = ∅) then None
                 else Some (AccessibleChannelIDs u now d)
       end
     else result !! u).
Proof.
  change (AccessibleChannelIDs u now d) with (user_rows u (channel_accessible_members d now)).
  unfold load_batch. generalize (channel_accessible_members d now). intros rows. revert result.
  induction rows as [|r rows IH]; intros result; simpl.
  { case_bool_decide as Hu; [|done]. unfold user_rows. simpl. rewrite bool_decide_true by done.
    destruct (result !! u); [|done]. f_equal. set_solver. }
  rewrite IH, user_rows_cons. destruct (decide (r.2 = u)) as [<-|Hne].
  - destruct (decide (r.2 ∈ ids)) as [Hu|Hu].
    + rewrite !(bool_decide_true (r.2 ∈ ids)), lookup_insert_eq by done.
      destruct (result !! r.2) as [seen|]; simpl; [f_equal; set_solver|].
      rewrite bool_decide_false by set_solver. f_equal. set_solver.
    + by rewrite !(bool_decide_false (r.2 ∈ ids)).
  - destruct (decide (r.2 ∈ ids)) as [Hr|Hr].
    + rewrite (bool_decide_true (r.2 ∈ ids)) by done. by rewrite lookup_insert_ne.
    + by rewrite (bool_decide_false (r.2 ∈ ids)).
Qed.

Lemma AccessibleChannelIDsForUsers_spec now d ids u :
  AccessibleChannelIDsForUsers now d ids !! u =
    if bool_decide (u ∈ ids) then Some (AccessibleChannelIDs u now d) else None.
Proof.
  unfold AccessibleChannelIDsForUsers. fold (dedup ids).
  assert (∀ bs result, foldl (load_batch now d) result bs !! u =
    if bool_decide (Exists (fun b => u ∈ b) bs) then load_batch now d result [u] !! u else result !! u) as ->.
  { intros bs. induction bs as [|b bs IH]; intros result; [done|]. cbn [foldl].
    rewrite IH, !load_batch_lookup. rewrite (bool_decide_true (u ∈ [u])) by set_solver.
    rewrite (bool_decide_ext (Exists (fun b => u ∈ b) (b :: bs)) (u ∈ b ∨ Exists (fun b => u ∈ b) bs))
      by by rewrite Exists_cons.
    destruct (decide (u ∈ b)) as [Hb|Hb].
    - rewrite (bool_decide_true (u ∈ b)), (bool_decide_true (u ∈ b ∨ _)) by auto.
      case_bool_decide as Hbs; [|done].
      destruct (result !! u) as [seen|]; [f_equal; set_solver|].
      case_bool_decide as He; [done|]. f_equal. set_solver.
    - rewrite (bool_decide_false (u ∈ b)) by done.
      rewrite (bool_decide_ext (u ∈ b ∨ _) (Exists (fun b => u ∈ b) bs)); [done|tauto]. }
  rewrite (bool_decide_ext _ (u ∈ ids)); [|by rewrite Exists_exists, batches_concat, elem_of_dedup].
  assert ((list_to_map ((fun u => (u, ∅)) <$> dedup ids) : gmap Z (gset Z)) !! u =
    if bool_decide (u ∈ ids) then Some ∅ else None) as Hinit.
  { destruct (decide (u ∈ ids)) as [Hu|Hu].
    - rewrite bool_decide_true by done. apply elem_of_list_to_map_1'.
      + intros seen. rewrite list_elem_of_fmap. naive_solver.
      + apply list_elem_of_fmap. exists u. by rewrite elem_of_dedup.
    - rewrite bool_decide_false by done. apply not_elem_of_list_to_map_1. rewrite <- list_fmap_compose, list_fmap_id.
      by rewrite elem_of_dedup. }
  rewrite load_batch_lookup, Hinit. case_bool_decide; [|done].
  rewrite bool_decide_true by set_solver. f_equal. set_solver.
Qed.

(** ** Changing who may read *)

Lemma insert_role_grants_spec ch names d r d' :
  insert_role_grants ch names d = inr (r, d') →
  d' = d <| db_role_grants := db_role_grants d' |> ∧
  ∀ g, g ∈ db_role_grants d' ↔ g ∈ db_role_grants d ∨ ∃ name, name ∈ names ∧ role_named name = Some g.2 ∧ g.1 = ch.
Proof.
  revert d. induction names as [|name names IH]; intros d; cbn [insert_role_grants].
  { intros [= <- <-]. split; [by destruct d|]. set_solver. }
  unfold mbind, Tx_bind, insert_row. destruct (insert_role_grant ch name d) as [c|[[] d1]] eqn:E; [done|].
  unfold insert_role_grant in E. destruct (role_named name) as [x|] eqn:Hx; [|done].
  case_bool_decide; [done|]. injection E as <-. intros [Hd Hg]%IH. split; [by rewrite Hd|].
  intros g. rewrite Hg. simpl. rewrite elem_of_union, elem_of_singleton. split.
  - intros [[->|?]|(n&?&?&?)]; [right; exists name; set_solver|by left|right; exists n; set_solver].
  - intros [?|(n&[->|Hn]%elem_of_cons&Hr&Hch)]; [auto| |right; eauto].
    left. left. destruct g as [c r0]. simpl in *. congruence.
Qed.

Lemma role_named_name r : role_named (role_name r) = Some r.
Proof. by destruct r. Qed.
Lemma role_named_Some name r : role_named name = Some r ↔ name = role_name r.
Proof.
  split; [|intros ->; apply role_named_name]. unfold role_named.
  destruct (String.eqb_spec name "owner") as [->|?]; [by intros [= <-]|].
  destruct (String.eqb_spec name "admin") as [->|?]; [by intros [= <-]|].
  destruct (String.eqb_spec name "member") as [->|?]; [by intros [= <-]|done].
Qed.

(** The tables the views read, after the change. *)
Record access_set (s ch : Z) (value : Access) (d d' : DB) : Prop := {
  as_channels : ∃ c, find_channel s ch d = Some c ∧
    db_channels d' = <[ch := c <| ch_restricted := ac_Restricted value |>]> (db_channels d);
  as_users : ∀ g, g ∈ db_user_grants d' ↔
    (g.1.1 ≠ ch ∧ g ∈ db_user_grants d) ∨ (g.1 = (ch, s) ∧ g.2 ∈ ac_UserIDs value);
  as_roles : ∀ g, g ∈ db_role_grants d' ↔
    (g.1 ≠ ch ∧ g ∈ db_role_grants d) ∨ (g.1 = ch ∧ role_name g.2 ∈ ac_Roles value);
  as_same : db_members d' = db_members d ∧ db_roles d' = db_roles d ∧
    db_member_roles d' = db_member_roles d ∧ db_custom_grants d' = db_custom_grants d
}.

Lemma audit_tables {E} (norows : E) on s actor action target id name details d r d' :
  audit_Record norows on s actor action target id name details d = inr (r, d') →
  d' = d <| db_audit := db_audit d' |>.
Proof.
  intros Hr. unfold audit_Record in Hr. tx_run; repeat case_match; simplify_eq;
    match goal with x : DB |- _ => by destruct x end.
Qed.

Definition managed_by (s u : Z) (d : DB) : Prop :=
  role_of s u d = Some RoleOwner ∨ role_of s u d = Some RoleAdmin.
Lemma has_role_managed s u d : has_role s u [RoleOwner; RoleAdmin] d = true ↔ managed_by s u d.
Proof.
  unfold has_role, managed_by, role_of. destruct (db_members d !! (s, u)) as [m|]; simpl; [|by split; [|intros []]].
  rewrite bool_decide_eq_true, !elem_of_cons, elem_of_nil.
  split; [intros [->|[->|[]]]; auto|intros [[= ->]|[= ->]]; auto].
Qed.

Lemma requireManager_inv s ch u d c d' :
  requireManager s ch u d = inr (c, d') → d' = d ∧ find_channel s ch d = Some c ∧ managed_by s u d.
Proof. intros Hr. unfold requireManager in Hr. tx_run. by rewrite <- has_role_managed. Qed.

Lemma SetAccess_tables s ch u value d r d' :
  repo_SetAccess s ch u value d = (inr r, d') → access_set s ch value d d' ∧ managed_by s u d.
Proof.
  intros Hr. unfold repo_SetAccess in Hr. apply atomically_inr in Hr. tx_run.
  apply requireManager_inv in Hrun as (->&Hc&Hm). apply insert_role_grants_spec in Hrun5 as [E6 Hg].
  apply audit_tables in Hrun7. rewrite Hrun7. unfold insert_user_grants in Hrun4.
  case_bool_decide; [|done]. injection Hrun4 as <-. split; [|done].
  destruct d as [], d6 as []. injection E6 as ?. simplify_eq/=. split; simpl in *; [by exists x| | |done].
  - intros [[ch' s'] w]. unfold replace_users. rewrite elem_of_union, elem_of_list_to_set, list_elem_of_fmap, elem_of_filter.
    simpl. naive_solver.
  - intros [ch' r]. rewrite Hg, elem_of_filter. simpl. setoid_rewrite role_named_Some. naive_solver.
Qed.

(** Who may read after the change: on this channel by the new settings, on all
    others as before. *)
Lemma access_set_reads s ch value d d' now ch' w :
  access_set s ch value d d' →
  reads d' now ch' w ↔
  if decide (ch' = ch) then
    ∃ m, db_members d !! (s, w) = Some m ∧ permitted d now s w Read ∧
      (ac_Restricted value = false ∨ manages (mb_role m) = true ∨ w ∈ ac_UserIDs value ∨
       role_name (mb_role m) ∈ ac_Roles value ∨
       ∃ r, (s, w, r) ∈ db_member_roles d ∧ (ch, r) ∈ db_custom_grants d)
  else reads d now ch' w.
Proof.
  intros [(c&[Hc Hs]%find_channel_Some&Hch) Hu Hr (Em&Er&Emr&Ecg)].
  assert (∀ x, permitted d' now x w Read ↔ permitted d now x w Read) as Hp.
  { intros x. unfold permitted, role_allows. by rewrite Em, Er, Emr. }
  unfold reads. rewrite Em, Emr, Ecg, Hch. case_decide as Heq; [subst ch'|].
  - rewrite lookup_insert_eq. split.
    + intros (c'&m&[= <-]&Hm&Hperm&Hg). simpl in *. rewrite Hs in *. exists m. rewrite Hp in Hperm.
      split_and!; [done|done|]. destruct Hg as [?|[?|[(x&Hx%Hu)|[Hx%Hr|?]]]]; [auto|auto| | |auto 6].
      * simpl in Hx. right. right. left. naive_solver.
      * simpl in Hx. right. right. right. left. naive_solver.
    + intros (m&Hm&Hperm&Hg). exists (c <| ch_restricted := ac_Restricted value |>), m. simpl. rewrite Hs. split_and!; [done|done|by apply Hp|].
      destruct Hg as [?|[?|[?|[?|?]]]]; [auto|auto| | |auto 6].
      * right. right. left. exists s. apply Hu. by right.
      * right. right. right. left. apply Hr. by right.
  - rewrite lookup_insert_ne by done. setoid_rewrite Hp.
    assert (∀ x, (ch', x, w) ∈ db_user_grants d' ↔ (ch', x, w) ∈ db_user_grants d) as Hu'.
    { intros x. rewrite Hu. simpl. naive_solver. }
    assert (∀ r, (ch', r) ∈ db_role_grants d' ↔ (ch', r) ∈ db_role_grants d) as Hr'.
    { intros x. rewrite Hr. simpl. naive_solver. }
    setoid_rewrite Hu'. by setoid_rewrite Hr'.
Qed.
End queries.
