(* ===== verification/Journal.v ===== *)
(** * The journal of messages

    Every statement that changes a message also appends an entry to
    [message_changes], and pruning only forgets entries up to the floor it
    raises. [logged] says so of one statement; it composes, and each statement
    on the tables of messages satisfies it. *)

From S2P Require Import Prelude GoText Events Tables Posts.

#[export] Instance MessageAuthorData_eq_dec : EqDecision MessageAuthorData.
Proof. solve_decision. Defined.
#[export] Instance ForwardReference_eq_dec : EqDecision ForwardReference.
Proof. solve_decision. Defined.
#[export] Instance message_row_eq_dec : EqDecision message_row.
Proof. solve_decision. Defined.

(** ** What a channel shows, and where its journal stands *)

Definition view (ch id : Z) (p : Posts) : option message_row :=
  m ← ps_messages p !! id; if (ms_channel_id m =? ch)%Z then Some m else None.

Definition cursor_of (ch : Z) (p : Posts) : Z := from_option sy_cursor 0%Z (ps_sync p !! ch).
Definition floor_of (ch : Z) (p : Posts) : Z := from_option sy_floor 0%Z (ps_sync p !! ch).

Record sync_inv (p : Posts) : Prop := {
  si_entry : ∀ seq c, ps_changes p !! seq = Some c →
    (0 < seq <= cursor_of (cg_channel_id c) p)%Z ∧ is_Some (ps_sync p !! cg_channel_id c);
  si_state : ∀ ch, (0 <= floor_of ch p <= cursor_of ch p)%Z ∧ (cursor_of ch p <= ps_change_seq p)%Z;
  si_seq : (0 <= ps_change_seq p)%Z;
  si_fresh : ∀ id, is_Some (ps_messages p !! id) → (id <= ps_message_seq p)%Z;
  si_known : ∀ seq c, ps_changes p !! seq = Some c → (cg_message_id c <= ps_message_seq p)%Z;
  si_scope : ∀ seq c m, ps_changes p !! seq = Some c → ps_messages p !! cg_message_id c = Some m →
    ms_channel_id m = cg_channel_id c
}.

(** Messages stay in their channel, and keys are not used twice. *)
Definition in_place (p p' : Posts) : Prop :=
  (ps_message_seq p <= ps_message_seq p')%Z ∧
  ∀ id m', ps_messages p' !! id = Some m' →
    (∃ m, ps_messages p !! id = Some m ∧ ms_channel_id m' = ms_channel_id m) ∨ (ps_message_seq p < id)%Z.
Lemma in_place_trans p1 p2 p3 : in_place p1 p2 → in_place p2 p3 → in_place p1 p3.
Proof.
  intros [Hs1 H1] [Hs2 H2]. split; [lia|]. intros id m Hm.
  destruct (H2 _ _ Hm) as [(m2&Hm2&E2)|?]; [|right; lia].
  destruct (H1 _ _ Hm2) as [(m1&Hm1&E1)|?]; [left; exists m1; split; congruence|by right].
Qed.
Lemma in_place_row p p' id m m' :
  in_place p p' → sync_inv p → ps_messages p !! id = Some m → ps_messages p' !! id = Some m' →
  ms_channel_id m' = ms_channel_id m.
Proof.
  intros [_ Hp] Hi Hm Hm'. destruct (Hp _ _ Hm') as [(x&Hx&E)|Hlt]; [congruence|].
  pose proof (si_fresh _ Hi id (mk_is_Some _ _ Hm)). lia.
Qed.

(** An entry of [ch] about [id] after position [after]; one that was pruned
    counts as long as the floor says so. *)
Definition entry_after (after ch id : Z) (p : Posts) : Prop :=
  ∃ seq, (after < seq)%Z ∧ ((seq <= floor_of ch p)%Z ∨ ∃ t, ps_changes p !! seq = Some (mkChange ch id t)).

(** What happened between two states, but for the message [x]. *)
Record journalled (x : option (Z * Z)) (p p' : Posts) : Prop := {
  jn_inv : sync_inv p';
  jn_place : in_place p p';
  jn_seq : (ps_change_seq p <= ps_change_seq p')%Z;
  jn_cursor : ∀ ch, (cursor_of ch p <= cursor_of ch p')%Z;
  jn_floor : ∀ ch, (floor_of ch p <= floor_of ch p')%Z;
  jn_entries : ∀ seq c, ps_changes p !! seq = Some c →
    (seq <= floor_of (cg_channel_id c) p')%Z ∨ ps_changes p' !! seq = Some c;
  jn_changed : ∀ ch id, x ≠ Some (ch, id) → view ch id p' ≠ view ch id p →
    entry_after (ps_change_seq p) ch id p'
}.
Definition logged_but (x : option (Z * Z)) (p p' : Posts) : Prop := sync_inv p → journalled x p p'.
Notation logged := (logged_but None).

Lemma entry_after_mono a b ch id p : (b <= a)%Z → entry_after a ch id p → entry_after b ch id p.
Proof. intros Hab (seq&Hs&He). exists seq. split; [lia|done]. Qed.

Lemma entry_after_step x p p' a ch id :
  journalled x p p' → entry_after a ch id p → entry_after a ch id p'.
Proof.
  intros Hj (seq&Hs&[Hf|(t&He)]); exists seq; (split; [done|]).
  - left. pose proof (jn_floor _ _ _ Hj ch). lia.
  - destruct (jn_entries _ _ _ Hj _ _ He); [by left|right; eauto].
Qed.

Lemma logged_refl x p : logged_but x p p.
Proof. intros Hi. split; auto; try lia; [|by intros ??? []]. split; [lia|eauto]. Qed.

Lemma logged_trans x p1 p2 p3 : logged_but x p1 p2 → logged_but x p2 p3 → logged_but x p1 p3.
Proof.
  intros H12 H23 Hi. pose proof (H12 Hi) as J1. pose proof (H23 (jn_inv _ _ _ J1)) as J2. split.
  - apply (jn_inv _ _ _ J2).
  - eapply in_place_trans; [apply (jn_place _ _ _ J1)|apply (jn_place _ _ _ J2)].
  - pose proof (jn_seq _ _ _ J1). pose proof (jn_seq _ _ _ J2). lia.
  - intros ch. pose proof (jn_cursor _ _ _ J1 ch). pose proof (jn_cursor _ _ _ J2 ch). lia.
  - intros ch. pose proof (jn_floor _ _ _ J1 ch). pose proof (jn_floor _ _ _ J2 ch). lia.
  - intros seq c Hc. destruct (jn_entries _ _ _ J1 _ _ Hc) as [Hf|Hc2]; [|by apply (jn_entries _ _ _ J2)].
    left. pose proof (jn_floor _ _ _ J2 (cg_channel_id c)). lia.
  - intros ch id Hx Hne. destruct (decide (view ch id p2 = view ch id p1)) as [E|E].
    + rewrite <- E in Hne. eapply entry_after_mono; [apply (jn_seq _ _ _ J1)|]. by apply (jn_changed _ _ _ J2).
    + eapply entry_after_step; [done|]. by apply (jn_changed _ _ _ J1).
Qed.

Lemma logged_weaken x p p' : logged p p' → logged_but x p p'.
Proof. intros Hl Hi. destruct (Hl Hi). split; auto. Qed.

(** ** Statements *)

(** A change that writes no journal: only the row of [x] may differ. *)
Definition unlogged (x : option (Z * Z)) (p p' : Posts) : Prop :=
  ps_changes p' = ps_changes p ∧ ps_change_seq p' = ps_change_seq p ∧ ps_sync p' = ps_sync p ∧
  (∀ id, is_Some (ps_messages p' !! id) → (id <= ps_message_seq p')%Z) ∧
  in_place p p' ∧ ∀ ch id, x ≠ Some (ch, id) → view ch id p' = view ch id p.

Lemma unlogged_but x p p' : unlogged x p p' → logged_but x p p'.
Proof.
  intros (Ec&Es&Ey&Hf&[Hseq Hpl]&Hv) Hi.
  assert (∀ c, cursor_of c p' = cursor_of c p) as Ecu by (intros; unfold cursor_of; by rewrite Ey).
  assert (∀ c, floor_of c p' = floor_of c p) as Efl by (intros; unfold floor_of; by rewrite Ey).
  split; try done; [|lia|intros; rewrite Ecu; lia|intros; rewrite Efl; lia|rewrite Ec; by right|].
  - split.
    + intros seq c. rewrite Ec, Ey, Ecu. apply (si_entry _ Hi).
    + intros ch. rewrite Ecu, Efl, Es. apply (si_state _ Hi).
    + rewrite Es. apply (si_seq _ Hi).
    + exact Hf.
    + intros seq c. rewrite Ec. intros Hc. pose proof (si_known _ Hi _ _ Hc). lia.
    + intros seq c m. rewrite Ec. intros Hc Hm. pose proof (si_known _ Hi _ _ Hc) as Hk.
      destruct (Hpl _ _ Hm) as [(m0&Hm0&E)|?]; [|lia]. rewrite E. by eapply (si_scope _ Hi).
  - intros ch id Hx Hn. by rewrite Hv in Hn.
Qed.

Lemma cursor_log now ch id p c :
  cursor_of c (log_change now ch id p) = if decide (c = ch) then (ps_change_seq p + 1)%Z else cursor_of c p.
Proof.
  unfold cursor_of, log_change. simpl. rewrite lookup_insert.
  destruct (decide (ch = c)), (decide (c = ch)); congruence || done.
Qed.
Lemma floor_log now ch id p c : floor_of c (log_change now ch id p) = floor_of c p.
Proof.
  unfold floor_of, log_change. simpl. rewrite lookup_insert. case_decide; [subst; simpl|done].
  by destruct (ps_sync p !! c).
Qed.

(** The entry names a message of that channel. *)
Definition names (ch id : Z) (p : Posts) : Prop :=
  (id <= ps_message_seq p)%Z ∧ ∀ m, ps_messages p !! id = Some m → ms_channel_id m = ch.

Lemma log_inv now ch id p : names ch id p → sync_inv p → sync_inv (log_change now ch id p).
Proof.
  intros [Hk Hn] Hi. split.
  - intros seq c. simpl. rewrite lookup_insert_Some. intros [[<- <-]|[Hne Hc]]; simpl.
    + rewrite cursor_log, decide_True by done. pose proof (si_seq _ Hi). split; [lia|].
      rewrite lookup_insert_eq. eauto.
    + destruct (si_entry _ Hi _ _ Hc) as [Hseq Hsome]. pose proof (si_state _ Hi (cg_channel_id c)) as [_ Hcs].
      rewrite cursor_log. split; [case_decide; lia|]. rewrite lookup_insert. case_decide; eauto.
  - intros c. rewrite cursor_log, floor_log. pose proof (si_state _ Hi c) as [? ?]. simpl. case_decide; lia.
  - simpl. pose proof (si_seq _ Hi). lia.
  - apply (si_fresh _ Hi).
  - intros seq c. simpl. rewrite lookup_insert_Some. intros [[_ <-]|[_ Hc]]; [done|by apply (si_known _ Hi seq)].
  - intros seq c m. simpl. rewrite lookup_insert_Some. intros [[_ <-]|[_ Hc]]; simpl; [apply Hn|by apply (si_scope _ Hi seq)].
Qed.

Lemma log_journalled x now ch id p : names ch id p → sync_inv p → journalled x p (log_change now ch id p).
Proof.
  intros Hn Hi. split.
  - by apply log_inv.
  - split; [done|]. eauto.
  - simpl. lia.
  - intros c. rewrite cursor_log. pose proof (si_state _ Hi c). case_decide; lia.
  - intros c. by rewrite floor_log.
  - intros seq c Hc. right. simpl. rewrite lookup_insert_ne; [done|].
    destruct (si_entry _ Hi _ _ Hc) as [Hs _]. pose proof (si_state _ Hi (cg_channel_id c)). lia.
  - intros c i _ Hx. by destruct Hx.
Qed.

(** The entry for the message [m] that was written before, [p1] to [p2] being
    what its triggers did in between. *)
Lemma logged_close now ch id m p p1 p2 :
  ps_messages p1 !! id = Some m → ms_channel_id m = ch →
  logged_but (Some (ch, id)) p p1 → logged p1 p2 → logged p (log_change now ch id p2).
Proof.
  intros Hm Hch H1 H2 Hi. pose proof (H1 Hi) as J1. pose proof (H2 (jn_inv _ _ _ J1)) as J2.
  assert (names ch id p2) as Hn.
  { split.
    - pose proof (si_fresh _ (jn_inv _ _ _ J1) id (mk_is_Some _ _ Hm)). pose proof (jn_place _ _ _ J2) as [? _]. lia.
    - intros m2 Hm2. rewrite <- Hch. eapply in_place_row; [apply (jn_place _ _ _ J2)|apply (jn_inv _ _ _ J1)|done..]. }
  pose proof (logged_trans _ p p1 p2 H1 (logged_weaken _ _ _ H2)) as H12.
  destruct (logged_trans (Some (ch, id)) p p2 (log_change now ch id p2) H12
    (fun Hi' => log_journalled _ now ch id p2 Hn Hi') Hi) as [].
  split; auto. intros c i _ Hne. destruct (decide ((c, i) = (ch, id))) as [[= -> ->]|Hx].
  - exists (ps_change_seq p2 + 1)%Z. pose proof (jn_seq _ _ _ J1). pose proof (jn_seq _ _ _ J2). split; [lia|].
    right. exists now. simpl. by rewrite lookup_insert_eq.
  - apply jn_changed0; [congruence|done].
Qed.

(** Rewriting the row of a message of [ch]. *)
Lemma unlogged_put id m m' p :
  ps_messages p !! id = Some m → ms_channel_id m' = ms_channel_id m → sync_inv p →
  unlogged (Some (ms_channel_id m, id)) p (p <| ps_messages ::= <[id := m']> |>).
Proof.
  intros Hm Hc Hi. split_and!; try done.
  - intros i. simpl. rewrite lookup_insert_is_Some. intros [<-|[_ ?]]; apply (si_fresh _ Hi); eauto.
  - split; [simpl; lia|]. intros i x. simpl. rewrite lookup_insert_Some. intros [[<- <-]|[_ Hx]]; left; eauto.
  - intros ch i Hx. unfold view. simpl. rewrite lookup_insert. case_decide; [subst i|done]. rewrite Hm. simpl.
    rewrite Hc. destruct (Z.eqb_spec (ms_channel_id m) ch) as [Heq|]; [by destruct Hx; rewrite Heq|done].
Qed.

Lemma revise_logged now f id p : (∀ m, ms_channel_id (f m) = ms_channel_id m) → logged p (revise now f id p).
Proof.
  intros Hf. unfold revise. destruct (ps_messages p !! id) as [m|] eqn:Hm; [|apply logged_refl].
  set (m' := (f m) <| ms_revision ::= Z.succ |>).
  apply (logged_close now _ id m' p (p <| ps_messages ::= <[id := m']> |>)).
  - simpl. by rewrite lookup_insert_eq.
  - simpl. apply Hf.
  - intros Hi. apply unlogged_but; [|done]. apply unlogged_put; [done|simpl; apply Hf|done].
  - apply logged_refl.
Qed.
Lemma bump_logged now id p : logged p (bump now id p).
Proof. by apply revise_logged. Qed.

Lemma each_logged {A} (f : A → Posts → Posts) l p : (∀ a p, logged p (f a p)) → logged p (each f l p).
Proof.
  intros Hf. revert p. induction l as [|a l IH]; intros p; [apply logged_refl|].
  eapply logged_trans; [apply (Hf a)|apply IH].
Qed.

Section statements.
Context `{MapOrder}.

Lemma insert_message_logged now ch author text content reply forward root p id p' :
  insert_message now ch author text content reply forward root p = inr (id, p') → logged p p'.
Proof.
  unfold insert_message. intros Hins Hi. repeat (case_match; [done|]). simplify_eq.
  set (row := mkMessageRow _ _ _ _ _ _ _ _ _ _) in *.
  set (p1 := p <| ps_messages ::= _ |> <| ps_message_seq := _ |>) in *.
  assert (unlogged (Some (ch, (ps_message_seq p + 1)%Z)) p p1) as Hun.
  { split_and!; try done.
    - intros i. simpl. rewrite lookup_insert_is_Some. intros [<-|[_ ?%(si_fresh _ Hi)]]; lia.
    - split; [simpl; lia|]. intros i x. simpl. rewrite lookup_insert_Some. intros [[<- _]|[_ Hx]]; [right; lia|left; eauto].
    - intros c i Hx. unfold view. simpl. rewrite lookup_insert. case_decide; [subst i|done]. simpl.
      destruct (ps_messages p !! _) eqn:Hm; [pose proof (si_fresh _ Hi _ (mk_is_Some _ _ Hm)); lia|]. simpl.
      destruct (Z.eqb_spec ch c); [by subst; destruct Hx|done]. }
  revert Hi. apply (logged_close now ch _ row p p1); [simpl; by rewrite lookup_insert_eq|done|by apply unlogged_but|].
  destruct root; [apply bump_logged|apply logged_refl].
Qed.

Lemma edit_message_logged now id content p p' : edit_message now id content p = inr p' → logged p p'.
Proof.
  unfold edit_message. destruct (ps_messages p !! id) as [m|] eqn:Hm; [|intros [= <-]; apply logged_refl].
  case_match; [done|]. intros [= <-].
  set (m' := m <| ms_content := content |> <| ms_edited_at := Some now |> <| ms_revision ::= Z.succ |>).
  apply (logged_close now _ id m' p (p <| ps_messages ::= <[id := m']> |>)).
  - simpl. by rewrite lookup_insert_eq.
  - done.
  - intros Hi. apply unlogged_but; [by apply unlogged_put|done].
  - case_match; [apply logged_refl|]. apply each_logged. intros; apply bump_logged.
Qed.

(** The entry for a deleted message is written before the row goes. *)
Lemma drop_logged now id m p :
  ps_messages p !! id = Some m → logged p (drop_message id (log_change now (ms_channel_id m) id p)).
Proof.
  intros Hm Hi. assert (names (ms_channel_id m) id p) as Hn.
  { split; [apply (si_fresh _ Hi); eauto|]. intros x Hx. congruence. }
  pose proof (log_inv now (ms_channel_id m) id p Hn Hi) as Hi1.
  assert (unlogged (Some (ms_channel_id m, id)) (log_change now (ms_channel_id m) id p)
    (drop_message id (log_change now (ms_channel_id m) id p))) as Hu.
  { split_and!; try done.
    - intros i. simpl. rewrite lookup_delete_is_Some. intros [_ Hs]. by apply (si_fresh _ Hi1).
    - split; [simpl; lia|]. intros i x. simpl. rewrite lookup_delete_Some. intros [_ Hx]. left; eauto.
    - intros c i Hx. unfold view. simpl. rewrite lookup_delete. case_decide; [subst i|done]. rewrite Hm. simpl.
      destruct (Z.eqb_spec (ms_channel_id m) c) as [Heq|]; [by destruct Hx; rewrite Heq|done]. }
  destruct (logged_trans _ _ _ _ (fun Hi => log_journalled _ now (ms_channel_id m) id p Hn Hi) (unlogged_but _ _ _ Hu) Hi).
  split; auto. intros c i _ Hne. destruct (decide ((c, i) = (ms_channel_id m, id))) as [[= -> ->]|Hx].
  - exists (ps_change_seq p + 1)%Z. split; [lia|]. right. exists now. simpl. by rewrite lookup_insert_eq.
  - apply jn_changed0; [congruence|done].
Qed.

Lemma delete_row_logged comments now id p :
  (∀ id p, logged p (comments id p)) → logged p (delete_row comments true now id p).
Proof.
  intros Hc. unfold delete_row. destruct (ps_messages p !! id) as [m|] eqn:Hm; [|apply logged_refl].
  set (p1 := drop_message id _). set (p2 := comments id p1). set (p3 := each _ _ p2).
  assert (logged p p3) as Hp3.
  { apply (logged_trans _ _ p1); [by apply drop_logged|]. apply (logged_trans _ _ p2); [apply Hc|].
    apply each_logged. intros. by apply revise_logged. }
  destruct (ms_thread_root m); [eapply logged_trans; [exact Hp3|apply bump_logged]|exact Hp3].
Qed.
Lemma delete_message_logged now id p : logged p (delete_message true now id p).
Proof.
  apply delete_row_logged. intros i q. apply each_logged. intros. apply delete_row_logged. intros. apply logged_refl.
Qed.

(** Statements on other tables. *)
Definition same_journal (p p' : Posts) : Prop :=
  ps_messages p' = ps_messages p ∧ ps_message_seq p' = ps_message_seq p ∧ ps_changes p' = ps_changes p ∧
  ps_change_seq p' = ps_change_seq p ∧ ps_sync p' = ps_sync p.
Lemma same_journal_logged p p' : same_journal p p' → logged p p'.
Proof.
  intros (Em&Es&?&?&?) Hi. apply unlogged_but; [|done]. split_and!; try done.
  - rewrite Em, Es. apply (si_fresh _ Hi).
  - split; [lia|]. rewrite Em. eauto.
  - intros ch id _. unfold view. by rewrite Em.
Qed.

Lemma insert_reaction_logged now id ch s u emoji p n p' :
  insert_reaction now id ch s u emoji p = inr (n, p') → logged p p'.
Proof.
  unfold insert_reaction. intros Hi. case_match; [done|]. case_match; [done|]. case_match; simplify_eq; [apply logged_refl|].
  eapply logged_trans; [|apply bump_logged]. by apply same_journal_logged.
Qed.
Lemma delete_reactions_logged now P p : logged p (delete_reactions now P p).2.
Proof.
  unfold delete_reactions. simpl. apply each_logged. intros k q.
  eapply logged_trans; [|apply bump_logged]. by apply same_journal_logged.
Qed.
Lemma delete_member_posts_logged now P p : logged p (delete_member_posts now P p).
Proof. eapply logged_trans; [apply (delete_reactions_logged now)|by apply same_journal_logged]. Qed.
End statements.
