(* ===== verification/SyncFacts.v ===== *)
(** * Synchronisation: the database side

    Pruning keeps the journal sound, and every operation of the message
    repository only changes messages through logged statements. *)

From S2P Require Import Prelude GoText GoJson Events Publishers HubSystem Tables Posts Store Accounts Members StoreInv StoreKeep.
From S2P Require Import Channels Mentions Messages Journal ChannelFacts.

(** ** Pruning *)

Section pruning.
Context `{MapOrder}.

Definition prunable_to (ch floor : Z) (p : Posts) : Prop :=
  (floor <= cursor_of ch p)%Z ∧ is_Some (ps_sync p !! ch).

Lemma prune_channel_sync ch floor p c :
  ps_sync (prune_channel ch floor p) !! c =
    (fun s => if decide (c = ch) then mkSync (sy_cursor s) (Z.max (sy_floor s) floor) else s) <$> ps_sync p !! c.
Proof.
  simpl. rewrite lookup_alter. destruct (decide (ch = c)), (decide (c = ch)); try congruence.
  by destruct (ps_sync p !! c).
Qed.
Lemma prune_channel_cursor ch floor p c : cursor_of c (prune_channel ch floor p) = cursor_of c p.
Proof. unfold cursor_of. rewrite prune_channel_sync. destruct (ps_sync p !! c); simpl; [by case_decide|done]. Qed.

Lemma prune_channel_changes ch floor p seq c :
  ps_changes (prune_channel ch floor p) !! seq = Some c ↔
  ps_changes p !! seq = Some c ∧ ¬ (cg_channel_id c = ch ∧ (seq <= floor)%Z).
Proof.
  simpl. by rewrite delete_where_Some, <- not_true_iff_false, andb_true_iff, Z.eqb_eq, Z.leb_le.
Qed.

Lemma prune_channel_logged ch floor p : prunable_to ch floor p → logged p (prune_channel ch floor p).
Proof.
  intros [Hle [y Hy]] Hi.
  assert (∀ c, floor_of c (prune_channel ch floor p) = if decide (c = ch) then Z.max (floor_of ch p) floor else floor_of c p) as Hfl.
  { intros c. unfold floor_of. rewrite prune_channel_sync. case_decide as Hd; [subst c; by rewrite Hy|].
    by destruct (ps_sync p !! c). }
  split; try done.
  - split.
    + intros seq c [Hc _]%prune_channel_changes.
      destruct (si_entry _ Hi _ _ Hc) as [Hs [z Hz]]. rewrite prune_channel_cursor. split; [done|].
      rewrite prune_channel_sync, Hz. simpl. eauto.
    + intros c. rewrite prune_channel_cursor, Hfl. pose proof (si_state _ Hi c). case_decide; [subst c|done]. simpl. lia.
    + apply (si_seq _ Hi).
    + apply (si_fresh _ Hi).
    + intros seq c [Hc _]%prune_channel_changes. by apply (si_known _ Hi seq).
    + intros seq c m [Hc _]%prune_channel_changes. by apply (si_scope _ Hi seq).
  - split; [done|]. eauto.
  - intros c. by rewrite prune_channel_cursor.
  - intros c. rewrite Hfl. case_decide; [subst; lia|done].
  - intros seq c Hc. destruct (decide (cg_channel_id c = ch ∧ (seq <= floor)%Z)) as [[Ech Hs]|Hn].
    + left. rewrite Hfl, decide_True by done. lia.
    + right. by apply prune_channel_changes.
Qed.

Lemma prune_floors_logged l p :
  Forall (fun e => prunable_to e.1 e.2 p) l → logged p (foldl (fun p e => prune_channel e.1 e.2 p) p l).
Proof.
  revert p. induction l as [|e l IH]; intros p Hl; [apply logged_refl|]. inversion_clear Hl as [|? ? He Hl'].
  eapply logged_trans; [by apply (prune_channel_logged e.1 e.2)|]. apply IH. eapply Forall_impl; [exact Hl'|].
  intros e' [Hc [z Hz]]. split; [by rewrite prune_channel_cursor|]. rewrite prune_channel_sync, Hz. simpl. eauto.
Qed.

Lemma pruneChangeBatch_logged cutoff p : logged p (pruneChangeBatch cutoff p).2.
Proof.
  intros Hi. revert Hi. unfold pruneChangeBatch. simpl. set (rows := prunable cutoff p). intros Hi.
  apply prune_floors_logged; [|done]. apply Forall_forall. intros [ch f] Hin%elem_of_range_entries. simpl in *.
  assert (∀ e, e ∈ rows → ps_changes p !! e.1 = Some e.2) as Hrows.
  { intros [seq c] He. unfold rows, prunable in He. apply elem_of_take in He as (i&Hi'&_).
    apply list_elem_of_lookup_2 in Hi'. rewrite merge_sort_Permutation in Hi'.
    apply list_elem_of_filter in Hi' as [_ Hi']. by apply elem_of_map_to_list in Hi'. }
  assert (∀ rows (floors : gmap Z Z), (∀ e, e ∈ rows → ps_changes p !! e.1 = Some e.2) →
    (∀ ch f, floors !! ch = Some f → prunable_to ch f p) →
    ∀ ch f, foldl (fun floors (e : Z * change_row) => <[cg_channel_id e.2 :=
      Z.max (default 0%Z (floors !! cg_channel_id e.2)) e.1]> floors) floors rows !! ch = Some f →
    prunable_to ch f p) as Hfold.
  { clear Hin Hrows rows ch f. intros rows. induction rows as [|e rows IH]; intros floors Hr Hf; simpl; [done|].
    apply IH; [set_solver|]. intros ch f. rewrite lookup_insert_Some. intros [[<- <-]|[_ Hx]]; [|by apply Hf].
    destruct (si_entry _ Hi e.1 e.2) as [Hs Hsome]; [apply Hr; by left|]. split; [|done].
    pose proof (si_state _ Hi (cg_channel_id e.2)).
    destruct (floors !! cg_channel_id e.2) as [f|] eqn:Ef; simpl; [destruct (Hf _ _ Ef)|]; lia. }
  eapply Hfold; [exact Hrows| |exact Hin]. intros c x Hx. by rewrite lookup_empty in Hx.
Qed.

Lemma prune_batches_logged n others cutoff p :
  (∀ p, logged p (others p)) → logged p (prune_batches n others cutoff p).
Proof.
  intros Ho. revert p. induction n as [|n IH]; intros p; [apply logged_refl|].
  pose proof (pruneChangeBatch_logged cutoff p) as Hb. cbn [prune_batches].
  destruct (pruneChangeBatch cutoff p) as [count p1]. case_match; [done|].
  eapply logged_trans; [exact Hb|]. eapply logged_trans; [apply Ho|apply IH].
Qed.
End pruning.

(** ** Authors *)

(** Every message has an author with the property. *)
Definition authored (P : Z → Prop) (p : Posts) : Prop :=
  ∀ id m, ps_messages p !! id = Some m → P (ms_author m).

Section authors.
Context `{MapOrder} (P : Z → Prop).

Lemma authored_put id m p : authored P p → P (ms_author m) → authored P (p <| ps_messages ::= <[id := m]> |>).
Proof. intros Ha Hm i x. simpl. rewrite lookup_insert_Some. intros [[_ <-]|[_ Hx]]; [done|eapply Ha; eassumption]. Qed.

Lemma authored_revise now f id p :
  (∀ m, ms_author (f m) = ms_author m) → authored P p → authored P (revise now f id p).
Proof.
  intros Hf Ha. unfold revise. destruct (ps_messages p !! id) as [m|] eqn:Hm; [|done].
  refine (authored_put id ((f m) <| ms_revision ::= Z.succ |>) p Ha _). simpl. rewrite Hf. eapply Ha; eassumption.
Qed.
Lemma authored_each {A} (f : A → Posts → Posts) l p :
  (∀ a p, authored P p → authored P (f a p)) → authored P p → authored P (each f l p).
Proof. intros Hf. revert p. induction l as [|a l IH]; intros p Ha; [done|]. by apply IH, Hf. Qed.

Lemma authored_insert now ch author text content reply forward root p id p' :
  insert_message now ch author text content reply forward root p = inr (id, p') →
  P author → authored P p → authored P p'.
Proof.
  unfold insert_message. intros Hins Hau Ha. repeat (case_match; [done|]). simplify_eq.
  set (row := mkMessageRow _ _ _ _ _ _ _ _ _ _) in *.
  set (p1 := p <| ps_messages ::= _ |> <| ps_message_seq := _ |>) in *.
  assert (authored P p1) as Hp1 by exact (authored_put _ row p Ha Hau).
  destruct root; [exact (authored_revise now (fun m => m) z p1 (fun _ => eq_refl) Hp1)|exact Hp1].
Qed.
Lemma authored_edit now id content p p' : edit_message now id content p = inr p' → authored P p → authored P p'.
Proof.
  unfold edit_message. intros He Ha. destruct (ps_messages p !! id) as [m|] eqn:Hm; [|by simplify_eq].
  case_match; [done|]. simplify_eq.
  set (m' := m <| ms_content := content |> <| ms_edited_at := Some now |> <| ms_revision ::= Z.succ |>).
  assert (authored P (p <| ps_messages ::= <[id := m']> |>)) as Hp1
    by (refine (authored_put id m' p Ha _); exact (Ha _ _ Hm)).
  case_match; [exact Hp1|]. apply (authored_each (bump now)); [|exact Hp1]. intros. by apply authored_revise.
Qed.
Lemma authored_drop id p : authored P p → authored P (drop_message id p).
Proof. intros Ha i m. simpl. rewrite lookup_delete_Some. intros [_ Hm]. eapply Ha; eassumption. Qed.
Lemma authored_delete_row comments live now id p :
  (∀ id p, authored P p → authored P (comments id p)) → authored P p → authored P (delete_row comments live now id p).
Proof.
  intros Hc Ha. unfold delete_row. destruct (ps_messages p !! id) as [m|] eqn:Hm; [|done].
  set (p1 := drop_message id _). assert (authored P p1) as Hp1 by (apply authored_drop; by destruct live).
  set (p2 := comments id p1). set (p3 := each _ _ p2).
  assert (authored P p3) as Hp3 by (apply authored_each; [intros; by apply authored_revise|by apply Hc]).
  destruct (ms_thread_root m); [by apply authored_revise|done].
Qed.
Lemma authored_delete live now id p : authored P p → authored P (delete_message live now id p).
Proof.
  apply authored_delete_row. intros i q. apply authored_each. intros. by apply authored_delete_row.
Qed.
Lemma authored_reaction now id ch s u emoji p n p' :
  insert_reaction now id ch s u emoji p = inr (n, p') → authored P p → authored P p'.
Proof.
  unfold insert_reaction. intros Hi Ha. case_match; [done|]. case_match; [done|]. case_match; simplify_eq; [done|].
  by apply authored_revise.
Qed.
Lemma authored_unreact now Q p : authored P p → authored P (delete_reactions now Q p).2.
Proof. apply authored_each. intros k q Ha. by apply authored_revise. Qed.
End authors.

Lemma authored_same P p p' : same_journal p p' → authored P p → authored P p'.
Proof. intros (E&_) Ha id m. rewrite E. apply Ha. Qed.

(** ** The operations of the repository *)

(** What a transaction did to the messages: logged, by known authors, with the
    users kept. *)
Definition known (d : DB) (u : Z) : Prop := is_Some (db_users d !! u).
Record sound_write (d d' : DB) : Prop := {
  sw_logged : logged (db_posts d) (db_posts d');
  sw_authors : authored (known d) (db_posts d) → authored (known d') (db_posts d');
  sw_users : ∀ u, known d u → known d' u
}.
Lemma sound_write_refl d : sound_write d d.
Proof. split; auto. apply logged_refl. Qed.
Lemma sound_write_trans d1 d2 d3 : sound_write d1 d2 → sound_write d2 d3 → sound_write d1 d3.
Proof. intros [] []. split; auto. by eapply logged_trans. Qed.

Lemma sound_same d d' : same_journal (db_posts d) (db_posts d') → (∀ u, known d u → known d' u) → sound_write d d'.
Proof.
  intros Hs Hu. split; [by apply same_journal_logged| |done].
  intros Ha id m. destruct Hs as (->&_). intros Hm. eapply Hu, Ha, Hm.
Qed.
Lemma sound_posts d p : logged (db_posts d) p → (authored (known d) (db_posts d) → authored (known d) p) →
  sound_write d (d <| db_posts := p |>).
Proof. intros Hl Ha. by split. Qed.

Section repository.
Context `{MapOrder, Platform}.

Lemma on_posts_inv {A} (f : Posts → Constraint + (A * Posts)) d a d' :
  on_posts f d = inr (a, d') → ∃ p, f (db_posts d) = inr (a, p) ∧ d' = d <| db_posts := p |>.
Proof.
  unfold on_posts, insert_row. destruct (f (db_posts d)) as [c|[a' p]]; [done|]. intros [= <- <-]. eauto.
Qed.
Lemma posts_exec_inv f d x d' : posts_exec f d = inr (x, d') → d' = d <| db_posts ::= f |>.
Proof. unfold posts_exec. by intros ?%exec_inr. Qed.

(** Queries that keep the database. *)
Lemma requireServerMember_inv s u d x d' : requireServerMember s u d = inr (x, d') → d' = d ∧ known d u.
Proof.
  intros Hr. unfold requireServerMember, requireServerMemberWithRole in Hr. tx_run.
  destruct (db_members d !! (s, u)); [|done]. unfold known. simpl in *. destruct (db_users d !! u); [eauto|done].
Qed.
Lemma requireMessageChannel_inv s ch u now d c d' :
  requireMessageChannel s ch u now d = inr (c, d') → d' = d ∧ find_channel s ch d = Some c.
Proof. intros Hr. unfold requireMessageChannel in Hr. by tx_run. Qed.
Lemma findMessage_inv ch id d v d' : findMessage ch id d = inr (v, d') → d' = d.
Proof. intros Hr. unfold findMessage in Hr. by tx_run. Qed.
Lemma requireInteraction_inv s ch id u now d v d' :
  requireInteraction s ch id u now d = inr (v, d') → d' = d.
Proof.
  intros Hr. unfold requireInteraction in Hr. tx_run. apply requireServerMember_inv in Hrun as [-> _].
  apply requireMessageChannel_inv in Hrun0 as [-> _]. by apply findMessage_inv in Hr.
Qed.
Lemma requireNewsWrite_inv ch u reply d v d' : requireNewsWrite ch u reply d = inr (v, d') → d' = d.
Proof. intros Hr. unfold requireNewsWrite in Hr. tx_run; done. Qed.
Lemma thread_root_inv ch input root d v d' : thread_root ch input root d = inr (v, d') → d' = d.
Proof. intros Hr. unfold thread_root in Hr. tx_run; done. Qed.
Lemma reply_target_inv ch input d v d' : reply_target ch input d = inr (v, d') → d' = d.
Proof. intros Hr. unfold reply_target in Hr. tx_run; done. Qed.
Lemma forwardSnapshot_inv u f now d v d' : forwardSnapshot u f now d = inr (v, d') → d' = d.
Proof. intros Hr. unfold forwardSnapshot in Hr. tx_run; [done|]. by apply requireInteraction_inv in Hrun as ->. Qed.
Lemma replay_inv ch u key hash kind k d v d' : replay ch u key hash kind k d = inr (v, d') → d' = d.
Proof. intros Hr. unfold replay in Hr. tx_run. by apply findMessage_inv in Hrun. Qed.

(** Statements on the other tables. *)
Lemma StorePoll_same now id input d x d' :
  StorePoll now id input d = inr (x, d') → sound_write d d'.
Proof.
  intros Hr. unfold StorePoll in Hr. destruct input as [i|]; [|tx_run; apply sound_write_refl].
  destruct (poll_Validate now i) as [e|i']; [done|]. apply posts_exec_inv in Hr as ->.
  apply sound_same; [|done]. simpl. unfold insert_poll. generalize (pi_Options i'). intros l.
  match goal with |- same_journal _ (foldl _ ?p l) => assert (same_journal (db_posts d) p) as Hp by done; revert Hp; generalize p end.
  induction l as [|o l IH]; intros p0 Hp; simpl; [done|]. by apply IH.
Qed.
Lemma attach_same ch u id ids d x d' : attach ch u id ids d = inr (x, d') → sound_write d d'.
Proof.
  revert d. induction ids as [|a ids IH]; intros d Hr; cbn [attach] in Hr; tx_run; [apply sound_write_refl|].
  apply posts_exec_inv in Hrun0 as ->. eapply sound_write_trans; [|by apply IH]. by apply sound_same.
Qed.
Lemma send_key_same ch u key hash id kind d x d' :
  on_posts (insert_send_key ch u key hash id kind) d = inr (x, d') → sound_write d d'.
Proof.
  intros (p&Hp&->)%on_posts_inv. apply sound_same; [|done]. unfold insert_send_key in Hp.
  repeat case_match; by simplify_eq.
Qed.

Lemma insert_message_sound now ch author text content reply forward root d id d' :
  known d author → on_posts (insert_message now ch author text content reply forward root) d = inr (id, d') →
  sound_write d d'.
Proof.
  intros Hk (p&Hp&->)%on_posts_inv. apply sound_posts; [by eapply insert_message_logged|].
  intros Ha. by eapply authored_insert.
Qed.

Lemma store_message_sound ch author name input forward root hash kind n5 n6 n7 d x d' :
  known d author → store_message ch author name input forward root hash kind n5 n6 n7 d = inr (x, d') → sound_write d d'.
Proof.
  intros Hk Hr. unfold store_message in Hr. tx_run.
  all: apply reply_target_inv in Hrun as ->.
  all: try match goal with Hf : forwardSnapshot _ _ _ _ = inr _ |- _ => apply forwardSnapshot_inv in Hf as -> end.
  all: apply (insert_message_sound n6 ch author) in Hrun2; [|done].
  all: apply StorePoll_same in Hrun3; apply attach_same in Hrun5.
  all: try match goal with Hk : on_posts (insert_send_key _ _ _ _ _ _) _ = inr _ |- _ => apply send_key_same in Hk end.
  all: eauto using sound_write_trans.
Qed.

(** A transaction that fails changes nothing; one that succeeds is sound if its
    run is. *)
Lemma atomically_sound {A} (t : Tx MessageError A) d :
  (∀ a d', t d = inr (a, d') → sound_write d d') → sound_write d (atomically t d).2.
Proof.
  intros Ht. unfold atomically. destruct (t d) as [e|[a d']]; [apply sound_write_refl|by eapply Ht].
Qed.

Lemma CreateReferenced_sound s ch u input forward n1 n2 nanos n5 n6 n7 d :
  sound_write d (CreateReferenced s ch u input forward n1 n2 nanos n5 n6 n7 d).2.
Proof.
  unfold CreateReferenced. destruct (requestHash input forward) as [kind hash]. apply atomically_sound.
  intros a d' Hr. tx_run.
  all: apply requireServerMember_inv in Hrun as [-> Hk]; apply requireMessageChannel_inv in Hrun0 as [-> _].
  - apply replay_inv in Hr as ->. apply sound_write_refl.
  - match goal with Hn : requireNewsWrite _ _ _ _ = inr _ |- _ => apply requireNewsWrite_inv in Hn as -> end.
    match goal with Hn : thread_root _ _ _ _ = inr _ |- _ => apply thread_root_inv in Hn as -> end.
    by eapply store_message_sound.
Qed.

Lemma edit_message_sound now id content d x d' :
  on_posts (fun p => match edit_message now id content p with inl c => inl c | inr p => inr (tt, p) end) d = inr (x, d') →
  sound_write d d'.
Proof.
  intros (p&Hp&->)%on_posts_inv. destruct (edit_message now id content (db_posts d)) eqn:He; [done|]. simplify_eq.
  apply sound_posts; [by eapply edit_message_logged|by eapply authored_edit].
Qed.

Lemma repo_Update_sound s ch id u content n1 n2 n3 d : sound_write d (repo_Update s ch id u content n1 n2 n3 d).2.
Proof.
  apply atomically_sound. intros a d' Hr. tx_run.
  all: apply requireServerMember_inv in Hrun as [-> Hk]; apply requireMessageChannel_inv in Hrun0 as [-> _].
  all: try match goal with Hn : requireNewsWrite _ _ _ _ = inr _ |- _ => apply requireNewsWrite_inv in Hn as -> end.
  all: by eapply edit_message_sound.
Qed.

Lemma repo_Delete_sound s ch id u n1 n2 n3 d : sound_write d (repo_Delete s ch id u n1 n2 n3 d).2.
Proof.
  apply atomically_sound. intros a d' Hr. tx_run.
  all: unfold requireServerMemberWithRole in Hrun; tx_run.
  all: apply requireMessageChannel_inv in Hrun0 as [-> _]; apply findMessage_inv in Hrun1 as ->.
  all: match goal with Hx : posts_exec _ _ = inr _ |- _ => apply posts_exec_inv in Hx as -> end.
  all: eapply sound_write_trans; [apply sound_posts; [apply (delete_message_logged n3 id)|apply authored_delete]|].
  - match goal with Hx : message_audit _ _ _ _ _ _ = inr _ |- _ => apply audit_tables in Hx as -> end. by apply sound_same.
  - apply sound_write_refl.
Qed.

Lemma repo_SetReaction_sound s ch id u emoji active n1 n2 n3 d :
  sound_write d (repo_SetReaction s ch id u emoji active n1 n2 n3 d).2.
Proof.
  unfold repo_SetReaction. case_match; [apply sound_write_refl|]. apply atomically_sound. intros a d' Hr. tx_run.
  all: apply requireInteraction_inv in Hrun as ->.
  all: match goal with Hx : on_posts _ _ = inr _ |- _ => apply on_posts_inv in Hx as (p&Hp&->) end.
  - apply sound_posts; [by eapply insert_reaction_logged|by eapply authored_reaction].
  - injection Hp as <- <-. apply sound_posts; [apply (delete_reactions_logged n3)|apply (authored_unreact _ n3)].
Qed.

Lemma repo_Pin_sound s ch id u n1 n2 n3 d : sound_write d (repo_Pin s ch id u n1 n2 n3 d).2.
Proof.
  apply atomically_sound. intros a d' Hr. tx_run.
  all: unfold requireServerMemberWithRole in Hrun; tx_run.
  all: match goal with Hx : requireMessageChannel _ _ _ _ _ = inr _ |- _ => apply requireMessageChannel_inv in Hx as [-> _] end.
  all: match goal with Hx : findMessage _ _ _ = inr _ |- _ => apply findMessage_inv in Hx as -> end.
  all: try match goal with Hx : posts_exec _ _ = inr _ |- _ => apply posts_exec_inv in Hx as -> end.
  all: by apply sound_same.
Qed.
Lemma repo_Unpin_sound s ch id u n1 n2 d : sound_write d (repo_Unpin s ch id u n1 n2 d).2.
Proof.
  apply atomically_sound. intros a d' Hr. tx_run.
  all: unfold requireServerMemberWithRole in Hrun; tx_run.
  all: match goal with Hx : requireMessageChannel _ _ _ _ _ = inr _ |- _ => apply requireMessageChannel_inv in Hx as [-> _] end.
  all: match goal with Hx : findMessage _ _ _ = inr _ |- _ => apply findMessage_inv in Hx as -> end.
  all: match goal with Hx : posts_exec _ _ = inr _ |- _ => apply posts_exec_inv in Hx as -> end.
  all: by apply sound_same.
Qed.
End repository.
