(* ===== verification/SyncClient.v ===== *)
(** * Synchronisation: the client side

    A client that follows a channel keeps copies of its messages and the cursor
    of the last page it got ([Mirror]). [follows] relates it to the database:
    what it has is what the database has, but for messages with an entry in the
    journal after its cursor. Writes keep it, and so does every page. *)

From S2P Require Import Prelude GoText GoJson Events Publishers HubSystem Tables Posts Store Accounts Members StoreInv.
From S2P Require Import Channels Mentions Messages Journal.

(** ** The client *)

Record copy := mkCopy {
  cp_author : Z; cp_content : string; cp_created_at : Z; cp_edited_at : option Z; cp_revision : Z }.
Definition copy_of_row (m : message_row) : copy :=
  mkCopy (ms_author m) (ms_content m) (ms_created_at m) (ms_edited_at m) (ms_revision m).
Definition copy_of_message (v : Message) : copy :=
  mkCopy (ma_UserID (msg_Author v)) (msg_Content v) (msg_CreatedAt v) (msg_EditedAt v) (msg_Revision v).

(** [mr_from] is the oldest message of the last reset page when older ones were
    left out; the client does not know about those. *)
Record Mirror := mkMirror { mr_cursor : option Z; mr_copies : gmap Z copy; mr_from : option Z }.
Definition new_mirror : Mirror := mkMirror None ∅ None.

Definition put_messages (l : list FullMessage) (m : gmap Z copy) : gmap Z copy :=
  foldl (fun m v => <[msg_ID (fm_Message v) := copy_of_message (fm_Message v)]> m) m l.
Definition drop_messages (l : list Z) (m : gmap Z copy) : gmap Z copy := foldl (fun m id => delete id m) m l.

Definition apply_page (page : SyncPage) (c : Mirror) : Mirror :=
  mkMirror (Some (sp_Cursor page))
    (put_messages (sp_Messages page)
       (drop_messages (sp_DeletedIDs page) (if sp_Reset page then ∅ else mr_copies c)))
    (if sp_Reset page
     then if sp_HasOlder page then (fun v => msg_ID (fm_Message v)) <$> head (sp_Messages page) else None
     else mr_from c).

(** ** What the client may rely on *)

Definition known_to (c : Mirror) (id : Z) : Prop := from_option (fun b => (b <= id)%Z) True (mr_from c).

(** Exactly the channel's messages: no other copies, and none of the messages
    outside threads is missing from where the client started. *)
Definition mirrors (ch : Z) (p : Posts) (c : Mirror) : Prop :=
  (∀ id k, mr_copies c !! id = Some k → copy_of_row <$> view ch id p = Some k) ∧
  (∀ id m, view ch id p = Some m → ms_thread_root m = None → known_to c id →
     mr_copies c !! id = Some (copy_of_row m)).

Definition follows (ch : Z) (p : Posts) (c : Mirror) : Prop :=
  ∀ after, mr_cursor c = Some after →
    (after <= cursor_of ch p)%Z ∧
    ((floor_of ch p <= after)%Z →
     (∀ id k, mr_copies c !! id = Some k →
        copy_of_row <$> view ch id p = Some k ∨ entry_after after ch id p) ∧
     (∀ id m, view ch id p = Some m → ms_thread_root m = None → known_to c id →
        mr_copies c !! id = Some (copy_of_row m) ∨ entry_after after ch id p)).

Lemma new_mirror_follows ch p : follows ch p new_mirror.
Proof. done. Qed.

(** A write moves nothing but what it journals. *)
Lemma follows_write ch p p' c : sync_inv p → logged p p' → follows ch p c → follows ch p' c.
Proof.
  intros Hi Hl Hf after Ha. destruct (Hf after Ha) as [Hle Hc]. pose proof (Hl Hi) as J.
  pose proof (jn_cursor _ _ _ J ch). split; [lia|]. intros Hfl.
  destruct Hc as [Hs Hm]; [pose proof (jn_floor _ _ _ J ch); lia|].
  assert (∀ id, view ch id p' = view ch id p ∨ entry_after after ch id p') as Hch.
  { intros id. destruct (decide (view ch id p' = view ch id p)) as [E|E]; [by left|right].
    eapply entry_after_mono; [|by apply (jn_changed _ _ _ J)]. pose proof (si_state _ Hi ch). lia. }
  split.
  - intros id k Hk. destruct (Hch id) as [E|]; [|by right]. rewrite E.
    destruct (Hs id k Hk) as [|He]; [by left|right; by eapply entry_after_step].
  - intros id m Hv Ht Hkn. destruct (Hch id) as [E|]; [|by right]. rewrite E in Hv.
    destruct (Hm id m Hv Ht Hkn) as [|He]; [by left|right; by eapply entry_after_step].
Qed.

(** ** Applying a page *)

Definition ids_of (l : list FullMessage) : list Z := (fun v => msg_ID (fm_Message v)) <$> l.

Lemma put_messages_out l m id : id ∉ ids_of l → put_messages l m !! id = m !! id.
Proof.
  unfold put_messages, ids_of. revert m. induction l as [|v l IH]; intros m Hn; simpl in *; [done|].
  apply not_elem_of_cons in Hn as [Hne Hn]. by rewrite IH, lookup_insert_ne.
Qed.
Lemma put_messages_in l m id k :
  id ∈ ids_of l → (∀ v, v ∈ l → msg_ID (fm_Message v) = id → copy_of_message (fm_Message v) = k) →
  put_messages l m !! id = Some k.
Proof.
  revert m. induction l as [|v l IH]; intros m Hex Hall; [by apply not_elem_of_nil in Hex|].
  change (put_messages (v :: l) m) with
    (put_messages l (<[msg_ID (fm_Message v) := copy_of_message (fm_Message v)]> m)).
  destruct (decide (id ∈ ids_of l)) as [Hl|Hl].
  - apply IH; [done|]. intros w Hw. apply Hall. by right.
  - rewrite put_messages_out by done. apply elem_of_cons in Hex as [->|?]; [|done].
    rewrite lookup_insert_eq. f_equal. apply Hall; [by left|done].
Qed.
Lemma drop_messages_lookup l m id : drop_messages l m !! id = if decide (id ∈ l) then None else m !! id.
Proof.
  unfold drop_messages. revert m. induction l as [|x l IH]; intros m; [done|]. cbn [foldl].
  rewrite IH, lookup_delete. repeat case_decide; set_solver.
Qed.

(** Ordered lists of rows with distinct keys, cut in two. *)
Lemma split_keys {B} (R : Z * B → Z * B → Prop) (l : list (Z * B)) n x y :
  StronglySorted R l → NoDup l.*1 → x ∈ take n l → y ∈ drop n l → R x y ∧ x.1 ≠ y.1.
Proof.
  intros Hs Hn Hx Hy. rewrite <- (take_drop n l) in Hs, Hn. split.
  - by eapply StronglySorted_app_1_elem_of.
  - rewrite fmap_app in Hn. apply NoDup_app in Hn as (_&Hn&_). intros E. apply (Hn x.1).
    + by apply list_elem_of_fmap_2.
    + rewrite E. by apply list_elem_of_fmap_2.
Qed.
Lemma elem_of_split {A} n (l : list A) x : x ∈ l ↔ x ∈ take n l ∨ x ∈ drop n l.
Proof. by rewrite <- elem_of_app, take_drop. Qed.

Lemma elem_of_rev {A} (l : list A) x : x ∈ rev l ↔ x ∈ l.
Proof. by rewrite !list_elem_of_In, <- in_rev. Qed.

Section pages.
Context `{MapOrder, Platform}.

Lemma hydrate_id u d v : msg_ID (fm_Message (hydrate u d v)) = msg_ID v.
Proof. unfold hydrate. by case_match. Qed.
Lemma hydrate_copy u d v : copy_of_message (fm_Message (hydrate u d v)) = copy_of_message v.
Proof. unfold hydrate. by case_match. Qed.

(** *** The changes after a cursor *)

Lemma elem_of_changes ch after p e :
  e ∈ changes_after ch after p ↔ ps_changes p !! e.1 = Some e.2 ∧ cg_channel_id e.2 = ch ∧ (after < e.1)%Z.
Proof.
  unfold changes_after. rewrite merge_sort_Permutation, list_elem_of_filter. destruct e as [seq c].
  rewrite elem_of_map_to_list. simpl. tauto.
Qed.
#[local] Instance change_before_trans : Transitive change_before.
Proof. intros a b c ??. unfold change_before in *. lia. Qed.
#[local] Instance change_before_total : Total change_before.
Proof. intros a b. unfold change_before. lia. Qed.
Lemma changes_sorted ch after p : StronglySorted change_before (changes_after ch after p).
Proof. apply StronglySorted_merge_sort; apply _. Qed.
Lemma changes_keys ch after p : NoDup (changes_after ch after p).*1.
Proof.
  unfold changes_after. rewrite merge_sort_Permutation. eapply sublist_NoDup; [|apply fmap_sublist, sublist_filter].
  apply NoDup_fst_map_to_list.
Qed.

(** The ids a list of entries is about are the ids of its messages and its
    deletions; the message of an entry is its current row. *)
Lemma page_copies ch u d (page : list (Z * change_row)) m id :
  put_messages (hydrate u d <$> omap (fun e => synced_message ch d (cg_message_id e.2)) page)
    (drop_messages (omap (fun e => match ps_messages (db_posts d) !! cg_message_id e.2 with
       | Some _ => None | None => Some (cg_message_id e.2) end) page) m) !! id =
  if decide (id ∈ (fun e => cg_message_id e.2) <$> page) then copy_of_row <$> ps_messages (db_posts d) !! id else m !! id.
Proof.
  assert (id ∈ ids_of (hydrate u d <$> omap (fun e => synced_message ch d (cg_message_id e.2)) page) ↔
    id ∈ (fun e => cg_message_id e.2) <$> page ∧ is_Some (ps_messages (db_posts d) !! id)) as Hin.
  { unfold ids_of. rewrite <- list_fmap_compose, !list_elem_of_fmap. setoid_rewrite list_elem_of_omap. split.
    - intros (v&->&e&He&Hv). unfold synced_message in Hv. destruct (ps_messages _ !! _) as [x|] eqn:Hx; [|done].
      injection Hv as <-. simpl. rewrite hydrate_id. simpl. rewrite Hx. split; [by exists e|done].
    - intros [(e&->&He) [x Hx]]. eexists. split; [|exists e; split; [done|]; unfold synced_message; by rewrite Hx].
      simpl. by rewrite hydrate_id. }
  case_decide as Hpage.
  - destruct (ps_messages (db_posts d) !! id) as [x|] eqn:Hx; simpl.
    + apply put_messages_in; [apply Hin; eauto|]. intros v (w&->&Hw)%list_elem_of_fmap. rewrite hydrate_id, hydrate_copy.
      apply list_elem_of_omap in Hw as (e&He&Hw). unfold synced_message in Hw.
      destruct (ps_messages (db_posts d) !! cg_message_id e.2) as [y|] eqn:Hy; simpl in Hw; [|done].
      injection Hw as <-. simpl. intros Hid. rewrite Hid in Hy.
      by assert (y = x) as -> by congruence.
    + rewrite put_messages_out; [|by intros [_ []]%Hin]. rewrite drop_messages_lookup, decide_True; [done|].
      apply list_elem_of_fmap in Hpage as (e&->&He). apply list_elem_of_omap. exists e. by rewrite Hx.
  - rewrite put_messages_out by by intros [? _]%Hin. rewrite drop_messages_lookup, decide_False; [done|].
    intros (e&He&Hv)%list_elem_of_omap. apply Hpage, list_elem_of_fmap. exists e. by case_match; simplify_eq.
Qed.

Lemma entry_current after ch id p : (floor_of ch p <= after)%Z → entry_after after ch id p →
  ∃ e, e ∈ changes_after ch after p ∧ cg_message_id e.2 = id.
Proof.
  intros Hf (seq&Hs&[?|(t&Ht)]); [lia|]. exists (seq, mkChange ch id t). by rewrite elem_of_changes.
Qed.

Lemma view_entry ch after p e m :
  sync_inv p → e ∈ changes_after ch after p → ps_messages p !! cg_message_id e.2 = Some m →
  view ch (cg_message_id e.2) p = Some m.
Proof.
  intros Hi (Hc&<-&_)%elem_of_changes Hm. unfold view. rewrite Hm. simpl.
  by rewrite (si_scope _ Hi _ _ _ Hc Hm), Z.eqb_refl.
Qed.
Lemma view_row ch id p m : view ch id p = Some m → ps_messages p !! id = Some m.
Proof. unfold view. destruct (ps_messages p !! id); simpl; [by case_match|done]. Qed.

(** A page of changes, in terms of the first [n] entries after the cursor; all
    other entries come after its new cursor. *)
Lemma changes_page_follows ch u after c d (n : nat) (more : bool) cursor' :
  let p := db_posts d in
  let page := take n (changes_after ch after p) in
  let c' := mkMirror (Some cursor')
    (put_messages (hydrate u d <$> omap (fun e => synced_message ch d (cg_message_id e.2)) page)
      (drop_messages (omap (fun e => match ps_messages p !! cg_message_id e.2 with
        | Some _ => None | None => Some (cg_message_id e.2) end) page) (mr_copies c))) (mr_from c) in
  sync_inv p → mr_cursor c = Some after → (floor_of ch p <= after)%Z → follows ch p c →
  (cursor' <= cursor_of ch p)%Z →
  (∀ e, e ∈ drop n (changes_after ch after p) → more = true ∧ (cursor' < e.1)%Z) →
  follows ch p c' ∧ (more = false → mirrors ch p c').
Proof.
  intros p page c' Hi Hcur Hfl Hf Hle Hrest. destruct (Hf after Hcur) as [_ Hc]. destruct (Hc Hfl) as [Hs Hm].
  assert (∀ id, mr_copies c' !! id = if decide (id ∈ (fun e => cg_message_id e.2) <$> page)
    then copy_of_row <$> ps_messages p !! id else mr_copies c !! id) as Hat by (intros id; apply page_copies).
  assert (∀ id, id ∈ (fun e => cg_message_id e.2) <$> page → view ch id p = ps_messages p !! id) as Hview.
  { intros id (e&->&He)%list_elem_of_fmap. destruct (ps_messages p !! _) as [m|] eqn:Hx; [|unfold view; by rewrite Hx].
    eapply view_entry; [done| |done]. apply (elem_of_split n). by left. }
  assert (∀ id, id ∉ (fun e => cg_message_id e.2) <$> page → entry_after after ch id p →
    more = true ∧ entry_after cursor' ch id p) as Hout.
  { intros id Hn He. destruct (entry_current _ _ _ _ Hfl He) as (e&He'&Hid).
    apply (elem_of_split n) in He' as [Hp|Hd].
    - destruct Hn. apply list_elem_of_fmap. by exists e.
    - destruct (Hrest e Hd) as [Hmore Hlt]. split; [done|]. exists e.1. split; [done|]. right.
      assert (e ∈ changes_after ch after p) as (Hce&Hch&_)%elem_of_changes by (apply (elem_of_split n); by right).
      exists (cg_created_at e.2). rewrite Hce, <- Hch, <- Hid. by destruct (e.2). }
  assert (∀ id k, mr_copies c' !! id = Some k →
    copy_of_row <$> view ch id p = Some k ∨ more = true ∧ entry_after cursor' ch id p) as Hs'.
  { intros id k. rewrite Hat. case_decide as Hp; [left; by rewrite Hview|].
    intros Hk. destruct (Hs id k Hk); [by left|right; by apply Hout]. }
  assert (∀ id m, view ch id p = Some m → ms_thread_root m = None → known_to c' id →
    mr_copies c' !! id = Some (copy_of_row m) ∨ more = true ∧ entry_after cursor' ch id p) as Hm'.
  { intros id m Hv Ht Hk. rewrite Hat. case_decide as Hp; [left; by rewrite (view_row _ _ _ _ Hv)|].
    destruct (Hm id m Hv Ht Hk); [by left|right; by apply Hout]. }
  split.
  - intros a [= <-]. split; [done|]. intros _. split.
    + intros id k Hk. destruct (Hs' id k Hk) as [|[_ ?]]; auto.
    + intros id m Hv Ht Hk. destruct (Hm' id m Hv Ht Hk) as [|[_ ?]]; auto.
  - intros Hmore. split.
    + intros id k Hk. destruct (Hs' id k Hk) as [|[? _]]; [done|congruence].
    + intros id m Hv Ht Hk. destruct (Hm' id m Hv Ht Hk) as [|[? _]]; [done|congruence].
Qed.

Lemma changes_page_ok ch u after c d :
  sync_inv (db_posts d) → mr_cursor c = Some after → (floor_of ch (db_posts d) <= after)%Z →
  follows ch (db_posts d) c →
  let page := changes_page ch u after (cursor_of ch (db_posts d)) d in
  follows ch (db_posts d) (apply_page page c) ∧
  (sp_HasMore page = false → mirrors ch (db_posts d) (apply_page page c)).
Proof.
  intros Hi Hcur Hfl Hf. unfold changes_page, apply_page. simpl. generalize syncPageSize. intros n.
  set (l := changes_after ch after (db_posts d)).
  assert (take n (take (S n) l) = take n l) as -> by (rewrite take_take; f_equal; lia).
  set (more := n <? length (take (S n) l)).
  assert (more = true ↔ n < length l) as Hmore.
  { unfold more. rewrite Nat.ltb_lt, length_take. lia. }
  set (cursor' := if more then from_option fst after (last (take n l)) else cursor_of ch (db_posts d)).
  assert (more = true → ∃ e, last (take n l) = Some e ∨ n = 0) as Hlast.
  { intros Hm%Hmore. destruct (last (take n l)) as [e|] eqn:E; [eauto|]. exists (0%Z, mkChange 0 0 0). right.
    apply last_None in E. apply (f_equal length) in E. rewrite length_take in E. simpl in E. lia. }
  apply (changes_page_follows ch u after c d n more cursor'); try done.
  - unfold cursor'. destruct more eqn:Hm; [|done]. destruct (last (take n l)) as [e|] eqn:E; simpl.
    + apply last_Some_elem_of in E. assert (e ∈ l) as (Hc&Hch&_)%elem_of_changes by (apply (elem_of_split n); by left).
      destruct (si_entry _ Hi _ _ Hc) as [[_ ?] _]. by rewrite <- Hch.
    + by destruct (Hf after Hcur).
  - intros e He. assert (more = true) as Hm.
    { apply Hmore. fold l in He. destruct (decide (n < length l)); [done|]. rewrite drop_ge in He by lia.
      by apply not_elem_of_nil in He. }
    split; [done|]. unfold cursor'. rewrite Hm. fold l in He. destruct (last (take n l)) as [e'|] eqn:E; simpl.
    + apply last_Some_elem_of in E. destruct (split_keys change_before l n e' e) as [Hle Hne];
        [apply changes_sorted|apply changes_keys|done|done|]. unfold change_before in Hle. lia.
    + assert (e ∈ l) as (_&_&?)%elem_of_changes by (apply (elem_of_split n); by right). done.
Qed.

(** *** The newest messages *)

#[export] Instance newest_trans : Transitive newest.
Proof. intros a b c ??. unfold newest in *. lia. Qed.
#[export] Instance newest_total : Total newest.
Proof. intros a b. unfold newest. lia. Qed.

Definition top_rows (ch : Z) (p : Posts) : list (Z * message_row) :=
  merge_sort newest (filter (fun e : Z * message_row =>
    (ms_channel_id e.2 =? ch)%Z && bool_decide (ms_thread_root e.2 = None) = true) (map_to_list (ps_messages p))).

Lemma elem_of_top_rows ch p e :
  e ∈ top_rows ch p ↔ view ch e.1 p = Some e.2 ∧ ms_thread_root e.2 = None.
Proof.
  unfold top_rows. rewrite merge_sort_Permutation, list_elem_of_filter. destruct e as [id m].
  rewrite elem_of_map_to_list. unfold view. simpl. rewrite andb_true_iff, bool_decide_eq_true. split.
  - intros [[Hc Ht] Hm]. rewrite Hm. simpl. by rewrite Hc.
  - intros [Hv Ht]. destruct (ps_messages p !! id) as [x|]; simpl in Hv; [|done].
    destruct (ms_channel_id x =? ch)%Z eqn:E; [|done]. by injection Hv as ->.
Qed.

Lemma rows_newest_top ch u d n :
  (∀ id m, ps_messages (db_posts d) !! id = Some m → is_Some (db_users d !! ms_author m)) →
  ∃ f : Z * message_row → Message,
    (∀ e, msg_ID (f e) = e.1 ∧ copy_of_message (f e) = copy_of_row e.2) ∧
    rows_newest n (fun _ m => (ms_channel_id m =? ch)%Z && bool_decide (ms_thread_root m = None)) d =
      f <$> take n (top_rows ch (db_posts d)) ∧
    ∀ l : list Message, ids_of (hydrate u d <$> l) = msg_ID <$> l.
Proof.
  intros Ha.
  exists (fun e => {| msg_Poll := None; msg_Attachments := []; msg_Replayed := false; msg_ClientMessageID := "";
          msg_ID := e.1; msg_ChannelID := ms_channel_id e.2;
          msg_Author := mkMessageAuthorData (ms_author e.2) (from_option us_username "" (db_users d !! ms_author e.2));
          msg_Content := ms_content e.2; msg_CreatedAt := ms_created_at e.2; msg_EditedAt := ms_edited_at e.2;
          msg_Revision := ms_revision e.2; msg_Reply := None; msg_Forward := None; msg_ThreadRootID := None;
          msg_CommentCount := 0 |}).
  split_and!; [done| |].
  - unfold rows_newest. fold (top_rows ch (db_posts d)). rewrite fmap_take. f_equal. rewrite list_fmap_alt.
    assert (∀ e, e ∈ top_rows ch (db_posts d) → is_Some (db_users d !! ms_author e.2)) as Hl.
    { intros e [Hv _]%elem_of_top_rows. by eapply Ha, view_row. }
    revert Hl. generalize (top_rows ch (db_posts d)). intros l Hl. induction l as [|e l IH]; [done|]. simpl.
    destruct (Hl e) as [x Hx]; [by left|]. unfold message_of_row at 1, author_of. rewrite Hx. simpl.
    f_equal. apply IH. intros e' He'. apply Hl. by right.
  - intros l. unfold ids_of. rewrite <- list_fmap_compose. apply list_fmap_ext. intros i v _. simpl. apply hydrate_id.
Qed.

(** A reset page shows the channel as it is, from its oldest message on. *)
Lemma reset_page_mirrors ch u cursor d c :
  (∀ id m, ps_messages (db_posts d) !! id = Some m → is_Some (db_users d !! ms_author m)) →
  mirrors ch (db_posts d) (apply_page (reset_page ch u cursor d) c).
Proof.
  intros Ha. unfold reset_page, apply_page. simpl.
  destruct (rows_newest_top ch u d 51 Ha) as (f&Hf&->&Hids). 
  assert (0 < 50) as Hpos by lia. change 51 with (S 50). revert Hpos. generalize 50. intros n Hpos. set (l := top_rows ch (db_posts d)).
  rewrite <- fmap_take, take_take. replace (n `min` S n) with n by lia. set (t := take n l).
  assert (∀ id, id ∈ ids_of (hydrate u d <$> rev (f <$> t)) ↔ id ∈ t.*1) as Hin.
  { intros id. rewrite Hids, !list_elem_of_fmap. setoid_rewrite elem_of_rev. setoid_rewrite list_elem_of_fmap. split.
    - intros (v&->&e&->&He). exists e. by rewrite (proj1 (Hf e)).
    - intros (e&->&He). exists (f e). rewrite (proj1 (Hf e)). eauto. }
  assert (∀ id, (∃ m, (id, m) ∈ t ∧ put_messages (hydrate u d <$> rev (f <$> t)) ∅ !! id = Some (copy_of_row m)) ∨
    id ∉ t.*1 ∧ put_messages (hydrate u d <$> rev (f <$> t)) ∅ !! id = None) as Hat.
  { intros id. destruct (decide (id ∈ t.*1)) as [Hid|Hid].
    - left. pose proof Hid as ([id' m]&->&Hm)%list_elem_of_fmap. exists m. split; [done|].
      apply put_messages_in; [by apply Hin|]. intros v (w&->&Hw)%list_elem_of_fmap. rewrite hydrate_id, hydrate_copy.
      rewrite elem_of_rev in Hw. apply list_elem_of_fmap in Hw as (e&->&He).
      destruct (Hf e) as [-> ->]. simpl. intros E. 
      assert (∀ x, x ∈ t → view ch x.1 (db_posts d) = Some x.2) as Hv.
      { intros x Hx. apply elem_of_top_rows. apply (elem_of_split n). by left. }
      pose proof (Hv _ He) as H1. pose proof (Hv _ Hm) as H2. simpl in H2. rewrite E in H1. congruence.
    - right. split; [done|]. by rewrite put_messages_out, lookup_empty by by rewrite Hin. }
  split; simpl.
  - intros id k Hk. destruct (Hat id) as [(m&Hm&E)|[_ E]]; rewrite E in Hk; [|done]. injection Hk as <-.
    assert ((id, m) ∈ l) as [Hv _]%elem_of_top_rows by (apply (elem_of_split n); by left). simpl in Hv. by rewrite Hv.
  - intros id m Hv Ht Hk. assert ((id, m) ∈ l) as Hl by by apply elem_of_top_rows.
    destruct (Hat id) as [(m'&Hm'&E)|[Hn E]].
    + assert ((id, m') ∈ l) as [Hv' _]%elem_of_top_rows by (apply (elem_of_split n); by left). simpl in Hv'.
      rewrite E. congruence.
    + exfalso. apply (elem_of_split n) in Hl as [Hl|Hl]; [by apply Hn, (list_elem_of_fmap_2 fst _ _ Hl)|].
      unfold known_to in Hk. simpl in Hk. rewrite length_fmap, length_take in Hk.
      destruct (decide (n < length l)) as [Hlen|Hlen]; [|rewrite drop_ge in Hl by lia; by apply not_elem_of_nil in Hl].
      rewrite (proj2 (Nat.ltb_lt _ _)) in Hk by lia.
      destruct (last t) as [e|] eqn:El.
      * assert (head (hydrate u d <$> rev (f <$> t)) = Some (hydrate u d (f e))) as Hh.
        { apply last_Some in El as [t' ->]. rewrite fmap_app, rev_app_distr. done. }
        rewrite Hh in Hk. simpl in Hk. rewrite hydrate_id, (proj1 (Hf e)) in Hk.
        apply last_Some_elem_of in El. destruct (split_keys newest l n e (id, m)) as [Hle Hne]; [| |done|done|].
        -- apply StronglySorted_merge_sort; apply _.
        -- unfold l, top_rows. rewrite merge_sort_Permutation.
           eapply sublist_NoDup; [|apply fmap_sublist, sublist_filter]. apply NoDup_fst_map_to_list.
        -- unfold newest in Hle. simpl in *. lia.
      * apply last_None in El. apply (f_equal length) in El. unfold t in El. rewrite length_take in El. simpl in El.
        lia.
Qed.
End pages.
