(* ===== verification/ChannelProps.v ===== *)
(** * Channels: the theorems

    Access to channels as the database decides it and as the hub enforces it,
    instances on a concrete community with three channels, and the channels
    that cannot be deleted. *)

From S2P Require Import Prelude GoText Events Client VoiceState StreamState Hub HubInv HubSpecs HubOps HubReach HubRefresh HubSystem HubProps.
From S2P Require Import Tables Posts Store Accounts Members Invites StoreInv StoreKeep StoreSystem StoreFrames StoreRuns StoreProps Community CommunityProps.
From S2P Require Import Publishers Channels Roles ReadState Mentions Messages ChannelFacts.

Section theorems.
Context `{MapOrder, Platform}.

(** ** Access *)

(** C13: every place that decides whether a user may read a channel decides the
    same: the check of one channel, the guards of message and read-position
    requests, the listing of the channels of a server, the listing of the
    members of a channel, the policy of one user and the policies of many users
    loaded in batches of 500 all agree with the rules of the schema ([reads]). *)
Theorem every_access_check_agrees d now s ch u users :
  (checkAccess s ch u now d = None ↔ opens d now s ch u) ∧
  ((∃ x, requireMessageChannel s ch u now d = inr x) ↔ opens d now s ch u) ∧
  ((∃ x, requireMessageChannelMember s ch u now d = inr x) ↔ opens d now s ch u) ∧
  match channel_ListByServerID s u now d with
  | inr l => is_Some (db_members d !! (s, u)) ∧ ∀ c, c ∈ (fun i => chn_ID (ci_Channel i)) <$> l ↔ opens d now s c u
  | inl e => e = ErrChannelForbidden ∧ db_members d !! (s, u) = None
  end ∧
  match repo_ListMemberIDs s ch u now d with
  | inr l => opens d now s ch u ∧ ∀ v, v ∈ l ↔ opens d now s ch v
  | inl e => ¬ opens d now s ch u
  end ∧
  (∀ c, c ∈ AccessibleChannelIDs u now d ↔ reads d now c u) ∧
  (∀ v, AccessibleChannelIDsForUsers now d users !! v =
     if bool_decide (v ∈ users) then Some (AccessibleChannelIDs v now d) else None).
Proof.
  split_and!.
  - apply checkAccess_opens.
  - rewrite <- requireMessageChannel_opens. destruct (requireMessageChannel s ch u now d); [|naive_solver].
    split; [by intros []|by intros []].
  - rewrite <- requireMessageChannelMember_opens. destruct (requireMessageChannelMember s ch u now d); [|naive_solver].
    split; [by intros []|by intros []].
  - destruct (channel_ListByServerID s u now d) as [e|l] eqn:Hl.
    + unfold channel_ListByServerID in Hl. case_bool_decide as Hm; [done|]. apply eq_None_not_Some in Hm. naive_solver.
    + split; [|intros c; by apply ListByServerID_opens].
      unfold channel_ListByServerID in Hl. by case_bool_decide.
  - destruct (repo_ListMemberIDs s ch u now d) as [e|l] eqn:Hl.
    + rewrite <- checkAccess_opens. unfold repo_ListMemberIDs in Hl. by destruct (checkAccess _ _ _ _ _).
    + split; [|intros v; by eapply ListMemberIDs_opens].
      apply checkAccess_opens. unfold repo_ListMemberIDs in Hl. by destruct (checkAccess _ _ _ _ _).
  - intros c. apply AccessibleChannelIDs_reads.
  - intros v. apply AccessibleChannelIDsForUsers_spec.
Qed.

(** C15: a permission is held exactly when the member owns or administers the
    server, or has no custom role and it is not the management of messages, or
    one of the member's custom roles has it; a timeout suspends all of them but
    reading and managing messages. Joining voice needs a readable voice channel
    and the voice permission, streaming the stream permission as well, each
    checked on the database as it is at that moment. *)
Theorem permissions_exact d now now2 now3 others others' s ch u :
  (∀ bit, bit ∈ bits → Allowed d now s u bit = true ↔ permitted d now s u bit) ∧
  (repo_CheckVoiceAccess others s ch u now now2 d = None ↔
     opens d now s ch u ∧ (∃ c, db_channels d !! ch = Some c ∧ ch_voice c = true ∧ ch_news c = false) ∧
     permitted (others d) now2 s u Voice) ∧
  (repo_CheckStreamAccess others others' s ch u now now2 now3 d = None ↔
     repo_CheckVoiceAccess others s ch u now now2 d = None ∧ permitted (others' (others d)) now3 s u Stream).
Proof.
  split_and!.
  - intros bit Hb. by apply Allowed_spec.
  - unfold repo_CheckVoiceAccess, opens. destruct (find_channel s ch d) as [c|] eqn:Hc; [|naive_solver].
    pose proof Hc as [Hc' _]%find_channel_Some. rewrite Hc', <- is_accessible_spec, <- Allowed_spec by by repeat constructor.
    assert ((∃ c', Some c = Some c' ∧ ch_voice c' = true ∧ ch_news c' = false) ↔
      negb (String.eqb (public_kind c) KindVoice) = false) as ->.
    { unfold public_kind, stored_kind. split.
      - by intros (c'&[= <-]&-> & ->).
      - intros Hk. exists c. by destruct (ch_news c), (ch_voice c). }
    destruct (is_accessible d now ch u), (negb (String.eqb _ _)), (Allowed _ _ _ _ _); simpl; intuition eauto; done.
  - unfold repo_CheckStreamAccess. rewrite <- Allowed_spec by by repeat constructor.
    destruct (repo_CheckVoiceAccess _ _ _ _ _ _ _), (Allowed (others' (others d)) now3 s u Stream); naive_solver.
Qed.

(** ** Changing access *)

Lemma elem_of_Compact {A} `{EqDecision A} (l : list A) x : x ∈ Compact l ↔ x ∈ l.
Proof.
  induction l as [|a l IH]; [done|]. destruct l as [|b l]; [done|].
  cbn [Compact]. case_decide; [subst|]; rewrite ?elem_of_cons, IH, ?elem_of_cons; naive_solver.
Qed.

(** C14: when the access of a channel is changed, the requester was an owner or
    admin; afterwards that channel is read exactly by the members with the read
    permission for whom it is open, who manage the server, or who are granted
    it by name, by role or by a custom role, and every other channel by the
    same users as before. Once the hub has handled the request the service
    sends it, every connection of the server has exactly the policy of the
    database as it is then, and no subscription to a channel of that server
    and no voice seat outside it, whatever the other requests did meanwhile. *)
Theorem access_change_enforced d y others s ch u input value effects d' now :
  rtc sys_step init_system y →
  channels_SetAccess s ch u input d = (inr value, effects, d') →
  h_channelAccessBatchLoader (sy_hub y) = Some (fun us => Some (AccessibleChannelIDsForUsers now (others d') us)) →
  managed_by s u d ∧
  (∀ t w, reads d' t ch w ↔ ∃ m, db_members d !! (s, w) = Some m ∧ permitted d t s w Read ∧
     (ac_Restricted input = false ∨ manages (mb_role m) = true ∨ w ∈ ac_UserIDs input ∨
      role_name (mb_role m) ∈ ac_Roles input ∨
      ∃ r, (s, w, r) ∈ db_member_roles d ∧ (ch, r) ∈ db_custom_grants d)) ∧
  (∀ t c w, c ≠ ch → reads d' t c w ↔ reads d t c w) ∧
  wp (run_effects effects) (fun _ h' => ∀ k, k ∈ h_clients h' → s ∈ servers_of k h' →
    (∀ c, canAccessChannel (client_at k h') c = true ↔ reads (others d') now c (user_of k h')) ∧
    (∀ c, subs_of k h' !! c = Some s → reads (others d') now c (user_of k h')) ∧
    (∀ p, vs_byClient (h_voice h') !! k = Some p → reads (others d') now (vp_ChannelID p) (user_of k h')))
    (sy_hub y).
Proof.
  intros Hy Hs Hl. unfold channels_SetAccess in Hs. destruct (access_valid input); [|done].
  destruct (repo_SetAccess _ _ _ _ _) as [[e|v] d1] eqn:Hr; [done|]. injection Hs as <- <- <-.
  apply SetAccess_tables in Hr as [Ha Hm]. split_and!; [done| | |].
  - intros t w. rewrite (access_set_reads _ _ _ _ _ t ch w Ha), decide_True by done. simpl.
    by setoid_rewrite elem_of_Compact; setoid_rewrite merge_sort_Permutation.
  - intros t c w Hne. by rewrite (access_set_reads _ _ _ _ _ t c w Ha), decide_False.
  - unfold run_effects. simpl. wp_step. eapply wp_mono.
    { apply (RefreshChannelAccess_exact s (fun us => Some (AccessibleChannelIDsForUsers now (others d1) us)) (fun u => AccessibleChannelIDs u now (others d1)));
        [apply (yi_inv _ (reachable_inv y Hy))|exact Hl|].
      intros us. eexists. split; [done|]. intros w Hw. by rewrite AccessibleChannelIDsForUsers_spec, bool_decide_true. }
    intros [] h1 [_ Hf]. wp_step. intros k Hk Hsv. destruct (Hf k Hk Hsv) as [Hpol [Hsub Hseat]].
    assert (∀ c, canAccessChannel (client_at k h1) c = true ↔ reads (others d1) now c (user_of k h1)) as Hcan.
    { intros c. unfold canAccessChannel. rewrite Hpol, bool_decide_eq_true. apply AccessibleChannelIDs_reads. }
    split_and!; [done|intros c Hc; by apply Hcan, Hsub|intros p Hp; by apply Hcan, Hseat].
Qed.
End theorems.

(** ** A community with channels *)

#[local] Existing Instance key_order.
#[local] Existing Instance toy.

(** The owner 1 opens a general channel 1, a staff channel 2 and a voice
    channel 3. *)
Definition sample_channels : DB :=
  let d := (channels_Create 1 1 " general " "text" 200 sample_db).2 in
  let d := (channels_Create 1 1 "staff" "text" 201 d).2 in
  (channels_Create 1 1 "lounge" "voice" 202 d).2.

(** The staff channel is restricted to admins and user 3. *)
Definition staff_only : Access := mkAccess true [3; 3]%Z ["admin"].
Definition sample_restrict : Outcome ChannelError Access := channels_SetAccess 1 2 1 staff_only sample_channels.

(** User 2 is connected and follows the staff channel when it is restricted. *)
Definition channel_trace : list action :=
  [ AService (SvAccessBatchLoader (fun us => Some (AccessibleChannelIDsForUsers 210 sample_channels us)));
    AConnect 1%positive 2 "k1" [1]%Z; ARegister 1%positive;
    AClient 1%positive (RqSubscribe 1 1); AClient 1%positive (RqSubscribe 1 2) ].
Definition subscribed_system : System := default init_system (run channel_trace init_system).
Definition sample_loader (us : list Z) : option (gmap Z (gset Z)) :=
  Some (AccessibleChannelIDsForUsers 220 sample_restrict.2 us).
Definition channel_system : System :=
  mkSystem ((sy_hub subscribed_system) <| h_channelAccessBatchLoader := Some sample_loader |>)
    (sy_counter subscribed_system) (sy_accepted subscribed_system).

Lemma channel_system_reachable : rtc sys_step init_system channel_system.
Proof.
  assert (is_Some (run channel_trace init_system)) as [y Hy].
  { apply (bool_decide_unpack _). vm_compute. reflexivity. }
  assert (subscribed_system = y) as E by (unfold subscribed_system; by rewrite Hy).
  eapply rtc_r; [exact (run_reachable channel_trace init_system y Hy)|]. unfold channel_system. rewrite E.
  by eapply (sys_service y (SvAccessBatchLoader sample_loader)).
Qed.

Lemma access_change_enforced_witness :
  subs_of 1%positive (sy_hub channel_system) !! 2%Z = Some 1%Z ∧
  wp (run_effects [SvRefreshAccess 1]) (fun _ h' => ∀ k, k ∈ h_clients h' → user_of k h' = 2%Z → 1%Z ∈ servers_of k h' →
    subs_of k h' !! 2%Z ≠ Some 1%Z) (sy_hub channel_system).
Proof.
  split; [vm_compute; reflexivity|].
  destruct (access_change_enforced sample_channels channel_system id 1 2 1 staff_only
    (mkAccess true [3]%Z ["admin"]) [SvRefreshAccess 1] sample_restrict.2 220) as (_&_&_&Hw).
  - exact channel_system_reachable.
  - apply outcome_eq; vm_compute; reflexivity.
  - reflexivity.
  - eapply wp_mono; [exact Hw|]. intros [] h' Hh k Hk Hu Hs Hsub.
    destruct (Hh k Hk Hs) as (_&Hr&_). specialize (Hr _ Hsub). rewrite Hu in Hr.
    apply is_accessible_spec in Hr. vm_compute in Hr. discriminate Hr.
Defined.

Lemma permissions_exact_witness :
  repo_CheckVoiceAccess id 1 3 2 210 210 sample_channels = None ∧ permitted sample_channels 210 1 2 Stream.
Proof.
  destruct (permissions_exact sample_channels 210 210 210 id id 1 3 2) as (Ha&_&_).
  split; [vm_compute; reflexivity|]. apply Ha; [by repeat constructor|vm_compute; reflexivity].
Defined.
