(* ===== verification/SyncProps.v ===== *)
(** * Synchronisation: the theorems

    Any sequence of requests on messages interleaved with the polls of a client
    that follows a channel: what the client then has, and that it gets there. *)

From S2P Require Import Prelude GoText GoJson Events Client VoiceState StreamState Hub HubSystem.
From S2P Require Import Publishers Tables Posts Store Accounts Members Invites StoreInv StoreKeep StoreProps Community CommunityProps.
From S2P Require Import Channels Mentions Messages MessageService Journal SyncFacts SyncClient ChannelFacts ChannelProps.

(** ** Requests *)

(** The transactions that write messages, with their arguments in the order of
    the repository, one batch of pruning, the end of memberships, and [WOther]
    for transactions on other tables. *)
Inductive write :=
  | WSend (s ch u : Z) (input : MessageInput) (forward : option ForwardInput) (now1 now2 nanos now5 now6 now7 : Z)
  | WEdit (s ch id u : Z) (content : string) (now1 now2 now3 : Z)
  | WDelete (s ch id u now1 now2 now3 : Z)
  | WReact (s ch id u : Z) (emoji : string) (active : bool) (now1 now2 now3 : Z)
  | WPin (s ch id u now1 now2 now3 : Z)
  | WUnpin (s ch id u now1 now2 : Z)
  | WPrune (cutoff : Z)
  | WLeave (now : Z) (P : Z * Z → bool)
  | WOther (f : DB → DB).

Definition write_ok (w : write) : Prop :=
  match w with
  | WOther f => ∀ d, same_journal (db_posts d) (db_posts (f d)) ∧ ∀ u, known d u → known (f d) u
  | _ => True
  end.

Section sync.
Context `{MapOrder, Platform}.

Definition run_write (w : write) (d : DB) : DB :=
  match w with
  | WSend s ch u input forward n1 n2 nanos n5 n6 n7 => (CreateReferenced s ch u input forward n1 n2 nanos n5 n6 n7 d).2
  | WEdit s ch id u content n1 n2 n3 => (repo_Update s ch id u content n1 n2 n3 d).2
  | WDelete s ch id u n1 n2 n3 => (repo_Delete s ch id u n1 n2 n3 d).2
  | WReact s ch id u emoji active n1 n2 n3 => (repo_SetReaction s ch id u emoji active n1 n2 n3 d).2
  | WPin s ch id u n1 n2 n3 => (repo_Pin s ch id u n1 n2 n3 d).2
  | WUnpin s ch id u n1 n2 => (repo_Unpin s ch id u n1 n2 d).2
  | WPrune cutoff => d <| db_posts := (pruneChangeBatch cutoff (db_posts d)).2 |>
  | WLeave now P => delete_members now P d
  | WOther f => f d
  end.

Lemma prune_messages cutoff p : ps_messages (pruneChangeBatch cutoff p).2 = ps_messages p.
Proof.
  unfold pruneChangeBatch. simpl. generalize (range_entries (foldl (fun (floors : gmap Z Z) (e : Z * change_row) =>
    <[cg_channel_id e.2 := Z.max (default 0%Z (floors !! cg_channel_id e.2)) e.1]> floors) ∅ (prunable cutoff p))).
  intros l. revert p. induction l as [|e l IH]; intros p; simpl; [done|]. by rewrite IH.
Qed.

Lemma run_write_sound w d : write_ok w → sound_write d (run_write w d).
Proof.
  intros Hw. destruct w; cbn [run_write].
  - apply CreateReferenced_sound.
  - apply repo_Update_sound.
  - apply repo_Delete_sound.
  - apply repo_SetReaction_sound.
  - apply repo_Pin_sound.
  - apply repo_Unpin_sound.
  - apply sound_posts; [apply (pruneChangeBatch_logged cutoff)|]. intros Ha id m. rewrite prune_messages. apply Ha.
  - split; [apply (delete_member_posts_logged now)| |done]. intros Ha. exact (authored_unreact _ now _ _ Ha).
  - destruct (Hw d). by apply sound_same.
Qed.

(** ** Following a channel *)

Inductive event := EvWrite (w : write) | EvPoll (now : Z).
Definition event_ok (e : event) : Prop := match e with EvWrite w => write_ok w | EvPoll _ => True end.

Variables (s ch u : Z).

Definition poll (now : Z) (d : DB) (c : Mirror) : Mirror :=
  match messages_Sync s ch u (mr_cursor c) now d with inr page => apply_page page c | inl _ => c end.

Definition run_event (x : DB * Mirror) (e : event) : DB * Mirror :=
  match e with
  | EvWrite w => (run_write w x.1, x.2)
  | EvPoll now => (x.1, poll now x.1 x.2)
  end.
Definition run_events (l : list event) (x : DB * Mirror) : DB * Mirror := foldl run_event x l.

Definition sync_state (d : DB) : Prop := sync_inv (db_posts d) ∧ authored (known d) (db_posts d).

Lemma run_write_state w d : write_ok w → sync_state d → sync_state (run_write w d).
Proof.
  intros Hw [Hi Ha]. destruct (run_write_sound w d Hw) as [Hl Hau _]. split; [apply (jn_inv _ _ _ (Hl Hi))|by apply Hau].
Qed.

Lemma Sync_page now d c page :
  messages_Sync s ch u (mr_cursor c) now d = inr page → page = sync_page ch u (mr_cursor c) d.
Proof.
  unfold messages_Sync, repo_Sync. case_match; [done|]. intros Hr.
  destruct (atomically _ d) as [r d'] eqn:E. simpl in Hr. subst r. apply atomically_inr in E. tx_run.
  apply requireServerMember_inv in Hrun as [-> _]. by apply requireMessageChannel_inv in Hrun0 as [-> _].
Qed.

(** A page leaves the client following the channel; the last one of a series
    makes it a mirror. *)
Lemma page_follows d c :
  sync_state d → follows ch (db_posts d) c →
  let page := sync_page ch u (mr_cursor c) d in
  follows ch (db_posts d) (apply_page page c) ∧
  (sp_HasMore page = false → mirrors ch (db_posts d) (apply_page page c)).
Proof.
  intros [Hi Ha] Hf. unfold sync_page.
  assert (sy_cursor (default (mkSync 0 0) (ps_sync (db_posts d) !! ch)) = cursor_of ch (db_posts d)) as ->.
  { unfold cursor_of. by destruct (ps_sync (db_posts d) !! ch). }
  assert (sy_floor (default (mkSync 0 0) (ps_sync (db_posts d) !! ch)) = floor_of ch (db_posts d)) as ->.
  { unfold floor_of. by destruct (ps_sync (db_posts d) !! ch). }
  assert (let page := reset_page ch u (cursor_of ch (db_posts d)) d in
    follows ch (db_posts d) (apply_page page c) ∧
    (sp_HasMore page = false → mirrors ch (db_posts d) (apply_page page c))) as Hreset.
  { pose proof (reset_page_mirrors ch u (cursor_of ch (db_posts d)) d c Ha) as Hm. split; [|done].
    intros after [= <-]. split; [done|]. intros _. destruct Hm. split; [intros; left; auto|]. intros. left. auto. }
  destruct (mr_cursor c) as [after|] eqn:Hc; [|exact Hreset].
  destruct ((after <? floor_of ch (db_posts d))%Z || (cursor_of ch (db_posts d) <? after)%Z) eqn:Hr; [exact Hreset|].
  apply orb_false_iff in Hr as [Hr _]. apply Z.ltb_ge in Hr. by apply changes_page_ok.
Qed.

Lemma run_events_state l d c :
  Forall event_ok l → sync_state d → follows ch (db_posts d) c →
  sync_state (run_events l (d, c)).1 ∧ follows ch (db_posts (run_events l (d, c)).1) (run_events l (d, c)).2.
Proof.
  revert d c. induction l as [|e l IH]; intros d c Hl Hs Hf; [done|]. inversion_clear Hl as [|? ? He Hl'].
  destruct e as [w|now]; simpl.
  - apply IH; [done|by apply run_write_state|]. destruct (run_write_sound w d He) as [Hlog _ _].
    eapply follows_write; [apply Hs|exact Hlog|done].
  - apply IH; [done|done|]. unfold poll. destruct (messages_Sync _ _ _ _ _ _) as [e|page] eqn:Hp; [done|].
    apply Sync_page in Hp as ->. by apply page_follows.
Qed.

(** C12: a client that follows a channel by polling for the changes after the
    cursor of its last page ends with exactly the messages of the channel:
    after any sequence of messages sent, edited, deleted, forwarded, pinned and
    reacted to by anybody, of pruning of the journal and of polls in between,
    once a poll answers that there is no more, the client has no message that
    is not in the channel, every copy has the current content and revision,
    and no message outside threads is missing from where its last full page
    started. *)
Theorem sync_mirrors d0 l now page :
  sync_state d0 → Forall event_ok l →
  let d := (run_events l (d0, new_mirror)).1 in let c := (run_events l (d0, new_mirror)).2 in
  messages_Sync s ch u (mr_cursor c) now d = inr page → sp_HasMore page = false →
  mirrors ch (db_posts d) (apply_page page c).
Proof.
  intros Hs Hl d c ->%Sync_page Hm. destruct (run_events_state l d0 new_mirror Hl Hs (new_mirror_follows _ _)) as [Hs' Hf].
  by apply page_follows.
Qed.

(** Whether a poll is answered does not depend on its cursor. *)
Lemma Sync_answered now d after after' page :
  messages_Sync s ch u after now d = inr page → messages_Sync s ch u after' now d = inr (sync_page ch u after' d).
Proof.
  unfold messages_Sync, repo_Sync. case_match; [done|]. unfold atomically, mbind, Tx_bind.
  destruct (requireServerMember s u d) as [e|[a d1]] eqn:E1; [done|].
  apply requireServerMember_inv in E1 as [-> _].
  destruct (requireMessageChannel s ch u now d) as [e|[c d2]] eqn:E2; [done|].
  by apply requireMessageChannel_inv in E2 as [-> _].
Qed.

(** The entries a client has not seen. *)
Definition behind (d : DB) (c : Mirror) : nat :=
  from_option (fun after => length (changes_after ch after (db_posts d))) 0 (mr_cursor c).

(** A page that is not the last takes two hundred of them. *)
Lemma page_progress d c :
  let page := sync_page ch u (mr_cursor c) d in
  sp_HasMore page = true → behind d (apply_page page c) + syncPageSize <= behind d c.
Proof.
  unfold sync_page. destruct (mr_cursor c) as [after|] eqn:Hc; [|done]. case_match; [done|].
  unfold changes_page, apply_page, behind. rewrite Hc. simpl. generalize syncPageSize. intros n.
  set (l := changes_after ch after (db_posts d)).
  assert (take n (take (S n) l) = take n l) as -> by (rewrite take_take; f_equal; lia).
  intros Hm. rewrite Hm. apply Nat.ltb_lt in Hm. rewrite length_take in Hm.
  assert (∃ a, from_option fst after (last (take n l)) = a ∧ (after <= a)%Z ∧ ∀ e, e ∈ take n l → (e.1 <= a)%Z) as (a&->&Ha&Hmax).
  { destruct (last (take n l)) as [e|] eqn:El; simpl.
    - exists e.1. split; [done|]. pose proof (last_Some_elem_of _ _ El) as He. split.
      + assert (e ∈ l) as (_&_&?)%elem_of_changes by (apply (elem_of_split n); by left). lia.
      + intros e' He'. apply last_Some in El as [l' El]. pose proof (changes_sorted ch after (db_posts d)) as Hs. fold l in Hs.
        rewrite <- (take_drop n l) in Hs. apply StronglySorted_app_1_l in Hs. rewrite El in Hs, He'.
        apply elem_of_app in He' as [He'|Hx]; [|apply list_elem_of_singleton in Hx as ->; lia].
        apply (StronglySorted_app_1_elem_of _ l' [e] e' e Hs) in He'; [exact He'|by left].
    - exists after. split_and!; [done|lia|]. intros e He. apply last_None in El. rewrite El in He. by apply not_elem_of_nil in He. }
  assert (length (changes_after ch a (db_posts d)) <= length (drop n l)) as Hlen.
  { apply submseteq_length, NoDup_submseteq.
    - eapply NoDup_fmap_1, changes_keys.
    - intros e He. apply elem_of_changes in He as (Hce&Hch&Hlt).
      assert (e ∈ l) as [Ht|]%(elem_of_split n) by (apply elem_of_changes; split_and!; [done|done|lia]); [|done].
      specialize (Hmax e Ht). lia. }
  rewrite length_drop in Hlen. lia.
Qed.

(** C16: a client that keeps polling while nobody writes gets to the last page:
    a series of pages ends after at most one page per two hundred entries of
    the journal it has not seen, and the client is then a mirror of the channel. *)
Theorem sync_finishes d c now page0 :
  sync_state d → follows ch (db_posts d) c → messages_Sync s ch u (mr_cursor c) now d = inr page0 →
  ∃ n page, n * syncPageSize <= behind d c ∧
    messages_Sync s ch u (mr_cursor (Nat.iter n (poll now d) c)) now d = inr page ∧ sp_HasMore page = false ∧
    mirrors ch (db_posts d) (apply_page page (Nat.iter n (poll now d) c)).
Proof.
  intros Hs. remember (behind d c) as k eqn:Hk. assert (behind d c <= k) as Hle by lia. clear Hk.
  revert c page0 Hle. induction (lt_wf k) as [k _ IH]. intros c page0 Hle Hf Hp.
  pose proof (Sync_page _ _ _ _ Hp) as ->. destruct (page_follows d c Hs Hf) as [Hf' Hm].
  destruct (sp_HasMore (sync_page ch u (mr_cursor c) d)) eqn:Hmore.
  - pose proof (page_progress d c Hmore) as Hpr. set (c' := apply_page _ c) in *.
    assert (poll now d c = c') as Hpoll by (unfold poll; by rewrite Hp).
    destruct (IH (k - syncPageSize)) with (c := c') (page0 := sync_page ch u (mr_cursor c') d) as (n&page&Hn&Hr&Hh&Hmi).
    + unfold syncPageSize in *. lia.
    + lia.
    + done.
    + by eapply Sync_answered.
    + exists (S n), page. rewrite Nat.iter_succ_r, Hpoll. split_and!; try done. lia.
  - exists 0, (sync_page ch u (mr_cursor c) d). split_and!; [lia|done|done|by apply Hm].
Qed.
End sync.

(** ** A conversation *)

#[local] Existing Instance key_order.
#[local] Existing Instance toy.

Lemma empty_sync_state d : db_posts d = empty_posts → sync_state d.
Proof.
  assert (∀ A (m : gmap Z A) k x, m = ∅ → m !! k = Some x → False) as Hno.
  { intros A m k x ->. by rewrite lookup_empty. }
  intros E. unfold sync_state, authored. rewrite E. split; [|intros id m Hm; by apply Hno in Hm].
  split; simpl.
  - intros seq c Hc. by apply Hno in Hc.
  - intros ch. unfold cursor_of, floor_of. simpl. rewrite lookup_empty. simpl. lia.
  - lia.
  - intros id [m Hm]. by apply Hno in Hm.
  - intros seq c Hc. by apply Hno in Hc.
  - intros seq c m Hc. by apply Hno in Hc.
Qed.

Definition says (u : Z) (content : string) (reply : option Z) (t : Z) : event :=
  EvWrite (WSend 1 1 u (mkMessageInput None [] None content "" reply) None t t (t * 10 ^ 9) t t t).

(** User 2 follows channel 1: the owner greets, user 2 replies, the greeting is
    edited and reacted to, a third message comes and is deleted. *)
Definition sample_talk : list event :=
  [says 1 "hello" None 300; EvPoll 301; says 2 "hi" (Some 1%Z) 302;
   EvWrite (WEdit 1 1 1 1 "hello all" 303 303 303); EvWrite (WReact 1 1 1 3 "👍" true 304 304 304);
   EvPoll 305; says 3 "spam" None 306; EvPoll 307; EvWrite (WDelete 1 1 3 1 308 308 308); EvWrite (WPrune 301)].
Definition sample_follow : DB * Mirror := run_events 1 1 2 sample_talk (sample_channels, new_mirror).
Definition sample_answer : MessageError + SyncPage :=
  messages_Sync 1 1 2 (mr_cursor sample_follow.2) 310 sample_follow.1.
Definition sample_page : SyncPage :=
  match sample_answer with inr page => page | inl _ => mkSyncPage [] [] 0 false true false end.

Lemma sample_channels_state : sync_state sample_channels.
Proof. apply empty_sync_state. vm_compute. reflexivity. Qed.

(** The edit and the reaction, and the deletion, have reached the client. *)
Lemma sync_mirrors_witness :
  sp_Reset sample_page = false ∧ sp_DeletedIDs sample_page = [3]%Z ∧
  (cp_content <$> mr_copies (apply_page sample_page sample_follow.2) !! 1%Z) = Some "hello all" ∧
  mr_copies (apply_page sample_page sample_follow.2) !! 3%Z = None.
Proof.
  split; [vm_compute; reflexivity|]. split; [vm_compute; reflexivity|].
  destruct (sync_mirrors 1 1 2 sample_channels sample_talk 310 sample_page sample_channels_state) as [Hsound Hcomplete];
    [repeat constructor|vm_compute; reflexivity|vm_compute; reflexivity|].
  change (run_events 1 1 2 sample_talk (sample_channels, new_mirror)) with sample_follow in Hsound, Hcomplete.
  split.
  - destruct (mr_copies (apply_page sample_page sample_follow.2) !! 1%Z) as [k|] eqn:Hk.
    + apply Hsound in Hk. vm_compute in Hk. injection Hk as <-. reflexivity.
    + exfalso. destruct (view 1 1 (db_posts sample_follow.1)) as [m|] eqn:Hv; [|vm_compute in Hv; discriminate Hv].
      pose proof (Hcomplete 1%Z m Hv) as E. vm_compute in Hv. injection Hv as <-.
      specialize (E eq_refl I). congruence.
  - destruct (mr_copies _ !! 3%Z) as [k|] eqn:Hk; [|done]. apply Hsound in Hk. vm_compute in Hk. discriminate Hk.
Defined.

Lemma sample_follow_state :
  sync_state sample_follow.1 ∧ follows 1 (db_posts sample_follow.1) sample_follow.2.
Proof.
  unfold sample_follow. assert (Forall event_ok sample_talk) as Hok by repeat constructor.
  exact (run_events_state 1 1 2 sample_talk sample_channels new_mirror Hok sample_channels_state
    (new_mirror_follows 1 (db_posts sample_channels))).
Qed.

Lemma sync_finishes_witness :
  ∃ n page, messages_Sync 1 1 2 (mr_cursor (Nat.iter n (poll 1 1 2 310 sample_follow.1) sample_follow.2)) 310 sample_follow.1 = inr page ∧
    sp_HasMore page = false.
Proof.
  destruct (sync_finishes 1 1 2 sample_follow.1 sample_follow.2 310 sample_page) as (n&page&_&Hr&Hh&_).
  - apply sample_follow_state.
  - apply sample_follow_state.
  - vm_compute. reflexivity.
  - exists n, page. split; assumption.
Defined.
