(* ===== verification/MessageFacts.v ===== *)
(** * Messages: what a transaction did

    [kept] compares the messages and send keys of two states; every statement
    keeps them but for the rows it is about. A successful transaction of the
    repository comes down to the checks it passed and one statement. *)

From S2P Require Import Prelude GoText GoJson Events Publishers HubSystem Tables Posts Store Accounts Members StoreInv StoreKeep StoreProps.
From S2P Require Import Channels Mentions Messages Journal ChannelFacts SyncFacts SyncClient.

(** ** Rows that stay *)

(** What never changes of a message, and what only its author changes. *)
Definition same_message (m m' : message_row) : Prop :=
  ms_channel_id m' = ms_channel_id m ∧ ms_author m' = ms_author m ∧ ms_created_at m' = ms_created_at m ∧
  ms_forward m' = ms_forward m ∧ ms_thread_root m' = ms_thread_root m ∧ ms_reply_original m' = ms_reply_original m ∧
  (ms_revision m <= ms_revision m')%Z.
Definition same_content (m m' : message_row) : Prop :=
  ms_content m' = ms_content m ∧ ms_edited_at m' = ms_edited_at m.

#[export] Instance same_message_refl : Reflexive same_message.
Proof. intros m. by repeat split. Qed.
#[export] Instance same_message_trans : Transitive same_message.
Proof. intros a b c (?&?&?&?&?&?&?) (?&?&?&?&?&?&?). repeat split; (congruence || lia). Qed.
#[export] Instance same_content_refl : Reflexive same_content.
Proof. done. Qed.
#[export] Instance same_content_trans : Transitive same_content.
Proof. intros a b c [] []. split; congruence. Qed.

(** A send key keeps its request, and its message while there is one. *)
Definition key_kept (p p' : Posts) : Prop :=
  ∀ k r, ps_send_keys p !! k = Some r → ∃ r', ps_send_keys p' !! k = Some r' ∧
    sk_content_hash r' = sk_content_hash r ∧ sk_request_kind r' = sk_request_kind r ∧
    (sk_message_id r' = sk_message_id r ∨
     sk_message_id r' = None ∧ ∀ i, sk_message_id r = Some i → ps_messages p' !! i = None).
Lemma key_kept_same p p' : ps_send_keys p' = ps_send_keys p → key_kept p p'.
Proof. intros E k r Hr. exists r. rewrite E. auto. Qed.

Definition nothing (_ : Z) : Prop := False.

(** Only messages in [gone] are missing in [p'], only those in [changed] may
    have other content, only [new] ones have come. *)
Record kept (gone changed new : Z → Prop) (p p' : Posts) : Prop := {
  kp_row : ∀ id m, ps_messages p !! id = Some m →
    match ps_messages p' !! id with
    | Some m' => same_message m m' ∧ (changed id ∨ same_content m m')
    | None => gone id
    end;
  kp_new : ∀ id, ps_messages p !! id = None → is_Some (ps_messages p' !! id) → new id;
  kp_keys : key_kept p p'
}.

Lemma kept_same gone changed new p p' :
  ps_messages p' = ps_messages p → key_kept p p' → kept gone changed new p p'.
Proof.
  intros Em Ek. split; [| |done]; rewrite Em.
  - intros id m ->. split; [done|by right].
  - intros id ->. by intros [].
Qed.
Lemma kept_other gone changed new p p' :
  ps_messages p' = ps_messages p → ps_send_keys p' = ps_send_keys p → kept gone changed new p p'.
Proof. intros Em Ek. by apply kept_same, key_kept_same. Qed.
Lemma rows_kept_refl gone changed new p : kept gone changed new p p.
Proof. by apply kept_other. Qed.

Lemma rows_kept_trans gone changed new p1 p2 p3 :
  kept gone changed new p1 p2 → kept gone changed nothing p2 p3 → kept gone changed new p1 p3.
Proof.
  intros [R1 N1 K1] [R2 N2 K2]. split.
  - intros id m Hm. specialize (R1 _ _ Hm). destruct (ps_messages p2 !! id) as [m2|] eqn:H2.
    + specialize (R2 _ _ H2). destruct (ps_messages p3 !! id) as [m3|]; [|done].
      destruct R1 as [S1 C1], R2 as [S2 C2]. split; [by transitivity m2|].
      destruct C1, C2; auto. right. by transitivity m2.
    + destruct (ps_messages p3 !! id) eqn:H3; [|done]. destruct (N2 id H2). rewrite H3. eauto.
  - intros id Hm H3. apply N1; [done|]. destruct (ps_messages p2 !! id) eqn:H2; [eauto|]. by destruct (N2 id H2).
  - intros k r (r2&Hr2&Eh&Ek&Em)%K1. destruct (K2 _ _ Hr2) as (r3&?&?&?&Em').
    exists r3. split_and!; [done|congruence..|]. destruct Em as [<-|[En Ha]]; [done|].
    assert (sk_message_id r3 = None) as E3 by (destruct Em' as [|[? _]]; congruence).
    right. split; [done|]. intros i Hi. specialize (Ha _ Hi). apply eq_None_not_Some. by intros H3%N2.
Qed.

Lemma kept_weaken (gone gone' changed changed' new new' : Z → Prop) p p' :
  (∀ id, gone id → gone' id) → (∀ id, changed id → changed' id) → (∀ id, new id → new' id) →
  kept gone changed new p p' → kept gone' changed' new' p p'.
Proof.
  intros Hg Hc Hn [R N K]. split; [|by auto|done]. intros id m Hm. specialize (R _ _ Hm).
  destruct (ps_messages p' !! id); [|auto]. destruct R as [? []]; auto.
Qed.

Section statements.
Context `{MapOrder}.

(** Rewriting one row. *)
Lemma kept_put gone (changed : Z → Prop) new id m m' p :
  ps_messages p !! id = Some m → same_message m m' → (changed id ∨ same_content m m') →
  kept gone changed new p (p <| ps_messages ::= <[id := m']> |>).
Proof.
  intros Hm Hs Hc. split; simpl.
  - intros i x Hx. rewrite lookup_insert. case_decide; [subst i; simplify_eq; done|].
    rewrite Hx. split; [done|by right].
  - intros i Hi. rewrite lookup_insert_ne by congruence. rewrite Hi. by intros [].
  - by apply key_kept_same.
Qed.

Lemma kept_log gone changed new now ch id p p' :
  kept gone changed new p p' → kept gone changed new p (log_change now ch id p').
Proof. intros [R N K]. by split. Qed.

Lemma kept_revise gone changed new now f id p :
  (∀ m, same_message m (f m) ∧ same_content m (f m)) → kept gone changed new p (revise now f id p).
Proof.
  intros Hf. unfold revise. destruct (ps_messages p !! id) as [m|] eqn:Hm; [|apply rows_kept_refl].
  apply kept_log. apply (kept_put _ _ _ id m ((f m) <| ms_revision ::= Z.succ |>)); [done| |].
  - destruct (Hf m) as [(?&?&?&?&?&?&?) _]. repeat split; try done. simpl. lia.
  - right. apply Hf.
Qed.
Lemma kept_bump gone changed new now id p : kept gone changed new p (bump now id p).
Proof. by apply kept_revise. Qed.

Lemma kept_each {A} (f : A → Posts → Posts) gone changed l p :
  (∀ a p, a ∈ l → kept gone changed nothing p (f a p)) → kept gone changed nothing p (each f l p).
Proof.
  revert p. induction l as [|a l IH]; intros p Hf; [apply rows_kept_refl|].
  eapply rows_kept_trans; [apply (Hf a); by left|]. apply (IH (f a p)). intros. apply Hf. by right.
Qed.

(** *** The statements *)

Lemma insert_message_kept now ch author text content reply forward root p id p' :
  insert_message now ch author text content reply forward root p = inr (id, p') →
  sync_inv p → kept nothing nothing (eq id) p p' ∧ (ps_message_seq p < id)%Z ∧
    ∃ m', ps_messages p' !! id = Some m' ∧ ms_channel_id m' = ch ∧ ms_author m' = author ∧ ms_content m' = content ∧
      ms_thread_root m' = root ∧ ms_forward m' = forward ∧ ms_reply_to m' = reply.
Proof.
  unfold insert_message. intros Hins Hi. repeat (case_match; [done|]). simplify_eq.
  set (row := mkMessageRow _ _ _ _ _ _ _ _ _ _) in *. set (id := (ps_message_seq p + 1)%Z) in *.
  set (p1 := p <| ps_messages ::= _ |> <| ps_message_seq := _ |>) in *.
  assert (ps_messages p !! id = None) as Hno.
  { apply eq_None_not_Some. intros Hs%(si_fresh _ Hi). subst id. lia. }
  assert (kept nothing nothing (eq id) p p1) as K1.
  { split; simpl; [| |by apply key_kept_same].
    - intros i m Hm. rewrite lookup_insert_ne by congruence. rewrite Hm. split; [done|by right].
    - intros i Hm. rewrite lookup_insert. case_decide; [done|]. rewrite Hm. by intros []. }
  set (p2 := match root with Some r => bump now r p1 | None => p1 end).
  assert (kept nothing nothing nothing p1 p2) as K2 by (destruct root; [apply kept_bump|apply rows_kept_refl]).
  split_and!; [apply kept_log; by eapply rows_kept_trans|lia|].
  assert (ps_messages p1 !! id = Some row) as Hrow by (simpl; by rewrite lookup_insert_eq).
  change (∃ m', ps_messages p2 !! id = Some m' ∧ ms_channel_id m' = ch ∧ ms_author m' = author ∧ ms_content m' = content ∧
      ms_thread_root m' = root ∧ ms_forward m' = forward ∧ ms_reply_to m' = reply).
  pose proof (kp_row _ _ _ _ _ K2 _ _ Hrow) as Hr. destruct (ps_messages p2 !! id) as [m'|] eqn:Hm'; [|done].
  exists m'. destruct Hr as [(?&?&?&?&?&?&?) [[]|[? _]]]. split_and!; try done.
  subst p2. destruct root as [r|]; [|by simplify_eq]. unfold bump, revise in Hm'.
  destruct (ps_messages p1 !! r) as [x|] eqn:Hx; [|by simplify_eq]. simpl in Hm', Hx.
  rewrite lookup_insert in Hm'. case_decide; [subst r; simplify_eq|by rewrite lookup_insert_eq in Hm'; simplify_eq].
  rewrite lookup_insert_eq in Hx. by simplify_eq.
Qed.

Lemma edit_message_kept now id content p p' :
  edit_message now id content p = inr p' →
  kept nothing (eq id) nothing p p' ∧
  ∀ m', ps_messages p' !! id = Some m' → ms_content m' = content.
Proof.
  unfold edit_message. destruct (ps_messages p !! id) as [m|] eqn:Hm.
  - case_match; [done|]. intros [= <-].
    set (row := m <| ms_content := content |> <| ms_edited_at := Some now |> <| ms_revision ::= Z.succ |>).
    set (p1 := p <| ps_messages ::= <[id := row]> |>). set (p2 := if String.eqb _ _ then p1 else _).
    assert (∀ changed, kept nothing changed nothing p1 p2) as K2.
    { intros changed. subst p2. case_match; [apply rows_kept_refl|]. apply kept_each. intros. apply kept_bump. }
    split.
    + apply kept_log. eapply rows_kept_trans; [|exact (K2 (eq id))]. eapply kept_put; [done| |by left].
      repeat split. simpl. lia.
    + intros m' Hm'. pose proof (kp_row _ _ _ _ _ (K2 nothing) id row) as Hr. simpl in Hm'.
      rewrite Hm' in Hr. destruct Hr as [_ [[]|[-> _]]]; [|done]. simpl. by rewrite lookup_insert_eq.
  - intros [= <-]. split; [apply rows_kept_refl|]. by rewrite Hm.
Qed.

Lemma drop_message_kept (gone : Z → Prop) changed id p : gone id → kept gone changed nothing p (drop_message id p).
Proof.
  intros Hg. split.
  - intros i m Hm. simpl. rewrite lookup_delete. case_decide; [by subst|]. rewrite Hm. split; [done|by right].
  - intros i Hm. simpl. rewrite lookup_delete. case_decide; [by intros []|]. rewrite Hm. by intros [].
  - intros k r Hk. simpl. rewrite lookup_update_where, Hk. eexists. split; [done|]. case_bool_decide as Hd; simpl; [|auto].
    split_and!; [done..|]. right. split; [done|]. intros i Hi. rewrite Hi in Hd. simplify_eq. by rewrite lookup_delete_eq.
Qed.

Lemma delete_row_kept (gone : Z → Prop) changed comments live now id p :
  gone id → (∀ q, kept gone changed nothing p q → kept gone changed nothing q (comments id q)) →
  kept gone changed nothing p (delete_row comments live now id p).
Proof.
  intros Hg Hc. unfold delete_row. destruct (ps_messages p !! id) as [m|]; [|apply rows_kept_refl].
  set (p0 := if live then _ else p). set (p1 := drop_message id p0).
  assert (kept gone changed nothing p p1) as K1.
  { eapply rows_kept_trans; [|by apply drop_message_kept]. subst p0. destruct live; [apply kept_log|]; apply rows_kept_refl. }
  pose proof (Hc _ K1) as K2. set (p2 := comments id p1) in *. set (p3 := each _ _ p2).
  assert (kept gone changed nothing p2 p3) as K3.
  { apply kept_each. intros. apply kept_revise. intros x. by repeat split. }
  pose proof (rows_kept_trans _ _ _ _ _ _ K1 (rows_kept_trans _ _ _ _ _ _ K2 K3)) as K.
  destruct (ms_thread_root m); [|done]. eapply rows_kept_trans; [exact K|apply kept_bump].
Qed.

(** A message goes with its comments. *)
Definition goes_with (p : Posts) (id i : Z) : Prop :=
  i = id ∨ ∃ m, ps_messages p !! i = Some m ∧ ms_thread_root m = Some id.

Lemma delete_message_kept live now id p : kept (goes_with p id) nothing nothing p (delete_message live now id p).
Proof.
  apply delete_row_kept; [by left|]. intros q K. apply kept_each. intros i q' (m&Hm&Hr)%elem_of_keys_where.
  apply delete_row_kept; [|intros; apply rows_kept_refl]. right. unfold comments_on in Hr. apply bool_decide_eq_true in Hr.
  destruct (ps_messages p !! i) as [m0|] eqn:Hm0.
  - pose proof (kp_row _ _ _ _ _ K _ _ Hm0) as Hk. rewrite Hm in Hk. destruct Hk as [(_&_&_&_&Er&_) _].
    exists m0. split; [done|congruence].
  - destruct (kp_new _ _ _ _ _ K i Hm0). eauto.
Qed.

Lemma insert_reaction_kept now id ch s u emoji p n p' :
  insert_reaction now id ch s u emoji p = inr (n, p') → kept nothing nothing nothing p p'.
Proof.
  unfold insert_reaction. intros Hi. case_match; [done|]. case_match; [done|]. case_match; simplify_eq; [apply rows_kept_refl|].
  eapply rows_kept_trans; [|apply kept_bump]. by apply kept_other.
Qed.
Lemma delete_reactions_kept now P p : kept nothing nothing nothing p (delete_reactions now P p).2.
Proof.
  unfold delete_reactions. simpl. apply kept_each. intros k q _.
  eapply rows_kept_trans; [|apply kept_bump]. by apply kept_other.
Qed.
Lemma delete_member_posts_kept now P p : kept nothing nothing nothing p (delete_member_posts now P p).
Proof. eapply rows_kept_trans; [apply (delete_reactions_kept now)|by apply kept_other]. Qed.

Lemma prune_kept cutoff p : kept nothing nothing nothing p (pruneChangeBatch cutoff p).2.
Proof.
  unfold pruneChangeBatch. simpl. generalize (range_entries (foldl (fun (floors : gmap Z Z) (e : Z * change_row) =>
    <[cg_channel_id e.2 := Z.max (default 0%Z (floors !! cg_channel_id e.2)) e.1]> floors) ∅ (prunable cutoff p))).
  intros l. apply (kept_each (fun e => prune_channel e.1 e.2)). intros e q _. by apply kept_other.
Qed.
End statements.

(** ** Successful transactions

    The checks a successful transaction of the repository passed, in the terms
    of [ChannelFacts], and the one statement it came down to. *)

Section runs.
Context `{MapOrder, Platform}.

(** ** The checks *)

Lemma requireServerMemberWithRole_run s u d x d' :
  requireServerMemberWithRole s u d = inr (x, d') → d' = d ∧ known d u ∧
  ∃ m, db_members d !! (s, u) = Some m ∧ x.2 = mb_role m.
Proof.
  intros Hr. unfold requireServerMemberWithRole in Hr. tx_run. unfold known.
  destruct (db_members d !! (s, u)) as [m|] eqn:Hm; [simpl in *|done].
  destruct (db_users d !! u) as [x'|] eqn:Hu; [simpl in *|done]. simplify_eq. eauto 6.
Qed.

Lemma requireMessageChannel_run s ch u now d c d' :
  requireMessageChannel s ch u now d = inr (c, d') → d' = d ∧ find_channel s ch d = Some c ∧ opens d now s ch u.
Proof.
  intros Hr. pose proof (requireMessageChannel_inv _ _ _ _ _ _ _ Hr) as [-> Hc]. split_and!; [done..|].
  apply requireMessageChannel_opens. rewrite Hr. eauto.
Qed.

Lemma findMessage_run ch id d v d' :
  findMessage ch id d = inr (v, d') → d' = d ∧ msg_ID v = id ∧
  ∃ m, ps_messages (db_posts d) !! id = Some m ∧ ms_channel_id m = ch ∧ ma_UserID (msg_Author v) = ms_author m.
Proof.
  intros Hr. unfold findMessage in Hr. tx_run. destruct (ps_messages (db_posts d) !! id) as [m|] eqn:Hm; [simpl in *|done].
  destruct (Z.eqb_spec (ms_channel_id m) ch); [|done]. unfold message_of_row, author_of in Hrow. simpl in *.
  destruct (db_users d !! ms_author m); [simpl in *|done]. simplify_eq/=. eauto 6.
Qed.

(** The checks that need no more than a member of the channel succeed for one. *)
Lemma requireServerMember_ok s u d m x :
  db_members d !! (s, u) = Some m → db_users d !! u = Some x → requireServerMember s u d = inr (us_username x, d).
Proof.
  intros Hm Hu. unfold requireServerMember, requireServerMemberWithRole, row, mbind, Tx_bind. by rewrite Hm; simpl; rewrite Hu.
Qed.
Lemma requireMessageChannel_ok s ch u now d :
  opens d now s ch u → ∃ c, requireMessageChannel s ch u now d = inr (c, d).
Proof.
  intros Ho. apply requireMessageChannel_opens in Ho as [[c d'] Hc].
  destruct (requireMessageChannel s ch u now d) as [e|[c' d2]] eqn:E; simplify_eq.
  pose proof (requireMessageChannel_inv _ _ _ _ _ _ _ E) as [-> _]. eauto.
Qed.
Lemma findMessage_ok ch id d m :
  view ch id (db_posts d) = Some m → known d (ms_author m) → ∃ v, findMessage ch id d = inr (v, d) ∧ msg_ID v = id.
Proof.
  intros Hv [x Hx]. unfold view in Hv. unfold findMessage, row, message_of_row, author_of.
  destruct (ps_messages (db_posts d) !! id) as [m'|]; [simpl in *|done].
  destruct (ms_channel_id m' =? ch)%Z; [|done]. simplify_eq. simpl. rewrite Hx. simpl. eauto.
Qed.

(** ** Editing and deleting *)

Lemma Update_run s ch id u content n1 n2 n3 d v d' :
  repo_Update s ch id u content n1 n2 n3 d = (inr v, d') →
  opens d n1 s ch u ∧ permitted d n2 s u Publish_ ∧
  ∃ m p, view ch id (db_posts d) = Some m ∧ ms_author m = u ∧ ms_forward m = None ∧
    edit_message n3 id content (db_posts d) = inr p ∧ d' = d <| db_posts := p |>.
Proof.
  intros Hr%atomically_inr. tx_run.
  all: apply requireServerMember_inv in Hrun as [-> _]; apply requireMessageChannel_run in Hrun0 as (->&_&Ho).
  all: try match goal with Hn : requireNewsWrite _ _ _ _ = inr _ |- _ => apply requireNewsWrite_inv in Hn as -> end.
  all: match goal with Hx : on_posts _ _ = inr _ |- _ => apply on_posts_inv in Hx as (p&Hp&->) end.
  all: match goal with Hx : Allowed _ _ _ _ _ = true |- _ => apply Allowed_spec in Hx; [|set_solver] end.
  all: destruct (edit_message n3 id content (db_posts d)) eqn:He; [done|]; simplify_eq.
  all: match goal with Hx : negb (_ =? _)%Z = false |- _ => apply negb_false_iff, Z.eqb_eq in Hx end.
  all: match goal with Hx : bool_decide (_ = None) = true |- _ => apply bool_decide_eq_true in Hx end.
  all: split_and!; [done..|]; eexists _, _; unfold view; eauto.
Qed.

Lemma moderates_spec s u now d m :
  db_members d !! (s, u) = Some m →
  moderates s u now (mb_role m) d = true ↔ managed_by s u d ∨ permitted d now s u ManageMessages.
Proof.
  intros Hm. unfold moderates, managed_by, role_of. rewrite Hm, orb_true_iff, Allowed_spec by set_solver. simpl.
  assert (manages (mb_role m) = true ↔ Some (mb_role m) = Some RoleOwner ∨ Some (mb_role m) = Some RoleAdmin) as ->; [|done].
  unfold manages. destruct (mb_role m); simpl; intuition congruence.
Qed.

Lemma Delete_run s ch id u n1 n2 n3 d v d' :
  repo_Delete s ch id u n1 n2 n3 d = (inr v, d') →
  opens d n1 s ch u ∧
  (∃ m, view ch id (db_posts d) = Some m ∧ (ms_author m = u ∨ managed_by s u d ∨ permitted d n2 s u ManageMessages)) ∧
  db_posts d' = delete_message true n3 id (db_posts d).
Proof.
  intros Hr%atomically_inr. tx_run.
  all: apply requireServerMemberWithRole_run in Hrun as (->&_&r&Hm&Hrole).
  all: apply requireMessageChannel_run in Hrun0 as (->&_&Ho).
  all: apply findMessage_run in Hrun1 as (->&_&m&Hrow&Hch&Hau).
  all: match goal with Hx : posts_exec _ _ = inr _ |- _ => apply posts_exec_inv in Hx as -> end.
  all: rewrite Hau, Hrole, orb_true_iff, Z.eqb_eq, (moderates_spec s u n2 d r Hm) in Hreq.
  all: split_and!; [done|exists m; unfold view; rewrite Hrow; simpl; subst ch; by rewrite Z.eqb_refl|].
  - match goal with Hx : message_audit _ _ _ _ _ _ = inr _ |- _ => apply audit_tables in Hx as -> end. done.
  - done.
Qed.

Lemma SetReaction_kept s ch id u emoji active n1 n2 n3 d :
  kept nothing nothing nothing (db_posts d) (db_posts (repo_SetReaction s ch id u emoji active n1 n2 n3 d).2).
Proof.
  unfold repo_SetReaction. case_match; [apply rows_kept_refl|].
  destruct (atomically _ d) as [[e|v] d'] eqn:Hr; [apply atomically_inl in Hr as ->; apply rows_kept_refl|].
  apply atomically_inr in Hr. tx_run.
  all: apply requireInteraction_inv in Hrun as ->.
  all: match goal with Hx : on_posts _ _ = inr _ |- _ => apply on_posts_inv in Hx as (p&Hp&->) end.
  - by eapply insert_reaction_kept.
  - injection Hp as <- <-. apply (delete_reactions_kept n3).
Qed.

(** Pins are in a table of their own. *)
Lemma Pin_kept s ch id u n1 n2 n3 d :
  kept nothing nothing nothing (db_posts d) (db_posts (repo_Pin s ch id u n1 n2 n3 d).2).
Proof.
  destruct (repo_Pin s ch id u n1 n2 n3 d) as [[e|v] d'] eqn:Hr; [apply atomically_inl in Hr as ->; apply rows_kept_refl|].
  apply atomically_inr in Hr. tx_run.
  all: apply requireServerMemberWithRole_run in Hrun as (->&_).
  all: match goal with Hx : requireMessageChannel _ _ _ _ _ = inr _ |- _ => apply requireMessageChannel_inv in Hx as [-> _] end.
  all: match goal with Hx : findMessage _ _ _ = inr _ |- _ => apply findMessage_inv in Hx as -> end.
  all: try match goal with Hx : posts_exec _ _ = inr _ |- _ => apply posts_exec_inv in Hx as -> end.
  all: by apply kept_other.
Qed.
Lemma Unpin_kept s ch id u n1 n2 d :
  kept nothing nothing nothing (db_posts d) (db_posts (repo_Unpin s ch id u n1 n2 d).2).
Proof.
  destruct (repo_Unpin s ch id u n1 n2 d) as [[e|v] d'] eqn:Hr; [apply atomically_inl in Hr as ->; apply rows_kept_refl|].
  apply atomically_inr in Hr. tx_run.
  all: apply requireServerMemberWithRole_run in Hrun as (->&_).
  all: match goal with Hx : requireMessageChannel _ _ _ _ _ = inr _ |- _ => apply requireMessageChannel_inv in Hx as [-> _] end.
  all: match goal with Hx : findMessage _ _ _ = inr _ |- _ => apply findMessage_inv in Hx as -> end.
  all: match goal with Hx : posts_exec _ _ = inr _ |- _ => apply posts_exec_inv in Hx as -> end.
  all: by apply kept_other.
Qed.

(** ** Sending *)

(** Who may publish in a news channel. *)
Definition publisher (d : DB) (ch u : Z) : Prop :=
  ∃ c, db_channels d !! ch = Some c ∧ (managed_by (ch_server_id c) u d ∨ publishes ch u d = true).
(** In a news channel publishers post and everybody comments, if comments are on. *)
Definition news_ok (d : DB) (ch u : Z) (root : option Z) : Prop :=
  ∃ c, db_channels d !! ch = Some c ∧
    (ch_news c = true → match root with None => publisher d ch u | Some _ => ch_comments c = true end).

(** What a forwarded message says: a message its sender may read. *)
Definition copied (d : DB) (now u : Z) (f : ForwardInput) (content : string) : Prop :=
  if (0 <? fi_SourceConversationID f)%Z then
    ∃ m, ps_direct (db_posts d) !! fi_SourceMessageID f = Some m ∧ dm_conversation_id m = fi_SourceConversationID f ∧
      (fi_SourceConversationID f, u) ∈ ps_conversation_members (db_posts d) ∧ content = dm_content m
  else
    ∃ m, view (fi_SourceChannelID f) (fi_SourceMessageID f) (db_posts d) = Some m ∧
      opens d now (fi_SourceServerID f) (fi_SourceChannelID f) u ∧ content = ms_content m.

Lemma news_run ch u reply input d r d' root d2 :
  requireNewsWrite ch u reply d = inr (r, d') → thread_root ch input r d' = inr (root, d2) →
  d2 = d ∧ news_ok d ch u root.
Proof.
  intros Hn Ht. pose proof (requireNewsWrite_inv _ _ _ _ _ _ Hn) as ->. pose proof (thread_root_inv _ _ _ _ _ _ Ht) as ->.
  split; [done|]. unfold requireNewsWrite in Hn. tx_run. all: rename Hrow into Hc; exists x; split; [done|]; intros Hnews.
  all: try (by rewrite Hnews in *).
  all: unfold thread_root in Ht; tx_run.
  all: try done.
  all: try (unfold publisher; exists x; rewrite <- has_role_managed, <- orb_true_iff; by split).
  all: apply bind_Some in Hrow as (m&_&Hrow); rewrite Hc in Hrow; simpl in Hrow.
  all: rewrite Hnews in Hrow; destruct (ch_comments x); [done|]; by rewrite andb_false_r in Hrow.
Qed.

Lemma forwardSnapshot_run u f now d x d' :
  forwardSnapshot u f now d = inr (x, d') → d' = d ∧ copied d now u f x.1.
Proof.
  intros Hr. pose proof (forwardSnapshot_inv _ _ _ _ _ _ Hr) as ->. split; [done|].
  unfold forwardSnapshot in Hr. unfold copied. tx_run.
  - destruct (ps_direct (db_posts d) !! fi_SourceMessageID f) as [m|]; [simpl in Hrow|done].
    destruct (author_of d (dm_author m)); [simpl in Hrow|done].
    destruct (Z.eqb_spec (dm_conversation_id m) (fi_SourceConversationID f)); [|done].
    case_bool_decide; [|done]. simplify_eq/=. exists m. split_and!; congruence.
  - unfold requireInteraction in Hrun. tx_run. apply requireServerMember_inv in Hrun0 as [-> _].
    apply requireMessageChannel_run in Hrun1 as (->&_&Ho). simpl. unfold findMessage in Hrun. tx_run.
    unfold view. destruct (ps_messages (db_posts _) !! fi_SourceMessageID f) as [m|]; [simpl in *|done].
    destruct (ms_channel_id m =? fi_SourceChannelID f)%Z; [|done]. exists m. split_and!; [done..|].
    unfold message_of_row in Hrow. destruct (author_of _ _); [|done]. by simplify_eq/=.
Qed.

(** What is written along with a message leaves messages and send keys alone. *)
Definition aside (d d' : DB) : Prop :=
  ps_messages (db_posts d') = ps_messages (db_posts d) ∧ ps_send_keys (db_posts d') = ps_send_keys (db_posts d).
Lemma StorePoll_aside now id input d x d' : StorePoll now id input d = inr (x, d') → aside d d'.
Proof.
  intros Hr. unfold StorePoll in Hr. destruct input as [i|]; [|by tx_run].
  destruct (poll_Validate now i) as [e|i']; [done|]. apply posts_exec_inv in Hr as ->.
  unfold aside. simpl. unfold insert_poll. generalize (pi_Options i'). intros l.
  match goal with |- context [foldl _ ?p l] => assert (ps_messages p = ps_messages (db_posts d) ∧ ps_send_keys p = ps_send_keys (db_posts d)) as Hp by done; revert Hp; generalize p end.
  induction l as [|o l IH]; intros p0 Hp; simpl; [done|]. by apply IH.
Qed.
Lemma attach_aside ch u id ids d x d' : attach ch u id ids d = inr (x, d') → aside d d'.
Proof.
  revert d. induction ids as [|a ids IH]; intros d Hr; cbn [attach] in Hr; tx_run; [done|].
  apply posts_exec_inv in Hrun0 as ->. destruct (IH _ Hr) as [Em Ek]. split; [by rewrite Em|by rewrite Ek].
Qed.

Definition with_key (ch u : Z) (key hash : string) (kind : RequestKind) (id : Z) (p p' : Posts) : Prop :=
  if String.eqb key "" then ps_send_keys p' = ps_send_keys p
  else ps_send_keys p !! (ch, u, key) = None ∧
       ps_send_keys p' = <[(ch, u, key) := mkSendKey hash (Some id) kind]> (ps_send_keys p).

Lemma store_message_run ch author name input forward root hash kind n5 n6 n7 d full d' :
  store_message ch author name input forward root hash kind n5 n6 n7 d = inr (full, d') →
  ∃ content text reply fwd id p,
    insert_message n6 ch author text content reply fwd root (db_posts d) = inr (id, p) ∧
    ps_messages (db_posts d') = ps_messages p ∧
    with_key ch author (mi_ClientMessageID input) hash kind id p (db_posts d') ∧
    msg_ID (fm_Message full) = id ∧ msg_Replayed (fm_Message full) = false ∧
    match forward with None => content = mi_Content input | Some f => copied d n5 author f content end.
Proof.
  intros Hr. unfold store_message in Hr. tx_run.
  all: apply reply_target_inv in Hrun as ->.
  all: try match goal with Hf : forwardSnapshot _ _ _ _ = inr _ |- _ => apply forwardSnapshot_run in Hf as [-> Hcop] end.
  all: match goal with Hx : on_posts (insert_message _ _ _ _ _ _ _ _) _ = inr _ |- _ => apply on_posts_inv in Hx as (p&Hins&->) end.
  all: apply StorePoll_aside in Hrun3 as [Em1 Ek1]; apply attach_aside in Hrun5 as [Em2 Ek2].
  all: try match goal with Hk : on_posts (insert_send_key _ _ _ _ _ _) _ = inr _ |- _ =>
    apply on_posts_inv in Hk as (p'&Hk&->); unfold insert_send_key in Hk; case_match; [done|]; case_match; [done|]; simplify_eq end.
  all: eexists _, _, _, _, _, p; split_and!; [exact Hins| | |done|done|try done; try exact Hcop].
  all: simpl in *; try congruence.
  all: unfold with_key; simpl; repeat match goal with Hx : String.eqb _ _ = _ |- _ => rewrite Hx end; split || idtac; congruence.
Qed.

(** The transaction that sends a message found its send key in use and answered
    the message of that key, or stored a new message. *)
Definition replayed (ch u : Z) (key hash : string) (kind : RequestKind) (full : FullMessage) (d d' : DB) : Prop :=
  d' = d ∧ key ≠ "" ∧ is_Some (view ch (msg_ID (fm_Message full)) (db_posts d)) ∧ msg_Replayed (fm_Message full) = true ∧
  ps_send_keys (db_posts d) !! (ch, u, key) = Some (mkSendKey hash (Some (msg_ID (fm_Message full))) kind).
Definition stored (s ch u : Z) (input : MessageInput) (forward : option ForwardInput) (hash : string) (kind : RequestKind)
    (n2 nanos n5 n6 : Z) (full : FullMessage) (d d' : DB) : Prop :=
  permitted d n2 s u Publish_ ∧ checkSlowmode s ch u nanos d = 0%Z ∧
  ∃ content text reply fwd root p,
    news_ok d ch u root ∧
    insert_message n6 ch u text content reply fwd root (db_posts d) = inr (msg_ID (fm_Message full), p) ∧
    ps_messages (db_posts d') = ps_messages p ∧
    with_key ch u (mi_ClientMessageID input) hash kind (msg_ID (fm_Message full)) p (db_posts d') ∧
    msg_Replayed (fm_Message full) = false ∧
    match forward with None => content = mi_Content input | Some f => copied d n5 u f content end.

Lemma slowmode_nonneg s ch u nanos d : (0 <= checkSlowmode s ch u nanos d)%Z.
Proof. unfold checkSlowmode. repeat case_match; lia. Qed.

Lemma Create_run s ch u input forward n1 n2 nanos n5 n6 n7 d full d' :
  CreateReferenced s ch u input forward n1 n2 nanos n5 n6 n7 d = (inr full, d') →
  opens d n1 s ch u ∧
  let '(kind, hash) := requestHash input forward in
  replayed ch u (mi_ClientMessageID input) hash kind full d d' ∨
  stored s ch u input forward hash kind n2 nanos n5 n6 full d d'.
Proof.
  unfold CreateReferenced. destruct (requestHash input forward) as [kind hash]. intros Hr%atomically_inr. tx_run.
  all: apply requireServerMember_inv in Hrun as [-> _]; apply requireMessageChannel_run in Hrun0 as (->&_&Ho).
  all: split; [done|].
  - left. pose proof (replay_inv _ _ _ _ _ _ _ _ _ Hr) as ->. unfold replay in Hr. tx_run.
    apply findMessage_run in Hrun as (_&Eid&m&Hm&Hch&_).
    match goal with Hx : _ && _ = true |- _ => apply andb_true_iff in Hx as [Eh%String.eqb_eq Ek%bool_decide_eq_true] end.
    destruct s0 as [h mid k]. simpl in *. subst.
    destruct (String.eqb_spec (mi_ClientMessageID input) ""); [done|].
    split_and!; [done..| |done|]; simpl; rewrite hydrate_id; [|done].
    exists m. unfold view. rewrite Hm. simpl. by rewrite Z.eqb_refl.
  - right. pose proof (requireNewsWrite_inv _ _ _ _ _ _ Hrun1) as ->.
    destruct (news_run _ _ _ _ _ _ _ _ _ Hrun1 Hrun6) as [-> Hnews].
    apply store_message_run in Hr as (content&text&reply&fwd&id&p&Hins&Em&Hk&Eid&Erep&Hcon).
    apply Allowed_spec in Hreq0; [|set_solver]. pose proof (slowmode_nonneg s ch u nanos d). rewrite <- Eid in Hins, Hk.
    split_and!; [done|lia|]. by exists content, text, reply, fwd, x6, p.
Qed.
Lemma Create_refused s ch u input forward n1 n2 nanos n5 n6 n7 d e d' :
  CreateReferenced s ch u input forward n1 n2 nanos n5 n6 n7 d = (inl e, d') → d' = d.
Proof. unfold CreateReferenced. destruct (requestHash input forward). apply atomically_inl. Qed.
(** A send key in use is answered from its row. *)
Lemma Create_used s ch u input forward n1 n2 nanos n5 n6 n7 d k :
  opens d n1 s ch u → known d u → mi_ClientMessageID input ≠ "" →
  ps_send_keys (db_posts d) !! (ch, u, mi_ClientMessageID input) = Some k →
  CreateReferenced s ch u input forward n1 n2 nanos n5 n6 n7 d =
    let '(kind, hash) := requestHash input forward in atomically (replay ch u (mi_ClientMessageID input) hash kind k) d.
Proof.
  intros Ho [x Hx] Hne Hk. unfold CreateReferenced. destruct (requestHash input forward) as [kind hash].
  pose proof Ho as [[c [Hc Hs]%find_channel_Some] (c'&m&Hc'&Hm&_)]. simplify_eq.
  destruct (requireMessageChannel_ok _ _ _ _ _ Ho) as [c0 Hch].
  unfold atomically, mbind, Tx_bind. rewrite (requireServerMember_ok _ _ _ _ _ Hm Hx), Hch. unfold query.
  apply String.eqb_neq in Hne. by rewrite Hne, Hk.
Qed.

Lemma replay_outcome ch u key hash kind k i d :
  (sk_message_id k = Some i ∨ sk_message_id k = None ∧ view ch i (db_posts d) = None) →
  authored (known d) (db_posts d) →
  match atomically (replay ch u key hash kind k) d with
  | (inr full, d') => d' = d ∧ (kind, hash) = (sk_request_kind k, sk_content_hash k) ∧
      msg_ID (fm_Message full) = i ∧ msg_Replayed (fm_Message full) = true
  | (inl e, d') => d' = d ∧
      ((kind, hash) ≠ (sk_request_kind k, sk_content_hash k) ∧ e = ErrIdempotencyConflict ∨
       (kind, hash) = (sk_request_kind k, sk_content_hash k) ∧ view ch i (db_posts d) = None ∧ e = ErrMessageNotFound)
  end.
Proof.
  intros Hi Ha. unfold replay.
  destruct (decide ((kind, hash) = (sk_request_kind k, sk_content_hash k))) as [Eq|Ne].
  - injection Eq as -> ->. rewrite String.eqb_refl, bool_decide_true by done.
    unfold atomically, require, query, mbind, Tx_bind, mret, Tx_ret. simpl.
    destruct Hi as [->|[-> Hv]]; [|simpl; split; [done|by right]].
    destruct (view ch i (db_posts d)) as [m|] eqn:Hv.
    + assert (known d (ms_author m)) as Hk.
      { unfold view in Hv. destruct (ps_messages (db_posts d) !! i) as [m'|] eqn:Hm; [simpl in Hv|done].
        case_match; simplify_eq. by eapply Ha. }
      destruct (findMessage_ok _ _ _ _ Hv Hk) as (v&->&Hid). simpl. by rewrite hydrate_id.
    + unfold findMessage, row. unfold view in Hv. destruct (ps_messages (db_posts d) !! i); simpl in *.
      * case_match; [done|]. split; [done|by right].
      * split; [done|by right].
  - assert (String.eqb (sk_content_hash k) hash && bool_decide (sk_request_kind k = kind) = false) as ->.
    { apply andb_false_iff. destruct (String.eqb_spec (sk_content_hash k) hash); [right|by left].
      apply bool_decide_eq_false. congruence. }
    simpl. split; [done|by left].
Qed.
End runs.
