(* ===== verification/Deletion.v ===== *)
(** * Deleting a channel that holds a reply

    The cascade of a deleted channel removes its messages one by one. When a
    message goes before a reply to it, the reply is revised, and the revision
    is written to a journal that nothing clears any more. *)

From S2P Require Import Prelude GoText Events Tables Posts.

Section cascade.
Context `{MapOrder}.
Variables (now ch a b : Z).

(** The journal has an entry of the channel. *)
Definition entered (p : Posts) : Prop :=
  ∃ seq c, (seq <= ps_change_seq p)%Z ∧ ps_changes p !! seq = Some c ∧ cg_channel_id c = ch.
(** The reply [b] to [a] is still there. *)
Definition waits (p : Posts) : Prop :=
  ∃ m, ps_messages p !! b = Some m ∧ ms_channel_id m = ch ∧ ms_reply_to m = Some a ∧ ms_thread_root m = None.
Definition pending (p : Posts) : Prop := entered p ∨ waits p.
Definition blocked (p : Posts) : Prop := entered p ∨ waits p ∧ is_Some (ps_messages p !! a).

Lemma blocked_pending p : blocked p → pending p.
Proof. unfold blocked, pending. tauto. Qed.

(** ** The journal only grows *)

Lemma log_entered n c i p : entered p → entered (log_change n c i p).
Proof.
  intros (seq&e&Hs&He&Hc). exists seq, e. simpl. split_and!; [lia| |done]. rewrite lookup_insert_ne by lia. done.
Qed.
Lemma revise_entered f id p : entered p → entered (revise now f id p).
Proof.
  intros Hp. unfold revise. destruct (ps_messages p !! id); [|done]. by apply log_entered.
Qed.
Lemma each_entered {A} (f : A → Posts → Posts) l p :
  (∀ x q, entered q → entered (f x q)) → entered p → entered (each f l p).
Proof. intros Hf. revert p. induction l as [|x l IH]; intros p Hp; [done|]. by apply IH, Hf. Qed.
Lemma delete_row_entered comments live id p :
  (∀ q, entered q → entered (comments id q)) → entered p → entered (delete_row comments live now id p).
Proof.
  intros Hc Hp. unfold delete_row. destruct (ps_messages p !! id) as [m|]; [|done].
  assert (entered (drop_message id (if live then log_change now (ms_channel_id m) id p else p))) as Hd
    by (destruct live; [by apply (log_entered now (ms_channel_id m) id)|done]).
  set (q := each _ _ _). assert (entered q) as Hq by (apply each_entered; [by intros; apply revise_entered|by apply Hc]).
  destruct (ms_thread_root m); [by apply revise_entered|done].
Qed.
Lemma delete_message_entered live id p : entered p → entered (delete_message live now id p).
Proof.
  apply delete_row_entered. intros q. apply each_entered. intros x r. by apply delete_row_entered.
Qed.

(** ** Revisions *)

Lemma revise_waits f id p : id ≠ b → waits p → waits (revise now f id p).
Proof.
  intros Hne (m&Hm&Hw). unfold revise. destruct (ps_messages p !! id); [|by exists m].
  exists m. split; [|done]. simpl. by rewrite lookup_insert_ne.
Qed.
Lemma revise_reply f p : waits p → entered (revise now f b p).
Proof.
  intros (m&Hm&Hch&_). unfold revise. rewrite Hm. exists (ps_change_seq p + 1)%Z, (mkChange ch b now). rewrite Hch. simpl.
  split_and!; [lia|by rewrite lookup_insert_eq|done].
Qed.
Lemma revise_pending f id p : pending p → pending (revise now f id p).
Proof.
  intros [He|Hw]; [left; by apply revise_entered|]. destruct (decide (id = b)) as [->|Hne].
  - left. by apply revise_reply.
  - right. by apply revise_waits.
Qed.
Lemma revise_present f id i p : is_Some (ps_messages p !! i) → is_Some (ps_messages (revise now f id p) !! i).
Proof.
  intros Hi. unfold revise. destruct (ps_messages p !! id); [|done]. simpl. rewrite lookup_insert_is_Some.
  destruct (decide (id = i)); auto.
Qed.
Lemma revise_blocked f id p : blocked p → blocked (revise now f id p).
Proof.
  intros [He|[Hw Ha]]; [left; by apply revise_entered|].
  destruct (revise_pending f id p) as [?|?]; [by right|by left|]. right. split; [done|by apply revise_present].
Qed.

Lemma each_invariant {A} (I : Posts → Prop) (f : A → Posts → Posts) l p :
  (∀ x q, x ∈ l → I q → I (f x q)) → I p → I (each f l p).
Proof.
  revert p. induction l as [|x l IH]; intros p Hf Hp; [done|]. apply IH; [|by apply Hf; [left|]].
  intros. apply Hf; [by right|done].
Qed.
Lemma each_reply f l p : b ∈ l → pending p → entered (each (revise now f) l p).
Proof.
  revert p. induction l as [|x l IH]; intros p; [by intros ?%elem_of_nil|]. intros [<-|Hin]%elem_of_cons Hp.
  - change (entered (each (revise now f) l (revise now f b p))). apply each_entered; [by intros; apply revise_entered|].
    destruct Hp; [by apply revise_entered|by apply revise_reply].
  - apply IH; [done|by apply revise_pending].
Qed.

(** ** Deletions *)

Lemma drop_pending id p : id ≠ b → pending p → pending (drop_message id p).
Proof.
  intros Hne [He|(m&Hm&Hw)]; [by left|]. right. exists m. split; [|done]. simpl. by rewrite lookup_delete_ne.
Qed.

Lemma delete_row_pending comments id p :
  id ≠ b → (∀ q, pending q → pending (comments id q)) → pending p → pending (delete_row comments false now id p).
Proof.
  intros Hne Hc Hp. unfold delete_row. destruct (ps_messages p !! id) as [m|]; [|done].
  set (q := each _ _ _). assert (pending q) as Hq.
  { apply each_invariant; [intros; by apply revise_pending|]. by apply Hc, drop_pending. }
  destruct (ms_thread_root m); [by apply revise_pending|done].
Qed.

(** The message goes before its reply. *)
Lemma delete_target comments p :
  a ≠ b → (∀ q, pending q → pending (comments a q)) → blocked p → entered (delete_row comments false now a p) ∨
  entered p.
Proof.
  intros Hne Hc [He|[Hw [ma Ha]]]; [by right|left]. unfold delete_row. rewrite Ha.
  set (p1 := comments a _). assert (pending p1) as Hp1 by (apply Hc, drop_pending; [done|by right]).
  set (q := each _ _ p1). assert (entered q) as Hq.
  { destruct Hp1 as [He|(m&Hm&?&Hr&?)]; [by apply each_entered; [intros; apply revise_entered|]|].
    apply each_reply; [|right; by exists m]. apply elem_of_keys_where. exists m. split; [done|].
    unfold replies_to. by rewrite bool_decide_true. }
  destruct (ms_thread_root ma); [by apply revise_entered|done].
Qed.

Lemma delete_row_blocked comments id p :
  a ≠ b → id ≠ b → (∀ q, entered q → entered (comments id q)) → (∀ q, pending q → pending (comments id q)) →
  (∀ q, blocked q → blocked (comments id q)) → blocked p → blocked (delete_row comments false now id p).
Proof.
  intros Hab Hne He Hc Hb Hp. destruct (decide (id = a)) as [->|Hna].
  { left. destruct (delete_target comments p Hab Hc Hp); [done|by apply delete_row_entered]. }
  unfold delete_row. destruct (ps_messages p !! id) as [m|]; [|done].
  set (q := each _ _ _). assert (blocked q) as Hq.
  { apply each_invariant; [intros; by apply revise_blocked|]. apply Hb.
    destruct Hp as [?|[(x&Hx&Hw) Ha]]; [by left|right]. unfold waits. simpl.
    rewrite !lookup_delete_ne by done. eauto. }
  destruct (ms_thread_root m); [by apply revise_blocked|done].
Qed.

(** The reply is not a comment, so no thread takes it along. *)
Lemma comments_invariant (I : Posts → Prop) (id : Z) (p : Posts) :
  (∀ q, entered q → I q) → (∀ q, I q → pending q) →
  (∀ i q, i ≠ b → I q → I (delete_row (fun _ q => q) false now i q)) →
  I p → I (each (delete_row (fun _ q => q) false now) (keys_where (comments_on id) (ps_messages p)) p).
Proof.
  intros He Hp Hd HI. destruct (Hp p HI) as [Hent|(m&Hm&_&_&Hroot)].
  - apply He, each_entered; [|done]. intros. by apply delete_row_entered.
  - apply each_invariant; [|done]. intros i q (x&Hx&Hc)%elem_of_keys_where. apply Hd. intros ->.
    unfold comments_on in Hc. apply bool_decide_eq_true in Hc. congruence.
Qed.

Lemma delete_message_blocked id p : a ≠ b → id ≠ b → blocked p → blocked (delete_message false now id p).
Proof.
  intros Hab Hne. apply delete_row_blocked; [done..| | |]; intros q.
  - apply each_entered. intros. by apply delete_row_entered.
  - apply comments_invariant; [by left|done|]. intros. by apply delete_row_pending.
  - apply comments_invariant; [by left|apply blocked_pending|]. intros. by apply delete_row_blocked.
Qed.

Lemma delete_target_message p : a ≠ b → blocked p → entered (delete_message false now a p).
Proof.
  intros Hab Hp. unfold delete_message.
  match goal with |- entered (delete_row ?c _ _ _ _) => destruct (delete_target c p Hab) as [?|Hent] end; [|done|done|].
  - intros q. apply comments_invariant; [by left|done|]. intros. by apply delete_row_pending.
  - by apply (delete_message_entered false).
Qed.

Lemma cascade_enters l1 l2 p :
  a ≠ b → b ∉ l1 → blocked p → entered (each (delete_message false now) (l1 ++ a :: l2) p).
Proof.
  intros Hab Hb Hp. unfold each. rewrite foldl_app. simpl. apply (each_entered (delete_message false now)).
  { intros. by apply delete_message_entered. }
  apply delete_target_message; [done|]. apply (each_invariant blocked (delete_message false now)); [|done].
  intros x q Hx. apply delete_message_blocked; [done|]. by intros ->.
Qed.

Lemma entered_exists p : entered p → row_exists (fun _ c => (cg_channel_id c =? ch)%Z) (ps_changes p) = true.
Proof.
  intros (seq&c&_&Hc&Hch). apply row_exists_true. exists seq, c. split; [done|]. by apply Z.eqb_eq.
Qed.
End cascade.

Section channel.
Context `{MapOrder}.

(** The messages of the channel in the order in which the cascade takes them. *)
Definition cascade (now ch : Z) (p : Posts) : list Z :=
  keys_where (fun _ m => (ms_channel_id m =? ch)%Z)
    (ps_messages (delete_reactions now (fun _ r => (rc_channel_id r =? ch)%Z) p).2).

Definition visited_first (a b : Z) (l : list Z) : Prop := ∃ l1 l2, l = l1 ++ a :: l2 ∧ b ∉ l1.

Lemma delete_channel_blocked now ch a b p :
  a ≠ b → waits ch a b p → is_Some (ps_messages p !! a) → visited_first a b (cascade now ch p) →
  delete_channel_posts now ch p = inl ForeignKey.
Proof.
  intros Hab Hw Ha (l1&l2&El&Hb). unfold delete_channel_posts. unfold cascade in El.
  set (p1 := (delete_reactions now (fun _ r => (rc_channel_id r =? ch)%Z) p).2) in *.
  assert (waits ch a b p1 ∧ is_Some (ps_messages p1 !! a)) as [Hw1 Ha1].
  { unfold p1, delete_reactions. simpl. apply (each_invariant (fun q => waits ch a b q ∧ is_Some (ps_messages q !! a))); [|done].
    intros k q _ [(m&Hm&Hw') Ha']. split; [|by apply revise_present]. unfold bump, revise. simpl.
    destruct (ps_messages q !! k.1.1) as [x|] eqn:Hx; [|by exists m].
    destruct (decide (k.1.1 = b)) as [Hk|Hk].
    - exists (x <| ms_revision ::= Z.succ |>). simpl. rewrite Hk, lookup_insert_eq. split; [done|]. rewrite Hk in Hx.
      by simplify_eq.
    - exists m. simpl. by rewrite lookup_insert_ne. }
  cbv zeta. simpl ps_messages. rewrite El. rewrite entered_exists; [done|]. apply (cascade_enters now ch a b); [done..|by right].
Qed.
End channel.
