(* ===== verification/MessageProps.v ===== *)
(** * Messages: the theorems

    What requests may do to the messages of a channel, what happens to a
    request that is sent twice, and the channels that cannot be deleted. *)

From S2P Require Import Prelude GoText GoJson Events Publishers HubSystem Tables Posts Store Accounts Members Invites StoreInv StoreKeep StoreProps Community CommunityProps.
From S2P Require Import Channels Mentions Messages MessageService Journal ChannelFacts SyncFacts SyncClient ChannelProps SyncProps MessageFacts Deletion.

Section theorems.
Context `{MapOrder, Platform}.

(** ** What a request may do *)

(** A transaction on messages, and not [WOther]. *)
Definition on_messages (w : write) : Prop := match w with WOther _ => False | _ => True end.

(** Why the row of a message is what it is after a transaction. *)
Definition justified (d : DB) (w : write) (id : Z) (before after : option message_row) : Prop :=
  match before, after with
  | None, None => True
  | Some m, Some m' => same_message m m' ∧
      (same_content m m' ∨
       ∃ s ch u content n1 n2 n3, w = WEdit s ch id u content n1 n2 n3 ∧ ms_channel_id m = ch ∧ ms_author m = u ∧
         ms_forward m = None ∧ opens d n1 s ch u ∧ permitted d n2 s u Publish_ ∧ ms_content m' = content)
  | Some m, None => ∃ s ch i u n1 n2 n3 t, w = WDelete s ch i u n1 n2 n3 ∧ (id = i ∨ ms_thread_root m = Some i) ∧
      view ch i (db_posts d) = Some t ∧ opens d n1 s ch u ∧
      (ms_author t = u ∨ managed_by s u d ∨ permitted d n2 s u ManageMessages)
  | None, Some m => ∃ s ch u input forward n1 n2 nanos n5 n6 n7,
      w = WSend s ch u input forward n1 n2 nanos n5 n6 n7 ∧ ms_channel_id m = ch ∧ ms_author m = u ∧
      opens d n1 s ch u ∧ permitted d n2 s u Publish_ ∧ checkSlowmode s ch u nanos d = 0%Z ∧
      news_ok d ch u (ms_thread_root m) ∧
      match forward with None => ms_content m = mi_Content input | Some f => copied d n5 u f (ms_content m) end
  end.

Lemma kept_justified d w id p :
  kept nothing nothing nothing (db_posts d) p → justified d w id (ps_messages (db_posts d) !! id) (ps_messages p !! id).
Proof.
  intros [R N _]. destruct (ps_messages (db_posts d) !! id) as [m|] eqn:Hm.
  - specialize (R _ _ Hm). destruct (ps_messages p !! id); [|done]. destruct R as [? [[]|?]]. simpl. auto.
  - destruct (ps_messages p !! id) eqn:Hm'; [|done]. destruct (N id Hm). rewrite Hm'. eauto.
Qed.

(** C17: whatever transaction runs, a message has changed only where it should.
    A message appears in a channel only when its author sent it, could read the
    channel and publish, was not held back by slow mode, and in a news channel
    is a publisher or comments where comments are allowed; it says what the
    request said or what a message says that its author may read. What a
    message says changes only by an edit of its author, who can still read the
    channel and publish, and never once it was forwarded. It disappears only
    with a deletion of it or of the post it comments, by that message's author,
    a manager of the server or a member who may manage messages. Its channel,
    author, time, thread and origin never change and its revision never falls. *)
Theorem message_changes_justified d w id :
  sync_inv (db_posts d) → on_messages w →
  justified d w id (ps_messages (db_posts d) !! id) (ps_messages (db_posts (run_write w d)) !! id).
Proof.
  intros Hi Hw. destruct w; cbn [run_write]; [| | |apply kept_justified..|done].
  - destruct (CreateReferenced _ _ _ _ _ _ _ _ _ _ _ d) as [[e|full] d'] eqn:Hr.
    { apply Create_refused in Hr as ->. apply kept_justified, rows_kept_refl. }
    apply Create_run in Hr as [Ho Hr]. destruct (requestHash input forward) as [kind hash].
    destruct Hr as [(->&_)|(Hp&Hs&content&text&reply&fwd&root&p&Hn&Hins&Em&_&_&Hc)]; [apply kept_justified, rows_kept_refl|].
    cbn [snd]. rewrite Em. apply insert_message_kept in Hins as ([R N _]&_&m'&Hm'&Ech&Eau&Eco&Ero&_); [|done].
    destruct (ps_messages (db_posts d) !! id) as [m|] eqn:Hm.
    + specialize (R _ _ Hm). destruct (ps_messages p !! id); [|done]. destruct R as [? [[]|?]]. simpl. auto.
    + destruct (ps_messages p !! id) as [x|] eqn:Hx; [|done]. rewrite (N id Hm) in Hm' by (rewrite Hx; eauto).
      rewrite Hx in Hm'. simplify_eq. simpl. eexists _, _, _, _, _, _, _, _, _, _, _. by split_and!.
  - destruct (repo_Update _ _ _ _ _ _ _ _ d) as [[e|v] d'] eqn:Hr.
    { apply atomically_inl in Hr as ->. apply kept_justified, rows_kept_refl. }
    apply Update_run in Hr as (Ho&Hp&m&p&Hv&Hau&Hf&He&->). apply edit_message_kept in He as [[R N _] Hcon]. simpl.
    destruct (ps_messages (db_posts d) !! id) as [x|] eqn:Hx.
    + pose proof (R _ _ Hx) as Hr. destruct (ps_messages p !! id) as [x'|] eqn:Hx'; [|done].
      destruct Hr as [Hsame [<-|?]]; [|by split; [|left]]. split; [done|right].
      unfold view in Hv. rewrite Hx in Hv. simpl in Hv. destruct (Z.eqb_spec (ms_channel_id x) ch); [|done]. simplify_eq.
      eexists _, _, _, _, _, _, _. split_and!; try done. by apply Hcon.
    + destruct (ps_messages p !! id) eqn:Hx'; [|done]. destruct (N id Hx). rewrite Hx'. eauto.
  - destruct (repo_Delete _ _ _ _ _ _ _ d) as [[e|v] d'] eqn:Hr.
    { apply atomically_inl in Hr as ->. apply kept_justified, rows_kept_refl. }
    apply Delete_run in Hr as (Ho&(t&Hv&Hau)&Ed). cbn [snd]. rewrite Ed.
    destruct (delete_message_kept true now3 id0 (db_posts d)) as [R N _].
    destruct (ps_messages (db_posts d) !! id) as [x|] eqn:Hx.
    + specialize (R _ _ Hx). destruct (ps_messages (delete_message true now3 id0 (db_posts d)) !! id) as [x'|] eqn:Hx'; [destruct R as [? [[]|?]]; simpl; auto|].
      destruct R as [->|(x'&Hx2&Hroot)]; simpl; eexists _, _, _, _, _, _, _, t; split_and!; try done; [by left|right; congruence].
    + destruct (ps_messages (delete_message _ _ _ _) !! id) eqn:Hx'; [|done]. destruct (N id Hx). rewrite Hx'. eauto.
  - apply SetReaction_kept.
  - apply Pin_kept.
  - apply Unpin_kept.
  - apply prune_kept.
  - apply delete_member_posts_kept.
Qed.
(** ** Requests that are sent twice *)

Definition run_writes (ws : list write) (d : DB) : DB := foldl (fun d w => run_write w d) d ws.
(** Other transactions leave the send keys alone. *)
Definition keys_ok (w : write) : Prop :=
  match w with WOther f => ∀ d, ps_send_keys (db_posts (f d)) = ps_send_keys (db_posts d) | _ => True end.

Definition later (p : Posts) (id : Z) : Prop := (ps_message_seq p < id)%Z.

Lemma run_write_kept w d :
  sync_inv (db_posts d) → write_ok w → keys_ok w →
  ∃ gone changed, kept gone changed (later (db_posts d)) (db_posts d) (db_posts (run_write w d)).
Proof.
  intros Hi Hok Hk. assert (∀ p, kept nothing nothing nothing (db_posts d) p →
    ∃ gone changed, kept gone changed (later (db_posts d)) (db_posts d) p) as Hweak.
  { intros p Hp. exists nothing, nothing. revert Hp. by apply kept_weaken. }
  destruct w; cbn [run_write].
  - destruct (CreateReferenced _ _ _ _ _ _ _ _ _ _ _ d) as [[e|full] d'] eqn:Hr.
    { apply Create_refused in Hr as ->. apply Hweak, rows_kept_refl. }
    apply Create_run in Hr as [_ Hr]. destruct (requestHash input forward) as [kind hash].
    destruct Hr as [(->&_)|(_&_&content&text&reply&fwd&root&p&_&Hins&Em&Hkey&_)]; [apply Hweak, rows_kept_refl|].
    apply insert_message_kept in Hins as (K&Hlt&_); [|done]. exists nothing, nothing.
    apply (kept_weaken _ nothing _ nothing _ (later (db_posts d))) in K; [|done|done|by intros ? <-].
    eapply rows_kept_trans; [exact K|]. cbn [snd]. apply kept_same; [done|]. intros k r Hr. exists r. split; [|auto].
    unfold with_key in Hkey. case_match; [by rewrite Hkey|]. destruct Hkey as [Hno ->].
    by rewrite lookup_insert_ne by congruence.
  - destruct (repo_Update _ _ _ _ _ _ _ _ d) as [[e|v] d'] eqn:Hr.
    { apply atomically_inl in Hr as ->. apply Hweak, rows_kept_refl. }
    apply Update_run in Hr as (_&_&m&p&_&_&_&[K _]%edit_message_kept&->). exists nothing, (eq id).
    revert K. by apply kept_weaken.
  - destruct (repo_Delete _ _ _ _ _ _ _ d) as [[e|v] d'] eqn:Hr.
    { apply atomically_inl in Hr as ->. apply Hweak, rows_kept_refl. }
    apply Delete_run in Hr as (_&_&Ed). cbn [snd]. rewrite Ed. eexists _, nothing.
    eapply kept_weaken; [..|apply delete_message_kept]; done.
  - apply Hweak, SetReaction_kept.
  - apply Hweak, Pin_kept.
  - apply Hweak, Unpin_kept.
  - apply Hweak, prune_kept.
  - apply Hweak, delete_member_posts_kept.
  - apply Hweak, kept_other; [|apply Hk]. destruct (Hok d) as [(E&_) _]. exact E.
Qed.

(** The send key names the request and its message, while there is one. *)
Definition remembers (ch u : Z) (key : string) (request : RequestKind * string) (i : Z) (p : Posts) : Prop :=
  (i <= ps_message_seq p)%Z ∧ (∀ m, ps_messages p !! i = Some m → ms_channel_id m = ch) ∧
  ∃ k, ps_send_keys p !! (ch, u, key) = Some k ∧ request = (sk_request_kind k, sk_content_hash k) ∧
    (sk_message_id k = Some i ∨ sk_message_id k = None ∧ ps_messages p !! i = None).

Lemma remembers_kept ch u key request i gone changed p p' :
  kept gone changed (later p) p p' → (ps_message_seq p <= ps_message_seq p')%Z →
  remembers ch u key request i p → remembers ch u key request i p'.
Proof.
  intros [R N K] Hs (Hi&Hch&k&Hk&->&Hm).
  assert (ps_messages p !! i = None → ps_messages p' !! i = None) as Hgone.
  { intros Hno. apply eq_None_not_Some. intros Hx%(N i Hno). unfold later in Hx. lia. }
  split_and!; [lia| |].
  - intros m' Hm'. destruct (ps_messages p !! i) as [m|] eqn:Hx; [|rewrite Hgone in Hm' by done; done].
    specialize (R _ _ Hx). rewrite Hm' in R. destruct R as [[-> _] _]. by apply Hch.
  - destruct (K _ _ Hk) as (k'&Hk'&Eh&Ek&Em). exists k'. split_and!; [done|congruence|].
    destruct Em as [->|[-> Ha]]; [destruct Hm as [|[]]; auto|]. right. split; [done|].
    destruct Hm as [Hm|[_ Hm]]; [by apply Ha|by apply Hgone].
Qed.

Lemma run_writes_remember ch u key request i ws d :
  Forall write_ok ws → Forall keys_ok ws → sync_state d → known d u → remembers ch u key request i (db_posts d) →
  sync_state (run_writes ws d) ∧ known (run_writes ws d) u ∧ remembers ch u key request i (db_posts (run_writes ws d)).
Proof.
  revert d. induction ws as [|w ws IH]; intros d Hok Hkeys Hs Hu Hr; [done|].
  inversion_clear Hok as [|? ? Hw Hok']. inversion_clear Hkeys as [|? ? Hk Hkeys'].
  destruct (run_write_kept w d) as (gone&changed&K); [apply Hs|done..|].
  destruct (run_write_sound w d Hw) as [Hl _ Husers]. apply IH; [done..|by apply run_write_state|by apply Husers|].
  eapply remembers_kept; [exact K| |done]. by destruct (jn_place _ _ _ (Hl (proj1 Hs))).
Qed.

Lemma Create_remembers s ch u input forward n1 n2 nanos n5 n6 n7 d full d' :
  sync_state d → mi_ClientMessageID input ≠ "" →
  CreateReferenced s ch u input forward n1 n2 nanos n5 n6 n7 d = (inr full, d') →
  sync_state d' ∧ known d' u ∧
  remembers ch u (mi_ClientMessageID input) (requestHash input forward) (msg_ID (fm_Message full)) (db_posts d').
Proof.
  intros Hs Hne Hr. pose proof (run_write_state (WSend s ch u input forward n1 n2 nanos n5 n6 n7) d I Hs) as Hs'.
  cbn [run_write] in Hs'. rewrite Hr in Hs'. cbn [snd] in Hs'. split; [done|]. split.
  { pose proof (CreateReferenced_sound s ch u input forward n1 n2 nanos n5 n6 n7 d) as [_ _ Hu]. rewrite Hr in Hu.
    apply Hu. unfold CreateReferenced in Hr. destruct (requestHash input forward). apply atomically_inr in Hr. tx_run.
    all: by apply requireServerMember_inv in Hrun as [-> ?]. }
  assert (∀ m, ps_messages (db_posts d') !! msg_ID (fm_Message full) = Some m →
    (msg_ID (fm_Message full) <= ps_message_seq (db_posts d'))%Z) as Hfresh.
  { intros m Hm. apply (si_fresh _ (proj1 Hs')). eauto. }
  apply Create_run in Hr as [_ Hr]. destruct (requestHash input forward) as [kind hash].
  destruct Hr as [(->&_&[m Hv]&_&Hk)|(_&_&content&text&reply&fwd&root&p&_&Hins&Em&Hkey&_)].
  - unfold view in Hv. destruct (ps_messages (db_posts d) !! _) as [m'|] eqn:Hm; [simpl in Hv|done].
    destruct (Z.eqb_spec (ms_channel_id m') ch); [|done]. split_and!; [by eapply Hfresh|congruence|].
    eexists. split_and!; [done..|by left].
  - apply insert_message_kept in Hins as (_&_&m&Hm&Hch&_); [|apply Hs]. rewrite <- Em in Hm.
    split_and!; [by eapply Hfresh|congruence|].
    unfold with_key in Hkey. apply String.eqb_neq in Hne. rewrite Hne in Hkey. destruct Hkey as [_ ->].
    rewrite lookup_insert_eq. eexists. split_and!; [done..|by left].
Qed.

(** C18: a request to send that carries a client message id takes effect once.
    Once it succeeded, whatever transactions ran since and however often it is
    repeated, a request of the same author in that channel with the same id
    writes nothing. It is answered with the first message as it is then, and
    announced to nobody, when it asks for the same; it is refused as a conflict
    when it asks for something else, as not found when the message was deleted,
    and otherwise only when the author may not read the channel any more. *)
Theorem resend_once d0 s ch u input forward n1 n2 nanos n5 n6 n7 full d1 ws
    s' input' forward' m1 m2 nanos' m5 m6 m7 :
  sync_state d0 → mi_ClientMessageID input ≠ "" →
  CreateReferenced s ch u input forward n1 n2 nanos n5 n6 n7 d0 = (inr full, d1) →
  Forall write_ok ws → Forall keys_ok ws → mi_ClientMessageID input' = mi_ClientMessageID input →
  let d := run_writes ws d1 in let i := msg_ID (fm_Message full) in
  let r := CreateReferenced s' ch u input' forward' m1 m2 nanos' m5 m6 m7 d in
  r.2 = d ∧
  match r.1 with
  | inr again => requestHash input' forward' = requestHash input forward ∧ msg_ID (fm_Message again) = i ∧
      created_effect (fm_Message again) ++ publishActivity s' (fm_Message again) = []
  | inl e => ¬ opens d m1 s' ch u ∨
      requestHash input' forward' ≠ requestHash input forward ∧ e = ErrIdempotencyConflict ∨
      requestHash input' forward' = requestHash input forward ∧ view ch i (db_posts d) = None ∧ e = ErrMessageNotFound
  end.
Proof.
  intros Hs Hne Hr Hok Hkeys Ekey d i r. apply Create_remembers in Hr as (Hs1&Hu1&Hrem); [|done..].
  destruct (run_writes_remember ch u (mi_ClientMessageID input) _ i ws d1 Hok Hkeys Hs1 Hu1 Hrem)
    as ([_ Ha]&Hu&_&Hch&k&Hk&Ereq&Hm).
  fold d in Ha, Hu, Hch, Hk, Hm. rewrite Ereq. clear Ereq. rewrite <- Ekey in Hk, Hne.
  assert (opens d m1 s' ch u → r = let '(kind, hash) := requestHash input' forward' in
    atomically (replay ch u (mi_ClientMessageID input') hash kind k) d) as Hopens by (intros; by apply Create_used).
  assert (sk_message_id k = Some i ∨ sk_message_id k = None ∧ view ch i (db_posts d) = None) as Hki.
  { destruct Hm as [?|[? Hno]]; [by left|right]. unfold view. by rewrite Hno. }
  destruct (decide (reads d m1 ch u ∧ is_Some (find_channel s' ch d))) as [[]|Hno].
  - rewrite Hopens by done. destruct (requestHash input' forward') as [kind hash].
    pose proof (replay_outcome ch u (mi_ClientMessageID input') hash kind k i d Hki Ha) as Hout.
    destruct (atomically _ d) as [[e|again] d']; destruct Hout as [-> Hout]; (split; [done|]); cbn [fst].
    + by right.
    + destruct Hout as (?&?&Hrep). unfold created_effect, publishActivity. by rewrite Hrep.
  - subst r. destruct (CreateReferenced s' ch u input' forward' _ _ _ _ _ _ d) as [[e|again] d'] eqn:Hr.
    + apply Create_refused in Hr as ->. split; [done|]. left. intros []. by apply Hno.
    + apply Create_run in Hr as [[] _]. by destruct Hno.
Qed.
(** The request of a poll does not say what its first part is: a poll with a
    text that spells out a reply has the request of a poll that is that reply,
    so that the second one sent with the same key is answered with the first. *)
Lemma poll_request_collision p content id key :
  requestHash (mkMessageInput (Some p) [] None (Marshal (JArray [JString content; JInt id])) key None) None =
  requestHash (mkMessageInput (Some p) [] None content key (Some id)) None.
Proof. reflexivity. Qed.

(** ** Channels that cannot be deleted *)

(** C40: a channel that holds a reply to one of its messages cannot be deleted
    when the database removes the message before the reply: whoever asks, the
    request fails and nothing changes, and for an owner or admin it fails on a
    foreign key. (The cascade sets the reference of the reply to NULL, which
    revises the reply, and the trigger of that revision writes a journal entry
    for a channel that is gone.) *)
Theorem reply_blocks_deletion d s u ch now a b ma mb :
  view ch a (db_posts d) = Some ma → view ch b (db_posts d) = Some mb → a ≠ b →
  ms_reply_to mb = Some a → ms_thread_root mb = None → visited_first a b (cascade now ch (db_posts d)) →
  ∃ e, channels_Delete s ch u now d = (inl e, [], d) ∧
    (check_channel_ids s ch u = None → is_Some (managed s ch u d) → e = ErrChannelConstraint ForeignKey).
Proof.
  intros Ha Hb Hne Hr Ht Hv. unfold channels_Delete.
  destruct (check_channel_ids s ch u) as [e|]; [by exists e|]. unfold channel_Delete, atomically, query, mbind, Tx_bind.
  destruct (managed s ch u d) as [c|]; [|eexists; split; [done|]; by intros _ []].
  unfold insert_row, delete_channel. rewrite (delete_channel_blocked now ch a b); [by eexists|done| | |done].
  - unfold view in Hb. destruct (ps_messages (db_posts d) !! b) as [m|] eqn:Hm; [simpl in Hb|done].
    destruct (Z.eqb_spec (ms_channel_id m) ch); [|done]. simplify_eq. by exists mb.
  - unfold view in Ha. by destruct (ps_messages (db_posts d) !! a).
Qed.
End theorems.

(** ** Instances *)

#[local] Existing Instance key_order.
#[local] Existing Instance toy.

Definition keyed (content key : string) : MessageInput := mkMessageInput None [] None content key None.
Definition sample_sent : (MessageError + FullMessage) * DB :=
  CreateReferenced 1 1 2 (keyed "hi" "k1") None 300 300 (300 * 10 ^ 9) 300 300 300 sample_channels.
Definition sample_first : FullMessage :=
  match sample_sent.1 with inr full => full | inl _ => mkFullMessage (mkMessage None [] false "" 0 0 (mkMessageAuthorData 0 "") "" 0 None 0 None None None 0) [] 0 end.
(** The owner reacts and writes before the message is sent again. *)
Definition sample_between : list write :=
  [WReact 1 1 1 1 "👍" true 301 301 301; WSend 1 1 1 (keyed "hello" "k1") None 302 302 (302 * 10 ^ 9) 302 302 302].

Definition sample_later : DB := run_writes sample_between sample_sent.2.
Definition sample_again (content : string) : (MessageError + FullMessage) * DB :=
  CreateReferenced 1 1 2 (keyed content "k1") None 303 303 (303 * 10 ^ 9) 303 303 303 sample_later.

Lemma resend_once_witness :
  (sample_again "hi").2 = sample_later ∧ size (ps_messages (db_posts sample_later)) = 2 ∧
  (msg_ID ∘ fm_Message <$> match (sample_again "hi").1 with inr m => Some m | inl _ => None end) = Some 1%Z ∧
  (sample_again "ho").1 = inl ErrIdempotencyConflict.
Proof.
  assert (CreateReferenced 1 1 2 (keyed "hi" "k1") None 300 300 (300 * 10 ^ 9) 300 300 300 sample_channels =
    (inr sample_first, sample_sent.2)) as Hsent by (apply answer_eq; vm_compute; reflexivity).
  assert (mi_ClientMessageID (keyed "hi" "k1") ≠ "") as Hne by discriminate.
  assert (Forall write_ok sample_between) as Hok by repeat constructor.
  assert (Forall keys_ok sample_between) as Hkeys by repeat constructor.
  pose proof (resend_once sample_channels 1 1 2 (keyed "hi" "k1") None 300 300 (300 * 10 ^ 9) 300 300 300 sample_first
    sample_sent.2 sample_between 1 (keyed "hi" "k1") None 303 303 (303 * 10 ^ 9) 303 303 303 sample_channels_state
    Hne Hsent Hok Hkeys eq_refl) as Hresend.
  cbv zeta in Hresend. destruct Hresend as [E _]. split; [exact E|]. clear.
  split; [vm_compute; reflexivity|]. split; vm_compute; reflexivity.
Defined.

(** An admin may delete the message of user 2, who may not delete the admin's. *)
Lemma message_changes_justified_witness :
  sync_inv (db_posts sample_sent.2) ∧
  justified sample_sent.2 (WDelete 1 1 1 1 310 310 310) 1
    (ps_messages (db_posts sample_sent.2) !! 1%Z) None ∧
  is_Some (ps_messages (db_posts sample_sent.2) !! 1%Z).
Proof.
  assert (sync_inv (db_posts sample_sent.2)) as Hi.
  { pose proof (run_write_state (WSend 1 1 2 (keyed "hi" "k1") None 300 300 (300 * 10 ^ 9) 300 300 300)
      sample_channels I sample_channels_state) as [Hi _]. cbn [run_write] in Hi. exact Hi. }
  split; [exact Hi|]. split; [|vm_compute; eauto].
  pose proof (message_changes_justified sample_sent.2 (WDelete 1 1 1 1 310 310 310) 1 Hi I) as Hj.
  assert (ps_messages (db_posts (run_write (WDelete 1 1 1 1 310 310 310) sample_sent.2)) !! 1%Z = None) as E
    by (vm_compute; reflexivity).
  rewrite E in Hj. exact Hj.
Defined.

(** Channel 1 with two messages, a reaction and an edit can be deleted, and not
    after a reply, in an order of the rows that takes message 1 before 3. *)
Definition rev_order : MapOrder := {| visit := @rev; visit_perm := fun A l => symmetry (Permutation.Permutation_rev l) |}.

Definition talk (ws : list write) : DB := run_writes ws sample_channels.
Definition plain_talk : list write :=
  [WSend 1 1 1 (keyed "hello" "") None 300 300 (300 * 10 ^ 9) 300 300 300;
   WSend 1 1 2 (keyed "hi" "") None 301 301 (301 * 10 ^ 9) 301 301 301;
   WReact 1 1 1 2 "👍" true 302 302 302; WEdit 1 1 1 1 "hello all" 303 303 303].
Definition reply_talk : list write :=
  plain_talk ++ [WSend 1 1 2 (mkMessageInput None [] None "welcome" "" (Some 1%Z)) None 304 304 (304 * 10 ^ 9) 304 304 304].

Lemma reply_blocks_deletion_witness :
  (@channels_Delete rev_order 1 1 1 400 (talk plain_talk)).1.1 = inr tt ∧
  @channels_Delete rev_order 1 1 1 400 (talk reply_talk) = (inl (ErrChannelConstraint ForeignKey), [], talk reply_talk).
Proof.
  split; [vm_compute; reflexivity|].
  assert (@visited_first 1 3 (@cascade rev_order 400 1 (db_posts (talk reply_talk)))) as Hv.
  { exists [], [2; 3]%Z. split; [vm_compute; reflexivity|set_solver]. }
  destruct (view 1 1 (db_posts (talk reply_talk))) as [ma|] eqn:Ha; [|vm_compute in Ha; discriminate Ha].
  destruct (view 1 3 (db_posts (talk reply_talk))) as [mb|] eqn:Hb; [|vm_compute in Hb; discriminate Hb].
  destruct (@reply_blocks_deletion rev_order (talk reply_talk) 1 1 1 400 1 3 ma mb Ha Hb) as (e&He&Hforeign).
  - discriminate.
  - vm_compute in Hb. injection Hb as <-. reflexivity.
  - vm_compute in Hb. injection Hb as <-. reflexivity.
  - exact Hv.
  - rewrite He. f_equal. f_equal. f_equal. apply Hforeign; [reflexivity|]. apply (bool_decide_unpack _). vm_compute. exact I.
Defined.
