(* ===== verification/MessagePages.v ===== *)
(** * Messages: paging

    A client that follows the cursors of a listing, and the proof that it gets
    every message of the channel, or every comment of a post, exactly once. *)

From S2P Require Import Prelude GoText GoJson Events Publishers HubSystem Tables Posts Store Accounts Members Invites StoreInv StoreKeep StoreProps Community CommunityProps.
From S2P Require Import Channels Mentions Messages MessageService Journal ChannelFacts SyncFacts SyncClient ChannelProps SyncProps MessageFacts.

(** Asks for pages until [has_more] is false; older pages go in front. *)
Fixpoint history (fetch : option Z → MessageError + Page) (fuel : nat) (before : option Z) : option (list FullMessage) :=
  match fuel with
  | O => None
  | S fuel =>
      match fetch before with
      | inr page =>
          if pg_HasMore page
          then rest ← history fetch fuel (pg_NextBeforeID page); Some (rest ++ pg_Messages page)
          else Some (pg_Messages page)
      | inl _ => None
      end
  end.

Lemma StronglySorted_filtered {A} (R : A → A → Prop) (Q : A → Prop) `{∀ x, Decision (Q x)} l :
  StronglySorted R l → StronglySorted R (filter Q l).
Proof.
  induction l as [|x l IH]; intros Hs; [constructor|]. apply StronglySorted_cons in Hs as [Hf Hl].
  rewrite filter_cons. case_decide; [|by apply IH]. apply StronglySorted_cons. split; [|by apply IH].
  rewrite Forall_forall in *. intros y [_ Hy]%list_elem_of_filter. by apply Hf.
Qed.

Section pages.
Context `{MapOrder, Platform}.

Definition older_than (c : Z) (e : Z * message_row) : Prop := (e.1 < c)%Z.
#[local] Instance older_than_dec c e : Decision (older_than c e).
Proof. unfold older_than. apply _. Defined.

Definition strictly_newer (a b : Z * message_row) : Prop := (b.1 < a.1)%Z.

(** ** The rows of a query *)

Definition rows_of (P : Z → message_row → bool) (p : Posts) : list (Z * message_row) :=
  merge_sort newest (filter (fun e : Z * message_row => P e.1 e.2 = true) (map_to_list (ps_messages p))).

Lemma elem_of_rows_of P p e : e ∈ rows_of P p ↔ ps_messages p !! e.1 = Some e.2 ∧ P e.1 e.2 = true.
Proof.
  unfold rows_of. rewrite merge_sort_Permutation, list_elem_of_filter. destruct e. rewrite elem_of_map_to_list. simpl. tauto.
Qed.
Lemma rows_of_length P p : length (rows_of P p) <= size (ps_messages p).
Proof.
  unfold rows_of. rewrite merge_sort_Permutation, <- length_map_to_list. apply length_filter.
Qed.

Lemma rows_of_sorted P p : StronglySorted strictly_newer (rows_of P p).
Proof.
  assert (StronglySorted newest (rows_of P p)) as Hs by (apply StronglySorted_merge_sort; apply _).
  assert (NoDup (rows_of P p).*1) as Hn.
  { unfold rows_of. rewrite merge_sort_Permutation.
    eapply sublist_NoDup; [|apply fmap_sublist, sublist_filter]. apply NoDup_fst_map_to_list. }
  revert Hs Hn. generalize (rows_of P p). intros l. induction l as [|e l IH]; [constructor|].
  intros [Hf Hl]%StronglySorted_cons [Hni Hn]%NoDup_cons. constructor; [by apply IH|].
  rewrite Forall_forall in *. intros x Hx. specialize (Hf x Hx). unfold newest in Hf. unfold strictly_newer.
  assert (x.1 ≠ e.1) by (intros E; apply Hni; rewrite <- E; by apply list_elem_of_fmap_2). lia.
Qed.

Lemma rows_of_older P c p :
  rows_of (fun id m => P id m && (id <? c)%Z) p = filter (older_than c) (rows_of P p).
Proof.
  eapply (StronglySorted_unique_strong newest).
  - intros [i x] [j y] [Hx _]%elem_of_rows_of [_ [Hy _]%elem_of_rows_of]%list_elem_of_filter H1 H2.
    unfold newest in *. simpl in *. assert (i = j) as -> by lia. congruence.
  - apply StronglySorted_merge_sort; apply _.
  - apply StronglySorted_filtered, StronglySorted_merge_sort; apply _.
  - apply NoDup_Permutation.
    + unfold rows_of. rewrite merge_sort_Permutation. apply NoDup_filter, NoDup_map_to_list.
    + unfold rows_of. rewrite merge_sort_Permutation. apply NoDup_filter, NoDup_filter, NoDup_map_to_list.
    + intros e. rewrite list_elem_of_filter, !elem_of_rows_of, andb_true_iff, Z.ltb_lt. unfold older_than. tauto.
Qed.

(** Cutting a sorted list at a cursor. *)
Lemma filter_older e pre post :
  StronglySorted strictly_newer (pre ++ e :: post) → filter (older_than e.1) (pre ++ e :: post) = post.
Proof.
  intros Hs. rewrite filter_app. assert (filter (older_than e.1) pre = []) as ->.
  { apply elem_of_nil_inv. intros x [Ho Hx]%list_elem_of_filter. unfold older_than in Ho.
    pose proof (StronglySorted_app_1_elem_of strictly_newer pre (e :: post) x e Hs Hx ltac:(by left)) as Hse.
    unfold strictly_newer in Hse. lia. }
  simpl. rewrite filter_cons_False by (unfold older_than; lia).
  apply StronglySorted_app_1_r, StronglySorted_cons in Hs as [Hf _]. induction post as [|x post IH]; [done|].
  inversion_clear Hf as [|? ? Hx Hf']. rewrite filter_cons_True by exact Hx. f_equal. by apply IH.
Qed.

(** ** Following the cursors *)

Section crawl.
Context (g : Z * message_row → FullMessage) (n : nat) (l : list (Z * message_row)) (fetch : option Z → MessageError + Page).
Context (Hg : ∀ e, msg_ID (fm_Message (g e)) = e.1) (Hn : 0 < n) (Hl : StronglySorted strictly_newer l).
Context (Hpos : ∀ e, e ∈ l → (0 < e.1)%Z).
Context (Hfetch : ∀ c, (0 < c)%Z → fetch (Some c) = inr (page_of n (g <$> take (S n) (filter (older_than c) l)))).

Lemma history_from fuel : ∀ before pre post,
  l = pre ++ post → fetch before = inr (page_of n (g <$> take (S n) post)) → length post < fuel →
  history fetch fuel before = Some (rev (g <$> post)).
Proof.
  induction fuel as [|fuel IH]; intros before pre post El Hf Hlen; [lia|]. cbn [history]. rewrite Hf.
  unfold page_of. rewrite length_fmap, length_take. destruct (Nat.ltb_spec n (S n `min` length post)) as [Hmore|Hall]; cbn [pg_HasMore].
  - rewrite <- fmap_take, take_take. replace (n `min` S n) with n by lia.
    destruct (lookup_lt_is_Some_2 post (n - 1)) as [e He]; [lia|].
    assert (take n post = take (n - 1) post ++ [e]) as Et.
    { replace n with (S (n - 1)) at 1 by lia. by apply take_S_r. }
    assert (post = take (n - 1) post ++ e :: drop n post) as Epost.
    { rewrite <- (take_drop n post) at 1. by rewrite Et, <- app_assoc. }
    rewrite Et, fmap_app, rev_app_distr. cbn [fmap list_fmap rev app head pg_NextBeforeID pg_Messages].
    cbn [option_fmap option_map]. rewrite Hg. assert (e ∈ l) as Hin by (rewrite El, Epost; set_solver).
    rewrite (IH (Some e.1) (pre ++ take n post) (drop n post)).
    + assert (rev (g <$> post) = rev (g <$> drop n post) ++ g e :: rev (g <$> take (n - 1) post)) as ->; [|done].
      rewrite Epost at 1. rewrite fmap_app, fmap_cons, rev_app_distr. simpl. by rewrite <- app_assoc.
    + by rewrite <- app_assoc, take_drop.
    + rewrite Hfetch by by apply Hpos. rewrite El, Epost, app_assoc, filter_older; [by rewrite <- Epost|].
      by rewrite <- app_assoc, <- Epost, <- El.
    + rewrite length_drop. lia.
  - simpl. by rewrite take_ge by lia.
Qed.
End crawl.

(** What the client should have: the messages of [P], oldest first, as they are. *)
Definition listing (d : DB) (P : Z → message_row → bool) (L : list FullMessage) : Prop :=
  StronglySorted Z.lt (ids_of L) ∧
  (∀ id, id ∈ ids_of L ↔ ∃ m, ps_messages (db_posts d) !! id = Some m ∧ P id m = true) ∧
  ∀ v m, v ∈ L → ps_messages (db_posts d) !! msg_ID (fm_Message v) = Some m →
    copy_of_message (fm_Message v) = copy_of_row m.

Lemma rows_message d :
  authored (known d) (db_posts d) →
  ∃ f : Z * message_row → Message, (∀ e, msg_ID (f e) = e.1) ∧ (∀ e, copy_of_message (f e) = copy_of_row e.2) ∧
    ∀ n Q, rows_newest n Q d = f <$> take n (rows_of Q (db_posts d)).
Proof.
  intros Ha. exists (fun e => default (mkMessage None [] false "" e.1 (ms_channel_id e.2) (mkMessageAuthorData (ms_author e.2) "")
    (ms_content e.2) (ms_created_at e.2) (ms_edited_at e.2) (ms_revision e.2) None None None 0) (message_of_row d e.1 e.2)).
  split_and!; [intros e; unfold message_of_row, author_of; by destruct (db_users d !! ms_author e.2)..|].
  intros n Q. unfold rows_newest. fold (rows_of Q (db_posts d)). rewrite fmap_take. f_equal.
  assert (∀ e, e ∈ rows_of Q (db_posts d) → is_Some (message_of_row d e.1 e.2)) as Hl.
  { intros e [Hm _]%elem_of_rows_of. destruct (Ha _ _ Hm) as [x Hx]. unfold message_of_row, author_of. rewrite Hx. simpl. eauto. }
  revert Hl. generalize (rows_of Q (db_posts d)). intros l Hl. induction l as [|e l IH]; [done|]. simpl.
  destruct (Hl e) as [x Hx]; [by left|]. rewrite Hx. simpl. f_equal. apply IH. intros e' He'. apply Hl. by right.
Qed.

Lemma StronglySorted_reversed l : StronglySorted strictly_newer l → StronglySorted Z.lt (rev l.*1).
Proof.
  induction l as [|e l IH]; intros Hs; [constructor|]. apply StronglySorted_cons in Hs as [Hf Hl]. simpl.
  apply StronglySorted_app. split_and!; [|by apply IH|repeat constructor].
  intros x y Hx Hy%list_elem_of_singleton. subst y. rewrite elem_of_rev in Hx. apply list_elem_of_fmap in Hx as (z&->&Hz).
  rewrite Forall_forall in Hf. exact (Hf z Hz).
Qed.

(** Identifiers start at one and leave room for the first cursor. *)
Definition ids_ok (p : Posts) : Prop := ∀ id, is_Some (ps_messages p !! id) → (0 < id < 2 ^ 63 - 1)%Z.

Lemma ids_of_rev (g : Z * message_row → FullMessage) l :
  (∀ e, msg_ID (fm_Message (g e)) = e.1) → ids_of (rev (g <$> l)) = rev l.*1.
Proof.
  intros Hg. unfold ids_of. induction l as [|e l IH]; [done|]. rewrite !fmap_cons. cbn [rev].
  rewrite fmap_app, IH. cbn. by rewrite Hg.
Qed.

Lemma listing_complete d u n P fetch :
  authored (known d) (db_posts d) → ids_ok (db_posts d) → 0 < n →
  (∀ before, from_option (fun c => 0 < c)%Z True before → fetch before = inr (page_of n (hydrate u d <$>
     rows_newest (S n) (fun id m => P id m && (id <? default (2 ^ 63 - 1) before)%Z) d))) →
  ∃ L, history fetch (S (size (ps_messages (db_posts d)))) None = Some L ∧ listing d P L.
Proof.
  intros Ha Hids Hn Hfetch. destruct (rows_message d Ha) as (f&Hid&Hcopy&Hrows).
  set (l := rows_of P (db_posts d)). set (g := fun e => hydrate u d (f e)).
  assert (∀ e, msg_ID (fm_Message (g e)) = e.1) as Hg by (intros; unfold g; by rewrite hydrate_id).
  assert (∀ e, e ∈ l → (0 < e.1 < 2 ^ 63 - 1)%Z) as Hl.
  { intros e [He _]%elem_of_rows_of. apply Hids. eauto. }
  assert (∀ before, from_option (fun c => 0 < c)%Z True before →
    fetch before = inr (page_of n (g <$> take (S n) (filter (older_than (default (2 ^ 63 - 1)%Z before)) l)))) as Hpage.
  { intros before Hb. rewrite Hfetch, Hrows by done. unfold l. rewrite <- rows_of_older, <- list_fmap_compose. done. }
  exists (rev (g <$> l)). split.
  - apply (history_from g n l fetch Hg Hn (rows_of_sorted _ _)) with (pre := []); [intros e He; by apply Hl|intros c Hc; by apply (Hpage (Some c))|done| |].
    + rewrite (Hpage None I). cbn [default]. rewrite (filter_all _ l); [done|]. intros e He. unfold older_than. by apply Hl.
    + pose proof (rows_of_length P (db_posts d)). unfold l. lia.
  - assert (ids_of (rev (g <$> l)) = rev l.*1) as E.
    { by apply ids_of_rev. }
    split_and!.
    + rewrite E. apply StronglySorted_reversed, rows_of_sorted.
    + intros id. rewrite E, elem_of_rev, list_elem_of_fmap. split.
      * intros (e&->&He%elem_of_rows_of). eauto.
      * intros (m&Hm). exists (id, m). split; [done|]. by apply elem_of_rows_of.
    + intros v m Hv Hm. rewrite elem_of_rev in Hv. apply list_elem_of_fmap in Hv as (e&->&[He _]%elem_of_rows_of).
      unfold g. rewrite hydrate_copy, Hcopy. rewrite Hg in Hm. congruence.
Qed.

(** C19: paging through a channel is complete. A member who may read it, asks for
    pages of any size and follows the cursors until there is no more gets every
    message of the channel that is no comment exactly once, oldest first, each
    as it is, within one page more than there are messages; and the same holds
    for the comments of any post. *)
Theorem history_complete d s ch u limit now :
  sync_state d → ids_ok (db_posts d) → check_message_ids s ch u = None → opens d now s ch u → known d u →
  (0 <= limit)%Z →
  (∃ L, history (fun before => messages_ListByChannelID s ch u before limit now d)
          (S (size (ps_messages (db_posts d)))) None = Some L ∧
     listing d (fun _ m => (ms_channel_id m =? ch)%Z && bool_decide (ms_thread_root m = None)) L) ∧
  ∀ post r c, view ch post (db_posts d) = Some r → ms_thread_root r = None →
    db_channels d !! ch = Some c → ch_voice c = false →
    ∃ L, history (fun before => messages_ListComments s ch post u before limit now d)
          (S (size (ps_messages (db_posts d)))) None = Some L ∧
     listing d (fun _ m => (ms_channel_id m =? ch)%Z && bool_decide (ms_thread_root m = Some post)) L.
Proof.
  intros [_ Ha] Hids Hcheck Ho [x Hx] Hlim. set (n := page_Normalize limit).
  assert (0 < n)%Z as Hn. { unfold n, page_Normalize, DefaultPageLimit, MaxPageLimit. repeat case_match; lia. }
  assert (∀ before, from_option (fun c => 0 < c)%Z True before → page_Validate before n = None) as Hval.
  { intros before Hb. unfold page_Validate. rewrite (proj2 (Z.leb_gt _ _) Hn). destruct before as [c|]; [|done]. simpl in *.
    by rewrite (proj2 (Z.leb_gt _ _) Hb). }
  destruct (requireMessageChannel_ok _ _ _ _ _ Ho) as [c0 Hch].
  destruct (reads_member _ _ _ _ _ Ho) as [m Hm]. split.
  - apply (listing_complete d u (Z.to_nat n)); [done|done|lia|]. intros before Hb.
    unfold messages_ListByChannelID. rewrite Hcheck. fold n. rewrite (Hval before Hb).
    unfold repo_ListByChannelID, atomically, mbind, Tx_bind.
    by rewrite (requireServerMember_ok _ _ _ _ _ Hm Hx), Hch.
  - intros post r c Hv Hr Hc Hvoice. apply (listing_complete d u (Z.to_nat n)); [done|done|lia|]. intros before Hb.
    unfold view in Hv. destruct (ps_messages (db_posts d) !! post) as [r'|] eqn:Hpost; [simpl in Hv|done].
    destruct (ms_channel_id r' =? ch)%Z eqn:Er; [|done]. simplify_eq.
    assert (check_target_ids s ch post = None ∧ (u <=? 0)%Z = false) as [Htarget Hu].
    { unfold check_message_ids in Hcheck. unfold check_target_ids. pose proof (Hids post ltac:(eauto)).
      destruct ((s <=? 0)%Z || (ch <=? 0)%Z); [done|]. destruct (u <=? 0)%Z; [done|]. simpl.
      by rewrite (proj2 (Z.leb_gt _ _)) by lia. }
    unfold messages_ListComments. rewrite Htarget, Hu. fold n. rewrite (Hval before Hb).
    pose proof (requireMessageChannel_inv _ _ _ _ _ _ _ Hch) as [_ [Hc0 _]%find_channel_Some]. simplify_eq.
    unfold repo_ListComments, atomically, mbind, Tx_bind. rewrite Hch. unfold query, require. rewrite Hpost, Er, Hvoice, bool_decide_true by done.
    done.
Qed.
End pages.

(** ** Instances *)

#[local] Existing Instance key_order.
#[local] Existing Instance toy.

(** Three messages and a comment, read in pages of two. *)
Definition sample_said : list event :=
  [says 1 "a" None 300; says 2 "b" None 301; says 3 "c" (Some 1%Z) 302;
   EvWrite (WSend 1 1 2 (mkMessageInput None [] (Some 1%Z) "d" "" None) None 303 303 (303 * 10 ^ 9) 303 303 303)].
Definition sample_history : DB := (run_events 1 1 2 sample_said (sample_channels, new_mirror)).1.

Lemma sample_history_state : sync_state sample_history.
Proof.
  unfold sample_history. assert (Forall event_ok sample_said) as Hok by repeat constructor.
  exact (proj1 (run_events_state 1 1 2 sample_said sample_channels new_mirror Hok sample_channels_state
    (new_mirror_follows 1 (db_posts sample_channels)))).
Qed.

Lemma history_complete_witness :
  ∃ L, history (fun before => messages_ListByChannelID 1 1 2 before 2 310 sample_history) 5 None = Some L ∧
    (∀ id, id ∈ ids_of L ↔ ∃ m, ps_messages (db_posts sample_history) !! id = Some m ∧
      (ms_channel_id m =? 1)%Z && bool_decide (ms_thread_root m = None) = true) ∧
    ids_of L = [1; 2; 3]%Z.
Proof.
  assert (check_message_ids 1 1 2 = None) as Hcheck by reflexivity.
  assert (ids_ok (db_posts sample_history)) as Hids.
  { assert (map_Forall (fun id (_ : message_row) => 0 < id < 2 ^ 63 - 1)%Z (ps_messages (db_posts sample_history))) as Hall
      by (apply (bool_decide_unpack _); vm_compute; exact I).
    intros id [m Hm]. exact (Hall id m Hm). }
  assert (opens sample_history 310 1 1 2) as Ho by (apply checkAccess_opens; vm_compute; reflexivity).
  assert (known sample_history 2) as Hk by (unfold known; apply (bool_decide_unpack _); vm_compute; exact I).
  destruct (history_complete sample_history 1 1 2 2 310 sample_history_state Hids Hcheck Ho Hk ltac:(lia))
    as [(L&HL&_&Hin&_) _].
  exists L. split; [exact HL|]. split; [exact Hin|].
  change (S (size (ps_messages (db_posts sample_history)))) with 5 in HL.
  vm_compute in HL. injection HL as <-. reflexivity.
Defined.
