(* ===== verification/E2EE.v ===== *)
(** * Devices of the end-to-end encryption

    [internal/e2ee]: the public keys of the devices with which users take part
    in encrypted voice, and which voice channels admit nobody else. A call of
    the repository is one transaction; what the endpoints and the program
    ([cmd/api/main.go]) then ask of the hub is listed with the answer. The
    encrypted calls of private conversations are not part of it. *)

From S2P Require Import Prelude GoText Events Publishers HubSystem Tables Posts Store Accounts Members Channels WsHandler.

Inductive E2EEError :=
  | ErrInvalidDevice | ErrInvalidPublicKey | ErrKeyConflict | ErrE2EENotFound | ErrE2EEForbidden
  | ErrE2EEConstraint (c : Constraint).
#[export] Instance E2EEError_eq_dec : EqDecision E2EEError.
Proof. solve_decision. Defined.

Definition MaxActiveDevices : nat := 10.

(** ** The table [e2ee_device_keys], by user and device *)

Record device_row := mkDeviceRow {
  dv_public_key : string; dv_created_at : Z; dv_revoked_at : option Z; dv_last_used_at : Z }.
#[global] Instance device_row_fields : Fields device_row := fun r =>
  mkDeviceRow (dv_public_key r) (dv_created_at r) (dv_revoked_at r) (dv_last_used_at r).
Notation Keys := (gmap (Z * string) device_row).

Definition live_device (r : device_row) : bool := bool_decide (dv_revoked_at r = None).

(** [max(last_used_at, created_at), device_id] *)
Definition used_before (a b : Z * string * device_row) : Prop :=
  let at_ (e : Z * string * device_row) := Z.max (dv_last_used_at e.2) (dv_created_at e.2) in
  (at_ a < at_ b)%Z ∨ at_ a = at_ b ∧ string_le a.1.2 b.1.2.
#[export] Instance used_before_dec a b : Decision (used_before a b).
Proof. unfold used_before. apply _. Defined.

Definition active_devices (u : Z) (t : Keys) : list (Z * string * device_row) :=
  filter (fun e : Z * string * device_row => e.1.1 = u ∧ live_device e.2 = true) (map_to_list t).

Definition revoke_key (now : Z) (k : Z * string) (t : Keys) : Keys := alter (fun r => r <| dv_revoked_at := Some now |>) k t.

(** The update that revokes the [n] devices used least recently. *)
Definition revoke_oldest (now u : Z) (n : nat) (t : Keys) : Keys :=
  foldr (revoke_key now) t (take n (merge_sort used_before (active_devices u t))).*1.

Section e2ee.
(** [ecdh.P256().NewPublicKey(raw)] succeeds. *)
Context (P256 : string → bool).

Definition ValidatePublicKey (raw : string) : bool :=
  (String.length raw =? 65) &&
  match raw with String c _ => (byte_of c =? 4)%Z | EmptyString => false end && P256 raw.

(** [now1] is the time of the update that revokes, [now2] of the other one. *)
Definition Register (d : DB) (u : Z) (device key : string) (now1 now2 : Z) (t : Keys) : (E2EEError + unit) * Keys :=
  if negb (ValidDeviceID device) then (inl ErrInvalidDevice, t)
  else if negb (ValidatePublicKey key) then (inl ErrInvalidPublicKey, t)
  else match t !! (u, device) with
  | Some r =>
      match dv_revoked_at r with
      | Some _ => (inl ErrKeyConflict, t)
      | None =>
          if String.eqb (dv_public_key r) key
          then (inr tt, <[(u, device) := r <| dv_last_used_at := now2 |>]> t)
          else (inl ErrKeyConflict, t)
      end
  | None =>
      let active := length (active_devices u t) in
      let t' := if MaxActiveDevices <=? active then revoke_oldest now1 u (active - MaxActiveDevices + 1) t else t in
      if negb (has_key (db_users d) u) then (inl (ErrE2EEConstraint ForeignKey), t)
      else (inr tt, <[(u, device) := mkDeviceRow key now2 None now2]> t')
  end.

Definition Revoke (u : Z) (device : string) (now : Z) (t : Keys) : (E2EEError + unit) * Keys :=
  if negb (ValidDeviceID device) then (inl ErrInvalidDevice, t)
  else match t !! (u, device) with
  | Some r => if live_device r then (inr tt, revoke_key now (u, device) t) else (inl ErrE2EENotFound, t)
  | None => (inl ErrE2EENotFound, t)
  end.

Definition shares_server (d : DB) (a b : Z) : bool :=
  existsb (fun e : Z * Z * member_row => (e.1.2 =? a)%Z && bool_decide (is_Some (db_members d !! (e.1.1, b))))
    (map_to_list (db_members d)).
Definition shares_conversation (d : DB) (a b : Z) : bool :=
  existsb (fun k : Z * Z => (k.2 =? a)%Z && bool_decide ((k.1, b) ∈ ps_conversation_members (db_posts d)))
    (elements (ps_conversation_members (db_posts d))).

Definition device_before (a b : Z * string * device_row) : Prop := string_le a.1.2 b.1.2.
#[export] Instance device_before_dec a b : Decision (device_before a b).
Proof. unfold device_before. apply _. Defined.

(** Identifier, key and time of creation. *)
Definition Devices (d : DB) (viewer target : Z) (t : Keys) : E2EEError + list (string * string * Z) :=
  if negb ((viewer =? target)%Z || shares_server d viewer target || shares_conversation d viewer target)
  then inl ErrE2EENotFound
  else match db_users d !! target with
  | Some x =>
      inr (if bool_decide (us_deleted_at x = None)
           then (fun e : Z * string * device_row => (e.1.2, dv_public_key e.2, dv_created_at e.2)) <$>
                merge_sort device_before (active_devices target t)
           else [])
  | None => inr []
  end.

Definition DeviceActive (u : Z) (device : string) (t : Keys) : bool :=
  ValidDeviceID device && match t !! (u, device) with Some r => live_device r | None => false end.

(** ** The policy of a channel *)

Definition ChannelRequired (ch : Z) (d : DB) : E2EEError + bool :=
  match db_channels d !! ch with Some c => inr (ch_e2ee_required c) | None => inl ErrE2EENotFound end.

Definition voice_channel (s ch : Z) (d : DB) : option channel_row :=
  c ← find_channel s ch d; if ch_voice c then Some c else None.

Definition ChannelPolicy (s ch u : Z) (d : DB) : E2EEError + bool :=
  match voice_channel s ch d with
  | Some c => if bool_decide (is_Some (db_members d !! (s, u))) then inr (ch_e2ee_required c) else inl ErrE2EENotFound
  | None => inl ErrE2EENotFound
  end.

Definition SetChannelPolicy (s ch u : Z) (required : bool) (d : DB) : (E2EEError + bool) * DB :=
  match voice_channel s ch d with
  | None => (inl ErrE2EENotFound, d)
  | Some c =>
      if negb (has_role s u [RoleOwner; RoleAdmin] d) then (inl ErrE2EEForbidden, d)
      else if Bool.eqb (ch_e2ee_required c) required then (inr false, d)
      else (inr true, d <| db_channels ::= <[ch := c <| ch_e2ee_required := required |>]> |>)
  end.

(** ** http.go, with the callbacks of the program *)

Definition devices_changed (u : Z) : list service_request := [SvRevalidate u].
Definition policy_changed (s ch : Z) : list service_request :=
  [SvResetVoice ch VoiceWebRTCClosedReasonE2EEPolicy;
   SvPublishToServer s (new_event EventChannelsChanged (DServerDeleted s))].

Definition e2ee_register (d : DB) (u : Z) (device key : string) (now1 now2 : Z) (t : Keys)
    : (E2EEError + unit) * list service_request * Keys :=
  match Register d u device key now1 now2 t with
  | (inr x, t) => (inr x, devices_changed u, t)
  | (inl e, t) => (inl e, [], t)
  end.
Definition e2ee_revoke (u : Z) (device : string) (now : Z) (t : Keys)
    : (E2EEError + unit) * list service_request * Keys :=
  match Revoke u device now t with
  | (inr x, t) => (inr x, devices_changed u, t)
  | (inl e, t) => (inl e, [], t)
  end.
Definition e2ee_set_policy (s ch u : Z) (required : bool) (d : DB) : Outcome E2EEError bool :=
  match SetChannelPolicy s ch u required d with
  | (inr changed, d) => (inr required, if changed : bool then policy_changed s ch else [], d)
  | (inl e, d) => (inl e, [], d)
  end.
End e2ee.
