(* ===== verification/E2EEProps.v ===== *)
(** * Encrypted voice: the theorems

    What the registry of devices promises its users over any run of calls, and
    what a change of devices or of the policy of a channel does to the voice
    connections in the hub. *)

From S2P Require Import Prelude GoText Events Client VoiceState StreamState Hub HubInv HubSpecs HubOps HubReach HubMedia HubSystem HubProps.
From S2P Require Import Publishers Tables Posts Store Accounts Members StoreInv StoreProps Invites Community CommunityProps Roles ReadState Mentions Messages Channels ChannelFacts ChannelProps WsHandler E2EE.

(** ** Order of use *)

Lemma string_le_spec a b : string_le a b ↔ String.le a b.
Proof. symmetry. apply Is_true_true. Qed.
#[export] Instance used_before_refl : Reflexive used_before.
Proof. intros a. right. split; [done|]. by apply string_le_spec. Qed.
#[export] Instance used_before_trans : Transitive used_before.
Proof.
  intros a b c. unfold used_before. rewrite !string_le_spec. intros [?|[E H1]] [?|[E' H2]]; try (left; lia).
  right. split; [lia|]. by transitivity b.1.2.
Qed.
#[export] Instance used_before_total : Total used_before.
Proof.
  intros a b. unfold used_before. rewrite !string_le_spec. destruct (total String.le a.1.2 b.1.2); lia || tauto || idtac.
  all: set (x := Z.max _ _); set (y := Z.max _ _); destruct (Z.lt_trichotomy x y) as [?|[?|?]]; auto.
Qed.

(** ** Active devices *)

Lemma elem_of_active u t e :
  e ∈ active_devices u t ↔ t !! e.1 = Some e.2 ∧ e.1.1 = u ∧ dv_revoked_at e.2 = None.
Proof.
  unfold active_devices, live_device. rewrite list_elem_of_filter, bool_decide_eq_true. destruct e as [k r].
  rewrite elem_of_map_to_list. simpl. tauto.
Qed.
Lemma active_devices_NoDup u t : NoDup (active_devices u t).*1.
Proof.
  eapply sublist_NoDup; [apply (NoDup_fst_map_to_list t)|]. apply fmap_sublist, sublist_filter.
Qed.

(** The identifiers of the active devices of a user. *)
Definition active_keys (u : Z) (t : Keys) : gset (Z * string) := list_to_set (active_devices u t).*1.
Lemma elem_of_active_keys u t k :
  k ∈ active_keys u t ↔ ∃ r, t !! k = Some r ∧ k.1 = u ∧ dv_revoked_at r = None.
Proof.
  unfold active_keys. rewrite elem_of_list_to_set, list_elem_of_fmap. setoid_rewrite elem_of_active. split.
  - intros ([k' r]&->&?). eauto.
  - intros (r&?). by exists (k, r).
Qed.
Lemma active_size u t : size (active_keys u t) = length (active_devices u t).
Proof.
  unfold active_keys. rewrite size_list_to_set by apply active_devices_NoDup. apply length_fmap.
Qed.

(** ** Revocation of the oldest *)

Lemma revoke_keys_lookup now ks t k :
  NoDup ks → foldr (revoke_key now) t ks !! k =
    if decide (k ∈ ks) then (fun r => r <| dv_revoked_at := Some now |>) <$> t !! k else t !! k.
Proof.
  induction ks as [|x ks IH]; intros Hn; simpl; [done|]. apply NoDup_cons in Hn as [Hx Hn].
  unfold revoke_key at 1. destruct (decide (x = k)) as [->|Hne].
  - rewrite lookup_alter_eq, IH, (decide_False (P := k ∈ ks)), decide_True by (done || by left). done.
  - rewrite lookup_alter_ne, IH by done.
    destruct (decide (k ∈ ks)), (decide (k ∈ x :: ks)) as [Hin|Hin]; try done; set_solver.
Qed.

Definition oldest_devices (u : Z) (n : nat) (t : Keys) : list (Z * string) :=
  (take n (merge_sort used_before (active_devices u t))).*1.
Lemma oldest_NoDup u n t : NoDup (oldest_devices u n t).
Proof.
  unfold oldest_devices. rewrite fmap_take. eapply sublist_NoDup; [|apply sublist_take].
  rewrite (merge_sort_Permutation used_before). apply active_devices_NoDup.
Qed.
Lemma elem_of_oldest u n t k : k ∈ oldest_devices u n t → k ∈ active_keys u t.
Proof.
  intros ([k' r]&->&(i&Hi&_)%elem_of_take)%list_elem_of_fmap. apply list_elem_of_lookup_2 in Hi.
  rewrite merge_sort_Permutation in Hi. apply elem_of_list_to_set, list_elem_of_fmap. eauto.
Qed.
Lemma length_oldest u n t : length (oldest_devices u n t) = n `min` length (active_devices u t).
Proof. unfold oldest_devices. by rewrite length_fmap, length_take, merge_sort_Permutation. Qed.

Lemma revoke_oldest_lookup now u n t k :
  revoke_oldest now u n t !! k =
    if decide (k ∈ oldest_devices u n t) then (fun r => r <| dv_revoked_at := Some now |>) <$> t !! k else t !! k.
Proof. apply revoke_keys_lookup, oldest_NoDup. Qed.

Lemma revoke_oldest_active now u v n t :
  active_keys v (revoke_oldest now u n t) = active_keys v t ∖ list_to_set (oldest_devices u n t).
Proof.
  apply set_eq. intros k. rewrite elem_of_difference, !elem_of_active_keys, elem_of_list_to_set.
  setoid_rewrite revoke_oldest_lookup. destruct (decide (k ∈ oldest_devices u n t)) as [Hk|Hk]; [|naive_solver].
  split; [|naive_solver]. intros (r&Hr&_&Hl). apply fmap_Some in Hr as (r0&_&->). done.
Qed.

(** ** Calls *)

Inductive device_call :=
  | DcRegister (d : DB) (u : Z) (device key : string) (now1 now2 : Z)
  | DcRevoke (u : Z) (device : string) (now : Z).
Definition call_user (c : device_call) : Z := match c with DcRegister _ u _ _ _ _ | DcRevoke u _ _ => u end.

Section registry.
Context (P256 : string → bool).

Definition run_device (c : device_call) (t : Keys) : (E2EEError + unit) * list service_request * Keys :=
  match c with
  | DcRegister d u device key now1 now2 => e2ee_register P256 d u device key now1 now2 t
  | DcRevoke u device now => e2ee_revoke u device now t
  end.
Definition run_devices (cs : list device_call) (t : Keys) : Keys := foldl (fun t c => (run_device c t).2) t cs.

(** What may become of a row: its key stays, and a revocation is final. *)
Definition row_follows (r r' : device_row) : Prop :=
  dv_public_key r' = dv_public_key r ∧ dv_created_at r' = dv_created_at r ∧ (dv_revoked_at r ≠ None → r' = r).
Lemma row_follows_refl r : row_follows r r.
Proof. done. Qed.
Lemma row_follows_trans r1 r2 r3 : row_follows r1 r2 → row_follows r2 r3 → row_follows r1 r3.
Proof.
  intros (K1&C1&R1) (K2&C2&R2). split_and!; [congruence..|]. intros Hr. rewrite (R1 Hr) in R2. rewrite <- (R1 Hr). by rewrite (R1 Hr), R2.
Qed.

(** The registry after one call. *)
Record device_step (t t' : Keys) : Prop := {
  ds_bound : (∀ u, size (active_keys u t) <= MaxActiveDevices) → ∀ u, size (active_keys u t') <= MaxActiveDevices;
  ds_rows : ∀ k r, t !! k = Some r → ∃ r', t' !! k = Some r' ∧ row_follows r r';
  ds_valid : ∀ k r', t' !! k = Some r' → (∃ r, t !! k = Some r) ∨
    ValidDeviceID k.2 = true ∧ ValidatePublicKey P256 (dv_public_key r') = true
}.
Lemma device_step_refl t : device_step t t.
Proof. split; [done| |]; eauto using row_follows_refl. Qed.

(** What a successful registration does: the device is active with that key,
    and another device changes only when the user has as many as allowed and it
    is one of those used least recently; then it is revoked. *)
Definition registered (u : Z) (device key : string) (t t' : Keys) : Prop :=
  (∃ r, t' !! (u, device) = Some r ∧ dv_public_key r = key ∧ dv_revoked_at r = None) ∧
  ∀ k, k ≠ (u, device) → t' !! k = t !! k ∨
    MaxActiveDevices <= size (active_keys u t) ∧ t !! (u, device) = None ∧
    k ∈ oldest_devices u (size (active_keys u t) - MaxActiveDevices + 1) t.

Lemma Register_spec d u device key n1 n2 t :
  match Register P256 d u device key n1 n2 t with
  | (inl _, t') => t' = t
  | (inr _, t') => device_step t t' ∧ registered u device key t t'
  end.
Proof.
  unfold Register. destruct (ValidDeviceID device) eqn:Hid; cbn [negb]; [|done].
  destruct (ValidatePublicKey P256 key) eqn:Hkey; cbn [negb]; [|done].
  destruct (t !! (u, device)) as [r|] eqn:Hr.
  - destruct (dv_revoked_at r) eqn:Hrev; [done|]. destruct (String.eqb_spec (dv_public_key r) key) as [<-|]; [|done].
    set (r' := r <| dv_last_used_at := n2 |>). split; [split|split].
    + intros Hb v. etransitivity; [|apply (Hb v)]. apply subseteq_size. intros k.
      rewrite !elem_of_active_keys. intros (x&Hx&?). apply lookup_insert_Some in Hx as [[<- <-]|[_ Hx]]; [|eauto].
      exists r. naive_solver.
    + intros k x Hx. rewrite lookup_insert. case_decide; [subst k|by eauto using row_follows_refl].
      simplify_eq. exists r'. split; [done|]. split_and!; [done..|]. by rewrite Hrev.
    + intros k x Hx. apply lookup_insert_Some in Hx as [[<- _]|[_ Hx]]; left; eauto.
    + exists r'. by rewrite lookup_insert_eq.
    + intros k Hk. left. by rewrite lookup_insert_ne.
  - rewrite <- active_size. set (n := size (active_keys u t)). destruct (has_key (db_users d) u); cbn [negb]; [|done].
    set (t1 := if MaxActiveDevices <=? n then revoke_oldest n1 u (n - MaxActiveDevices + 1) t else t).
    assert (∀ k, t1 !! k = t !! k ∨ MaxActiveDevices <= n ∧ k ∈ oldest_devices u (n - MaxActiveDevices + 1) t ∧
      t1 !! k = (fun r => r <| dv_revoked_at := Some n1 |>) <$> t !! k) as H1.
    { intros k. subst t1. destruct (Nat.leb_spec MaxActiveDevices n); [|by left]. rewrite revoke_oldest_lookup. case_decide; auto. }
    assert (∀ v, size (active_keys v t1) <= if decide (v = u) then MaxActiveDevices - 1 else size (active_keys v t)) as Hsize.
    { intros v. subst t1. destruct (Nat.leb_spec MaxActiveDevices n) as [Hle|Hlt].
      - rewrite revoke_oldest_active. case_decide as Hv; [subst v|apply subseteq_size; set_solver].
        rewrite size_difference.
        + rewrite size_list_to_set by apply oldest_NoDup. rewrite length_oldest, <- active_size. fold n. unfold MaxActiveDevices in *. lia.
        + intros k Hk%elem_of_list_to_set. by eapply elem_of_oldest.
      - case_decide; [subst v; fold n; lia|done]. }
    clearbody t1. split; [split|split].
    + intros Hb v. assert (active_keys v (<[(u, device):=mkDeviceRow key n2 None n2]> t1) ⊆
        (if decide (v = u) then {[(u, device)]} else ∅) ∪ active_keys v t1) as Hsub.
      { intros k. rewrite elem_of_union, !elem_of_active_keys. intros (x&Hx&Hu&Hl).
        apply lookup_insert_Some in Hx as [[<- _]|[_ Hx]]; [left|right; eauto]. simpl in Hu. rewrite decide_True by done. set_solver. }
      apply subseteq_size in Hsub. etransitivity; [exact Hsub|]. rewrite size_union_alt.
      etransitivity; [apply Nat.add_le_mono_l, (subseteq_size _ (active_keys v t1)); set_solver|].
      pose proof (Hsize v) as Hv. pose proof (Hb v). unfold MaxActiveDevices in *.
      case_decide; [rewrite size_singleton|rewrite size_empty]; lia.
    + intros k x Hx. assert (k ≠ (u, device)) by congruence. rewrite lookup_insert_ne by done.
      destruct (H1 k) as [->|(_&Hold&->)]; [by eauto using row_follows_refl|]. rewrite Hx. eexists. split; [done|].
      apply elem_of_oldest, elem_of_active_keys in Hold as (y&Hy&_&Hl). simplify_eq. split_and!; [done..|]. by rewrite Hl.
    + intros k x Hx. apply lookup_insert_Some in Hx as [[<- <-]|[_ Hx]]; [by right|left].
      destruct (H1 k) as [E|(_&_&E)]; rewrite E in Hx; [eauto|]. apply fmap_Some in Hx as (y&?&_). eauto.
    + eexists. by rewrite lookup_insert_eq.
    + intros k Hk. rewrite lookup_insert_ne by done. destruct (H1 k) as [->|(?&?&_)]; [by left|by right].
Qed.

Lemma Revoke_spec u device now t :
  match Revoke u device now t with
  | (inl _, t') => t' = t
  | (inr _, t') => device_step t t' ∧ ValidDeviceID device = true ∧ ∃ r, t' !! (u, device) = Some r ∧ dv_revoked_at r ≠ None
  end.
Proof.
  unfold Revoke. destruct (ValidDeviceID device) eqn:Hid; simpl; [|done].
  destruct (t !! (u, device)) as [r|] eqn:Hr; [|done]. unfold live_device. case_bool_decide as Hl; [|done].
  assert (∀ k, revoke_key now (u, device) t !! k =
    if decide (k = (u, device)) then Some (r <| dv_revoked_at := Some now |>) else t !! k) as Hk.
  { intros k. unfold revoke_key. rewrite lookup_alter. destruct (decide ((u, device) = k)) as [<-|]; [|by rewrite decide_False by congruence].
    by rewrite Hr, decide_True. }
  split; [split|].
  - intros Hb v. etransitivity; [|apply (Hb v)]. apply subseteq_size. intros k. rewrite !elem_of_active_keys.
    setoid_rewrite Hk. case_decide; naive_solver.
  - intros k x Hx. rewrite Hk. case_decide; [subst k|by eauto using row_follows_refl]. simplify_eq.
    eexists. split; [done|]. split_and!; [done..|]. by rewrite Hl.
  - intros k x. rewrite Hk. case_decide; [subst k|]; left; eauto.
  - split; [done|]. rewrite Hk, decide_True by done. by eexists.
Qed.

Lemma run_device_step c t : device_step t (run_device c t).2.
Proof.
  destruct c; simpl; unfold e2ee_register, e2ee_revoke.
  - pose proof (Register_spec d u device key now1 now2 t) as Hs. destruct (Register _ _ _ _ _ _ _ _) as [[e|x] t']; simpl;
      [subst; apply device_step_refl|apply Hs].
  - pose proof (Revoke_spec u device now t) as Hs. destruct (Revoke _ _ _ _) as [[e|x] t']; simpl;
      [subst; apply device_step_refl|apply Hs].
Qed.

Definition registry_ok (t : Keys) : Prop :=
  (∀ u, length (active_devices u t) <= MaxActiveDevices) ∧
  ∀ k r, t !! k = Some r → ValidDeviceID k.2 = true ∧ ValidatePublicKey P256 (dv_public_key r) = true.

Lemma run_devices_follow cs t k r :
  t !! k = Some r → ∃ r', run_devices cs t !! k = Some r' ∧ row_follows r r'.
Proof.
  revert t r. induction cs as [|c cs IH]; intros t r Hr; [by eauto using row_follows_refl|].
  destruct (ds_rows _ _ (run_device_step c t) _ _ Hr) as (r1&Hr1&F1). destruct (IH _ _ Hr1) as (r2&Hr2&F2).
  exists r2. split; [done|by eapply row_follows_trans].
Qed.
Lemma run_devices_ok cs t : registry_ok t → registry_ok (run_devices cs t).
Proof.
  revert t. induction cs as [|c cs IH]; intros t [Hb Hv]; [done|]. apply IH.
  destruct (run_device_step c t) as [Sb Sr Sv]. split.
  - intros u. rewrite <- active_size. apply Sb. intros v. rewrite active_size. apply Hb.
  - intros k r Hr. destruct (Sv _ _ Hr) as [[r0 Hr0]|?]; [|done]. destruct (Sr _ _ Hr0) as (r'&Hr'&Hkey&_).
    simplify_eq. rewrite Hkey. by eapply Hv.
Qed.

(** C21: whatever calls are made, no user has more than ten active devices, and
    every device has an identifier and a key of the right form. A device once
    registered keeps its key for ever, and one that was revoked stays so, with
    nothing of its row changed. A registration that succeeds leaves the device
    active with that key, and touches another device only when the user already
    has ten and it is the one of them used least recently; one that fails
    changes nothing. *)
Theorem device_registry_sound cs cs' d u device key n1 n2 :
  let t := run_devices cs ∅ in
  registry_ok t ∧
  (∀ k r, t !! k = Some r → ∃ r', run_devices cs' t !! k = Some r' ∧ row_follows r r') ∧
  match Register P256 d u device key n1 n2 t with
  | (inl _, t') => t' = t
  | (inr _, t') => DeviceActive u device t' = true ∧ (dv_public_key <$> t' !! (u, device)) = Some key ∧
      ∀ k, k ≠ (u, device) → t' !! k ≠ t !! k →
        k ∈ active_keys u t ∧ size (active_keys u t) = MaxActiveDevices ∧
        ∀ k' r r', k' ∈ active_keys u t → t !! k = Some r → t !! k' = Some r' → used_before (k, r) (k', r')
  end.
Proof.
  intros t. assert (registry_ok t) as Hok.
  { apply run_devices_ok. split; [intros v; unfold active_devices; rewrite map_to_list_empty; simpl; lia|].
    intros k r. by rewrite lookup_empty. }
  split; [done|]. split; [intros k r; apply run_devices_follow|].
  pose proof (Register_spec d u device key n1 n2 t) as Hs.
  destruct (Register P256 d u device key n1 n2 t) as [[e|x] t'] eqn:Hreg; [done|].
  destruct Hs as [Hstep [(r&Hr&Hkey&Hl) Hothers]].
  assert (ValidDeviceID device = true) as Hid.
  { unfold Register in Hreg. by destruct (ValidDeviceID device). }
  split_and!; [unfold DeviceActive, live_device; by rewrite Hid, Hr, Hl|by rewrite Hr; simpl; rewrite Hkey|].
  intros k Hk Hne. destruct (Hothers k Hk) as [?|(Hle&_&Hold)]; [done|].
  assert (size (active_keys u t) = MaxActiveDevices) as Hsz.
  { pose proof (proj1 Hok u) as Hb. rewrite <- active_size in Hb. unfold MaxActiveDevices in *. lia. }
  split_and!; [by eapply elem_of_oldest|done|]. rewrite Hsz in Hold. unfold MaxActiveDevices in Hold. simpl in Hold.
  intros k' z z' Hk' Hz Hz'. unfold oldest_devices in Hold.
  assert (StronglySorted used_before (merge_sort used_before (active_devices u t))) as Hsorted.
  { apply StronglySorted_merge_sort; apply _. }
  assert ((k', z') ∈ merge_sort used_before (active_devices u t)) as Hin.
  { rewrite merge_sort_Permutation. apply elem_of_active. simpl. apply elem_of_active_keys in Hk' as (y&?&?&?). naive_solver. }
  destruct (merge_sort used_before (active_devices u t)) as [|e l] eqn:El; [by apply not_elem_of_nil in Hin|].
  simpl in Hold. apply list_elem_of_singleton in Hold. destruct e as [k0 x0]. simpl in Hold. subst k0.
  assert (x0 = z) as ->.
  { assert ((k, x0) ∈ merge_sort used_before (active_devices u t)) as H0 by (rewrite El; by left).
    rewrite merge_sort_Permutation in H0. apply elem_of_active in H0 as [H0 _]. simpl in H0. congruence. }
  apply StronglySorted_cons in Hsorted as [Hf _]. rewrite Forall_forall in Hf.
  apply elem_of_cons in Hin as [[= -> ->]|Hin]; [|by apply Hf]. reflexivity.
Qed.
End registry.

(** ** Live voice *)

Section voice.
Context `{MapOrder} (P256 : string → bool).

(** Resetting a channel and announcing it: nobody is in voice there. *)
Lemma policy_changed_empties s ch h :
  inv h → wp (run_effects (policy_changed s ch)) (fun _ h' =>
    ∀ c p, vs_byClient (h_voice h') !! c = Some p → vp_ChannelID p ≠ ch) h.
Proof.
  intros Hi. unfold run_effects, policy_changed. simpl. wp_step. eapply wp_mono; [by apply ResetVoiceChannel_empties|].
  intros [] h1 [Hk1 Hempty]. simpl. wp_step. unfold ignore. wp_step.
  eapply wp_mono; [apply PublishToServer_kept; [apply Hk1|by apply event_typed_new]|].
  intros n h2 Hk2. wp_steps. intros c p Hp. destruct (ag_voice _ _ (proj2 Hk2) c) as [E|E]; [congruence|].
  apply (Hempty c). congruence.
Qed.

Lemma run_device_effects c t x es t' : run_device P256 c t = (inr x, es, t') → es = [SvRevalidate (call_user c)].
Proof.
  destruct c; simpl; unfold e2ee_register, e2ee_revoke.
  - destruct (Register _ _ _ _ _ _ _ _) as [[?|?] ?]; naive_solver.
  - destruct (Revoke _ _ _ _) as [[?|?] ?]; naive_solver.
Qed.

(** C20: a change of devices or of the policy of a channel reaches the calls that
    are going on. When a registration or a revocation succeeded and the hub has
    handled what it was asked for, each connection of that user that is still
    in encrypted voice has a device that is active as the registry is by then;
    in particular it is not the revoked one. Only an owner or admin changes the
    policy of a voice channel, nothing else of it changes, and once the hub has
    handled the change nobody is left in voice in that channel. *)
Theorem encryption_changes_enforced y c t x es t' later s ch u required d answer es' d' :
  rtc sys_step init_system y →
  run_device P256 c t = (inr x, es, t') →
  h_voiceDeviceActive (sy_hub y) = Some (fun v device => Some (DeviceActive v device (run_devices P256 later t'))) →
  e2ee_set_policy s ch u required d = (inr answer, es', d') →
  wp (run_effects es) (fun _ h' => ∀ k p, vs_byClient (h_voice h') !! k = Some p → vp_UserID p = call_user c →
    vp_E2EEDeviceID p = "" ∨
    DeviceActive (call_user c) (vp_E2EEDeviceID p) (run_devices P256 later t') = true ∧
    ∀ v device now, c = DcRevoke v device now → vp_E2EEDeviceID p ≠ device) (sy_hub y) ∧
  managed_by s u d ∧
  (ch_e2ee_required <$> db_channels d' !! ch) = Some required ∧
  (∀ ch', ch' ≠ ch → db_channels d' !! ch' = db_channels d !! ch') ∧
  ((ch_e2ee_required <$> db_channels d !! ch) ≠ Some required →
   wp (run_effects es') (fun _ h' => ∀ k p, vs_byClient (h_voice h') !! k = Some p → vp_ChannelID p ≠ ch) (sy_hub y)).
Proof.
  intros Hy Hrun Hcheck Hpolicy. pose proof (yi_inv _ (reachable_inv y Hy)) as Hi. split.
  - rewrite (run_device_effects _ _ _ _ _ Hrun). unfold run_effects. simpl. wp_step.
    eapply wp_mono; [by apply RevalidateVoiceE2EE_evicts|]. intros [] h' [_ Hev]. wp_step. intros k p Hp Hu.
    destruct (Hev _ k p Hcheck Hp Hu) as [?|[= Hact]]; [by left|right]. split; [done|]. intros v device now -> Hdev.
    simpl in Hrun, Hact. unfold e2ee_revoke in Hrun. pose proof (Revoke_spec P256 v device now t) as Hs.
    destruct (Revoke v device now t) as [[e|[]] t1]; [done|]. simplify_eq. destruct Hs as (_&_&r&Hr&Hrev).
    destruct (run_devices_follow P256 later t' _ _ Hr) as (r'&Hr'&_&_&Hfin). rewrite (Hfin Hrev) in Hr'.
    unfold DeviceActive, live_device in Hact. rewrite Hr', bool_decide_false in Hact by done.
    by rewrite andb_false_r in Hact.
  - unfold e2ee_set_policy, SetChannelPolicy, voice_channel in Hpolicy.
    destruct (find_channel s ch d) as [c0|] eqn:Hc; simpl in Hpolicy; [|done]. apply find_channel_Some in Hc as [Hc Hs].
    destruct (ch_voice c0); [|done]. destruct (has_role s u [RoleOwner; RoleAdmin] d) eqn:Hrole; [|done].
    apply has_role_managed in Hrole. simpl in Hpolicy. rewrite Hc. simpl.
    destruct (ch_e2ee_required c0) eqn:Hold, required; simpl in Hpolicy; simplify_eq; simpl; rewrite ?Hc, ?lookup_insert_eq; simpl.
    all: split_and!; try done; try congruence.
    all: try (intros; by rewrite lookup_insert_ne).
    all: intros _; by apply policy_changed_empties.
Qed.
End voice.

(** ** Instances *)

#[local] Existing Instance key_order.
#[local] Existing Instance toy.

Definition any_point (_ : string) : bool := true.
Definition device_id (c : Ascii.ascii) : string := Nat.iter 32 (String c) "".
Definition device_key (c : Ascii.ascii) : string := String (Ascii.ascii_of_nat 4) (Nat.iter 64 (String c) "").
Definition digit (n : nat) : Ascii.ascii := Ascii.ascii_of_nat (48 + n).

(** User 2 registers two devices and revokes the first. *)
Definition sample_devices : Keys :=
  run_devices any_point [DcRegister sample_channels 2 (device_id (digit 0)) (device_key (digit 0)) 400 400;
    DcRegister sample_channels 2 (device_id (digit 1)) (device_key (digit 1)) 401 401] ∅.
Definition sample_revoke : device_call := DcRevoke 2 (device_id (digit 0)) 402.
Definition sample_revoked : Keys := (run_device any_point sample_revoke sample_devices).2.
Definition sample_policy : Outcome E2EEError bool := e2ee_set_policy 1 3 1 true sample_channels.

Definition voice_trace : list action :=
  [ AConnect 1%positive 2 "k1" [1]%Z; ARegister 1%positive;
    AClient 1%positive (RqJoinVoice 1 3 false false (device_id (digit 0))) ].
Definition joined_system : System := default init_system (run voice_trace init_system).
Definition sample_check (v : Z) (device : string) : option bool :=
  Some (DeviceActive v device (run_devices any_point [] sample_revoked)).
Definition voice_system : System :=
  mkSystem ((sy_hub joined_system) <| h_voiceDeviceActive := Some sample_check |>)
    (sy_counter joined_system) (sy_accepted joined_system).

Lemma voice_system_reachable : rtc sys_step init_system voice_system.
Proof.
  assert (is_Some (run voice_trace init_system)) as [y Hy].
  { apply (bool_decide_unpack _). vm_compute. reflexivity. }
  assert (joined_system = y) as E by (unfold joined_system; by rewrite Hy).
  eapply rtc_r; [exact (run_reachable voice_trace init_system y Hy)|]. unfold voice_system. rewrite E.
  by eapply (sys_service y (SvDeviceValidator sample_check)).
Qed.

Lemma encryption_changes_enforced_witness :
  (vp_E2EEDeviceID <$> vs_byClient (h_voice (sy_hub voice_system)) !! 1%positive) = Some (device_id (digit 0)) ∧
  wp (run_effects [SvRevalidate 2]) (fun _ h' => ∀ k p, vs_byClient (h_voice h') !! k = Some p → vp_UserID p = 2%Z →
    vp_E2EEDeviceID p ≠ device_id (digit 0)) (sy_hub voice_system) ∧
  wp (run_effects (policy_changed 1 3)) (fun _ h' => ∀ k p, vs_byClient (h_voice h') !! k = Some p → vp_ChannelID p ≠ 3%Z)
    (sy_hub voice_system).
Proof.
  split; [vm_compute; reflexivity|].
  assert (run_device any_point sample_revoke sample_devices = (inr tt, [SvRevalidate 2], sample_revoked)) as Hrun
    by (vm_compute; reflexivity).
  assert (sample_policy = (inr true, policy_changed 1 3, sample_policy.2)) as Hpolicy
    by (apply outcome_eq; vm_compute; reflexivity).
  assert (h_voiceDeviceActive (sy_hub voice_system) = Some sample_check) as Hcheck by reflexivity.
  pose proof (encryption_changes_enforced any_point voice_system sample_revoke sample_devices tt [SvRevalidate 2] sample_revoked
    [] 1 3 1 true sample_channels true (policy_changed 1 3) sample_policy.2 voice_system_reachable Hrun Hcheck Hpolicy)
    as (Hdev&_&_&_&Hreset).
  split; [|apply Hreset; vm_compute; discriminate].
  eapply wp_mono; [exact Hdev|]. intros [] h' Hh k p Hp Hu E.
  destruct (Hh k p Hp Hu) as [Hnone|[_ Hne]]; [rewrite E in Hnone; vm_compute in Hnone; discriminate Hnone|].
  exact (Hne 2%Z (device_id (digit 0)) 402%Z eq_refl E).
Defined.
